(* ===== verification/_CoqProject ===== *)
-Q . S2P
Prelude.v
Json.v
Url.v
Base64.v
Time.v
Types.v
Effects.v
Scenario.v
Repos.v
FlashMock.v
Flash.v
PlanCache.v
CheckoutUrl.v
FlashProps.v
Billing.v
Entitlement.v
EntitlementProps.v
Webhook.v
BillingSync.v
SchedulingAdmin.v
SubscriptionView.v
AdminBilling.v
Coherence.v
RowInvariants.v
DeliveryProps.v
WebhookProps.v
SyncProps.v
OperatorProps.v
ViewProps.v
ResultQueue.v
ResultQueueProps.v
Binary64.v
Atomic.v
Runs.v
PublishPlan.v
Pipeline.v
Scheduler.v
PipeScenario.v
PipelineProps.v
PublishProps.v
SchedulerProps.v
CycleProps.v
QuotaProps.v
RelayPublisher.v
RelayProps.v
RelayLiveness.v
PublisherRefinement.v
LeaderLock.v
Tables.v
RateLimit.v
Support.v
SupportSpec.v
SupportRefinement.v
SupportPoll.v
SupportProps.v
SupportScenario.v
NostrTags.v
Tagging.v
TaggingProps.v
NostrGraph.v
NostrGraphProps.v
IngestProps.v
Transfer.v
TransferProps.v
TrustedLists.v
TrustedListProps.v
TrustedListRun.v
Onboarding.v
DutyMenu.v
SelfMap.v
SelfKeys.v
SelfMapProps.v
SelfMapExact.v
TreasureMap.v
TreasureMapProps.v
PasskeyVault.v
PasskeyProps.v
Sessions.v
ShortUrl.v
PathNetwork.v
