(* ===== verification/Prelude.v ===== *)
(** * The Brainstorm server

    Brainstorm is a FastAPI server (src/app) that recalculates web-of-trust
    scores (GrapeRank) for its users and publishes them to a Nostr relay as
    Trusted Assertions.  How often a user is served is a row of the table
    [scheduling], the policy; who is on which policy is a column of
    [brainstorm_nsec].  Modelled here are: billing, which decides from the state of
    Flash, an external payment service, which policy each user receives; the run
    pipeline, which admits runs, hands them to an external calculation worker over
    Redis, and settles, stores and publishes the results; the ingestion of Nostr
    events into the social graph; what the server publishes under each user's
    Assistant key (Trusted Lists, the Duty Menu, the Treasure Map); sessions, the
    passkey vault and short links; and the support desk with its rate limits.

    ** The program and how its parts meet

    Billing:
    - [core/flash.py] asks Flash: by reference (the user's public key) or by
      subscription id, with bounded retries, telling "Flash has none" from "we
      could not ask".  [core/flash_mock.py] stands in for Flash in development;
      [core/flash_plan_cache.py] keeps Flash's plans in Redis for the pricing
      page.
    - [services/billing_service.py] holds the decision table, the truth table
      of what to write, and [apply_entitlement], which locks the user, reads
      Flash, and commits the record and the assignment together; also the plan
      mappings, blocks, operator actions, attribution of signups that named
      nobody, and what a payload alone may do when Flash cannot be read.
    - [services/flash_webhook_service.py] verifies, records and acknowledges
      Flash's deliveries, then calls [apply_entitlement] in the background.
    - [services/billing_sync_service.py], run by [cronjobs/billing_sync.py],
      replays deliveries nobody finished, takes back what has lapsed and
      re-reads what only Flash can settle.
    - [services/subscription_view_service.py] and
      [services/billing_visibility_service.py] are the read side: one user's
      view, the public pricing page, and the operators' divergence report.

    Runs:
    - [cronjobs/scheduler.py], elected by [services/leader_lock.py], ranks the
      overdue users with [services/scheduler.py] and admits some of them; users
      and operators trigger runs too, within [services/manual_quota.py].
    - [services/brainstorm_request_service.py] inserts a row, commits it and
      pushes one message on the lane of [services/scheduler_lanes.py]; the worker
      answers on three result queues and a job-started queue.
    - [message_queue_tasks/result_queue.py] delivers each result to its consumer
      at least once, with a bounded number of attempts, and frees the shared
      payload when the last consumer is done.
    - [message_queue_consumer.py] settles the run, [write_neo4j_results.py] writes
      scores to the graph, [upload_nostr_events.py] plans what to assert and what
      to delete and hands the signed stream to [relay_publisher.py], which confirms
      every event or reports that it could not.
    - [cronjobs/fail_stale_ongoing_brainstorm_requests.py] fails what got stuck;
      [cronjobs/periodic_graperank_trigger.py] keeps the platform's own observer
      up to date.

    Events:
    - [message_queue_tasks/process_strfry_event.py] takes each event of the local
      relay into Neo4j, Redis and Postgres: follows, mutes, reports and their
      deletions, designations, taggings ([services/tagging_parse.py],
      [repos/tagging_repo.py], [services/report_graph_service.py]).
      [backfill_redis_relationships.py] rebuilds the Redis sets from Neo4j;
      [services/onboarding_service.py] takes a first follow list over HTTP.
    - [nostr_event_transferer/] copies events from another relay, page by page.

    The Assistant:
    - [services/trusted_list_service.py] publishes, from the taggings and the scores,
      one list per tag and retracts those that are no longer earned.
    - [services/duty_menu_build.py] and [duty_menu_service.py] say what the Assistant
      offers; [services/self_map_build.py] computes from an Observer's own Map what
      the Assistant's Map should say, and [self_map_service.py] shows and publishes
      it through [services/assistant_publish.py].

    Identity and links:
    - [services/auth_service.py] gives a token to whoever answers a challenge with a
      signed event; [services/session_service.py] signs users out by raising their
      session version, which [utils/api_validators.py] compares on every request.
      [utils/auth/nip98.py] and [nwt.py] take a signed event instead of a token.
    - [services/passkey_vault_service.py] keeps sealed copies of users' keys, opened
      only to an assertion of the passkey that seals them ([utils/webauthn.py]).
    - [services/shorturl_service.py] gives entities short codes.

    Support: [services/support_service.py] and its repository are tickets, messages
    and the record of moves; [utils/rate_limiting/] counts requests in Redis.

    [repos/] and [core/database.py] are the statements and the sessions, the
    routers the endpoints that compose all this.

    ** Which file models what

    - [Prelude]: results and exceptions, SQL's three-valued logic, stable
      sorting, insertion-ordered dicts.  [Json]: decoded JSON, strings and
      Python's string operations.  [Time]: the calendar, [datetime.fromisoformat]
      and [parse_flash_timestamp].  [Binary64]: Python's floats as rationals
      rounded to 53 bits, with the error of one operation.
    - Billing.  [Types]: Flash's dataclasses and the five tables.  [Effects]: the
      world, the monad [M] of handlers, sessions, commits and failures, with the
      proof rules ([wp], [stable], [safe]) the rest uses.  [Repos]: every
      statement.  [FlashMock], [Flash], [PlanCache], [CheckoutUrl]: Flash and
      what is read from it.  [Billing]: the entitlement service.  [Webhook],
      [BillingSync], [SchedulingAdmin], [SubscriptionView] (which ends with the divergence
      report), [AdminBilling]: the other services and the endpoints, each named after its
      source.  [Entitlement], [EntitlementProps], [Coherence], [RowInvariants],
      [DeliveryProps], [WebhookProps], [SyncProps], [OperatorProps],
      [FlashProps], [ViewProps]: the theorems.  [Scenario]: a small deployment on
      which witnesses evaluate.
    - Runs.  [Atomic]: a handler as a sequence of committed units ([act]), any
      number of them interleaved with faults ([pool_step]), and the rule by which
      an invariant of all interleavings is shown unit by unit ([safe_from],
      [within]).  [Runs]: the state [Pipe] and every statement on it.
      [PublishPlan]: tiers, assertions, deletions and the plan, all pure.
      [Pipeline]: creation of a run, the consumers, the reaper, the periodic
      trigger.  [Scheduler]: candidates, ranking, lanes, one cycle, the quota and
      the manual trigger.  [LeaderLock]: the lock, command by command.
      [ResultQueue]: the queue's consumers as sequences of Redis commands
      ([prog]) over a store ([Sys]).  [RelayPublisher]: the publisher's tasks as
      steps of one event loop ([pub_step]).  [PipelineProps], [PublishProps],
      [SchedulerProps], [CycleProps], [QuotaProps],
      [ResultQueueProps], [RelayProps], [RelayLiveness], [PublisherRefinement]:
      the theorems.  [PipeScenario]: a small deployment.
    - Support.  [Tables]: tables keyed by a serial id, and order of text.  [RateLimit]: the
      window counter, command by command.  [Support]: the three tables, every handler
      and endpoint, digests and ETags.  [SupportSpec]: threads, the abstract desk;
      [SupportRefinement] that the tables implement it, [SupportPoll] and
      [SupportProps] the poll and who sees what, [SupportScenario] concrete tables.
    - Events.  [NostrTags]: decoded events, their tags, public keys and the
      designation parser.  [Tagging], [TaggingProps]: taggings.  [NostrGraph]: the graph, the Redis
      sets and each kind's handler as units; [NostrGraphProps] and [IngestProps] their
      theorems.  [Transfer],
      [TransferProps]: the two copying loops.  [Onboarding]: the first follow list.
    - The Assistant.  [TrustedLists], [TrustedListProps], [TrustedListRun]: the lists.  [Url]:
      [urlsplit].  [DutyMenu]: the offer, the menu and the relays events go to.
      [SelfMap]: the whole engine of the Treasure Map, in the order of its source;
      [SelfKeys] its keys, [SelfMapProps] what is claimed, [SelfMapExact] what is
      listed under today's offer.  [TreasureMap]: one request, from the relays'
      frames to what is sent and stored; [TreasureMapProps] its theorems.

    - Identity and links.  [Base64]: base64 and big-endian numbers.  [PasskeyVault]: assertions,
      challenges, the table and the four requests; [PasskeyProps] their theorems.
      [Sessions]: tokens, signed requests, the state [Auth] and its handlers as units,
      then their theorems.  [ShortUrl]: keys, codes, minting, and its theorem.

    A definition carries the name of the function it translates; a private
    [_name] loses its underscore, and a few names that would clash are given in
    the comment beside them.  In billing, [M A] is [World -> res exn A * World]: a
    handler threads the tables as the session sees them ([working]) and as they
    are durable ([committed]), and may raise.  In the run pipeline, [TX] is the
    body of one session and [act] the handler around it.  Bodies of long functions
    are split into named parts ([consult] and [grant_and_record] of
    [apply_entitlement], [begin_publish], [publish_run] and [finish_publish] of
    [process_nostr_upload_message], one definition per loop body); the composition
    is the source's.

    ** What is an oracle

    In billing, what the code cannot decide is a field of the class [Env], read at
    the current tick: the application's and the database's clocks, Flash's answer
    to each request, a failure of each statement and of each commit (before or
    after it lands), row locks held by other sessions, the order of rows a query
    leaves open, Redis failures, JSON decoding, UTF-8 decoding, the digests and
    the text of library exceptions.  No law is assumed of any of them, so a
    theorem holds of every answer and every failure; the few that need a working
    database or Redis say so in a hypothesis.  Whether the ORM expires loaded
    objects at a rollback is a field as well; the theorems that depend on it
    name it.

    In the pipeline the class [PipeEnv] holds the settings, the clock-dependent
    answers of the outside and the publisher's report.  The publication theorems
    are proved against the class [PublisherLaws] (a complete report means the relay
    has it all), and [PublisherRefinement] shows that the publisher's own state
    machine keeps these laws for any relay that keeps what it acknowledges.
    [QueueEnv] holds JSON decoding; signing is an argument.

    Elsewhere the classes are: [DeskEnv] (settings, SHA-1 and the pagination library
    of the desk), [TagEnv] and [GraphEnv] (JSON decoding, the frames of the report
    query), [RowOrder] (the order of rows a query leaves open), [RelayEnv] (what the
    relay copied from answers, and the clock), [ListEnv] and [PowEnv] (settings,
    scores and relays of a run of Trusted Lists, Python's [pow]), [NostrSdk] and
    [PublishEnv] (building, signing and verifying events), [VaultEnv] (digests, key
    loading, signature checks and JSON of the vault), [AuthEnv] (PyJWT, pydantic's
    coercions and the settings of sessions), [Nip19Env] (NIP-19 encodings), [DutyEnv] (settings and the
    host check of [urlsplit]).  What libraries document is assumed in three classes:
    [SignerLaws] (an event built and signed carries what it was built with and
    verifies), [DigestLaws] (digests are 32 bytes long) and [RefusalLaws] (which
    exceptions loading and decoding raise); the theorems that need one name it, and the
    modules [Scenario] and [VaultScenario] instantiate the first two.

    ** What the theorems show

    - Entitlement ([EntitlementProps], [Coherence]): a policy moves only on
      Flash's word about that user; when a status revokes; the record and the
      assignment commit together; nobody else moves; an administrator's
      assignment survives; and over every sequence of operations what billing
      recorded granting is what the user receives.
    - Deliveries ([DeliveryProps], [WebhookProps]): what is accepted, that an
      acknowledged delivery is durable and takes effect once, that recorded
      deliveries are never lost, that claims exclude each other and attempts are
      bounded, and that only a settled subscriber marks an event processed.
    - Periodic billing jobs ([SyncProps]): the sweep takes back exactly what
      lapsed, the batch reads those longest unread, a payload alone never grants.
    - Operators ([OperatorProps], [SchedulingAdmin]): blocks, mappings,
      attribution and dismissal do what they say and no more; one default policy
      always remains.
    - Flash and the views ([FlashProps], [CheckoutUrl], [ViewProps]): retries
      are bounded and writes not repeated, absence is a fact, dates run to the
      end of their day, the mock agrees with the client; the view, the pricing
      page and the report say neither more nor less than the tables.
    - Result queue ([ResultQueueProps]): over all interleavings of the three
      consumers, the worker and restarts, no message is lost, attempts are capped,
      a payload outlives its readers and is read whole, and a queue drains; a
      message that does not decode blocks its queue.
    - Runs ([PipelineProps]): over all interleavings with faults
      a run's outcome is settled once and a queued message names a committed row;
      creation leaves one waiting row and one message or one failed row; the reaper
      is exact; the SQL and the Python notion of "in the pipeline" agree.
    - Publication ([PublishProps], [RelayProps], [RelayLiveness],
      [PublisherRefinement]): the plan is the diff, deletions and assertions are
      disjoint, the stored baseline round-trips, a full publication is exact, a
      failed one forces a full one; the publisher loses no event, is bounded, can
      always finish, and keeps the laws the stage relies on.
    - Scheduling ([SchedulerProps], [CycleProps], [QuotaProps], [LeaderLock]):
      the ranking is exact to the microsecond although the code compares floats;
      weighted admission stays within a slot and a thousandth of each tier's
      share; a cycle admits exactly what the budget and the ranking allow and
      never loads the pipeline beyond the target; the quota's reset time is exact;
      leaders are a lock's lifetime apart unless the lock expires between a read
      and its renewal.

    - Events ([NostrGraphProps], [IngestProps], [TaggingProps],
      [TransferProps], [Onboarding]): over every sequence of events, Redis mirrors the
      graph, which mirrors each author's last word; the rebuild reads every page and
      ends; the graph stays well typed; a tagging's latest version wins; the transfer
      of recent events is exact and both transfers end, but for the cases the findings
      name; a follow list is accepted exactly when it should be.
    - The Assistant ([TrustedListProps], [TrustedListRun], [SelfKeys],
      [SelfMapProps], [SelfMapExact], [TreasureMapProps]): a list's members are
      those the tally earns, a run publishes exactly the lists and retracts only
      slots it was shown; a Map's key parses back from its spelling and the
      engine's finitely many probes stand for every address; the Assistant never
      claims a duty it does not keep, and under today's offer claims exactly the
      metrics the Observer gave it; a press publishes what its check says or
      nothing, stores the choice when it succeeds, and pressed again sends nothing.
    - Identity and links ([Sessions], [PasskeyProps], [ShortUrl]): over every
      interleaving with failures, a sign-out takes hold within a minute of its commit, but
      for writes to the cache that stall; a login challenge is taken once, in time and
      for the key it was issued for; a vault's challenge is spent once by replicas whose
      clocks agree; nobody but its owner changes a vault, an honest ceremony gets the
      stored blob back, and every refusal looks the same; a short code resolves to its
      entity for good, however it is typed.
    - Support ([SupportRefinement], [SupportPoll], [SupportProps],
      [RateLimit]): the tables implement threads, threads only grow, users see only
      their own, a poll answered "unchanged" is unchanged when writers do not overlap,
      and a window admits no more than its limit.

    Billing's sequences of operations are [Coherence.run_op] and
    [RowInvariants.run_all]: handlers run one after another, each in its own
    session; within a handler every statement may fail.  In the pipeline handlers
    interleave at their commits and calls.

    ** Bounds and fuel

    [_with_retries] makes [CONNECT_RETRIES + 1 = 4] attempts and
    [_apply_with_db_retries] makes [DB_RETRIES = 3]; the model recurses on the
    attempts left, and the branch for none left is never reached from those
    counts.  [read_chunks] recurses on the payload's size (each round reads at
    least one byte), [unpack_chunks] and [chunks] on the length of what is cut
    (each round takes at least one element), [admit_loop] on the number of candidates
    (each round takes one).  [backfill_pages],
    [transfer_loop] and [recent_loop] carry fuel, and the termination theorems name the
    amount that is enough.  [latest_of] and the other readers recurse on the frames
    received: a list that ends before the end-of-stored-events frame is a deadline that
    passes.  The consumers' endless loops are relations
    ([sys_step], [pub_step]) and not fuelled.  Integers are unbounded as in
    Python; what PostgreSQL would refuse at 32 bits is refused at billing's
    statements, and the ranking theorem names the ranges in which float and exact
    comparison agree.

    ** What is not modelled

    In billing, interleaving of two handlers statement by statement: the user's
    row lock is an oracle and the claim is one statement, so what two sessions can
    do to each other is limited to those.  In the pipeline, interleaving inside
    one session.  Text outside Latin-1.  Log lines, sleeps, timings, HTTP response
    shapes.

    Left out as library calls or I/O: signing, hashing and encryption
    ([utils/encryption.py], [services/nsec_encryption_service.py]), websocket framing,
    the calculation worker (another program).  Left out because their logic is query
    text sent to Neo4j or an aggregate of a dashboard: [repos/user_repo.py] beyond the
    asserters of Trusted Lists, [services/graph_service.py], [services/user_service.py],
    [services/scheduler_stats_service.py].  Left out as separate small features:
    NIP-05 names and the Assistant's profile events.
    Left out as glue: start-up, routing, the admin panel, the LOCAL-only billing test
    surface, the event-loop probe. *)

From stdpp Require Export base list gmap strings pretty option.
From Stdlib Require Export ZArith Lia Sorted.

(** [lia] with quotients and remainders by constants. *)
Ltac div_lia := Z.to_euclidean_division_equations; lia.

(** ** Results of code that may raise *)

(** A Python call either returns or raises; [E] is the exception type. *)
Inductive res (E A : Type) : Type :=
  | Ok (a : A)
  | Raise (e : E).
Arguments Ok {E A} a.
Arguments Raise {E A} e.

#[export] Instance res_mret E : MRet (res E) := fun _ a => Ok a.
#[export] Instance res_mbind E : MBind (res E) := fun A B f r =>
  match r with Ok a => f a | Raise e => Raise e end.
#[export] Instance res_fmap E : FMap (res E) := fun A B f r =>
  match r with Ok a => Ok (f a) | Raise e => Raise e end.

Definition is_ok {E A} (r : res E A) : bool :=
  match r with Ok _ => true | Raise _ => false end.

(** The exceptions that reach a handler the development models. *)
Inductive db_error :=
  | OperationalError | InterfaceError | IntegrityError | DataError | PendingRollback.

Inductive exn :=
  | FlashUnavailable (msg : string)
  | FlashCredentialError
  | FlashRefused (status_code : Z)
  | FlashServiceMissing (service_id : string)
  | FlashSignatureError (reason : string) (status_code : Z)
  | FlashConfigError
  | HTTPException (status_code : Z)
  | DbError (kind : db_error)
  | TypeError
  | AttributeError
  | OverflowError
  | KeyError
  | OtherException (what : string).

#[export] Instance db_error_eq_dec : EqDecision db_error.
Proof. solve_decision. Defined.
#[export] Instance exn_eq_dec : EqDecision exn.
Proof. solve_decision. Defined.

(** ** SQL three-valued logic

    A comparison with NULL is neither true nor false; a WHERE clause keeps a
    row only when it evaluates to [TTrue]. *)
Inductive tri := TTrue | TFalse | TNull.

#[export] Instance tri_eq_dec : EqDecision tri.
Proof. solve_decision. Defined.

Definition tri_of_bool (b : bool) : tri := if b then TTrue else TFalse.

Definition tri_and (a b : tri) : tri :=
  match a, b with
  | TFalse, _ | _, TFalse => TFalse
  | TTrue, TTrue => TTrue
  | _, _ => TNull
  end.

Definition tri_or (a b : tri) : tri :=
  match a, b with
  | TTrue, _ | _, TTrue => TTrue
  | TFalse, TFalse => TFalse
  | _, _ => TNull
  end.

Definition tri_not (a : tri) : tri :=
  match a with TTrue => TFalse | TFalse => TTrue | TNull => TNull end.

Definition tri_holds (a : tri) : bool :=
  match a with TTrue => true | _ => false end.

(** [col = value] on a nullable column. *)
Definition sql_cmp {A} (test : A -> bool) (col : option A) : tri :=
  match col with Some x => tri_of_bool (test x) | None => TNull end.

Definition sql_is_null {A} (col : option A) : tri :=
  match col with None => TTrue | Some _ => TFalse end.

Definition sql_is_not_null {A} (col : option A) : tri := tri_not (sql_is_null col).

Lemma tri_holds_and a b : tri_holds (tri_and a b) = tri_holds a && tri_holds b.
Proof. by destruct a, b. Qed.

Lemma tri_holds_or a b : tri_holds (tri_or a b) = tri_holds a || tri_holds b.
Proof. by destruct a, b. Qed.

Lemma tri_holds_of_bool b : tri_holds (tri_of_bool b) = b.
Proof. by destruct b. Qed.

(** A negated condition keeps exactly the complement when it is not NULL. *)
Lemma tri_holds_not a : a <> TNull -> tri_holds (tri_not a) = negb (tri_holds a).
Proof. by destruct a. Qed.

Lemma tri_holds_is_null {A} (c : option A) :
  tri_holds (sql_is_null c) = bool_decide (c = None).
Proof. by destruct c. Qed.

Lemma tri_holds_is_not_null {A} (c : option A) :
  tri_holds (sql_is_not_null c) = bool_decide (is_Some c).
Proof. by destruct c. Qed.

Lemma filter_none {A} (P : A -> Prop) `{!forall x, Decision (P x)} (l : list A) :
  (forall x, x ∈ l -> ~ P x) -> base.filter P l = [].
Proof.
  induction l as [|x l IH]; intros Hl; [done|]. rewrite filter_cons_False by (apply Hl; set_solver). apply IH. set_solver.
Qed.

(** ** Stable sorting: Python's [sorted], [list.sort] and SQL's ORDER BY *)

Section stable_sort.
Context {A : Type} (leb : A -> A -> bool).

Fixpoint insert_sorted (x : A) (l : list A) : list A :=
  match l with
  | [] => [x]
  | y :: l' => if leb x y then x :: y :: l' else y :: insert_sorted x l'
  end.

Definition stable_sort (l : list A) : list A := foldr insert_sorted [] l.

Lemma insert_sorted_perm x l : insert_sorted x l ≡ₚ x :: l.
Proof.
  induction l as [|y l IH]; simpl; [done|].
  destruct (leb x y); [done|]. rewrite IH. apply Permutation_swap.
Qed.

Lemma stable_sort_perm l : stable_sort l ≡ₚ l.
Proof.
  induction l as [|x l IH]; simpl; [done|].
  by rewrite insert_sorted_perm, IH.
Qed.

Lemma stable_sort_elem l x : x ∈ stable_sort l <-> x ∈ l.
Proof. by rewrite stable_sort_perm. Qed.

Lemma stable_sort_length l : length (stable_sort l) = length l.
Proof. by rewrite stable_sort_perm. Qed.

Context (leb_total : forall x y, leb x y = true \/ leb y x = true).
Context (leb_trans : forall x y z, leb x y = true -> leb y z = true -> leb x z = true).

Definition leb_rel (x y : A) : Prop := leb x y = true.

Lemma insert_sorted_sorted x l :
  StronglySorted leb_rel l -> StronglySorted leb_rel (insert_sorted x l).
Proof using leb_total leb_trans.
  induction 1 as [|y l Hs IH Hall]; simpl; [by repeat constructor|].
  destruct (leb x y) eqn:E.
  - constructor; [by constructor|]. constructor; [done|].
    eapply Forall_impl; [|exact Hall]. intros z Hz. eapply leb_trans; eauto.
  - constructor; [done|]. rewrite insert_sorted_perm. constructor; [|done].
    destruct (leb_total x y); [congruence|done].
Qed.

Lemma stable_sort_sorted l : StronglySorted leb_rel (stable_sort l).
Proof using leb_total leb_trans.
  induction l; simpl; [constructor|by apply insert_sorted_sorted].
Qed.

(** An already sorted list is left as it is. *)
Lemma stable_sort_id l : StronglySorted leb_rel l -> stable_sort l = l.
Proof using.
  induction 1 as [|x l Hs IH Hall]; simpl; [done|].
  rewrite IH. destruct l as [|y l]; simpl; [done|].
  inversion Hall as [|?? Hxy]; subst. unfold leb_rel in Hxy. by rewrite Hxy.
Qed.
End stable_sort.

(** ** Python's [max(xs, key=f)]: the first element with the largest key *)

Section max_by.
Context {A : Type} (f : A -> Z).

Fixpoint max_from (best : A) (l : list A) : A :=
  match l with
  | [] => best
  | x :: l' => max_from (if f best <? f x then x else best)%Z l'
  end.

Definition max_by (l : list A) : option A :=
  match l with [] => None | x :: l' => Some (max_from x l') end.

Lemma max_from_elem best l : max_from best l ∈ best :: l.
Proof.
  revert best. induction l as [|x l IH]; intros best; simpl; [set_solver|].
  destruct (f best <? f x)%Z; [pose proof (IH x)|pose proof (IH best)]; set_solver.
Qed.

Lemma max_from_best best l : (f best <= f (max_from best l))%Z.
Proof.
  revert best. induction l as [|x l IH]; intros best; simpl; [lia|].
  destruct (Z.ltb_spec (f best) (f x)); [|apply IH].
  specialize (IH x). lia.
Qed.

Lemma max_from_ge best l y : y ∈ best :: l -> (f y <= f (max_from best l))%Z.
Proof.
  revert best. induction l as [|x l IH]; intros best; simpl.
  { intros ->%list_elem_of_singleton. lia. }
  pose proof (max_from_best x l). pose proof (max_from_best best l).
  destruct (Z.ltb_spec (f best) (f x)) as [H'|H'];
    intros [->|[->|Hy]%elem_of_cons]%elem_of_cons; try lia;
    apply IH; set_solver.
Qed.

Lemma max_by_spec l m : max_by l = Some m ->
  m ∈ l /\ forall y, y ∈ l -> (f y <= f m)%Z.
Proof.
  destruct l as [|x l]; simpl; intros [= <-].
  split; [apply max_from_elem|intros; by apply max_from_ge].
Qed.

Lemma max_by_is_Some l : l <> [] -> is_Some (max_by l).
Proof. destruct l; [done|eauto]. Qed.
End max_by.

(** Choosing by a key commutes with a map that preserves the key. *)
Lemma max_by_fmap {A B} (f : A -> Z) (g : B -> Z) (h : A -> B) l :
  (forall x, x ∈ l -> g (h x) = f x) -> max_by g (h <$> l) = h <$> max_by f l.
Proof.
  destruct l as [|x l]; [done|]. simpl. intros Hgh. f_equal.
  assert (Hx : g (h x) = f x) by set_solver.
  assert (Hl : forall y, y ∈ l -> g (h y) = f y) by set_solver.
  clear Hgh. revert x Hx. induction l as [|y l IH]; intros x Hx; simpl; [done|].
  rewrite Hx, (Hl y) by set_solver.
  destruct (f x <? f y)%Z; apply IH; set_solver.
Qed.

(** ** Python dicts that keep insertion order *)

Section dict.
Context {K V : Type} `{EqDecision K}.

Fixpoint dict_get (k : K) (d : list (K * V)) : option V :=
  match d with
  | [] => None
  | (k', v) :: d' => if decide (k = k') then Some v else dict_get k d'
  end.

(** [d[k] = v]: in place when the key is there, appended otherwise. *)
Fixpoint dict_set (k : K) (v : V) (d : list (K * V)) : list (K * V) :=
  match d with
  | [] => [(k, v)]
  | (k', v') :: d' =>
      if decide (k = k') then (k, v) :: d' else (k', v') :: dict_set k v d'
  end.

Definition dict_pop (k : K) (d : list (K * V)) : list (K * V) :=
  filter (fun kv => kv.1 <> k) d.

Lemma dict_get_set k k' v d :
  dict_get k (dict_set k' v d) = if decide (k = k') then Some v else dict_get k d.
Proof.
  induction d as [|[k1 v1] d IH]; simpl.
  - repeat case_decide; congruence.
  - repeat case_decide; subst; simpl; repeat case_decide; try congruence.
Qed.

Lemma dict_get_elem k v d : dict_get k d = Some v -> (k, v) ∈ d.
Proof.
  induction d as [|[k1 v1] d IH]; simpl; [done|].
  case_decide; intros H'; simplify_eq; [set_solver|].
  apply IH in H'. set_solver.
Qed.
End dict.

(** ** Boolean quantifiers over a finite map *)

Section map_bool.
Context {K V : Type} `{Countable K}.
Implicit Types (m : gmap K V) (f : K * V -> bool).

Lemma forallb_map f m :
  forallb f (map_to_list m) = true <-> forall k v, m !! k = Some v -> f (k, v) = true.
Proof.
  rewrite forallb_forall. split.
  - intros Hf k v Hk. apply Hf, list_elem_of_In. by apply elem_of_map_to_list.
  - intros Hf [k v] Hin%list_elem_of_In. apply Hf. by apply elem_of_map_to_list.
Qed.

Lemma existsb_map f m :
  existsb f (map_to_list m) = true <-> exists k v, m !! k = Some v /\ f (k, v) = true.
Proof.
  rewrite existsb_exists. split.
  - intros ([k v] & Hin%list_elem_of_In & Hf). exists k, v.
    by apply elem_of_map_to_list in Hin.
  - intros (k & v & Hk & Hf). exists (k, v). split; [|done].
    apply list_elem_of_In. by apply elem_of_map_to_list.
Qed.
End map_bool.
