(* ===== verification/Json.v ===== *)
(** * Python values decoded from JSON, and the string operations the code uses

    [json] is what [json.loads] and [httpx.Response.json] return: a dict is an
    insertion-ordered association list with distinct keys, a float is carried
    by its [repr] (which determines it).  Text is a Rocq [string], one
    character per code point of Latin-1; the operations below are Python's
    [str] methods on that range. *)

From Stdlib Require Import Ascii String.
From S2P Require Import Prelude.
Local Open Scope string_scope.

Inductive json :=
  | JNull
  | JBool (b : bool)
  | JInt (z : Z)
  | JFloat (repr : string)
  | JStr (s : string)
  | JList (l : list json)
  | JObj (d : list (string * json)).

(** [d.get(k)]: absent and null are the same [None]. *)
Definition dget (k : string) (d : list (string * json)) : json :=
  default JNull (dict_get k d).

(** [bool(v)]. *)
Definition py_truthy (v : json) : bool :=
  match v with
  | JNull => false
  | JBool b => b
  | JInt z => negb (z =? 0)%Z
  | JFloat r => negb (String.eqb r "0.0" || String.eqb r "-0.0")
  | JStr s => negb (String.eqb s "")
  | JList l => match l with [] => false | _ => true end
  | JObj d => match d with [] => false | _ => true end
  end.

(** Whether [v] can be looked up in a set or dict. *)
Definition hashable (v : json) : bool :=
  match v with JList _ | JObj _ => false | _ => true end.

(** [v == s] for a string [s]. *)
Definition json_is_str (v : json) (s : string) : bool :=
  match v with JStr t => String.eqb t s | _ => false end.

(** ** Characters *)

Definition chr_code (c : ascii) : Z := Z.of_N (N_of_ascii c).

Definition is_digit (c : ascii) : bool :=
  ((48 <=? chr_code c) && (chr_code c <=? 57))%Z.

(** [str.isspace] on Latin-1. *)
Definition is_space (c : ascii) : bool :=
  let n := chr_code c in
  ((9 <=? n) && (n <=? 13) || (28 <=? n) && (n <=? 32) || (n =? 133) || (n =? 160))%Z.

Definition digit_chr (z : Z) : ascii := ascii_of_N (Z.to_N (48 + z)).
Definition digit_val (c : ascii) : Z := (chr_code c - 48)%Z.

(** ** Strings as lists of characters *)

Abbreviation chars := list_ascii_of_string.
Abbreviation of_chars := string_of_list_ascii.

(** The character, or byte, of a code. *)
Definition chr_of (n : Z) : ascii := ascii_of_N (Z.to_N n).

(** The UTF-8 bytes of one character. *)
Definition utf8_chr (c : ascii) : list ascii :=
  let n := chr_code c in
  if (n <? 128)%Z then [c] else [chr_of (192 + n / 64); chr_of (128 + n mod 64)].

Definition utf8 (s : string) : string := of_chars (mjoin (utf8_chr <$> chars s)).

Fixpoint drop_while {A} (p : A -> bool) (l : list A) : list A :=
  match l with
  | [] => []
  | x :: l' => if p x then drop_while p l' else l
  end.

Definition strip_chars (l : list ascii) : list ascii :=
  reverse (drop_while is_space (reverse (drop_while is_space l))).

(** [s.strip()]. *)
Definition py_strip (s : string) : string := of_chars (strip_chars (chars s)).

Fixpoint split_chars (sep : ascii) (l : list ascii) : list (list ascii) :=
  match l with
  | [] => [[]]
  | c :: l' =>
      if Ascii.eqb c sep then [] :: split_chars sep l'
      else match split_chars sep l' with
           | [] => [[c]]
           | w :: ws => (c :: w) :: ws
           end
  end.

(** [s.split(sep)] for a one-character separator. *)
Definition py_split (sep : ascii) (s : string) : list string :=
  of_chars <$> split_chars sep (chars s).

Fixpoint partition_chars (sep : ascii) (l : list ascii)
  : option (list ascii * list ascii) :=
  match l with
  | [] => None
  | c :: l' =>
      if Ascii.eqb c sep then Some ([], l')
      else match partition_chars sep l' with
           | Some (a, b) => Some (c :: a, b)
           | None => None
           end
  end.

(** [s.partition(sep)], [None] when the separator does not occur. *)
Definition py_partition (sep : ascii) (s : string) : option (string * string) :=
  match partition_chars sep (chars s) with
  | Some (a, b) => Some (of_chars a, of_chars b)
  | None => None
  end.

(** [s.rstrip(c)]. *)
Definition py_rstrip_chr (c : ascii) (s : string) : string :=
  of_chars (reverse (drop_while (Ascii.eqb c) (reverse (chars s)))).

(** ** [int(s)] and [str(v)] *)

Fixpoint digits_val (acc : Z) (l : list ascii) : option Z :=
  match l with
  | [] => Some acc
  | c :: l' =>
      if is_digit c then digits_val (acc * 10 + digit_val c)%Z l' else None
  end.

(** A nonempty run of ASCII digits. *)
Definition parse_digits (l : list ascii) : option Z :=
  match l with [] => None | _ => digits_val 0%Z l end.

(** Digits with single underscores between them, as [int()] accepts them. *)
Fixpoint drop_underscores (prev_digit : bool) (l : list ascii)
  : option (list ascii) :=
  match l with
  | [] => if prev_digit then Some [] else None
  | c :: l' =>
      if is_digit c then (fun r => c :: r) <$> drop_underscores true l'
      else if Ascii.eqb c "_" && prev_digit then drop_underscores false l'
      else None
  end.

Definition parse_unsigned (l : list ascii) : option Z :=
  ds ← drop_underscores false l;
  (* The interpreter's limit on the length of an integer literal. *)
  if (4300 <? length ds)%nat then None else parse_digits ds.

Definition py_int (s : string) : option Z :=
  match strip_chars (chars s) with
  | "-"%char :: l => Z.opp <$> parse_unsigned l
  | "+"%char :: l => parse_unsigned l
  | l => parse_unsigned l
  end.

Definition hex_chr (n : Z) : ascii :=
  if (n <? 10)%Z then digit_chr n else ascii_of_N (Z.to_N (87 + n)).

(** [repr] of one character inside a string quoted with [q]. *)
Definition repr_chr (q : ascii) (c : ascii) : list ascii :=
  let n := chr_code c in
  if Ascii.eqb c q || Ascii.eqb c "\" then ["\"%char; c]
  else if (n =? 10)%Z then ["\"%char; "n"%char]
  else if (n =? 13)%Z then ["\"%char; "r"%char]
  else if (n =? 9)%Z then ["\"%char; "t"%char]
  else if ((n <? 32) || (127 <=? n) && (n <=? 160) || (n =? 173))%Z
  then ["\"%char; "x"%char; hex_chr (n / 16); hex_chr (n mod 16)]
  else [c].

Definition quote_mark : ascii := "'"%char.
Definition double_mark : ascii := ascii_of_N 34.

Definition py_repr_str (s : string) : string :=
  let l := chars s in
  let has c := existsb (Ascii.eqb c) l in
  let q := if has quote_mark && negb (has double_mark) then double_mark else quote_mark in
  of_chars ([q] ++ mjoin (repr_chr q <$> l) ++ [q])%list.

Fixpoint comma_join (l : list string) : string :=
  match l with
  | [] => ""
  | [x] => x
  | x :: l' => x ++ ", " ++ comma_join l'
  end.

Fixpoint py_repr (v : json) : string :=
  match v with
  | JNull => "None"
  | JBool true => "True"
  | JBool false => "False"
  | JInt z => pretty z
  | JFloat r => r
  | JStr s => py_repr_str s
  | JList l =>
      "[" ++ comma_join ((fix go l := match l with
                           | [] => []
                           | x :: l' => py_repr x :: go l'
                           end) l) ++ "]"
  | JObj d =>
      "{" ++ comma_join ((fix go d := match d with
                           | [] => []
                           | (k, x) :: d' => (py_repr_str k ++ ": " ++ py_repr x) :: go d'
                           end) d) ++ "}"
  end.

(** [str(v)]. *)
Definition py_str (v : json) : string :=
  match v with JStr s => s | _ => py_repr v end.

(** [str(v or "")], the reading every Flash identifier gets. *)
Definition str_or_empty (v : json) : string :=
  if py_truthy v then py_str v else "".

(** ** Lemmas *)

Lemma chars_of_chars l : chars (of_chars l) = l.
Proof. apply list_ascii_of_string_of_list_ascii. Qed.

Lemma of_chars_chars s : of_chars (chars s) = s.
Proof. apply string_of_list_ascii_of_string. Qed.

Lemma chars_append (a b : string) : chars (a ++ b) = (chars a ++ chars b)%list.
Proof. induction a as [|c a IH]; [done|]. change (c :: chars (a ++ b) = c :: (chars a ++ chars b)%list). by rewrite IH. Qed.

Lemma length_chars s : length (chars s) = String.length s.
Proof. induction s as [|c s IH]; simpl; [done|]. by rewrite <- IH. Qed.

Lemma digit_chr_code z : (0 <= z <= 9)%Z -> chr_code (digit_chr z) = (48 + z)%Z.
Proof.
  intros Hz. unfold chr_code, digit_chr.
  rewrite N_ascii_embedding by lia. lia.
Qed.

Lemma digit_chr_is_digit z : (0 <= z <= 9)%Z -> is_digit (digit_chr z) = true.
Proof. intros Hz. unfold is_digit. rewrite digit_chr_code by done. lia. Qed.

Lemma digit_val_chr z : (0 <= z <= 9)%Z -> digit_val (digit_chr z) = z.
Proof. intros Hz. unfold digit_val. rewrite digit_chr_code by done. lia. Qed.

(** A digit character is none of the separators the parsers look for. *)
Lemma digit_chr_ne z c :
  (0 <= z <= 9)%Z -> is_digit c = false -> Ascii.eqb (digit_chr z) c = false.
Proof.
  intros Hz Hc. apply Ascii.eqb_neq. intros <-.
  by rewrite digit_chr_is_digit in Hc.
Qed.

Lemma str_or_empty_str s : str_or_empty (JStr s) = s.
Proof. unfold str_or_empty. simpl. destruct (String.eqb_spec s ""); by subst. Qed.

(** Splitting at a separator the left part does not contain. *)
Definition free_of (sep : ascii) (l : list ascii) : Prop :=
  forallb (fun c => negb (Ascii.eqb c sep)) l = true.

Lemma free_of_cons sep c l : free_of sep (c :: l) <-> Ascii.eqb c sep = false /\ free_of sep l.
Proof. unfold free_of. simpl. rewrite andb_true_iff, negb_true_iff. done. Qed.

Lemma partition_chars_app sep a b :
  free_of sep a -> partition_chars sep (a ++ sep :: b) = Some (a, b).
Proof.
  induction a as [|c a IH]; simpl; [by rewrite Ascii.eqb_refl|].
  intros [Hc Ha]%free_of_cons. by rewrite Hc, IH.
Qed.

Lemma partition_chars_free sep a : free_of sep a -> partition_chars sep a = None.
Proof.
  induction a as [|c a IH]; simpl; [done|]. intros [Hc Ha]%free_of_cons. by rewrite Hc, IH.
Qed.

Lemma split_chars_free sep a : free_of sep a -> split_chars sep a = [a].
Proof.
  induction a as [|c a IH]; simpl; [done|]. intros [Hc Ha]%free_of_cons. by rewrite Hc, IH.
Qed.

Lemma split_chars_app sep a b :
  free_of sep a -> split_chars sep (a ++ sep :: b) = a :: split_chars sep b.
Proof.
  induction a as [|c a IH]; simpl; [by rewrite Ascii.eqb_refl|].
  intros [Hc Ha]%free_of_cons. by rewrite Hc, IH.
Qed.

Lemma free_of_app sep a b : free_of sep (a ++ b) <-> free_of sep a /\ free_of sep b.
Proof. unfold free_of. by rewrite forallb_app, andb_true_iff. Qed.

(** What [partition_chars] returns. *)
Lemma partition_chars_Some sep l a b :
  partition_chars sep l = Some (a, b) -> l = (a ++ sep :: b)%list /\ free_of sep a.
Proof.
  revert a b. induction l as [|c l IH]; intros a b; simpl; [done|].
  destruct (Ascii.eqb_spec c sep) as [->|Hc]; [by intros [= <- <-]|].
  destruct (partition_chars sep l) as [[a' b']|]; [|done]. intros [= <- <-].
  destruct (IH a' b' eq_refl) as [-> Ha]. split; [done|].
  apply free_of_cons. by rewrite (proj2 (Ascii.eqb_neq c sep) Hc).
Qed.

Lemma partition_chars_None sep l : partition_chars sep l = None -> free_of sep l.
Proof.
  induction l as [|c l IH]; simpl; [done|]. destruct (Ascii.eqb c sep) eqn:Hc; [done|].
  destruct (partition_chars sep l) as [[]|]; [done|]. intros _. apply free_of_cons. auto.
Qed.

(** ** Printing an integer and reading it back *)

Lemma digits_val_app acc a b v :
  digits_val acc a = Some v -> digits_val acc (a ++ b) = digits_val v b.
Proof.
  revert acc. induction a as [|c a IH]; intros acc; simpl; [by intros [= ->]|].
  destruct (is_digit c); [apply IH|done].
Qed.

Lemma pretty_N_char_digit x : (x < 10)%N ->
  is_digit (pretty_N_char x) = true /\ digit_val (pretty_N_char x) = Z.of_N x.
Proof.
  intros Hx. assert (x = 0 \/ x = 1 \/ x = 2 \/ x = 3 \/ x = 4 \/ x = 5 \/ x = 6 \/ x = 7
    \/ x = 8 \/ x = 9)%N as Hc by lia. by repeat destruct Hc as [->|Hc]; [..|subst].
Qed.

Lemma pretty_N_go_digits (k : nat) x s : (x < 10 ^ N.of_nat k)%N ->
  exists ds, chars (pretty_N_go x s) = (ds ++ chars s)%list /\ forallb is_digit ds = true
    /\ (length ds <= k)%nat /\ ((0 < x)%N -> ds <> [])
    /\ forall acc, digits_val acc ds = Some (acc * 10 ^ Z.of_nat (length ds) + Z.of_N x)%Z.
Proof.
  revert x s. induction k as [|k IH]; intros x s Hx.
  { assert (x = 0)%N as -> by (simpl in Hx; lia). exists []. split_and!; try done.
    intros acc. simpl. f_equal. lia. }
  destruct (decide (0 < x)%N) as [H0|H0]; last first.
  { assert (x = 0)%N as -> by lia. exists []. split_and!; try done; simpl; try lia.
    intros acc. f_equal. lia. }
  rewrite pretty_N_go_step by done.
  rewrite Nat2N.inj_succ, N.pow_succ_r in Hx by lia.
  destruct (IH (x `div` 10)%N (String (pretty_N_char (x `mod` 10)) s))
    as (ds & Hds & Hdig & Hlen & _ & Hval); [apply N.Div0.div_lt_upper_bound; lia|].
  destruct (pretty_N_char_digit (x `mod` 10)) as [Hd Hv]; [by apply N.mod_lt|].
  exists (ds ++ [pretty_N_char (x `mod` 10)])%list. split_and!.
  - rewrite Hds, <- app_assoc. done.
  - rewrite forallb_app, Hdig. simpl. by rewrite Hd.
  - rewrite length_app. simpl. lia.
  - intros _. by destruct ds.
  - intros acc. rewrite (digits_val_app _ _ _ _ (Hval acc)). simpl. rewrite Hd, Hv.
    f_equal. rewrite length_app. simpl. rewrite Nat2Z.inj_add, Z.pow_add_r by lia.
    pose proof (N.Div0.div_mod x 10). change (10 ^ Z.of_nat 1)%Z with 10%Z. lia.
Qed.

(** The decimal text of a natural number: its digits. *)
Lemma pretty_Z_digits (k : nat) z : (0 < k)%nat -> (0 <= z < 10 ^ Z.of_nat k)%Z ->
  let l := chars (pretty z) in
  forallb is_digit l = true /\ (length l <= k)%nat /\ l <> [] /\ digits_val 0 l = Some z.
Proof.
  intros Hk Hz. destruct z as [|p|p]; [by split_and!; simpl; try lia| |lia].
  change (pretty (Z.pos p)) with (pretty (N.pos p)).
  unfold pretty, pretty_N. destruct (decide (N.pos p = 0)%N); [done|].
  destruct (pretty_N_go_digits k (N.pos p) "") as (ds & Hds & Hd & Hl & Hne & Hv).
  { apply N2Z.inj_lt. rewrite N2Z.inj_pow, nat_N_Z. change (Z.of_N (N.pos p)) with (Z.pos p).
    change (Z.of_N 10) with 10%Z. lia. }
  rewrite Hds. simpl. rewrite app_nil_r. split_and!; [done|done|by apply Hne|].
  by rewrite Hv.
Qed.

Lemma strip_chars_id l : forallb (fun c => negb (is_space c)) l = true -> strip_chars l = l.
Proof.
  assert (Hd : forall k, forallb (fun c => negb (is_space c)) k = true ->
            drop_while is_space k = k).
  { intros [|c k]; simpl; [done|]. intros [Hc _]%andb_true_iff. by destruct (is_space c). }
  intros Hl. unfold strip_chars. rewrite (Hd l Hl), Hd.
  - apply reverse_involutive.
  - rewrite forallb_forall in *. intros c Hc. apply Hl. apply list_elem_of_In.
    by apply elem_of_reverse, list_elem_of_In.
Qed.

Lemma digits_no_space l : forallb is_digit l = true ->
  forallb (fun c => negb (is_space c)) l = true.
Proof.
  rewrite !forallb_forall. intros Hl c Hc. specialize (Hl c Hc). revert Hl.
  destruct c as [[] [] [] [] [] [] [] []]; (reflexivity || discriminate).
Qed.

Lemma drop_underscores_digits b l : forallb is_digit l = true -> b = true \/ l <> [] ->
  drop_underscores b l = Some l.
Proof.
  revert b. induction l as [|c l IH]; intros b; simpl; [by intros _ [->|?]|].
  intros [Hc Hl]%andb_true_iff _. rewrite Hc, (IH true); auto.
Qed.

Lemma py_int_pretty z : (0 <= z < 10 ^ 18)%Z -> py_int (pretty z) = Some z.
Proof.
  intros Hz. destruct (pretty_Z_digits 18 z) as (Hd & Hl & Hne & Hv); [lia|done|].
  unfold py_int. rewrite strip_chars_id by by apply digits_no_space.
  assert (Hp : parse_unsigned (chars (pretty z)) = Some z).
  { unfold parse_unsigned. rewrite drop_underscores_digits by auto. simpl.
    destruct (Nat.ltb_spec 4300 (length (chars (pretty z)))); [lia|].
    unfold parse_digits. by destruct (chars (pretty z)). }
  destruct (chars (pretty z)) as [|c l]; [done|]. simpl in Hd.
  apply andb_true_iff in Hd as [Hc _]. revert Hc Hp.
  destruct c as [[] [] [] [] [] [] [] []]; (discriminate || auto).
Qed.

(** ** Strings

    Facts about concatenation, prefixes and substrings that several components
    use. *)

Lemma prefix_app q y : String.prefix q (q ++ y) = true.
Proof. induction q as [|c q IH]; simpl; [by destruct y|]. by destruct (ascii_dec c c). Qed.

Lemma prefix_weaken q k y : String.prefix q k = true -> String.prefix q (k ++ y) = true.
Proof.
  revert k. induction q as [|c q IH]; intros k; [by destruct (k ++ y)|].
  destruct k as [|d k]; [done|]. simpl. destruct (ascii_dec c d); [apply IH|done].
Qed.

Lemma append_nil_r (s : string) : s ++ "" = s.
Proof. induction s as [|c s IH]; [done|]. change (String c (s ++ "") = String c s). by rewrite IH. Qed.

(** Concatenation is injective on either side. *)
Lemma append_inj_l (s a b : string) : s ++ a = s ++ b -> a = b.
Proof. intros E. by apply (inj (String.append s)) in E. Qed.

Lemma length_append (a b : string) : String.length (a ++ b) = (String.length a + String.length b)%nat.
Proof.
  induction a as [|c a IH]; [done|].
  change (S (String.length (a ++ b)) = S (String.length a + String.length b)). by rewrite IH.
Qed.

Lemma append_inj_r (a b s : string) : a ++ s = b ++ s -> a = b.
Proof.
  intros H. assert (Hl : String.length a = String.length b).
  { apply (f_equal String.length) in H. rewrite !length_append in H. lia. }
  revert b H Hl. induction a as [|c a IH]; intros [|d b] H Hl; try done.
  change (String c (a ++ s) = String d (b ++ s)) in H.
  injection H as -> H. injection Hl as Hl. by rewrite (IH b).
Qed.

Lemma substring_skip (a b : string) n : String.substring (String.length a) n (a ++ b) = String.substring 0 n b.
Proof. induction a as [|c a IH]; [done|]. exact IH. Qed.

(** The first [n] characters, and the rest. *)
Lemma substring_split n (b : string) :
  exists rest, b = String.substring 0 n b ++ rest
    /\ String.length rest = (String.length b - n)%nat.
Proof.
  revert b. induction n as [|n IH]; intros b.
  - exists b. destruct b; simpl; auto with lia.
  - destruct b as [|c b]; [by exists ""|]. destruct (IH b) as (rest & E & Hl).
    exists rest. split; [|done].
    change (String c b = String c (String.substring 0 n b ++ rest)). by rewrite <- E.
Qed.

Lemma append_assoc (a b c : string) : (a ++ b) ++ c = a ++ (b ++ c).
Proof.
  induction a as [|x a IH]; [done|].
  change (String x ((a ++ b) ++ c) = String x (a ++ (b ++ c))). by rewrite IH.
Qed.

Lemma substring_prefix (a b : string) : String.substring 0 (String.length a) (a ++ b) = a.
Proof.
  induction a as [|c a IH]; [by destruct b|].
  change (String c (String.substring 0 (String.length a) (a ++ b)) = String c a). by rewrite IH.
Qed.

Lemma substring_whole (a : string) : String.substring 0 (String.length a) a = a.
Proof. rewrite <- (append_nil_r a) at 2. apply substring_prefix. Qed.
