(* ===== verification/Url.v ===== *)
(** * Splitting a URL

    [urllib.parse.urlsplit] on Latin-1 text, for the checkout link and for the
    addresses of relays: the five parts, and the host and port of a netloc.  What is
    left out is the check of brackets and of normalisation, which the users of this
    file take as an oracle. *)

From Stdlib Require Import Ascii String.
From S2P Require Import Prelude Json.
Local Open Scope string_scope.

(** ** Splitting *)

(** [s.split(sep, 1)]: the part before the first separator and the part after
    it, the second empty when there is none. *)
Definition split_once (sep : ascii) (l : list ascii) : list ascii * list ascii :=
  match partition_chars sep l with Some p => p | None => (l, []) end.

Definition is_upper (c : ascii) : bool := ((65 <=? chr_code c) && (chr_code c <=? 90))%Z.
Definition is_alpha (c : ascii) : bool :=
  is_upper c || ((97 <=? chr_code c) && (chr_code c <=? 122))%Z.
Definition lower (c : ascii) : ascii :=
  if is_upper c then ascii_of_N (Z.to_N (chr_code c + 32)) else c.

(** [scheme_chars]. *)
Definition scheme_chr (c : ascii) : bool :=
  is_alpha c || is_digit c || existsb (Ascii.eqb c) ["+"%char; "-"%char; "."%char].

(** Leading control characters and spaces go, tabs and line ends everywhere. *)
Definition clean_url (l : list ascii) : list ascii :=
  filter (fun c => negb (existsb (Z.eqb (chr_code c)) [9; 10; 13]%Z) = true)
    (drop_while (fun c => (chr_code c <=? 32)%Z) l).

(** A scheme is what precedes the first colon, if it is spelt like one. *)
Definition split_scheme (l : list ascii) : list ascii * list ascii :=
  match partition_chars ":" l with
  | Some (c :: s, rest) =>
      if is_alpha c && forallb scheme_chr (c :: s) then (lower <$> (c :: s), rest) else ([], l)
  | _ => ([], l)
  end.

(** The host runs to the first slash; the query and the fragment are off
    already. *)
Fixpoint until_slash (l : list ascii) : list ascii * list ascii :=
  match l with
  | [] => ([], [])
  | c :: l' =>
      if Ascii.eqb c "/" then ([], l)
      else let '(a, b) := until_slash l' in (c :: a, b)
  end.

Definition split_netloc (l : list ascii) : list ascii * list ascii :=
  match l with
  | a :: b :: rest =>
      if Ascii.eqb a "/" && Ascii.eqb b "/" then until_slash rest else ([], l)
  | _ => ([], l)
  end.

Record SplitUrl := {
  u_scheme : list ascii;
  u_netloc : list ascii;
  u_path : list ascii;
  u_query : list ascii;
  u_fragment : list ascii;
}.

(** Every separator the scheme and the host end at precedes the query and the
    fragment, so those can come off first. *)
Definition split_parts (url : list ascii) : SplitUrl :=
  let '(before, fragment) := split_once "#" (clean_url url) in
  let '(head, query) := split_once "?" before in
  let '(scheme, rest) := split_scheme head in
  let '(netloc, path) := split_netloc rest in
  {| u_scheme := scheme; u_netloc := netloc; u_path := path;
     u_query := query; u_fragment := fragment |}.

(** ** Host and port ([SplitResult.hostname] and [SplitResult.port]) *)

(** [s.rpartition(sep)[2]]: what follows the last separator, or all of it. *)
Definition after_last (sep : ascii) (l : list ascii) : list ascii :=
  match partition_chars sep (reverse l) with Some (a, _) => reverse a | None => l end.

(** [s.partition(sep)[2]]. *)
Definition after_first (sep : ascii) (l : list ascii) : list ascii := (split_once sep l).2.

(** [_hostinfo]: an empty port is none. *)
Definition host_info (netloc : list ascii) : list ascii * list ascii :=
  let hostinfo := after_last "@" netloc in
  match partition_chars "[" hostinfo with
  | Some (_, bracketed) =>
      let '(host, rest) := split_once "]" bracketed in (host, after_first ":" rest)
  | None => split_once ":" hostinfo
  end.

(** A zone behind a percent sign keeps its case. *)
Definition hostname_of (lower_case : ascii -> ascii) (netloc : list ascii) : list ascii :=
  let host := (host_info netloc).1 in
  match partition_chars "%" host with
  | Some (a, zone) => ((lower_case <$> a) ++ "%"%char :: zone)%list
  | None => lower_case <$> host
  end.

(** [Some None] is no port, [None] a port that raises. *)
Definition port_of (netloc : list ascii) : option (option Z) :=
  match (host_info netloc).2 with
  | [] => Some None
  | p => match parse_digits p with
         | Some z => if (z <=? 65535)%Z then Some (Some z) else None
         | None => None
         end
  end.
