(* ===== verification/Base64.v ===== *)
(** * Bytes: base64 and big-endian numbers

    Python 3.12's [base64] module as the code uses it, on bytes carried as
    characters: [urlsafe_b64decode] with the padding put back, which skips
    characters outside the alphabet and ignores left-over bits, the strict
    [b64decode(validate=True)], [urlsafe_b64encode] without its padding, and
    [int.to_bytes]/[from_bytes] in big-endian order. *)

From Stdlib Require Import Ascii String.
From S2P Require Import Prelude Json.
Local Open Scope string_scope.
Local Open Scope Z_scope.

(** ** The alphabet *)

Definition sextet (c : ascii) : option Z :=
  let n := chr_code c in
  if (65 <=? n) && (n <=? 90) then Some (n - 65)
  else if (97 <=? n) && (n <=? 122) then Some (n - 71)
  else if (48 <=? n) && (n <=? 57) then Some (n + 4)
  else if Ascii.eqb c "+" then Some 62
  else if Ascii.eqb c "/" then Some 63
  else None.

Definition sextet_chr (v : Z) : ascii :=
  if v <? 26 then chr_of (65 + v)
  else if v <? 52 then chr_of (71 + v)
  else if v <? 62 then chr_of (v - 4)
  else if v =? 62 then "+"%char else "/"%char.

Definition url_to_std (c : ascii) : ascii :=
  if Ascii.eqb c "-" then "+"%char else if Ascii.eqb c "_" then "/"%char else c.
Definition std_to_url (c : ascii) : ascii :=
  if Ascii.eqb c "+" then "-"%char else if Ascii.eqb c "/" then "_"%char else c.

(** ** Decoding ([binascii.a2b_base64]) *)

(** [quad]: characters of the current group read; [left]: their bits not yet out;
    [pads]: padding characters since the last of them. *)
Fixpoint a2b (quad left pads : Z) (l : list ascii) : option (list ascii) :=
  match l with
  | [] => if quad =? 0 then Some [] else None
  | c :: l' =>
      if Ascii.eqb c "=" then
        if 2 <=? quad then
          if 4 <=? quad + (pads + 1) then Some [] else a2b quad left (pads + 1) l'
        else a2b quad left pads l'
      else
        match sextet c with
        | None => a2b quad left pads l'
        | Some v =>
            if quad =? 0 then a2b 1 v 0 l'
            else if quad =? 1 then cons (chr_of (left * 4 + v / 16)) <$> a2b 2 (v mod 16) 0 l'
            else if quad =? 2 then cons (chr_of (left * 16 + v / 4)) <$> a2b 3 (v mod 4) 0 l'
            else cons (chr_of (left * 64 + v)) <$> a2b 0 0 0 l'
        end
  end.

(** [strict_mode=True]: no character outside the alphabet, no padding before it is due,
    nothing after it. *)
Fixpoint a2b_strict (quad left pads : Z) (started : bool) (l : list ascii) : option (list ascii) :=
  match l with
  | [] => if quad =? 0 then Some [] else None
  | c :: l' =>
      if Ascii.eqb c "=" then
        if quad =? 0 then None
        else if 2 <=? quad then
          if 4 <=? quad + (pads + 1) then (match l' with [] => Some [] | _ => None end)
          else a2b_strict quad left (pads + 1) true l'
        else a2b_strict quad left pads true l'
      else
        match sextet c with
        | None => None
        | Some v =>
            if started then None
            else if quad =? 0 then a2b_strict 1 v 0 started l'
            else if quad =? 1 then cons (chr_of (left * 4 + v / 16)) <$> a2b_strict 2 (v mod 16) 0 started l'
            else if quad =? 2 then cons (chr_of (left * 16 + v / 4)) <$> a2b_strict 3 (v mod 4) 0 started l'
            else cons (chr_of (left * 64 + v)) <$> a2b_strict 0 0 0 started l'
        end
  end.

Definition is_ascii (s : string) : bool := forallb (fun c => chr_code c <? 128) (chars s).

(** Text outside ASCII raises. *)
Definition b64decode_strict (s : string) : option string :=
  if is_ascii s then of_chars <$> a2b_strict 0 0 0 false (chars s) else None.

Definition urlsafe_b64decode (s : string) : option string :=
  if is_ascii s then of_chars <$> a2b 0 0 0 (url_to_std <$> chars s) else None.

(** [s + "=" * (-len(s) % 4)], decoded. *)
Definition pad_to_four (s : string) : string :=
  s ++ of_chars (replicate (Z.to_nat (- Z.of_nat (String.length s) mod 4)) "="%char).
Definition urlsafe_b64decode_unpadded (s : string) : option string := urlsafe_b64decode (pad_to_four s).

(** ** Encoding ([binascii.b2a_base64]) *)

Fixpoint b2a (l : list ascii) : list ascii :=
  match l with
  | [] => []
  | [a] => let x := chr_code a in [sextet_chr (x / 4); sextet_chr ((x mod 4) * 16); "="%char; "="%char]
  | [a; b] =>
      let x := chr_code a in let y := chr_code b in
      [sextet_chr (x / 4); sextet_chr ((x mod 4) * 16 + y / 16); sextet_chr ((y mod 16) * 4); "="%char]
  | a :: b :: c :: l' =>
      let x := chr_code a in let y := chr_code b in let z := chr_code c in
      sextet_chr (x / 4) :: sextet_chr ((x mod 4) * 16 + y / 16) :: sextet_chr ((y mod 16) * 4 + z / 64)
      :: sextet_chr (z mod 64) :: b2a l'
  end.

Definition urlsafe_b64encode (s : string) : string := of_chars (std_to_url <$> b2a (chars s)).
(** [.rstrip(b"=")]. *)
Definition urlsafe_b64encode_unpadded (s : string) : string := py_rstrip_chr "=" (urlsafe_b64encode s).

(** ** Numbers *)

(** [int.from_bytes(_, "big")]. *)
Definition from_bytes (l : list ascii) : Z := foldl (fun acc c => acc * 256 + chr_code c) 0 l.

(** [n.to_bytes(k, "big")]; a number that does not fit raises. *)
Fixpoint big_endian (k : nat) (n : Z) : list ascii :=
  match k with O => [] | S k' => chr_of (n / 256 ^ Z.of_nat k' mod 256) :: big_endian k' n end.
Definition to_bytes (k : nat) (n : Z) : res exn (list ascii) :=
  if (0 <=? n) && (n <? 256 ^ Z.of_nat k) then Ok (big_endian k n) else Raise OverflowError.

(** [b.hex()]. *)
Definition bytes_hex (l : list ascii) : string :=
  of_chars (mjoin ((fun c => [hex_chr (chr_code c / 16); hex_chr (chr_code c mod 16)]) <$> l)).

(** ** Decoding undoes encoding *)

Lemma chr_code_range c : 0 <= chr_code c < 256.
Proof. unfold chr_code. pose proof (N_ascii_bounded c). lia. Qed.

Lemma chr_of_code c : chr_of (chr_code c) = c.
Proof. unfold chr_of, chr_code. by rewrite N2Z.id, ascii_N_embedding. Qed.

Lemma chr_code_of z : 0 <= z < 256 -> chr_code (chr_of z) = z.
Proof. intros Hz. unfold chr_of, chr_code. rewrite N_ascii_embedding by lia. lia. Qed.

(** What holds of the numbers below 64 holds when checked one by one. *)
Lemma below_64 (p : Z -> bool) v : forallb p (Z.of_nat <$> seq 0 64) = true -> 0 <= v < 64 -> p v = true.
Proof.
  intros Hp Hv. rewrite forallb_forall in Hp. apply Hp, in_map_iff. exists (Z.to_nat v). split; [lia|].
  apply in_seq. lia.
Qed.

Definition sextet_back (v : Z) : bool :=
  let c := std_to_url (sextet_chr v) in
  bool_decide (sextet (url_to_std c) = Some v) && negb (Ascii.eqb (url_to_std c) "=") && negb (Ascii.eqb c "=")
  && (chr_code c <? 128).

Lemma sextet_round v : 0 <= v < 64 ->
  sextet (url_to_std (std_to_url (sextet_chr v))) = Some v
  /\ Ascii.eqb (url_to_std (std_to_url (sextet_chr v))) "=" = false
  /\ Ascii.eqb (std_to_url (sextet_chr v)) "=" = false
  /\ (chr_code (std_to_url (sextet_chr v)) <? 128) = true.
Proof.
  intros Hv. pose proof (below_64 sextet_back v ltac:(by vm_compute) Hv) as H. unfold sextet_back in H.
  apply andb_prop in H as [H H4]. apply andb_prop in H as [H H3]. apply andb_prop in H as [H1 H2].
  apply bool_decide_eq_true in H1. by rewrite negb_true_iff in H2, H3.
Qed.

(** The unpadded encoding. *)
Fixpoint encode_chars (l : list ascii) : list ascii :=
  match l with
  | [] => []
  | [a] => let x := chr_code a in std_to_url <$> [sextet_chr (x / 4); sextet_chr ((x mod 4) * 16)]
  | [a; b] =>
      let x := chr_code a in let y := chr_code b in
      std_to_url <$> [sextet_chr (x / 4); sextet_chr ((x mod 4) * 16 + y / 16); sextet_chr ((y mod 16) * 4)]
  | a :: b :: c :: l' =>
      let x := chr_code a in let y := chr_code b in let z := chr_code c in
      (std_to_url <$> [sextet_chr (x / 4); sextet_chr ((x mod 4) * 16 + y / 16); sextet_chr ((y mod 16) * 4 + z / 64);
                       sextet_chr (z mod 64)]) ++ encode_chars l'
  end.

(** Three at a time. *)
Lemma list3_ind (P : list ascii -> Prop) :
  P [] -> (forall a, P [a]) -> (forall a b, P [a; b]) -> (forall a b c l, P l -> P (a :: b :: c :: l)) -> forall l, P l.
Proof.
  intros H0 H1 H2 H3. fix IH 1. intros [|a [|b [|c l]]]; [done|apply H1|apply H2|]. apply H3, IH.
Qed.

(** The six-bit groups three bytes are cut into. *)
Lemma groups_range x y z : 0 <= x < 256 -> 0 <= y < 256 -> 0 <= z < 256 ->
  0 <= x / 4 < 64 /\ 0 <= (x mod 4) * 16 + y / 16 < 64 /\ 0 <= (y mod 16) * 4 + z / 64 < 64 /\ 0 <= z mod 64 < 64.
Proof. intros. Z.div_mod_to_equations. lia. Qed.

Lemma groups_back x y z : 0 <= x < 256 -> 0 <= y < 256 -> 0 <= z < 256 ->
  x / 4 * 4 + ((x mod 4) * 16 + y / 16) / 16 = x
  /\ ((x mod 4) * 16 + y / 16) mod 16 * 16 + ((y mod 16) * 4 + z / 64) / 4 = y
  /\ ((y mod 16) * 4 + z / 64) mod 4 * 64 + z mod 64 = z.
Proof. intros. Z.div_mod_to_equations. lia. Qed.

Definition pads_of (l : list ascii) : nat := Z.to_nat (- Z.of_nat (length (encode_chars l)) mod 4).

Lemma encode_shape l :
  (std_to_url <$> b2a l) = (encode_chars l ++ replicate (pads_of l) "="%char)%list
  /\ Forall (fun c => Ascii.eqb c "=" = false /\ (chr_code c <? 128) = true) (encode_chars l)
  /\ a2b 0 0 0 (url_to_std <$> (encode_chars l ++ replicate (pads_of l) "="%char)%list) = Some l.
Proof.
  induction l as [|a|a b|a b c l IH] using list3_ind.
  - done.
  - pose proof (chr_code_range a) as Ha. destruct (groups_range _ 0 0 Ha) as (G1 & G2 & _); [lia|lia|].
    destruct (groups_back _ 0 0 Ha) as (B1 & _); [lia|lia|]. rewrite Z.div_0_l, Z.add_0_r in G2, B1 by lia.
    destruct (sextet_round _ G1) as (S1 & E1 & F1 & A1), (sextet_round _ G2) as (S2 & E2 & F2 & A2).
    split_and!; [done|by repeat constructor|]. simpl. rewrite E1, S1, E2, S2. simpl. by rewrite B1, chr_of_code.
  - pose proof (chr_code_range a) as Ha. pose proof (chr_code_range b) as Hb.
    destruct (groups_range _ _ 0 Ha Hb) as (G1 & G2 & G3 & _); [lia|].
    destruct (groups_back _ _ 0 Ha Hb) as (B1 & B2 & _); [lia|]. rewrite Z.div_0_l, Z.add_0_r in G3, B2 by lia.
    destruct (sextet_round _ G1) as (S1 & E1 & F1 & A1), (sextet_round _ G2) as (S2 & E2 & F2 & A2), (sextet_round _ G3) as (S3 & E3 & F3 & A3).
    split_and!; [done|by repeat constructor|]. simpl. rewrite E1, S1, E2, S2, E3, S3. simpl. by rewrite B1, B2, !chr_of_code.
  - destruct IH as (I1 & I2 & I3).
    assert (Hp : pads_of (a :: b :: c :: l) = pads_of l).
    { unfold pads_of. cbn [encode_chars]. rewrite length_app, Nat2Z.inj_add. f_equal. simpl length.
      replace (- (Z.of_nat 4 + Z.of_nat (length (encode_chars l)))) with (- Z.of_nat (length (encode_chars l)) + (-1) * 4) by lia.
      apply Z.mod_add. lia. }
    pose proof (chr_code_range a) as Ha. pose proof (chr_code_range b) as Hb. pose proof (chr_code_range c) as Hc.
    destruct (groups_range _ _ _ Ha Hb Hc) as (G1 & G2 & G3 & G4). destruct (groups_back _ _ _ Ha Hb Hc) as (B1 & B2 & B3).
    destruct (sextet_round _ G1) as (S1 & E1 & F1 & A1), (sextet_round _ G2) as (S2 & E2 & F2 & A2),
      (sextet_round _ G3) as (S3 & E3 & F3 & A3), (sextet_round _ G4) as (S4 & E4 & F4 & A4).
    rewrite Hp. split_and!.
    + cbn [b2a encode_chars]. rewrite !fmap_cons, I1. done.
    + cbn [encode_chars]. apply Forall_app. split; [by repeat constructor|done].
    + cbn [encode_chars]. rewrite <- app_assoc, fmap_app. cbn [fmap list_fmap app]. cbn [a2b].
      rewrite E1, S1, E2, S2, E3, S3, E4, S4. cbn [Z.eqb Pos.eqb]. change (list_fmap ascii ascii url_to_std) with (fmap (M := list) url_to_std).
      rewrite I3. simpl. by rewrite B1, B2, B3, !chr_of_code.
Qed.

Lemma rstrip_app s (l : list ascii) n : Forall (fun c => Ascii.eqb c s = false) l ->
  py_rstrip_chr s (of_chars (l ++ replicate n s)%list) = of_chars l.
Proof.
  intros Hl. unfold py_rstrip_chr. rewrite chars_of_chars, reverse_app. f_equal.
  assert (reverse (replicate n s) = replicate n s) as -> by (apply reverse_replicate).
  assert (H1 : forall m r, drop_while (Ascii.eqb s) (replicate m s ++ r)%list = drop_while (Ascii.eqb s) r).
  { induction m as [|m IH]; intros r; [done|]. simpl. by rewrite Ascii.eqb_refl. }
  rewrite H1. clear H1. destruct l as [|x l _] using rev_ind; [done|]. apply Forall_app in Hl as [_ Hx]. rewrite Forall_singleton in Hx.
  rewrite reverse_app. change (reverse [x]) with [x]. cbn [app drop_while].
  destruct (Ascii.eqb_spec s x) as [E|_]; [subst x; cbv beta in Hx; by rewrite Ascii.eqb_refl in Hx|].
  change (x :: reverse l) with (reverse [x] ++ reverse l)%list. by rewrite <- reverse_app, reverse_involutive.
Qed.

Lemma encode_unpadded s : urlsafe_b64encode_unpadded s = of_chars (encode_chars (chars s)).
Proof.
  destruct (encode_shape (chars s)) as (H1 & H2 & _). unfold urlsafe_b64encode_unpadded, urlsafe_b64encode. rewrite H1.
  apply rstrip_app. eapply Forall_impl; [|exact H2]. by intros c [? _].
Qed.

(** Whatever the bytes, decoding their unpadded encoding gives them back. *)
Lemma decode_encode s : urlsafe_b64decode_unpadded (urlsafe_b64encode_unpadded s) = Some s.
Proof.
  rewrite encode_unpadded. destruct (encode_shape (chars s)) as (_ & H2 & H3). set (e := encode_chars (chars s)) in *.
  unfold urlsafe_b64decode_unpadded, pad_to_four, urlsafe_b64decode.
  rewrite <- (length_chars (of_chars e)), chars_of_chars. change (Z.to_nat (- Z.of_nat (length e) mod 4)) with (pads_of (chars s)).
  assert (is_ascii (of_chars e ++ of_chars (replicate (pads_of (chars s)) "="%char)) = true) as ->.
  { unfold is_ascii. rewrite chars_append, !chars_of_chars, forallb_app. apply andb_true_iff. split.
    - apply forallb_forall. intros c Hc. rewrite List.Forall_forall in H2. apply (H2 c Hc).
    - apply forallb_forall. intros c Hc%list_elem_of_In. by apply elem_of_replicate in Hc as [-> _]. }
  rewrite chars_append, !chars_of_chars, H3. simpl. by rewrite of_chars_chars.
Qed.

(** ** Numbers and back *)

Lemma big_endian_length k n : length (big_endian k n) = k.
Proof. induction k; [done|]. simpl. by f_equal. Qed.

Lemma from_bytes_big_endian k n : 0 <= n -> from_bytes (big_endian k n) = n mod 256 ^ Z.of_nat k.
Proof.
  intros Hn. unfold from_bytes.
  enough (Hgo : forall acc, foldl (fun acc c => acc * 256 + chr_code c) acc (big_endian k n) = acc * 256 ^ Z.of_nat k + n mod 256 ^ Z.of_nat k)
    by (rewrite Hgo; lia).
  induction k as [|k IH]; intros acc; [simpl; rewrite Z.mod_1_r; lia|]. cbn [big_endian foldl]. rewrite IH.
  assert (H256 : 0 < 256 ^ Z.of_nat k) by lia.
  rewrite chr_code_of by (apply Z.mod_pos_bound; lia).
  rewrite Nat2Z.inj_succ, Z.pow_succ_r by lia. rewrite (Z.mul_comm 256), Z.rem_mul_r by lia. ring.
Qed.

Lemma to_bytes_back k n l : to_bytes k n = Ok l -> length l = k /\ from_bytes l = n.
Proof.
  unfold to_bytes. destruct (_ && _) eqn:E; [|done]. intros [= <-]. apply andb_prop in E as [E1 E2].
  split; [apply big_endian_length|]. rewrite from_bytes_big_endian by lia. apply Z.mod_small. lia.
Qed.
