(* ===== verification/Time.v ===== *)
(** * Naive UTC datetimes, and the ISO strings Flash sends

    A naive [datetime] is its distance in microseconds from
    0001-01-01T00:00:00, the smallest one Python represents.  The calendar and
    [datetime.fromisoformat] follow CPython's [datetime] module (the grammar of
    3.12); [parse_flash_timestamp] is the one reading of a Flash timestamp in
    src/app/core/flash.py. *)

From Stdlib Require Import Ascii String.
From S2P Require Import Prelude Json.
Local Open Scope Z_scope.

(** ** The proleptic Gregorian calendar *)

Definition is_leap (y : Z) : bool :=
  (y mod 4 =? 0) && (negb (y mod 100 =? 0) || (y mod 400 =? 0)).

Definition days_before_year (y : Z) : Z :=
  let y := y - 1 in y * 365 + y / 4 - y / 100 + y / 400.

Definition days_in_month (leap : bool) (m : Z) : Z :=
  if m =? 2 then (if leap then 29 else 28)
  else if (m =? 4) || (m =? 6) || (m =? 9) || (m =? 11) then 30 else 31.

Definition days_before_month (leap : bool) (m : Z) : Z :=
  nth (Z.to_nat m) [0; 0; 31; 59; 90; 120; 151; 181; 212; 243; 273; 304; 334] 0
  + (if (2 <? m) && leap then 1 else 0).

(** Day number of a date, 0001-01-01 being 1. *)
Definition ymd2ord (y m d : Z) : Z :=
  days_before_year y + days_before_month (is_leap y) m + d.

(** Month and day from the zero-based day of the year. *)
Definition md_of_doy (leap : bool) (n : Z) : Z * Z :=
  let month := (n + 50) / 32 in
  let preceding := days_before_month leap month in
  if n <? preceding
  then (month - 1, n - (preceding - days_in_month leap (month - 1)) + 1)
  else (month, n - preceding + 1).

Definition ord2ymd (n : Z) : Z * Z * Z :=
  let n := n - 1 in
  let n400 := n / 146097 in let n := n mod 146097 in
  let n100 := n / 36524 in let n := n mod 36524 in
  let n4 := n / 1461 in let n := n mod 1461 in
  let n1 := n / 365 in let n := n mod 365 in
  let year := n400 * 400 + 1 + n100 * 100 + n4 * 4 + n1 in
  if (n1 =? 4) || (n100 =? 4) then (year - 1, 12, 31)
  else
    let leap := (n1 =? 3) && (negb (n4 =? 24) || (n100 =? 3)) in
    let '(m, d) := md_of_doy leap n in (year, m, d).

Definition valid_ymd (y m d : Z) : bool :=
  (1 <=? y) && (y <=? 9999) && (1 <=? m) && (m <=? 12)
  && (1 <=? d) && (d <=? days_in_month (is_leap y) m).

Definition isoweek1monday (y : Z) : Z :=
  let firstday := ymd2ord y 1 1 in
  let firstweekday := (firstday + 6) mod 7 in
  let monday := firstday - firstweekday in
  if 3 <? firstweekday then monday + 7 else monday.

Definition isoweek_to_gregorian (y week day : Z) : option (Z * Z * Z) :=
  let long_year :=
    let w := ymd2ord y 1 1 mod 7 in (w =? 4) || ((w =? 3) && is_leap y) in
  if negb ((1 <=? y) && (y <=? 9999)) then None
  else if negb ((0 <? week) && (week <? 53) || (week =? 53) && long_year) then None
  else if negb ((0 <? day) && (day <? 8)) then None
  else Some (ord2ymd (isoweek1monday y + (week - 1) * 7 + (day - 1))).

(** ** Datetimes *)

Definition us_per_day : Z := 86400000000.
Definition datetime_max : Z := 3652059 * us_per_day - 1.

(** As literals, for arithmetic. *)
Lemma datetime_max_eq : datetime_max = 315537897599999999.
Proof. reflexivity. Qed.
Lemma us_per_day_eq : us_per_day = 86400000000.
Proof. reflexivity. Qed.

Definition valid_datetime (t : Z) : Prop := 0 <= t <= datetime_max.

(** [datetime(y, m, d, hh, mm, ss, us)], [None] for the ValueError. *)
Definition mk_datetime (y m d hh mm ss us : Z) : option Z :=
  if valid_ymd y m d
     && (0 <=? hh) && (hh <=? 23) && (0 <=? mm) && (mm <=? 59)
     && (0 <=? ss) && (ss <=? 59) && (0 <=? us) && (us <=? 999999)
  then Some ((ymd2ord y m d - 1) * us_per_day
             + ((hh * 60 + mm) * 60 + ss) * 1000000 + us)
  else None.

(** ** [fromisoformat]

    The documented grammar, with digit runs of exact width; [None] stands for
    the ValueError. *)

Section isoformat.
Local Open Scope char_scope.

Fixpoint count_digits (l : list ascii) : nat :=
  match l with
  | c :: l' => if is_digit c then S (count_digits l') else O
  | [] => O
  end.

(** Exactly [n] digits at the head of [l]. *)
Definition digits_n (n : nat) (l : list ascii) : option Z :=
  if (n <=? length l)%nat then parse_digits (take n l) else None.

Definition chr_is (o : option ascii) (c : ascii) : bool :=
  match o with Some c' => Ascii.eqb c' c | None => false end.

Definition chr_digit (o : option ascii) : bool :=
  match o with Some c => is_digit c | None => false end.

(** Where the date ends; [None] is the ValueError.  Called with at least seven
    characters. *)
Definition find_separator (s : list ascii) : option nat :=
  let len := length s in
  if (len =? 7)%nat then Some 7%nat
  else if chr_is (s !! 4%nat) "-" then
    if chr_is (s !! 5%nat) "W" then
      if (8 <? len)%nat && chr_is (s !! 8%nat) "-" then
        if (len =? 9)%nat then None
        else if (10 <? len)%nat && chr_digit (s !! 10%nat) then Some 8%nat
        else Some 10%nat
      else Some 8%nat
    else Some 10%nat
  else if chr_is (s !! 4%nat) "W" then
    let idx := (7 + count_digits (drop 7 s))%nat in
    if (idx <? 9)%nat then Some idx
    else if Nat.even idx then Some 7%nat else Some 8%nat
  else Some 8%nat.

(** The date part, not yet range-checked. *)
Definition parse_isoformat_date (s : list ascii) : option (Z * Z * Z) :=
  let len := length s in
  if negb ((len =? 7) || (len =? 8) || (len =? 10))%nat then None else
  year ← digits_n 4 s;
  let has_sep := chr_is (s !! 4%nat) "-" in
  let skip := (if has_sep then 1 else 0)%nat in
  let pos := (4 + skip)%nat in
  if chr_is (s !! pos) "W" then
    week ← digits_n 2 (drop (pos + 1) s);
    let pos := (pos + 3)%nat in
    if (pos <? len)%nat then
      if negb (Bool.eqb (chr_is (s !! pos) "-") has_sep) then None else
      day ← digits_n 1 (drop (pos + skip) s);
      isoweek_to_gregorian year week day
    else isoweek_to_gregorian year week 1
  else
    month ← digits_n 2 (drop pos s);
    let pos := (pos + 2)%nat in
    if negb (Bool.eqb (chr_is (s !! pos) "-") has_sep) then None else
    day ← digits_n 2 (drop (pos + skip) s);
    Some (year, month, day).

Definition fraction_correction (digits : nat) : Z :=
  match digits with
  | 1%nat => 100000 | 2%nat => 10000 | 3%nat => 1000 | 4%nat => 100 | 5%nat => 10
  | _ => 1
  end.

(** What follows the last of hours, minutes and seconds that was read. *)
Definition parse_fraction (s : list ascii) : option Z :=
  match s with
  | [] => Some 0
  | c :: s' =>
      if negb (Ascii.eqb c "." || Ascii.eqb c ",") then None else
      us ← parse_digits (take 6 s');
      if forallb is_digit (drop 6 s')
      then Some (us * fraction_correction (length (take 6 s'))) else None
  end.

(** HH[:?MM[:?SS[{.,}fff[fff]]]] *)
Definition parse_hh_mm_ss_ff (s : list ascii) : option (Z * Z * Z * Z) :=
  hh ← digits_n 2 s;
  match drop 2 s with
  | [] => Some (hh, 0, 0, 0)
  | (c :: _) as r =>
      let has_sep := Ascii.eqb c ":" in
      let skip := (if has_sep then 1 else 0)%nat in
      let r := drop skip r in
      mm ← digits_n 2 r;
      match drop 2 r with
      | [] => Some (hh, mm, 0, 0)
      | (c :: _) as r =>
          if has_sep && negb (Ascii.eqb c ":") then None else
          let r := drop skip r in
              ss ← digits_n 2 r;
          us ← parse_fraction (drop 2 r);
          Some (hh, mm, ss, us)
      end
  end.

Fixpoint index_of (c : ascii) (s : list ascii) : option nat :=
  match s with
  | [] => None
  | c' :: s' => if Ascii.eqb c' c then Some O else S <$> index_of c s'
  end.

(** Position of the time zone's sign: the first [-], else the first [+], else
    the first [Z]. *)
Definition tz_position (s : list ascii) : option nat :=
  match index_of "-" s with
  | Some i => Some i
  | None => match index_of "+" s with Some i => Some i | None => index_of "Z" s end
  end.

(** Time of day, and the UTC offset in microseconds when one is given. *)
Definition parse_isoformat_time (s : list ascii)
  : option ((Z * Z * Z * Z) * option Z) :=
  if (length s <? 2)%nat then None else
  match tz_position s with
  | None => t ← parse_hh_mm_ss_ff s; Some (t, None)
  | Some i =>
      t ← parse_hh_mm_ss_ff (take i s);
      let tz := drop (S i) s in
      if chr_is (s !! i) "Z" && (length tz =? 0)%nat then Some (t, Some 0) else
      if ((length tz =? 0) || (length tz =? 1) || (length tz =? 3))%nat then None else
      '(th, tm, ts, tu) ← parse_hh_mm_ss_ff tz;
      let off := (((th * 60 + tm) * 60 + ts) * 1000000 + tu)%Z in
      (* [timezone] takes an offset strictly inside a day. *)
      if (us_per_day <=? off)%Z then None
      else Some (t, Some (if chr_is (s !! i) "-" then (- off)%Z else off))
  end.

(** [datetime.fromisoformat]: the local value and its offset. *)
Definition fromisoformat (s : list ascii) : option (Z * option Z) :=
  if (length s <? 7)%nat then None else
  sep ← find_separator s;
  '(y, m, d) ← parse_isoformat_date (take sep s);
  '(t, tz) ← match drop sep s with
             | [] => Some ((0, 0, 0, 0), None)
             | _ :: r => parse_isoformat_time r
             end;
  let '(hh, mm, ss, us) := t in
  dt ← mk_datetime y m d hh mm ss us;
  Some (dt, tz).

(** [date.fromisoformat] succeeds. *)
Definition date_fromisoformat_ok (s : list ascii) : bool :=
  match parse_isoformat_date s with
  | Some (y, m, d) => valid_ymd y m d
  | None => false
  end.

(** [s.replace("Z", "+00:00")]. *)
Definition replace_z (s : list ascii) : list ascii :=
  mjoin ((fun c => if Ascii.eqb c "Z" then ["+"; "0"; "0"; ":"; "0"; "0"] else [c]) <$> s).

End isoformat.

(** ** Reading one timestamp of a Flash body *)

(** The last microsecond of the day [t] falls on. *)
Definition end_of_day (t : Z) : Z := t / us_per_day * us_per_day + (us_per_day - 1).

(** Whether a stored boundary is one Flash named as a bare date. *)
Definition is_whole_day_boundary (t : Z) : bool :=
  (t mod us_per_day =? 0) || (t mod us_per_day =? us_per_day - 1).

(** [_is_date_only]. *)
Definition is_date_only (raw : string) : bool := date_fromisoformat_ok (chars raw).

(** ISO string to naive UTC.  Unparseable is [None]; [astimezone] raises
    OverflowError when the offset takes the value out of the range of
    [datetime], and nothing in the function catches that. *)
Definition parse_flash_timestamp (raw : json) (deadline : bool) : res exn (option Z) :=
  match raw with
  | JStr s =>
      match fromisoformat (replace_z (chars s)) with
      | None => Ok None
      | Some (local, tz) =>
          let parsed := match tz with Some off => local - off | None => local end in
          if negb ((0 <=? parsed) && (parsed <=? datetime_max)) then Raise OverflowError
          else if deadline && is_date_only s then Ok (Some (end_of_day parsed))
          else Ok (Some parsed)
      end
  | _ => Ok None
  end.

(** ** Printing: [date.isoformat] and [datetime.isoformat(timespec="milliseconds")] *)

Definition pad2 (z : Z) : list ascii := [digit_chr (z / 10); digit_chr (z mod 10)].
Definition pad3 (z : Z) : list ascii := digit_chr (z / 100) :: pad2 (z mod 100).
Definition pad4 (z : Z) : list ascii := digit_chr (z / 1000) :: pad3 (z mod 1000).

Definition iso_date (y m d : Z) : list ascii :=
  pad4 y ++ ["-"%char] ++ pad2 m ++ ["-"%char] ++ pad2 d.

Definition iso_time_ms (us : Z) : list ascii :=
  pad2 (us / 3600000000) ++ [":"%char] ++ pad2 (us / 60000000 mod 60)
  ++ [":"%char] ++ pad2 (us / 1000000 mod 60) ++ ["."%char] ++ pad3 (us / 1000 mod 1000).

Definition isoformat_ms (t : Z) : list ascii :=
  let '(y, m, d) := ord2ymd (t / us_per_day + 1) in
  iso_date y m d ++ ["T"%char] ++ iso_time_ms (t mod us_per_day).

(** ** The calendar is a bijection *)

Definition doy_ok (leap : bool) (n : Z) : bool :=
  let '(m, d) := md_of_doy leap n in
  (1 <=? m) && (m <=? 12) && (1 <=? d) && (d <=? days_in_month leap m)
  && (days_before_month leap m + d =? n + 1).

Lemma md_of_doy_check leap : forallb (doy_ok leap) (seqZ 0 365) = true.
Proof. destruct leap; vm_compute; reflexivity. Qed.

Lemma md_of_doy_spec leap n m d : 0 <= n < 365 -> md_of_doy leap n = (m, d) ->
  1 <= m <= 12 /\ 1 <= d <= days_in_month leap m /\ days_before_month leap m + d = n + 1.
Proof.
  intros Hn Hmd. pose proof (md_of_doy_check leap) as H.
  rewrite forallb_forall in H. specialize (H n).
  unfold doy_ok in H. rewrite Hmd in H.
  assert (Hin : In n (seqZ 0 365)) by (apply list_elem_of_In, elem_of_seqZ; lia).
  specialize (H Hin). lia.
Qed.

(** The year [400 q + 100 c + 4 f + k + 1], as [ord2ymd] decomposes it. *)
Lemma year_parts q c f k (y := q * 400 + 1 + c * 100 + f * 4 + k) :
  0 <= c <= 3 -> 0 <= f <= 24 -> 0 <= k <= 3 ->
  is_leap y = (k =? 3) && (negb (f =? 24) || (c =? 3))
  /\ days_before_year y = q * 146097 + c * 36524 + f * 1461 + k * 365.
Proof.
  intros Hc Hf Hk. subst y. unfold is_leap, days_before_year. split.
  - assert (Hm : forall a b m, 0 <= b < m -> (m * a + b) mod m = b)
      by (intros; rewrite Z.mul_comm, Z.add_comm, Z_mod_plus_full; apply Z.mod_small; lia).
    set (y := q * 400 + 1 + c * 100 + f * 4 + k).
    assert (H4 : y mod 4 = if k =? 3 then 0 else k + 1).
    { destruct (Z.eqb_spec k 3).
      - replace y with (4 * (q * 100 + c * 25 + f + 1) + 0) by lia. apply Hm. lia.
      - replace y with (4 * (q * 100 + c * 25 + f) + (k + 1)) by lia. apply Hm. lia. }
    assert (H100 : y mod 100 = if (f =? 24) && (k =? 3) then 0 else f * 4 + k + 1).
    { destruct ((f =? 24) && (k =? 3)) eqn:E.
      - replace y with (100 * (q * 4 + c + 1) + 0) by lia. apply Hm. lia.
      - replace y with (100 * (q * 4 + c) + (f * 4 + k + 1)) by lia. apply Hm. lia. }
    assert (H400 : (y mod 400 =? 0) = ((c =? 3) && (f =? 24) && (k =? 3))).
    { destruct ((c =? 3) && (f =? 24) && (k =? 3)) eqn:E.
      - replace y with (400 * (q + 1) + 0) by lia. rewrite Hm; lia.
      - replace y with (400 * q + (c * 100 + f * 4 + k + 1)) by lia. rewrite Hm; lia. }
    rewrite H4, H100, H400. clear -Hc Hf Hk.
    destruct (Z.eqb_spec k 3), (Z.eqb_spec f 24), (Z.eqb_spec c 3); simpl; lia.
  - div_lia.
Qed.

Lemma ord2ymd_spec n y m d : 1 <= n <= 3652059 -> ord2ymd n = (y, m, d) ->
  valid_ymd y m d = true /\ ymd2ord y m d = n.
Proof.
  intros Hn. unfold ord2ymd.
  set (n0 := n - 1). set (q := n0 / 146097). set (r := n0 mod 146097).
  set (c := r / 36524). set (r1 := r mod 36524).
  set (f := r1 / 1461). set (r2 := r1 mod 1461).
  set (k := r2 / 365). set (r3 := r2 mod 365).
  assert (Hq : n0 = 146097 * q + r /\ 0 <= r < 146097 /\ 0 <= q <= 24)
    by (subst q r n0; div_lia).
  assert (Hc : r = 36524 * c + r1 /\ 0 <= r1 < 36524 /\ 0 <= c <= 4)
    by (subst c r1; clearbody r; div_lia).
  assert (Hf : r1 = 1461 * f + r2 /\ 0 <= r2 < 1461 /\ 0 <= f <= 24)
    by (subst f r2; clearbody r1; div_lia).
  assert (Hk : r2 = 365 * k + r3 /\ 0 <= r3 < 365 /\ 0 <= k <= 4)
    by (subst k r3; clearbody r2; div_lia).
  clearbody q r c r1 f r2 k r3. subst n0.
  destruct ((k =? 4) || (c =? 4)) eqn:E.
  - intros [= <- <- <-]. unfold valid_ymd, ymd2ord.
    destruct (Z.eqb_spec c 4) as [->|Hc4].
    + destruct (year_parts q 3 24 3) as [Hl Hd]; [lia..|].
      replace (q * 400 + 1 + 4 * 100 + f * 4 + k - 1)
        with (q * 400 + 1 + 3 * 100 + 24 * 4 + 3) by lia.
      rewrite Hl, Hd. change (days_in_month _ 12) with 31.
      change (days_before_month _ 12) with 335. lia.
    + assert (k = 4) as -> by lia. destruct (year_parts q c f 3) as [Hl Hd]; [lia..|].
      replace (q * 400 + 1 + c * 100 + f * 4 + 4 - 1)
        with (q * 400 + 1 + c * 100 + f * 4 + 3) by lia.
      rewrite Hl, Hd. assert ((f =? 24) = false) as -> by lia.
      change (days_in_month _ 12) with 31. change (days_before_month _ 12) with 335. lia.
  - destruct (year_parts q c f k) as [Hl Hd]; [lia..|].
    destruct (md_of_doy _ r3) as [m' d'] eqn:Emd. intros [= <- <- <-].
    apply md_of_doy_spec in Emd; [|lia].
    unfold valid_ymd, ymd2ord. rewrite Hl, Hd. lia.
Qed.

(** ** Printing, then parsing *)

(** Evaluate the parsers on strings of known shape with symbolic digits. *)
Ltac digits :=
  repeat first
    [ progress cbn - [Z.mul Z.add Z.div Z.modulo digit_chr is_digit digit_val Ascii.eqb]
    | rewrite digit_chr_is_digit by lia
    | rewrite digit_val_chr by lia
    | rewrite digit_chr_ne by (lia || reflexivity)
    | rewrite take_0
    | match goal with
      | |- context [Ascii.eqb (Ascii ?a ?b ?c ?d ?e ?f ?g ?h) (Ascii ?i ?j ?k ?l ?m ?n ?o ?p)] =>
          let x := constr:(Ascii.eqb (Ascii a b c d e f g h) (Ascii i j k l m n o p)) in
          let r := eval compute in x in change x with r
      | |- context [is_digit (Ascii ?a ?b ?c ?d ?e ?f ?g ?h)] =>
          let x := constr:(is_digit (Ascii a b c d e f g h)) in
          let r := eval compute in x in change x with r
      | |- context [digit_val (Ascii ?a ?b ?c ?d ?e ?f ?g ?h)] =>
          let x := constr:(digit_val (Ascii a b c d e f g h)) in
          let r := eval compute in x in change x with r
      end ].

Lemma pad2_bounds z : 0 <= z < 100 -> 0 <= z / 10 <= 9 /\ 0 <= z mod 10 <= 9.
Proof. div_lia. Qed.

Lemma pad4_bounds z : 0 <= z < 10000 ->
  0 <= z / 1000 <= 9 /\ 0 <= z mod 1000 / 100 <= 9
  /\ 0 <= z mod 1000 mod 100 / 10 <= 9 /\ 0 <= z mod 1000 mod 100 mod 10 <= 9.
Proof. div_lia. Qed.

Lemma parse_date_iso y m d : 0 <= y < 10000 -> 0 <= m < 100 -> 0 <= d < 100 ->
  parse_isoformat_date (iso_date y m d) = Some (y, m, d).
Proof.
  intros Hy Hm Hd. unfold iso_date, pad4, pad3, pad2, parse_isoformat_date, digits_n.
  pose proof (pad4_bounds y Hy). pose proof (pad2_bounds m Hm).
  pose proof (pad2_bounds d Hd).
  digits. repeat f_equal; div_lia.
Qed.

Lemma parse_hms_iso us : 0 <= us < us_per_day ->
  parse_hh_mm_ss_ff (iso_time_ms us)
  = Some (us / 3600000000, us / 60000000 mod 60, us / 1000000 mod 60,
          us / 1000 mod 1000 * 1000).
Proof.
  rewrite us_per_day_eq. intros Hus. unfold iso_time_ms, pad3, pad2, parse_hh_mm_ss_ff, digits_n, parse_fraction.
  assert (Hh : 0 <= us / 3600000000 < 24) by div_lia. generalize dependent (us / 3600000000).
  assert (Hm : 0 <= us / 60000000 mod 60 < 60) by div_lia. generalize dependent (us / 60000000 mod 60).
  assert (Hs : 0 <= us / 1000000 mod 60 < 60) by div_lia. generalize dependent (us / 1000000 mod 60).
  assert (Hf : 0 <= us / 1000 mod 1000 < 1000) by div_lia. generalize dependent (us / 1000 mod 1000).
  clear us Hus. intros f Hf s Hs m Hm h Hh.
  pose proof (pad2_bounds h). pose proof (pad2_bounds m). pose proof (pad2_bounds s).
  assert (0 <= f / 100 <= 9 /\ 0 <= f mod 100 / 10 <= 9 /\ 0 <= f mod 100 mod 10 <= 9) by div_lia.
  digits. repeat f_equal; div_lia.
Qed.

Lemma iso_date_length y m d : length (iso_date y m d) = 10%nat.
Proof. done. Qed.

Lemma iso_date_not_short y m d l : (length (iso_date y m d ++ l) <? 7)%nat = false.
Proof. rewrite length_app, iso_date_length. apply Nat.ltb_ge. lia. Qed.

Lemma take_iso_date y m d l : take 10 (iso_date y m d ++ l) = iso_date y m d.
Proof. by rewrite take_app_length'. Qed.

Lemma drop_iso_date y m d l : drop 10 (iso_date y m d ++ l) = l.
Proof. by rewrite drop_app_length'. Qed.

Lemma find_separator_iso y m d l : 0 <= y < 10000 -> 0 <= m < 100 -> 0 <= d < 100 ->
  find_separator (iso_date y m d ++ l) = Some 10%nat.
Proof.
  intros Hy Hm Hd. unfold iso_date, pad4, pad3, pad2, find_separator.
  pose proof (pad2_bounds m Hm). by digits.
Qed.

Lemma tz_position_iso us : 0 <= us < us_per_day ->
  tz_position (iso_time_ms us ++ chars "+00:00") = Some 12%nat.
Proof.
  rewrite us_per_day_eq. intros Hus. unfold iso_time_ms, pad3, pad2, tz_position.
  assert (0 <= us / 3600000000 < 24 /\ 0 <= us / 60000000 mod 60 < 60
          /\ 0 <= us / 1000000 mod 60 < 60) as (Hh & Hm & Hs) by div_lia.
  assert (0 <= us / 1000 mod 1000 / 100 <= 9 /\ 0 <= us / 1000 mod 1000 mod 100 / 10 <= 9
          /\ 0 <= us / 1000 mod 1000 mod 100 mod 10 <= 9) by div_lia.
  pose proof (pad2_bounds (us / 3600000000)). pose proof (pad2_bounds (us / 60000000 mod 60)).
  pose proof (pad2_bounds (us / 1000000 mod 60)). by digits.
Qed.

Lemma parse_time_iso us : 0 <= us < us_per_day ->
  parse_isoformat_time (iso_time_ms us ++ chars "+00:00")
  = Some ((us / 3600000000, us / 60000000 mod 60, us / 1000000 mod 60,
           us / 1000 mod 1000 * 1000), Some 0).
Proof.
  intros Hus. unfold parse_isoformat_time. rewrite tz_position_iso by done.
  change (take 12 (iso_time_ms us ++ chars "+00:00")) with (iso_time_ms us).
  rewrite parse_hms_iso by done. reflexivity.
Qed.

Lemma replace_z_app l k : replace_z (l ++ k) = replace_z l ++ replace_z k.
Proof. unfold replace_z. by rewrite fmap_app, join_app. Qed.

Lemma replace_z_pad2 z : 0 <= z < 100 -> replace_z (pad2 z) = pad2 z.
Proof. intros Hz%pad2_bounds. unfold replace_z, pad2. by digits. Qed.

Lemma replace_z_pad3 z : 0 <= z < 1000 -> replace_z (pad3 z) = pad3 z.
Proof.
  intros Hz. unfold replace_z, pad3, pad2.
  assert (0 <= z / 100 <= 9 /\ 0 <= z mod 100 / 10 <= 9 /\ 0 <= z mod 100 mod 10 <= 9)
    by div_lia.
  by digits.
Qed.

Lemma replace_z_pad4 z : 0 <= z < 10000 -> replace_z (pad4 z) = pad4 z.
Proof. intros Hz%pad4_bounds. unfold replace_z, pad4, pad3, pad2. by digits. Qed.

Lemma replace_z_iso_date y m d : 0 <= y < 10000 -> 0 <= m < 100 -> 0 <= d < 100 ->
  replace_z (iso_date y m d) = iso_date y m d.
Proof.
  intros Hy Hm Hd. unfold iso_date.
  by rewrite !replace_z_app, replace_z_pad4, !replace_z_pad2.
Qed.

Lemma replace_z_iso_time us : 0 <= us < us_per_day ->
  replace_z (iso_time_ms us) = iso_time_ms us.
Proof.
  rewrite us_per_day_eq. intros Hus. unfold iso_time_ms. rewrite !replace_z_app.
  by rewrite !replace_z_pad2, replace_z_pad3 by div_lia.
Qed.

Lemma valid_ymd_bounds y m d : valid_ymd y m d = true ->
  0 <= y < 10000 /\ 0 <= m < 100 /\ 0 <= d < 100.
Proof.
  unfold valid_ymd, days_in_month. intros H.
  destruct (m =? 2), (is_leap y), ((m =? 4) || (m =? 6) || (m =? 9) || (m =? 11)); lia.
Qed.

(** The clock fields of a time of day, and their recomposition. *)
Lemma time_fields us : 0 <= us < us_per_day ->
  0 <= us / 3600000000 <= 23 /\ 0 <= us / 60000000 mod 60 <= 59
  /\ 0 <= us / 1000000 mod 60 <= 59 /\ 0 <= us / 1000 mod 1000 * 1000 <= 999999
  /\ ((us / 3600000000 * 60 + us / 60000000 mod 60) * 60 + us / 1000000 mod 60) * 1000000
     + us / 1000 mod 1000 * 1000 = us / 1000 * 1000.
Proof. rewrite us_per_day_eq. intros. repeat split; div_lia. Qed.

Lemma mk_datetime_iso y m d us : valid_ymd y m d = true -> 0 <= us < us_per_day ->
  mk_datetime y m d (us / 3600000000) (us / 60000000 mod 60) (us / 1000000 mod 60)
    (us / 1000 mod 1000 * 1000)
  = Some ((ymd2ord y m d - 1) * us_per_day + us / 1000 * 1000).
Proof.
  intros Hv (H1 & H2 & H3 & H4 & H5)%time_fields. unfold mk_datetime.
  rewrite <- H5, Z.add_assoc, Hv. simpl (true && _). 
  rewrite !(proj2 (Z.leb_le _ _)) by lia. done.
Qed.

Lemma fromisoformat_iso y m d us : valid_ymd y m d = true -> 0 <= us < us_per_day ->
  fromisoformat (iso_date y m d ++ ["T"%char] ++ iso_time_ms us ++ chars "+00:00")
  = Some ((ymd2ord y m d - 1) * us_per_day + us / 1000 * 1000, Some 0).
Proof.
  intros Hv Hus. pose proof (valid_ymd_bounds _ _ _ Hv) as (Hy & Hm & Hd).
  unfold fromisoformat.
  rewrite iso_date_not_short, find_separator_iso by done. cbn [mbind option_bind].
  rewrite take_iso_date, drop_iso_date, parse_date_iso by done. cbn [mbind option_bind app].
  rewrite parse_time_iso by done. cbn [mbind option_bind].
  by rewrite mk_datetime_iso.
Qed.

Lemma fromisoformat_iso_ms t : valid_datetime t ->
  fromisoformat (replace_z (isoformat_ms t ++ ["Z"%char])) = Some (t / 1000 * 1000, Some 0).
Proof.
  intros [Ht1 Ht2]. unfold isoformat_ms.
  destruct (ord2ymd (t / us_per_day + 1)) as [[y m] d] eqn:Eymd.
  apply ord2ymd_spec in Eymd as [Hv Hord];
    [|rewrite datetime_max_eq in Ht2; rewrite us_per_day_eq; div_lia].
  pose proof (valid_ymd_bounds _ _ _ Hv) as (Hy & Hm & Hd).
  assert (Hus : 0 <= t mod us_per_day < us_per_day) by (apply Z.mod_pos_bound; done).
  rewrite !replace_z_app, replace_z_iso_date, replace_z_iso_time by done.
  assert (replace_z ["T"%char] = ["T"%char]) as -> by done.
  assert (replace_z ["Z"%char] = chars "+00:00") as -> by done.
  rewrite <- !(assoc_L (++)). rewrite (fromisoformat_iso y m d) by done.
  rewrite Hord, Z.add_simpl_r.
  assert (Hq : t / us_per_day * us_per_day + t mod us_per_day / 1000 * 1000 = t / 1000 * 1000)
    by (rewrite us_per_day_eq; clear; div_lia).
  by rewrite Hq.
Qed.

(** What [flash_mock._iso] prints, [parse_flash_timestamp] reads back to the
    millisecond, whether or not the field is a deadline. *)
Lemma parse_iso_ms t deadline : valid_datetime t ->
  parse_flash_timestamp (JStr (of_chars (isoformat_ms t ++ ["Z"%char]))) deadline
  = Ok (Some (t / 1000 * 1000)).
Proof.
  intros Ht. unfold parse_flash_timestamp, is_date_only. rewrite chars_of_chars.
  rewrite fromisoformat_iso_ms by done.
  assert (Hdate : date_fromisoformat_ok (isoformat_ms t ++ ["Z"%char]) = false).
  { unfold date_fromisoformat_ok, isoformat_ms. by destruct (ord2ymd _) as [[y m] d]. }
  rewrite Hdate, andb_false_r. rewrite Z.sub_0_r.
  destruct Ht as [Ht1 Ht2]. rewrite datetime_max_eq in *.
  match goal with |- context [if ?b then _ else _] => destruct b eqn:Eb end;
    [exfalso; div_lia|done].
Qed.

(** A bare date starts at its first moment and, as a deadline, ends at its
    last. *)
Lemma parse_bare_date y m d deadline : valid_ymd y m d = true ->
  let midnight := (ymd2ord y m d - 1) * us_per_day in
  0 <= midnight <= datetime_max ->
  parse_flash_timestamp (JStr (of_chars (iso_date y m d))) deadline
  = Ok (Some (if deadline then midnight + (us_per_day - 1) else midnight)).
Proof.
  intros Hv midnight Hr. pose proof (valid_ymd_bounds _ _ _ Hv) as (Hy & Hm & Hd).
  unfold parse_flash_timestamp, is_date_only, date_fromisoformat_ok.
  rewrite chars_of_chars, replace_z_iso_date, parse_date_iso, Hv by done.
  unfold fromisoformat. rewrite <- (app_nil_r (iso_date y m d)).
  rewrite iso_date_not_short, find_separator_iso by done. cbn [mbind option_bind].
  rewrite take_iso_date, drop_iso_date, parse_date_iso by done. cbn [mbind option_bind].
  unfold mk_datetime. rewrite Hv. cbn - [Z.mul Z.add Z.sub Z.leb datetime_max us_per_day].
  replace ((ymd2ord y m d - 1) * us_per_day + ((0 * 60 + 0) * 60 + 0) * 1000000 + 0)
    with midnight by (subst midnight; lia).
  assert (E : (0 <=? midnight) && (midnight <=? datetime_max) = true)
    by (apply andb_true_intro; split; apply Z.leb_le; apply Hr).
  change ((0 <=? 0) && _ && _ && _ && _ && _ && _ && _) with true.
  cbn [mbind option_bind]. rewrite E. cbn [negb].
  destruct deadline; [|done]. unfold end_of_day. subst midnight.
  rewrite Z.div_mul by (rewrite us_per_day_eq; discriminate). reflexivity.
Qed.
