(* ===== verification/Types.v ===== *)
(** * The data model: Flash's objects and the rows of the billing tables

    [src/app/core/flash.py] (the frozen dataclasses and their allow-lists) and
    [src/app/db_models/__init__.py] (the columns of [brainstorm_nsec],
    [scheduling], [billing_plan], [user_subscription] and
    [flash_webhook_event] that the billing code reads or writes).  A timestamp
    is the number of microseconds since 0001-01-01T00:00:00 UTC. *)

From Stdlib Require Import Ascii String.
From S2P Require Import Prelude Json Time.
Local Open Scope string_scope.

(** ** Flash *)

Definition CANCELLATION_END_OF_PERIOD := "end_of_period".
Definition CANCELLATION_IMMEDIATE := "immediate".
Definition RECOGNISED_CANCELLATION_MODES : list string :=
  [CANCELLATION_END_OF_PERIOD; CANCELLATION_IMMEDIATE].

Definition ENTITLING_STATUSES : list string := ["active"; "trial"].
Definition ENDED_STATUSES : list string := ["expired"; "paused"].
Definition CANCELLED_STATUS := "canceled".
Definition PAST_DUE_STATUS := "past_due".
Definition PENDING_STATUS := "pending".

Definition str_in (s : string) (l : list string) : bool := existsb (String.eqb s) l.

Record FlashPricing := {
  pr_amount_minor : option Z;
  pr_currency : option string;
  pr_billing_interval : option string;
}.

Record FlashLifecyclePolicy := {
  cancellation_mode : option string;
  dunning_max_attempts : option Z;
  dunning_attempts : option Z;
  dunning_cancels_after_final_failure : option bool;
}.

Definition UNKNOWN_LIFECYCLE_POLICY : FlashLifecyclePolicy :=
  {| cancellation_mode := None; dunning_max_attempts := None;
     dunning_attempts := None; dunning_cancels_after_final_failure := None |}.

(** [ref] and [subscriber_id] are whatever JSON value Flash sent: the parser
    does not check them. *)
Record FlashSubscription := {
  fs_id : string;
  fs_status : string;
  fs_ref : json;
  fs_subscriber_id : json;
  fs_service_id : string;
  fs_plan_id : string;
  fs_current_period_start : option Z;
  fs_current_period_end : option Z;
  fs_next_billing_date : option Z;
  fs_trial_end_date : option Z;
  fs_cancel_effective_date : option Z;
  fs_portal_url : option string;
  fs_pricing : option FlashPricing;
  fs_policy : FlashLifecyclePolicy;
}.

(** [dataclasses.replace(found, cancel_effective_date=...)] and
    [replace(found, status=...)]. *)
Definition fs_with_cancel (s : FlashSubscription) (d : option Z) : FlashSubscription :=
  {| fs_id := fs_id s; fs_status := fs_status s; fs_ref := fs_ref s;
     fs_subscriber_id := fs_subscriber_id s; fs_service_id := fs_service_id s;
     fs_plan_id := fs_plan_id s; fs_current_period_start := fs_current_period_start s;
     fs_current_period_end := fs_current_period_end s;
     fs_next_billing_date := fs_next_billing_date s;
     fs_trial_end_date := fs_trial_end_date s; fs_cancel_effective_date := d;
     fs_portal_url := fs_portal_url s; fs_pricing := fs_pricing s;
     fs_policy := fs_policy s |}.

Definition fs_with_status (s : FlashSubscription) (st : string) : FlashSubscription :=
  {| fs_id := fs_id s; fs_status := st; fs_ref := fs_ref s;
     fs_subscriber_id := fs_subscriber_id s; fs_service_id := fs_service_id s;
     fs_plan_id := fs_plan_id s; fs_current_period_start := fs_current_period_start s;
     fs_current_period_end := fs_current_period_end s;
     fs_next_billing_date := fs_next_billing_date s;
     fs_trial_end_date := fs_trial_end_date s;
     fs_cancel_effective_date := fs_cancel_effective_date s;
     fs_portal_url := fs_portal_url s; fs_pricing := fs_pricing s;
     fs_policy := fs_policy s |}.

(** One plan on one service, as Flash offers it. *)
Record FlashPlan := {
  fp_id : string;
  fp_service_id : string;
  fp_name : string;
  fp_description : option string;
  fp_amount_minor : option Z;
  fp_currency : string;
  fp_billing_interval : option string;
  fp_sort_order : Z;
  fp_features : option (list string);
  fp_not_included : option (list string);
  fp_status : string;
  fp_signup_url : option string;
}.

Record FlashService := {
  fsv_id : string;
  fsv_name : string;
  fsv_description : option string;
  fsv_signup_url : option string;
}.

(** ** Rows *)

(** [SchedulingSource]; the column is plain text. *)
Definition SOURCE_DEFAULT := "default".
Definition SOURCE_BILLING := "billing".
Definition SOURCE_ADMIN := "admin".

(** [brainstorm_nsec]: the columns billing reads or writes. *)
Record NsecRow := {
  ns_scheduling_id : option Z;
  ns_scheduling_source : string;
  ns_billing_blocked : bool;
}.

(** [scheduling]. *)
Record SchedRow := {
  sc_id : Z;
  sc_name : string;
  sc_interval_seconds : Z;
  sc_priority : Z;
  sc_enabled : bool;
  sc_manual_quota_limit : Z;
  sc_manual_quota_window_seconds : Z;
  sc_is_default : bool;
  sc_is_public : bool;
  sc_support_included : bool;
}.

(** [billing_plan]. *)
Record PlanRow := {
  bp_id : Z;
  bp_service_id : string;
  bp_plan_id : string;
  bp_scheduling_id : Z;
  bp_is_active : bool;
}.

(** [user_subscription]; [us_read] groups the columns that only record what
    Flash last said. *)
Record SubRead := {
  sr_subscriber_id : option string;
  sr_period_start : option Z;
  sr_period_end : option Z;
  sr_next_billing : option Z;
  sr_trial_end : option Z;
  sr_portal_url : option string;
  sr_amount_minor : option Z;
  sr_currency : option string;
  sr_interval : option string;
}.

Record SubRow := {
  us_pubkey : string;
  us_flash_id : string;
  us_plan : Z;
  us_granted : option Z;
  us_status : string;
  us_cancel : option Z;
  us_read : SubRead;
  us_last_event_at : option Z;
  us_last_synced_at : option Z;
  us_last_sync_error : option string;
  us_sync_error_since : option Z;
  us_created_at : Z;
}.

Definition us_period_end (r : SubRow) : option Z := sr_period_end (us_read r).
Definition us_next_billing (r : SubRow) : option Z := sr_next_billing (us_read r).

Definition us_with_granted (r : SubRow) (g : option Z) : SubRow :=
  {| us_pubkey := us_pubkey r; us_flash_id := us_flash_id r; us_plan := us_plan r;
     us_granted := g; us_status := us_status r; us_cancel := us_cancel r;
     us_read := us_read r; us_last_event_at := us_last_event_at r;
     us_last_synced_at := us_last_synced_at r; us_last_sync_error := us_last_sync_error r;
     us_sync_error_since := us_sync_error_since r; us_created_at := us_created_at r |}.

Definition us_with_status (r : SubRow) (st : string) (c : option Z) : SubRow :=
  {| us_pubkey := us_pubkey r; us_flash_id := us_flash_id r; us_plan := us_plan r;
     us_granted := us_granted r; us_status := st; us_cancel := c;
     us_read := us_read r; us_last_event_at := us_last_event_at r;
     us_last_synced_at := us_last_synced_at r; us_last_sync_error := us_last_sync_error r;
     us_sync_error_since := us_sync_error_since r; us_created_at := us_created_at r |}.

Definition us_with_event_at (r : SubRow) (t : option Z) : SubRow :=
  {| us_pubkey := us_pubkey r; us_flash_id := us_flash_id r; us_plan := us_plan r;
     us_granted := us_granted r; us_status := us_status r; us_cancel := us_cancel r;
     us_read := us_read r; us_last_event_at := t;
     us_last_synced_at := us_last_synced_at r; us_last_sync_error := us_last_sync_error r;
     us_sync_error_since := us_sync_error_since r; us_created_at := us_created_at r |}.

Definition us_with_sync (r : SubRow) (at_ : option Z) (err : option string)
    (since : option Z) : SubRow :=
  {| us_pubkey := us_pubkey r; us_flash_id := us_flash_id r; us_plan := us_plan r;
     us_granted := us_granted r; us_status := us_status r; us_cancel := us_cancel r;
     us_read := us_read r; us_last_event_at := us_last_event_at r;
     us_last_synced_at := at_; us_last_sync_error := err;
     us_sync_error_since := since; us_created_at := us_created_at r |}.

(** [flash_webhook_event]. *)
Record EventRow := {
  ev_id : Z;
  ev_event : string;
  ev_event_timestamp : option Z;
  ev_delivery_timestamp : Z;
  ev_subscription_id : option string;
  ev_payload : option json;
  ev_processing_started_at : option Z;
  ev_processed_at : option Z;
  ev_attempts : Z;
  ev_process_error : option string;
  ev_resolved_by : option string;
  ev_resolution : option string;
  ev_dedupe_key : string;
  ev_created_at : Z;
}.

(** The columns every later write of an event changes. *)
Definition ev_with (r : EventRow) (started processed : option Z) (attempts : Z)
    (err resolved_by resolution : option string) : EventRow :=
  {| ev_id := ev_id r; ev_event := ev_event r;
     ev_event_timestamp := ev_event_timestamp r;
     ev_delivery_timestamp := ev_delivery_timestamp r;
     ev_subscription_id := ev_subscription_id r; ev_payload := ev_payload r;
     ev_processing_started_at := started; ev_processed_at := processed;
     ev_attempts := attempts; ev_process_error := err;
     ev_resolved_by := resolved_by; ev_resolution := resolution;
     ev_dedupe_key := ev_dedupe_key r; ev_created_at := ev_created_at r |}.

(** The tables. *)
Record Db := {
  nsec : gmap string NsecRow;
  scheduling : gmap Z SchedRow;
  billing_plan : gmap Z PlanRow;
  user_subscription : gmap string SubRow;
  flash_webhook_event : gmap Z EventRow;
}.

Definition with_nsec (d : Db) (m : gmap string NsecRow) : Db :=
  {| nsec := m; scheduling := scheduling d; billing_plan := billing_plan d;
     user_subscription := user_subscription d;
     flash_webhook_event := flash_webhook_event d |}.
Definition with_scheduling (d : Db) (m : gmap Z SchedRow) : Db :=
  {| nsec := nsec d; scheduling := m; billing_plan := billing_plan d;
     user_subscription := user_subscription d;
     flash_webhook_event := flash_webhook_event d |}.
Definition with_plans (d : Db) (m : gmap Z PlanRow) : Db :=
  {| nsec := nsec d; scheduling := scheduling d; billing_plan := m;
     user_subscription := user_subscription d;
     flash_webhook_event := flash_webhook_event d |}.
Definition with_subs (d : Db) (m : gmap string SubRow) : Db :=
  {| nsec := nsec d; scheduling := scheduling d; billing_plan := billing_plan d;
     user_subscription := m; flash_webhook_event := flash_webhook_event d |}.
Definition with_events (d : Db) (m : gmap Z EventRow) : Db :=
  {| nsec := nsec d; scheduling := scheduling d; billing_plan := billing_plan d;
     user_subscription := user_subscription d; flash_webhook_event := m |}.

(** ** What a column accepts *)

(** PostgreSQL text holds no NUL character. *)
Definition text_ok (s : string) : bool :=
  negb (existsb (Ascii.eqb zero) (list_ascii_of_string s)).
Definition opt_text_ok (s : option string) : bool :=
  match s with Some t => text_ok t | None => true end.

(** A 32-bit INTEGER column. *)
Definition int4_ok (z : Z) : bool := ((-2147483648 <=? z) && (z <=? 2147483647))%Z.
Definition opt_int4_ok (z : option Z) : bool :=
  match z with Some n => int4_ok n | None => true end.

(** Binding a decoded JSON value to a text parameter: only null and strings
    encode. *)
Definition bind_text (v : json) : option (option string) :=
  match v with
  | JNull => Some None
  | JStr s => Some (Some s)
  | _ => None
  end.
