(* ===== verification/Effects.v ===== *)
(** * The world the code runs in, and the computations it performs

    A handler is a function of the world that returns or raises: [M A].  The
    world holds the database as the session sees it ([working]) and as it is
    durable ([committed]), the in-process mock of Flash, the Redis cache and
    the set of policies already reported.  What the code cannot decide — the
    clock, Flash's answers, database failures, row locks held elsewhere, the
    order rows come back in without ORDER BY — is an oracle of [Env], read at
    the current [tick], which every effect advances; no law is assumed of any
    of them.

    Sources: [src/app/core/database.py] ([execute_db_statement], [get_db],
    [db_session]), [src/app/utils/datetimes.py] and the settings of
    [src/app/core/config.py] that billing reads. *)

From Stdlib Require Import Ascii String.
From S2P Require Import Prelude Json Time Types.
Local Open Scope string_scope.

(** ** Oracles *)

(** [httpx]'s failures: the five the code names, and any other. *)
Inductive HttpFailure :=
  | ConnectTimeout | ConnectError | PoolTimeout | ReadTimeout | ReadError | OtherFailure.

#[export] Instance http_failure_eq_dec : EqDecision HttpFailure.
Proof. solve_decision. Defined.

Record HttpRequest := {
  rq_method : string;
  rq_url : string;
  rq_params : list (string * string);
  rq_payload : option json;
}.

(** [Response status body]: [None] when [response.json()] raises ValueError.
    [Failure kind text repr]: the exception with its [str] and its [repr]. *)
Inductive HttpOutcome :=
  | Response (status : Z) (body : option json)
  | Failure (kind : HttpFailure) (text repr : string).

Record Settings := {
  flash_enabled : bool;
  flash_mock_enabled : bool;
  flash_base_url : string;
  flash_webhook_secret : string;
  flash_webhook_secret_previous : string;
  flash_webhook_tolerance_seconds : Z;
  flash_plans_cache_ttl_seconds : Z;
  flash_checkout_redirect_url : string;
  frontend_url : string;
  billing_abandon_pending_after_seconds : Z;
  billing_stale_sync_hours : Z;
  billing_replay_max_attempts : Z;
}.

(** How a COMMIT ends: a failure may strike before or after it lands. *)
Inductive CommitOutcome :=
  | CommitDone
  | CommitFailed (kind : db_error)
  | CommitLost (kind : db_error).

Class Env := {
  settings : Settings;
  clock : nat -> Z;
  db_clock : nat -> Z;
  http : nat -> HttpRequest -> HttpOutcome;
  db_fault : nat -> option db_error;
  commit_outcome : nat -> CommitOutcome;
  row_locked : nat -> string -> bool;
  scan_rank : nat -> positive -> Z;
  redis_fault : nat -> bool;
  (* Whether the ORM expires loaded objects at a rollback. *)
  orm_expires_on_rollback : bool;
  (* Whether the stored key of a user fails to decrypt ([decrypt_nsec]). *)
  nsec_unreadable : nat -> string -> bool;
  (* PostgreSQL's text of a JSON value that is not a string ([->>]). *)
  jsonb_text : json -> string;
  (* [str(e)] and [repr(e)] of an exception whose text libraries compose. *)
  exn_str : exn -> string;
  exn_repr : exn -> string;
  (* Bytes to values: [json.loads] ([None] on ValueError), [bytes.decode] with
     errors="replace", and the two digests, in hex. *)
  json_loads : string -> option json;
  decode_replace : string -> string;
  (* Whether [urlsplit] accepts a URL's host part. *)
  netloc_ok : string -> bool;
  sha256_hex : string -> string;
  hmac_sha256_hex : string -> string -> string;
}.

(** ** The world *)

Record World := {
  committed : Db;
  working : Db;
  aborted : bool;
  plan_seq : Z;
  event_seq : Z;
  scheduling_seq : Z;
  tick : nat;
  epoch : nat;
  sent : list HttpRequest;
  reported : list string;
  mock_subscriptions : list (string * FlashSubscription);
  mock_plans : list ((string * string) * list (string * json));
  redis : gmap string (option json * option Z);
}.

Definition with_db (w : World) (c k : Db) (a : bool) : World :=
  {| committed := c; working := k; aborted := a; plan_seq := plan_seq w;
     event_seq := event_seq w; scheduling_seq := scheduling_seq w; tick := S (tick w); epoch := epoch w;
     sent := sent w; reported := reported w;
     mock_subscriptions := mock_subscriptions w; mock_plans := mock_plans w;
     redis := redis w |}.

(** After a rollback: the tables as they were committed, and every object the
    session had loaded expired. *)
Definition rolled_back (w : World) : World :=
  {| committed := committed w; working := committed w; aborted := false;
     plan_seq := plan_seq w; event_seq := event_seq w;
     scheduling_seq := scheduling_seq w; tick := S (tick w); epoch := S (epoch w);
     sent := sent w; reported := reported w;
     mock_subscriptions := mock_subscriptions w; mock_plans := mock_plans w;
     redis := redis w |}.

Definition with_sent (w : World) (r : HttpRequest) : World :=
  {| committed := committed w; working := working w; aborted := aborted w;
     plan_seq := plan_seq w; event_seq := event_seq w;
     scheduling_seq := scheduling_seq w; tick := S (tick w); epoch := epoch w;
     sent := sent w ++ [r]; reported := reported w;
     mock_subscriptions := mock_subscriptions w; mock_plans := mock_plans w;
     redis := redis w |}.

Definition with_reported (w : World) (l : list string) : World :=
  {| committed := committed w; working := working w; aborted := aborted w;
     plan_seq := plan_seq w; event_seq := event_seq w;
     scheduling_seq := scheduling_seq w; tick := S (tick w); epoch := epoch w;
     sent := sent w; reported := l;
     mock_subscriptions := mock_subscriptions w; mock_plans := mock_plans w;
     redis := redis w |}.

Definition with_mock (w : World) (subs : list (string * FlashSubscription))
    (pl : list ((string * string) * list (string * json))) : World :=
  {| committed := committed w; working := working w; aborted := aborted w;
     plan_seq := plan_seq w; event_seq := event_seq w;
     scheduling_seq := scheduling_seq w; tick := S (tick w); epoch := epoch w;
     sent := sent w; reported := reported w;
     mock_subscriptions := subs; mock_plans := pl; redis := redis w |}.

Definition with_redis (w : World) (m : gmap string (option json * option Z)) : World :=
  {| committed := committed w; working := working w; aborted := aborted w;
     plan_seq := plan_seq w; event_seq := event_seq w;
     scheduling_seq := scheduling_seq w; tick := S (tick w); epoch := epoch w;
     sent := sent w; reported := reported w;
     mock_subscriptions := mock_subscriptions w; mock_plans := mock_plans w; redis := m |}.

Definition with_seqs (w : World) (p e s : Z) : World :=
  {| committed := committed w; working := working w; aborted := aborted w;
     plan_seq := p; event_seq := e; scheduling_seq := s; tick := S (tick w); epoch := epoch w;
     sent := sent w; reported := reported w;
     mock_subscriptions := mock_subscriptions w; mock_plans := mock_plans w;
     redis := redis w |}.

(** ** The monad *)

Definition M (A : Type) : Type := World -> res exn A * World.

#[export] Instance M_mret : MRet M := fun _ a w => (Ok a, w).
#[export] Instance M_mbind : MBind M := fun A B f m w =>
  match m w with
  | (Ok a, w') => f a w'
  | (Raise e, w') => (Raise e, w')
  end.

Definition raise {A} (e : exn) : M A := fun w => (Raise e, w).

(** [try: m  except ...: h]. *)
Definition try_ {A} (m : M A) (h : exn -> M A) : M A := fun w =>
  match m w with
  | (Ok a, w') => (Ok a, w')
  | (Raise e, w') => h e w'
  end.

(** The exception as a value, for handlers that inspect it and go on. *)
Definition attempt {A} (m : M A) : M (res exn A) := fun w =>
  let '(r, w') := m w in (Ok r, w').

Definition get_world : M World := fun w => (Ok w, w).

(** Run the pure result of a parser inside a handler. *)
Definition lift {A} (r : res exn A) : M A := fun w => (r, w).

(** [for x in l: body], left to right, stopping at the first raise. *)
Fixpoint for_each {A} (l : list A) (body : A -> M unit) : M unit :=
  match l with
  | [] => mret tt
  | x :: l' => _ ← body x; for_each l' body
  end.

(** [acc = 0; for x in l: acc = body(acc, x)], where [body] may [break]. *)
Fixpoint fold_each {A S} (l : list A) (s : S) (body : S -> A -> M (S * bool)) : M S :=
  match l with
  | [] => mret s
  | x :: l' =>
      '(s', stop) ← body s x;
      if stop : bool then mret s' else fold_each l' s' body
  end.

Section effects.
Context {E : Env}.

(** ** Clock *)

Definition utc_now : M Z := fun w =>
  (Ok (clock (tick w)), with_db w (committed w) (working w) (aborted w)).

(** The database's own [now()]. *)
Definition db_now : M Z := fun w =>
  (Ok (db_clock (tick w)), with_db w (committed w) (working w) (aborted w)).

(** ** Database session *)

(** A statement: what it returns and the tables it leaves, given the tick (for
    row order) and the tables it finds; [Raise] when the server rejects it. *)
Definition Stmt (A : Type) : Type := nat -> Db -> res db_error (A * Db).

(** [db.execute] / [db.flush]: a failed statement aborts the transaction, and
    every later one fails until it is rolled back. *)
Definition exec_raw {A} (stmt : Stmt A) : M A := fun w =>
  if aborted w then
    (Raise (DbError PendingRollback), with_db w (committed w) (working w) true)
  else match db_fault (tick w) with
  | Some k => (Raise (DbError k), with_db w (committed w) (working w) true)
  | None =>
      match stmt (tick w) (working w) with
      | Raise k => (Raise (DbError k), with_db w (committed w) (working w) true)
      | Ok (a, d) => (Ok a, with_db w (committed w) d false)
      end
  end.

(** [execute_db_statement]: every SQLAlchemyError becomes a 500. *)
Definition exec {A} (stmt : Stmt A) : M A :=
  try_ (exec_raw stmt) (fun e =>
    match e with DbError _ => raise (HTTPException 500) | _ => raise e end).

(** A parameter the driver cannot encode fails before the statement is sent:
    the transaction is not aborted. *)
Definition exec_unbound {A} : M A := fun w =>
  (Raise (HTTPException 500), with_db w (committed w) (working w) (aborted w)).

Definition commit : M unit := fun w =>
  if aborted w then
    (Raise (DbError PendingRollback), with_db w (committed w) (committed w) true)
  else match commit_outcome (tick w) with
  | CommitDone => (Ok tt, with_db w (working w) (working w) false)
  | CommitFailed k => (Raise (DbError k), with_db w (committed w) (committed w) true)
  | CommitLost k => (Raise (DbError k), with_db w (working w) (working w) true)
  end.

Definition rollback : M unit := fun w =>
  (Ok tt, rolled_back w).

(** Objects a session loaded, with the rollback count at that moment. *)
Definition loaded {A} (rows : list A) : M (list (nat * A)) := fun w =>
  (Ok ((fun r => (epoch w, r)) <$> rows), w).

(** Reading an attribute of a loaded object.  SQLAlchemy documents that a
    rollback expires every object of the session, whatever [expire_on_commit]
    says, and that reading an expired attribute outside an awaited call raises
    MissingGreenlet. *)
Definition attr {A B} (h : nat * A) (f : A -> B) : M B := fun w =>
  if orm_expires_on_rollback && negb (epoch w =? h.1)%nat
  then (Raise (OtherException "MissingGreenlet"), w)
  else (Ok (f h.2), w).

(** [get_db] and [db_session]: commit on success; on a database error or an
    HTTPException roll back and re-raise; closing the session discards what any
    other exception left behind.  For a request under [get_db] the answer is made
    when the body returns and this commit comes after it: what is true once a
    request is answered is to be said of the body. *)
Definition with_session {A} (m : M A) : M A :=
  try_ (a ← m; _ ← commit; mret a)
       (fun e => _ ← rollback; raise e).

(** ** Statements over the tables *)

Definition query {A} (f : nat -> Db -> A) : Stmt A := fun n d => Ok (f n d, d).
Definition modify {A} (f : Db -> A * Db) : Stmt A := fun _ d => Ok (f d).

(** A server-side rejection of a statement's values. *)
Definition checked {A} (ok : bool) (stmt : Stmt A) : Stmt A := fun n d =>
  if ok then stmt n d else Raise DataError.

(** Rows in the order the server happens to return them. *)
Definition scan {K V} `{Countable K} (n : nat) (m : gmap K V) : list V :=
  snd <$> stable_sort (fun a b => (scan_rank n (encode a.1) <=? scan_rank n (encode b.1))%Z)
            (map_to_list m).

Lemma scan_elem {K V} `{Countable K} n (m : gmap K V) v :
  v ∈ scan n m <-> exists k, m !! k = Some v.
Proof.
  unfold scan. rewrite list_elem_of_fmap. split.
  - intros ([k x] & -> & Hin). apply (proj1 (stable_sort_elem _ _ _)) in Hin.
    exists k. by apply elem_of_map_to_list.
  - intros [k Hk]. exists (k, v). split; [done|].
    apply (proj2 (stable_sort_elem _ _ _)). by apply elem_of_map_to_list.
Qed.

End effects.

(** ** Reasoning about computations *)

Definition wp {A} (m : M A) (Q : res exn A -> World -> Prop) (w : World) : Prop :=
  Q (m w).1 (m w).2.

Lemma wp_run {A} (m : M A) Q w r w' : wp m Q w -> m w = (r, w') -> Q r w'.
Proof. unfold wp. intros Hq Hm. by rewrite Hm in Hq. Qed.

Lemma wp_Ok {A} (m : M A) (P : A -> Prop) w a w' :
  m w = (Ok a, w') -> wp m (fun r _ => forall a, r = Ok a -> P a) w -> P a.
Proof. unfold wp. intros Hm Hq. rewrite Hm in Hq. by apply Hq. Qed.

Lemma wp_intro {A} (m : M A) (Q : res exn A -> World -> Prop) w :
  (forall r w', m w = (r, w') -> Q r w') -> wp m Q w.
Proof. unfold wp. destruct (m w). eauto. Qed.

Lemma wp_mono {A} (m : M A) (P Q : res exn A -> World -> Prop) w :
  wp m P w -> (forall r w', P r w' -> Q r w') -> wp m Q w.
Proof. unfold wp. eauto. Qed.

Lemma wp_ret {A} (a : A) (Q : res exn A -> World -> Prop) w : Q (Ok a) w -> wp (mret a) Q w.
Proof. done. Qed.

Lemma wp_raise {A} e (Q : res exn A -> World -> Prop) w : Q (Raise e) w -> wp (raise e) Q w.
Proof. done. Qed.

Lemma wp_lift {A} r (Q : res exn A -> World -> Prop) w : Q r w -> wp (lift r) Q w.
Proof. done. Qed.

Lemma wp_bind {A B} (m : M A) (f : A -> M B) Q w :
  wp m (fun r w' => match r with Ok a => wp (f a) Q w' | Raise e => Q (Raise e) w' end) w ->
  wp (m ≫= f) Q w.
Proof. unfold wp, mbind, M_mbind. by destruct (m w) as [[a|e] w']. Qed.

Lemma wp_try {A} (m : M A) h Q w :
  wp m (fun r w' => match r with Ok a => Q (Ok a) w' | Raise e => wp (h e) Q w' end) w ->
  wp (try_ m h) Q w.
Proof. unfold wp, try_. by destruct (m w) as [[a|e] w']. Qed.

Lemma wp_attempt {A} (m : M A) (Q : res exn (res exn A) -> World -> Prop) w :
  wp m (fun r w' => Q (Ok r) w') w -> wp (attempt m) Q w.
Proof. unfold wp, attempt. by destruct (m w). Qed.

(** Inversion of a bind: the first step returned and the rest ran, or it
    raised. *)
Lemma bind_inv {A B} (m : M A) (f : A -> M B) w r w' :
  (m ≫= f) w = (r, w') ->
  (exists a w1, m w = (Ok a, w1) /\ f a w1 = (r, w'))
  \/ (exists e, m w = (Raise e, w') /\ r = Raise e).
Proof.
  unfold mbind, M_mbind. destruct (m w) as [[a|e] w1]; [eauto|].
  intros [= <- <-]. eauto.
Qed.

Lemma bind_Ok_inv {A B} (m : M A) (f : A -> M B) w b w' :
  (m ≫= f) w = (Ok b, w') -> exists a w1, m w = (Ok a, w1) /\ f a w1 = (Ok b, w').
Proof. intros [?|(e & _ & [=])]%bind_inv. done. Qed.

Lemma try_Ok_inv {A} (m : M A) h w a w' :
  try_ m h w = (Ok a, w') ->
  m w = (Ok a, w') \/ exists e w1, m w = (Raise e, w1) /\ h e w1 = (Ok a, w').
Proof. unfold try_. destruct (m w) as [[b|e] w1]; eauto. Qed.

Section sessions.
Context {E : Env}.

(** One step of the session: a statement that fails leaves the tables as they
    were; one that succeeds moves [working] only. *)
Lemma wp_exec_raw {A} (stmt : Stmt A) Q w :
  (forall k, Q (Raise (DbError k)) (with_db w (committed w) (working w) true)) ->
  (forall a d, aborted w = false -> stmt (tick w) (working w) = Ok (a, d) ->
     Q (Ok a) (with_db w (committed w) d false)) ->
  wp (exec_raw stmt) Q w.
Proof.
  intros Hf Hs. unfold wp, exec_raw. destruct (aborted w) eqn:Ha; [apply Hf|].
  destruct (db_fault (tick w)) as [k|]; [apply Hf|].
  destruct (stmt (tick w) (working w)) as [[a d]|k] eqn:Hst; [by apply Hs|apply Hf].
Qed.

Lemma wp_exec {A} (stmt : Stmt A) Q w :
  Q (Raise (HTTPException 500)) (with_db w (committed w) (working w) true) ->
  (forall a d, aborted w = false -> stmt (tick w) (working w) = Ok (a, d) ->
     Q (Ok a) (with_db w (committed w) d false)) ->
  wp (exec stmt) Q w.
Proof. intros Hf Hs. apply wp_try, wp_exec_raw; [intros k; apply wp_raise, Hf|done]. Qed.

Lemma wp_commit Q w :
  (forall k, Q (Raise (DbError k)) (with_db w (committed w) (committed w) true)) ->
  (forall k, Q (Raise (DbError k)) (with_db w (working w) (working w) true)) ->
  (aborted w = false -> Q (Ok tt) (with_db w (working w) (working w) false)) ->
  wp commit Q w.
Proof.
  intros Hf Hl Hd. unfold wp, commit. destruct (aborted w) eqn:Ha; [apply Hf|].
  destruct (commit_outcome (tick w)); [by apply Hd|apply Hf|apply Hl].
Qed.

(** A fault-free environment at a tick: the statement runs as written. *)
Lemma exec_raw_run {A} (stmt : Stmt A) w a d :
  aborted w = false -> db_fault (tick w) = None ->
  stmt (tick w) (working w) = Ok (a, d) ->
  exec_raw stmt w = (Ok a, with_db w (committed w) d false).
Proof. unfold exec_raw. by intros -> -> ->. Qed.

Lemma exec_run {A} (stmt : Stmt A) w a d :
  aborted w = false -> db_fault (tick w) = None ->
  stmt (tick w) (working w) = Ok (a, d) ->
  exec stmt w = (Ok a, with_db w (committed w) d false).
Proof. intros. unfold exec, try_. by erewrite exec_raw_run. Qed.

End sessions.

(** ** Relations every step of a computation respects *)

Section stable.
Context (R : World -> World -> Prop) `{!PreOrder R}.

Definition stable {A} (m : M A) : Prop := forall w, R w (m w).2.

Lemma stable_run {A} (m : M A) w r w' : stable m -> m w = (r, w') -> R w w'.
Proof using. intros Hm Hw. specialize (Hm w). by rewrite Hw in Hm. Qed.

Lemma stable_ret {A} (a : A) : stable (mret a).
Proof. intros w. simpl. reflexivity. Qed.

Lemma stable_raise {A} e : stable (raise (A := A) e).
Proof. intros w. simpl. reflexivity. Qed.

Lemma stable_lift {A} (r : res exn A) : stable (lift r).
Proof. intros w. simpl. reflexivity. Qed.

Lemma stable_get : stable get_world.
Proof. intros w. simpl. reflexivity. Qed.

Lemma stable_bind {A B} (m : M A) (f : A -> M B) :
  stable m -> (forall a, stable (f a)) -> stable (m ≫= f).
Proof.
  intros Hm Hf w. unfold mbind, M_mbind. specialize (Hm w).
  destruct (m w) as [[a|e] w1]; simpl in *; [|done].
  etrans; [exact Hm|apply Hf].
Qed.

Lemma stable_try {A} (m : M A) h :
  stable m -> (forall e, stable (h e)) -> stable (try_ m h).
Proof.
  intros Hm Hf w. unfold try_. specialize (Hm w).
  destruct (m w) as [[a|e] w1]; simpl in *; [done|].
  etrans; [exact Hm|apply Hf].
Qed.

Lemma stable_attempt {A} (m : M A) : stable m -> stable (attempt m).
Proof using.
  intros Hm w. unfold attempt. specialize (Hm w). by destruct (m w).
Qed.

Lemma stable_for_each {A} (l : list A) body :
  (forall x, stable (body x)) -> stable (for_each l body).
Proof.
  intros Hb. induction l as [|x l IH]; simpl; [apply stable_ret|].
  by apply stable_bind.
Qed.

Lemma stable_fold_each {A S} (l : list A) (s : S) body :
  (forall s x, stable (body s x)) -> stable (fold_each l s body).
Proof.
  intros Hb. revert s. induction l as [|x l IH]; intros s; simpl; [apply stable_ret|].
  apply stable_bind; [apply Hb|]. intros [s' []]; [apply stable_ret|apply IH].
Qed.
End stable.

Create HintDb stable.
#[export] Hint Resolve stable_ret stable_raise stable_lift stable_get stable_attempt
  stable_for_each stable_fold_each : stable.

(** Walks a computation, splitting on every match, down to the steps the
    [stable] database knows. *)
Ltac stable_step :=
  lazymatch goal with
  | |- stable _ (mbind _ _) => apply stable_bind; [typeclasses eauto| |intro]
  | |- stable _ (try_ _ _) => apply stable_try; [typeclasses eauto| |intro]
  | |- stable _ (let '(_, _) := ?x in _) => destruct x
  | |- stable _ (if ?b then _ else _) => destruct b
  | |- stable _ (match ?x with _ => _ end) => destruct x
  end.
Ltac solve_stable := repeat stable_step; eauto with stable typeclass_instances.

(** Nothing durable and nothing in the session changes. *)
Definition same_db (w w' : World) : Prop :=
  committed w' = committed w /\ working w' = working w.

(** Nothing durable changes. *)
Definition same_committed (w w' : World) : Prop := committed w' = committed w.

(** An invariant of the tables survives, committed and in session. *)
Definition keeps (P : Db -> Prop) (w w' : World) : Prop :=
  P (committed w) /\ P (working w) -> P (committed w') /\ P (working w').

(** The oracle counter only grows. *)
Definition ticks (w w' : World) : Prop := (tick w <= tick w')%nat.
#[export] Instance ticks_preorder : PreOrder ticks.
Proof. split; unfold ticks; [by intros ?|intros ???; lia]. Qed.

#[export] Instance same_db_preorder : PreOrder same_db.
Proof. split; [done|]. intros ??? [??] [??]. split; congruence. Qed.
#[export] Instance same_committed_preorder : PreOrder same_committed.
Proof. split; [done|]. intros ???. unfold same_committed. congruence. Qed.
#[export] Instance keeps_preorder P : PreOrder (keeps P).
Proof. split; unfold keeps; [by intros ?|]. intros ??? H1 H2 H3. auto. Qed.

Abbreviation reads := (stable same_db).

Section session_stable.
Context {E : Env}.

Lemma reads_utc_now : reads utc_now.
Proof. done. Qed.

Lemma reads_db_now : reads db_now.
Proof. done. Qed.

Lemma reads_exec_raw_query {A} (f : nat -> Db -> A) : reads (exec_raw (query f)).
Proof.
  intros w. apply (wp_exec_raw _ (fun _ => same_db w)); [done|].
  unfold query. by intros a d _ [= <- <-].
Qed.

Lemma reads_exec_query {A} (f : nat -> Db -> A) : reads (exec (query f)).
Proof.
  apply stable_try; [typeclasses eauto|apply reads_exec_raw_query|].
  intros []; apply stable_raise; typeclasses eauto.
Qed.

Lemma reads_exec_checked_query {A} b (f : nat -> Db -> A) :
  reads (exec (checked b (query f))).
Proof.
  intros w. apply (wp_exec _ (fun _ => same_db w)); [done|].
  unfold checked, query. destruct b; [|done]. by intros a d _ [= <- <-].
Qed.

Lemma reads_exec_unbound {A} : reads (exec_unbound (A := A)).
Proof. done. Qed.

Lemma wp_query {A} (f : nat -> Db -> A) Q w :
  (forall w', same_db w w' -> Q (Raise (HTTPException 500)) w') ->
  (forall n w', same_db w w' -> Q (Ok (f n (working w))) w') ->
  wp (exec (query f)) Q w.
Proof.
  intros Hf Hs. apply wp_exec; [by apply Hf|]. unfold query.
  intros a d _ [= <- <-]. by apply Hs.
Qed.

(** A computation that only reads either raises or returns, on the same tables. *)
Lemma wp_reads {A} (m : M A) Q w :
  reads m ->
  (forall e w', same_db w w' -> Q (Raise e) w') ->
  (forall a w', same_db w w' -> m w = (Ok a, w') -> Q (Ok a) w') ->
  wp m Q w.
Proof.
  intros Hm Hf Hs. apply wp_intro. intros [a|e] w' Hw;
    pose proof (stable_run _ _ _ _ _ Hm Hw); eauto.
Qed.

(** Any statement leaves the committed tables alone. *)
Lemma exec_raw_same_committed {A} (stmt : Stmt A) : stable same_committed (exec_raw stmt).
Proof. intros w. apply (wp_exec_raw _ (fun _ => same_committed w)); by intros. Qed.

Lemma exec_same_committed {A} (stmt : Stmt A) : stable same_committed (exec stmt).
Proof. intros w. apply (wp_exec _ (fun _ => same_committed w)); by intros. Qed.

Lemma ticks_utc_now : stable ticks utc_now.
Proof. intros w. unfold ticks. simpl. lia. Qed.
Lemma ticks_db_now : stable ticks db_now.
Proof. intros w. unfold ticks. simpl. lia. Qed.
Lemma ticks_exec_raw {A} (stmt : Stmt A) : stable ticks (exec_raw stmt).
Proof.
  intros w. apply (wp_exec_raw _ (fun _ => ticks w)); unfold ticks; intros; simpl; lia.
Qed.
Lemma ticks_exec {A} (stmt : Stmt A) : stable ticks (exec stmt).
Proof.
  intros w. apply (wp_exec _ (fun _ => ticks w)); unfold ticks; intros; simpl; lia.
Qed.
Lemma ticks_exec_unbound {A} : stable ticks (exec_unbound (A := A)).
Proof. intros w. unfold ticks. simpl. lia. Qed.
Lemma ticks_commit : stable ticks commit.
Proof.
  intros w. apply (wp_commit (fun _ => ticks w)); unfold ticks; intros; simpl; lia.
Qed.

Lemma ticks_rollback : stable ticks rollback.
Proof. intros w. unfold ticks. simpl. lia. Qed.

Lemma reads_loaded {A} (rows : list A) : reads (loaded rows).
Proof. done. Qed.
Lemma reads_attr {A B} (h : nat * A) (f : A -> B) : reads (attr h f).
Proof. intros w. unfold attr. by destruct (_ && _). Qed.

Lemma rollback_same_committed : stable same_committed rollback.
Proof. done. Qed.

Lemma keeps_commit P : stable (keeps P) commit.
Proof. intros w. apply (wp_commit (fun _ => keeps P w)); unfold keeps; simpl; tauto. Qed.

Lemma keeps_rollback P : stable (keeps P) rollback.
Proof. intros w. unfold keeps; simpl; tauto. Qed.

(** A statement keeps an invariant when its effect on the tables does. *)
Lemma keeps_exec_raw {A} P (stmt : Stmt A) :
  (forall n d a d', P d -> stmt n d = Ok (a, d') -> P d') ->
  stable (keeps P) (exec_raw stmt).
Proof.
  intros Hs w. apply (wp_exec_raw _ (fun _ => keeps P w)); unfold keeps; simpl; [tauto|].
  intros a d _ Hst [Hc Hw]. eauto.
Qed.

Lemma keeps_exec {A} P (stmt : Stmt A) :
  (forall n d a d', P d -> stmt n d = Ok (a, d') -> P d') ->
  stable (keeps P) (exec stmt).
Proof.
  intros Hs. apply stable_try; [typeclasses eauto|by apply keeps_exec_raw|].
  intros []; apply stable_raise; typeclasses eauto.
Qed.

End session_stable.

(** What only reads respects every relation on the tables. *)
Lemma reads_same_committed {A} (m : M A) : reads m -> stable same_committed m.
Proof. intros Hm w. apply Hm. Qed.

Lemma reads_keeps {A} P (m : M A) : reads m -> stable (keeps P) m.
Proof. intros Hm w. destruct (Hm w) as [Hc Hw]. unfold keeps. by rewrite Hc, Hw. Qed.

#[export] Hint Resolve reads_utc_now reads_db_now reads_exec_raw_query reads_exec_query
  reads_exec_checked_query reads_exec_unbound exec_raw_same_committed
  exec_same_committed ticks_utc_now ticks_db_now ticks_exec_raw ticks_exec
  ticks_exec_unbound ticks_commit ticks_rollback reads_loaded reads_attr
  rollback_same_committed keeps_commit keeps_rollback : stable.
#[export] Hint Resolve reads_same_committed reads_keeps | 10 : stable.

(** ** Sessions *)

(** Nothing pending, and the tables satisfy [P]: the state between handlers. *)
Definition at_rest (P : Db -> Prop) (w : World) : Prop :=
  P (committed w) /\ working w = committed w.

(** A handler body started at rest: what it commits on the way satisfies [P],
    and so does what it leaves pending when it returns. *)
Definition body_ok {A} (P : Db -> Prop) (r : res exn A) (w : World) : Prop :=
  P (committed w) /\ (is_ok r = true -> P (working w)).

Lemma with_session_at_rest {E : Env} {A} P (m : M A) w :
  wp m (body_ok P) w -> at_rest P (with_session m w).2.
Proof.
  intros Hm. change (wp (with_session m) (fun _ => at_rest P) w). unfold with_session.
  apply wp_try, wp_bind. eapply wp_mono; [exact Hm|]. intros [a|e] w1 [Hc Hw].
  - specialize (Hw eq_refl).
    apply wp_bind, wp_commit; [by intros k; split..|]. intros _. by split.
  - by split.
Qed.

Lemma wp_reads_body {E : Env} {A B} P (m : M A) (f : A -> M B) w :
  reads m -> P (committed w) ->
  (forall a w', same_db w w' -> m w = (Ok a, w') -> wp (f a) (body_ok P) w') ->
  wp (m ≫= f) (body_ok P) w.
Proof.
  intros Hm Hp Hf. apply wp_bind, wp_reads; [done| |done].
  intros e w' [Hc _]. split; [by rewrite Hc|done].
Qed.

Lemma body_ok_raise {A} P e w : P (committed w) -> wp (raise (A := A) e) (body_ok P) w.
Proof. by split. Qed.

(** ** Invariants of handlers

    [safe P m]: started with [P] on the durable tables and on the pending ones,
    [m] never commits tables without [P], and leaves [P] pending too when it
    returns or could not get an answer from Flash.  After any other exception
    only the durable tables are known, until a rollback. *)

(** The two ways of not having an answer from Flash. *)
Definition flash_exn (e : exn) : bool :=
  match e with FlashUnavailable _ | FlashCredentialError => true | _ => false end.

Definition safe_post (P : Db -> Prop) {A} (r : res exn A) (w : World) : Prop :=
  P (committed w)
  /\ match r with Ok _ => P (working w) | Raise e => flash_exn e = true -> P (working w) end.

Definition safe (P : Db -> Prop) {A} (m : M A) : Prop :=
  forall w, P (committed w) -> P (working w) -> wp m (safe_post P) w.

(** The same, from durable tables alone. *)
Definition safe_after (P : Db -> Prop) {A} (m : M A) : Prop :=
  forall w, P (committed w) -> wp m (safe_post P) w.

Section safe.
Context {E : Env} (P : Db -> Prop).

Lemma safe_keeps {A} (m : M A) : stable (keeps P) m -> safe P m.
Proof.
  intros Hm w Hc Hw. destruct (Hm w (conj Hc Hw)) as [Hc' Hw'].
  unfold wp, safe_post. split; [done|]. by destruct ((m w).1).
Qed.

Lemma safe_reads {A} (m : M A) : reads m -> safe P m.
Proof. intros Hm. apply safe_keeps. by apply reads_keeps. Qed.

Lemma safe_ret {A} (a : A) : safe P (mret a).
Proof. intros w Hc Hw. split; simpl; auto. Qed.

Lemma safe_raise {A} e : safe P (raise (A := A) e).
Proof. intros w Hc Hw. split; simpl; auto. Qed.

Lemma safe_after_raise {A} e : flash_exn e = false -> safe_after P (raise (A := A) e).
Proof. intros He w Hc. split; simpl; [done|]. by rewrite He. Qed.

Lemma safe_bind {A B} (m : M A) (f : A -> M B) :
  safe P m -> (forall a, safe P (f a)) -> safe P (m ≫= f).
Proof.
  intros Hm Hf w Hc Hw. apply wp_bind. eapply wp_mono; [by apply Hm|].
  intros [a|e] w' [Hc' Hw']; [by apply Hf|by split].
Qed.

Lemma safe_try {A} (m : M A) h :
  safe P m ->
  (forall e, if flash_exn e then safe P (h e) else safe_after P (h e)) ->
  safe P (try_ m h).
Proof.
  intros Hm Hh w Hc Hw. apply wp_try. eapply wp_mono; [by apply Hm|].
  intros [a|e] w' [Hc' Hw']; [by split|]. specialize (Hh e).
  destruct (flash_exn e); [apply Hh; auto|by apply Hh].
Qed.

Lemma safe_after_safe {A} (m : M A) : safe_after P m -> safe P m.
Proof. intros Hm w Hc _. by apply Hm. Qed.

Lemma safe_after_rollback {B} (f : unit -> M B) :
  safe P (f tt) -> safe_after P (rollback ≫= f).
Proof. intros Hf w Hc. apply wp_bind. unfold wp at 1. simpl. by apply Hf. Qed.

Lemma safe_fold_each {A S} (l : list A) (s : S) body :
  (forall s x, safe P (body s x)) -> safe P (fold_each l s body).
Proof.
  intros Hb. revert s. induction l as [|x l IH]; intros s; simpl; [apply safe_ret|].
  apply safe_bind; [apply Hb|]. intros [s' []]; [apply safe_ret|apply IH].
Qed.

Lemma safe_with_session {A} (m : M A) w :
  safe P m -> at_rest P w -> at_rest P (with_session m w).2.
Proof.
  intros Hm [Hc Hw]. apply with_session_at_rest.
  eapply wp_mono; [apply Hm; [done|by rewrite Hw]|].
  intros [a|e] w' [Hc' Hw']; by split.
Qed.

End safe.
