(* ===== verification/Scenario.v ===== *)
(** * A concrete instance: one small deployment and the environments it runs in

    Witnesses of the theorems evaluate the model here.  [alice] has signed up
    and not been granted yet, [bob] is a paying subscriber, [carol] was comped
    by an administrator; plan [svc]/[gold] grants policy 7 and policy 1 is the
    default. *)

From Stdlib Require Import Ascii String.
From S2P Require Import Prelude Json Time Types Effects.
Local Open Scope string_scope.

Module Scenario.

Definition demo_settings (mock : bool) : Settings := {|
  flash_enabled := true; flash_mock_enabled := mock;
  flash_base_url := "https://flash.test/";
  flash_webhook_secret := "whsec"; flash_webhook_secret_previous := "";
  flash_webhook_tolerance_seconds := 300; flash_plans_cache_ttl_seconds := 300;
  flash_checkout_redirect_url := ""; frontend_url := "https://app.test";
  billing_abandon_pending_after_seconds := 18000; billing_stale_sync_hours := 24;
  billing_replay_max_attempts := 5 |}.

(** 2026-08-25T12:00:00, in microseconds. *)
Definition demo_now : Z := 63923342400000000.

(** UTF-8 decoding of the characters the model's text is made of. *)
Fixpoint utf8_decode (l : list ascii) : list ascii :=
  match l with
  | a :: ((b :: l2) as l') =>
      if (chr_code a <? 128)%Z then a :: utf8_decode l'
      else ascii_of_N (Z.to_N ((chr_code a - 192) * 64 + (chr_code b - 128))) :: utf8_decode l2
  | _ => l
  end.

(** Two lower-case hex digits per character, standing in for a digest. *)
Definition hex_text (s : string) : string :=
  of_chars (mjoin ((fun c => [hex_chr (chr_code c / 16); hex_chr (chr_code c mod 16)]) <$> chars s)).

(** An environment without database faults, in which Flash answers [h n] at
    tick [n]. *)
Definition env_over (h : nat -> HttpRequest -> HttpOutcome) (mock expires : bool)
    (loads : string -> option json) : Env := {|
  settings := demo_settings mock;
  clock := fun _ => demo_now;
  db_clock := fun _ => demo_now;
  http := h;
  db_fault := fun _ => None;
  commit_outcome := fun _ => CommitDone;
  row_locked := fun _ _ => false;
  scan_rank := fun _ _ => 0%Z;
  redis_fault := fun _ => false;
  orm_expires_on_rollback := expires;
  nsec_unreadable := fun _ _ => false;
  jsonb_text := fun _ => "";
  exn_str := fun _ => "error";
  exn_repr := fun _ => "error()";
  json_loads := loads;
  decode_replace := fun s => of_chars (utf8_decode (chars s));
  netloc_ok := fun _ => true;
  sha256_hex := fun s => s;
  hmac_sha256_hex := fun k m => hex_text (k ++ "/" ++ m) |}.

(** One in which it always answers [h]. *)
Definition env_with (h : HttpRequest -> HttpOutcome) : bool -> bool -> (string -> option json) -> Env :=
  env_over (fun _ => h).

(** Flash's row for one subscription. *)
Definition flash_row (id ref status period_end : string) : json :=
  JObj [("id", JStr id); ("ref", JStr ref); ("status", JStr status);
        ("serviceId", JStr "svc"); ("planId", JStr "gold");
        ("currentPeriodEnd", JStr period_end)].

(** Flash holds one subscription for [ref], by reference and by id. *)
Definition flash_holds (ref status : string) (rq : HttpRequest) : HttpOutcome :=
  let row := flash_row "sub-1" ref status "2026-09-20" in
  if String.eqb (rq_url rq) "https://flash.test/api/v1/external/subscriptions" then
    Response 200 (Some (JObj [("subscriptions",
      JList (if bool_decide (rq_params rq = [("ref", ref)]) then [row] else []))]))
  else if String.eqb (rq_url rq) "https://flash.test/api/v1/external/subscriptions/sub-1" then
    Response 200 (Some (JObj [("subscription", row)]))
  else Response 404 None.

(** Flash cannot be reached. *)
Definition flash_down (_ : HttpRequest) : HttpOutcome :=
  Failure ConnectTimeout "timed out" "ConnectTimeout('timed out')".

Definition policy (id : Z) (name : string) (is_default : bool) : SchedRow := {|
  sc_id := id; sc_name := name; sc_interval_seconds := 86400; sc_priority := 0;
  sc_enabled := true; sc_manual_quota_limit := 20;
  sc_manual_quota_window_seconds := 604800; sc_is_default := is_default;
  sc_is_public := true; sc_support_included := false |}.

Definition user (sid : option Z) (source : string) : NsecRow := {|
  ns_scheduling_id := sid; ns_scheduling_source := source; ns_billing_blocked := false |}.

Definition subscription_of (pubkey flash_id status : string) (granted : option Z)
    (synced : option Z) : SubRow := {|
  us_pubkey := pubkey; us_flash_id := flash_id; us_plan := 3; us_granted := granted;
  us_status := status; us_cancel := None;
  us_read := {| sr_subscriber_id := None; sr_period_start := None;
    sr_period_end := Some demo_now; sr_next_billing := None; sr_trial_end := None;
    sr_portal_url := None; sr_amount_minor := None; sr_currency := None;
    sr_interval := None |};
  us_last_event_at := None; us_last_synced_at := synced; us_last_sync_error := None;
  us_sync_error_since := None; us_created_at := demo_now |}.

Definition demo_db : Db := {|
  nsec := <["alice" := user None "default"]> (<["bob" := user (Some 7%Z) "billing"]>
            (<["carol" := user (Some 7%Z) "admin"]> ∅));
  scheduling := <[1%Z := policy 1 "Free" true]> (<[7%Z := policy 7 "Gold" false]> ∅);
  billing_plan := <[3%Z := {| bp_id := 3; bp_service_id := "svc"; bp_plan_id := "gold";
                             bp_scheduling_id := 7; bp_is_active := true |}]> ∅;
  user_subscription :=
    <["bob" := subscription_of "bob" "sub-1" "canceled" (Some 7%Z) (Some 0%Z)]> ∅;
  flash_webhook_event := ∅ |}.

Definition world_of (d : Db) : World := {|
  committed := d; working := d; aborted := false; plan_seq := 4; event_seq := 1;
  scheduling_seq := 8; tick := 0; epoch := 0; sent := []; reported := [];
  mock_subscriptions := []; mock_plans := []; redis := ∅ |}.

Definition demo : World := world_of demo_db.

(** Flash reports [ref] with [status]. *)
Definition answering (ref status : string) : Env :=
  env_with (flash_holds ref status) false true (fun _ => None).

(** Flash is down; whether a rollback expires loaded objects is open. *)
Definition unreachable (expires : bool) : Env :=
  env_with flash_down false expires (fun _ => None).

(** A run by its result and the world it leaves. *)
Lemma run_returns {A} (p : res exn A * World) a : p.1 = Ok a -> p = (Ok a, p.2).
Proof. by destruct p as [r w]; simpl; intros ->. Qed.

(** *** A webhook: [alice]'s activation, signed with the current secret *)

Definition activation (subscription_id : json) : json :=
  JObj [("event", JStr "subscription.activated");
        ("timestamp", JStr "2026-08-25T11:59:58Z");
        ("data", JObj [("externalRef", JStr "alice"); ("subscriptionId", subscription_id);
                       ("activatedAt", JStr "2026-08-25T11:59:58Z")])].

Definition demo_unix : Z := (demo_now / 1000000 - 62135596800)%Z.

Definition demo_header (raw : string) : option string :=
  Some ("t=" ++ pretty demo_unix ++ ",v1="
        ++ hex_text ("whsec/" ++ pretty demo_unix ++ "." ++ raw)).

(** Flash reports [alice] active, and every body decodes to the activation. *)
Definition hooked : Env :=
  env_with (flash_holds "alice" "active") false true (fun _ => Some (activation (JStr "sub-1"))).

End Scenario.
