(* ===== verification/Repos.v ===== *)
(** * Data access

    The queries and statements of [src/app/repos/brainstorm_nsec.py],
    [scheduling_repo.py], [billing_plan_repo.py], [user_subscription_repo.py]
    and [flash_webhook_event_repo.py] that the billing code runs, over the
    tables of [Types].  WHERE clauses that compare nullable columns are
    evaluated in SQL's three-valued logic; foreign keys, primary keys and the
    unique constraints reject what PostgreSQL rejects. *)

From Stdlib Require Import Ascii String.
From S2P Require Import Prelude Json Time Types Effects.
Local Open Scope string_scope.

Section repos.
Context {E : Env}.

(** [result.scalar_one_or_none()] on rows that need not be unique. *)
Definition scalar_one_or_none {A} (rows : list A) : M (option A) :=
  match rows with
  | [] => mret None
  | [r] => mret (Some r)
  | _ => raise (OtherException "MultipleResultsFound")
  end.

(** ** brainstorm_nsec *)

Definition brainstorm_nsec_exists_by_pubkey_on_db (pubkey : string) : M bool :=
  exec (checked (text_ok pubkey)
    (query (fun _ d => bool_decide (is_Some (nsec d !! pubkey))))).

Definition is_billing_blocked_on_db (pubkey : string) : M bool :=
  exec (query (fun _ d =>
    match nsec d !! pubkey with Some r => ns_billing_blocked r | None => false end)).

Definition get_assigned_scheduling_id_on_db (pubkey : string) : M (option Z) :=
  exec (query (fun _ d => r ← nsec d !! pubkey; ns_scheduling_id r)).

(** [... or SchedulingSource.DEFAULT.value]: an empty source reads as default. *)
Definition source_of (d : Db) (pubkey : string) : string :=
  match nsec d !! pubkey with
  | Some r => if String.eqb (ns_scheduling_source r) "" then SOURCE_DEFAULT
              else ns_scheduling_source r
  | None => SOURCE_DEFAULT
  end.

Definition get_scheduling_source_on_db (pubkey : string) : M string :=
  exec (query (fun _ d => source_of d pubkey)).

Definition blocked_db (pubkey : string) (blocked : bool) (d : Db) : Db :=
  with_nsec d (alter (fun r =>
    {| ns_scheduling_id := ns_scheduling_id r;
       ns_scheduling_source := ns_scheduling_source r;
       ns_billing_blocked := blocked |}) pubkey (nsec d)).

Definition set_billing_blocked_on_db (pubkey : string) (blocked : bool) : M bool :=
  exec_raw (modify (fun d =>
    (bool_decide (is_Some (nsec d !! pubkey)), blocked_db pubkey blocked d))).

(** Reads the row, decrypting its key, or inserts a new user on the default
    policy; [true] when it created one. *)
Definition get_or_create_brainstorm_observer_nsec_by_pubkey_on_db (pubkey : string)
  : M bool :=
  found ← exec (query (fun _ d => bool_decide (is_Some (nsec d !! pubkey))));
  if found : bool then
    w ← get_world;
    if nsec_unreadable (tick w) pubkey then raise (OtherException "decrypt_nsec")
    else mret false
  else
    _ ← exec_raw (checked (text_ok pubkey) (fun _ d =>
          match nsec d !! pubkey with
          | Some _ => Raise IntegrityError
          | None => Ok (tt, with_nsec d (<[pubkey :=
              {| ns_scheduling_id := None; ns_scheduling_source := SOURCE_DEFAULT;
                 ns_billing_blocked := false |}]> (nsec d)))
          end));
    mret true.

Definition assign_row (sid : option Z) (source : string) (r : NsecRow) : NsecRow :=
  {| ns_scheduling_id := sid; ns_scheduling_source := source;
     ns_billing_blocked := ns_billing_blocked r |}.

Definition assign_db (pubkey : string) (sid : option Z) (source : string) (d : Db) : Db :=
  with_nsec d (alter (assign_row sid source) pubkey (nsec d)).

(** The foreign key on [scheduling.id]. *)
Definition scheduling_fk (sid : option Z) (d : Db) : bool :=
  match sid with Some i => bool_decide (is_Some (scheduling d !! i)) | None => true end.

Definition set_scheduling_for_pubkey_on_db (pubkey : string) (sid : option Z)
    (source : string) : M unit :=
  _ ← get_or_create_brainstorm_observer_nsec_by_pubkey_on_db pubkey;
  exec_raw (fun _ d =>
    if scheduling_fk sid d then Ok (tt, assign_db pubkey sid source d)
    else Raise IntegrityError).

(** One statement over every listed pubkey; the count of rows it touched. *)
Definition bulk_set_scheduling_for_pubkeys_on_db (pubkeys : list string) (sid : Z)
    (source : string) : M nat :=
  match pubkeys with
  | [] => mret 0
  | _ =>
      exec_raw (fun _ d =>
        let hit := filter (fun p => is_Some (nsec d !! p)) (remove_dups pubkeys) in
        if negb (scheduling_fk (Some sid) d) && negb (bool_decide (hit = []))
        then Raise IntegrityError
        else Ok (length hit, foldr (fun p => assign_db p (Some sid) source) d hit))
  end.

(** ** scheduling *)

Definition get_scheduling_on_db (scheduling_id : Z) : M (option SchedRow) :=
  exec (query (fun _ d => scheduling d !! scheduling_id)).

Definition get_default_scheduling_on_db : M (option SchedRow) :=
  exec (query (fun n d => head (filter (fun s => sc_is_default s) (scan n (scheduling d))))).

Definition scheduling_exists_on_db (scheduling_id : Z) : M bool :=
  exec (query (fun _ d => bool_decide (is_Some (scheduling d !! scheduling_id)))).

(** ORDER BY is_default DESC, id ASC. *)
Definition public_order (a b : SchedRow) : bool :=
  if Bool.eqb (sc_is_default a) (sc_is_default b) then (sc_id a <=? sc_id b)%Z
  else sc_is_default a.

Definition select_public_scheduling_on_db : M (list SchedRow) :=
  exec (query (fun n d =>
    stable_sort public_order (filter (fun s => sc_is_public s) (scan n (scheduling d))))).

(** The policy in effect: the explicit assignment, else the default. *)
Definition get_scheduling_for_pubkey_on_db (pubkey : string) : M (option SchedRow) :=
  sid ← get_assigned_scheduling_id_on_db pubkey;
  match sid with
  | Some i =>
      row ← get_scheduling_on_db i;
      match row with
      | Some r => mret (Some r)
      | None => get_default_scheduling_on_db
      end
  | None => get_default_scheduling_on_db
  end.

(** ** billing_plan *)

Definition plan_named (service plan : string) (r : PlanRow) : bool :=
  String.eqb (bp_service_id r) service && String.eqb (bp_plan_id r) plan.

Definition get_billing_plan_on_db (flash_service_id flash_plan_id : string)
  : M (option PlanRow) :=
  rows ← exec (checked (text_ok flash_service_id && text_ok flash_plan_id)
    (query (fun n d =>
       filter (fun r => plan_named flash_service_id flash_plan_id r)
         (scan n (billing_plan d)))));
  scalar_one_or_none rows.

Definition select_billing_plans_on_db (only_active : bool) : M (list PlanRow) :=
  exec (query (fun n d =>
    stable_sort (fun a b => (bp_id a <=? bp_id b)%Z)
      (filter (fun r => negb only_active || bp_is_active r) (scan n (billing_plan d))))).

Definition get_billing_plan_by_id_on_db (plan_id : Z) : M (option PlanRow) :=
  exec (query (fun _ d => billing_plan d !! plan_id)).

(** The unique constraint on (service, plan), apart from row [except]. *)
Definition flash_ids_free (except : Z) (service plan : string) (d : Db) : bool :=
  forallb (fun '(i, r) => (i =? except)%Z || negb (plan_named service plan r))
    (map_to_list (billing_plan d)).

Definition put_plan (r : PlanRow) : Stmt PlanRow := fun _ d =>
  if flash_ids_free (bp_id r) (bp_service_id r) (bp_plan_id r) d
     && scheduling_fk (Some (bp_scheduling_id r)) d
  then Ok (r, with_plans d (<[bp_id r := r]> (billing_plan d)))
  else Raise IntegrityError.

Definition insert_billing_plan_on_db (flash_service_id flash_plan_id : string)
    (scheduling_id : Z) (is_active : bool) : M PlanRow :=
  w ← get_world;
  let i := plan_seq w in
  _ ← (fun w => (Ok tt, with_seqs w (i + 1)%Z (event_seq w) (scheduling_seq w)));
  exec_raw (checked (text_ok flash_service_id && text_ok flash_plan_id) (fun n d =>
    match billing_plan d !! i with
    | Some _ => Raise IntegrityError
    | None =>
        put_plan {| bp_id := i; bp_service_id := flash_service_id;
                    bp_plan_id := flash_plan_id; bp_scheduling_id := scheduling_id;
                    bp_is_active := is_active |} n d
    end)).

(** The fields an edit may carry: [None] is a field the body left out, and the
    two fields the request schema lets through as null hold an option. *)
Record PlanEdit := {
  pe_service_id : option string;
  pe_plan_id : option string;
  pe_scheduling_id : option (option Z);
  pe_is_active : option (option bool);
}.

(** The row after [setattr] of every field sent; [None] when a NOT NULL column
    would hold null. *)
Definition edit_plan (r : PlanRow) (e : PlanEdit) : option PlanRow :=
  sid ← default (Some (bp_scheduling_id r)) (pe_scheduling_id e);
  active ← default (Some (bp_is_active r)) (pe_is_active e);
  Some {| bp_id := bp_id r;
          bp_service_id := default (bp_service_id r) (pe_service_id e);
          bp_plan_id := default (bp_plan_id r) (pe_plan_id e);
          bp_scheduling_id := sid; bp_is_active := active |}.

Definition update_billing_plan_on_db (plan_id : Z) (values : PlanEdit)
  : M (option PlanRow) :=
  row ← get_billing_plan_by_id_on_db plan_id;
  match row with
  | None => mret None
  | Some r =>
      r' ← exec_raw (fun n d =>
            match edit_plan r values with
            | None => Raise IntegrityError
            | Some r' =>
                checked (text_ok (bp_service_id r') && text_ok (bp_plan_id r'))
                  (put_plan r') n d
            end);
      mret (Some r')
  end.

(** ** user_subscription *)

Record AbandonRule := { ab_after : Z; ab_error : string }.

(** [AbandonRule.condition]: the SQL form, over possibly null columns. *)
Definition abandon_condition (rule : AbandonRule) (now : Z) (r : SubRow) : tri :=
  tri_and (tri_of_bool (String.eqb (us_status r) "pending"))
  (tri_and (sql_is_null (us_granted r))
  (tri_and (sql_cmp (String.eqb (ab_error rule)) (us_last_sync_error r))
  (tri_and (sql_is_not_null (us_sync_error_since r))
           (sql_cmp (fun t => (t <=? now - ab_after rule)%Z) (us_sync_error_since r))))).

(** [AbandonRule.matches]: the same question of a row in hand. *)
Definition abandon_matches (rule : AbandonRule) (now : Z) (r : SubRow) : bool :=
  String.eqb (us_status r) "pending"
  && bool_decide (us_granted r = None)
  && bool_decide (us_last_sync_error r = Some (ab_error rule))
  && match us_sync_error_since r with
     | Some t => (t <=? now - ab_after rule)%Z
     | None => false
     end.

Definition settled_condition (r : SubRow) : tri :=
  tri_and (tri_of_bool (String.eqb (us_status r) "expired"))
  (tri_and (sql_is_null (us_granted r)) (sql_is_null (us_last_sync_error r))).

Definition get_user_subscription_on_db (pubkey : string) : M (option SubRow) :=
  exec (query (fun _ d => user_subscription d !! pubkey)).

Definition get_user_subscription_by_flash_id_on_db (flash_subscription_id : string)
  : M (option SubRow) :=
  exec (checked (text_ok flash_subscription_id) (query (fun n d =>
    head (filter (fun r => us_flash_id r = flash_subscription_id)
            (scan n (user_subscription d)))))).

(** The columns an upsert writes, over the row already there if there is one:
    [last_event_at] and [created_at] survive a conflict. *)
Definition upserted (pubkey : string) (s : FlashSubscription) (subscriber : option string)
    (plan_id : Z) (granted : option Z) (now created : Z) (old : option SubRow) : SubRow :=
  {| us_pubkey := pubkey; us_flash_id := fs_id s; us_plan := plan_id;
     us_granted := granted; us_status := fs_status s;
     us_cancel := fs_cancel_effective_date s;
     us_read := {|
       sr_subscriber_id := subscriber;
       sr_period_start := fs_current_period_start s;
       sr_period_end := fs_current_period_end s;
       sr_next_billing := fs_next_billing_date s;
       sr_trial_end := fs_trial_end_date s;
       sr_portal_url := fs_portal_url s;
       sr_amount_minor := fs_pricing s ≫= pr_amount_minor;
       sr_currency := fs_pricing s ≫= pr_currency;
       sr_interval := fs_pricing s ≫= pr_billing_interval |};
     us_last_event_at := match old with Some o => us_last_event_at o | None => None end;
     us_last_synced_at := Some now; us_last_sync_error := None;
     us_sync_error_since := None;
     us_created_at := match old with Some o => us_created_at o | None => created end |}.

(** What the server checks of the text Flash sent. *)
Definition upsert_text_ok (s : FlashSubscription) (subscriber : option string) : bool :=
  text_ok (fs_id s) && text_ok (fs_status s) && opt_text_ok subscriber
  && opt_text_ok (fs_portal_url s)
  && match fs_pricing s with
     | Some p => opt_text_ok (pr_currency p) && opt_text_ok (pr_billing_interval p)
     | None => true
     end.

(** What the driver checks: a 32-bit amount, and a subscriber id that is text. *)
Definition amount_ok (s : FlashSubscription) : bool :=
  match fs_pricing s with Some p => opt_int4_ok (pr_amount_minor p) | None => true end.

Definition upsert_db (pubkey : string) (row : option SubRow -> SubRow) (d : Db) : Db :=
  with_subs d (<[pubkey := row (user_subscription d !! pubkey)]> (user_subscription d)).

Definition upsert_user_subscription_on_db (pubkey : string) (s : FlashSubscription)
    (billing_plan_id : Z) (granted_scheduling_id : option Z) : M unit :=
  now ← utc_now;
  match bind_text (fs_subscriber_id s) with
  | None => exec_unbound
  | Some subscriber =>
      if negb (amount_ok s) then exec_unbound else
      created ← db_now;
      exec (checked (upsert_text_ok s subscriber) (fun _ d =>
        if bool_decide (is_Some (billing_plan d !! billing_plan_id))
           && scheduling_fk granted_scheduling_id d
        then Ok (tt, upsert_db pubkey
               (upserted pubkey s subscriber billing_plan_id granted_scheduling_id now created) d)
        else Raise IntegrityError))
  end.

Definition count_subscriptions_for_plan_on_db (plan_id : Z) : M nat :=
  exec (query (fun n d =>
    length (filter (fun r => us_plan r = plan_id) (scan n (user_subscription d))))).

Definition select_entitlement_candidates_on_db : M (list SubRow) :=
  exec (query (fun n d =>
    filter (fun r => tri_holds (sql_is_not_null (us_granted r)))
      (scan n (user_subscription d)))).

Definition alter_sub (pubkey : string) (f : SubRow -> SubRow) (d : Db) : Db :=
  with_subs d (alter f pubkey (user_subscription d)).

Definition clear_granted_scheduling_on_db (pubkey : string) : M unit :=
  exec (modify (fun d => (tt, alter_sub pubkey (fun r => us_with_granted r None) d))).

(** [cancel_effective_date] is written only when one is given. *)
Definition update_flash_status_on_db (pubkey status : string) (cancel : option Z) : M unit :=
  exec (modify (fun d => (tt, alter_sub pubkey (fun r =>
    us_with_status r status (match cancel with Some _ => cancel | None => us_cancel r end)) d))).

Definition newer_event (t : Z) (r : SubRow) : tri :=
  tri_or (sql_is_null (us_last_event_at r))
         (sql_cmp (fun u => (u <? t)%Z) (us_last_event_at r)).

(** [pubkey] is the reference as the payload carried it. *)
Definition update_last_event_at_on_db (pubkey : json) (event_timestamp : option Z) : M unit :=
  match event_timestamp with
  | Some t =>
      if negb (py_truthy pubkey) then mret tt else
      match pubkey with
      | JStr p =>
          exec (checked (text_ok p) (modify (fun d => (tt, alter_sub p (fun r =>
            if tri_holds (newer_event t r) then us_with_event_at r (Some t) else r) d))))
      | _ => exec_unbound
      end
  | None => mret tt
  end.

Definition hour : Z := 3600000000.

(** Rows only Flash can settle: the WHERE clause of the reconcile query. *)
Definition reconcile_due (now stale_after : Z) (r : SubRow) : tri :=
  tri_or (tri_of_bool (str_in (us_status r) [PAST_DUE_STATUS; PENDING_STATUS]))
  (tri_or (tri_and (tri_of_bool (String.eqb (us_status r) "active"))
             (tri_and (sql_is_not_null (us_period_end r))
                (sql_cmp (fun t => (t <=? now)%Z) (us_period_end r))))
  (tri_or (tri_and (sql_is_not_null (us_next_billing r))
             (sql_cmp (fun t => (t <=? now + hour)%Z) (us_next_billing r)))
  (tri_or (sql_is_null (us_last_synced_at r))
          (sql_cmp (fun t => (t <=? now - stale_after)%Z) (us_last_synced_at r))))).

Definition reconcile_where (now stale_after : Z) (rule : AbandonRule) (r : SubRow) : tri :=
  tri_and (reconcile_due now stale_after r)
  (tri_and (tri_not (abandon_condition rule now r)) (tri_not (settled_condition r))).

(** ASC NULLS FIRST. *)
Definition nulls_first (a b : option Z) : bool :=
  match a, b with
  | None, _ => true
  | Some _, None => false
  | Some x, Some y => (x <=? y)%Z
  end.

Definition synced_order (a b : SubRow) : bool :=
  nulls_first (us_last_synced_at a) (us_last_synced_at b).

Definition select_reconcile_candidates_on_db (now stale_after : Z) (limit : nat)
    (rule : AbandonRule) : M (list SubRow) :=
  exec (query (fun n d =>
    take limit (stable_sort synced_order
      (filter (fun r => tri_holds (reconcile_where now stale_after rule r))
         (scan n (user_subscription d)))))).

(** Only a change of reason restarts the failure's clock. *)
Definition sync_failed (reason : string) (now : Z) (r : SubRow) : SubRow :=
  let same := tri_and (sql_cmp (String.eqb reason) (us_last_sync_error r))
                      (sql_is_not_null (us_sync_error_since r)) in
  us_with_sync r (Some now) (Some reason)
    (if tri_holds same then us_sync_error_since r else Some now).

Definition record_sync_failure_on_db (pubkey reason : string) : M unit :=
  now ← utc_now;
  exec (checked (text_ok reason)
    (modify (fun d => (tt, alter_sub pubkey (sync_failed reason now) d)))).

(** [SELECT ... FOR UPDATE]: waits, or with SKIP LOCKED leaves out a row another
    session holds. *)
Definition lock_user_for_update_on_db (pubkey : string) (skip_locked : bool) : M bool :=
  exec (checked (text_ok pubkey) (query (fun n d =>
    bool_decide (is_Some (nsec d !! pubkey))
    && negb (skip_locked && row_locked n pubkey)))).

(** *** The divergence report's reads of [user_subscription] *)

(** (pubkey, status, granted, scheduling_id, source) of each subscriber joined
    to their assignment. *)
Definition mismatch_row : Type := string * string * option Z * option Z * string.

Definition mismatch_where (admin_held : bool) (u : SubRow) (r : NsecRow) : tri :=
  tri_and (tri_of_bool (Bool.eqb admin_held
             (String.eqb (ns_scheduling_source r) SOURCE_ADMIN)))
  (tri_and (sql_is_not_null (us_granted u))
  (tri_or (sql_is_null (ns_scheduling_id r))
     (match us_granted u with
      | Some g => sql_cmp (fun s => negb (s =? g)%Z) (ns_scheduling_id r)
      | None => TNull
      end))).

Definition mismatches (admin_held : bool) (n : nat) (d : Db) : list mismatch_row :=
  omap (fun u =>
    r ← nsec d !! us_pubkey u;
    if tri_holds (mismatch_where admin_held u r)
    then Some (us_pubkey u, us_status u, us_granted u, ns_scheduling_id r,
               ns_scheduling_source r)
    else None) (scan n (user_subscription d)).

Definition select_policy_mismatches_on_db (admin_held : bool) (limit : nat)
  : M (list mismatch_row) :=
  exec (query (fun n d => take limit (mismatches admin_held n d))).

Definition stale_where (older_than now : Z) (rule : AbandonRule) (r : SubRow) : tri :=
  tri_and (tri_or (sql_is_null (us_last_synced_at r))
             (sql_cmp (fun t => (t <=? older_than)%Z) (us_last_synced_at r)))
  (tri_and (tri_not (abandon_condition rule now r)) (tri_not (settled_condition r))).

Definition select_stale_syncs_on_db (older_than : Z) (limit : nat) (now : Z)
    (rule : AbandonRule) : M (list SubRow) :=
  exec (query (fun n d => take limit
    (filter (fun r => tri_holds (stale_where older_than now rule r))
       (scan n (user_subscription d))))).

Definition failing_where (now : Z) (rule : AbandonRule) (r : SubRow) : tri :=
  tri_and (sql_is_not_null (us_last_sync_error r)) (tri_not (abandon_condition rule now r)).

Definition select_failing_syncs_on_db (limit : nat) (now : Z) (rule : AbandonRule)
  : M (list SubRow) :=
  exec (query (fun n d => take limit
    (filter (fun r => tri_holds (failing_where now rule r))
       (scan n (user_subscription d))))).

Definition select_abandoned_checkouts_on_db (limit : nat) (now : Z) (rule : AbandonRule)
  : M (list SubRow) :=
  exec (query (fun n d => take limit
    (filter (fun r => tri_holds (abandon_condition rule now r))
       (scan n (user_subscription d))))).

Definition retired_where (d : Db) (r : SubRow) : bool :=
  match billing_plan d !! us_plan r with
  | Some p => negb (bp_is_active p) && tri_holds (tri_not (settled_condition r))
  | None => false
  end.

Definition select_retired_plan_subscribers_on_db (limit : nat) : M (list SubRow) :=
  exec (query (fun n d => take limit
    (filter (fun r => retired_where d r) (scan n (user_subscription d))))).

(** GROUP BY flash_status, for the statuses outside [known]. *)
Definition count_status (l : list string) : list (string * nat) :=
  foldr (fun s acc => dict_set s (S (default 0 (dict_get s acc))) acc) [] l.

Definition select_unrecognised_statuses_on_db (known : list string)
  : M (list (string * nat)) :=
  exec (query (fun n d => count_status
    (filter (fun s => negb (str_in s known)) (us_status <$> scan n (user_subscription d))))).

(** ** flash_webhook_event *)

(** [payload -> 'data' ->> key]: NULL unless [data] is an object holding a
    value other than null there. *)
Definition payload_text (key : string) (p : option json) : option string :=
  match p with
  | Some (JObj top) =>
      match dget "data" top with
      | JObj data =>
          match dget key data with
          | JNull => None
          | JStr s => Some s
          | v => Some (jsonb_text v)
          end
      | _ => None
      end
  | _ => None
  end.

Definition unattributed (r : EventRow) : tri :=
  let ref := payload_text "externalRef" (ev_payload r) in
  tri_or (sql_is_null ref) (sql_cmp (fun s => String.eqb s "") ref).

(** JSONB holds no NUL character and no NaN or infinity. *)
Fixpoint jsonb_ok (v : json) : bool :=
  match v with
  | JStr s => text_ok s
  | JFloat r => negb (str_in r ["nan"; "inf"; "-inf"])
  | JList l => (fix go l := match l with [] => true | x :: l' => jsonb_ok x && go l' end) l
  | JObj d =>
      (fix go d := match d with
                   | [] => true
                   | (k, x) :: d' => text_ok k && jsonb_ok x && go d'
                   end) d
  | _ => true
  end.

Definition dedupe_taken (key : string) (d : Db) : bool :=
  existsb (fun '(_, r) => String.eqb (ev_dedupe_key r) key)
    (map_to_list (flash_webhook_event d)).

(** INSERT ... ON CONFLICT (dedupe_key) DO NOTHING RETURNING id. *)
Definition insert_event (id : Z) (row : EventRow) : Stmt (option Z) := fun _ d =>
  if dedupe_taken (ev_dedupe_key row) d then Ok (None, d)
  else match flash_webhook_event d !! id with
  | Some _ => Raise IntegrityError
  | None => Ok (Some id, with_events d (<[id := row]> (flash_webhook_event d)))
  end.

Definition insert_flash_webhook_event_on_db (event : string) (delivery_timestamp : Z)
    (event_timestamp : option Z) (subscription_id : json) (payload : json)
    (dedupe_key : string) (claimed_at : option Z) : M (option Z) :=
  match bind_text subscription_id with
  | None => exec_unbound
  | Some sid =>
      if negb (int4_ok delivery_timestamp) then exec_unbound else
      w ← get_world;
      let id := event_seq w in
      _ ← (fun w => (Ok tt, with_seqs w (plan_seq w) (id + 1)%Z (scheduling_seq w)));
      created ← db_now;
      exec (checked (text_ok event && opt_text_ok sid && jsonb_ok payload && text_ok dedupe_key)
        (insert_event id
          {| ev_id := id; ev_event := event; ev_event_timestamp := event_timestamp;
             ev_delivery_timestamp := delivery_timestamp; ev_subscription_id := sid;
             ev_payload := Some payload; ev_processing_started_at := claimed_at;
             ev_processed_at := None;
             ev_attempts := match claimed_at with Some _ => 1 | None => 0 end;
             ev_process_error := None; ev_resolved_by := None; ev_resolution := None;
             ev_dedupe_key := dedupe_key; ev_created_at := created |}))
  end.

(** Not claimed, or claimed so long ago that the worker must have died. *)
Definition claimable (now stale_after : Z) (r : EventRow) : tri :=
  tri_or (sql_is_null (ev_processing_started_at r))
    (sql_cmp (fun t => (t <=? now - stale_after)%Z) (ev_processing_started_at r)).

Definition abandoned_where (now stale_after max_attempts : Z) (events : list string)
    (r : EventRow) : tri :=
  tri_and (sql_is_null (ev_processed_at r))
  (tri_and (tri_of_bool (ev_attempts r <? max_attempts)%Z)
  (tri_and (tri_of_bool (str_in (ev_event r) events)) (claimable now stale_after r))).

Definition select_abandoned_webhook_events_on_db (now stale_after max_attempts : Z)
    (limit : nat) (events : list string) : M (list EventRow) :=
  exec (query (fun n d =>
    take limit (stable_sort (fun a b => (ev_created_at a <=? ev_created_at b)%Z)
      (filter (fun r => tri_holds (abandoned_where now stale_after max_attempts events r))
         (scan n (flash_webhook_event d)))))).

Definition alter_event (id : Z) (f : EventRow -> EventRow) (d : Db) : Db :=
  with_events d (alter f id (flash_webhook_event d)).

Definition claim_where (now stale_after : Z) (r : EventRow) : bool :=
  tri_holds (tri_and (sql_is_null (ev_processed_at r)) (claimable now stale_after r)).

Definition claimed (now : Z) (r : EventRow) : EventRow :=
  ev_with r (Some now) (ev_processed_at r) (ev_attempts r + 1) (ev_process_error r)
    (ev_resolved_by r) (ev_resolution r).

(** One UPDATE decides the claim: [true] when a row matched. *)
Definition claim_stmt (id now stale_after : Z) (d : Db) : bool * Db :=
  match flash_webhook_event d !! id with
  | Some r =>
      if claim_where now stale_after r then (true, alter_event id (claimed now) d)
      else (false, d)
  | None => (false, d)
  end.

Definition claim_webhook_event_on_db (id now stale_after : Z) : M bool :=
  exec (modify (claim_stmt id now stale_after)).

Definition processed (now : Z) (r : EventRow) : EventRow :=
  ev_with r (ev_processing_started_at r) (Some now) (ev_attempts r) None
    (ev_resolved_by r) (ev_resolution r).

Definition mark_webhook_event_processed_on_db (id now : Z) : M unit :=
  exec (modify (fun d => (tt, alter_event id (processed now) d))).

Definition failed_with (reason : string) (r : EventRow) : EventRow :=
  ev_with r (ev_processing_started_at r) (ev_processed_at r) (ev_attempts r) (Some reason)
    (ev_resolved_by r) (ev_resolution r).

Definition record_webhook_event_failure_on_db (id : Z) (reason : string) : M unit :=
  exec (checked (text_ok reason)
    (modify (fun d => (tt, alter_event id (failed_with reason) d)))).

(** UPDATE ... WHERE over the whole table; the number of rows it matched. *)
Definition update_events (p : EventRow -> bool) (f : EventRow -> EventRow) (d : Db)
  : nat * Db :=
  (size (filter (fun kv => p kv.2) (flash_webhook_event d)),
   with_events d ((fun r => if p r then f r else r) <$> flash_webhook_event d)).

Definition settle_where (subscription_id : string) (only_unattributed : bool)
    (r : EventRow) : bool :=
  tri_holds (tri_and (sql_cmp (String.eqb subscription_id) (ev_subscription_id r))
  (tri_and (sql_is_null (ev_processed_at r))
           (if only_unattributed then unattributed r else TTrue))).

Definition settled_by (now : Z) (resolution resolved_by : string) (r : EventRow) : EventRow :=
  ev_with r (ev_processing_started_at r) (Some now) (ev_attempts r) None
    (Some resolved_by) (Some resolution).

Definition settle_unresolved_events_on_db (subscription_id : string) (now : Z)
    (resolution resolved_by : string) (only_unattributed : bool) : M nat :=
  exec (checked (text_ok subscription_id) (modify
    (update_events (settle_where subscription_id only_unattributed)
       (settled_by now resolution resolved_by)))).

Definition awaiting_plan_where (service plan error : string) (r : EventRow) : bool :=
  tri_holds (tri_and (sql_is_null (ev_processed_at r))
  (tri_and (sql_cmp (String.eqb error) (ev_process_error r))
  (tri_and (sql_cmp (String.eqb service) (payload_text "serviceId" (ev_payload r)))
           (sql_cmp (String.eqb plan) (payload_text "planId" (ev_payload r)))))).

Definition replayable_again (r : EventRow) : EventRow :=
  ev_with r (ev_processing_started_at r) (ev_processed_at r) 0 None
    (ev_resolved_by r) (ev_resolution r).

Definition reset_events_awaiting_plan_on_db (service plan error : string) : M nat :=
  exec (modify (update_events (awaiting_plan_where service plan error) replayable_again)).

Definition unapplied (r : EventRow) : tri :=
  tri_and (sql_is_null (ev_processed_at r)) (sql_is_not_null (ev_process_error r)).

Definition newest_event_first (a b : EventRow) : bool :=
  (ev_created_at b <=? ev_created_at a)%Z.

Definition select_unresolved_signups_on_db (limit : nat) : M (list EventRow) :=
  exec (query (fun n d => take limit (stable_sort newest_event_first
    (filter (fun r => tri_holds (tri_and (unapplied r) (unattributed r)))
       (scan n (flash_webhook_event d)))))).

Definition select_unmapped_plan_events_on_db (limit : nat) : M (list EventRow) :=
  exec (query (fun n d => take limit (stable_sort newest_event_first
    (filter (fun r => tri_holds (tri_and (unapplied r) (tri_not (unattributed r))))
       (scan n (flash_webhook_event d)))))).

Definition exhausted_where (max_attempts : Z) (r : EventRow) : tri :=
  tri_and (sql_is_null (ev_processed_at r))
          (tri_of_bool (max_attempts <=? ev_attempts r)%Z).

Definition select_exhausted_events_on_db (max_attempts : Z) (limit : nat)
  : M (list EventRow) :=
  exec (query (fun n d => take limit
    (filter (fun r => tri_holds (exhausted_where max_attempts r))
       (scan n (flash_webhook_event d))))).

End repos.

(** ** Lemmas: which of these only read *)

Section repo_reads.
Context {E : Env}.

Lemma reads_scalar {A} (rows : list A) : reads (scalar_one_or_none rows).
Proof. unfold scalar_one_or_none. solve_stable. Qed.
#[local] Hint Resolve reads_scalar : stable.

Lemma reads_exists p : reads (brainstorm_nsec_exists_by_pubkey_on_db p).
Proof. unfold brainstorm_nsec_exists_by_pubkey_on_db. solve_stable. Qed.
Lemma reads_blocked p : reads (is_billing_blocked_on_db p).
Proof. unfold is_billing_blocked_on_db. solve_stable. Qed.
Lemma reads_assigned p : reads (get_assigned_scheduling_id_on_db p).
Proof. unfold get_assigned_scheduling_id_on_db. solve_stable. Qed.
Lemma reads_source p : reads (get_scheduling_source_on_db p).
Proof. unfold get_scheduling_source_on_db. solve_stable. Qed.
Lemma reads_scheduling i : reads (get_scheduling_on_db i).
Proof. unfold get_scheduling_on_db. solve_stable. Qed.
Lemma reads_default_scheduling : reads get_default_scheduling_on_db.
Proof. unfold get_default_scheduling_on_db. solve_stable. Qed.
Lemma reads_scheduling_exists i : reads (scheduling_exists_on_db i).
Proof. unfold scheduling_exists_on_db. solve_stable. Qed.
Lemma reads_public_scheduling : reads select_public_scheduling_on_db.
Proof. unfold select_public_scheduling_on_db. solve_stable. Qed.
Lemma reads_plan s p : reads (get_billing_plan_on_db s p).
Proof. unfold get_billing_plan_on_db. solve_stable. Qed.
Lemma reads_plans b : reads (select_billing_plans_on_db b).
Proof. unfold select_billing_plans_on_db. solve_stable. Qed.
Lemma reads_plan_by_id i : reads (get_billing_plan_by_id_on_db i).
Proof. unfold get_billing_plan_by_id_on_db. solve_stable. Qed.
Lemma reads_sub p : reads (get_user_subscription_on_db p).
Proof. unfold get_user_subscription_on_db. solve_stable. Qed.
Lemma reads_sub_by_flash_id i : reads (get_user_subscription_by_flash_id_on_db i).
Proof. unfold get_user_subscription_by_flash_id_on_db. solve_stable. Qed.
Lemma reads_count i : reads (count_subscriptions_for_plan_on_db i).
Proof. unfold count_subscriptions_for_plan_on_db. solve_stable. Qed.
Lemma reads_entitlement_candidates : reads select_entitlement_candidates_on_db.
Proof. unfold select_entitlement_candidates_on_db. solve_stable. Qed.
Lemma reads_reconcile_candidates n s l r : reads (select_reconcile_candidates_on_db n s l r).
Proof. unfold select_reconcile_candidates_on_db. solve_stable. Qed.
Lemma reads_abandoned_events n s m l ev :
  reads (select_abandoned_webhook_events_on_db n s m l ev).
Proof. unfold select_abandoned_webhook_events_on_db. solve_stable. Qed.
Lemma reads_lock p b : reads (lock_user_for_update_on_db p b).
Proof. unfold lock_user_for_update_on_db. solve_stable. Qed.

(** A query returns what it computes on the session's tables. *)
Lemma exec_query_Ok {A} (f : nat -> Db -> A) w a w' :
  exec (query f) w = (Ok a, w') -> exists n, a = f n (working w).
Proof.
  intros Hx. apply (wp_Ok _ (fun a => exists n, a = f n (working w)) _ _ _ Hx).
  apply wp_exec; [done|]. unfold query. intros a' d _ [= <- <-] ? [= <-]. eauto.
Qed.

Lemma exec_checked_query_Ok {A} b (f : nat -> Db -> A) w a w' :
  exec (checked b (query f)) w = (Ok a, w') -> b = true /\ exists n, a = f n (working w).
Proof.
  intros Hx. apply (wp_Ok _ (fun a => b = true /\ exists n, a = f n (working w)) _ _ _ Hx).
  apply wp_exec; [done|]. unfold checked, query. destruct b; [|done].
  intros a' d _ [= <- <-] ? [= <-]. eauto.
Qed.

Lemma get_billing_plan_Ok s p w x w' :
  get_billing_plan_on_db s p w = (Ok (Some x), w') ->
  plan_named s p x = true /\ exists i, billing_plan (working w) !! i = Some x.
Proof.
  unfold get_billing_plan_on_db. intros (rows & w1 & Hq & Hs)%bind_Ok_inv.
  apply exec_checked_query_Ok in Hq as (_ & n & ->).
  destruct (filter _ _) as [|r [|r' rs]] eqn:Hf; try done. injection Hs as -> ->.
  assert (Hin : x ∈ [x]) by set_solver. rewrite <- Hf in Hin.
  apply list_elem_of_filter in Hin as [Hn Hin]. split; [by apply Is_true_true|].
  by apply scan_elem in Hin.
Qed.

End repo_reads.

#[export] Hint Resolve reads_exists reads_blocked reads_assigned reads_source
  reads_scheduling reads_default_scheduling reads_scheduling_exists reads_public_scheduling
  reads_plan reads_plans reads_plan_by_id reads_sub reads_sub_by_flash_id reads_count
  reads_entitlement_candidates reads_reconcile_candidates reads_abandoned_events
  reads_lock : stable.
