(* ===== verification/FlashMock.v ===== *)
(** * The in-process stand-in for Flash ([src/app/core/flash_mock.py])

    Two module-level dicts, kept in the world: subscriptions by id and plans by
    (service, plan), both in insertion order.  A lookup by id answers that id
    alone; a lookup by ref prefers a subscription that still entitles, then the
    one that runs longest. *)

From Stdlib Require Import Ascii String.
From S2P Require Import Prelude Json Time Types Effects.
Local Open Scope string_scope.

Module FlashMock.

Definition put_subscriptions (subs : list (string * FlashSubscription)) : M unit :=
  fun w => (Ok tt, with_mock w subs (mock_plans w)).
Definition put_plans (pl : list ((string * string) * list (string * json))) : M unit :=
  fun w => (Ok tt, with_mock w (mock_subscriptions w) pl).

Definition set_subscription (s : FlashSubscription) : M unit :=
  w ← get_world; put_subscriptions (dict_set (fs_id s) s (mock_subscriptions w)).

Definition remove_subscription (subscription_id : string) : M bool :=
  w ← get_world;
  let found := bool_decide (is_Some (dict_get subscription_id (mock_subscriptions w))) in
  _ ← put_subscriptions (dict_pop subscription_id (mock_subscriptions w));
  mret found.

Definition set_plan (plan : list (string * json)) : M unit :=
  w ← get_world;
  put_plans (dict_set (str_or_empty (dget "serviceId" plan), str_or_empty (dget "id" plan))
               plan (mock_plans w)).

Definition remove_plan (service_id plan_id : string) : M bool :=
  w ← get_world;
  let found := bool_decide (is_Some (dict_get (service_id, plan_id) (mock_plans w))) in
  _ ← put_plans (dict_pop (service_id, plan_id) (mock_plans w));
  mret found.

Definition plans_for (service_id : string) : M (list (list (string * json))) :=
  w ← get_world;
  mret (snd <$> filter (fun kv => kv.1.1 = service_id) (mock_plans w)).

(** One service per distinct [serviceId], named by the first plan that carries
    it ([setdefault] keeps the first). *)
Definition services_of (pl : list ((string * string) * list (string * json)))
  : list (string * list (string * json)) :=
  foldl (fun seen '((service, _), plan) =>
    match dict_get service seen with
    | Some _ => seen
    | None =>
        dict_set service
          [("id", JStr service);
           ("name", let n := dget "serviceName" plan in
                    if py_truthy n then n else JStr service);
           ("description", JNull); ("signupUrl", JNull)] seen
    end) [] pl.

Definition services : M (list (list (string * json))) :=
  w ← get_world; mret (snd <$> services_of (mock_plans w)).

Definition clear : M unit := fun w => (Ok tt, with_mock w [] []).

(** [x or y] on optional timestamps: a datetime is never falsy. *)
Definition or_else (a b : option Z) : option Z :=
  match a with Some _ => a | None => b end.

(** At period end, status untouched. *)
Definition cancel (subscription_id : string) : M (option FlashSubscription) :=
  w ← get_world;
  match dict_get subscription_id (mock_subscriptions w) with
  | None => mret None
  | Some found =>
      let cancelled := fs_with_cancel found
        (or_else (fs_cancel_effective_date found) (fs_current_period_end found)) in
      _ ← put_subscriptions (dict_set subscription_id cancelled (mock_subscriptions w));
      mret (Some cancelled)
  end.

Definition set_status (subscription_id status : string) : M (option FlashSubscription) :=
  w ← get_world;
  match dict_get subscription_id (mock_subscriptions w) with
  | None => mret None
  | Some found =>
      let changed := fs_with_status found status in
      _ ← put_subscriptions (dict_set subscription_id changed (mock_subscriptions w));
      mret (Some changed)
  end.

(** [row.ref == ref]. *)
Definition ref_is (ref : option string) (s : FlashSubscription) : bool :=
  match ref with
  | Some r => json_is_str (fs_ref s) r
  | None => match fs_ref s with JNull => true | _ => false end
  end.

(** [_matches]: an id that cannot be hashed is a TypeError. *)
Definition matches (subscription_id : json) (ref : option string)
    (subs : list (string * FlashSubscription)) : res exn (list FlashSubscription) :=
  if py_truthy subscription_id then
    match subscription_id with
    | JStr i => Ok (match dict_get i subs with Some s => [s] | None => [] end)
    | v => if hashable v then Ok [] else Raise TypeError
    end
  else Ok (filter (fun s => ref_is ref s) (snd <$> subs)).

Definition entitling (s : FlashSubscription) : bool := str_in (fs_status s) ENTITLING_STATUSES.

Definition live_rows (rows : list FlashSubscription) : list FlashSubscription :=
  match filter (fun s => entitling s) rows with [] => rows | live => live end.

(** [row.current_period_end or datetime.min]. *)
Definition runs_until_row (s : FlashSubscription) : Z := default 0%Z (fs_current_period_end s).

Definition choose_row (rows : list FlashSubscription) : option FlashSubscription :=
  max_by runs_until_row (live_rows rows).

Definition lookup (subscription_id : json) (ref : option string)
  : M (option FlashSubscription) :=
  w ← get_world;
  rows ← lift (matches subscription_id ref (mock_subscriptions w));
  mret (choose_row rows).

(** [_iso]. *)
Definition iso (t : option Z) : json :=
  match t with
  | Some v => JStr (of_chars (isoformat_ms v ++ ["Z"%char])%list)
  | None => JNull
  end.

Definition opt_str (s : option string) : json :=
  match s with Some t => JStr t | None => JNull end.

Definition as_pricing_snapshot (p : option FlashPricing) : json :=
  match p with
  | None => JNull
  | Some pr => JObj
      [("amount", match pr_amount_minor pr with None => JNull | Some a => JStr (pretty a) end);
       ("currency", opt_str (pr_currency pr));
       ("billingInterval", opt_str (pr_billing_interval pr))]
  end.

Definition as_flash_row (s : FlashSubscription) : list (string * json) :=
  [("id", JStr (fs_id s)); ("status", JStr (fs_status s)); ("ref", fs_ref s);
   ("subscriberId", fs_subscriber_id s); ("serviceId", JStr (fs_service_id s));
   ("planId", JStr (fs_plan_id s));
   ("currentPeriodStart", iso (fs_current_period_start s));
   ("currentPeriodEnd", iso (fs_current_period_end s));
   ("nextBillingDate", iso (fs_next_billing_date s));
   ("trialEndDate", iso (fs_trial_end_date s));
   ("cancelEffectiveDate", iso (fs_cancel_effective_date s));
   ("portalUrl", opt_str (fs_portal_url s));
   ("pricingSnapshot", as_pricing_snapshot (fs_pricing s))].

Definition lookup_raw (subscription_id : json) (ref : option string) : M (list json) :=
  w ← get_world;
  rows ← lift (matches subscription_id ref (mock_subscriptions w));
  mret ((fun s => JObj (as_flash_row s)) <$> rows).

(** ** Lemmas *)

Lemma reads_put_subscriptions l : reads (put_subscriptions l).
Proof. done. Qed.
Lemma reads_put_plans l : reads (put_plans l).
Proof. done. Qed.
#[local] Hint Resolve reads_put_subscriptions reads_put_plans : stable.

Lemma reads_lookup sid ref : reads (lookup sid ref).
Proof. unfold lookup. solve_stable. Qed.
Lemma reads_lookup_raw sid ref : reads (lookup_raw sid ref).
Proof. unfold lookup_raw. solve_stable. Qed.
Lemma reads_cancel sid : reads (cancel sid).
Proof. unfold cancel. solve_stable. Qed.
Lemma reads_set_status sid st : reads (set_status sid st).
Proof. unfold set_status. solve_stable. Qed.
Lemma reads_services : reads services.
Proof. unfold services. solve_stable. Qed.
Lemma reads_plans_for s : reads (plans_for s).
Proof. unfold plans_for. solve_stable. Qed.

(** What the mock answers by ref is a row of that ref, entitling whenever one
    of them is, and no row of the same standing runs longer. *)
Lemma choose_row_spec rows s : choose_row rows = Some s ->
  s ∈ rows
  /\ ((exists x, x ∈ rows /\ entitling x = true) -> entitling s = true)
  /\ forall x, x ∈ rows -> entitling x = entitling s ->
       (runs_until_row x <= runs_until_row s)%Z.
Proof.
  unfold choose_row, live_rows. intros Hc.
  destruct (filter (fun s => entitling s) rows) as [|y live] eqn:Hl.
  - apply max_by_spec in Hc as [Hin Hmax].
    assert (Hno : forall x, x ∈ rows -> entitling x = false).
    { intros x Hx. apply not_true_is_false. intros He.
      assert (x ∈ filter (fun s => entitling s) rows) as Hf
        by (apply list_elem_of_filter; rewrite He; done).
      rewrite Hl in Hf. set_solver. }
    split; [done|split].
    + intros (x & Hx & He). by rewrite Hno in He.
    + auto.
  - rewrite <- Hl in Hc. apply max_by_spec in Hc as [Hin Hmax].
    apply list_elem_of_filter in Hin as [He Hin]. apply Is_true_true in He.
    split; [done|split; [done|]]. intros x Hx Hex. apply Hmax.
    apply list_elem_of_filter. split; [|done]. rewrite Hex, He. done.
Qed.

End FlashMock.

#[export] Hint Resolve FlashMock.reads_lookup FlashMock.reads_lookup_raw
  FlashMock.reads_cancel FlashMock.reads_set_status FlashMock.reads_services
  FlashMock.reads_plans_for : stable.
