(* ===== verification/Flash.v ===== *)
(** * Reading and writing Flash ([src/app/core/flash.py])

    Parsing of Flash's bodies, the retry loop the reads and the writes share,
    what each answer means, and the two lookups.  "Flash says there is no such
    subscription" is [Ok None]; "we could not ask" raises.  Timestamps are read
    by [Time.parse_flash_timestamp]. *)

From Stdlib Require Import Ascii String.
From S2P Require Import Prelude Json Time Types Effects FlashMock.
Local Open Scope string_scope.

(** ** Parsing *)

(** [_text]: stripped text, or nothing. *)
Definition text_of (v : json) : option string :=
  match v with
  | JStr s => let t := py_strip s in if String.eqb t "" then None else Some t
  | _ => None
  end.

(** [_whole_number]: an integer Flash sent as one; [bool] is not. *)
Definition whole_number (v : json) : option Z :=
  match v with JInt z => Some z | _ => None end.

Definition flag_of (v : json) : option bool :=
  match v with JBool b => Some b | _ => None end.

(** [_minor_units]: [int(str(value))], unreadable is None. *)
Definition minor_units (v : json) : option Z := py_int (py_str v).

Definition lines_of (v : json) : option (list string) :=
  match v with
  | JList l => match omap text_of l with [] => None | ls => Some ls end
  | _ => None
  end.

Definition parse_pricing (v : json) : option FlashPricing :=
  match v with
  | JObj raw => Some
      {| pr_amount_minor := minor_units (dget "amount" raw);
         pr_currency := text_of (dget "currency" raw);
         pr_billing_interval := text_of (dget "billingInterval" raw) |}
  | _ => None
  end.

(** A field of a sub-object, absent when it is not an object. *)
Definition sub_field (v : json) (k : string) : json :=
  match v with JObj d => dget k d | _ => JNull end.

Definition parse_lifecycle_policy (raw : list (string * json)) : FlashLifecyclePolicy :=
  let dunning := dget "dunningPolicy" raw in
  {| cancellation_mode := text_of (sub_field (dget "cancellationPolicy" raw) "mode");
     dunning_max_attempts := whole_number (sub_field dunning "maxAttempts");
     dunning_attempts := whole_number (dget "dunningAttempts" raw);
     dunning_cancels_after_final_failure :=
       flag_of (sub_field dunning "cancelAfterFinalFailure") |}.

Definition parse_subscription (raw : list (string * json)) : res exn FlashSubscription :=
  ps ← parse_flash_timestamp (dget "currentPeriodStart" raw) false;
  pe ← parse_flash_timestamp (dget "currentPeriodEnd" raw) true;
  nb ← parse_flash_timestamp (dget "nextBillingDate" raw) false;
  te ← parse_flash_timestamp (dget "trialEndDate" raw) true;
  ce ← parse_flash_timestamp (dget "cancelEffectiveDate" raw) true;
  Ok {| fs_id := str_or_empty (dget "id" raw);
        fs_status := str_or_empty (dget "status" raw);
        fs_ref := dget "ref" raw;
        fs_subscriber_id := dget "subscriberId" raw;
        fs_service_id := str_or_empty (dget "serviceId" raw);
        fs_plan_id := str_or_empty (dget "planId" raw);
        fs_current_period_start := ps;
        fs_current_period_end := pe;
        fs_next_billing_date := nb;
        fs_trial_end_date := te;
        fs_cancel_effective_date := ce;
        fs_portal_url := text_of (dget "portalUrl" raw);
        fs_pricing := parse_pricing (dget "pricingSnapshot" raw);
        fs_policy := parse_lifecycle_policy raw |}.

(** [isinstance(sort_order, int)], which a bool is. *)
Definition sort_order_of (v : json) : Z :=
  match v with JInt z => z | JBool b => if b then 1 else 0 | _ => 0 end.

Definition parse_plan (raw : list (string * json)) : FlashPlan :=
  {| fp_id := str_or_empty (dget "id" raw);
     fp_service_id := str_or_empty (dget "serviceId" raw);
     fp_name := str_or_empty (dget "name" raw);
     fp_description := text_of (dget "description" raw);
     fp_amount_minor := minor_units (dget "amount" raw);
     fp_currency := str_or_empty (dget "currency" raw);
     fp_billing_interval := text_of (dget "billingInterval" raw);
     fp_sort_order := sort_order_of (dget "sortOrder" raw);
     fp_features := lines_of (dget "features" raw);
     fp_not_included := lines_of (dget "notIncluded" raw);
     fp_status := str_or_empty (dget "status" raw);
     fp_signup_url := text_of (dget "signupUrl" raw) |}.

Definition parse_service (raw : list (string * json)) : FlashService :=
  {| fsv_id := str_or_empty (dget "id" raw);
     fsv_name := str_or_empty (dget "name" raw);
     fsv_description := text_of (dget "description" raw);
     fsv_signup_url := text_of (dget "signupUrl" raw) |}.

(** ** Choosing among the rows of one ref *)

(** [_runs_until]: a deadline, [datetime.min] when there is none. *)
Definition runs_until (row : list (string * json)) : res exn Z :=
  t ← parse_flash_timestamp (dget "currentPeriodEnd" row) true;
  Ok (default 0%Z t).

Definition as_obj (v : json) : option (list (string * json)) :=
  match v with JObj d => Some d | _ => None end.

(** [row.get("status") in ENTITLING_STATUSES]; an unhashable status raises. *)
Definition row_entitles (row : list (string * json)) : res exn bool :=
  let st := dget "status" row in
  if hashable st then Ok (existsb (json_is_str st) ENTITLING_STATUSES) else Raise TypeError.

Fixpoint filter_entitling (rows : list (list (string * json)))
  : res exn (list (list (string * json))) :=
  match rows with
  | [] => Ok []
  | row :: rows' =>
      e ← row_entitles row;
      rest ← filter_entitling rows';
      Ok (if e : bool then row :: rest else rest)
  end.

(** Rows paired with the key [max] compares. *)
Fixpoint with_keys (rows : list (list (string * json)))
  : res exn (list (Z * list (string * json))) :=
  match rows with
  | [] => Ok []
  | row :: rows' =>
      k ← runs_until row;
      rest ← with_keys rows';
      Ok ((k, row) :: rest)
  end.

Definition choose_subscription (subscriptions : list json) : res exn json :=
  match omap as_obj subscriptions with
  | [] => Ok JNull
  | rows =>
      live ← filter_entitling rows;
      keyed ← with_keys (match live with [] => rows | _ => live end);
      Ok (match max_by fst keyed with Some (_, row) => JObj row | None => JNull end)
  end.

(** ** URLs *)

(** [quote(segment, safe="")]: unreserved characters as they are, the UTF-8
    bytes of every other one as %XX. *)
Definition hex_upper (n : Z) : ascii :=
  if (n <? 10)%Z then digit_chr n else ascii_of_N (Z.to_N (55 + n)).

Definition unreserved (c : ascii) : bool :=
  let n := chr_code c in
  is_digit c || ((65 <=? n) && (n <=? 90))%Z || ((97 <=? n) && (n <=? 122))%Z
  || existsb (Ascii.eqb c) ["_"%char; "."%char; "-"%char; "~"%char].

Definition percent (n : Z) : list ascii := ["%"%char; hex_upper (n / 16); hex_upper (n mod 16)].

Definition quote_chr (c : ascii) : list ascii :=
  let n := chr_code c in
  if unreserved c then [c]
  else if (n <? 128)%Z then percent n
  else (percent (192 + n / 64) ++ percent (128 + n mod 64))%list.

Definition quote (s : string) : string := of_chars (mjoin (quote_chr <$> chars s)).

Definition SUBSCRIPTIONS_PATH := "/api/v1/external/subscriptions".
Definition SERVICES_PATH := "/api/v1/external/services".

Fixpoint slash_join (base : string) (segments : list string) : string :=
  match segments with
  | [] => base
  | s :: rest => slash_join (base ++ "/" ++ quote s) rest
  end.

Section flash.
Context {E : Env}.

Definition subscriptions_url (segments : list string) : string :=
  slash_join (py_rstrip_chr "/" (flash_base_url settings) ++ SUBSCRIPTIONS_PATH) segments.
Definition services_url (segments : list string) : string :=
  slash_join (py_rstrip_chr "/" (flash_base_url settings) ++ SERVICES_PATH) segments.

(** ** Requests *)

Definition CONNECT_RETRIES : nat := 3.

Definition RETRYABLE : list HttpFailure :=
  [ConnectTimeout; ConnectError; PoolTimeout; ReadTimeout; ReadError].
Definition WRITE_RETRYABLE : list HttpFailure := [ConnectTimeout; ConnectError; PoolTimeout].

(** One request on the wire. *)
Definition request (rq : HttpRequest) : M HttpOutcome := fun w =>
  (Ok (http (tick w) rq), with_sent w rq).

(** [_with_retries]: [left] attempts remain, this one included. *)
Fixpoint with_retries_from (left : nat) (rq : HttpRequest) (retryable : list HttpFailure)
    (retry_5xx : bool) : M (Z * option json) :=
  match left with
  | O => raise (OtherException "AssertionError")
  | S left' =>
      outcome ← request rq;
      match outcome with
      | Failure kind text repr =>
          if bool_decide (kind ∈ retryable) then
            if (left' =? 0)%nat
            then raise (FlashUnavailable ("Could not reach Flash: " ++ text))
            else with_retries_from left' rq retryable retry_5xx
          else raise (OtherException repr)
      | Response status body =>
          if negb retry_5xx || (status <? 500)%Z || (left' =? 0)%nat
          then mret (status, body)
          else with_retries_from left' rq retryable retry_5xx
      end
  end.

Definition with_retries := with_retries_from (CONNECT_RETRIES + 1).

Definition get_with_retries (url : string) (params : list (string * string))
  : M (Z * option json) :=
  with_retries {| rq_method := "GET"; rq_url := url; rq_params := params;
                  rq_payload := None |} RETRYABLE true.

Definition send_with_retries (method url : string) (payload : json) : M (Z * option json) :=
  with_retries {| rq_method := method; rq_url := url; rq_params := [];
                  rq_payload := Some payload |} WRITE_RETRYABLE false.

(** [_body_of]: what Flash's answer means. *)
Definition body_of (response : Z * option json) (absent_on_404 refusal_on_4xx : bool)
  : res exn (option (list (string * json))) :=
  let '(status, body) := response in
  if (status =? 401)%Z || (status =? 403)%Z then Raise FlashCredentialError
  else if (status =? 404)%Z && absent_on_404 then Ok None
  else if refusal_on_4xx && (400 <=? status)%Z && (status <? 500)%Z then
    Raise (FlashRefused status)
  else if (400 <=? status)%Z then
    Raise (FlashUnavailable ("Flash answered " ++ pretty status))
  else match body with
  | Some (JObj d) => Ok (Some d)
  | _ => Raise (FlashUnavailable "Flash sent a body we could not read")
  end.

(** Both callers turn anything but FlashUnavailable into FlashUnavailable. *)
Definition named_failure (e : exn) : exn :=
  match e with
  | FlashUnavailable m => FlashUnavailable m
  | OtherException repr => FlashUnavailable ("Could not reach Flash: " ++ repr)
  | _ => FlashUnavailable "Could not reach Flash"
  end.

Definition read_body (url : string) (params : list (string * string)) (absent_on_404 : bool)
  : M (option (list (string * json))) :=
  response ← try_ (get_with_retries url params) (fun e => raise (named_failure e));
  lift (body_of response absent_on_404 false).

Definition write_body (method url : string) (payload : json)
  : M (option (list (string * json))) :=
  response ← try_ (send_with_retries method url payload) (fun e => raise (named_failure e));
  lift (body_of response true true).

(** ** Policies we cannot honour, reported once *)

Definition report_once (key : string) : M unit := fun w =>
  if str_in key (reported w) then (Ok tt, with_reported w (reported w))
  else (Ok tt, with_reported w (reported w ++ [key])).

Definition report_policy_differences (raw : list (string * json)) : M unit :=
  let mode := sub_field (dget "cancellationPolicy" raw) "mode" in
  _ ← match mode with
      | JNull => mret tt
      | _ =>
          if negb (hashable mode) then raise TypeError
          else if existsb (json_is_str mode) RECOGNISED_CANCELLATION_MODES then mret tt
          else report_once ("cancellation:" ++ py_str mode)
      end;
  let dunning := dget "dunningPolicy" raw in
  match sub_field dunning "cancelAfterFinalFailure" with
  | JBool false =>
      match whole_number (sub_field dunning "maxAttempts"),
            whole_number (dget "dunningAttempts" raw) with
      | Some _, Some _ => mret tt
      | _, _ => report_once "dunning-unreadable"
      end
  | _ => mret tt
  end.

(** [_subscription_from]: a row that is not an object, or whose policy cannot
    be read, is FlashUnavailable; an OverflowError of a timestamp escapes. *)
Definition subscription_from (raw : json) : M (option FlashSubscription) :=
  match raw with
  | JNull => mret None
  | JObj d =>
      try_ (_ ← report_policy_differences d;
            s ← lift (parse_subscription d);
            mret (Some s))
           (fun e => match e with
                     | AttributeError | TypeError =>
                         raise (FlashUnavailable "Flash sent a subscription we could not read")
                     | _ => raise e
                     end)
  | _ => raise (FlashUnavailable "Flash sent a subscription we could not read")
  end.

(** ** Lookups *)

Definition no_handle : exn :=
  FlashUnavailable "A subscription lookup needs a subscriptionId or a ref".

Definition has_ref (ref : option string) : bool :=
  match ref with Some r => negb (String.eqb r "") | None => false end.

Definition require_a_handle (subscription_id : json) (ref : option string) : M unit :=
  if negb (py_truthy subscription_id) && negb (has_ref ref) then raise no_handle else mret tt.

(** [quote] of a segment that is not text raises TypeError. *)
Definition read_for (subscription_id : json) (ref : option string)
  : M (option (list (string * json))) :=
  if py_truthy subscription_id then
    match subscription_id with
    | JStr i => read_body (subscriptions_url [i]) [] true
    | _ => raise TypeError
    end
  else read_body (subscriptions_url [])
         (match ref with Some r => [("ref", r)] | None => [] end) false.

Definition fetch_subscription (subscription_id : json) (ref : option string)
  : M (option FlashSubscription) :=
  _ ← require_a_handle subscription_id ref;
  if flash_mock_enabled settings then FlashMock.lookup subscription_id ref else
  body ← read_for subscription_id ref;
  match body with
  | None => mret None
  | Some b =>
      if py_truthy subscription_id then subscription_from (dget "subscription" b)
      else match dget "subscriptions" b with
      | JList (x :: rows) =>
          chosen ← lift (choose_subscription (x :: rows));
          subscription_from chosen
      | _ => mret None
      end
  end.

(** Every row, as it arrived. *)
Definition fetch_subscription_raw (subscription_id : json) (ref : option string)
  : M (option (list (string * json))) :=
  _ ← require_a_handle subscription_id ref;
  if flash_mock_enabled settings then
    rows ← FlashMock.lookup_raw subscription_id ref;
    mret (match rows with
          | [] => None
          | _ => Some [("livemode", JBool true); ("subscriptions", JList rows)]
          end)
  else
  body ← read_for subscription_id ref;
  match body with
  | None => mret None
  | Some b =>
      if py_truthy subscription_id then
        match dget "subscription" b with
        | JNull => mret None
        | one => mret (Some (dict_set "subscriptions" (JList [one]) b))
        end
      else match dget "subscriptions" b with
      | JList (_ :: _) => mret (Some b)
      | _ => mret None
      end
  end.

(** ** Writes *)

Definition SETTABLE_STATUSES : list string := ["paused"; "active"].

Definition cancel_subscription (subscription_id : string) (reason : option string)
  : M (option FlashSubscription) :=
  if String.eqb subscription_id "" then
    raise (FlashUnavailable "A cancellation needs a subscriptionId")
  else if flash_mock_enabled settings then FlashMock.cancel subscription_id else
  let reason := py_strip (default "" reason) in
  body ← write_body "POST" (subscriptions_url [subscription_id; "cancel"])
           (JObj (if String.eqb reason "" then [] else [("reason", JStr reason)]));
  match body with
  | None => mret None
  | Some b => subscription_from (dget "subscription" b)
  end.

Definition set_subscription_status (subscription_id status : string)
  : M (option FlashSubscription) :=
  if String.eqb subscription_id "" then
    raise (FlashUnavailable "A status change needs a subscriptionId")
  else if negb (str_in status SETTABLE_STATUSES) then
    raise (FlashUnavailable ("Flash does not take a status of " ++ py_repr_str status ++ " here"))
  else if flash_mock_enabled settings then FlashMock.set_status subscription_id status else
  body ← write_body "PATCH" (subscriptions_url [subscription_id]) (JObj [("status", JStr status)]);
  match body with
  | None => mret None
  | Some b => subscription_from (dget "subscription" b)
  end.

(** ** Services and plans *)

Definition fetch_service_plans_raw (service_id : string) : M (list (string * json)) :=
  if String.eqb service_id "" then raise (FlashUnavailable "A service read needs a serviceId")
  else
    body ← read_body (services_url [service_id]) [] true;
    match body with
    | None => raise (FlashServiceMissing service_id)
    | Some b => mret b
    end.

Definition fetch_services : M (list FlashService) :=
  if flash_mock_enabled settings then
    l ← FlashMock.services; mret (parse_service <$> l)
  else
  body ← read_body (services_url []) [] false;
  match dget "services" (default [] body) with
  | JList raw => mret (parse_service <$> omap as_obj raw)
  | _ => mret []
  end.

End flash.

(** ** Lemmas: nothing here touches the tables *)

Section flash_reads.
Context {E : Env}.

Lemma reads_request rq : reads (request rq).
Proof. done. Qed.
#[local] Hint Resolve reads_request : stable.

Lemma reads_with_retries_from left rq rs b : reads (with_retries_from left rq rs b).
Proof. induction left as [|left IH]; simpl; solve_stable. Qed.
#[local] Hint Resolve reads_with_retries_from : stable.

Lemma reads_read_body url params b : reads (read_body url params b).
Proof. unfold read_body, get_with_retries, with_retries. solve_stable. Qed.
Lemma reads_write_body m url p : reads (write_body m url p).
Proof. unfold write_body, send_with_retries, with_retries. solve_stable. Qed.

Lemma reads_report_once k : reads (report_once k).
Proof. intros w. unfold report_once. by destruct (str_in k (reported w)). Qed.
#[local] Hint Resolve reads_read_body reads_write_body reads_report_once : stable.

Lemma reads_subscription_from raw : reads (subscription_from raw).
Proof. unfold subscription_from, report_policy_differences. solve_stable. Qed.
#[local] Hint Resolve reads_subscription_from : stable.

Lemma reads_require sid ref : reads (require_a_handle sid ref).
Proof. unfold require_a_handle. solve_stable. Qed.
Lemma reads_read_for sid ref : reads (read_for sid ref).
Proof. unfold read_for. solve_stable. Qed.
#[local] Hint Resolve reads_require reads_read_for : stable.

Lemma reads_fetch_subscription sid ref : reads (fetch_subscription sid ref).
Proof. unfold fetch_subscription. solve_stable. Qed.
Lemma reads_fetch_subscription_raw sid ref : reads (fetch_subscription_raw sid ref).
Proof. unfold fetch_subscription_raw. solve_stable. Qed.
Lemma reads_cancel_subscription sid r : reads (cancel_subscription sid r).
Proof. unfold cancel_subscription. solve_stable. Qed.
Lemma reads_set_subscription_status sid st : reads (set_subscription_status sid st).
Proof. unfold set_subscription_status. solve_stable. Qed.
Lemma reads_fetch_service_plans_raw s : reads (fetch_service_plans_raw s).
Proof. unfold fetch_service_plans_raw. solve_stable. Qed.
Lemma reads_fetch_services : reads fetch_services.
Proof. unfold fetch_services. solve_stable. Qed.

End flash_reads.

#[export] Hint Resolve reads_fetch_subscription reads_fetch_subscription_raw
  reads_cancel_subscription reads_set_subscription_status
  reads_fetch_service_plans_raw reads_fetch_services : stable.

(** ** Lemmas: the retry loop *)

(** An outcome the loop may ask again about. *)
Definition repeatable (retryable : list HttpFailure) (retry_5xx : bool) (o : HttpOutcome)
  : bool :=
  match o with
  | Failure kind _ _ => bool_decide (kind ∈ retryable)
  | Response status _ => retry_5xx && (500 <=? status)%Z
  end.

(** What the loop makes of the outcome it stops at. *)
Definition settle_outcome (retryable : list HttpFailure) (o : HttpOutcome)
  : res exn (Z * option json) :=
  match o with
  | Failure kind text repr =>
      if bool_decide (kind ∈ retryable)
      then Raise (FlashUnavailable ("Could not reach Flash: " ++ text))
      else Raise (OtherException repr)
  | Response status body => Ok (status, body)
  end.

Lemma with_retries_from_spec {E : Env} left rq rs b w r w' :
  with_retries_from (S left) rq rs b w = (r, w') ->
  exists n, (n <= left)%nat
    /\ sent w' = (sent w ++ replicate (S n) rq)%list
    /\ tick w' = (tick w + S n)%nat
    /\ (forall i, (i < n)%nat -> repeatable rs b (http (tick w + i) rq) = true)
    /\ r = settle_outcome rs (http (tick w + n) rq)
    /\ ((n < left)%nat -> repeatable rs b (http (tick w + n) rq) = false).
Proof.
  revert w. induction left as [|left IH]; intros w; simpl;
    unfold mbind, M_mbind, request at 1; simpl; intros Hrun.
  - exists 0%nat. rewrite Nat.add_0_r. split_and!; try done; try lia.
    + destruct (http _ rq) as [st body|k t rp]; simpl in Hrun.
      * rewrite orb_true_r in Hrun. by injection Hrun as <- <-.
      * case_bool_decide; by injection Hrun as <- <-.
    + destruct (http _ rq) as [st body|k t rp]; simpl in Hrun.
      * rewrite orb_true_r in Hrun. injection Hrun as <- <-. simpl. lia.
      * case_bool_decide; injection Hrun as <- <-; simpl; lia.
    + destruct (http _ rq) as [st body|k t rp]; simpl in Hrun |- *.
      * rewrite orb_true_r in Hrun. by injection Hrun as <- <-.
      * case_bool_decide; by injection Hrun as <- <-.
  - destruct (repeatable rs b (http (tick w) rq)) eqn:Hrep.
    + assert (Hrest : with_retries_from (S left) rq rs b (with_sent w rq) = (r, w')).
      { destruct (http (tick w) rq) as [st body|k t rp]; simpl in Hrep, Hrun.
        - apply andb_prop in Hrep as [-> Hst]. simpl in Hrun.
          replace (st <? 500)%Z with false in Hrun by lia. exact Hrun.
        - rewrite Hrep in Hrun. exact Hrun. }
      apply IH in Hrest as (n & Hn & Hs & Ht & Hi & Hr & Hstop). simpl in *.
      exists (S n). replace (tick w + S n)%nat with (S (tick w) + n)%nat by lia.
      split_and!; try done; try lia.
      * rewrite Hs, <- (assoc_L (++)). done.
      * intros [|i] Hlt; [by rewrite Nat.add_0_r|].
        replace (tick w + S i)%nat with (S (tick w) + i)%nat by lia. apply Hi. lia.
      * intros Hlt. apply Hstop. lia.
    + exists 0%nat. rewrite Nat.add_0_r.
      assert (Hfin : r = settle_outcome rs (http (tick w) rq) /\ w' = with_sent w rq).
      { destruct (http (tick w) rq) as [st body|k t rp]; simpl in Hrep, Hrun |- *.
        - destruct b; simpl in *; [replace (st <? 500)%Z with true in Hrun by lia|];
            by injection Hrun as <- <-.
        - rewrite Hrep in *. by injection Hrun as <- <-. }
      destruct Hfin as [-> ->]. split_and!; try done; simpl; lia.
Qed.

(** ** Lemmas: choosing among rows *)

Lemma filter_entitling_spec rows live : filter_entitling rows = Ok live ->
  (forall r, r ∈ live <-> r ∈ rows /\ row_entitles r = Ok true)
  /\ forall r, r ∈ rows -> is_ok (row_entitles r) = true.
Proof.
  revert live. induction rows as [|row rows IH]; intros live; simpl.
  { intros [= <-]. set_solver. }
  cbn [mbind res_mbind]. destruct (row_entitles row) as [e|] eqn:He; [|done].
  destruct (filter_entitling rows) as [rest|]; [|done]. intros [= <-].
  destruct (IH rest eq_refl) as [Hin Hok]. split.
  - intros r. destruct e; rewrite ?elem_of_cons, Hin; [|set_solver by congruence].
    split; [intros [->|]; set_solver|intros [[->|] ?]; set_solver].
  - intros r [->|Hr]%elem_of_cons; [by rewrite He|auto].
Qed.

Lemma with_keys_spec rows keyed : with_keys rows = Ok keyed ->
  snd <$> keyed = rows /\ forall k r, (k, r) ∈ keyed -> runs_until r = Ok k.
Proof.
  revert keyed. induction rows as [|row rows IH]; intros keyed; simpl.
  { intros [= <-]. set_solver. }
  cbn [mbind res_mbind]. destruct (runs_until row) as [k|] eqn:Hk; [|done].
  destruct (with_keys rows) as [rest|]; [|done]. intros [= <-].
  destruct (IH rest eq_refl) as [<- Hkeys]. split; [done|].
  intros k' r [[= -> ->]|Hr]%elem_of_cons; auto.
Qed.

Lemma elem_of_rows d (subs : list json) : d ∈ omap as_obj subs <-> JObj d ∈ subs.
Proof.
  rewrite list_elem_of_omap. split.
  - intros (v & Hv & Ho). destruct v; try done. by injection Ho as ->.
  - intros Hd. by exists (JObj d).
Qed.

Definition chosen_ok (subs : list json) (chosen : json) : Prop :=
  match chosen with
  | JNull => omap as_obj subs = []
  | JObj row =>
      JObj row ∈ subs
      /\ ((exists r, JObj r ∈ subs /\ row_entitles r = Ok true) -> row_entitles row = Ok true)
      /\ forall r, JObj r ∈ subs -> row_entitles r = row_entitles row ->
           exists kr k, runs_until r = Ok kr /\ runs_until row = Ok k /\ (kr <= k)%Z
  | _ => False
  end.

Lemma choose_subscription_spec subs chosen :
  choose_subscription subs = Ok chosen -> chosen_ok subs chosen.
Proof.
  unfold choose_subscription, chosen_ok. pose proof (fun d => elem_of_rows d subs) as Hrows.
  destruct (omap as_obj subs) as [|o os] eqn:Ho; [by intros [= <-]|].
  cbn [mbind res_mbind]. destruct (filter_entitling (o :: os)) as [live|] eqn:Hlive; [|done].
  cbn [mbind res_mbind].
  destruct (with_keys (match live with [] => o :: os | _ => live end)) as [keyed|] eqn:Hk;
    [|done]. simpl. intros [= <-].
  apply with_keys_spec in Hk as [Hsnd Hkey].
  apply filter_entitling_spec in Hlive as [Hlive Hokay].
  assert (Hmem : forall k r, (k, r) ∈ keyed -> r ∈ snd <$> keyed)
    by (intros k r ?; apply list_elem_of_fmap; by exists (k, r)).
  assert (Hex : forall r, r ∈ snd <$> keyed -> exists k, (k, r) ∈ keyed)
    by (intros r ([k r'] & -> & ?)%list_elem_of_fmap; eauto).
  destruct (max_by fst keyed) as [[k row]|] eqn:Hmax.
  2:{ destruct keyed; [|done]. simpl in Hsnd. by destruct live. }
  apply max_by_spec in Hmax as [Hin Hge].
  assert (Hrow : row ∈ o :: os).
  { apply Hmem in Hin. rewrite Hsnd in Hin. destruct live; [done|]. by apply Hlive in Hin as [? _]. }
  split; [by apply Hrows|].
  destruct live as [|l live].
  - assert (Hno : forall r, r ∈ o :: os -> row_entitles r <> Ok true).
    { intros r Hr He. by destruct (not_elem_of_nil r (proj2 (Hlive r) (conj Hr He))). }
    split.
    + intros (r & Hr%Hrows & He). by apply Hno in Hr.
    + intros r Hr%Hrows _. rewrite <- Hsnd in Hr. apply Hex in Hr as [kr Hr].
      exists kr, k. split_and!; eauto. apply (Hge (kr, r) Hr).
  - assert (He : row_entitles row = Ok true).
    { apply Hmem in Hin. rewrite Hsnd in Hin. by apply Hlive in Hin as [_ ?]. }
    split; [done|]. rewrite He. intros r Hr%Hrows Her.
    assert (Hr' : r ∈ l :: live) by by apply Hlive.
    rewrite <- Hsnd in Hr'. apply Hex in Hr' as [kr Hr'].
    exists kr, k. split_and!; eauto. apply (Hge (kr, r) Hr').
Qed.

(** ** Lemmas: what an answer means *)

Section answers.
Context {E : Env}.

(** [Flash answered rq with status and body] at some moment of the run from [w]
    to [w']. *)
Definition answered (w w' : World) (rq : HttpRequest) (st : Z) (body : option json) : Prop :=
  exists n, (tick w <= n < tick w')%nat /\ http n rq = Response st body.

Lemma with_retries_Ok rq rs b w st body w' :
  with_retries rq rs b w = (Ok (st, body), w') -> answered w w' rq st body.
Proof.
  intros Hrun. apply with_retries_from_spec in Hrun as (n & _ & _ & Ht & _ & Hr & _).
  exists (tick w + n)%nat. split; [lia|].
  destruct (http (tick w + n) rq) as [st' body'|k t rp]; simpl in Hr.
  - by injection Hr as -> ->.
  - by case_bool_decide.
Qed.

Definition get_request (url : string) (params : list (string * string)) : HttpRequest :=
  {| rq_method := "GET"; rq_url := url; rq_params := params; rq_payload := None |}.

Lemma read_body_Ok url params abs w x w' :
  read_body url params abs w = (Ok x, w') ->
  exists st body, answered w w' (get_request url params) st body
    /\ body_of (st, body) abs false = Ok x.
Proof.
  unfold read_body. intros ([st body] & w1 & Ht & Hl)%bind_Ok_inv.
  unfold try_ in Ht. destruct (get_with_retries url params w) as [[a|e] w2] eqn:Hg;
    [|discriminate]. injection Ht as -> ->.
  unfold lift in Hl. injection Hl as Hb <-.
  exists st, body. split; [|done]. by apply (with_retries_Ok _ _ _ _ _ _ _ Hg).
Qed.

Lemma body_of_None st body abs rf : body_of (st, body) abs rf = Ok None ->
  st = 404%Z /\ abs = true.
Proof.
  unfold body_of. destruct (_ || _); [done|].
  destruct ((st =? 404)%Z && abs) eqn:H4; [intros _; apply andb_prop in H4 as [H4 ->]; split; [lia|done]|].
  destruct (rf && _ && _); [done|]. destruct (400 <=? st)%Z; [done|].
  by destruct body as [[]|].
Qed.

Lemma body_of_Some st body abs rf d : body_of (st, body) abs rf = Ok (Some d) ->
  (st < 400)%Z /\ body = Some (JObj d).
Proof.
  unfold body_of. destruct (_ || _); [done|].
  destruct ((st =? 404)%Z && abs) eqn:H4; [done|].
  destruct (rf && _ && _); [done|]. destruct (Z.leb_spec 400 st); [done|].
  destruct body as [[]|]; try done. by intros [= ->].
Qed.

Lemma subscription_from_None raw w w' :
  subscription_from raw w = (Ok None, w') -> raw = JNull.
Proof.
  destruct raw; try done. simpl. intros [Hm|(e & w1 & _ & He)]%try_Ok_inv; [|by destruct e].
  apply bind_Ok_inv in Hm as ([] & w2 & _ & Hm).
  apply bind_Ok_inv in Hm as (s & w3 & _ & Hm). discriminate.
Qed.

Lemma subscription_from_Some raw w s w' :
  subscription_from raw w = (Ok (Some s), w') ->
  exists d, raw = JObj d /\ parse_subscription d = Ok s.
Proof.
  destruct raw; try done. simpl. intros [Hm|(e & w1 & _ & He)]%try_Ok_inv; [|by destruct e].
  apply bind_Ok_inv in Hm as ([] & w2 & _ & Hm).
  apply bind_Ok_inv in Hm as (s' & w3 & Hl & Hm). injection Hm as -> ->.
  unfold lift in Hl. injection Hl as Hp _. eauto.
Qed.

(** Ticks only grow, so an answer inside a run is an answer of the whole. *)
Lemma answered_mono w0 w w' w1 rq st body :
  answered w w' rq st body -> ticks w0 w -> ticks w' w1 -> answered w0 w1 rq st body.
Proof. unfold answered, ticks. intros (n & Hn & Hh) ??. exists n. split; [lia|done]. Qed.

Lemma ticks_report_once k : stable ticks (report_once k).
Proof. intros w. unfold report_once, ticks. destruct (str_in _ _); simpl; lia. Qed.
#[local] Hint Resolve ticks_report_once : stable.

Lemma ticks_subscription_from raw : stable ticks (subscription_from raw).
Proof. unfold subscription_from, report_policy_differences. solve_stable. Qed.
Lemma ticks_require sid ref : stable ticks (require_a_handle sid ref).
Proof. unfold require_a_handle. solve_stable. Qed.
Lemma ticks_request rq : stable ticks (request rq).
Proof. intros w. unfold ticks. simpl. lia. Qed.
#[local] Hint Resolve ticks_subscription_from ticks_require ticks_request : stable.
Lemma ticks_with_retries_from left rq rs b : stable ticks (with_retries_from left rq rs b).
Proof. induction left as [|left IH]; simpl; solve_stable. Qed.
#[local] Hint Resolve ticks_with_retries_from : stable.
Lemma ticks_fetch_subscription sid ref : stable ticks (fetch_subscription sid ref).
Proof.
  unfold fetch_subscription, FlashMock.lookup, read_for, read_body, get_with_retries,
    with_retries. solve_stable.
Qed.

(** A lookup that returns without raising: the request it made, Flash's answer
    to it and the row it read from that answer. *)
Lemma fetch_by_id_inv i ref w x w' :
  flash_mock_enabled settings = false -> i <> "" ->
  fetch_subscription (JStr i) ref w = (Ok x, w') ->
  exists st body, answered w w' (get_request (subscriptions_url [i]) []) st body
    /\ match x with
       | None => st = 404%Z
                 \/ (st < 400)%Z /\ exists b, body = Some (JObj b) /\ dget "subscription" b = JNull
       | Some s => (st < 400)%Z /\ exists b raw, body = Some (JObj b)
                   /\ dget "subscription" b = JObj raw /\ parse_subscription raw = Ok s
       end.
Proof.
  intros Hmock Hi Hrun. unfold fetch_subscription in Hrun. rewrite Hmock in Hrun.
  apply bind_Ok_inv in Hrun as ([] & w1 & H1 & Hrun).
  apply (stable_run _ _ _ _ _ (ticks_require _ _)) in H1.
  apply bind_Ok_inv in Hrun as (body & w2 & Hread & Hrun).
  assert (Ht : py_truthy (JStr i) = true) by (simpl; by apply String.eqb_neq in Hi as ->).
  unfold read_for in Hread. rewrite Ht in *.
  apply read_body_Ok in Hread as (st & raw & Hans & Hbody).
  exists st, raw. destruct body as [b|].
  - apply body_of_Some in Hbody as [Hst ->].
    assert (Hm : ticks w2 w') by (eapply stable_run, Hrun; apply ticks_subscription_from).
    split; [by eapply answered_mono|].
    destruct x as [s|].
    + apply subscription_from_Some in Hrun as (d & Hd & Hp). eauto 6.
    + apply subscription_from_None in Hrun. right. eauto.
  - injection Hrun as <- <-. apply body_of_None in Hbody as [-> _].
    split; [by eapply answered_mono|]. by left.
Qed.

Lemma fetch_by_ref_inv ref w x w' :
  flash_mock_enabled settings = false ->
  fetch_subscription JNull (Some ref) w = (Ok x, w') ->
  exists st b, (st < 400)%Z
    /\ answered w w' (get_request (subscriptions_url []) [("ref", ref)]) st (Some (JObj b))
    /\ match x with
       | None => match dget "subscriptions" b with
                 | JList rows => omap as_obj rows = []
                 | _ => True
                 end
       | Some s => exists rows raw, dget "subscriptions" b = JList rows
                   /\ choose_subscription rows = Ok (JObj raw) /\ parse_subscription raw = Ok s
       end.
Proof.
  intros Hmock Hrun. unfold fetch_subscription in Hrun. rewrite Hmock in Hrun.
  apply bind_Ok_inv in Hrun as ([] & w1 & H1 & Hrun).
  apply (stable_run _ _ _ _ _ (ticks_require _ _)) in H1.
  apply bind_Ok_inv in Hrun as (body & w2 & Hread & Hrun).
  apply read_body_Ok in Hread as (st & raw & Hans & Hbody).
  destruct body as [b|]; [|by apply body_of_None in Hbody as [_ [=]]].
  apply body_of_Some in Hbody as [Hst ->]. exists st, b. split; [done|].
  cbn [py_truthy] in Hrun.
  destruct (dget "subscriptions" b) as [| | | | |[|row rows]|] eqn:Hrows;
    try (injection Hrun as <- <-; split; [eapply answered_mono; [done..|reflexivity]|done]).
  apply bind_Ok_inv in Hrun as (chosen & w3 & Hch & Hrun).
  injection Hch as Hch <-.
  assert (Hm : ticks w2 w') by (eapply stable_run, Hrun; apply ticks_subscription_from).
  split; [by eapply answered_mono|].
  destruct x as [s|].
  - apply subscription_from_Some in Hrun as (d & -> & Hp). eauto.
  - apply subscription_from_None in Hrun as ->.
    by apply choose_subscription_spec in Hch.
Qed.

End answers.

#[export] Hint Resolve ticks_fetch_subscription : stable.
