(* ===== verification/PlanCache.v ===== *)
(** * Flash's plans, cached ([src/app/core/flash_plan_cache.py],
      [src/app/services/flash_catalog_service.py])

    Two Redis entries per service: a short-lived copy and a last-known-good copy
    without expiry.  An entry is the value [json.loads] reads back from the text
    stored ([None] for text that is not JSON) with its deadline; Redis may fail
    at any call. *)

From Stdlib Require Import Ascii String.
From S2P Require Import Prelude Json Time Types Effects Repos FlashMock Flash.
Local Open Scope string_scope.

Definition PLANS_PREFIX := "flash:plans:".
Definition fresh_key (service_id : string) : string := PLANS_PREFIX ++ service_id.
Definition last_good_key (service_id : string) : string := PLANS_PREFIX ++ "lkg:" ++ service_id.

(** A service's rows in Flash's body: [body.get("plans")], objects only. *)
Definition plan_rows (v : json) : list (list (string * json)) :=
  match v with JList raw => omap as_obj raw | _ => [] end.

(** What iterating a decoded entry yields: the objects of an array, nothing of
    a string or an object, and a TypeError of anything else. *)
Definition cached_plans (v : json) : res exn (list FlashPlan) :=
  match v with
  | JList rows => Ok (parse_plan <$> omap as_obj rows)
  | JStr _ | JObj _ => Ok []
  | _ => Raise TypeError
  end.

Section plan_cache.
Context {E : Env}.

(** ** Redis *)

(** A key whose deadline has passed is gone. *)
Definition redis_live (now : Z) (e : option json * option Z) : bool :=
  match e.2 with Some deadline => (now <? deadline)%Z | None => true end.

Definition redis_get (key : string) : M (option (option json)) := fun w =>
  (if redis_fault (tick w) then Raise (OtherException "RedisError")
   else Ok (e ← redis w !! key; if redis_live (clock (tick w)) e then Some e.1 else None),
   with_redis w (redis w)).

(** [ex] in seconds; the server refuses one that is not positive. *)
Definition redis_set (key : string) (v : json) (ex : option Z) : M unit := fun w =>
  if redis_fault (tick w) || match ex with Some s => (s <=? 0)%Z | None => false end
  then (Raise (OtherException "RedisError"), with_redis w (redis w))
  else (Ok tt, with_redis w (<[key := (Some v,
          (fun s => clock (tick w) + s * 1000000)%Z <$> ex)]> (redis w))).

(** ** The cache *)

(** A cache that cannot be read is a miss. *)
Definition load (key : string) : M (option (list FlashPlan)) :=
  stored ← try_ (redis_get key) (fun _ => mret None);
  match stored with
  | None | Some None => mret None
  | Some (Some rows) => l ← lift (cached_plans rows); mret (Some l)
  end.

Definition store (service_id : string) (plans : list (list (string * json))) : M unit :=
  let payload := JList (JObj <$> plans) in
  try_ (_ ← redis_set (fresh_key service_id) payload
              (Some (flash_plans_cache_ttl_seconds settings));
        redis_set (last_good_key service_id) payload None)
       (fun _ => mret tt).

(** [_refresh]: only "we could not ask" falls back on the stored copy. *)
Definition refresh_plans (service_id : string) : M (list FlashPlan) :=
  body ← attempt (fetch_service_plans_raw service_id);
  match body with
  | Raise (FlashUnavailable why) =>
      last_good ← load (last_good_key service_id);
      match last_good with
      | None => raise (FlashUnavailable why)
      | Some plans => mret plans
      end
  | Raise e => raise e
  | Ok b =>
      let plans := plan_rows (dget "plans" b) in
      _ ← store service_id plans;
      mret (parse_plan <$> plans)
  end.

(** One in-flight read per service: the short-lived copy is looked up again once
    the lock is held. *)
Definition read_service_plans (service_id : string) (fresh : bool) : M (list FlashPlan) :=
  if flash_mock_enabled settings then
    rows ← FlashMock.plans_for service_id; mret (parse_plan <$> rows)
  else
  cached ← (if fresh then mret None else load (fresh_key service_id));
  match cached with
  | Some plans => mret plans
  | None =>
      again ← (if fresh then mret None else load (fresh_key service_id));
      match again with
      | Some plans => mret plans
      | None => refresh_plans service_id
      end
  end.

Definition plan_index : Type := list ((string * string) * FlashPlan).

(** One service's contribution; both documented failures cost it alone. *)
Definition add_service_plans (plans : plan_index) (service_id : string) : M plan_index :=
  found ← attempt (read_service_plans service_id false);
  match found with
  | Ok l => mret (foldl (fun acc p => dict_set (service_id, fp_id p) p acc) plans l)
  | Raise (FlashUnavailable _) | Raise (FlashServiceMissing _) => mret plans
  | Raise e => raise e
  end.

(** [sorted(service_ids)] of a set. *)
Definition sorted_ids (service_ids : list string) : list string :=
  stable_sort String.leb (remove_dups service_ids).

Definition read_plans_for_services (service_ids : list string) : M plan_index :=
  fold_each (sorted_ids service_ids) [] (fun plans s =>
    plans' ← add_service_plans plans s; mret (plans', false)).

(** ** The operator's catalogue, read live *)

Definition list_flash_services : M (list FlashService) := fetch_services.

(** Each plan with the id of the mapping that names it, by Flash's order. *)
Definition list_flash_service_plans (service_id : string)
  : M (list (FlashPlan * option Z)) :=
  plans ← read_service_plans service_id true;
  rows ← select_billing_plans_on_db false;
  let mapped := foldl (fun d r => dict_set (bp_service_id r, bp_plan_id r) (bp_id r) d) [] rows in
  mret ((fun p => (p, dict_get (fp_service_id p, fp_id p) mapped)) <$>
        stable_sort (fun a b => (fp_sort_order a <=? fp_sort_order b)%Z) plans).

End plan_cache.
