(* ===== verification/CheckoutUrl.v ===== *)
(** * The checkout link ([_checkout_url] and [checkout_redirect_url] of
      [src/app/services/subscription_view_service.py])

    [urlsplit], [parse_qsl], [urlencode] and [urlunsplit] as the function uses
    them, on Latin-1 text: the link's own query is decoded, our parameter is
    appended, and the query is encoded again, so that a fragment stays behind
    it.  The check of a host name's brackets and normalisation is the oracle
    [netloc_ok]; decoding UTF-8 is the oracle [decode_replace]. *)

From Stdlib Require Import Ascii String.
From S2P Require Import Prelude Json Url Time Types Effects Scenario FlashMock Flash.
Local Open Scope string_scope.

Definition USES_NETLOC : list string :=
  ["ftp"; "http"; "gopher"; "nntp"; "telnet"; "imap"; "wais"; "file"; "mms"; "https";
   "shttp"; "snews"; "prospero"; "rtsp"; "rtspu"; "rsync"; "svn"; "svn+ssh"; "sftp";
   "nfs"; "git"; "git+ssh"; "ws"; "wss"].

Definition str_prefixed (p l : list ascii) : bool := bool_decide (take (length p) l = p).

(** [urlunsplit]. *)
Definition join_head (u : SplitUrl) : list ascii :=
  let path := u_path u in
  let rest :=
    match u_netloc u with
    | _ :: _ =>
        (chars "//" ++ u_netloc u
         ++ match path with [] => [] | c :: _ => if Ascii.eqb c "/" then path else "/"%char :: path
            end)%list
    | [] =>
        if str_prefixed (chars "//") path then (chars "//" ++ path)%list
        else match u_scheme u with
        | [] => path
        | s => if str_in (of_chars s) USES_NETLOC
                  && match path with [] => true | c :: _ => Ascii.eqb c "/" end
               then (chars "//" ++ path)%list else path
        end
    end in
  match u_scheme u with [] => rest | s => (s ++ ":"%char :: rest)%list end.

Definition urlunsplit (u : SplitUrl) : list ascii :=
  (join_head u
   ++ match u_query u with [] => [] | q => "?"%char :: q end
   ++ match u_fragment u with [] => [] | f => "#"%char :: f end)%list.

(** ** Query strings *)

Definition hex_digit_val (c : ascii) : option Z :=
  let n := chr_code c in
  if is_digit c then Some (n - 48)%Z
  else if ((65 <=? n) && (n <=? 70))%Z then Some (n - 55)%Z
  else if ((97 <=? n) && (n <=? 102))%Z then Some (n - 87)%Z
  else None.


(** [unquote_to_bytes] on a run of ASCII: each %XX is a byte. *)
Fixpoint unquote_bytes (l : list ascii) : list ascii :=
  match l with
  | [] => []
  | c :: l' =>
      if Ascii.eqb c "%" then
        match l' with
        | a :: b :: l2 =>
            match hex_digit_val a, hex_digit_val b with
            | Some x, Some y => chr_of (16 * x + y) :: unquote_bytes l2
            | _, _ => c :: unquote_bytes l'
            end
        | _ => c :: unquote_bytes l'
        end
      else c :: unquote_bytes l'
  end.

Definition is_ascii_chr (c : ascii) : bool := (chr_code c <? 128)%Z.

(** Pairs in the order of the string, blank values kept. *)
Definition parse_pair (unquote : list ascii -> string) (segment : list ascii)
  : option (string * string) :=
  match segment with
  | [] => None
  | _ =>
      let '(k, v) := split_once "=" segment in
      let plus := fmap (fun c : ascii => if Ascii.eqb c "+" then " "%char else c) in
      Some (unquote (plus k), unquote (plus v))
  end.

(** [urlencode(pairs, quote_via=quote)]. *)
Definition encode_pair (kv : string * string) : list ascii :=
  (chars (quote kv.1) ++ "="%char :: chars (quote kv.2))%list.

Fixpoint urlencode (pairs : list (string * string)) : list ascii :=
  match pairs with
  | [] => []
  | [kv] => encode_pair kv
  | kv :: rest => (encode_pair kv ++ "&"%char :: urlencode rest)%list
  end.

Section checkout.
Context {E : Env}.

(** Runs of ASCII are unquoted and decoded; what is not ASCII stays. *)
Definition decode_run (run : list ascii) : list ascii :=
  match run with
  | [] => []
  | _ => chars (decode_replace (of_chars (unquote_bytes (reverse run))))
  end.

Fixpoint unquote_runs (run l : list ascii) : list ascii :=
  match l with
  | [] => decode_run run
  | c :: l' =>
      if is_ascii_chr c then unquote_runs (c :: run) l'
      else (decode_run run ++ c :: unquote_runs [] l')%list
  end.

Definition unquote (l : list ascii) : string :=
  of_chars (if existsb (Ascii.eqb "%") l then unquote_runs [] l else l).

Definition parse_qsl (query : list ascii) : list (string * string) :=
  match query with
  | [] => []
  | _ => omap (parse_pair unquote) (split_chars "&" query)
  end.

(** [urlsplit], which raises ValueError on a host it cannot read. *)
Definition urlsplit (url : list ascii) : res exn SplitUrl :=
  let u := split_parts url in
  if netloc_ok (of_chars (u_netloc u)) then Ok u else Raise (OtherException "ValueError").

Definition checkout_redirect_url : string :=
  if negb (String.eqb (flash_checkout_redirect_url settings) "")
  then flash_checkout_redirect_url settings
  else py_rstrip_chr "/" (frontend_url settings) ++ "/billing/return".

Definition checkout_url (signup_url : string) : res exn string :=
  u ← urlsplit (chars signup_url);
  let query := (parse_qsl (u_query u) ++ [("redirect_uri", checkout_redirect_url)])%list in
  Ok (of_chars (urlunsplit {| u_scheme := u_scheme u; u_netloc := u_netloc u;
                              u_path := u_path u; u_query := urlencode query;
                              u_fragment := u_fragment u |})).

End checkout.

(** ** Lemmas: quoting and unquoting *)

(** The characters a quoted string is made of. *)
Definition quoted_chr (c : ascii) : bool := unreserved c || Ascii.eqb c "%".

Ltac every_chr c := destruct c as [[] [] [] [] [] [] [] []]; reflexivity.

Lemma unquote_quote_chr c r :
  unquote_bytes (quote_chr c ++ r) = (utf8_chr c ++ unquote_bytes r)%list.
Proof. every_chr c. Qed.

Lemma quote_chr_quoted c : forallb quoted_chr (quote_chr c) = true.
Proof. every_chr c. Qed.

Lemma quote_chr_plain c : existsb (Ascii.eqb "%") (quote_chr c) = false -> quote_chr c = [c].
Proof. destruct c as [[] [] [] [] [] [] [] []]; (reflexivity || discriminate). Qed.

(** A quoted character is none of the separators. *)
Lemma quoted_chr_ascii c : quoted_chr c = true -> is_ascii_chr c = true.
Proof. destruct c as [[] [] [] [] [] [] [] []]; (reflexivity || discriminate). Qed.

Lemma quoted_chr_ne c sep : quoted_chr c = true -> quoted_chr sep = false -> Ascii.eqb c sep = false.
Proof. intros Hc Hs. apply Ascii.eqb_neq. intros ->. congruence. Qed.

Lemma mjoin_cons {A B} (f : A -> list B) x l :
  mjoin (f <$> x :: l) = (f x ++ mjoin (f <$> l))%list.
Proof. done. Qed.

Lemma forallb_mjoin {A B} (f : A -> list B) (p : B -> bool) l :
  (forall x, forallb p (f x) = true) -> forallb p (mjoin (f <$> l)) = true.
Proof. intros Hf. induction l as [|x l IH]; [done|]. by rewrite mjoin_cons, forallb_app, Hf. Qed.

Lemma quote_quoted s : forallb quoted_chr (chars (quote s)) = true.
Proof. unfold quote. rewrite chars_of_chars. apply forallb_mjoin, quote_chr_quoted. Qed.

Lemma quoted_free l sep : forallb quoted_chr l = true -> quoted_chr sep = false -> free_of sep l.
Proof.
  intros Hl Hs. unfold free_of. rewrite forallb_forall in *. intros c Hc.
  by rewrite (quoted_chr_ne c sep (Hl c Hc) Hs).
Qed.

Lemma quote_plain s : existsb (Ascii.eqb "%") (chars (quote s)) = false -> quote s = s.
Proof.
  unfold quote. rewrite chars_of_chars. intros Hp. rewrite <- (of_chars_chars s) at 2. f_equal.
  induction (chars s) as [|c l IH]; [done|]. rewrite mjoin_cons in *.
  rewrite existsb_app in Hp. apply orb_false_iff in Hp as [Hc Hl].
  by rewrite (quote_chr_plain c Hc), (IH Hl).
Qed.

Lemma unquote_bytes_quote s : unquote_bytes (chars (quote s)) = chars (utf8 s).
Proof.
  unfold quote, utf8. rewrite !chars_of_chars.
  induction (chars s) as [|c l IH]; [done|].
  by rewrite !mjoin_cons, unquote_quote_chr, IH.
Qed.

Section round_trip.
Context {E : Env}.

(** The documented behaviour of [bytes.decode("utf-8", errors="replace")] on
    bytes that are valid UTF-8. *)
Context (decodes_utf8 : forall s, decode_replace (utf8 s) = s).

Lemma unquote_runs_ascii run l : forallb is_ascii_chr l = true ->
  unquote_runs run l = decode_run (reverse l ++ run).
Proof.
  revert run. induction l as [|c l IH]; intros run; simpl; [done|].
  intros [Hc Hl]%andb_true_iff. rewrite Hc, IH by done.
  by rewrite reverse_cons, <- app_assoc.
Qed.

Lemma unquote_quote s : unquote (chars (quote s)) = s.
Proof using decodes_utf8.
  unfold unquote. destruct (existsb _ _) eqn:Hp.
  - rewrite unquote_runs_ascii, app_nil_r.
    + unfold decode_run. rewrite reverse_involutive, unquote_bytes_quote, !of_chars_chars,
        decodes_utf8.
      destruct (reverse _) as [|c l] eqn:Hr; [|by rewrite of_chars_chars].
      apply (f_equal reverse) in Hr. rewrite reverse_involutive in Hr. by rewrite Hr in Hp.
    + apply forallb_forall. intros c Hc. apply quoted_chr_ascii.
      by apply (proj1 (forallb_forall _ _) (quote_quoted s)).
  - by rewrite of_chars_chars, quote_plain.
Qed.

Lemma plus_quote s :
  (fun c : ascii => if Ascii.eqb c "+" then " "%char else c) <$> chars (quote s) = chars (quote s).
Proof.
  pose proof (quote_quoted s) as Hq. induction (chars (quote s)) as [|c l IH]; [done|].
  simpl in Hq. apply andb_true_iff in Hq as [Hc Hl]. rewrite fmap_cons, (IH Hl).
  by rewrite (quoted_chr_ne c "+" Hc eq_refl).
Qed.

Lemma parse_encode_pair kv : parse_pair unquote (encode_pair kv) = Some kv.
Proof using decodes_utf8.
  destruct kv as [k v]. unfold parse_pair, encode_pair, split_once. simpl.
  destruct (chars (quote k) ++ _)%list eqn:Hnil; [by destruct (chars (quote k))|].
  rewrite <- Hnil, partition_chars_app by (apply quoted_free; [apply quote_quoted|done]).
  rewrite !plus_quote. by rewrite !unquote_quote.
Qed.

Lemma encode_pair_free kv sep : quoted_chr sep = false -> Ascii.eqb "=" sep = false ->
  free_of sep (encode_pair kv).
Proof.
  intros Hs He. unfold encode_pair. apply free_of_app. split.
  - apply quoted_free; [apply quote_quoted|done].
  - apply free_of_cons. split; [done|]. apply quoted_free; [apply quote_quoted|done].
Qed.

(** Encoding a query and reading it back. *)
Lemma parse_qsl_urlencode pairs : parse_qsl (urlencode pairs) = pairs.
Proof using decodes_utf8.
  assert (Hne : forall kv (l : list ascii), exists c r, (encode_pair kv ++ l)%list = c :: r).
  { intros [k v] l. unfold encode_pair. simpl. destruct (chars (quote k)); simpl; eauto. }
  assert (Hsplit : forall kv rest, omap (parse_pair unquote)
            (split_chars "&" (urlencode (kv :: rest))) = kv :: rest).
  { intros kv rest. revert kv. induction rest as [|kv' rest IH]; intros kv; simpl urlencode.
    - rewrite split_chars_free by by apply encode_pair_free. simpl.
      by rewrite parse_encode_pair.
    - rewrite split_chars_app by by apply encode_pair_free. simpl omap.
      rewrite parse_encode_pair. f_equal. apply IH. }
  destruct pairs as [|kv rest]; [done|]. rewrite <- (Hsplit kv rest) at 2. unfold parse_qsl.
  destruct (urlencode (kv :: rest)) as [|c r] eqn:Hu; [|done]. exfalso.
  destruct rest as [|kv' rest]; simpl in Hu.
  - destruct (Hne kv []) as (c & r & Hc). by rewrite app_nil_r, Hu in Hc.
  - destruct (Hne kv ("&"%char :: urlencode (kv' :: rest))) as (c & r & Hc).
    simpl in Hc. by rewrite Hu in Hc.
Qed.

End round_trip.

(** ** Lemmas: taking a rebuilt link apart again *)

(** Characters of the part before the query: not one [urlsplit] removes or
    splits at. *)
Definition kept_chr (c : ascii) : bool := negb (existsb (Z.eqb (chr_code c)) [9; 10; 13]%Z).
Definition head_chr (c : ascii) : bool :=
  kept_chr c && negb (Ascii.eqb c "#") && negb (Ascii.eqb c "?").

Lemma lower_head_chr c : head_chr c = true -> head_chr (lower c) = true.
Proof. destruct c as [[] [] [] [] [] [] [] []]; (reflexivity || discriminate). Qed.

Lemma scheme_chr_leads c : scheme_chr c = true -> (32 <? chr_code (lower c))%Z = true.
Proof. destruct c as [[] [] [] [] [] [] [] []]; (reflexivity || discriminate). Qed.

Lemma quoted_head_chr c : quoted_chr c = true -> head_chr c = true.
Proof. destruct c as [[] [] [] [] [] [] [] []]; (reflexivity || discriminate). Qed.

Lemma forallb_impl {A} (p q : A -> bool) l :
  (forall x, p x = true -> q x = true) -> forallb p l = true -> forallb q l = true.
Proof. rewrite !forallb_forall. eauto. Qed.

Lemma head_free l : forallb head_chr l = true -> free_of "#" l /\ free_of "?" l.
Proof.
  intros Hl. split; unfold free_of; (eapply forallb_impl; [|exact Hl]); intros c;
    unfold head_chr; rewrite !andb_true_iff; tauto.
Qed.

(** A list [urlsplit] does not shorten. *)
Lemma clean_url_id l : forallb kept_chr l = true ->
  match l with [] => true | c :: _ => (32 <? chr_code c)%Z end = true -> clean_url l = l.
Proof.
  intros Hk Hl. unfold clean_url.
  assert (Hd : drop_while (fun c => (chr_code c <=? 32)%Z) l = l).
  { destruct l as [|c l]; [done|]. simpl.
    by destruct (Z.ltb_spec 32 (chr_code c)), (Z.leb_spec (chr_code c) 32); try lia. }
  rewrite Hd. clear Hd Hl. induction l as [|c l IH]; [done|].
  simpl in Hk. apply andb_true_iff in Hk as [Hc Hl]. rewrite filter_cons_True by done.
  by rewrite IH.
Qed.

Lemma clean_url_kept l : forallb kept_chr (clean_url l) = true.
Proof.
  apply forallb_forall. intros c Hc%list_elem_of_In.
  by apply list_elem_of_filter in Hc as [Hc _].
Qed.

Lemma clean_url_leads l c r : clean_url l = c :: r -> (32 <? chr_code c)%Z = true.
Proof.
  unfold clean_url. assert (Hd : match drop_while (fun c => (chr_code c <=? 32)%Z) l with
    | [] => True | c :: _ => (32 < chr_code c)%Z end).
  { induction l as [|x l IH]; [done|]. simpl. destruct (Z.leb_spec (chr_code x) 32); [done|lia]. }
  destruct (drop_while _ l) as [|x l']; [done|]. rewrite filter_cons_True; [|].
  - intros [= <- _]. by apply Z.ltb_lt.
  - simpl. destruct (Z.eqb_spec (chr_code x) 9), (Z.eqb_spec (chr_code x) 10),
      (Z.eqb_spec (chr_code x) 13); try lia; done.
Qed.

Lemma split_once_forallb p sep l a b : split_once sep l = (a, b) ->
  forallb p l = true -> forallb p a = true /\ forallb p b = true.
Proof.
  unfold split_once. destruct (partition_chars sep l) as [[a' b']|] eqn:Hp; intros [= <- <-].
  - apply partition_chars_Some in Hp as [-> _]. rewrite forallb_app. simpl.
    rewrite !andb_true_iff. tauto.
  - done.
Qed.

Lemma split_once_free sep l a b : split_once sep l = (a, b) -> free_of sep a.
Proof.
  unfold split_once. destruct (partition_chars sep l) as [[a' b']|] eqn:Hp; intros [= <- <-].
  - by apply partition_chars_Some in Hp as [_ ?].
  - by apply partition_chars_None.
Qed.

Lemma split_once_head sep l a b c r :
  split_once sep l = (a, b) -> a = c :: r -> exists r', l = c :: r'.
Proof.
  unfold split_once. destruct (partition_chars sep l) as [[a' b']|] eqn:Hp; intros [= <- <-] ->.
  - apply partition_chars_Some in Hp as [-> _]. simpl. eauto.
  - eauto.
Qed.

Lemma split_once_app sep a b : free_of sep a -> split_once sep (a ++ sep :: b) = (a, b).
Proof. intros Ha. unfold split_once. by rewrite partition_chars_app. Qed.

Lemma split_once_none sep a : free_of sep a -> split_once sep a = (a, []).
Proof. intros Ha. unfold split_once. by rewrite partition_chars_free. Qed.

Lemma split_scheme_chars l s r : split_scheme l = (s, r) -> forallb head_chr l = true ->
  forallb head_chr s = true /\ forallb head_chr r = true.
Proof.
  unfold split_scheme. destruct (partition_chars ":" l) as [[[|c a] b]|] eqn:Hp;
    intros Hs Hl; try (by injection Hs as <- <-).
  destruct (is_alpha c && _); injection Hs as <- <-; [|done].
  apply partition_chars_Some in Hp as [-> _]. rewrite forallb_app in Hl.
  apply andb_true_iff in Hl as [Ha Hb]. split.
  - rewrite forallb_forall in *. intros x Hx%list_elem_of_In.
    apply (list_elem_of_fmap lower (c :: a)) in Hx as (y & -> & Hy%list_elem_of_In).
    by apply lower_head_chr, Ha.
  - exact Hb.
Qed.

Lemma until_slash_app l a b : until_slash l = (a, b) -> l = (a ++ b)%list.
Proof.
  revert a b. induction l as [|c l IH]; intros a b; simpl; [by intros [= <- <-]|].
  destruct (Ascii.eqb c "/"); [by intros [= <- <-]|].
  destruct (until_slash l) as [a' b']. intros [= <- <-]. simpl. f_equal. by apply IH.
Qed.

Lemma until_slash_empty l c b : until_slash l = ([], c :: b) -> c = "/"%char.
Proof.
  destruct l as [|x l]; simpl; [done|]. destruct (Ascii.eqb_spec x "/") as [->|_].
  - by intros [= <- _].
  - by destruct (until_slash l).
Qed.

Lemma split_netloc_chars p l n r : split_netloc l = (n, r) -> forallb p l = true ->
  forallb p n = true /\ forallb p r = true.
Proof.
  unfold split_netloc. intros Hs Hl. destruct l as [|c1 [|c2 l]]; try (by injection Hs as <- <-).
  destruct (_ && _); [|by injection Hs as <- <-]. apply until_slash_app in Hs as ->.
  simpl in Hl. rewrite forallb_app, !andb_true_iff in Hl. tauto.
Qed.

Lemma join_head_chars u :
  forallb head_chr (u_scheme u) = true -> forallb head_chr (u_netloc u) = true ->
  forallb head_chr (u_path u) = true -> forallb head_chr (join_head u) = true.
Proof.
  destruct u as [s n p q f]. simpl. intros Hs Hn Hp. unfold join_head.
  cbn [u_scheme u_netloc u_path].
  assert (Hsep : forall l, forallb head_chr (chars "//" ++ l) = forallb head_chr l) by done.
  set (rest := match n with [] => _ | _ => _ end).
  assert (Hr : forallb head_chr rest = true).
  { subst rest. destruct n as [|n0 n'].
    - destruct (str_prefixed _ _); [by rewrite Hsep|]. destruct s; [done|].
      destruct (_ && _); [by rewrite Hsep|done].
    - rewrite Hsep, forallb_app, Hn. destruct p as [|c p']; [done|]. by destruct (Ascii.eqb c "/"). }
  destruct s as [|c s]; [done|]. by rewrite forallb_app, Hs.
Qed.

(** The first character of a rebuilt head. *)
Lemma join_head_leads l s r n p :
  split_scheme l = (s, r) -> split_netloc r = (n, p) ->
  (forall c l', l = c :: l' -> (32 <? chr_code c)%Z = true) ->
  forall q f c j, join_head {| u_scheme := s; u_netloc := n; u_path := p; u_query := q;
                               u_fragment := f |} = c :: j -> (32 <? chr_code c)%Z = true.
Proof.
  intros Hs Hn Hl q f c j. unfold join_head. simpl. destruct s as [|c0 s].
  - assert (r = l) as ->.
    { unfold split_scheme in Hs. destruct (partition_chars ":" l) as [[[|x a] b]|];
        try (by injection Hs). destruct (_ && _); by injection Hs. }
    destruct n as [|n0 n]; [|by intros [= <- _]].
    destruct (str_prefixed _ _); [by intros [= <- _]|]. intros ->.
    unfold split_netloc in Hn. destruct l as [|a [|b l]]; try (by simplify_eq).
    + injection Hn as <- <-. by eapply Hl.
    + destruct (_ && _) eqn:Hab; [|injection Hn as <- <-; by eapply Hl].
      by apply until_slash_empty in Hn as ->.
  - intros [= <- _]. unfold split_scheme in Hs.
    destruct (partition_chars ":" l) as [[[|x a] b]|]; try (by injection Hs).
    destruct (is_alpha x && forallb scheme_chr (x :: a)) eqn:Hx; [|by injection Hs].
    injection Hs as <- _ _. apply scheme_chr_leads. simpl in Hx. rewrite !andb_true_iff in Hx.
    tauto.
Qed.

Lemma encode_pair_chars kv :
  forallb (fun c => quoted_chr c || Ascii.eqb c "=" || Ascii.eqb c "&") (encode_pair kv) = true.
Proof.
  unfold encode_pair. rewrite forallb_app. simpl.
  assert (Hq : forall s, forallb (fun c => quoted_chr c || Ascii.eqb c "=" || Ascii.eqb c "&")
                 (chars (quote s)) = true).
  { intros s. eapply forallb_impl; [|apply quote_quoted]. by intros c ->. }
  by rewrite !Hq.
Qed.

Lemma urlencode_head pairs : forallb head_chr (urlencode pairs) = true.
Proof.
  eapply forallb_impl with (p := fun c => quoted_chr c || Ascii.eqb c "=" || Ascii.eqb c "&").
  - intros c [[H| ->%Ascii.eqb_eq]%orb_true_iff| ->%Ascii.eqb_eq]%orb_true_iff; try done.
    by apply quoted_head_chr.
  - induction pairs as [|kv [|kv' rest] IH]; [done|apply encode_pair_chars|].
    change (urlencode (kv :: kv' :: rest))
      with (encode_pair kv ++ "&"%char :: urlencode (kv' :: rest))%list.
    rewrite forallb_app, encode_pair_chars. exact IH.
Qed.

(** What is known of the parts of a link. *)
Lemma split_parts_ok url : let u := split_parts url in
  forallb head_chr (join_head u) = true /\ forallb kept_chr (u_fragment u) = true
  /\ forall c j, join_head u = c :: j -> (32 <? chr_code c)%Z = true.
Proof.
  unfold split_parts.
  destruct (split_once "#" (clean_url url)) as [before frag] eqn:Hf.
  destruct (split_once "?" before) as [head query] eqn:Hh.
  destruct (split_scheme head) as [s r] eqn:Hs. destruct (split_netloc r) as [n p] eqn:Hn.
  destruct (split_once_forallb _ _ _ _ _ Hf (clean_url_kept url)) as [Hkb Hkf].
  destruct (split_once_forallb _ _ _ _ _ Hh Hkb) as [Hkh _].
  destruct (split_once_forallb (fun c => negb (Ascii.eqb c "#")) _ _ _ _ Hh
    (split_once_free _ _ _ _ Hf)) as [Hhash _].
  pose proof (split_once_free _ _ _ _ Hh) as Hquest.
  assert (Hhead : forallb head_chr head = true).
  { unfold free_of in Hquest. rewrite forallb_forall in *. intros c Hc. unfold head_chr.
    by rewrite (Hkh c Hc), (Hhash c Hc), (Hquest c Hc). }
  destruct (split_scheme_chars _ _ _ Hs Hhead) as [Hcs Hcr].
  destruct (split_netloc_chars _ _ _ _ Hn Hcr) as [Hcn Hcp].
  split_and!; [by apply join_head_chars|done|].
  apply (join_head_leads head s r n p Hs Hn).
  intros c' l' ->. destruct (split_once_head _ _ _ _ _ _ Hh eq_refl) as [r1 ->].
  destruct (split_once_head _ _ _ _ _ _ Hf eq_refl) as [r2 Hr2].
  by eapply clean_url_leads.
Qed.

Lemma head_kept l : forallb head_chr l = true -> forallb kept_chr l = true.
Proof. apply forallb_impl. intros c. unfold head_chr. rewrite !andb_true_iff. tauto. Qed.

Definition with_hash (f : list ascii) : list ascii :=
  match f with [] => [] | _ => "#"%char :: f end.

(** A head, a query and a fragment put together, and taken apart again. *)
Lemma split_parts_joined h q f :
  forallb head_chr h = true -> (forall c j, h = c :: j -> (32 <? chr_code c)%Z = true) ->
  forallb head_chr q = true -> forallb kept_chr f = true ->
  let v := split_parts (h ++ ("?"%char :: q) ++ with_hash f) in
  u_query v = q /\ u_fragment v = f.
Proof.
  intros Hh Hlead Hq Hf. unfold split_parts. rewrite clean_url_id.
  - assert (Hsplit : split_once "#" (h ++ ("?"%char :: q) ++ with_hash f)
      = ((h ++ "?"%char :: q)%list, f)).
    { assert (Hfront : free_of "#" (h ++ "?"%char :: q)).
      { apply free_of_app. split; [by apply head_free|]. apply free_of_cons.
        split; [done|by apply head_free]. }
      destruct f as [|f0 f1]; simpl with_hash.
      - rewrite app_nil_r. by apply split_once_none.
      - rewrite (app_assoc h). by apply split_once_app. }
    rewrite Hsplit, split_once_app by by apply head_free.
    by destruct (split_scheme _) as [? r'], (split_netloc r').
  - rewrite !forallb_app, (head_kept h Hh).
    change (forallb kept_chr ("?"%char :: q)) with (forallb kept_chr q).
    rewrite (head_kept q Hq). by destruct f.
  - destruct h as [|c j]; [done|]. by apply (Hlead c j).
Qed.

(** Putting another query into a link and splitting the result: the query and
    the fragment are where they were put. *)
Lemma split_rebuilt url q :
  q <> [] -> forallb head_chr q = true ->
  let u := split_parts url in
  let v := split_parts (urlunsplit {| u_scheme := u_scheme u; u_netloc := u_netloc u;
             u_path := u_path u; u_query := q; u_fragment := u_fragment u |}) in
  u_query v = q /\ u_fragment v = u_fragment u.
Proof.
  intros Hne Hq. destruct (split_parts_ok url) as (Hj & Hf & Hl). intros u v.
  assert (Hv : v = split_parts (join_head u ++ ("?"%char :: q) ++ with_hash (u_fragment u))).
  { subst v. unfold urlunsplit. destruct q as [|q0 q1]; [done|].
    subst u. by destruct (split_parts url) as [? ? ? ? []]. }
  rewrite Hv. by apply split_parts_joined.
Qed.

Section checkout_link.
Context {E : Env}.

(** The checkout link keeps everything Flash put in it and carries our
    return address where Flash reads it.  Reading the query of the link we
    serve gives the pairs of Flash's own query, in order, then [redirect_uri]
    with our address to the character; the fragment is the one Flash sent, so
    the parameter can never land behind it. *)
Theorem checkout_url_carries_redirect (signup_url url : string) :
  (forall s, decode_replace (utf8 s) = s) ->
  checkout_url signup_url = Ok url ->
  parse_qsl (u_query (split_parts (chars url)))
    = (parse_qsl (u_query (split_parts (chars signup_url)))
       ++ [("redirect_uri", checkout_redirect_url)])%list
  /\ u_fragment (split_parts (chars url)) = u_fragment (split_parts (chars signup_url)).
Proof.
  intros Hutf8 Hurl. unfold checkout_url, urlsplit in Hurl. destruct (netloc_ok _); [|done].
  cbn [mbind res_mbind] in Hurl. injection Hurl as <-. rewrite chars_of_chars.
  set (pairs := (_ ++ _)%list).
  destruct (split_rebuilt (chars signup_url) (urlencode pairs)) as [Hq Hf].
  - intros Hnil. pose proof (parse_qsl_urlencode Hutf8 pairs) as Hp. rewrite Hnil in Hp.
    subst pairs. by destruct (parse_qsl (u_query _)).
  - apply urlencode_head.
  - rewrite Hq, Hf. split; [|done]. by apply parse_qsl_urlencode.
Qed.

End checkout_link.

(** ** Witness: a signup link with a query of its own and a fragment *)

Lemma scenario_decodes_utf8 l :
  Scenario.utf8_decode (mjoin (utf8_chr <$> l)) = l.
Proof.
  induction l as [|c l IH]; [done|]. rewrite mjoin_cons.
  assert (Hone : forall r, Scenario.utf8_decode (utf8_chr c ++ r) = c :: Scenario.utf8_decode r).
  { intros r. destruct r; every_chr c. }
  by rewrite Hone, IH.
Qed.

Definition demo_link : string := "https://flash.test/s/gold?plan=a%20b&x#top".

Lemma checkout_url_carries_redirect_witness :
  let E := Scenario.unreachable true in
  exists url, checkout_url demo_link = Ok url
    /\ parse_qsl (u_query (split_parts (chars url)))
       = [("plan", "a b"); ("x", ""); ("redirect_uri", "https://app.test/billing/return")]
    /\ u_fragment (split_parts (chars url)) = chars "top".
Proof.
  assert (Hutf8 : forall s, decode_replace (Env := Scenario.unreachable true) (utf8 s) = s).
  { intros s. change (of_chars (Scenario.utf8_decode (chars (utf8 s))) = s).
    unfold utf8. rewrite chars_of_chars, scenario_decodes_utf8. apply of_chars_chars. }
  eexists. split; [vm_compute; reflexivity|].
  exact (checkout_url_carries_redirect (E := Scenario.unreachable true) demo_link _ Hutf8
    ltac:(vm_compute; reflexivity)).
Defined.
