(* ===== verification/FlashProps.v ===== *)
(** * What reading and writing Flash guarantees

    The retry loops, what "no such subscription" rests on, which of several
    subscriptions counts, how Flash's dates are read, and that the in-process
    mock answers as Flash would. *)

From Stdlib Require Import Ascii String.
From S2P Require Import Prelude Json Time Types Effects Scenario FlashMock Flash.
Local Open Scope string_scope.

Section requests.
Context {E : Env}.

(** A change Flash may have received is not sent twice.  A write goes out
    at most four times, always the same request, and it is repeated only while
    every earlier attempt failed before a connection carried it; whatever
    happens on the wire after that — a lost answer, a 5xx — ends the loop. *)
Theorem writes_not_repeated method url payload w r w' :
  send_with_retries method url payload w = (r, w') ->
  let rq := {| rq_method := method; rq_url := url; rq_params := []; rq_payload := Some payload |} in
  exists n, (n <= 3)%nat /\ sent w' = (sent w ++ replicate (S n) rq)%list
    /\ (forall i, (i < n)%nat -> exists kind text repr,
          http (tick w + i) rq = Failure kind text repr
          /\ (kind = ConnectTimeout \/ kind = ConnectError \/ kind = PoolTimeout)).
Proof.
  intros (n & Hn & Hs & _ & Hrep & _)%with_retries_from_spec. exists n. split_and!; [done..|].
  intros i Hi. specialize (Hrep i Hi). unfold repeatable in Hrep.
  destruct (http _ _) as [st body|kind text repr]; [done|].
  exists kind, text, repr. split; [done|]. apply bool_decide_eq_true in Hrep.
  unfold WRITE_RETRYABLE in Hrep. set_solver.
Qed.

(** A read asks at most four times and reports the last answer.  It repeats
    the same request only after a transport failure or a 5xx, stops at the first
    answer below 500, and what it returns or raises is decided by the attempt it
    stopped at. *)
Theorem reads_bounded url params w r w' :
  get_with_retries url params w = (r, w') ->
  let rq := {| rq_method := "GET"; rq_url := url; rq_params := params; rq_payload := None |} in
  exists n, (n <= 3)%nat /\ sent w' = (sent w ++ replicate (S n) rq)%list
    /\ (forall i st body, (i < n)%nat -> http (tick w + i) rq = Response st body -> (500 <= st)%Z)
    /\ match http (tick w + n) rq with
       | Response st body => r = Ok (st, body)
       | Failure kind text repr => exists e, r = Raise e
       end.
Proof.
  intros (n & Hn & Hs & _ & Hrep & Hr & _)%with_retries_from_spec. exists n. split_and!; [done..| |].
  - intros i st body Hi Hh. specialize (Hrep i Hi). rewrite Hh in Hrep. simpl in Hrep.
    by apply Z.leb_le in Hrep.
  - rewrite Hr. destruct (http _ _) as [st body|kind text repr]; simpl; [done|].
    case_bool_decide; eauto.
Qed.

(** Absence is a fact, not a failure.  A lookup that returns nothing rests
    on an answer Flash gave during it: by id, a 404 or a body saying null; by
    reference, a successful answer that names no subscription.  No outage, no
    refused credential and no unreadable body reads as "no subscription". *)
Theorem absence_is_flash_word i ref w w' :
  flash_mock_enabled settings = false -> i <> "" ->
  (fetch_subscription (JStr i) ref w = (Ok None, w') ->
   exists st body, answered w w' (get_request (subscriptions_url [i]) []) st body
     /\ (st = 404%Z \/ (st < 400)%Z /\ exists b, body = Some (JObj b) /\ dget "subscription" b = JNull))
  /\ (fetch_subscription JNull (Some i) w = (Ok None, w') ->
      exists st b, (st < 400)%Z
        /\ answered w w' (get_request (subscriptions_url []) [("ref", i)]) st (Some (JObj b))
        /\ forall rows row, dget "subscriptions" b = JList rows -> JObj row ∉ rows).
Proof.
  intros Hm Hi. split.
  - intros Hrun. by apply fetch_by_id_inv in Hrun.
  - intros (st & b & Hst & Ha & Hx)%fetch_by_ref_inv; [|done]. exists st, b. split_and!; [done..|].
    intros rows row Hrows. rewrite Hrows in Hx. intros Hin%elem_of_rows. rewrite Hx in Hin.
    set_solver.
Qed.

(** The subscription that counts.  Of the rows Flash holds for a reference,
    a lookup returns one that entitles whenever any does, and none of the same
    standing runs longer. *)
Theorem lookup_prefers_entitling ref w s w' :
  flash_mock_enabled settings = false ->
  fetch_subscription JNull (Some ref) w = (Ok (Some s), w') ->
  exists st b rows raw,
    answered w w' (get_request (subscriptions_url []) [("ref", ref)]) st (Some (JObj b))
    /\ dget "subscriptions" b = JList rows /\ JObj raw ∈ rows /\ parse_subscription raw = Ok s
    /\ ((exists r, JObj r ∈ rows /\ row_entitles r = Ok true) -> row_entitles raw = Ok true)
    /\ forall r, JObj r ∈ rows -> row_entitles r = row_entitles raw ->
         exists kr k, runs_until r = Ok kr /\ runs_until raw = Ok k /\ (kr <= k)%Z.
Proof.
  intros Hm (st & b & _ & Ha & rows & raw & Hrows & Hch & Hp)%fetch_by_ref_inv; [|done].
  apply choose_subscription_spec in Hch as (Hin & Hent & Hlong).
  exists st, b, rows, raw. by split_and!.
Qed.

End requests.

(** ** Dates *)

(** A deadline given as a date runs to the end of that day, and an instant
    is read back as it was written: a period ending on a date is not over while
    that day lasts, a start on it means its first moment, and a timestamp with a
    time of day gains nothing either way. *)
Theorem deadlines_run_to_end_of_day y m d t deadline :
  (valid_ymd y m d = true ->
   (0 <= (ymd2ord y m d - 1) * us_per_day <= datetime_max)%Z ->
   parse_flash_timestamp (JStr (of_chars (iso_date y m d))) deadline
   = Ok (Some ((ymd2ord y m d - 1) * us_per_day + (if deadline then us_per_day - 1 else 0))%Z))
  /\ (valid_datetime t -> (t mod 1000 = 0)%Z ->
      parse_flash_timestamp (JStr (of_chars (isoformat_ms t ++ ["Z"%char]))) deadline = Ok (Some t)).
Proof.
  split.
  - intros Hv Hr. rewrite parse_bare_date by done. do 2 f_equal. destruct deadline; lia.
  - intros Ht Hms. rewrite parse_iso_ms by done. do 2 f_equal. div_lia.
Qed.

(** ** The mock's rows are Flash's *)

(** What the mock can hold without loss: instants to the millisecond, a link
    that is not blank, an amount of minor units. *)
Definition ms_instant (t : option Z) : Prop :=
  match t with Some v => valid_datetime v /\ (v mod 1000 = 0)%Z | None => True end.

Definition plain_text (s : option string) : Prop := text_of (FlashMock.opt_str s) = s.

Record representable (s : FlashSubscription) : Prop := {
  rp_period_start : ms_instant (fs_current_period_start s);
  rp_period_end : ms_instant (fs_current_period_end s);
  rp_next_billing : ms_instant (fs_next_billing_date s);
  rp_trial_end : ms_instant (fs_trial_end_date s);
  rp_cancel : ms_instant (fs_cancel_effective_date s);
  rp_portal : plain_text (fs_portal_url s);
  rp_pricing : forall p, fs_pricing s = Some p ->
    (forall a, pr_amount_minor p = Some a -> (0 <= a < 10 ^ 18)%Z)
    /\ plain_text (pr_currency p) /\ plain_text (pr_billing_interval p);
  rp_policy : fs_policy s = UNKNOWN_LIFECYCLE_POLICY;
}.

Lemma parse_iso t deadline : ms_instant t -> parse_flash_timestamp (FlashMock.iso t) deadline = Ok t.
Proof.
  destruct t as [v|]; [|done]. intros [Hv Hms]. unfold FlashMock.iso.
  rewrite parse_iso_ms by done. do 2 f_equal. div_lia.
Qed.

Lemma parse_pricing_snapshot p :
  (forall q, p = Some q -> (forall a, pr_amount_minor q = Some a -> (0 <= a < 10 ^ 18)%Z)
     /\ plain_text (pr_currency q) /\ plain_text (pr_billing_interval q)) ->
  parse_pricing (FlashMock.as_pricing_snapshot p) = p.
Proof.
  destruct p as [[amount cur int_]|]; [|done]. intros H.
  destruct (H _ eq_refl) as (Ha & Hc & Hi). simpl in *. unfold plain_text in Hc, Hi.
  assert (Hm : minor_units (match amount with None => JNull | Some a => JStr (pretty a) end) = amount).
  { destruct amount as [a|]; [|done]. unfold minor_units. simpl. by rewrite py_int_pretty by auto. }
  change (Some {| pr_amount_minor := minor_units (match amount with None => JNull
                    | Some a => JStr (pretty a) end);
                  pr_currency := text_of (FlashMock.opt_str cur);
                  pr_billing_interval := text_of (FlashMock.opt_str int_) |}
    = Some {| pr_amount_minor := amount; pr_currency := cur; pr_billing_interval := int_ |}).
  by rewrite Hm, Hc, Hi.
Qed.

(** What the mock prints, the client reads.  A subscription put into the
    mock, rendered as Flash's JSON row and parsed by the client, is the
    subscription that was put in. *)
Theorem mock_row_round_trip s :
  representable s -> parse_subscription (FlashMock.as_flash_row s) = Ok s.
Proof.
  intros [H1 H2 H3 H4 H5 H6 H7 H8]. set (row := FlashMock.as_flash_row s). unfold parse_subscription.
  change (dget "currentPeriodStart" row) with (FlashMock.iso (fs_current_period_start s)).
  change (dget "currentPeriodEnd" row) with (FlashMock.iso (fs_current_period_end s)).
  change (dget "nextBillingDate" row) with (FlashMock.iso (fs_next_billing_date s)).
  change (dget "trialEndDate" row) with (FlashMock.iso (fs_trial_end_date s)).
  change (dget "cancelEffectiveDate" row) with (FlashMock.iso (fs_cancel_effective_date s)).
  rewrite !parse_iso by done. cbn [mbind res_mbind].
  change (dget "id" row) with (JStr (fs_id s)). change (dget "status" row) with (JStr (fs_status s)).
  change (dget "serviceId" row) with (JStr (fs_service_id s)).
  change (dget "planId" row) with (JStr (fs_plan_id s)).
  change (dget "ref" row) with (fs_ref s). change (dget "subscriberId" row) with (fs_subscriber_id s).
  change (dget "portalUrl" row) with (FlashMock.opt_str (fs_portal_url s)).
  change (dget "pricingSnapshot" row) with (FlashMock.as_pricing_snapshot (fs_pricing s)).
  change (parse_lifecycle_policy row) with UNKNOWN_LIFECYCLE_POLICY.
  rewrite !str_or_empty_str, H6, parse_pricing_snapshot, <- H8 by done. by destruct s.
Qed.

(** *** Choosing *)

Lemma row_entitles_mock s : row_entitles (FlashMock.as_flash_row s) = Ok (FlashMock.entitling s).
Proof.
  unfold row_entitles. change (dget "status" (FlashMock.as_flash_row s)) with (JStr (fs_status s)).
  simpl. unfold FlashMock.entitling, str_in. simpl. by rewrite !(String.eqb_sym (fs_status s)).
Qed.

Lemma runs_until_mock s : ms_instant (fs_current_period_end s) ->
  runs_until (FlashMock.as_flash_row s) = Ok (FlashMock.runs_until_row s).
Proof.
  intros Hs. unfold runs_until.
  change (dget "currentPeriodEnd" (FlashMock.as_flash_row s))
    with (FlashMock.iso (fs_current_period_end s)).
  by rewrite parse_iso.
Qed.

Lemma filter_entitling_mock rows :
  filter_entitling (FlashMock.as_flash_row <$> rows)
  = Ok (FlashMock.as_flash_row <$> filter (fun s => FlashMock.entitling s) rows).
Proof.
  induction rows as [|s rows IH]; [done|]. rewrite fmap_cons.
  cbn [filter_entitling]. rewrite row_entitles_mock. cbn [mbind res_mbind]. rewrite IH. cbn [mbind res_mbind].
  rewrite filter_cons. by destruct (FlashMock.entitling s).
Qed.

Lemma with_keys_mock rows : (forall s, s ∈ rows -> ms_instant (fs_current_period_end s)) ->
  with_keys (FlashMock.as_flash_row <$> rows)
  = Ok ((fun s => (FlashMock.runs_until_row s, FlashMock.as_flash_row s)) <$> rows).
Proof.
  induction rows as [|s rows IH]; intros Hs; [done|]. rewrite !fmap_cons.
  cbn [with_keys]. rewrite runs_until_mock by (apply Hs; set_solver). cbn [mbind res_mbind].
  rewrite IH by (intros; apply Hs; set_solver). done.
Qed.

Lemma omap_as_obj_mock (rows : list FlashSubscription) :
  omap as_obj ((fun s => JObj (FlashMock.as_flash_row s)) <$> rows) = FlashMock.as_flash_row <$> rows.
Proof.
  induction rows as [|s rows IH]; [done|]. rewrite !fmap_cons, <- IH. done.
Qed.

(** The mock chooses as the client does.  Given Flash's rows for what the
    mock holds, the client's choice among them is the mock's own. *)
Theorem mock_chooses_like_client rows :
  (forall s, s ∈ rows -> ms_instant (fs_current_period_end s)) ->
  choose_subscription ((fun s => JObj (FlashMock.as_flash_row s)) <$> rows)
  = Ok (match FlashMock.choose_row rows with
        | Some s => JObj (FlashMock.as_flash_row s)
        | None => JNull
        end).
Proof.
  intros Hms. unfold choose_subscription. rewrite omap_as_obj_mock.
  destruct rows as [|s rows]; [done|]. rewrite fmap_cons.
  rewrite <- (fmap_cons FlashMock.as_flash_row s rows), filter_entitling_mock. cbn [mbind res_mbind].
  set (live := FlashMock.live_rows (s :: rows)).
  assert (Hlive : match FlashMock.as_flash_row <$> filter (fun s => FlashMock.entitling s) (s :: rows) with
    | [] => FlashMock.as_flash_row <$> s :: rows
    | _ => FlashMock.as_flash_row <$> filter (fun s => FlashMock.entitling s) (s :: rows)
    end = FlashMock.as_flash_row <$> live).
  { unfold live, FlashMock.live_rows. by destruct (filter _ (s :: rows)). }
  rewrite Hlive, with_keys_mock; last first.
  { intros x Hx. apply Hms. unfold live, FlashMock.live_rows in Hx.
    destruct (filter _ (s :: rows)) as [|y l] eqn:Hf; [done|]. rewrite <- Hf in Hx.
    by apply list_elem_of_filter in Hx as [_ ?]. }
  simpl. rewrite (max_by_fmap FlashMock.runs_until_row) by done.
  unfold FlashMock.choose_row. fold live. by destruct (max_by FlashMock.runs_until_row live).
Qed.

(** ** Values Flash could send that no handler catches *)

(** A timestamp whose instant in UTC falls outside the calendar is not
    "unparseable": the conversion raises, outside the handler. *)
Example extreme_timestamp_raises deadline :
  parse_flash_timestamp (JStr "0001-01-01T00:00:00+01:00") deadline = Raise OverflowError.
Proof. by destruct deadline. Qed.

(** A status that is not hashable fails the choice among a reference's rows,
    the readable ones included. *)
Example unhashable_status_raises :
  choose_subscription [JObj [("status", JList [])]; JObj [("status", JStr "active")]]
  = Raise TypeError.
Proof. done. Qed.

(** ** Witnesses *)

Import Scenario.

Lemma writes_not_repeated_witness :
  let E := unreachable true in
  let w' := (send_with_retries "POST" "https://flash.test/x" JNull demo).2 in
  length (sent w') = 4%nat
  /\ exists n, (n <= 3)%nat /\ length (sent w') = S n.
Proof.
  intros E w'. split; [vm_compute; reflexivity|].
  destruct (writes_not_repeated (E := unreachable true) "POST" "https://flash.test/x" JNull demo _ w'
    (surjective_pairing _)) as (n & Hn & Hs & _).
  exists n. split; [exact Hn|]. rewrite Hs. simpl. by rewrite length_replicate.
Defined.

Lemma reads_bounded_witness :
  let E := unreachable true in
  exists n, (n <= 3)%nat
    /\ length (sent (get_with_retries "https://flash.test/x" [] demo).2) = S n.
Proof.
  destruct (reads_bounded (E := unreachable true) "https://flash.test/x" [] demo _ _
    (surjective_pairing _)) as (n & Hn & Hs & _).
  exists n. split; [exact Hn|]. rewrite Hs. simpl. by rewrite length_replicate.
Defined.

Lemma absence_is_flash_word_witness :
  let E := answering "alice" "active" in
  exists st b, (st < 400)%Z
    /\ answered demo (fetch_subscription JNull (Some "bob") demo).2
         (get_request (subscriptions_url []) [("ref", "bob")]) st (Some (JObj b)).
Proof.
  destruct (proj2 (absence_is_flash_word (E := answering "alice" "active") "bob" None demo
    (fetch_subscription (E := answering "alice" "active") JNull (Some "bob") demo).2
    eq_refl ltac:(discriminate))) as (st & b & Hst & Ha & _).
  - apply run_returns. vm_compute. reflexivity.
  - exists st, b. split; [exact Hst|exact Ha].
Defined.

Lemma lookup_prefers_entitling_witness :
  let E := answering "alice" "active" in
  exists s raw, (fetch_subscription JNull (Some "alice") demo).1 = Ok (Some s)
    /\ parse_subscription raw = Ok s.
Proof.
  assert (H : exists s, (fetch_subscription (E := answering "alice" "active") JNull (Some "alice")
    demo).1 = Ok (Some s)) by (eexists; vm_compute; reflexivity).
  destruct H as [s Hs].
  destruct (lookup_prefers_entitling (E := answering "alice" "active") "alice" demo s _ eq_refl
    (run_returns _ _ Hs)) as (st & b & rows & raw & _ & _ & _ & Hp & _).
  exists s, raw. split; [exact Hs|exact Hp].
Defined.

Definition mock_subscription (id status : string) (period_end : Z) : FlashSubscription := {|
  fs_id := id; fs_status := status; fs_ref := JStr "alice"; fs_subscriber_id := JNull;
  fs_service_id := "svc"; fs_plan_id := "gold"; fs_current_period_start := None;
  fs_current_period_end := Some period_end; fs_next_billing_date := None;
  fs_trial_end_date := None; fs_cancel_effective_date := None;
  fs_portal_url := Some "https://flash.test/me";
  fs_pricing := Some {| pr_amount_minor := Some 900%Z; pr_currency := Some "USD";
                        pr_billing_interval := Some "monthly" |};
  fs_policy := UNKNOWN_LIFECYCLE_POLICY |}.

Lemma demo_instant : ms_instant (Some demo_now).
Proof. by vm_compute. Qed.

Lemma mock_row_round_trip_witness :
  parse_subscription (FlashMock.as_flash_row (mock_subscription "sub-1" "active" demo_now))
  = Ok (mock_subscription "sub-1" "active" demo_now).
Proof.
  apply mock_row_round_trip. constructor; simpl; try done.
  intros p [= <-]. split_and!; [|reflexivity|reflexivity]. intros a [= <-]. by vm_compute.
Defined.

Lemma mock_chooses_like_client_witness :
  choose_subscription ((fun s => JObj (FlashMock.as_flash_row s)) <$>
    [mock_subscription "old" "expired" demo_now; mock_subscription "new" "active" demo_now])
  = Ok (JObj (FlashMock.as_flash_row (mock_subscription "new" "active" demo_now))).
Proof.
  refine (mock_chooses_like_client
    [mock_subscription "old" "expired" demo_now; mock_subscription "new" "active" demo_now] _).
  intros s Hs. apply elem_of_cons in Hs as [->|Hs]; [exact demo_instant|].
  apply list_elem_of_singleton in Hs as ->. exact demo_instant.
Defined.
