(* ===== verification/Billing.v ===== *)
(** * Turning Flash's state into a scheduling policy
      ([src/app/services/billing_service.py])

    The decision table and the truth table are pure functions; the handlers are
    computations over the world, each ending in one commit.  [consult] is the
    read phase of [apply_entitlement] — every guard and early return before
    [_grant_and_record] — and [grant_and_record] its write phase. *)

From Stdlib Require Import Ascii String.
From S2P Require Import Prelude Json Time Types Effects Repos FlashMock Flash.
Local Open Scope string_scope.

Inductive EntitlementDecision := GRANT | HOLD | REVOKE.

Inductive EntitlementReason :=
  | GRANTED | REVOKED | HELD | BLOCKED | ADMIN_OVERRIDE | NO_REFERENCE
  | UNKNOWN_USER | UNKNOWN_PLAN | UNKNOWN_SUBSCRIPTION | REFERENCE_MISMATCH
  | BUSY | ATTRIBUTED | DISMISSED.

#[export] Instance decision_eq_dec : EqDecision EntitlementDecision.
Proof. solve_decision. Defined.
#[export] Instance reason_eq_dec : EqDecision EntitlementReason.
Proof. solve_decision. Defined.

(** [EntitlementReason.<R>.value]. *)
Definition reason_value (r : EntitlementReason) : string :=
  match r with
  | GRANTED => "granted" | REVOKED => "revoked" | HELD => "held"
  | BLOCKED => "blocked" | ADMIN_OVERRIDE => "admin_override"
  | NO_REFERENCE => "no_reference" | UNKNOWN_USER => "unknown_user"
  | UNKNOWN_PLAN => "unknown_plan" | UNKNOWN_SUBSCRIPTION => "unknown_subscription"
  | REFERENCE_MISMATCH => "reference_mismatch" | BUSY => "busy"
  | ATTRIBUTED => "attributed" | DISMISSED => "dismissed"
  end.

(** Membership in [SETTLED_REASONS]. *)
Definition settled (r : EntitlementReason) : bool :=
  match r with
  | GRANTED | REVOKED | HELD | BLOCKED | ADMIN_OVERRIDE | ATTRIBUTED | DISMISSED => true
  | _ => false
  end.

Record EntitlementOutcome := { applied : bool; reason : EntitlementReason }.

Record Resolution := {
  write_policy : bool;
  rs_scheduling_id : option Z;
  rs_source : option string;
  rs_granted : option Z;
  rs_reason : EntitlementReason;
}.

(** ** The truth table *)

Definition resolve_entitlement (decision : EntitlementDecision) (blocked admin_held : bool)
    (plan_scheduling_id : Z) (existing_granted : option Z) : Resolution :=
  match decision with
  | GRANT =>
      if blocked then
        {| write_policy := false; rs_scheduling_id := None; rs_source := None;
           rs_granted := existing_granted; rs_reason := BLOCKED |}
      else
        {| write_policy := true; rs_scheduling_id := Some plan_scheduling_id;
           rs_source := Some (if admin_held then SOURCE_ADMIN else SOURCE_BILLING);
           rs_granted := Some plan_scheduling_id; rs_reason := GRANTED |}
  | REVOKE =>
      if admin_held then
        {| write_policy := false; rs_scheduling_id := None; rs_source := None;
           rs_granted := existing_granted; rs_reason := ADMIN_OVERRIDE |}
      else
        {| write_policy := true; rs_scheduling_id := None;
           rs_source := Some SOURCE_DEFAULT; rs_granted := None; rs_reason := REVOKED |}
  | HOLD =>
      {| write_policy := false; rs_scheduling_id := None; rs_source := None;
         rs_granted := existing_granted; rs_reason := HELD |}
  end.

Definition is_admin_held (source : string) : bool := String.eqb source SOURCE_ADMIN.

(** ** The decision table *)

Definition decide_past_due (policy : FlashLifecyclePolicy) : EntitlementDecision :=
  match dunning_cancels_after_final_failure policy with
  | Some false =>
      match dunning_attempts policy, dunning_max_attempts policy with
      | Some made, Some allowed => if (allowed <=? made)%Z then REVOKE else HOLD
      | _, _ => HOLD
      end
  | _ => HOLD
  end.

Definition decide_cancelled (policy : FlashLifecyclePolicy)
    (cancel_effective_date current_period_end : option Z) (now : Z) : EntitlementDecision :=
  if bool_decide (cancellation_mode policy = Some CANCELLATION_IMMEDIATE) then REVOKE
  else match FlashMock.or_else cancel_effective_date current_period_end with
  | Some ends_at => if (now <? ends_at)%Z then HOLD else REVOKE
  | None => REVOKE
  end.

Definition decide_entitlement (flash_status : string)
    (cancel_effective_date current_period_end : option Z) (now : Z)
    (policy : FlashLifecyclePolicy) : EntitlementDecision :=
  if str_in flash_status ENTITLING_STATUSES then GRANT
  else if str_in flash_status ENDED_STATUSES then REVOKE
  else if String.eqb flash_status PAST_DUE_STATUS then decide_past_due policy
  else if String.eqb flash_status CANCELLED_STATUS then
    decide_cancelled policy cancel_effective_date current_period_end now
  else HOLD.

Section billing.
Context {E : Env}.

(** ** Reconciling one subscriber *)

Definition names_another_subscription (existing : SubRow) (s : FlashSubscription) : bool :=
  py_truthy (fs_ref s) && negb (String.eqb (us_flash_id existing) "")
  && negb (String.eqb (us_flash_id existing) (fs_id s)).

(** By reference first; when that finds nothing, by the id already on file,
    which no caller supplied and so needs no reference. *)
Definition locate (pubkey : string) (subscription_id : json) (allow_unreferenced : bool)
  : M (option FlashSubscription * bool) :=
  found ← fetch_subscription subscription_id
            (if py_truthy subscription_id then None else Some pubkey);
  match found with
  | Some s => mret (Some s, allow_unreferenced)
  | None =>
      if py_truthy subscription_id then mret (None, allow_unreferenced) else
      stored ← get_user_subscription_on_db pubkey;
      match stored with
      | None => mret (None, allow_unreferenced)
      | Some row =>
          again ← fetch_subscription (JStr (us_flash_id row)) None;
          mret (again, true)
      end
  end.

(** A subscription other than the one on file is replaced by the one Flash
    picks by reference. *)
Definition current_of (pubkey : string) (existing : option SubRow) (s : FlashSubscription)
  : M FlashSubscription :=
  match existing with
  | Some row =>
      if names_another_subscription row s then
        current ← fetch_subscription JNull (Some pubkey);
        mret (default s current)
      else mret s
  | None => mret s
  end.

Definition consulted : Type :=
  EntitlementReason + (FlashSubscription * PlanRow * option SubRow).

(** Everything [apply_entitlement] reads before it writes: the reason it stops
    at, or what it will act on. *)
Definition consult (pubkey : string) (subscription_id : json)
    (yield_if_busy allow_unreferenced : bool) : M consulted :=
  known ← brainstorm_nsec_exists_by_pubkey_on_db pubkey;
  if negb known then mret (inl UNKNOWN_USER) else
  held ← lock_user_for_update_on_db pubkey yield_if_busy;
  if negb held then mret (inl BUSY) else
  '(found, allow) ← locate pubkey subscription_id allow_unreferenced;
  match found with
  | None => mret (inl UNKNOWN_SUBSCRIPTION)
  | Some s =>
      if negb (py_truthy (fs_ref s)) && negb allow then mret (inl NO_REFERENCE)
      else if py_truthy (fs_ref s) && negb (json_is_str (fs_ref s) pubkey)
      then mret (inl REFERENCE_MISMATCH)
      else
      existing ← get_user_subscription_on_db pubkey;
      current ← current_of pubkey existing s;
      plan ← get_billing_plan_on_db (fs_service_id current) (fs_plan_id current);
      match plan with
      | None => mret (inl UNKNOWN_PLAN)
      | Some p => mret (inr (current, p, existing))
      end
  end.

(** A disabled policy is granted all the same; only a log line differs. *)
Definition warn_if_policy_is_inert (scheduling_id : Z) : M bool :=
  policy ← get_scheduling_on_db scheduling_id;
  mret (match policy with Some p => negb (sc_enabled p) | None => false end).

Definition resolution_for (s : FlashSubscription) (plan : PlanRow) (now : Z)
    (existing : option SubRow) (blocked admin_held : bool) : Resolution :=
  resolve_entitlement
    (decide_entitlement (fs_status s) (fs_cancel_effective_date s)
       (fs_current_period_end s) now (fs_policy s))
    blocked admin_held (bp_scheduling_id plan)
    (match existing with Some row => us_granted row | None => None end).

(** The policy assignment of a resolution, when it writes one. *)
Definition write_assignment (pubkey : string) (plan : PlanRow) (r : Resolution) : M unit :=
  match rs_source r with
  | Some source =>
      if write_policy r then
        _ ← (if bool_decide (rs_reason r = GRANTED)
             then warn_if_policy_is_inert (bp_scheduling_id plan) else mret false);
        set_scheduling_for_pubkey_on_db pubkey (rs_scheduling_id r) source
      else mret tt
  | None => mret tt
  end.

Definition grant_and_record (pubkey : string) (s : FlashSubscription) (plan : PlanRow)
    (now : Z) (existing : option SubRow) : M EntitlementOutcome :=
  blocked ← is_billing_blocked_on_db pubkey;
  source ← get_scheduling_source_on_db pubkey;
  let r := resolution_for s plan now existing blocked (is_admin_held source) in
  _ ← write_assignment pubkey plan r;
  _ ← upsert_user_subscription_on_db pubkey s (bp_id plan) (rs_granted r);
  _ ← commit;
  mret {| applied := write_policy r; reason := rs_reason r |}.

Definition apply_entitlement_to (pubkey : string) (subscription_id : json)
    (yield_if_busy allow_unreferenced : bool) : M EntitlementOutcome :=
  c ← consult pubkey subscription_id yield_if_busy allow_unreferenced;
  match c with
  | inl why => mret {| applied := false; reason := why |}
  | inr (s, plan, existing) =>
      now ← utc_now;
      grant_and_record pubkey s plan now existing
  end.

(** [external_ref] is the reference as the caller has it; a webhook's is any
    JSON value, and one the driver cannot bind as text fails the first query. *)
Definition apply_entitlement (external_ref subscription_id : json)
    (yield_if_busy allow_unreferenced : bool) : M EntitlementOutcome :=
  if negb (py_truthy external_ref) then mret {| applied := false; reason := NO_REFERENCE |}
  else match external_ref with
  | JStr pubkey => apply_entitlement_to pubkey subscription_id yield_if_busy allow_unreferenced
  | _ => exec_unbound
  end.

(** ** Plan mappings *)

Definition require_scheduling (scheduling_id : option Z) : M unit :=
  found ← match scheduling_id with
          | Some i => scheduling_exists_on_db i
          | None => exec (query (fun _ _ => false))
          end;
  if found : bool then mret tt else raise (HTTPException 404).

Definition require_unused_flash_ids (service plan : string) : M unit :=
  taken ← get_billing_plan_on_db service plan;
  match taken with
  | Some _ => raise (HTTPException 409)
  | None => mret tt
  end.

Definition list_billing_plans_admin : M (list PlanRow) := select_billing_plans_on_db false.

(** [db.refresh(plan)]. *)
Definition refresh_plan (p : PlanRow) : M PlanRow :=
  exec_raw (query (fun _ d => default p (billing_plan d !! bp_id p))).

Definition create_billing_plan (flash_service_id flash_plan_id : string)
    (scheduling_id : Z) (is_active : bool) : M PlanRow :=
  _ ← require_scheduling (Some scheduling_id);
  _ ← require_unused_flash_ids flash_service_id flash_plan_id;
  plan ← insert_billing_plan_on_db flash_service_id flash_plan_id scheduling_id is_active;
  _ ← reset_events_awaiting_plan_on_db (bp_service_id plan) (bp_plan_id plan)
        (reason_value UNKNOWN_PLAN);
  _ ← commit;
  refresh_plan plan.

Definition update_billing_plan (plan_id : Z) (values : PlanEdit) : M PlanRow :=
  _ ← match pe_scheduling_id values with
      | Some sid => require_scheduling sid
      | None => mret tt
      end;
  current ← get_billing_plan_by_id_on_db plan_id;
  match current with
  | None => raise (HTTPException 404)
  | Some cur =>
      let service_id := default (bp_service_id cur) (pe_service_id values) in
      let plan_ref := default (bp_plan_id cur) (pe_plan_id values) in
      let reidentified := negb (plan_named service_id plan_ref cur) in
      _ ← (if reidentified then
             subscribers ← count_subscriptions_for_plan_on_db plan_id;
             if negb (subscribers =? 0)%nat then raise (HTTPException 409)
             else require_unused_flash_ids service_id plan_ref
           else mret tt);
      edited ← update_billing_plan_on_db plan_id values;
      _ ← (if reidentified then
             reset_events_awaiting_plan_on_db service_id plan_ref (reason_value UNKNOWN_PLAN)
           else mret 0);
      _ ← commit;
      match edited with
      | Some plan => refresh_plan plan
      | None => raise (OtherException "UnmappedInstanceError")
      end
  end.

(** ** Blocking *)

Record BlockOutcome := { bk_found : bool; bk_blocked : bool; bk_revoked : bool }.

Definition set_billing_block (pubkey : string) (blocked : bool) : M BlockOutcome :=
  known ← brainstorm_nsec_exists_by_pubkey_on_db pubkey;
  if negb known then mret {| bk_found := false; bk_blocked := false; bk_revoked := false |} else
  _ ← lock_user_for_update_on_db pubkey false;
  _ ← set_billing_blocked_on_db pubkey blocked;
  revoked ← (if blocked then
      source ← get_scheduling_source_on_db pubkey;
      if String.eqb source SOURCE_BILLING then
        _ ← set_scheduling_for_pubkey_on_db pubkey None SOURCE_DEFAULT;
        _ ← clear_granted_scheduling_on_db pubkey;
        mret true
      else mret false
    else mret false);
  _ ← commit;
  mret {| bk_found := true; bk_blocked := blocked; bk_revoked := revoked |}.

(** ** Operator actions on a subscription in Flash *)

Record SubscriptionActionOutcome := {
  sa_subscription_id : string;
  sa_flash_status : string;
  sa_cancel_effective_date : option Z;
  sa_cancellation_scheduled : bool;
  sa_applied : bool;
  sa_reason : string;
}.

Definition REREAD_FAILED := "reread_failed".

(** The re-read after a write: what it decided, or that it could not be made. *)
Definition reread (pubkey subscription_id : string) : M (bool * string) :=
  try_ (outcome ← apply_entitlement (JStr pubkey) (JStr subscription_id) false false;
        mret (applied outcome, reason_value (reason outcome)))
       (fun e => match e with
                 | FlashUnavailable _ | FlashCredentialError => mret (false, REREAD_FAILED)
                 | _ => raise e
                 end).

Definition act_on_subscription (pubkey : string)
    (write : string -> M (option FlashSubscription)) : M SubscriptionActionOutcome :=
  held ← get_user_subscription_on_db pubkey;
  match held with
  | None => raise (HTTPException 404)
  | Some row =>
      if String.eqb (us_flash_id row) "" then raise (HTTPException 404) else
      changed ← write (us_flash_id row);
      match changed with
      | None => raise (HTTPException 404)
      | Some s =>
          '(done_, why) ← reread pubkey (us_flash_id row);
          mret {| sa_subscription_id :=
                    if String.eqb (fs_id s) "" then us_flash_id row else fs_id s;
                  sa_flash_status := fs_status s;
                  sa_cancel_effective_date := fs_cancel_effective_date s;
                  sa_cancellation_scheduled :=
                    bool_decide (is_Some (fs_cancel_effective_date s))
                    || String.eqb (fs_status s) CANCELLED_STATUS;
                  sa_applied := done_; sa_reason := why |}
      end
  end.

Definition cancel_subscriber_subscription (pubkey : string) (why : option string)
  : M SubscriptionActionOutcome :=
  act_on_subscription pubkey (fun sid => cancel_subscription sid why).

Definition set_subscriber_subscription_status (pubkey status : string)
  : M SubscriptionActionOutcome :=
  act_on_subscription pubkey (fun sid => set_subscription_status sid status).

(** ** Resolving a signup that named nobody *)

Record ResolutionOutcome := {
  ro_resolution : EntitlementReason;
  ro_pubkey : option string;
  ro_applied : bool;
  ro_events_settled : nat;
  ro_entitlement_reason : option EntitlementReason;
}.

(** [_ATTRIBUTION_REFUSALS]: the status each unsettled reason is refused with. *)
Definition attribution_refusal (r : EntitlementReason) : option Z :=
  match r with
  | UNKNOWN_USER | UNKNOWN_SUBSCRIPTION => Some 404%Z
  | REFERENCE_MISMATCH | UNKNOWN_PLAN | BUSY | NO_REFERENCE => Some 409%Z
  | _ => None
  end.

(** The grant of an attribution, when nobody holds the subscription yet. *)
Definition attribute_grant (subscription_id pubkey : string)
  : M (bool * EntitlementReason) :=
  existing ← get_user_subscription_on_db pubkey;
  match existing with
  | Some _ => raise (HTTPException 409)
  | None =>
      outcome ← apply_entitlement (JStr pubkey) (JStr subscription_id) false true;
      if settled (reason outcome) then mret (applied outcome, reason outcome)
      else match attribution_refusal (reason outcome) with
      | Some code => raise (HTTPException code)
      | None => raise KeyError
      end
  end.

Definition attribute_unresolved_subscription (subscription_id pubkey acting_pubkey : string)
  : M ResolutionOutcome :=
  holder ← get_user_subscription_by_flash_id_on_db subscription_id;
  '(done_, why) ←
    match holder with
    | Some row =>
        if String.eqb (us_pubkey row) pubkey then mret (false, ATTRIBUTED)
        else raise (HTTPException 409)
    | None => attribute_grant subscription_id pubkey
    end;
  now ← utc_now;
  n ← settle_unresolved_events_on_db subscription_id now (reason_value ATTRIBUTED)
        acting_pubkey false;
  _ ← commit;
  mret {| ro_resolution := ATTRIBUTED; ro_pubkey := Some pubkey; ro_applied := done_;
          ro_events_settled := n; ro_entitlement_reason := Some why |}.

Definition dismiss_unresolved_subscription (subscription_id acting_pubkey : string)
  : M ResolutionOutcome :=
  now ← utc_now;
  n ← settle_unresolved_events_on_db subscription_id now (reason_value DISMISSED)
        acting_pubkey true;
  if (n =? 0)%nat then
    _ ← rollback; raise (HTTPException 404)
  else
    _ ← commit;
    mret {| ro_resolution := DISMISSED; ro_pubkey := None; ro_applied := false;
            ro_events_settled := n; ro_entitlement_reason := None |}.

(** ** What a payload implies when Flash cannot be read *)

Definition fallback_status (event : string) : option string :=
  if String.eqb event "subscription.expired" then Some "expired"
  else if String.eqb event "subscription.canceled" then Some "canceled"
  else if String.eqb event "subscription.past_due" then Some "past_due"
  else None.

(** The revocation an [expired] payload implies. *)
Definition fallback_revoke (pubkey : string) (existing : SubRow) : M unit :=
  source ← get_scheduling_source_on_db pubkey;
  let r := resolve_entitlement REVOKE false (is_admin_held source)
             (default 0%Z (us_granted existing)) (us_granted existing) in
  match rs_source r with
  | Some src =>
      if write_policy r then
        _ ← set_scheduling_for_pubkey_on_db pubkey (rs_scheduling_id r) src;
        _ ← clear_granted_scheduling_on_db pubkey;
        mret tt
      else mret tt
  | None => mret tt
  end.

Definition fallback_for (status pubkey : string) : M bool :=
  held ← lock_user_for_update_on_db pubkey true;
  if negb held then mret false else
  existing ← get_user_subscription_on_db pubkey;
  match existing with
  | None => mret false
  | Some row =>
      _ ← (if String.eqb status "expired" then fallback_revoke pubkey row else mret tt);
      let cancel_effective_date :=
        if String.eqb status "canceled" && bool_decide (us_cancel row = None)
        then us_period_end row else None in
      _ ← update_flash_status_on_db pubkey status cancel_effective_date;
      _ ← commit;
      mret true
  end.

Definition apply_payload_fallback (event : string) (external_ref : json) : M bool :=
  match fallback_status event with
  | None => mret false
  | Some status =>
      if negb (py_truthy external_ref) then mret false
      else match external_ref with
      | JStr pubkey => fallback_for status pubkey
      | _ => exec_unbound
      end
  end.

End billing.
