(* ===== verification/Entitlement.v ===== *)
(** * What reconciling one subscriber does to the tables

    Theorems about [Billing.apply_entitlement]: its read phase changes nothing,
    its write phase is one table update that commits whole or not at all, and a
    policy is granted only on Flash's word about that very user. *)

From Stdlib Require Import Ascii String.
From S2P Require Import Prelude Json Time Types Effects Repos FlashMock Flash Billing.
Local Open Scope string_scope.

Section entitlement.
Context {E : Env}.

(** ** The read phase *)

Lemma reads_locate p sid a : reads (locate p sid a).
Proof. unfold locate. solve_stable. Qed.
Lemma reads_current_of p e s : reads (current_of p e s).
Proof. unfold current_of. solve_stable. Qed.
#[local] Hint Resolve reads_locate reads_current_of : stable.

Lemma reads_consult p sid y a : reads (consult p sid y a).
Proof. unfold consult. solve_stable. Qed.

(** Flash answered a lookup with [s] between two moments. *)
Definition flash_said (w w' : World) (handle : json) (ref : option string)
    (s : FlashSubscription) : Prop :=
  exists w1 w2, ticks w w1 /\ ticks w2 w'
    /\ fetch_subscription handle ref w1 = (Ok (Some s), w2).

(** Flash's word that [s] is [pubkey]'s: it answered the lookup by that
    reference with it, or it carries that reference, or it carries none and was
    looked up by an id an admin vouches for or that is already on file for the
    user. *)
Definition attributable (w w' : World) (pubkey : string) (subscription_id : json)
    (allow : bool) (s : FlashSubscription) : Prop :=
  flash_said w w' JNull (Some pubkey) s
  \/ (fs_ref s = JStr pubkey /\ exists h r, flash_said w w' h r s)
  \/ (py_truthy (fs_ref s) = false
      /\ ((allow = true /\ flash_said w w' subscription_id None s)
          \/ exists row, user_subscription (working w) !! pubkey = Some row
               /\ flash_said w w' (JStr (us_flash_id row)) None s)).

Lemma flash_said_mono w0 w w' w1 h r s :
  flash_said w w' h r s -> ticks w0 w -> ticks w' w1 -> flash_said w0 w1 h r s.
Proof.
  intros (a & b & ? & ? & ?) ??. exists a, b.
  split_and!; [by trans w|by trans w'|done].
Qed.

(** What [locate] found, and on whose word. *)
Definition located (w w' : World) (pubkey : string) (subscription_id : json)
    (allow allow' : bool) (s : FlashSubscription) : Prop :=
  (allow' = allow /\ flash_said w w' subscription_id
     (if py_truthy subscription_id then None else Some pubkey) s)
  \/ (py_truthy subscription_id = false
      /\ exists row, user_subscription (working w) !! pubkey = Some row
           /\ flash_said w w' (JStr (us_flash_id row)) None s).

Lemma locate_inv p sid a w s a' w' :
  locate p sid a w = (Ok (Some s, a'), w') -> located w w' p sid a a' s.
Proof.
  unfold locate. intros (found & w1 & Hf & Hrun)%bind_Ok_inv.
  assert (T1 : ticks w w1) by (eapply stable_run, Hf; solve_stable).
  assert (D1 : same_db w w1) by (eapply stable_run, Hf; solve_stable).
  destruct found as [s1|].
  - injection Hrun as -> -> ->. left. split; [done|]. by exists w, w'.
  - destruct (py_truthy sid) eqn:Hsid; [done|].
    apply bind_Ok_inv in Hrun as (stored & w2 & Hst & Hrun).
    assert (T2 : ticks w1 w2) by (eapply stable_run, Hst; unfold get_user_subscription_on_db;
      solve_stable).
    apply exec_query_Ok in Hst as [n ->]. destruct D1 as [_ D1]. rewrite D1 in Hrun.
    destruct (user_subscription (working w) !! p) as [row|] eqn:Hrow; [|done].
    apply bind_Ok_inv in Hrun as (again & w3 & Hag & Hrun).
    injection Hrun as -> <- ->. right. split; [done|]. exists row. split; [done|].
    exists w2, w'. split_and!; [by trans w1|done|done].
Qed.

Lemma current_of_inv p ex s w s' w' : current_of p ex s w = (Ok s', w') ->
  s' = s \/ flash_said w w' JNull (Some p) s'.
Proof.
  unfold current_of. destruct ex as [row|]; [|by intros [= -> ->]; left].
  destruct (names_another_subscription row s); [|by intros [= -> ->]; left].
  intros (cur & w1 & Hc & Hrun)%bind_Ok_inv. injection Hrun as <- <-.
  destruct cur as [c|]; [right|by left]. by exists w, w1.
Qed.

Lemma located_attributable w w' p sid a a' s :
  located w w' p sid a a' s ->
  negb (py_truthy (fs_ref s)) && negb a' = false ->
  py_truthy (fs_ref s) && negb (json_is_str (fs_ref s) p) = false ->
  attributable w w' p sid a s.
Proof.
  intros Hl H1 H2. destruct (py_truthy (fs_ref s)) eqn:Href; simpl in *.
  - right; left. split.
    + destruct (fs_ref s); try done. simpl in H2.
      apply negb_false_iff, String.eqb_eq in H2 as ->. done.
    + destruct Hl as [[_ Hs]|(_ & row & _ & Hs)]; eauto.
  - destruct Hl as [[-> Hs]|(_ & row & Hrow & Hs)].
    + apply negb_false_iff in H1 as ->.
      destruct (py_truthy sid) eqn:Hsid; [right; right; eauto|].
      left. destruct Hs as (w1 & w2 & ? & ? & Hf). exists w1, w2. split_and!; try done.
      unfold fetch_subscription, require_a_handle, read_for, FlashMock.lookup,
        FlashMock.matches in Hf |- *. by rewrite Hsid in Hf.
    + right; right. eauto.
Qed.

(** What the write phase may rely on once the read phase is over. *)
Record consult_ok (w w' : World) (pubkey : string) (sid : json) (allow : bool)
    (s : FlashSubscription) (plan : PlanRow) (existing : option SubRow) : Prop := {
  co_user : is_Some (nsec (working w) !! pubkey);
  co_existing : existing = user_subscription (working w) !! pubkey;
  co_plan : exists i, billing_plan (working w) !! i = Some plan;
  co_named : plan_named (fs_service_id s) (fs_plan_id s) plan = true;
  co_word : attributable w w' pubkey sid allow s;
}.

Lemma attributable_mono w w' w1 p sid a s :
  attributable w w' p sid a s -> ticks w' w1 -> attributable w w1 p sid a s.
Proof.
  assert (ticks w w) by reflexivity.
  intros [?|[(? & h & r & ?)|(? & [[? ?]|(row & ? & ?)])]] ?;
    [left|right; left|right; right|right; right]; eauto 7 using flash_said_mono.
Qed.

Lemma attributable_later w0 w w' p sid a s :
  attributable w w' p sid a s -> ticks w0 w -> same_db w0 w ->
  attributable w0 w' p sid a s.
Proof.
  assert (ticks w' w') by reflexivity. unfold attributable.
  intros [?|[(? & h & r & ?)|(? & [[? ?]|(row & ? & ?)])]] ? [_ Hd]; rewrite <- ?Hd;
    [left|right; left|right; right|right; right]; eauto 7 using flash_said_mono.
Qed.

(** Splits a successful run at its first bind, keeping that the step only read. *)
Ltac read_step H x w1 Hx :=
  apply bind_Ok_inv in H as (x & w1 & Hx & H).

Lemma consult_inv p sid y a w s plan ex w' :
  consult p sid y a w = (Ok (inr (s, plan, ex)), w') -> consult_ok w w' p sid a s plan ex.
Proof.
  unfold consult. intros Hrun.
  read_step Hrun known w1 Hk.
  assert (T1 : ticks w w1)
    by (eapply stable_run, Hk; unfold brainstorm_nsec_exists_by_pubkey_on_db; solve_stable).
  assert (D1 : same_db w w1) by (eapply stable_run, Hk; solve_stable).
  apply exec_checked_query_Ok in Hk as (_ & n & ->).
  case_bool_decide as Huser; simpl in Hrun; [|done].
  read_step Hrun held w2 Hl.
  assert (T2 : ticks w1 w2)
    by (eapply stable_run, Hl; unfold lock_user_for_update_on_db; solve_stable).
  assert (D2 : same_db w1 w2) by (eapply stable_run, Hl; solve_stable).
  destruct held; simpl in Hrun; [|done].
  apply bind_Ok_inv in Hrun as ([found a'] & w3 & Hloc & Hrun).
  assert (D3 : same_db w2 w3) by (eapply stable_run, Hloc; solve_stable).
  destruct found as [s0|]; [|done]. apply locate_inv in Hloc.
  destruct (negb (py_truthy (fs_ref s0)) && negb a') eqn:E1; [done|].
  destruct (py_truthy (fs_ref s0) && negb (json_is_str (fs_ref s0) p)) eqn:E2; [done|].
  pose proof (located_attributable _ _ _ _ _ _ _ Hloc E1 E2) as Hatt.
  read_step Hrun existing w4 Hex.
  assert (T4 : ticks w3 w4)
    by (eapply stable_run, Hex; unfold get_user_subscription_on_db; solve_stable).
  assert (D4 : same_db w3 w4) by (eapply stable_run, Hex; solve_stable).
  apply exec_query_Ok in Hex as [_ ->].
  read_step Hrun current w5 Hcur.
  assert (T5 : ticks w4 w5) by (eapply stable_run, Hcur; unfold current_of; solve_stable).
  assert (D5 : same_db w4 w5) by (eapply stable_run, Hcur; solve_stable).
  read_step Hrun pl w6 Hp.
  assert (T6 : ticks w5 w6)
    by (eapply stable_run, Hp; unfold get_billing_plan_on_db, scalar_one_or_none; solve_stable).
  destruct pl as [p0|]; [|done]. injection Hrun as -> -> <- ->.
  apply get_billing_plan_Ok in Hp as [Hn Hpl].
  assert (D02 : same_db w w2) by by trans w1.
  assert (D03 : same_db w w3) by by trans w2.
  assert (D05 : same_db w w5) by (trans w3; [done|by trans w4]).
  rewrite (proj2 D05) in Hpl. rewrite (proj2 D03).
  assert (T02 : ticks w w2) by by trans w1.
  assert (T36 : ticks w3 w') by (trans w4; [done|by trans w5]).
  constructor; [done|done|done|done|].
  apply current_of_inv in Hcur as [->|Hcur].
  - eapply attributable_mono; [|done]. by eapply attributable_later.
  - left. eapply flash_said_mono; [exact Hcur| |done].
    trans w2; [done|]. trans w3; [|done].
    destruct Hloc as [[_ (? & ? & ? & ? & Hf)]|(_ & row & _ & (? & ? & ? & ? & Hf))];
      (apply (stable_run _ _ _ _ _ (ticks_fetch_subscription _ _)) in Hf;
       etrans; [done|]; by etrans).
Qed.

(** ** The write phase *)

(** Reaching the truth table settles the event. *)
Lemma resolve_settled d blocked admin plan granted :
  settled (rs_reason (resolve_entitlement d blocked admin plan granted)) = true.
Proof. by destruct d, blocked, admin. Qed.

Definition blocked_of (d : Db) (pubkey : string) : bool :=
  match nsec d !! pubkey with Some r => ns_billing_blocked r | None => false end.

(** The tables after the assignment a resolution asks for. *)
Definition assigned_db (pubkey : string) (r : Resolution) (d : Db) : Db :=
  match rs_source r with
  | Some src => if write_policy r then assign_db pubkey (rs_scheduling_id r) src d else d
  | None => d
  end.

Lemma wp_get_or_create p (Q : res exn bool -> World -> Prop) w :
  is_Some (nsec (working w) !! p) ->
  (forall e w', flash_exn e = false -> same_db w w' -> Q (Raise e) w') ->
  (forall w', same_db w w' -> Q (Ok false) w') ->
  wp (get_or_create_brainstorm_observer_nsec_by_pubkey_on_db p) Q w.
Proof.
  intros Hs Hf Hok. unfold get_or_create_brainstorm_observer_nsec_by_pubkey_on_db.
  apply wp_bind, wp_query; [intros w1 D; by apply Hf|]. intros _ w1 D.
  rewrite (bool_decide_eq_true_2 _ Hs). unfold wp, get_world, mbind, M_mbind. simpl.
  destruct (nsec_unreadable _ _); [by apply Hf|by apply Hok].
Qed.

Lemma wp_set_scheduling p sid src (Q : res exn unit -> World -> Prop) w :
  is_Some (nsec (working w) !! p) ->
  (forall e w', flash_exn e = false -> same_db w w' -> Q (Raise e) w') ->
  (forall w', committed w' = committed w -> aborted w' = false ->
     working w' = assign_db p sid src (working w) -> Q (Ok tt) w') ->
  wp (set_scheduling_for_pubkey_on_db p sid src) Q w.
Proof.
  intros Hs Hf Hok. unfold set_scheduling_for_pubkey_on_db.
  apply wp_bind, wp_get_or_create; [done|done|]. intros w1 [Hc Hw].
  apply wp_exec_raw.
  - intros k. by apply Hf.
  - intros [] d _ Hst. destruct (scheduling_fk sid (working w1)); [|done].
    injection Hst as <-. rewrite Hw. by apply Hok.
Qed.

Lemma wp_write_assignment p plan r (Q : res exn unit -> World -> Prop) w :
  is_Some (nsec (working w) !! p) ->
  (forall e w', flash_exn e = false -> same_db w w' -> Q (Raise e) w') ->
  (forall w', committed w' = committed w ->
     working w' = assigned_db p r (working w) -> Q (Ok tt) w') ->
  wp (write_assignment p plan r) Q w.
Proof.
  intros Hs Hf Hok. unfold write_assignment, assigned_db in *.
  destruct (rs_source r) as [src|]; [|by apply wp_ret, Hok].
  destruct (write_policy r); [|by apply wp_ret, Hok].
  assert (Hrest : forall w1, same_db w w1 ->
    wp (set_scheduling_for_pubkey_on_db p (rs_scheduling_id r) src) Q w1).
  { intros w1 [Hc Hd]. apply wp_set_scheduling; rewrite ?Hd; [done| |].
    - intros e w' He [? ?]. apply Hf; [done|]. split; congruence.
    - intros w' ? _ ?. apply Hok; congruence. }
  apply wp_bind. case_bool_decide; [|by apply wp_ret, Hrest].
  unfold warn_if_policy_is_inert.
  apply wp_bind, wp_query; [intros w1 D; by apply Hf|]. intros _ w1 D. by apply wp_ret, Hrest.
Qed.

Lemma wp_upsert p s i g (Q : res exn unit -> World -> Prop) w :
  (forall e w', flash_exn e = false -> same_db w w' -> Q (Raise e) w') ->
  (forall w' sub now created, committed w' = committed w ->
     working w' = upsert_db p (upserted p s sub i g now created) (working w) -> Q (Ok tt) w') ->
  wp (upsert_user_subscription_on_db p s i g) Q w.
Proof.
  intros Hf Hok. unfold upsert_user_subscription_on_db.
  apply wp_bind. unfold wp at 1, utc_now at 1. simpl.
  set (w1 := with_db _ _ _ _). assert (D : same_db w w1) by done.
  assert (Hun : wp (exec_unbound (A := unit)) Q w1) by by apply Hf.
  destruct (bind_text (fs_subscriber_id s)) as [sub|]; [|done].
  destruct (amount_ok s); simpl; [|done].
  apply wp_bind. unfold wp at 1, db_now at 1. simpl.
  set (w2 := with_db w1 _ _ _). assert (D2 : same_db w w2) by done. destruct D2 as [Hc Hd].
  apply wp_exec; [by apply Hf|]. unfold checked. rewrite Hd. intros [] d _.
  destruct (upsert_text_ok s sub); [|done]. destruct (_ && _); [|done].
  intros [= <-]. eapply Hok; [done|reflexivity].
Qed.

(** The outcome of a resolution, and the tables it leaves. *)
Definition outcome_of (r : Resolution) : EntitlementOutcome :=
  {| applied := write_policy r; reason := rs_reason r |}.

Definition resolution_in (d : Db) (p : string) (s : FlashSubscription) (plan : PlanRow)
    (now : Z) (existing : option SubRow) : Resolution :=
  resolution_for s plan now existing (blocked_of d p) (is_admin_held (source_of d p)).

(** One table update: the assignment and the record together. *)
Definition entitled_db (p : string) (r : Resolution) (row : option SubRow -> SubRow)
    (d : Db) : Db :=
  upsert_db p row (assigned_db p r d).

Lemma wp_grant_and_record p s plan now ex (Q : res exn EntitlementOutcome -> World -> Prop) w :
  is_Some (nsec (working w) !! p) ->
  let rs := resolution_in (working w) p s plan now ex in
  let after sub t created := entitled_db p rs
        (upserted p s sub (bp_id plan) (rs_granted rs) t created) (working w) in
  (forall e w', flash_exn e = false -> committed w' = committed w -> Q (Raise e) w') ->
  (forall k sub t created w', committed w' = after sub t created -> Q (Raise (DbError k)) w') ->
  (forall sub t created w', committed w' = after sub t created ->
     working w' = after sub t created -> Q (Ok (outcome_of rs)) w') ->
  wp (grant_and_record p s plan now ex) Q w.
Proof.
  intros Hs rs after Hf Hl Hok. unfold grant_and_record.
  apply wp_bind, wp_query; [by intros w1 []; apply Hf|]. intros _ w1 [C1 D1].
  apply wp_bind, wp_query; [intros w2 []; apply Hf; [done|congruence]|]. intros _ w2 [C2 D2].
  rewrite D1 in *. change (resolution_for _ _ _ _ _ _) with rs.
  apply wp_bind, wp_write_assignment; [by rewrite D2| |].
  { intros e w3 He []. apply Hf; [done|congruence]. }
  intros w3 C3 D3. apply wp_bind, wp_upsert.
  { intros e w4 He []. apply Hf; [done|congruence]. }
  intros w4 sub t created C4 D4. rewrite D3, D2 in D4. change (working w4 = after sub t created) in D4.
  apply wp_bind, wp_commit.
  - intros k. apply Hf; [done|]. simpl. congruence.
  - intros k. by apply (Hl k sub t created).
  - intros _. apply wp_ret. by apply (Hok sub t created).
Qed.

(** ** The whole handler *)

Lemma wp_and_ticks {A} (m : M A) (Q : res exn A -> World -> Prop) w :
  stable ticks m -> wp m (fun r w' => ticks w w' -> Q r w') w -> wp m Q w.
Proof. unfold wp, stable. auto. Qed.

(** How reconciling [pubkey] may end, from tables [d] with nothing pending:
    stopped before writing; written and acknowledged; raised with nothing
    written; or written, with the acknowledgement of the commit lost. *)
Inductive reconciled (w : World) (pubkey : string) (sid : json) (allow : bool)
  : res exn EntitlementOutcome -> World -> Prop :=
  | Stopped why w' :
      settled why = false -> same_db w w' ->
      reconciled w pubkey sid allow (Ok {| applied := false; reason := why |}) w'
  | Raised e w' :
      committed w' = committed w -> (flash_exn e = true -> same_db w w') -> reconciled w pubkey sid allow (Raise e) w'
  | Written s plan now sub t created w1 r w' :
      consult_ok w w1 pubkey sid allow s plan (user_subscription (working w) !! pubkey) ->
      ticks w1 w' ->
      let rs := resolution_in (working w) pubkey s plan now
                  (user_subscription (working w) !! pubkey) in
      let d' := entitled_db pubkey rs
                  (upserted pubkey s sub (bp_id plan) (rs_granted rs) t created) (working w) in
      committed w' = d' ->
      (r = Ok (outcome_of rs) /\ working w' = d' \/ exists k, r = Raise (DbError k)) ->
      reconciled w pubkey sid allow r w'.

Lemma ticks_grant_and_record p s plan now ex : stable ticks (grant_and_record p s plan now ex).
Proof.
  unfold grant_and_record, is_billing_blocked_on_db, get_scheduling_source_on_db,
    write_assignment, warn_if_policy_is_inert, get_scheduling_on_db,
    set_scheduling_for_pubkey_on_db, get_or_create_brainstorm_observer_nsec_by_pubkey_on_db,
    upsert_user_subscription_on_db.
  solve_stable.
Qed.

Lemma consult_stops p sid y a w why w' :
  consult p sid y a w = (Ok (inl why), w') -> settled why = false.
Proof.
  unfold consult. intros Hrun.
  repeat first
    [ apply bind_Ok_inv in Hrun as ([] & ? & _ & Hrun)
    | apply bind_Ok_inv in Hrun as (? & ? & _ & Hrun)
    | match type of Hrun with context [match ?x with _ => _ end] => destruct x end
    | progress injection Hrun as <- _ | done ].
Qed.

Lemma apply_entitlement_reconciled p sid y a w r w' :
  p <> "" -> apply_entitlement (JStr p) sid y a w = (r, w') -> reconciled w p sid a r w'.
Proof.
  intros Hp. unfold apply_entitlement. simpl. apply String.eqb_neq in Hp as ->. simpl.
  apply (wp_run _ (reconciled w p sid a)). unfold apply_entitlement_to.
  apply wp_bind, wp_reads; [apply reads_consult|by intros e w1 D; apply Raised; [apply D|]|].
  intros c w1 [C1 D1] Hc. destruct c as [why|[[s plan] ex]].
  - apply wp_ret, Stopped; [by eapply consult_stops|done].
  - apply consult_inv in Hc. pose proof (co_existing _ _ _ _ _ _ _ _ Hc) as Hex.
    pose proof (co_user _ _ _ _ _ _ _ _ Hc) as Hu.
    apply wp_bind, wp_reads; [solve_stable| |].
    { intros e w2 D2. assert (D : same_db w w2) by by trans w1. apply Raised; [apply D|done]. }
    intros now w2 [C2 D2] Hnow. assert (D : working w2 = working w) by congruence.
    apply (stable_run _ _ _ _ _ ticks_utc_now) in Hnow.
    subst ex. apply wp_and_ticks; [apply ticks_grant_and_record|].
    apply wp_grant_and_record; rewrite ?D; [done| | |].
    + intros e w3 He C3 _. apply Raised; congruence.
    + intros k sub t created w3 C3 T. eapply Written; eauto. by trans w2.
    + intros sub t created w3 C3 D3 T. eapply Written; eauto. by trans w2.
Qed.

(** ** What it writes *)

Lemma entitled_db_other p q r row d : q <> p ->
  nsec (entitled_db p r row d) !! q = nsec d !! q
  /\ user_subscription (entitled_db p r row d) !! q = user_subscription d !! q.
Proof.
  intros Hq. unfold entitled_db, assigned_db, upsert_db, assign_db.
  destruct (rs_source r); [destruct (write_policy r)|]; simpl;
    by rewrite ?lookup_alter_ne, ?lookup_insert_ne by done.
Qed.

Lemma entitled_db_tables p r row d :
  scheduling (entitled_db p r row d) = scheduling d
  /\ billing_plan (entitled_db p r row d) = billing_plan d
  /\ flash_webhook_event (entitled_db p r row d) = flash_webhook_event d.
Proof.
  unfold entitled_db, assigned_db. by destruct (rs_source r); [destruct (write_policy r)|].
Qed.

Lemma entitled_db_record p r row d :
  user_subscription (entitled_db p r row d) !! p = Some (row (user_subscription d !! p)).
Proof.
  unfold entitled_db, assigned_db, upsert_db. simpl. rewrite lookup_insert_eq.
  by destruct (rs_source r); [destruct (write_policy r)|].
Qed.

Lemma entitled_db_user p r row d :
  nsec (entitled_db p r row d) !! p =
  match rs_source r with
  | Some src => if write_policy r then assign_row (rs_scheduling_id r) src <$> nsec d !! p
                else nsec d !! p
  | None => nsec d !! p
  end.
Proof.
  unfold entitled_db, assigned_db, upsert_db, assign_db.
  destruct (rs_source r); [destruct (write_policy r)|]; simpl; by rewrite ?lookup_alter_eq.
Qed.

(** The tables after a run, whatever it returned or raised: as before, or with
    one subscriber's record and assignment written together. *)
Lemma reconciled_tables w p sid a r w' : working w = committed w ->
  reconciled w p sid a r w' ->
  committed w' = committed w
  \/ exists s plan now sub t created w1,
       consult_ok w w1 p sid a s plan (user_subscription (committed w) !! p) /\ ticks w1 w'
       /\ let rs := resolution_in (committed w) p s plan now (user_subscription (committed w) !! p) in
          committed w' = entitled_db p rs
            (upserted p s sub (bp_id plan) (rs_granted rs) t created) (committed w).
Proof.
  intros Hw [why w2 _ [Hc _]|e w2 Hc _|s plan now sub t created w1 r2 w2 Hok Ht rs d' Hc _];
    [by left|by left|right].
  subst rs d'. rewrite Hw in *. eauto 12.
Qed.

End entitlement.
