(* ===== verification/EntitlementProps.v ===== *)
(** * The properties of entitlement

    The decision table, the truth table and [apply_entitlement]: each theorem
    is followed by a witness that applies it at a concrete world. *)

From Stdlib Require Import Ascii String.
From S2P Require Import Prelude Json Time Types Effects Repos FlashMock Flash Billing.
From S2P Require Import Entitlement Scenario.
Local Open Scope string_scope.

(** ** The decision table *)

Lemma decide_past_due_revokes policy :
  decide_past_due policy = REVOKE <->
  dunning_cancels_after_final_failure policy = Some false
  /\ exists made allowed, dunning_attempts policy = Some made
       /\ dunning_max_attempts policy = Some allowed /\ (allowed <= made)%Z.
Proof.
  unfold decide_past_due. destruct policy as [mode mx att fl]; simpl. split.
  - destruct fl as [[]|]; try done. destruct att as [made|], mx as [allowed|]; try done.
    destruct (Z.leb_spec allowed made); [eauto 6|done].
  - intros (-> & made & allowed & -> & -> & Hle). by apply Z.leb_le in Hle as ->.
Qed.

(** C10: exactly when a status takes a policy away.  Ended statuses do; a
    [past_due] one only when Flash says it never cancels and both attempt
    counts read and are spent; a [canceled] one when its policy is immediate or
    no end date lies ahead.  Anything else — an unknown status, a missing or
    unreadable policy field — never revokes. *)
Theorem decide_revokes_iff st cancel period_end now policy :
  decide_entitlement st cancel period_end now policy = REVOKE <->
  st = "expired" \/ st = "paused"
  \/ (st = "past_due"
      /\ dunning_cancels_after_final_failure policy = Some false
      /\ exists made allowed, dunning_attempts policy = Some made
           /\ dunning_max_attempts policy = Some allowed /\ (allowed <= made)%Z)
  \/ (st = "canceled"
      /\ (cancellation_mode policy = Some "immediate"
          \/ forall ends_at, FlashMock.or_else cancel period_end = Some ends_at ->
               (ends_at <= now)%Z)).
Proof.
  unfold decide_entitlement, str_in, ENTITLING_STATUSES, ENDED_STATUSES,
    PAST_DUE_STATUS, CANCELLED_STATUS. simpl.
  destruct (String.eqb_spec st "active") as [->|]; simpl; [naive_solver|].
  destruct (String.eqb_spec st "trial") as [->|]; simpl; [naive_solver|].
  destruct (String.eqb_spec st "expired") as [->|]; simpl; [naive_solver|].
  destruct (String.eqb_spec st "paused") as [->|]; simpl; [naive_solver|].
  destruct (String.eqb_spec st "past_due") as [->|]; [|].
  - rewrite decide_past_due_revokes. split; [intros [? ?]; right; right; left; done|].
    intros [?|[?|[[_ ?]|[? _]]]]; done.
  - destruct (String.eqb_spec st "canceled") as [->|]; [|naive_solver].
    unfold decide_cancelled, CANCELLATION_IMMEDIATE. case_bool_decide; [naive_solver|].
    destruct (FlashMock.or_else cancel period_end) as [e|]; [|naive_solver].
    destruct (Z.ltb_spec now e) as [Hlt|Hge].
    + split; [done|]. intros [?|[?|[[? _]|[_ [?|Hall]]]]]; try done.
      specialize (Hall e eq_refl). lia.
    + split; [|done]. intros _. right; right; right. split; [done|]. right.
      by intros ? [= <-].
Qed.

(** The sweep, which knows neither Flash's policy nor anything after the
    moment it looks, never revokes ahead of Flash: whatever it takes back, the
    full decision takes back too, then and at every later moment. *)
Theorem sweep_never_ahead_of_flash st cancel period_end now later policy :
  (now <= later)%Z ->
  decide_entitlement st cancel period_end now UNKNOWN_LIFECYCLE_POLICY = REVOKE ->
  decide_entitlement st cancel period_end later policy = REVOKE.
Proof.
  unfold decide_entitlement. intros Hle.
  destruct (str_in st ENTITLING_STATUSES); [done|].
  destruct (str_in st ENDED_STATUSES); [done|].
  destruct (String.eqb st PAST_DUE_STATUS); [done|].
  destruct (String.eqb st CANCELLED_STATUS); [|done].
  unfold decide_cancelled. simpl. case_bool_decide; [done|].
  destruct (FlashMock.or_else cancel period_end) as [e|]; [|done].
  destruct (Z.ltb_spec now e); [done|]. destruct (Z.ltb_spec later e); [lia|done].
Qed.

Lemma sweep_never_ahead_of_flash_witness :
  decide_entitlement "canceled" None (Some 10%Z) 20 {| cancellation_mode := Some "end_of_period";
    dunning_max_attempts := None; dunning_attempts := None;
    dunning_cancels_after_final_failure := None |} = REVOKE.
Proof.
  apply (sweep_never_ahead_of_flash "canceled" None (Some 10%Z) 10 20); [lia|].
  vm_compute. reflexivity.
Defined.

(** ** Reconciling one subscriber *)

Section props.
Context {E : Env}.

(** C11: the record and the tier commit together or not at all.  From a session
    with nothing pending, whatever the run returns or raises, the durable
    tables are as they were, or hold one subscriber's record and assignment
    together; an outcome that settled nothing, and any failure that is not the
    database's own, left everything as it was. *)
Theorem apply_entitlement_atomic p sid yield_if_busy allow w r w' :
  p <> "" -> working w = committed w ->
  apply_entitlement (JStr p) sid yield_if_busy allow w = (r, w') ->
  (committed w' = committed w
   \/ exists s plan now sub t created,
        let rs := resolution_in (committed w) p s plan now
                    (user_subscription (committed w) !! p) in
        committed w' = entitled_db p rs
          (upserted p s sub (bp_id plan) (rs_granted rs) t created) (committed w))
  /\ (forall o, r = Ok o -> settled (reason o) = false ->
        committed w' = committed w /\ working w' = committed w)
  /\ (forall e, r = Raise e -> (forall k, e <> DbError k) -> committed w' = committed w).
Proof.
  intros Hp Hw Hrun. apply apply_entitlement_reconciled in Hrun; [|done]. split_and!.
  - apply reconciled_tables in Hrun as [?|(s & plan & now & sub & t & c & w1 & _ & _ & ?)];
      [by left|right|done]. by exists s, plan, now, sub, t, c.
  - intros o -> Hset. inversion Hrun as [why w2 Hwhy [Hc Hd]|
      |s plan now sub t c w1 r2 w2 Hok Ht rs d' Hc Hres]; subst; [by rewrite Hc, Hd|].
    destruct Hres as [[[= ->] _]|[k [=]]].
    exfalso. subst rs. unfold outcome_of, resolution_in, resolution_for in Hset.
    simpl in Hset. by rewrite resolve_settled in Hset.
  - intros e -> Hne. inversion Hrun as [|e2 w2 Hc _
      |s plan now sub t c w1 r2 w2 Hok Ht rs d' Hc Hres]; subst; [done|].
    destruct Hres as [[[=] _]|[k [= ->]]]. by destruct (Hne k).
Qed.

(** Nobody else moves.  Reconciling one subscriber leaves every other
    user's assignment and record, every plan mapping, every policy and every
    recorded event as it was. *)
Theorem apply_entitlement_frame p sid yield_if_busy allow w r w' :
  p <> "" -> working w = committed w ->
  apply_entitlement (JStr p) sid yield_if_busy allow w = (r, w') ->
  (forall q, q <> p -> nsec (committed w') !! q = nsec (committed w) !! q
     /\ user_subscription (committed w') !! q = user_subscription (committed w) !! q)
  /\ scheduling (committed w') = scheduling (committed w)
  /\ billing_plan (committed w') = billing_plan (committed w)
  /\ flash_webhook_event (committed w') = flash_webhook_event (committed w).
Proof.
  intros Hp Hw Hrun. apply apply_entitlement_reconciled in Hrun; [|done].
  apply reconciled_tables in Hrun as [->|(s & plan & now & sub & t & c & w1 & _ & _ & ->)];
    [done| |done].
  split; [intros q Hq; by apply entitled_db_other|apply entitled_db_tables].
Qed.

(** C1: a tier moves only on Flash's word about that very user.  If a run
    changed the user's assignment, Flash answered during it with a subscription
    attributable to them, for a plan we map, and either it entitles and they are
    not blocked — then they hold exactly that plan's policy — or its ending is
    not in doubt and no administrator put them there. *)
Theorem policy_moves_on_flash_word p sid yield_if_busy allow w r w' :
  p <> "" -> working w = committed w ->
  apply_entitlement (JStr p) sid yield_if_busy allow w = (r, w') ->
  nsec (committed w') !! p <> nsec (committed w) !! p ->
  exists s plan now i user, attributable w w' p sid allow s
    /\ billing_plan (committed w) !! i = Some plan
    /\ plan_named (fs_service_id s) (fs_plan_id s) plan = true
    /\ nsec (committed w) !! p = Some user
    /\ let decision := decide_entitlement (fs_status s) (fs_cancel_effective_date s)
                         (fs_current_period_end s) now (fs_policy s) in
       (decision = GRANT /\ ns_billing_blocked user = false
        /\ nsec (committed w') !! p = Some (assign_row (Some (bp_scheduling_id plan))
             (if String.eqb (ns_scheduling_source user) SOURCE_ADMIN
              then SOURCE_ADMIN else SOURCE_BILLING) user))
       \/ (decision = REVOKE /\ ns_scheduling_source user <> SOURCE_ADMIN
           /\ nsec (committed w') !! p = Some (assign_row None SOURCE_DEFAULT user)).
Proof.
  intros Hp Hw Hrun Hne. apply apply_entitlement_reconciled in Hrun; [|done].
  apply reconciled_tables in Hrun
    as [Heq|(s & plan & now & sub & t & c & w1 & Hok & Ht & Heq)];
    [by rewrite Heq in Hne| |done].
  destruct Hok as [Hu _ [i Hi] Hn Hword]. rewrite Hw in *. destruct Hu as [user Hu].
  exists s, plan, now, i, user.
  split; [by eapply attributable_mono|]. split_and!; try done.
  rewrite Heq in Hne |- *. revert Hne. rewrite entitled_db_user, Hu.
  unfold resolution_in, resolution_for, is_admin_held, source_of, blocked_of. rewrite Hu.
  assert (Hsrc : String.eqb (if String.eqb (ns_scheduling_source user) "" then SOURCE_DEFAULT
     else ns_scheduling_source user) SOURCE_ADMIN
     = String.eqb (ns_scheduling_source user) SOURCE_ADMIN).
  { destruct (String.eqb_spec (ns_scheduling_source user) "") as [->|]; done. }
  rewrite Hsrc. destruct (decide_entitlement _ _ _ _ _); simpl.
  - destruct (ns_billing_blocked user) eqn:Hb; simpl; [done|]. by left.
  - done.
  - destruct (String.eqb_spec (ns_scheduling_source user) SOURCE_ADMIN); simpl; [done|].
    by right.
Qed.

(** An administrator's assignment survives billing.  A user an admin put on
    a policy keeps the [admin] source through every reconcile, and their policy
    can change only to what they are paying for. *)
Theorem admin_comp_survives p sid yield_if_busy allow w r w' user :
  p <> "" -> working w = committed w ->
  apply_entitlement (JStr p) sid yield_if_busy allow w = (r, w') ->
  nsec (committed w) !! p = Some user -> ns_scheduling_source user = SOURCE_ADMIN ->
  exists user', nsec (committed w') !! p = Some user'
    /\ ns_scheduling_source user' = SOURCE_ADMIN
    /\ (ns_scheduling_id user' = ns_scheduling_id user
        \/ exists i plan, billing_plan (committed w) !! i = Some plan
             /\ ns_scheduling_id user' = Some (bp_scheduling_id plan)).
Proof.
  intros Hp Hw Hrun Hu Hadm. apply apply_entitlement_reconciled in Hrun; [|done].
  apply reconciled_tables in Hrun
    as [Heq|(s & plan & now & sub & t & c & w1 & Hok & Ht & Heq)]; [| |done].
  { exists user. rewrite Heq. eauto. }
  destruct Hok as [_ _ [i Hi] _ _]. rewrite Hw in Hi. rewrite Heq, entitled_db_user, Hu.
  unfold resolution_in, resolution_for, is_admin_held, source_of. rewrite Hu, Hadm. simpl.
  destruct (decide_entitlement _ _ _ _ _); simpl; [|by eauto|by eauto].
  destruct (blocked_of _ _); simpl; [by eauto|].
  exists (assign_row (Some (bp_scheduling_id plan)) SOURCE_ADMIN user).
  split_and!; [done|done|right; eauto].
Qed.

End props.

(** ** Witnesses: [alice]'s checkout confirms while Flash reports it active *)

Import Scenario.

Abbreviation alice_pays :=
  (apply_entitlement (E := answering "alice" "active") (JStr "alice") JNull false false demo).

Lemma apply_entitlement_atomic_witness :
  let E := unreachable true in
  committed (apply_entitlement (JStr "alice") JNull false false demo).2 = committed demo.
Proof.
  apply (apply_entitlement_atomic (E := unreachable true) "alice" JNull false false demo _ _
    ltac:(discriminate) eq_refl (surjective_pairing _))
    with (e := FlashUnavailable "Could not reach Flash: timed out"); [|discriminate].
  vm_compute. reflexivity.
Defined.

Lemma apply_entitlement_frame_witness :
  nsec (committed alice_pays.2) !! "bob" = nsec (committed demo) !! "bob".
Proof.
  apply (apply_entitlement_frame (E := answering "alice" "active") "alice" JNull false false
    demo _ _ ltac:(discriminate) eq_refl (surjective_pairing _)). discriminate.
Defined.

Lemma policy_moves_on_flash_word_witness :
  exists s, attributable (E := answering "alice" "active") demo alice_pays.2 "alice" JNull false s.
Proof.
  destruct (policy_moves_on_flash_word (E := answering "alice" "active") "alice" JNull false
    false demo _ _ ltac:(discriminate) eq_refl (surjective_pairing _)) as (s & H).
  - intros Heq. assert (Hs : (nsec (committed alice_pays.2) !! "alice"
      = Some (user (Some 7%Z) "billing"))) by (vm_compute; reflexivity).
    rewrite Heq in Hs. vm_compute in Hs. discriminate.
  - exists s. destruct H as (plan & now & i & u & Ha & _). exact Ha.
Defined.

Lemma admin_comp_survives_witness :
  exists user', nsec (committed (apply_entitlement (E := answering "carol" "expired")
      (JStr "carol") JNull false false demo).2) !! "carol" = Some user'
    /\ ns_scheduling_source user' = SOURCE_ADMIN.
Proof.
  destruct (admin_comp_survives (E := answering "carol" "expired") "carol" JNull false false
    demo _ _ (user (Some 7%Z) "admin") ltac:(discriminate) eq_refl (surjective_pairing _)
    ltac:(vm_compute; reflexivity) eq_refl) as (u & Hu & Hs & _).
  exists u. split; [exact Hu|exact Hs].
Defined.
