(* ===== verification/Webhook.v ===== *)
(** * Receiving Flash's webhooks
      ([src/app/services/flash_webhook_service.py],
       [src/app/routers/webhooks/flash.py])

    Verify, record, commit, acknowledge; then, after the acknowledgement,
    reconcile the subscriber the delivery names.  The digests and the JSON
    decoder are oracles of [Env]. *)

From Stdlib Require Import Ascii String.
From S2P Require Import Prelude Json Time Types Effects Repos FlashMock Flash Billing.
Local Open Scope string_scope.

Definition MALFORMED_EVENT := "_malformed".
Definition PROBE_EVENT := "credential.check".

(** [_DISCRIMINATORS]. *)
Definition discriminators (event : string) : list string :=
  if String.eqb event "subscription.activated" then ["activatedAt"]
  else if String.eqb event "subscription.renewed" then ["invoiceId"; "periodNumber"]
  else if String.eqb event "subscription.past_due" then ["attemptNumber"; "firstFailedAt"]
  else if String.eqb event "subscription.canceled" then ["canceledAt"]
  else if String.eqb event "subscription.expired" then ["expiredAt"]
  else [].

Definition RECOGNISED_EVENTS : list string :=
  ["subscription.activated"; "subscription.renewed"; "subscription.past_due";
   "subscription.canceled"; "subscription.expired"].

Record SignatureParts := { sg_timestamp : Z; sg_signature : string }.

(** Who an event is about, as the payload carries it. *)
Record DeliveryTarget := { dt_external_ref : json; dt_subscription_id : json }.

Definition delivery_target (payload : option json) : DeliveryTarget :=
  let data := match payload with
              | Some (JObj p) => match dget "data" p with JObj d => d | _ => [] end
              | _ => []
              end in
  {| dt_external_ref := dget "externalRef" data;
     dt_subscription_id := dget "subscriptionId" data |}.

Record RecordedDelivery := {
  rd_event_id : option Z;
  rd_event : string;
  rd_subscription_id : json;
  rd_external_ref : json;
  rd_duplicate : bool;
  rd_event_timestamp : option Z;
}.

Definition needs_processing (r : RecordedDelivery) : bool :=
  negb (rd_duplicate r) && bool_decide (is_Some (rd_event_id r))
  && str_in (rd_event r) RECOGNISED_EVENTS.

(** ** Signatures *)

(** One [key=value] segment of the header, into the dict. *)
Definition add_field (fields : list (string * string)) (segment : string)
  : list (string * string) :=
  match py_partition "=" segment with
  | Some (k, v) => dict_set (py_strip k) (py_strip v) fields
  | None => fields
  end.

Definition parse_signature_header (raw : option string) : option SignatureParts :=
  match raw with
  | None | Some "" => None
  | Some s =>
      let fields := foldl add_field [] (py_split "," s) in
      t ← dict_get "t" fields;
      v ← dict_get "v1" fields;
      if String.eqb t "" || String.eqb v "" then None
      else n ← py_int t; Some {| sg_timestamp := n; sg_signature := v |}
  end.

Definition is_timestamp_fresh (timestamp now tolerance_seconds : Z) : bool :=
  (Z.abs (now - timestamp) <=? tolerance_seconds)%Z.

(** ** The body *)

Definition read_delivery_body {E : Env} (raw_body : string)
  : string * list (string * json) * json :=
  match json_loads raw_body with
  | None => (MALFORMED_EVENT, [], JObj [("_unparseable", JStr (decode_replace raw_body))])
  | Some (JObj p) =>
      (match dget "event" p with
       | JStr e => if String.eqb e "" then MALFORMED_EVENT else e
       | _ => MALFORMED_EVENT
       end,
       match dget "data" p with JObj d => d | _ => [] end,
       JObj p)
  | Some v => (MALFORMED_EVENT, [], JObj [("_unexpected", v)])
  end.

(** The first discriminator the data carries a value for. *)
Fixpoint first_field (fields : list string) (data : list (string * json))
  : option (string * json) :=
  match fields with
  | [] => None
  | f :: rest =>
      match dget f data with
      | JNull => first_field rest data
      | v => Some (f, v)
      end
  end.

Definition build_dedupe_key {E : Env} (event : string) (data : list (string * json))
    (raw_body : string) : string :=
  let subscription_id := str_or_empty (dget "subscriptionId" data) in
  subscription_id ++ ":" ++ event ++ ":" ++
  match first_field (discriminators event) data with
  | Some (f, v) => f ++ "=" ++ py_str v
  | None => "sha256=" ++ sha256_hex raw_body
  end.

Definition parse_event_timestamp (payload : json) : res exn (option Z) :=
  match payload with
  | JObj p => parse_flash_timestamp (dget "timestamp" p) false
  | _ => Raise AttributeError
  end.

Section webhook.
Context {E : Env}.

Definition compute_signature (secret : string) (timestamp : Z) (raw_body : string) : string :=
  hmac_sha256_hex secret (pretty timestamp ++ "." ++ raw_body).

Definition signature_matches (secret : string) (timestamp : Z) (raw_body provided : string)
  : bool :=
  String.eqb (compute_signature secret timestamp raw_body) provided.

Definition accepted_webhook_secrets : list string :=
  filter (fun s => negb (String.eqb s "") = true)
    [flash_webhook_secret settings; flash_webhook_secret_previous settings].

Definition verify_delivery (signature_header : option string) (raw_body : string)
    (secrets : list string) (now tolerance_seconds : Z) : res exn SignatureParts :=
  match parse_signature_header signature_header with
  | None => Raise (FlashSignatureError "malformed_signature_header" 400)
  | Some parts =>
      if negb (is_timestamp_fresh (sg_timestamp parts) now tolerance_seconds)
      then Raise (FlashSignatureError "stale_timestamp" 400)
      else if existsb (fun secret =>
                signature_matches secret (sg_timestamp parts) raw_body (sg_signature parts))
              secrets
      then Ok parts
      else Raise (FlashSignatureError "invalid_signature" 401)
  end.

(** ** Recording *)

Definition record_delivery (raw_body : string) (delivery_timestamp : Z)
  : M RecordedDelivery :=
  let '(event, data, payload) := read_delivery_body raw_body in
  let target := delivery_target (Some payload) in
  ts ← lift (parse_event_timestamp payload);
  claimed_at ← utc_now;
  event_id ← insert_flash_webhook_event_on_db event delivery_timestamp ts
    (dt_subscription_id target) payload (build_dedupe_key event data raw_body) (Some claimed_at);
  _ ← commit;
  mret {| rd_event_id := event_id; rd_event := event;
          rd_subscription_id := dt_subscription_id target;
          rd_external_ref := dt_external_ref target;
          rd_duplicate := bool_decide (event_id = None);
          rd_event_timestamp := ts |}.

Definition handle_delivery (raw_body : string) (delivery_timestamp : Z)
  : M RecordedDelivery :=
  recorded ← record_delivery raw_body delivery_timestamp;
  if String.eqb (rd_event recorded) PROBE_EVENT then
    match rd_event_id recorded with
    | Some id =>
        now ← utc_now;
        _ ← mark_webhook_event_processed_on_db id now;
        _ ← commit;
        mret recorded
    | None => mret recorded
    end
  else mret recorded.

(** ** Processing, after the acknowledgement *)

Definition DB_RETRIES : nat := 3.

(** [_apply_with_db_retries]: [left] attempts remain, this one included. *)
Fixpoint apply_with_db_retries_from (left : nat) (external_ref subscription_id : json)
  : M EntitlementOutcome :=
  match left with
  | O => raise (OtherException "AssertionError")
  | S left' =>
      try_ (apply_entitlement external_ref subscription_id false false)
        (fun e => match e with
                  | DbError OperationalError | DbError InterfaceError =>
                      if (left' =? 0)%nat then raise e
                      else _ ← rollback;
                           apply_with_db_retries_from left' external_ref subscription_id
                  | _ => raise e
                  end)
  end.

Definition apply_with_db_retries := apply_with_db_retries_from DB_RETRIES.

(** The exception's class name, as it is stored. *)
Definition exn_name (e : exn) : string :=
  match e with
  | FlashUnavailable _ => "FlashUnavailable"
  | FlashCredentialError => "FlashCredentialError"
  | FlashRefused _ => "FlashRefused"
  | FlashServiceMissing _ => "FlashServiceMissing"
  | FlashSignatureError _ _ => "FlashSignatureError"
  | FlashConfigError => "FlashConfigError"
  | HTTPException _ => "HTTPException"
  | DbError OperationalError => "OperationalError"
  | DbError InterfaceError => "InterfaceError"
  | DbError IntegrityError => "IntegrityError"
  | DbError DataError => "DataError"
  | DbError PendingRollback => "PendingRollbackError"
  | TypeError => "TypeError"
  | AttributeError => "AttributeError"
  | OverflowError => "OverflowError"
  | KeyError => "KeyError"
  | OtherException _ => "Exception"
  end.

Definition py_take (n : nat) (s : string) : string := of_chars (take n (chars s)).

Definition err_str (e : exn) : string :=
  match e with FlashUnavailable m => m | _ => exn_str e end.

(** [_record_failure]: rolls back, notes the reason, and swallows its own
    failure. *)
Definition record_failure (event_id : option Z) (err : exn) : M unit :=
  match event_id with
  | None => mret tt
  | Some id =>
      try_ (_ ← rollback;
            _ ← record_webhook_event_failure_on_db id
                  (py_take 500 (exn_name err ++ ": " ++ err_str err));
            commit)
           (fun _ => mret tt)
  end.

(** What follows a reconcile that returned. *)
Definition settle_delivery (recorded : RecordedDelivery) (outcome : EntitlementOutcome)
  : M unit :=
  match rd_event_id recorded with
  | None => mret tt
  | Some id =>
      _ ← (if settled (reason outcome) then
             now ← utc_now;
             _ ← mark_webhook_event_processed_on_db id now;
             update_last_event_at_on_db (rd_external_ref recorded) (rd_event_timestamp recorded)
           else record_webhook_event_failure_on_db id (reason_value (reason outcome)));
      commit
  end.

Definition process_delivery (recorded : RecordedDelivery) : M unit :=
  if negb (needs_processing recorded) then mret tt else
  try_ (outcome ← apply_with_db_retries (rd_external_ref recorded) (rd_subscription_id recorded);
        settle_delivery recorded outcome)
    (fun err => match err with
       | FlashUnavailable _ =>
           _ ← record_failure (rd_event_id recorded) err;
           _ ← apply_payload_fallback (rd_event recorded) (rd_external_ref recorded);
           mret tt
       | _ => record_failure (rd_event_id recorded) err
       end).

(** Its own session; whatever fails is logged, never raised. *)
Definition process_delivery_in_background (recorded : RecordedDelivery) : M unit :=
  try_ (with_session (process_delivery recorded)) (fun _ => mret tt).

(** ** The endpoint *)

(** [int(time.time())]. *)
Definition unix_now : M Z := t ← utc_now; mret (t / 1000000 - 62135596800)%Z.

(** The endpoint's function; the answer goes out when it returns: the reply's
    [duplicate] and whether the background task was scheduled. *)
Definition receive_delivery (signature_header : option string) (raw_body : string)
  : M (RecordedDelivery * bool) :=
  now ← unix_now;
  match verify_delivery signature_header raw_body accepted_webhook_secrets now
          (flash_webhook_tolerance_seconds settings) with
  | Raise (FlashSignatureError _ code) => raise (HTTPException code)
  | Raise e => raise e
  | Ok parts =>
      recorded ← handle_delivery raw_body (sg_timestamp parts);
      mret (recorded, needs_processing recorded)
  end.

(** With [get_db] around it, whose commit comes after the answer. *)
Definition receive_flash_webhook (signature_header : option string) (raw_body : string)
  : M (RecordedDelivery * bool) :=
  with_session (receive_delivery signature_header raw_body).

End webhook.

(** ** Start-up checks *)

Definition DEPLOY_ENVIRONMENT_LOCAL := "LOCAL".

Definition describes_rotation (previous_secret : string) : bool :=
  negb (String.eqb previous_secret "").

Definition validate_flash_config (enabled : bool) (api_key webhook_secret base_url : string)
    (mock_enabled : bool) (deploy_environment : string) : res exn unit :=
  if negb enabled then Ok tt
  else if mock_enabled && negb (String.eqb deploy_environment DEPLOY_ENVIRONMENT_LOCAL)
  then Raise FlashConfigError
  else if existsb (fun v => String.eqb v "") [api_key; webhook_secret; base_url]
  then Raise FlashConfigError
  else Ok tt.
