(* ===== verification/BillingSync.v ===== *)
(** * The periodic half of billing
      ([src/app/services/billing_sync_service.py],
       [src/app/cronjobs/billing_sync.py])

    The lapse sweep, the reconcile batch and the replay of recorded events.
    A batch is a left fold over the rows its query returned; a row's own
    transaction commits or rolls back before the next row starts. *)

From Stdlib Require Import Ascii String.
From S2P Require Import Prelude Json Time Types Effects Repos FlashMock Flash Billing Webhook.
Local Open Scope string_scope.

Section sync.
Context {E : Env}.

(** ** The lapse sweep *)

(** The decision on a stored row: the policy behind it is not recorded, so it
    is unknown. *)
Definition lapse_decision (row : SubRow) (now : Z) : EntitlementDecision :=
  decide_entitlement (us_status row) (us_cancel row) (us_period_end row) now
    UNKNOWN_LIFECYCLE_POLICY.

(** One candidate: [true] when its policy was taken back. *)
Definition revoke_lapsed_row (now : Z) (row : SubRow) : M bool :=
  match us_granted row with
  | None => mret false
  | Some g =>
      if negb (bool_decide (lapse_decision row now = REVOKE)) then mret false else
      source ← get_scheduling_source_on_db (us_pubkey row);
      let r := resolve_entitlement REVOKE false (is_admin_held source) g (Some g) in
      match rs_source r with
      | Some src =>
          if write_policy r then
            _ ← set_scheduling_for_pubkey_on_db (us_pubkey row) (rs_scheduling_id r) src;
            _ ← clear_granted_scheduling_on_db (us_pubkey row);
            _ ← commit;
            mret true
          else mret false
      | None => mret false
      end
  end.

Definition revoke_lapsed_entitlements (now : option Z) : M nat :=
  at_ ← match now with Some t => mret t | None => utc_now end;
  rows ← select_entitlement_candidates_on_db;
  fold_each rows 0%nat (fun n row =>
    taken ← revoke_lapsed_row at_ row;
    mret (if taken : bool then S n else n, false)).

(** ** The reconcile batch *)

Definition unsettled_reason (r : EntitlementReason) : bool :=
  match r with
  | UNKNOWN_USER | UNKNOWN_PLAN | UNKNOWN_SUBSCRIPTION | REFERENCE_MISMATCH
  | NO_REFERENCE => true
  | _ => false
  end.

Record ReconcileResult := { rc_reconciled : nat; rc_failed : nat }.

Definition note_failure (pubkey why : string) : M unit :=
  _ ← record_sync_failure_on_db pubkey why; commit.

(** One candidate: the counts so far, and whether to abandon the batch.  [h] is
    the object the query loaded; its key is read again after a rollback. *)
Definition reconcile_row (acc : ReconcileResult) (h : nat * SubRow)
  : M (ReconcileResult * bool) :=
  let failed := {| rc_reconciled := rc_reconciled acc; rc_failed := S (rc_failed acc) |} in
  try_
    (pubkey ← attr h us_pubkey;
     outcome ← apply_entitlement (JStr pubkey) JNull false false;
     if unsettled_reason (reason outcome) then
       pubkey ← attr h us_pubkey;
       _ ← note_failure pubkey (reason_value (reason outcome));
       mret (failed, false)
     else
       mret ({| rc_reconciled := S (rc_reconciled acc); rc_failed := rc_failed acc |}, false))
    (fun e => match e with
       | FlashCredentialError =>
           _ ← rollback;
           pubkey ← attr h us_pubkey;
           _ ← note_failure pubkey "credentials refused";
           mret (failed, true)
       | FlashUnavailable why =>
           _ ← rollback;
           pubkey ← attr h us_pubkey;
           _ ← note_failure pubkey why;
           mret (failed, false)
       | _ => raise e
       end).

Definition reconcile_subscriptions (limit : nat) (stale_after abandon_pending_after : Z)
    (now : option Z) : M ReconcileResult :=
  at_ ← match now with Some t => mret t | None => utc_now end;
  candidates ← select_reconcile_candidates_on_db at_ stale_after limit
    {| ab_after := abandon_pending_after; ab_error := reason_value UNKNOWN_SUBSCRIPTION |};
  rows ← loaded candidates;
  fold_each rows {| rc_reconciled := 0; rc_failed := 0 |} reconcile_row.

(** ** Replaying recorded events *)

Definition record_event_failure (id : Z) (why : string) : M unit :=
  _ ← record_webhook_event_failure_on_db id why; commit.

Definition replay_claimed (now : Z) (h : nat * EventRow) : M bool :=
  payload ← attr h ev_payload;
  let target := delivery_target payload in
  try_
    (outcome ← apply_entitlement (dt_external_ref target) (dt_subscription_id target) true false;
     id ← attr h ev_id;
     if negb (settled (reason outcome)) then
       _ ← record_event_failure id (reason_value (reason outcome));
       mret false
     else
       _ ← mark_webhook_event_processed_on_db id now;
       happened ← attr h ev_event_timestamp;
       _ ← update_last_event_at_on_db (dt_external_ref target) happened;
       _ ← commit;
       mret true)
    (fun e =>
       _ ← rollback;
       id ← attr h ev_id;
       match e with
       | FlashUnavailable why =>
           _ ← record_event_failure id why;
           event ← attr h ev_event;
           _ ← apply_payload_fallback event (dt_external_ref target);
           mret false
       | _ =>
           _ ← record_event_failure id (exn_repr e);
           mret false
       end).

Definition replay_event (now stale_after : Z) (h : nat * EventRow) : M bool :=
  id ← attr h ev_id;
  got ← claim_webhook_event_on_db id now stale_after;
  _ ← commit;
  if negb got then mret false else
  payload ← attr h ev_payload;
  match payload with
  | None =>
      id ← attr h ev_id;
      _ ← record_event_failure id "payload missing";
      mret false
  | Some _ => replay_claimed now h
  end.

Definition replay_unprocessed_events (limit : nat) (stale_after max_attempts : Z) : M nat :=
  at_ ← utc_now;
  events ← select_abandoned_webhook_events_on_db at_ stale_after max_attempts limit
             RECOGNISED_EVENTS;
  rows ← loaded events;
  fold_each rows 0%nat (fun n h =>
    replayed ← replay_event at_ stale_after h;
    mret (if replayed : bool then S n else n, false)).

(** ** One cycle of the cron job *)

Record SyncSettings := {
  replay_batch : nat;
  replay_stale_after : Z;
  reconcile_batch : nat;
  reconcile_stale_after : Z;
  abandon_pending_after : Z;
}.

(** The three duties in order, in one session; a failing cycle is logged and
    the loop goes on. *)
Definition billing_sync_cycle (c : SyncSettings) : M unit :=
  try_ (with_session (
          _ ← replay_unprocessed_events (replay_batch c) (replay_stale_after c)
                (billing_replay_max_attempts settings);
          _ ← revoke_lapsed_entitlements None;
          _ ← reconcile_subscriptions (reconcile_batch c) (reconcile_stale_after c)
                (abandon_pending_after c) None;
          mret tt))
       (fun _ => mret tt).

End sync.
