(* ===== verification/SchedulingAdmin.v ===== *)
(** * Administering scheduling policies and who is on them
      ([src/app/routers/admin/scheduling/router.py],
       [src/app/routers/admin/users/router.py], the writes of
       [src/app/repos/scheduling_repo.py])

    Exactly one policy is the default: a partial unique index rejects a second
    one, and the endpoints keep the last one from being cleared or deleted. *)

From Stdlib Require Import Ascii String.
From S2P Require Import Prelude Json Time Types Effects Repos FlashMock Flash Billing Scenario.
Local Open Scope string_scope.

Section scheduling_admin.
Context {E : Env}.

(** ** Statements on [scheduling] *)

(** The partial unique index over the default rows, apart from row [except]. *)
Definition no_other_default (except : Z) (d : Db) : bool :=
  forallb (fun '(i, r) => (i =? except)%Z || negb (sc_is_default r))
    (map_to_list (scheduling d)).

Definition sched_ints_ok (r : SchedRow) : bool :=
  int4_ok (sc_interval_seconds r) && int4_ok (sc_priority r)
  && int4_ok (sc_manual_quota_limit r) && int4_ok (sc_manual_quota_window_seconds r).

Definition put_scheduling (r : SchedRow) : Stmt unit := fun _ d =>
  if negb (text_ok (sc_name r) && sched_ints_ok r) then Raise DataError
  else if sc_is_default r && negb (no_other_default (sc_id r) d) then Raise IntegrityError
  else Ok (tt, with_scheduling d (<[sc_id r := r]> (scheduling d))).

Definition clear_default (r : SchedRow) : SchedRow :=
  {| sc_id := sc_id r; sc_name := sc_name r; sc_interval_seconds := sc_interval_seconds r;
     sc_priority := sc_priority r; sc_enabled := sc_enabled r;
     sc_manual_quota_limit := sc_manual_quota_limit r;
     sc_manual_quota_window_seconds := sc_manual_quota_window_seconds r;
     sc_is_default := false; sc_is_public := sc_is_public r;
     sc_support_included := sc_support_included r |}.

Definition unset_default_scheduling_on_db : M unit :=
  exec_raw (modify (fun d => (tt, with_scheduling d (clear_default <$> scheduling d)))).

(** The body of a creation; the id comes from the sequence. *)
Record NewScheduling := {
  n_name : string; n_interval : Z; n_priority : Z; n_enabled : bool;
  n_is_default : bool; n_is_public : bool; n_support : bool;
  n_quota_limit : Z; n_quota_window : Z;
}.

Definition create_scheduling_on_db (b : NewScheduling) : M SchedRow :=
  w ← get_world;
  let i := scheduling_seq w in
  let r := {| sc_id := i; sc_name := n_name b; sc_interval_seconds := n_interval b;
              sc_priority := n_priority b; sc_enabled := n_enabled b;
              sc_manual_quota_limit := n_quota_limit b;
              sc_manual_quota_window_seconds := n_quota_window b;
              sc_is_default := n_is_default b; sc_is_public := n_is_public b;
              sc_support_included := n_support b |} in
  _ ← (fun w => (Ok tt, with_seqs w (plan_seq w) (event_seq w) (i + 1)%Z));
  _ ← exec_raw (fun n d =>
        match scheduling d !! i with
        | Some _ => Raise IntegrityError
        | None => put_scheduling r n d
        end);
  exec_raw (query (fun _ d => default r (scheduling d !! i))).

(** A partial update: the fields sent, null included. *)
Record SchedPatch := {
  p_name : option (option string); p_interval : option (option Z);
  p_priority : option (option Z); p_enabled : option (option bool);
  p_is_default : option (option bool); p_is_public : option (option bool);
  p_support : option (option bool); p_quota_limit : option (option Z);
  p_quota_window : option (option Z);
}.

Definition no_fields (p : SchedPatch) : bool :=
  bool_decide (p_name p = None) && bool_decide (p_interval p = None)
  && bool_decide (p_priority p = None) && bool_decide (p_enabled p = None)
  && bool_decide (p_is_default p = None) && bool_decide (p_is_public p = None)
  && bool_decide (p_support p = None) && bool_decide (p_quota_limit p = None)
  && bool_decide (p_quota_window p = None).

(** [None] when a NOT NULL column would hold null. *)
Definition patch_scheduling (r : SchedRow) (p : SchedPatch) : option SchedRow :=
  name ← default (Some (sc_name r)) (p_name p);
  interval ← default (Some (sc_interval_seconds r)) (p_interval p);
  priority ← default (Some (sc_priority r)) (p_priority p);
  enabled ← default (Some (sc_enabled r)) (p_enabled p);
  is_default ← default (Some (sc_is_default r)) (p_is_default p);
  is_public ← default (Some (sc_is_public r)) (p_is_public p);
  support ← default (Some (sc_support_included r)) (p_support p);
  limit ← default (Some (sc_manual_quota_limit r)) (p_quota_limit p);
  window ← default (Some (sc_manual_quota_window_seconds r)) (p_quota_window p);
  Some {| sc_id := sc_id r; sc_name := name; sc_interval_seconds := interval;
          sc_priority := priority; sc_enabled := enabled;
          sc_manual_quota_limit := limit; sc_manual_quota_window_seconds := window;
          sc_is_default := is_default; sc_is_public := is_public;
          sc_support_included := support |}.

Definition update_scheduling_on_db (scheduling_id : Z) (p : SchedPatch)
  : M (option SchedRow) :=
  _ ← (if no_fields p then mret tt else
       exec_raw (fun n d =>
         match scheduling d !! scheduling_id with
         | None => Ok (tt, d)
         | Some r =>
             match patch_scheduling r p with
             | None => Raise IntegrityError
             | Some r' => put_scheduling r' n d
             end
         end));
  get_scheduling_on_db scheduling_id.

Definition count_users_on_scheduling_on_db (scheduling_id : Z) : M nat :=
  exec (query (fun n d =>
    length (filter (fun r => ns_scheduling_id r = Some scheduling_id) (scan n (nsec d))))).

(** DELETE, refused while a plan, a grant or a user still points there. *)
Definition scheduling_unused (i : Z) (d : Db) : bool :=
  forallb (fun '(_, p) => negb (bp_scheduling_id p =? i)%Z) (map_to_list (billing_plan d))
  && forallb (fun '(_, u) => negb (bool_decide (us_granted u = Some i)))
       (map_to_list (user_subscription d))
  && forallb (fun '(_, u) => negb (bool_decide (ns_scheduling_id u = Some i)))
       (map_to_list (nsec d)).

Definition delete_scheduling_on_db (scheduling_id : Z) : M unit :=
  exec_raw (fun _ d =>
    if scheduling_unused scheduling_id d
    then Ok (tt, with_scheduling d (delete scheduling_id (scheduling d)))
    else Raise IntegrityError).

(** ** Policy endpoints *)

Definition create_scheduling_endpoint (b : NewScheduling) : M SchedRow :=
  with_session (
    _ ← (if n_is_default b then unset_default_scheduling_on_db else mret tt);
    create_scheduling_on_db b).

Definition update_scheduling_endpoint (scheduling_id : Z) (p : SchedPatch)
  : M (option SchedRow) :=
  with_session (
    known ← scheduling_exists_on_db scheduling_id;
    if negb known then raise (HTTPException 404) else
    _ ← match p_is_default p with
        | Some (Some true) => unset_default_scheduling_on_db
        | Some (Some false) =>
            current ← get_scheduling_on_db scheduling_id;
            match current with
            | Some r => if sc_is_default r then raise (HTTPException 409) else mret tt
            | None => mret tt
            end
        | _ => mret tt
        end;
    update_scheduling_on_db scheduling_id p).

Definition delete_scheduling_endpoint (scheduling_id : Z) : M unit :=
  with_session (
    policy ← get_scheduling_on_db scheduling_id;
    match policy with
    | None => raise (HTTPException 404)
    | Some r =>
        if sc_is_default r then raise (HTTPException 409) else
        users ← count_users_on_scheduling_on_db scheduling_id;
        if negb (users =? 0)%nat then raise (HTTPException 409) else
        delete_scheduling_on_db scheduling_id
    end).

Definition bulk_assign_scheduling_users_endpoint (scheduling_id : Z) (pubkeys : list string)
  : M nat :=
  with_session (
    known ← scheduling_exists_on_db scheduling_id;
    if negb known then raise (HTTPException 404) else
    bulk_set_scheduling_for_pubkeys_on_db pubkeys scheduling_id SOURCE_ADMIN).

(** ** User endpoints *)

Definition set_user_scheduling_endpoint (pubkey : string) (scheduling_id : Z)
  : M (option SchedRow) :=
  with_session (
    known ← scheduling_exists_on_db scheduling_id;
    if negb known then raise (HTTPException 422) else
    _ ← set_scheduling_for_pubkey_on_db pubkey (Some scheduling_id) SOURCE_ADMIN;
    get_scheduling_on_db scheduling_id).

(** The re-read of an endpoint that goes on when Flash cannot be read. *)
Definition apply_best_effort (pubkey : string) (subscription_id : json)
  : M (option EntitlementOutcome) :=
  if flash_enabled settings then
    try_ (o ← apply_entitlement (JStr pubkey) subscription_id false false; mret (Some o))
         (fun e => match e with
                   | FlashUnavailable _ | FlashCredentialError => mret None
                   | _ => raise e
                   end)
  else mret None.

Definition clear_user_scheduling_override_endpoint (pubkey : string)
  : M (option SchedRow) :=
  with_session (
    _ ← set_scheduling_for_pubkey_on_db pubkey None SOURCE_DEFAULT;
    _ ← apply_best_effort pubkey JNull;
    get_scheduling_for_pubkey_on_db pubkey).

End scheduling_admin.

(** ** Exactly one default policy *)

(** Rows are keyed by their id, and exactly one is the default. *)
Definition one_default (d : Db) : Prop :=
  (forall i r, scheduling d !! i = Some r -> sc_id r = i)
  /\ exists i r, scheduling d !! i = Some r /\ sc_is_default r = true
       /\ forall j s, scheduling d !! j = Some s -> sc_is_default s = true -> j = i.

Section one_default.
Context {E : Env}.

Lemma one_default_insert d r :
  (forall i s, scheduling d !! i = Some s -> sc_id s = i) ->
  (sc_is_default r = true ->
     forall j s, scheduling d !! j = Some s -> j <> sc_id r -> sc_is_default s = false) ->
  (sc_is_default r = false ->
     exists i s, scheduling d !! i = Some s /\ sc_is_default s = true /\ i <> sc_id r
       /\ forall j t, scheduling d !! j = Some t -> sc_is_default t = true -> j = i) ->
  one_default (with_scheduling d (<[sc_id r := r]> (scheduling d))).
Proof.
  intros Hid Hyes Hno. split; simpl.
  - intros i s [[<- <-]|[_ ?]]%lookup_insert_Some; eauto.
  - destruct (sc_is_default r) eqn:Hr.
    + exists (sc_id r), r. split_and!; [by rewrite lookup_insert_eq|done|].
      intros j s [[<- <-]|[Hne Hj]]%lookup_insert_Some; [done|].
      intros Hs. by rewrite (Hyes eq_refl j s Hj) in Hs by done.
    + destruct (Hno eq_refl) as (i & s & Hi & Hs & Hne & Huniq).
      exists i, s. split_and!; [by rewrite lookup_insert_ne|done|].
      intros j t [[<- <-]|[_ Hj]]%lookup_insert_Some Ht; [congruence|eauto].
Qed.

Lemma cleared_none d i r :
  scheduling (with_scheduling d (clear_default <$> scheduling d)) !! i = Some r ->
  sc_is_default r = false.
Proof. simpl. rewrite lookup_fmap. by intros (s & _ & ->)%fmap_Some. Qed.

Lemma cleared_ids d :
  (forall i r, scheduling d !! i = Some r -> sc_id r = i) ->
  forall i r, scheduling (with_scheduling d (clear_default <$> scheduling d)) !! i = Some r ->
    sc_id r = i.
Proof. simpl. intros Hid i r. rewrite lookup_fmap. intros (s & Hs & ->)%fmap_Some. exact (Hid i s Hs). Qed.

Lemma put_scheduling_inv r n d a d' :
  put_scheduling r n d = Ok (a, d') ->
  d' = with_scheduling d (<[sc_id r := r]> (scheduling d))
  /\ (sc_is_default r = true -> forall j s, scheduling d !! j = Some s -> j <> sc_id r ->
        sc_is_default s = false).
Proof.
  unfold put_scheduling. destruct (negb _); [done|].
  destruct (sc_is_default r) eqn:Hr; simpl.
  - destruct (no_other_default (sc_id r) d) eqn:Ho; simpl; [|done].
    intros [= <- <-]. split; [done|]. intros _ j s Hj Hne.
    apply forallb_map with (k := j) (v := s) in Ho; [|done]. simpl in Ho. apply orb_true_iff in Ho as [?|?%negb_true_iff]; [lia|done].
  - intros [= <- <-]. by split.
Qed.

Lemma wp_unset_default P (Q : res exn unit -> World -> Prop) w :
  P (committed w) ->
  (forall e w', P (committed w') -> Q (Raise e) w') ->
  (forall w', committed w' = committed w ->
     working w' = with_scheduling (working w) (clear_default <$> scheduling (working w)) ->
     Q (Ok tt) w') ->
  wp unset_default_scheduling_on_db Q w.
Proof.
  intros Hp Hf Hok. apply wp_exec_raw; [intros k; by apply Hf|].
  unfold modify. intros [] d _ [= <-]. by apply Hok.
Qed.

(** Creating a policy on tables [d0] whose defaults were cleared when the new
    one is to be the default. *)
Lemma create_scheduling_body b w :
  one_default (committed w) ->
  (forall i r, scheduling (working w) !! i = Some r -> sc_id r = i) ->
  (if n_is_default b
   then forall i r, scheduling (working w) !! i = Some r -> sc_is_default r = false
   else one_default (working w)) ->
  wp (create_scheduling_on_db b) (body_ok one_default) w.
Proof.
  intros Hc Hid Hdef. unfold create_scheduling_on_db.
  apply wp_bind. unfold get_world, wp at 1. simpl.
  apply wp_bind. unfold wp at 1. simpl. apply wp_bind, wp_exec_raw; [by split|].
  simpl. intros [] d _ Hst.
  destruct (scheduling (working w) !! scheduling_seq w) eqn:Hfree; [done|].
  apply put_scheduling_inv in Hst as [-> Hyes].
  assert (Hok : one_default (with_scheduling (working w)
     (<[scheduling_seq w := {| sc_id := scheduling_seq w; sc_name := n_name b;
          sc_interval_seconds := n_interval b; sc_priority := n_priority b;
          sc_enabled := n_enabled b; sc_manual_quota_limit := n_quota_limit b;
          sc_manual_quota_window_seconds := n_quota_window b;
          sc_is_default := n_is_default b; sc_is_public := n_is_public b;
          sc_support_included := n_support b |}]> (scheduling (working w))))).
  { eapply (one_default_insert _ {| sc_id := scheduling_seq w |}); [done|done|].
    simpl. intros Hno. rewrite Hno in Hdef. destruct Hdef as (_ & i & s & Hi & Hs & Hu).
    exists i, s. split_and!; [done|done| |done]. intros ->. congruence. }
  apply wp_exec_raw; [by split|]. unfold query. intros a d _ [= <- <-]. by split.
Qed.

Lemma create_scheduling_keeps b w :
  at_rest one_default w -> at_rest one_default (create_scheduling_endpoint b w).2.
Proof.
  intros [Hc Hr]. apply with_session_at_rest. destruct (n_is_default b) eqn:Hb.
  - apply wp_bind, (wp_unset_default one_default); [done|by split|].
    intros w1 C1 D1. apply create_scheduling_body; rewrite ?D1, ?C1, ?Hb, ?Hr; [done| |].
    + apply cleared_ids. by destruct Hc.
    + apply cleared_none.
  - apply wp_bind, wp_ret. apply create_scheduling_body; rewrite ?Hb, ?Hr; [done| |done].
    by destruct Hc.
Qed.

Lemma patch_scheduling_id r p r' : patch_scheduling r p = Some r' ->
  sc_id r' = sc_id r
  /\ (p_is_default p = None -> sc_is_default r' = sc_is_default r)
  /\ (forall b, p_is_default p = Some b -> b = Some (sc_is_default r')).
Proof.
  unfold patch_scheduling. destruct (p_is_default p) as [[b|]|]; simpl; intros Hp;
    repeat (apply bind_Some in Hp as (? & ? & Hp)); simplify_eq/=;
    split_and!; try done; by intros ? [= <-].
Qed.

(** The UPDATE of a patch, on tables [d0] where the other defaults were cleared
    when the patch sets the flag. *)
Lemma update_scheduling_body i p w :
  one_default (committed w) ->
  (forall j r, scheduling (working w) !! j = Some r -> sc_id r = j) ->
  is_Some (scheduling (working w) !! i) ->
  (match p_is_default p with
   | Some (Some true) =>
       forall j r, scheduling (working w) !! j = Some r -> sc_is_default r = false
   | Some (Some false) =>
       one_default (working w) /\ forall r, scheduling (working w) !! i = Some r ->
         sc_is_default r = false
   | _ => one_default (working w)
   end) ->
  wp (update_scheduling_on_db i p) (body_ok one_default) w.
Proof.
  intros Hc Hid [r Hr] Hdef. unfold update_scheduling_on_db.
  destruct (no_fields p) eqn:Hnf.
  { apply wp_bind, wp_ret. apply wp_query.
    - intros w' [Hc' _]. split; [by rewrite Hc'|done].
    - intros n w' [Hc' Hw]. split; [by rewrite Hc'|]. intros _. rewrite Hw.
      unfold no_fields in Hnf. repeat (apply andb_prop in Hnf as [Hnf ?]).
      repeat match goal with H : bool_decide _ = true |- _ => apply bool_decide_eq_true in H end.
      match goal with H : p_is_default p = None |- _ => by rewrite H in Hdef end. }
  apply wp_bind, wp_exec_raw; [by split|]. rewrite Hr. intros [] d _ Hst.
  destruct (patch_scheduling r p) as [r'|] eqn:Hp; [|done].
  apply patch_scheduling_id in Hp as (Hi' & Hkeep & Hset).
  pose proof (Hid _ _ Hr) as Hri. apply put_scheduling_inv in Hst as [-> Hyes].
  assert (Hok : one_default (with_scheduling (working w) (<[sc_id r' := r']> (scheduling (working w))))).
  { apply one_default_insert; [done|done|]. intros Hno.
    assert (Hone : one_default (working w) /\ sc_is_default r = false).
    { destruct (p_is_default p) as [[[]|]|].
      - specialize (Hset _ eq_refl). congruence.
      - destruct Hdef as [? Hd]. eauto.
      - specialize (Hset _ eq_refl). done.
      - split; [done|]. rewrite <- Hkeep; done. }
    destruct Hone as [(_ & k & s & Hk & Hs & Hu) Hrd].
    exists k, s. split_and!; [done|done| |done]. intros ->. rewrite Hi', Hri in Hk. congruence. }
  apply wp_query; simpl.
  - intros w' [Hc' _]. split; [by rewrite Hc'|done].
  - intros n w' [Hc' Hw]. split; [by rewrite Hc'|]. intros _. by rewrite Hw.
Qed.

Lemma update_scheduling_keeps i p w :
  at_rest one_default w -> at_rest one_default (update_scheduling_endpoint i p w).2.
Proof.
  intros [Hc Hr]. apply with_session_at_rest.
  apply wp_reads_body; [solve_stable|done|]. intros known w1 [C1 D1] Hk.
  apply exec_query_Ok in Hk as [_ ->]. rewrite Hr in *.
  case_bool_decide as Hi; simpl; [|apply body_ok_raise; by rewrite C1].
  pose proof (proj1 Hc) as Hid.
  destruct (p_is_default p) as [[[]|]|] eqn:Hp.
  - apply wp_bind, (wp_unset_default one_default); [by rewrite C1|by split|].
    intros w2 C2 D2. apply update_scheduling_body; rewrite ?D2, ?C2, ?C1, ?D1, ?Hp; [done| | |].
    + by apply cleared_ids.
    + simpl. rewrite lookup_fmap. destruct Hi as [r ->]. eauto.
    + apply cleared_none.
  - apply wp_bind, wp_bind, wp_query.
    { intros w2 [C2 _]. split; [by rewrite C2, C1|done]. }
    intros n w2 [C2 D2]. rewrite D1. destruct Hi as [r Hi]. rewrite Hi.
    destruct (sc_is_default r) eqn:Hd; [apply wp_raise; split; [by rewrite C2, C1|done]|].
    apply wp_ret, update_scheduling_body; rewrite ?D2, ?C2, ?C1, ?D1, ?Hp; [done|done|eauto|].
    split; [done|]. intros r'. rewrite Hi. by intros [= <-].
  - apply wp_bind, wp_ret, update_scheduling_body; rewrite ?C1, ?D1, ?Hp; done.
  - apply wp_bind, wp_ret, update_scheduling_body; rewrite ?C1, ?D1, ?Hp; done.
Qed.

Lemma delete_scheduling_keeps i w :
  at_rest one_default w -> at_rest one_default (delete_scheduling_endpoint i w).2.
Proof.
  intros [Hc Hr]. apply with_session_at_rest.
  apply wp_reads_body; [solve_stable|done|]. intros policy w1 [C1 D1] Hk.
  apply exec_query_Ok in Hk as [_ ->]. rewrite Hr in *.
  destruct (scheduling (committed w) !! i) as [r|] eqn:Hi; [|apply body_ok_raise; by rewrite C1].
  destruct (sc_is_default r) eqn:Hd; [apply body_ok_raise; by rewrite C1|].
  apply wp_reads_body; [unfold count_users_on_scheduling_on_db; solve_stable|by rewrite C1|].
  intros users w2 [C2 D2] _. destruct (users =? 0)%nat; simpl;
    [|apply body_ok_raise; by rewrite C2, C1].
  apply wp_exec_raw; [split; [by simpl; rewrite C2, C1|done]|].
  rewrite D2, D1. intros [] d _ Hst. destruct (scheduling_unused i (committed w)); [|done].
  injection Hst as <-. split; simpl; [by rewrite C2, C1|]. intros _.
  destruct Hc as (Hid & k & s & Hks & Hs & Hu). split; simpl.
  - intros j t [_ Hj]%lookup_delete_Some. eauto.
  - exists k, s. split_and!; [|done|].
    + rewrite lookup_delete_ne; [done|]. intros ->. congruence.
    + intros j t [_ Hj]%lookup_delete_Some. eauto.
Qed.

(** The administrator's edits of the policy catalogue. *)
Inductive SchedOp :=
  | CreatePolicy (b : NewScheduling)
  | UpdatePolicy (i : Z) (p : SchedPatch)
  | DeletePolicy (i : Z).

Definition run_sched_op (o : SchedOp) (w : World) : World :=
  match o with
  | CreatePolicy b => (create_scheduling_endpoint b w).2
  | UpdatePolicy i p => (update_scheduling_endpoint i p w).2
  | DeletePolicy i => (delete_scheduling_endpoint i w).2
  end.

(** Whatever an administrator creates, edits or deletes, and whichever of those
    requests fail half way, exactly one policy stays the default: nobody
    without an assignment is ever left without a policy. *)
Theorem one_default_survives (ops : list SchedOp) (w : World) :
  at_rest one_default w -> at_rest one_default (foldl (fun w o => run_sched_op o w) w ops).
Proof.
  revert w. induction ops as [|o ops IH]; intros w Hw; simpl; [done|].
  apply IH. destruct o; simpl.
  - by apply create_scheduling_keeps.
  - by apply update_scheduling_keeps.
  - by apply delete_scheduling_keeps.
Qed.

End one_default.

(** ** Witness: a second default is created, then the old one deleted *)

Import Scenario.

Lemma demo_one_default : at_rest one_default demo.
Proof.
  split; [|done]. unfold demo, world_of, committed, demo_db, one_default, scheduling. split.
  - intros i r [[<- <-]|[_ [[<- <-]|[_ H]]%lookup_insert_Some]]%lookup_insert_Some;
      [done|done|by rewrite lookup_empty in H].
  - exists 1%Z, (policy 1 "Free" true). split_and!; [done|done|].
    intros i r [[<- <-]|[_ [[<- <-]|[_ H]]%lookup_insert_Some]]%lookup_insert_Some;
      [done|done|by rewrite lookup_empty in H].
Qed.

Definition basic_policy : NewScheduling := {|
  n_name := "Basic"; n_interval := 86400; n_priority := 0; n_enabled := true;
  n_is_default := true; n_is_public := true; n_support := false;
  n_quota_limit := 20; n_quota_window := 604800 |}.

Definition demo_policy_ops : list SchedOp :=
  [DeletePolicy 1; CreatePolicy basic_policy; DeletePolicy 1].

Lemma one_default_survives_witness :
  let E := unreachable true in
  let w := foldl (fun w o => run_sched_op o w) demo demo_policy_ops in
  at_rest one_default w
  /\ sc_is_default <$> scheduling (committed w) !! 8%Z = Some true
  /\ scheduling (committed w) !! 1%Z = None.
Proof.
  split; [|split; vm_compute; reflexivity].
  exact (one_default_survives (E := unreachable true) demo_policy_ops demo demo_one_default).
Defined.
