(* ===== verification/SubscriptionView.v ===== *)
(** * The read side of billing
      ([src/app/services/subscription_view_service.py], the subscription
       endpoints of [src/app/routers/user/router.py] and the plans endpoint of
       [src/app/routers/billing/router.py])

    One subscriber's view — the policy they hold, and Flash's status translated
    — and the public pricing page. *)

From Stdlib Require Import Ascii String.
From S2P Require Import Prelude Json Time Types Effects Scenario Repos FlashMock Flash PlanCache CheckoutUrl Billing SchedulingAdmin.
Local Open Scope string_scope.

Definition FREE_CURRENCY := "USD".

(** ** Flash's status in the client's vocabulary *)

(** [_UI_STATUS]. *)
Definition ui_status (flash_status : string) : option string :=
  if String.eqb flash_status "active" then Some "active"
  else if String.eqb flash_status "trial" then Some "active"
  else if String.eqb flash_status "pending" then Some "pending"
  else if String.eqb flash_status "past_due" then Some "grace"
  else if String.eqb flash_status "paused" then Some "canceled"
  else if String.eqb flash_status "canceled" then Some "canceled"
  else if String.eqb flash_status "expired" then Some "canceled"
  else None.

Definition translate (flash_status : option string) (is_default : bool) : string :=
  match flash_status ≫= ui_status with
  | Some known => known
  | None => if is_default then "none" else "active"
  end.

(** ** The views *)

Record PolicyView := {
  pv_id : Z; pv_name : string; pv_interval_seconds : Z; pv_is_default : bool;
}.

Definition policy_view (s : SchedRow) : PolicyView := {|
  pv_id := sc_id s; pv_name := sc_name s; pv_interval_seconds := sc_interval_seconds s;
  pv_is_default := sc_is_default s |}.

Record PlanView := {
  sp_plan_id : string; sp_amount_minor : option Z; sp_currency : option string;
  sp_billing_interval : option string; sp_is_active : bool;
}.

(** [_subscriber_plan_view]: priced as they bought it. *)
Definition subscriber_plan_view (row : SubRow) (plan : PlanRow) : PlanView := {|
  sp_plan_id := bp_plan_id plan; sp_amount_minor := sr_amount_minor (us_read row);
  sp_currency := sr_currency (us_read row); sp_billing_interval := sr_interval (us_read row);
  sp_is_active := bp_is_active plan |}.

Record SubscriptionView := {
  sv_policy : option PolicyView;
  sv_plan : option PlanView;
  sv_status : string;
  sv_period_start : option Z;
  sv_period_end : option Z;
  sv_next_billing : option Z;
  sv_cancel : option Z;
  sv_manage_url : option string;
}.

(** The view of what was read; [row] and [plan] are the record shown. *)
Definition build_view (policy : option SchedRow) (row : option SubRow) (plan : option PlanRow)
  : SubscriptionView := {|
  sv_policy := policy_view <$> policy;
  sv_plan := r ← row; p ← plan; Some (subscriber_plan_view r p);
  sv_status := translate (us_status <$> row)
                 (match policy with Some p => sc_is_default p | None => true end);
  sv_period_start := row ≫= fun r => sr_period_start (us_read r);
  sv_period_end := row ≫= fun r => sr_period_end (us_read r);
  sv_next_billing := row ≫= fun r => sr_next_billing (us_read r);
  sv_cancel := row ≫= us_cancel;
  sv_manage_url := row ≫= fun r => sr_portal_url (us_read r) |}.

Section view.
Context {E : Env}.

Definition abandon_rule : AbandonRule := {|
  ab_after := billing_abandon_pending_after_seconds settings * 1000000;
  ab_error := reason_value UNKNOWN_SUBSCRIPTION |}.

(** [_resolve_policy]. *)
Definition resolve_policy (pubkey : string) : M (option SchedRow) :=
  sid ← get_assigned_scheduling_id_on_db pubkey;
  match sid with
  | Some i =>
      policy ← get_scheduling_on_db i;
      match policy with
      | Some p => mret (Some p)
      | None => get_default_scheduling_on_db
      end
  | None => get_default_scheduling_on_db
  end.

(** The record to show: not one whose checkout Flash discarded. *)
Definition shown_row (now : Z) (row : option SubRow) : option SubRow :=
  match row with
  | Some r => if abandon_matches abandon_rule now r then None else Some r
  | None => None
  end.

Definition read_subscription_view (pubkey : string) : M SubscriptionView :=
  policy ← resolve_policy pubkey;
  row ← get_user_subscription_on_db pubkey;
  now ← match row with Some _ => utc_now | None => mret 0%Z end;
  match shown_row now row with
  | None => mret (build_view policy None None)
  | Some r =>
      plan ← get_billing_plan_by_id_on_db (us_plan r);
      mret (build_view policy (Some r) plan)
  end.

(** [verification_of]. *)
Definition verification_of (outcome : option EntitlementOutcome) (id_given : bool) : string :=
  if negb id_given then "not_given"
  else match outcome with
  | None => "unavailable"
  | Some o =>
      match reason o with
      | REFERENCE_MISMATCH | NO_REFERENCE => "mismatch"
      | UNKNOWN_SUBSCRIPTION => "unknown"
      | _ => "verified"
      end
  end.

Definition get_subscription_endpoint (pubkey : string) : M SubscriptionView :=
  with_session (read_subscription_view pubkey).

(** [POST /user/subscription/refresh], once the rate limit let the caller
    through: an unreadable Flash answers from what we hold. *)
Definition refresh_subscription_endpoint (pubkey : string) (subscription_id : option string)
  : M (string * SubscriptionView) :=
  with_session (
    outcome ← apply_best_effort pubkey
                (match subscription_id with Some i => JStr i | None => JNull end);
    view ← read_subscription_view pubkey;
    mret (verification_of outcome (bool_decide (is_Some subscription_id)), view)).

End view.

(** ** The pricing page *)

Record BillingPlanView := {
  pl_policy_id : Z;
  pl_policy_name : string;
  pl_interval_seconds : Z;
  pl_is_default : bool;
  pl_plan_id : option string;
  pl_plan_name : option string;
  pl_description : option string;
  pl_amount_minor : option Z;
  pl_currency : string;
  pl_billing_interval : option string;
  pl_checkout_url : option string;
  pl_features : option (list string);
  pl_not_included : option (list string);
}.

Definition free_row (policy : SchedRow) : BillingPlanView := {|
  pl_policy_id := sc_id policy; pl_policy_name := sc_name policy;
  pl_interval_seconds := sc_interval_seconds policy; pl_is_default := sc_is_default policy;
  pl_plan_id := None; pl_plan_name := None; pl_description := None;
  pl_amount_minor := Some 0%Z; pl_currency := FREE_CURRENCY; pl_billing_interval := None;
  pl_checkout_url := None; pl_features := None; pl_not_included := None |}.

(** A plan with a price and a place to send the buyer. *)
Definition can_sell (p : FlashPlan) : bool :=
  bool_decide (is_Some (fp_amount_minor p))
  && match fp_signup_url p with Some u => negb (String.eqb u "") | None => false end.

Definition sellable_plans (found : plan_index) : plan_index :=
  filter (fun kv => can_sell kv.2 = true) found.

(** [(sort_order, id)] ascending. *)
Definition sale_order (a b : PlanRow * FlashPlan) : bool :=
  if (fp_sort_order a.2 =? fp_sort_order b.2)%Z then String.leb (fp_id a.2) (fp_id b.2)
  else (fp_sort_order a.2 <? fp_sort_order b.2)%Z.

(** The mappings Flash can price, in Flash's order. *)
Definition sellable_mappings (active : list PlanRow) (found : plan_index)
  : list (PlanRow * FlashPlan) :=
  stable_sort sale_order (omap (fun plan =>
    f ← dict_get (bp_service_id plan, bp_plan_id plan) found; Some (plan, f)) active).

Definition default_first (a b : BillingPlanView) : bool :=
  implb (negb (pl_is_default a)) (negb (pl_is_default b)).

Section pricing.
Context {E : Env}.

Definition plan_row (policy : SchedRow) (flash : FlashPlan) : res exn BillingPlanView :=
  url ← match fp_signup_url flash with
        | Some u => if String.eqb u "" then Ok None else Some <$> checkout_url u
        | None => Ok None
        end;
  Ok {| pl_policy_id := sc_id policy; pl_policy_name := sc_name policy;
        pl_interval_seconds := sc_interval_seconds policy; pl_is_default := sc_is_default policy;
        pl_plan_id := Some (fp_id flash); pl_plan_name := Some (fp_name flash);
        pl_description := fp_description flash; pl_amount_minor := fp_amount_minor flash;
        pl_currency := fp_currency flash; pl_billing_interval := fp_billing_interval flash;
        pl_checkout_url := url; pl_features := fp_features flash;
        pl_not_included := fp_not_included flash |}.

(** [policies[plan.scheduling_id]] of each sale, in order. *)
Fixpoint plan_rows_of (policies : list SchedRow) (sales : list (PlanRow * FlashPlan))
  : res exn (list BillingPlanView) :=
  match sales with
  | [] => Ok []
  | (plan, flash) :: rest =>
      match list_find (fun p => sc_id p = bp_scheduling_id plan) policies with
      | None => Raise KeyError
      | Some (_, policy) =>
          row ← plan_row policy flash;
          rows ← plan_rows_of policies rest;
          Ok (row :: rows)
      end
  end.

(** The page, from the public policies, the active mappings on them and the
    plans Flash can price. *)
Definition pricing_page (policies : list SchedRow) (active : list PlanRow) (found : plan_index)
  : res exn (list BillingPlanView) :=
  let mapped := bp_scheduling_id <$> active in
  let free := free_row <$> filter (fun p => sc_id p ∉ mapped) policies in
  sold ← plan_rows_of policies (sellable_mappings active found);
  Ok (stable_sort default_first (free ++ sold)%list).

(** Mappings on a public policy. *)
Definition on_public (policies : list SchedRow) (plans : list PlanRow) : list PlanRow :=
  filter (fun p => bp_scheduling_id p ∈ (sc_id <$> policies)) plans.

Definition list_billing_plans : M (list BillingPlanView) :=
  if negb (flash_enabled settings) then mret [] else
  policies ← select_public_scheduling_on_db;
  plans ← select_billing_plans_on_db true;
  let active := on_public policies plans in
  found ← read_plans_for_services (bp_service_id <$> active);
  lift (pricing_page policies active (sellable_plans found)).

Definition list_billing_plans_endpoint : M (list BillingPlanView) :=
  with_session list_billing_plans.

End pricing.

(** ** Lemmas: the views only read *)

Section view_reads.
Context {E : Env}.

Lemma reads_resolve_policy p : reads (resolve_policy p).
Proof. unfold resolve_policy. solve_stable. Qed.
#[local] Hint Resolve reads_resolve_policy : stable.

Lemma reads_subscription_view p : reads (read_subscription_view p).
Proof. unfold read_subscription_view. solve_stable. Qed.

End view_reads.

#[export] Hint Resolve reads_resolve_policy reads_subscription_view : stable.

(** ** What nobody has settled
      ([src/app/services/billing_visibility_service.py])

    The divergence report: ten capped queries over the billing tables at one
    moment.  A section is the rows found with the flag that the cap was
    reached. *)

Definition KNOWN_STATUSES : list string :=
  stable_sort String.leb
    (remove_dups (ENTITLING_STATUSES ++ ENDED_STATUSES
       ++ [CANCELLED_STATUS; PAST_DUE_STATUS; PENDING_STATUS])%list).

Definition ROW_LIMIT : nat := 200.

Record DivergenceReport := {
  policy_mismatch : list mismatch_row;
  admin_overrides : list mismatch_row;
  stale_syncs : list SubRow;
  failing_syncs : list SubRow;
  unresolved_signups : list EventRow;
  unmapped_plans : list EventRow;
  unrecognised_statuses : list (string * nat);
  exhausted_events : list EventRow;
  abandoned_checkouts : list SubRow;
  retired_plan_subscribers : list SubRow;
}.

Record DivergenceSection (A : Type) := {
  ds_count : nat;
  ds_truncated : bool;
  ds_rows : list A;
}.
Arguments ds_count {A}. Arguments ds_truncated {A}. Arguments ds_rows {A}.

Definition section {A} (rows : list A) : DivergenceSection A := {|
  ds_count := length rows; ds_truncated := (ROW_LIMIT <=? length rows)%nat;
  ds_rows := rows |}.

Section report.
Context {E : Env}.

Definition build_divergence_report : M DivergenceReport :=
  now ← utc_now;
  let stale_before := (now - billing_stale_sync_hours settings * hour)%Z in
  a ← select_policy_mismatches_on_db false ROW_LIMIT;
  b ← select_policy_mismatches_on_db true ROW_LIMIT;
  c ← select_stale_syncs_on_db stale_before ROW_LIMIT now abandon_rule;
  d ← select_failing_syncs_on_db ROW_LIMIT now abandon_rule;
  e ← select_unresolved_signups_on_db ROW_LIMIT;
  f ← select_unmapped_plan_events_on_db ROW_LIMIT;
  g ← select_unrecognised_statuses_on_db KNOWN_STATUSES;
  h ← select_exhausted_events_on_db (billing_replay_max_attempts settings) ROW_LIMIT;
  i ← select_abandoned_checkouts_on_db ROW_LIMIT now abandon_rule;
  j ← select_retired_plan_subscribers_on_db ROW_LIMIT;
  mret {| policy_mismatch := a; admin_overrides := b; stale_syncs := c; failing_syncs := d;
          unresolved_signups := e; unmapped_plans := f; unrecognised_statuses := g;
          exhausted_events := h; abandoned_checkouts := i; retired_plan_subscribers := j |}.

(** The sections of the answer that carry database rows. *)
Definition build_divergence_response
  : M (DivergenceSection mismatch_row * DivergenceSection mismatch_row
       * DivergenceSection SubRow * DivergenceSection SubRow
       * DivergenceSection EventRow * DivergenceSection EventRow
       * DivergenceSection (string * nat) * DivergenceSection EventRow
       * DivergenceSection SubRow * DivergenceSection SubRow) :=
  r ← build_divergence_report;
  mret (section (policy_mismatch r), section (admin_overrides r), section (stale_syncs r),
        section (failing_syncs r), section (unresolved_signups r), section (unmapped_plans r),
        section (unrecognised_statuses r), section (exhausted_events r),
        section (abandoned_checkouts r), section (retired_plan_subscribers r)).

End report.
