(* ===== verification/AdminBilling.v ===== *)
(** * The billing endpoints
      ([src/app/routers/admin/billing/router.py])

    Each runs in its own session.  [flash_failure_as_http] is the context
    manager that tells an outage, a refused credential and a refused change
    apart. *)

From Stdlib Require Import Ascii String.
From S2P Require Import Prelude Json Time Types Effects Repos FlashMock Flash Billing.
From S2P Require Import SchedulingAdmin.
Local Open Scope string_scope.

(** [verify_billing_access]: an empty list admits nobody. *)
Definition verify_billing_access (whitelist : list string) (nostr_pubkey : string)
  : res exn unit :=
  match whitelist with
  | [] => Raise (HTTPException 403)
  | _ => if str_in nostr_pubkey whitelist then Ok tt else Raise (HTTPException 403)
  end.

(** [init_billing_admin_whitelist]: the billing list when one is configured,
    the administrators otherwise; [normalize] turns an npub into hex. *)
Definition parse_pubkey_list (normalize : string -> string) (raw : string) : list string :=
  if String.eqb raw "" then [] else
  normalize <$> filter (fun p => negb (String.eqb p "") = true) (py_strip <$> py_split "," raw).

Definition billing_pubkeys (normalize : string -> string) (configured admins : string)
  : list string :=
  parse_pubkey_list normalize (if String.eqb configured "" then admins else configured).

Section endpoints.
Context {E : Env}.

(** [_flash_failure_as_http]. *)
Definition flash_failure_as_http {A} (m : M A) : M A :=
  try_ m (fun e =>
    match e with
    | FlashRefused _ => raise (HTTPException 409)
    | FlashCredentialError => raise (HTTPException 502)
    | FlashUnavailable _ => raise (HTTPException 503)
    | _ => raise e
    end).

(** Not under [_flash_failure_as_http]. *)
Definition resync_subscription_endpoint (pubkey : string) : M EntitlementOutcome :=
  with_session (apply_entitlement (JStr pubkey) JNull false false).

Definition set_block_endpoint (pubkey : string) (blocked : bool) : M BlockOutcome :=
  with_session (
    outcome ← set_billing_block pubkey blocked;
    if negb (bk_found outcome) then raise (HTTPException 404)
    else mret {| bk_found := true; bk_blocked := blocked;
                 bk_revoked := blocked && bk_revoked outcome |}).

Definition cancel_subscription_endpoint (pubkey : string) (why : option string)
  : M SubscriptionActionOutcome :=
  with_session (flash_failure_as_http (cancel_subscriber_subscription pubkey why)).

Definition set_subscription_status_endpoint (pubkey status : string)
  : M SubscriptionActionOutcome :=
  with_session (flash_failure_as_http (set_subscriber_subscription_status pubkey status)).

(** [_read_flash_record], after the rate limit let the caller through. *)
Definition read_flash_record (subscription_id : json) (ref : option string)
  : M (list (string * json)) :=
  record ← flash_failure_as_http (fetch_subscription_raw subscription_id ref);
  match record with
  | None => raise (HTTPException 404)
  | Some r => mret r
  end.

Definition attribute_unresolved_endpoint (subscription_id pubkey acting : string)
  : M ResolutionOutcome :=
  with_session (flash_failure_as_http
    (attribute_unresolved_subscription subscription_id pubkey acting)).

Definition dismiss_unresolved_endpoint (subscription_id acting : string)
  : M ResolutionOutcome :=
  with_session (dismiss_unresolved_subscription subscription_id acting).

Definition create_billing_plan_endpoint (service plan : string) (sid : Z) (active : bool)
  : M PlanRow :=
  with_session (create_billing_plan service plan sid active).

Definition update_billing_plan_endpoint (plan_id : Z) (values : PlanEdit) : M PlanRow :=
  with_session (update_billing_plan plan_id values).

End endpoints.
