(* ===== verification/Coherence.v ===== *)
(** * What we recorded granting is what they receive

    The invariant the divergence report's first section looks for the failure
    of: a recorded grant is matched by the assignment unless an administrator
    took the user over, and an assignment billing made is backed by a recorded
    grant.  Every billing operation keeps it, whatever fails half way. *)

From Stdlib Require Import Ascii String.
From S2P Require Import Prelude Json Time Types Effects Repos FlashMock Flash Billing.
From S2P Require Import Entitlement Webhook BillingSync SchedulingAdmin SubscriptionView.
From S2P Require Import AdminBilling Scenario.
Local Open Scope string_scope.

(** The invariant at one user: [n] their row, [u] their subscription record. *)
Record coherent_user (p : string) (n : option NsecRow) (u : option SubRow) : Prop := {
  cu_key : forall row, u = Some row -> us_pubkey row = p;
  cu_granted : forall row g, u = Some row -> us_granted row = Some g ->
    exists r, n = Some r
      /\ (ns_scheduling_source r = SOURCE_ADMIN
          \/ ns_scheduling_source r = SOURCE_BILLING /\ ns_scheduling_id r = Some g);
  cu_billing : forall r, n = Some r -> ns_scheduling_source r = SOURCE_BILLING ->
    exists row g, u = Some row /\ us_granted row = Some g /\ ns_scheduling_id r = Some g;
}.

Definition coherent (d : Db) : Prop :=
  forall p, coherent_user p (nsec d !! p) (user_subscription d !! p).

(** ** How statements act on it *)

(** A change confined to one user. *)
Lemma coherent_touch p d d' :
  (forall q, q <> p -> nsec d' !! q = nsec d !! q
     /\ user_subscription d' !! q = user_subscription d !! q) ->
  coherent d -> coherent_user p (nsec d' !! p) (user_subscription d' !! p) -> coherent d'.
Proof.
  intros Hframe Hd Hp q. destruct (decide (q = p)) as [->|Hne]; [done|].
  destruct (Hframe q Hne) as [-> ->]. apply Hd.
Qed.

(** A change of neither table. *)
Lemma coherent_same d d' :
  nsec d' = nsec d -> user_subscription d' = user_subscription d -> coherent d -> coherent d'.
Proof. unfold coherent. by intros -> ->. Qed.

(** The write of a reconcile. *)
Lemma coherent_entitled p s plan now sub t created d :
  let existing := user_subscription d !! p in
  let rs := resolution_in d p s plan now existing in
  is_Some (nsec d !! p) -> coherent d ->
  coherent (entitled_db p rs (upserted p s sub (bp_id plan) (rs_granted rs) t created) d).
Proof.
  intros existing rs [r Hr] Hd. apply (coherent_touch p d); [intros q Hq; by apply entitled_db_other|done|].
  rewrite entitled_db_user, entitled_db_record, Hr. fold existing.
  pose proof (Hd p) as [_ Hg Hb]. rewrite Hr in Hg, Hb. fold existing in Hg, Hb.
  assert (Hadm : is_admin_held (source_of d p) = true <-> ns_scheduling_source r = SOURCE_ADMIN).
  { unfold is_admin_held, source_of. rewrite Hr.
    destruct (String.eqb_spec (ns_scheduling_source r) "") as [->|]; [done|].
    by rewrite String.eqb_eq. }
  assert (Hcarry : coherent_user p (Some r)
    (Some (upserted p s sub (bp_id plan)
       (match existing with Some row => us_granted row | None => None end) t created existing))).
  { constructor; simpl.
    - by intros row [= <-].
    - intros row g [= <-] Hgr. simpl in Hgr. destruct existing as [row0|] eqn:He; [|done].
      destruct (Hg row0 g eq_refl Hgr) as (r0 & [= <-] & ?). eauto.
    - intros r0 [= <-] Hs. destruct (Hb r eq_refl Hs) as (row & g & He & Hgr & Hsid).
      rewrite He in *. eauto 6. }
  subst rs. unfold resolution_in, resolution_for.
  destruct (decide_entitlement _ _ _ _ _); simpl.
  - destruct (blocked_of d p); simpl; [done|].
    destruct (is_admin_held (source_of d p)); constructor; simpl.
    + by intros row [= <-].
    + intros row g [= <-] [= <-]. eexists. split; [done|]. by left.
    + by intros r0 [= <-].
    + by intros row [= <-].
    + intros row g [= <-] [= <-]. eexists. split; [done|]. by right.
    + intros r0 [= <-] _. eauto.
  - done.
  - destruct (is_admin_held (source_of d p)); simpl; [done|]. constructor; simpl.
    + by intros row [= <-].
    + by intros row g [= <-].
    + by intros r0 [= <-].
Qed.

(** Taking a policy back: the assignment and the recorded grant go together. *)
Definition revoked_db (p : string) (d : Db) : Db :=
  alter_sub p (fun r => us_with_granted r None) (assign_db p None SOURCE_DEFAULT d).

Lemma revoked_db_other p q d : q <> p ->
  nsec (revoked_db p d) !! q = nsec d !! q
  /\ user_subscription (revoked_db p d) !! q = user_subscription d !! q.
Proof. intros Hq. simpl. by rewrite !lookup_alter_ne. Qed.

Lemma coherent_revoked p d : coherent d -> coherent (revoked_db p d).
Proof.
  intros Hd. apply (coherent_touch p d); [intros q Hq; by apply revoked_db_other|done|].
  pose proof (Hd p) as [Hk _ _]. simpl. rewrite !lookup_alter_eq. constructor.
  - intros row (u & Hu & ->)%fmap_Some_1. simpl. eauto.
  - by intros row g (u & Hu & ->)%fmap_Some_1.
  - by intros r (n & Hn & ->)%fmap_Some_1.
Qed.

(** An update of a record that keeps its key and its grant. *)
Lemma coherent_alter_sub p f d :
  (forall r, us_pubkey (f r) = us_pubkey r /\ us_granted (f r) = us_granted r) ->
  coherent d -> coherent (alter_sub p f d).
Proof.
  intros Hf Hd q. destruct (Hd q) as [Hk Hg Hb]. simpl.
  destruct (decide (q = p)) as [->|Hne]; [|by rewrite lookup_alter_ne].
  rewrite lookup_alter_eq. constructor.
  - intros row (u & Hu & ->)%fmap_Some_1. rewrite (proj1 (Hf u)). eauto.
  - intros row g (u & Hu & ->)%fmap_Some_1. rewrite (proj2 (Hf u)). eauto.
  - intros r Hr Hs. destruct (Hb r Hr Hs) as (row & g & Hu & Hgr & Hsid).
    rewrite Hu. simpl. exists (f row), g. rewrite (proj2 (Hf row)). done.
Qed.

(** Blocking changes no assignment. *)
Lemma coherent_blocked p b d : coherent d -> coherent (blocked_db p b d).
Proof.
  intros Hd q. destruct (Hd q) as [Hk Hg Hb]. simpl.
  destruct (decide (q = p)) as [->|Hne]; [|by rewrite lookup_alter_ne].
  rewrite lookup_alter_eq. constructor; [done| |].
  - intros row g Hu Hgr. destruct (Hg row g Hu Hgr) as (r & -> & ?). simpl. eauto.
  - intros r (n & Hn & ->)%fmap_Some_1. simpl. eauto.
Qed.

(** An administrator's assignment, of a user who may be new. *)
Lemma coherent_assign_admin p sid d :
  coherent d -> coherent (assign_db p sid SOURCE_ADMIN d).
Proof.
  intros Hd q. destruct (Hd q) as [Hk Hg Hb]. simpl.
  destruct (decide (q = p)) as [->|Hne]; [|by rewrite lookup_alter_ne].
  rewrite lookup_alter_eq. constructor; [done| |].
  - intros row g Hu Hgr. destruct (Hg row g Hu Hgr) as (r & -> & _). simpl. eauto.
  - by intros r (n & Hn & ->)%fmap_Some_1.
Qed.

Lemma coherent_new_user p d : nsec d !! p = None -> coherent d ->
  coherent (with_nsec d (<[p := {| ns_scheduling_id := None;
    ns_scheduling_source := SOURCE_DEFAULT; ns_billing_blocked := false |}]> (nsec d))).
Proof.
  intros Hn Hd q. destruct (Hd q) as [Hk Hg Hb]. simpl.
  destruct (decide (q = p)) as [->|Hne]; [|by rewrite lookup_insert_ne].
  rewrite lookup_insert_eq. constructor; [done| |by intros r [= <-]].
  intros row g Hu Hgr. destruct (Hg row g Hu Hgr) as (r & Hr & _). congruence.
Qed.

(** ** How the handlers act on it *)

Create HintDb safe.
#[export] Hint Resolve safe_ret safe_raise safe_reads : safe.

Ltac safe_step :=
  lazymatch goal with
  | |- safe _ (mbind _ _) => apply safe_bind; [|intro]
  | |- safe _ (let '(_, _) := ?x in _) => destruct x
  | |- safe _ (if ?b then _ else _) => destruct b
  | |- safe _ (match ?x with _ => _ end) => destruct x
  end.
Ltac solve_safe := intros; repeat safe_step; eauto with safe stable.

Section handlers.
Context {E : Env}.

Lemma safe_commit P : safe P commit.
Proof. apply safe_keeps, keeps_commit. Qed.
Lemma safe_rollback P : safe P rollback.
Proof. apply safe_keeps, keeps_rollback. Qed.
#[local] Hint Resolve safe_commit safe_rollback : safe.

Lemma safe_exec_modify {A} (f : Db -> A * Db) b :
  (forall d, coherent d -> coherent (f d).2) -> safe coherent (exec (checked b (modify f))).
Proof.
  intros Hf. apply safe_keeps, keeps_exec. unfold checked, modify. destruct b; [|done].
  intros n d a d' Hd [= Hfd]. specialize (Hf d Hd). by rewrite Hfd in Hf.
Qed.

Lemma safe_exec_modify' {A} (f : Db -> A * Db) :
  (forall d, coherent d -> coherent (f d).2) -> safe coherent (exec (modify f)).
Proof. exact (safe_exec_modify f true). Qed.

(** Statements on the events alone. *)
Lemma safe_mark id now : safe coherent (mark_webhook_event_processed_on_db id now).
Proof. apply safe_exec_modify'. intros d. by apply coherent_same. Qed.
Lemma safe_event_failure id why : safe coherent (record_webhook_event_failure_on_db id why).
Proof. apply safe_exec_modify. intros d. by apply coherent_same. Qed.
Lemma safe_claim id now stale : safe coherent (claim_webhook_event_on_db id now stale).
Proof.
  apply safe_exec_modify'. intros d. unfold claim_stmt.
  destruct (_ !! id) as [r|]; [destruct (claim_where _ _ _)|]; [by apply coherent_same|done|done].
Qed.
Lemma safe_settle sid now a b c : safe coherent (settle_unresolved_events_on_db sid now a b c).
Proof. apply safe_exec_modify. intros d. by apply coherent_same. Qed.
Lemma safe_reset s p e : safe coherent (reset_events_awaiting_plan_on_db s p e).
Proof. apply safe_exec_modify'. intros d. by apply coherent_same. Qed.

(** Statements on a subscription record that keep its grant. *)
Lemma safe_last_event p t : safe coherent (update_last_event_at_on_db p t).
Proof.
  unfold update_last_event_at_on_db. destruct t as [t|]; [|apply safe_ret].
  destruct (py_truthy p); [|apply safe_ret]. destruct p; try by (apply safe_reads; solve_stable).
  apply safe_exec_modify. intros d. apply coherent_alter_sub.
  intros r. by destruct (tri_holds _).
Qed.
Lemma safe_sync_failure p why : safe coherent (record_sync_failure_on_db p why).
Proof.
  unfold record_sync_failure_on_db. apply safe_bind; [apply safe_reads; solve_stable|].
  intros now. apply safe_exec_modify. intros d. by apply coherent_alter_sub.
Qed.
Lemma safe_flash_status p st c : safe coherent (update_flash_status_on_db p st c).
Proof. apply safe_exec_modify'. intros d. by apply coherent_alter_sub. Qed.
#[local] Hint Resolve safe_mark safe_event_failure safe_claim safe_settle safe_reset
  safe_last_event safe_sync_failure safe_flash_status : safe.

(** The one reconcile every path goes through. *)
Lemma safe_apply ref sid y a : safe coherent (apply_entitlement ref sid y a).
Proof.
  destruct ref as [| | | |p| |]; try by (apply safe_reads; unfold apply_entitlement; solve_stable).
  destruct (decide (p = "")) as [->|Hp]; [apply safe_ret|].
  intros w Hc Hw. apply wp_intro. intros r w' Hrun. apply apply_entitlement_reconciled in Hrun; [|done].
  destruct Hrun as [why w' _ [Hc' Hw']|e w' Hc' Hd
    |s plan now sub t created w1 r w' Hok _ rs d' Hc' Hres].
  - split; simpl; [by rewrite Hc'|by rewrite Hw'].
  - split; [by rewrite Hc'|]. intros [_ Hw']%Hd. by rewrite Hw'.
  - pose proof (co_user _ _ _ _ _ _ _ _ Hok) as Hu.
    assert (Hd : coherent d') by by apply coherent_entitled.
    rewrite <- Hc' in Hd. split; [done|]. destruct Hres as [[-> Hw']|[k ->]]; [|done].
    by rewrite Hw', <- Hc'.
Qed.

(** Assigning, to a user who may not exist yet: the assignment is made on
    coherent tables. *)
Lemma wp_assign p sid src (Q : res exn unit -> World -> Prop) w :
  coherent (working w) ->
  (forall e w', flash_exn e = false -> committed w' = committed w -> Q (Raise e) w') ->
  (forall w' d, committed w' = committed w -> coherent d ->
     working w' = assign_db p sid src d -> Q (Ok tt) w') ->
  wp (set_scheduling_for_pubkey_on_db p sid src) Q w.
Proof.
  intros Hw Hf Hok. unfold set_scheduling_for_pubkey_on_db.
  assert (Hrest : forall w1, committed w1 = committed w -> coherent (working w1) ->
    wp (exec_raw (fun (_ : nat) d => if scheduling_fk sid d
          then Ok (tt, assign_db p sid src d) else Raise IntegrityError)) Q w1).
  { intros w1 C1 D1. apply wp_exec_raw; [intros k; by apply Hf|].
    intros [] d _ Hst. destruct (scheduling_fk sid (working w1)); [|done].
    injection Hst as <-. by apply (Hok _ (working w1)). }
  apply wp_bind. unfold get_or_create_brainstorm_observer_nsec_by_pubkey_on_db.
  apply wp_bind, wp_query; [intros w1 [C1 _]; by apply Hf|]. intros _ w1 [C1 D1].
  case_bool_decide as Hs.
  - apply wp_bind. unfold get_world, wp at 1. simpl.
    destruct (nsec_unreadable _ _); [by apply wp_raise, Hf|].
    apply wp_ret, Hrest; [done|by rewrite D1].
  - apply wp_bind, wp_exec_raw; [intros k; by apply Hf|].
    unfold checked. rewrite D1. destruct (text_ok p); [|done].
    destruct (nsec (working w) !! p) eqn:Hn; [by destruct Hs|].
    intros [] d _ [= <-]. apply wp_ret, Hrest; [done|]. by apply coherent_new_user.
Qed.

(** Taking a policy back, in whatever handler. *)
Lemma safe_revoke {B} p (k : unit -> M B) :
  safe coherent (k tt) ->
  safe coherent (_ ← set_scheduling_for_pubkey_on_db p None SOURCE_DEFAULT;
                 _ ← clear_granted_scheduling_on_db p; k tt).
Proof.
  intros Hk w Hc Hw. apply wp_bind, wp_assign; [done| |].
  { intros e w' He C1. split; simpl; [by rewrite C1|]. by rewrite He. }
  intros w1 d C1 Hd D1. apply wp_bind, wp_exec.
  { split; simpl; [by rewrite C1|done]. }
  unfold modify. intros [] d' _ [= <-]. apply Hk; simpl; [by rewrite C1|].
  rewrite D1. by apply coherent_revoked.
Qed.

Lemma safe_unreads {A} : safe coherent (exec_unbound (A := A)).
Proof. apply safe_reads. solve_stable. Qed.
#[local] Hint Resolve safe_unreads safe_apply : safe.

Lemma safe_fallback ev ref : safe coherent (apply_payload_fallback ev ref).
Proof.
  unfold apply_payload_fallback, fallback_for.
  destruct (fallback_status ev) as [st|]; [|solve_safe].
  destruct (py_truthy ref); simpl; [|solve_safe].
  destruct ref; try apply safe_unreads.
  apply safe_bind; [solve_safe|]. intros []; simpl; [|solve_safe].
  apply safe_bind; [solve_safe|]. intros [row|]; [|solve_safe].
  apply safe_bind; [|solve_safe]. destruct (String.eqb st "expired"); [|solve_safe].
  unfold fallback_revoke. apply safe_bind; [solve_safe|]. intros src. simpl.
  destruct (is_admin_held src); simpl; [solve_safe|].
  apply (safe_revoke s (fun _ => mret tt)). solve_safe.
Qed.

Lemma safe_after_record_failure id e : safe_after coherent (record_failure (Some id) e).
Proof.
  intros w Hc. apply wp_try, wp_bind. unfold wp at 1. simpl.
  set (m := _ ≫= _). assert (Hk : stable (keeps coherent) m).
  { apply stable_bind; [typeclasses eauto| |intros; solve_stable].
    apply keeps_exec. unfold checked, modify. destruct (text_ok _); [|done].
    intros n d [] d' Hd [= <-]. by apply (coherent_same d). }
  specialize (Hk (rolled_back w)). unfold wp, keeps in *. simpl in Hk.
  destruct (Hk (conj Hc Hc)) as [? ?].
  destruct (m (rolled_back w)) as [[a|e'] w']; by split.
Qed.

Lemma safe_after_retries left ref sid : safe coherent (apply_with_db_retries_from left ref sid).
Proof.
  induction left as [|left IH]; simpl; [solve_safe|].
  apply safe_try; [solve_safe|]. intros [| | | | | |?|[]| | | | |]; simpl;
    try (by apply safe_raise); try (by apply safe_after_raise);
    destruct (left =? 0)%nat; try (by apply safe_after_raise);
    by apply safe_after_rollback.
Qed.

Lemma safe_process r : safe coherent (process_delivery r).
Proof.
  unfold process_delivery. destruct (needs_processing r) eqn:Hn; simpl; [|solve_safe].
  assert (Hid : exists id, rd_event_id r = Some id).
  { unfold needs_processing in Hn. destruct (rd_event_id r); [eauto|].
    by rewrite andb_false_r in Hn. }
  destruct Hid as [id Hid]. apply safe_try.
  - apply safe_bind; [apply safe_after_retries|]. intros o. unfold settle_delivery. solve_safe.
  - rewrite Hid. assert (Hf : forall e, safe_after coherent (record_failure (Some id) e))
      by apply safe_after_record_failure.
    intros e. destruct e; cbn [flash_exn]; [|apply safe_after_safe, Hf|apply Hf..].
    apply safe_bind; [apply safe_after_safe, Hf|]. intros _.
    apply safe_bind; [apply safe_fallback|solve_safe].
Qed.

(** *** The periodic jobs *)

Lemma safe_sweep now : safe coherent (revoke_lapsed_entitlements now).
Proof.
  unfold revoke_lapsed_entitlements. apply safe_bind; [destruct now; solve_safe|]. intros at_.
  apply safe_bind; [solve_safe|]. intros rows. apply safe_fold_each. intros n row.
  apply safe_bind; [|solve_safe]. unfold revoke_lapsed_row.
  destruct (us_granted row) as [g|]; [|solve_safe].
  destruct (negb _); [solve_safe|]. apply safe_bind; [solve_safe|]. intros src.
  simpl. destruct (is_admin_held src); simpl; [solve_safe|].
  apply (safe_revoke (us_pubkey row) (fun _ => _ ← commit; mret true)). solve_safe.
Qed.

Lemma safe_note p why : safe coherent (note_failure p why).
Proof. unfold note_failure. solve_safe. Qed.
#[local] Hint Resolve safe_note : safe.

Lemma safe_reconcile_row acc h : safe coherent (reconcile_row acc h).
Proof.
  unfold reconcile_row. apply safe_try; [solve_safe|].
  intros e. destruct e; cbn [flash_exn]; try (by apply safe_after_raise); solve_safe.
Qed.

Lemma safe_reconcile l s a n : safe coherent (reconcile_subscriptions l s a n).
Proof.
  unfold reconcile_subscriptions. apply safe_bind; [destruct n; solve_safe|]. intros at_.
  apply safe_bind; [solve_safe|]. intros c. apply safe_bind; [solve_safe|]. intros rows.
  apply safe_fold_each, safe_reconcile_row.
Qed.

Lemma safe_record_event id why : safe coherent (record_event_failure id why).
Proof. unfold record_event_failure. solve_safe. Qed.
#[local] Hint Resolve safe_record_event safe_fallback : safe.

Lemma safe_replay_claimed now h : safe coherent (replay_claimed now h).
Proof.
  unfold replay_claimed. apply safe_bind; [solve_safe|]. intros payload.
  apply safe_try; [solve_safe|].
  assert (Hh : forall e, safe coherent (id ← attr h ev_id;
     match e with
     | FlashUnavailable why =>
         _ ← record_event_failure id why;
         event ← attr h ev_event;
         _ ← apply_payload_fallback event (dt_external_ref (delivery_target payload));
         mret false
     | _ => _ ← record_event_failure id (exn_repr e); mret false
     end)) by (intros e; solve_safe).
  intros e. destruct (flash_exn e); [apply safe_after_safe|];
    apply (safe_after_rollback _ (fun _ => _)), (Hh e).
Qed.

Lemma safe_replay l s m : safe coherent (replay_unprocessed_events l s m).
Proof.
  unfold replay_unprocessed_events. apply safe_bind; [solve_safe|]. intros at_.
  apply safe_bind; [solve_safe|]. intros ev. apply safe_bind; [solve_safe|]. intros rows.
  apply safe_fold_each. intros n h. apply safe_bind; [|solve_safe].
  unfold replay_event. apply safe_bind; [solve_safe|]. intros id.
  apply safe_bind; [solve_safe|]. intros got. apply safe_bind; [solve_safe|]. intros _.
  destruct (negb got); [solve_safe|]. apply safe_bind; [solve_safe|].
  intros [p|]; [apply safe_replay_claimed|solve_safe].
Qed.

(** *** The endpoints *)

Lemma safe_http {A} (m : M A) : safe coherent m -> safe coherent (flash_failure_as_http m).
Proof.
  intros Hm. apply safe_try; [done|].
  intros e. destruct e; cbn [flash_exn]; try (by apply safe_after_raise); apply safe_raise.
Qed.

Lemma safe_act p write : (forall i, reads (write i)) -> safe coherent (act_on_subscription p write).
Proof.
  intros Hw. unfold act_on_subscription, reread. apply safe_bind; [solve_safe|].
  intros [row|]; [|solve_safe]. destruct (String.eqb _ _); [solve_safe|].
  apply safe_bind; [by apply safe_reads|]. intros [s|]; [|solve_safe].
  apply safe_bind; [|solve_safe]. apply safe_try; [solve_safe|].
  intros e. destruct e; cbn [flash_exn]; try (by apply safe_after_raise); solve_safe.
Qed.

Lemma safe_attribute sid p by_ : safe coherent (attribute_unresolved_subscription sid p by_).
Proof.
  unfold attribute_unresolved_subscription. apply safe_bind; [solve_safe|]. intros holder.
  apply safe_bind; [|solve_safe]. destruct holder as [row|]; [solve_safe|].
  unfold attribute_grant. solve_safe.
Qed.

Lemma safe_dismiss sid by_ : safe coherent (dismiss_unresolved_subscription sid by_).
Proof. unfold dismiss_unresolved_subscription. solve_safe. Qed.

Lemma safe_best_effort p sid : safe coherent (apply_best_effort p sid).
Proof.
  unfold apply_best_effort. destruct (flash_enabled settings); [|solve_safe].
  apply safe_try; [solve_safe|].
  intros e. destruct e; cbn [flash_exn]; try (by apply safe_after_raise); solve_safe.
Qed.

Lemma safe_block p b : safe coherent (set_billing_block p b).
Proof.
  unfold set_billing_block. apply safe_bind; [solve_safe|]. intros known.
  destruct (negb known); [solve_safe|]. apply safe_bind; [solve_safe|]. intros _.
  apply safe_bind.
  { apply safe_keeps, keeps_exec_raw. unfold modify. intros n d a d' Hd [= <- <-].
    by apply coherent_blocked. }
  intros _. apply safe_bind; [|solve_safe]. destruct b; [|solve_safe].
  apply safe_bind; [solve_safe|]. intros src. destruct (String.eqb _ _); [|solve_safe].
  apply (safe_revoke p (fun _ => mret true)). solve_safe.
Qed.

Lemma safe_require_scheduling i : safe coherent (require_scheduling i).
Proof. unfold require_scheduling. solve_safe. Qed.
Lemma safe_require_unused s p : safe coherent (require_unused_flash_ids s p).
Proof. unfold require_unused_flash_ids. solve_safe. Qed.
Lemma safe_refresh p : safe coherent (refresh_plan p).
Proof. apply safe_reads, reads_exec_raw_query. Qed.
#[local] Hint Resolve safe_require_scheduling safe_require_unused safe_refresh : safe.

Lemma safe_create_plan s p i a : safe coherent (create_billing_plan s p i a).
Proof.
  unfold create_billing_plan. apply safe_bind; [solve_safe|]. intros _.
  apply safe_bind; [solve_safe|]. intros _. apply safe_bind; [|solve_safe].
  unfold insert_billing_plan_on_db. apply safe_bind; [solve_safe|]. intros w.
  apply safe_bind; [by apply safe_reads|]. intros _. apply safe_keeps, keeps_exec_raw.
  unfold checked, put_plan. intros n d a' d' Hd.
  destruct (_ && _); [|done]. destruct (_ !! _); [done|]. destruct (_ && _); [|done].
  intros [= <- <-]. by apply (coherent_same d).
Qed.

Lemma safe_update_plan i v : safe coherent (update_billing_plan i v).
Proof.
  unfold update_billing_plan. apply safe_bind; [solve_safe|]. intros _.
  apply safe_bind; [solve_safe|]. intros [cur|]; [|solve_safe]. cbv zeta.
  apply safe_bind; [solve_safe|]. intros _. apply safe_bind; [|solve_safe].
  unfold update_billing_plan_on_db. apply safe_bind; [solve_safe|].
  intros [r|]; [|solve_safe]. apply safe_bind; [|solve_safe].
  apply safe_keeps, keeps_exec_raw. intros n d a d' Hd.
  destruct (edit_plan r v) as [r'|]; [|done]. unfold checked, put_plan.
  destruct (_ && _); [|done]. destruct (_ && _); [|done].
  intros [= <- <-]. by apply (coherent_same d).
Qed.

Lemma safe_set_user p i : safe coherent
  (_ ← set_scheduling_for_pubkey_on_db p (Some i) SOURCE_ADMIN; get_scheduling_on_db i).
Proof.
  intros w Hc Hw. apply wp_bind, wp_assign; [done| |].
  { intros e w' He C1. split; simpl; [by rewrite C1|]. by rewrite He. }
  intros w1 d C1 Hd D1. apply (safe_reads coherent); [solve_stable|by rewrite C1|].
  rewrite D1. by apply coherent_assign_admin.
Qed.

Lemma safe_bulk ps i : safe coherent (bulk_set_scheduling_for_pubkeys_on_db ps i SOURCE_ADMIN).
Proof.
  unfold bulk_set_scheduling_for_pubkeys_on_db. destruct ps as [|q ps]; [solve_safe|].
  apply safe_keeps, keeps_exec_raw. intros n d a d' Hd.
  destruct (_ && _); [done|]. intros [= <- <-].
  induction (filter _ _) as [|x l IH]; simpl; [done|]. by apply coherent_assign_admin.
Qed.

Lemma safe_receive h raw :
  safe coherent (now ← unix_now;
    match verify_delivery h raw accepted_webhook_secrets now
            (flash_webhook_tolerance_seconds settings) with
    | Raise (FlashSignatureError _ code) => raise (HTTPException code)
    | Raise e => raise e
    | Ok parts =>
        recorded ← handle_delivery raw (sg_timestamp parts);
        mret (recorded, needs_processing recorded)
    end).
Proof.
  apply safe_bind; [apply safe_reads; unfold unix_now; solve_stable|]. intros now.
  destruct (verify_delivery _ _ _ _ _) as [parts|[]]; [|solve_safe..].
  apply safe_bind; [|solve_safe]. unfold handle_delivery. apply safe_bind; [|solve_safe].
  unfold record_delivery. destruct (read_delivery_body raw) as [[ev data] payload].
  apply safe_bind; [solve_safe|]. intros ts. apply safe_bind; [solve_safe|]. intros at_.
  apply safe_bind; [|solve_safe]. unfold insert_flash_webhook_event_on_db.
  destruct (bind_text _) as [sid|]; [|solve_safe]. destruct (negb _); [solve_safe|].
  apply safe_bind; [solve_safe|]. intros w. apply safe_bind; [by apply safe_reads|].
  intros _. apply safe_bind; [solve_safe|]. intros created.
  apply safe_keeps, keeps_exec. unfold checked, insert_event. intros n d a d' Hd.
  destruct (_ && _); [|done]. destruct (dedupe_taken _ _); [by intros [= <- <-]|].
  destruct (_ !! _); [done|]. intros [= <- <-]. by apply (coherent_same d).
Qed.

End handlers.

#[export] Hint Resolve safe_commit safe_rollback safe_mark safe_event_failure safe_claim
  safe_settle safe_reset safe_last_event safe_sync_failure safe_flash_status safe_apply : safe.

(** ** Every operation, in any order *)

(** What can happen to the billing tables, one request or job at a time. *)
Inductive BillingOp :=
  | Deliver (signature_header : option string) (raw_body : string)
  | Process (recorded : RecordedDelivery)
  | SyncCycle (c : SyncSettings)
  | Resync (pubkey : string)
  | Refresh (pubkey : string) (subscription_id : option string)
  | SetBlock (pubkey : string) (blocked : bool)
  | CancelSubscription (pubkey : string) (why : option string)
  | SetStatus (pubkey status : string)
  | Attribute (subscription_id pubkey acting : string)
  | Dismiss (subscription_id acting : string)
  | CreatePlan (service plan : string) (scheduling_id : Z) (active : bool)
  | UpdatePlan (plan_id : Z) (values : PlanEdit)
  | AssignUser (pubkey : string) (scheduling_id : Z)
  | AssignUsers (scheduling_id : Z) (pubkeys : list string).

Definition run_op {E : Env} (o : BillingOp) (w : World) : World :=
  match o with
  | Deliver h raw => (receive_flash_webhook h raw w).2
  | Process r => (process_delivery_in_background r w).2
  | SyncCycle c => (billing_sync_cycle c w).2
  | Resync p => (resync_subscription_endpoint p w).2
  | Refresh p sid => (refresh_subscription_endpoint p sid w).2
  | SetBlock p b => (set_block_endpoint p b w).2
  | CancelSubscription p why => (cancel_subscription_endpoint p why w).2
  | SetStatus p st => (set_subscription_status_endpoint p st w).2
  | Attribute sid p by_ => (attribute_unresolved_endpoint sid p by_ w).2
  | Dismiss sid by_ => (dismiss_unresolved_endpoint sid by_ w).2
  | CreatePlan s p i a => (create_billing_plan_endpoint s p i a w).2
  | UpdatePlan i v => (update_billing_plan_endpoint i v w).2
  | AssignUser p i => (set_user_scheduling_endpoint p i w).2
  | AssignUsers i ps => (bulk_assign_scheduling_users_endpoint i ps w).2
  end.

Section ops.
Context {E : Env}.

(** Swallowing what a session raised leaves its tables. *)
Lemma at_rest_swallow {A} (m : M A) (a : A) w :
  at_rest coherent (m w).2 -> at_rest coherent (try_ m (fun _ => mret a) w).2.
Proof. unfold try_. by destruct (m w) as [[b|e] w']. Qed.

Lemma run_op_coherent o w : at_rest coherent w -> at_rest coherent (run_op o w).
Proof.
  intros Hw. destruct o; simpl.
  - by apply safe_with_session; [apply safe_receive|].
  - apply at_rest_swallow. by apply safe_with_session; [apply safe_process|].
  - apply at_rest_swallow. apply safe_with_session; [|done].
    apply safe_bind; [apply safe_replay|]. intros _.
    apply safe_bind; [apply safe_sweep|]. intros _.
    apply safe_bind; [apply safe_reconcile|solve_safe].
  - by apply safe_with_session; [apply safe_apply|].
  - apply safe_with_session; [|done]. apply safe_bind; [apply safe_best_effort|].
    intros o. apply safe_reads. solve_stable.
  - apply safe_with_session; [|done]. apply safe_bind; [apply safe_block|solve_safe].
  - apply safe_with_session; [|done]. apply safe_http, safe_act. intros i. solve_stable.
  - apply safe_with_session; [|done]. apply safe_http, safe_act. intros i. solve_stable.
  - by apply safe_with_session; [apply safe_http, safe_attribute|].
  - by apply safe_with_session; [apply safe_dismiss|].
  - by apply safe_with_session; [apply safe_create_plan|].
  - by apply safe_with_session; [apply safe_update_plan|].
  - apply safe_with_session; [|done]. apply safe_bind; [solve_safe|]. intros known.
    destruct (negb known); [solve_safe|apply safe_set_user].
  - apply safe_with_session; [|done]. apply safe_bind; [solve_safe|]. intros known.
    destruct (negb known); [solve_safe|apply safe_bulk].
Qed.

(** C2: what billing recorded granting is what the user receives.  After any
    sequence of deliveries, background processing, sync cycles, operator
    actions, plan edits and admin assignments — each of which may fail at any
    statement or commit, with Flash answering anything or nothing — every
    recorded grant is the user's assignment unless an admin took them over, and
    every assignment billing made is backed by a recorded grant. *)
Theorem billing_stays_coherent (ops : list BillingOp) (w : World) :
  at_rest coherent w -> at_rest coherent (foldl (fun w o => run_op o w) w ops).
Proof.
  revert w. induction ops as [|o ops IH]; intros w Hw; simpl; [done|].
  by apply IH, run_op_coherent.
Qed.

(** ** The divergence report's first section *)

Lemma coherent_no_mismatch d n : coherent d -> mismatches false n d = [].
Proof.
  intros Hd. apply elem_of_nil_inv. intros x Hx. unfold mismatches in Hx.
  apply list_elem_of_omap in Hx as (u & Hu & Hx). apply scan_elem in Hu as [p Hp].
  destruct (Hd p) as [Hk Hg _]. rewrite (Hk u Hp) in Hx. apply bind_Some in Hx as (r & Hr & Hx).
  unfold mismatch_where in Hx. destruct (us_granted u) as [g|] eqn:Hug.
  - destruct (Hg u g Hp Hug) as (r' & Hr' & Hsrc). rewrite Hr in Hr'. injection Hr' as <-.
    destruct Hsrc as [Hs|[Hs Hi]]; rewrite Hs, ?Hi in Hx; simpl in Hx; [done|].
    by rewrite Z.eqb_refl in Hx.
  - by destruct (tri_of_bool _); simpl in Hx.
Qed.

(** The report's policy-mismatch section stays empty, so a row in it is a
    fault from outside these operations. *)
Theorem no_policy_mismatch (ops : list BillingOp) (w : World) limit r w' :
  at_rest coherent w ->
  select_policy_mismatches_on_db false limit (foldl (fun w o => run_op o w) w ops) = (Ok r, w') ->
  r = [].
Proof.
  intros Hw Hq. assert (Hrest : at_rest coherent (foldl (fun w o => run_op o w) w ops)).
  { revert w Hw Hq. induction ops as [|o ops IH]; intros w Hw Hq; simpl; [done|].
    apply IH; [by apply run_op_coherent|done]. }
  apply exec_query_Ok in Hq as [n ->]. destruct Hrest as [Hc ->].
  by rewrite coherent_no_mismatch, take_nil.
Qed.

End ops.

(** ** Witnesses: the demo deployment is coherent, and a sync cycle with Flash
       down, a delivery and an admin assignment keep it so *)

Import Scenario.

Lemma demo_coherent : at_rest coherent demo.
Proof.
  split; [|done]. intros p. unfold demo, world_of, committed, demo_db.
  unfold nsec, user_subscription. split.
  - intros row [[<- <-]|[_ H]]%lookup_insert_Some; [done|]. by rewrite lookup_empty in H.
  - intros row g [[<- <-]|[_ H]]%lookup_insert_Some; [|by rewrite lookup_empty in H].
    intros [= <-]. exists (user (Some 7%Z) "billing"). split; [done|by right].
  - intros r [[<- <-]|[_ [[<- <-]|[_ [[<- <-]|[_ H]]%lookup_insert_Some]]%lookup_insert_Some]]%lookup_insert_Some;
      [done| |done|by rewrite lookup_empty in H].
    intros _. exists (subscription_of "bob" "sub-1" "canceled" (Some 7%Z) (Some 0%Z)), 7%Z.
    done.
Qed.

Definition demo_cycle : SyncSettings := {|
  replay_batch := 10; replay_stale_after := 600; reconcile_batch := 10;
  reconcile_stale_after := 3600; abandon_pending_after := 18000 |}.

Definition demo_ops : list BillingOp :=
  [SyncCycle demo_cycle; Deliver None "{}"; AssignUser "alice" 7%Z; Resync "bob"].

Lemma billing_stays_coherent_witness :
  let E := answering "bob" "expired" in
  at_rest coherent demo
  /\ at_rest coherent (foldl (fun w o => run_op o w) demo demo_ops)
  /\ nsec (committed (foldl (fun w o => run_op o w) demo demo_ops)) !! "bob"
     = Some (user None "default").
Proof.
  split; [exact demo_coherent|split].
  - exact (billing_stays_coherent (E := answering "bob" "expired") demo_ops demo demo_coherent).
  - vm_compute. reflexivity.
Defined.

Lemma no_policy_mismatch_witness :
  let E := answering "bob" "active" in
  exists r w', select_policy_mismatches_on_db false 10
    (foldl (fun w o => run_op o w) demo demo_ops) = (Ok r, w') /\ r = [].
Proof.
  cbv zeta. eexists _, _. split; [vm_compute; reflexivity|].
  refine (no_policy_mismatch (E := answering "bob" "active") demo_ops demo 10 _ _ demo_coherent _).
  vm_compute. reflexivity.
Defined.
