(* ===== verification/RowInvariants.v ===== *)
(** * Invariants every statement keeps

    [SubInvariant P] and [RowInvariant P] are what a property of the billing tables owes each of the
    writes the code makes, those on the events apart; [run_op_keeps] turns it into an invariant of every
    sequence of operations, whichever of them fail half way.  The instances are
    what the rest of the code takes for granted: rows sit under their own keys,
    a sync error and the moment it started come and go together, deliveries are
    recorded once each, and a recorded delivery is never lost or rewritten. *)

From Stdlib Require Import Ascii String.
From S2P Require Import Prelude Json Time Types Effects Scenario Repos FlashMock Flash.
From S2P Require Import Billing Entitlement Webhook BillingSync SchedulingAdmin.
From S2P Require Import SubscriptionView AdminBilling Coherence.
Local Open Scope string_scope.

(** ** The writes *)

(** The updates a subscription record undergoes in place. *)
Inductive sub_update : (SubRow -> SubRow) -> Prop :=
  | su_ungrant : sub_update (fun r => us_with_granted r None)
  | su_status st (cancel : option Z) : sub_update (fun r =>
      us_with_status r st (match cancel with Some _ => cancel | None => us_cancel r end))
  | su_event t : sub_update (fun r =>
      if tri_holds (newer_event t r) then us_with_event_at r (Some t) else r)
  | su_failed why now : sub_update (sync_failed why now).

(** The updates a recorded delivery undergoes, apart from the claim. *)
Inductive event_update : (EventRow -> EventRow) -> Prop :=
  | eu_processed now : event_update (processed now)
  | eu_failed why : event_update (failed_with why)
  | eu_settled now how who : event_update (settled_by now how who)
  | eu_replayable : event_update replayable_again.

(** A delivery as it is first recorded. *)
Definition new_event (id : Z) (r : EventRow) : Prop :=
  ev_id r = id /\ ev_processed_at r = None /\ (ev_attempts r <= 1)%Z.

Class SubInvariant (P : Db -> Prop) : Prop := {
  ri_nsec d m : P d -> P (with_nsec d m);
  ri_scheduling d m : P d -> P (with_scheduling d m);
  ri_plans d m : P d -> P (with_plans d m);
  ri_upsert d p s sub plan g now created :
    P d -> P (upsert_db p (upserted p s sub plan g now created) d);
  ri_sub d p f : sub_update f -> P d -> P (alter_sub p f d);
}.

Class RowInvariant (P : Db -> Prop) : Prop := {
  ri_subs :: SubInvariant P;
  ri_new_event d id r : new_event id r -> dedupe_taken (ev_dedupe_key r) d = false ->
    flash_webhook_event d !! id = None -> P d ->
    P (with_events d (<[id := r]> (flash_webhook_event d)));
  ri_event d id f : event_update f -> P d -> P (alter_event id f d);
  ri_events d q f : event_update f -> P d -> P (update_events q f d).2;
}.

(** What it owes a claim. *)
Class ClaimInvariant (P : Db -> Prop) : Prop :=
  ri_claim d id now : P d -> P (alter_event id (claimed now) d).

#[export] Hint Constructors sub_update event_update : rows.

Lemma kept_modify {E : Env} (P : Db -> Prop) {A} b (f : Db -> A * Db) :
  (forall d, P d -> P (f d).2) -> stable (keeps P) (exec (checked b (modify f))).
Proof.
  intros Hf. apply keeps_exec. unfold checked, modify. destruct b; [|done].
  intros n d a d' Hd [= Hfd]. specialize (Hf d Hd). by rewrite Hfd in Hf.
Qed.

Lemma kept_modify' {E : Env} (P : Db -> Prop) {A} (f : Db -> A * Db) :
  (forall d, P d -> P (f d).2) -> stable (keeps P) (exec (modify f)).
Proof. exact (kept_modify P true f). Qed.

Section keeps_subs.
Context {E : Env} (P : Db -> Prop) `{!SubInvariant P}.

Abbreviation kept := (stable (keeps P)).

(** *** Statements *)

Lemma kept_last_event p t : kept (update_last_event_at_on_db p t).
Proof.
  unfold update_last_event_at_on_db. destruct t as [t|]; [|solve_stable].
  destruct (py_truthy p); simpl; [|solve_stable]. destruct p; try (by solve_stable).
  apply kept_modify. intros d. apply ri_sub, su_event.
Qed.

Lemma kept_sync_failure p why : kept (record_sync_failure_on_db p why).
Proof.
  unfold record_sync_failure_on_db. apply stable_bind; [typeclasses eauto|solve_stable|].
  intros now. apply kept_modify. intros d. apply ri_sub, su_failed.
Qed.

Lemma kept_flash_status p st c : kept (update_flash_status_on_db p st c).
Proof. apply kept_modify'. intros d. apply ri_sub, su_status. Qed.

Lemma kept_ungrant p : kept (clear_granted_scheduling_on_db p).
Proof. apply kept_modify'. intros d. apply ri_sub, su_ungrant. Qed.

Lemma kept_upsert p s i g : kept (upsert_user_subscription_on_db p s i g).
Proof.
  unfold upsert_user_subscription_on_db. apply stable_bind; [typeclasses eauto|solve_stable|].
  intros now. destruct (bind_text _) as [sub|]; [|solve_stable].
  destruct (negb _); [solve_stable|]. apply stable_bind; [typeclasses eauto|solve_stable|].
  intros created. apply keeps_exec. unfold checked. intros n d a d' Hd.
  destruct (upsert_text_ok _ _); [|done]. destruct (_ && _); [|done]. intros [= <- <-].
  by apply ri_upsert.
Qed.

Lemma kept_blocked p b : kept (set_billing_blocked_on_db p b).
Proof.
  apply keeps_exec_raw. unfold modify. intros n d a d' Hd [= <- <-]. by apply ri_nsec.
Qed.

Lemma kept_create p : kept (get_or_create_brainstorm_observer_nsec_by_pubkey_on_db p).
Proof.
  unfold get_or_create_brainstorm_observer_nsec_by_pubkey_on_db.
  apply stable_bind; [typeclasses eauto|solve_stable|]. intros []; [solve_stable|].
  apply stable_bind; [typeclasses eauto| |solve_stable]. apply keeps_exec_raw.
  unfold checked. intros n d a d' Hd. destruct (text_ok p); [|done].
  destruct (_ !! p); [done|]. intros [= <- <-]. by apply ri_nsec.
Qed.

Lemma kept_assign p sid src : kept (set_scheduling_for_pubkey_on_db p sid src).
Proof.
  unfold set_scheduling_for_pubkey_on_db. apply stable_bind; [typeclasses eauto|apply kept_create|].
  intros _. apply keeps_exec_raw. intros n d a d' Hd. destruct (scheduling_fk sid d); [|done].
  intros [= <- <-]. by apply ri_nsec.
Qed.

Lemma kept_bulk ps i src : kept (bulk_set_scheduling_for_pubkeys_on_db ps i src).
Proof.
  unfold bulk_set_scheduling_for_pubkeys_on_db. destruct ps as [|q ps]; [solve_stable|].
  apply keeps_exec_raw. intros n d a d' Hd. destruct (_ && _); [done|]. intros [= <- <-].
  induction (filter _ _) as [|x l IH]; simpl; [done|]. by apply ri_nsec.
Qed.

Lemma kept_put_plan r n d a d' : P d -> put_plan r n d = Ok (a, d') -> P d'.
Proof.
  intros Hd. unfold put_plan. destruct (_ && _); [|done]. intros [= <- <-]. by apply ri_plans.
Qed.

Lemma kept_insert_plan s p i a : kept (insert_billing_plan_on_db s p i a).
Proof.
  unfold insert_billing_plan_on_db. apply stable_bind; [typeclasses eauto|solve_stable|].
  intros w. apply stable_bind; [typeclasses eauto|by apply reads_keeps|]. intros _. apply keeps_exec_raw.
  unfold checked. intros n d a' d' Hd. destruct (_ && _); [|done].
  destruct (_ !! _); [done|]. by apply kept_put_plan.
Qed.

Lemma kept_edit_plan i v : kept (update_billing_plan_on_db i v).
Proof.
  unfold update_billing_plan_on_db. apply stable_bind; [typeclasses eauto|solve_stable|].
  intros [r|]; [|solve_stable]. apply stable_bind; [typeclasses eauto| |solve_stable].
  apply keeps_exec_raw. intros n d a d' Hd. destruct (edit_plan r v) as [r'|]; [|done].
  unfold checked. destruct (_ && _); [|done]. by apply kept_put_plan.
Qed.

Lemma kept_put_scheduling r n d a d' : P d -> put_scheduling r n d = Ok (a, d') -> P d'.
Proof.
  intros Hd. unfold put_scheduling. destruct (negb _); [done|]. destruct (_ && _); [done|].
  intros [= <- <-]. by apply ri_scheduling.
Qed.

Lemma kept_unset_default : kept unset_default_scheduling_on_db.
Proof.
  apply keeps_exec_raw. unfold modify. intros n d a d' Hd [= <- <-]. by apply ri_scheduling.
Qed.

Lemma kept_create_scheduling b : kept (create_scheduling_on_db b).
Proof.
  unfold create_scheduling_on_db. apply stable_bind; [typeclasses eauto|solve_stable|].
  intros w. apply stable_bind; [typeclasses eauto|by apply reads_keeps|]. intros _.
  apply stable_bind; [typeclasses eauto| |solve_stable]. apply keeps_exec_raw.
  intros n d a d' Hd. destruct (_ !! _); [done|]. by apply kept_put_scheduling.
Qed.

Lemma kept_update_scheduling i p : kept (update_scheduling_on_db i p).
Proof.
  unfold update_scheduling_on_db. apply stable_bind; [typeclasses eauto| |solve_stable].
  destruct (no_fields p); [solve_stable|]. apply keeps_exec_raw. intros n d a d' Hd.
  destruct (_ !! i); [|by intros [= <- <-]]. destruct (patch_scheduling _ _); [|done].
  by apply kept_put_scheduling.
Qed.

Lemma kept_delete_scheduling i : kept (delete_scheduling_on_db i).
Proof.
  apply keeps_exec_raw. intros n d a d' Hd. destruct (scheduling_unused i d); [|done].
  intros [= <- <-]. by apply ri_scheduling.
Qed.

#[local] Hint Resolve kept_last_event kept_sync_failure kept_flash_status kept_ungrant
  kept_upsert kept_blocked kept_assign kept_bulk kept_insert_plan kept_edit_plan
  kept_unset_default kept_create_scheduling kept_update_scheduling
  kept_delete_scheduling : stable.

(** *** Handlers that leave the events alone *)

Lemma kept_apply ref sid y a : kept (apply_entitlement ref sid y a).
Proof.
  unfold apply_entitlement, apply_entitlement_to, consult, locate, current_of,
    grant_and_record, write_assignment, warn_if_policy_is_inert. solve_stable.
Qed.
#[local] Hint Resolve kept_apply : stable.

Lemma kept_fallback ev ref : kept (apply_payload_fallback ev ref).
Proof. unfold apply_payload_fallback, fallback_for, fallback_revoke. solve_stable. Qed.

Lemma kept_retries left ref sid : kept (apply_with_db_retries_from left ref sid).
Proof. induction left as [|left IH]; simpl; solve_stable. Qed.

Lemma kept_sweep now : kept (revoke_lapsed_entitlements now).
Proof.
  unfold revoke_lapsed_entitlements. solve_stable; apply stable_fold_each; try typeclasses eauto;
    intros; unfold revoke_lapsed_row; solve_stable.
Qed.

Lemma kept_note p why : kept (note_failure p why).
Proof. unfold note_failure. solve_stable. Qed.
#[local] Hint Resolve kept_note : stable.

Lemma kept_reconcile_row acc h : kept (reconcile_row acc h).
Proof. unfold reconcile_row. solve_stable. Qed.

Lemma kept_reconcile l s a n : kept (reconcile_subscriptions l s a n).
Proof.
  unfold reconcile_subscriptions. solve_stable; apply stable_fold_each; try typeclasses eauto;
    intros; apply kept_reconcile_row.
Qed.

Lemma kept_best_effort p sid : kept (apply_best_effort p sid).
Proof. unfold apply_best_effort. solve_stable. Qed.

Lemma kept_http {A} (m : M A) : kept m -> kept (flash_failure_as_http m).
Proof. intros Hm. unfold flash_failure_as_http. solve_stable. Qed.

Lemma kept_block p b : kept (set_billing_block p b).
Proof. unfold set_billing_block. solve_stable. Qed.

Lemma kept_act p write : (forall i, reads (write i)) -> kept (act_on_subscription p write).
Proof. intros Hw. unfold act_on_subscription, reread. solve_stable. Qed.

End keeps_subs.

#[export] Hint Resolve kept_last_event kept_sync_failure kept_flash_status kept_ungrant
  kept_upsert kept_blocked kept_assign kept_bulk kept_insert_plan kept_edit_plan
  kept_unset_default kept_create_scheduling kept_update_scheduling kept_delete_scheduling
  kept_apply kept_fallback kept_retries kept_sweep kept_note kept_reconcile_row kept_reconcile
  kept_best_effort kept_block : stable.

Section keeps.
Context {E : Env} (P : Db -> Prop) `{!RowInvariant P}.

Abbreviation kept := (stable (keeps P)).



(** *** Statements *)

Lemma kept_mark id now : kept (mark_webhook_event_processed_on_db id now).
Proof. apply kept_modify'. intros d. apply ri_event; auto with rows. Qed.
Lemma kept_event_failure id why : kept (record_webhook_event_failure_on_db id why).
Proof. apply kept_modify. intros d. apply ri_event; auto with rows. Qed.
Lemma kept_settle sid now a b c : kept (settle_unresolved_events_on_db sid now a b c).
Proof. apply kept_modify. intros d. apply ri_events; auto with rows. Qed.
Lemma kept_reset s p e : kept (reset_events_awaiting_plan_on_db s p e).
Proof. apply kept_modify'. intros d. apply ri_events; auto with rows. Qed.
Lemma kept_insert_event ev dt ts sid payload key claimed_at :
  kept (insert_flash_webhook_event_on_db ev dt ts sid payload key claimed_at).
Proof.
  unfold insert_flash_webhook_event_on_db. destruct (bind_text _) as [b|]; [|solve_stable].
  destruct (negb _); [solve_stable|]. apply stable_bind; [typeclasses eauto|solve_stable|].
  intros w. apply stable_bind; [typeclasses eauto|by apply reads_keeps|]. intros _.
  apply stable_bind; [typeclasses eauto|solve_stable|]. intros created.
  apply keeps_exec. unfold checked, insert_event. intros n d a d' Hd. destruct (_ && _); [|done].
  destruct (dedupe_taken _ _) eqn:Hk; [by intros [= <- <-]|].
  destruct (_ !! _) eqn:Hi; [done|]. intros [= <- <-].
  apply ri_new_event; try done. split_and!; try done. by destruct claimed_at.
Qed.


#[local] Hint Resolve kept_mark kept_event_failure kept_settle kept_reset
  kept_insert_event : stable.

(** *** Handlers *)

Lemma kept_record_failure id e : kept (record_failure id e).
Proof. unfold record_failure. solve_stable. Qed.
#[local] Hint Resolve kept_record_failure : stable.

Lemma kept_process r : kept (process_delivery r).
Proof. unfold process_delivery, settle_delivery, apply_with_db_retries. solve_stable. Qed.

Lemma kept_record_event id why : kept (record_event_failure id why).
Proof. unfold record_event_failure. solve_stable. Qed.
#[local] Hint Resolve kept_record_event : stable.

Lemma kept_replay_claimed now h : kept (replay_claimed now h).
Proof. unfold replay_claimed. solve_stable. Qed.

Lemma kept_attribute sid p by_ : kept (attribute_unresolved_subscription sid p by_).
Proof. unfold attribute_unresolved_subscription, attribute_grant. solve_stable. Qed.
Lemma kept_dismiss sid by_ : kept (dismiss_unresolved_subscription sid by_).
Proof. unfold dismiss_unresolved_subscription. solve_stable. Qed.
Lemma kept_create_plan s p i a : kept (create_billing_plan s p i a).
Proof.
  unfold create_billing_plan, require_scheduling, require_unused_flash_ids, refresh_plan.
  solve_stable.
Qed.
Lemma kept_update_plan i v : kept (update_billing_plan i v).
Proof.
  unfold update_billing_plan, require_scheduling, require_unused_flash_ids, refresh_plan.
  solve_stable.
Qed.
Lemma kept_handle raw t : kept (handle_delivery raw t).
Proof. unfold handle_delivery, record_delivery. solve_stable. Qed.
#[local] Hint Resolve kept_process kept_attribute kept_dismiss kept_create_plan kept_update_plan kept_handle : stable.

(** A session leaves its world at rest, with the invariant. *)
Lemma kept_session {A} (m : M A) w : kept m -> at_rest P w -> at_rest P (with_session m w).2.
Proof. intros Hm. by apply safe_with_session, safe_keeps. Qed.

Lemma kept_swallowed (m : M unit) (a : unit) w :
  kept m -> at_rest P w -> at_rest P (try_ (with_session m) (fun _ => mret a) w).2.
Proof.
  intros Hm Hw. pose proof (kept_session m w Hm Hw) as Hs. unfold try_.
  by destruct (with_session m w) as [[] w'].
Qed.

(** The replay of recorded events, which claims them. *)
Definition replay_kept : Prop := forall limit stale,
  kept (replay_unprocessed_events limit stale (billing_replay_max_attempts settings)).

Lemma run_op_keeps o w : replay_kept -> at_rest P w -> at_rest P (run_op o w).
Proof.
  intros Hreplay.
  intros Hw. destruct o; simpl; try (apply kept_session; [|done]).
  - unfold receive_delivery, unix_now. solve_stable.
  - apply kept_swallowed; [|done]. solve_stable.
  - apply kept_swallowed; [|done]. solve_stable.
  - solve_stable.
  - solve_stable.
  - solve_stable.
  - apply (kept_http P). apply (kept_act P). intros i. solve_stable.
  - apply (kept_http P). apply (kept_act P). intros i. solve_stable.
  - apply (kept_http P). solve_stable.
  - solve_stable.
  - solve_stable.
  - solve_stable.
  - solve_stable.
  - solve_stable.
Qed.

Lemma claim_replay_kept : ClaimInvariant P -> replay_kept.
Proof.
  intros Hclaim limit stale. unfold replay_unprocessed_events.
  solve_stable; apply stable_fold_each; try typeclasses eauto.
  intros n h. apply stable_bind; [typeclasses eauto| |solve_stable]. unfold replay_event.
  apply stable_bind; [typeclasses eauto|solve_stable|]. intros id.
  apply stable_bind; [typeclasses eauto| |].
  - apply kept_modify'. intros d Hd. unfold claim_stmt.
    destruct (_ !! id) as [r|]; [destruct (claim_where _ _ _)|]; [|done|done]. by apply ri_claim.
  - intros got. assert (Hrc := kept_replay_claimed a h). solve_stable.
Qed.

Lemma run_sched_op_keeps o w : at_rest P w -> at_rest P (run_sched_op o w).
Proof.
  intros Hw. destruct o; simpl; apply kept_session; try done;
    unfold count_users_on_scheduling_on_db; solve_stable.
Qed.

Lemma clear_override_keeps p w :
  at_rest P w -> at_rest P (clear_user_scheduling_override_endpoint p w).2.
Proof.
  intros Hw. apply kept_session; [|done]. unfold get_scheduling_for_pubkey_on_db. solve_stable.
Qed.

End keeps.

(** ** Every operation, in any order *)

(** Everything that writes the billing tables: the billing operations, the
    policy catalogue's, and lifting an administrator's override. *)
Inductive Op :=
  | OnBilling (o : BillingOp)
  | OnPolicies (o : SchedOp)
  | ClearOverride (pubkey : string).

Definition run_any {E : Env} (o : Op) (w : World) : World :=
  match o with
  | OnBilling o => run_op o w
  | OnPolicies o => run_sched_op o w
  | ClearOverride p => (clear_user_scheduling_override_endpoint p w).2
  end.

Definition run_all {E : Env} (ops : list Op) (w : World) : World :=
  foldl (fun w o => run_any o w) w ops.

Lemma run_all_keeps_from {E : Env} P `{!RowInvariant P} ops w :
  replay_kept P -> at_rest P w -> at_rest P (run_all ops w).
Proof.
  intros Hr. revert w. induction ops as [|o ops IH]; intros w Hw; [done|]. apply IH.
  destruct o; simpl; [by apply run_op_keeps|by apply run_sched_op_keeps|by apply clear_override_keeps].
Qed.

Lemma run_all_keeps {E : Env} P `{!RowInvariant P, !ClaimInvariant P} ops w :
  at_rest P w -> at_rest P (run_all ops w).
Proof. apply (run_all_keeps_from P), (claim_replay_kept P). done. Qed.

(** ** Instances *)

(** A property of each subscription record and a property of each delivery. *)
Definition rows_satisfy (S : string -> SubRow -> Prop) (V : Z -> EventRow -> Prop) (d : Db) : Prop :=
  (forall p r, user_subscription d !! p = Some r -> S p r)
  /\ forall i r, flash_webhook_event d !! i = Some r -> V i r.

Lemma rows_satisfy_invariant (S : string -> SubRow -> Prop) (V : Z -> EventRow -> Prop) :
  (forall p s sub plan g now created old, S p (upserted p s sub plan g now created old)) ->
  (forall f p r, sub_update f -> S p r -> S p (f r)) ->
  (forall i r, new_event i r -> V i r) ->
  (forall f i r, event_update f -> V i r -> V i (f r)) ->
  RowInvariant (rows_satisfy S V).
Proof.
  intros HU HS HN HV. split; [split|..]; intros d.
  1-3: done.
  - intros p s sub plan g now created [Hs Hv]. split; [|done].
    intros q r. simpl. intros [[<- <-]|[_ Hr]]%lookup_insert_Some; eauto.
  - intros p f Hf [Hs Hv]. split; [|done]. intros q r. simpl.
    destruct (decide (q = p)) as [->|]; [rewrite lookup_alter_eq|rewrite lookup_alter_ne by done; eauto].
    intros (u & Hu & ->)%fmap_Some_1. eauto.
  - intros i r Hr _ _ [Hs Hv]. split; [done|].
    intros j x. simpl. intros [[<- <-]|[_ Hx]]%lookup_insert_Some; eauto.
  - intros i f Hf [Hs Hv]. split; [done|]. intros j r. simpl.
    destruct (decide (j = i)) as [->|]; [rewrite lookup_alter_eq|rewrite lookup_alter_ne by done; eauto].
    intros (u & Hu & ->)%fmap_Some_1. eauto.
  - intros q f Hf [Hs Hv]. split; [done|]. intros j r. simpl. rewrite lookup_fmap.
    intros (u & Hu & ->)%fmap_Some_1. destruct (q u); eauto.
Qed.

Lemma rows_satisfy_claim (S : string -> SubRow -> Prop) (V : Z -> EventRow -> Prop) :
  (forall i r now, V i r -> V i (claimed now r)) -> ClaimInvariant (rows_satisfy S V).
Proof.
  intros HV d i now [Hs Hv]. split; [done|]. intros j r. simpl.
  destruct (decide (j = i)) as [->|]; [rewrite lookup_alter_eq|rewrite lookup_alter_ne by done; eauto].
  intros (u & Hu & ->)%fmap_Some_1. eauto.
Qed.

(** Rows sit under their own keys. *)
Definition keyed : Db -> Prop :=
  rows_satisfy (fun p r => us_pubkey r = p) (fun i r => ev_id r = i).
#[export] Instance keyed_invariant : RowInvariant keyed.
Proof.
  apply rows_satisfy_invariant; [done| |by intros i r []|].
  - intros f p r [] <-; try done. simpl. by destruct (tri_holds _).
  - by intros f i r [] <-.
Qed.

#[export] Instance keyed_claim : ClaimInvariant keyed.
Proof. by apply rows_satisfy_claim. Qed.

(** A sync error and the moment it started come and go together. *)
Definition sync_paired (r : SubRow) : Prop :=
  us_last_sync_error r = None <-> us_sync_error_since r = None.
Definition errors_paired : Db -> Prop := rows_satisfy (fun _ => sync_paired) (fun _ _ => True).
#[export] Instance errors_paired_invariant : RowInvariant errors_paired.
Proof.
  apply rows_satisfy_invariant; [done| |done|done]. intros f p r []; try done; simpl.
  - by destruct (tri_holds _).
  - intros _. unfold sync_paired, sync_failed. simpl.
    rewrite tri_holds_and, tri_holds_is_not_null.
    destruct (us_sync_error_since r); simpl; [|rewrite andb_false_r; done].
    by destruct (tri_holds _ && _).
Qed.

#[export] Instance errors_paired_claim : ClaimInvariant errors_paired.
Proof. by apply rows_satisfy_claim. Qed.

(** No two recorded deliveries share a key. *)
Definition distinct_deliveries (d : Db) : Prop :=
  forall i j r s, flash_webhook_event d !! i = Some r -> flash_webhook_event d !! j = Some s ->
    ev_dedupe_key r = ev_dedupe_key s -> i = j.

Lemma event_update_key f r : event_update f -> ev_dedupe_key (f r) = ev_dedupe_key r.
Proof. by intros []. Qed.

Lemma distinct_by_key d d' :
  (forall i r, flash_webhook_event d' !! i = Some r ->
     exists s, flash_webhook_event d !! i = Some s /\ ev_dedupe_key s = ev_dedupe_key r) ->
  distinct_deliveries d -> distinct_deliveries d'.
Proof.
  intros Hk Hd i j r s Hi Hj Hrs. destruct (Hk i r Hi) as (r0 & Hi0 & Hr0).
  destruct (Hk j s Hj) as (s0 & Hj0 & Hs0). apply (Hd i j r0 s0); congruence.
Qed.

Lemma alter_event_lookup d i f j r :
  flash_webhook_event (alter_event i f d) !! j = Some r ->
  exists s, flash_webhook_event d !! j = Some s /\ (r = s \/ r = f s).
Proof.
  simpl. destruct (decide (j = i)) as [->|];
    [rewrite lookup_alter_eq|rewrite lookup_alter_ne by done; eauto].
  intros (u & Hu & ->)%fmap_Some_1. eauto.
Qed.

Lemma update_events_lookup d q f j r : event_update f ->
  flash_webhook_event (update_events q f d).2 !! j = Some r ->
  exists s, flash_webhook_event d !! j = Some s /\ (r = s \/ r = f s).
Proof.
  intros Hf. simpl. rewrite lookup_fmap. intros (u & Hu & ->)%fmap_Some_1.
  destruct (q u); eauto.
Qed.

#[export] Instance distinct_invariant : RowInvariant distinct_deliveries.
Proof.
  split; [split|..]; intros d.
  1-5: intros; by eapply distinct_by_key; eauto.
  - intros i r _ Hk Hi Hd j k x y.
    assert (Hfree : forall l z, flash_webhook_event d !! l = Some z ->
              ev_dedupe_key z <> ev_dedupe_key r).
    { intros l z Hl Hz. apply not_true_iff_false in Hk. apply Hk, existsb_map.
      exists l, z. split; [done|]. by apply String.eqb_eq. }
    simpl. intros [[<- <-]|[_ Hx]]%lookup_insert_Some [[<- <-]|[_ Hy]]%lookup_insert_Some Hxy; try done.
    + by destruct (Hfree _ _ Hy).
    + by destruct (Hfree _ _ Hx).
    + by eapply Hd.
  - intros i f Hf. apply distinct_by_key. intros j r Hj.
    apply alter_event_lookup in Hj as (s & Hs & [->| ->]); [eauto|].
    exists s. by rewrite event_update_key.
  - intros q f Hf. apply distinct_by_key. intros j r Hj.
    apply update_events_lookup in Hj as (s & Hs & [->| ->]); [eauto| |done].
    exists s. by rewrite event_update_key.
Qed.

#[export] Instance distinct_claim : ClaimInvariant distinct_deliveries.
Proof.
  intros d i now. apply distinct_by_key. intros j r Hj.
  apply alter_event_lookup in Hj as (s & Hs & [->| ->]); eauto.
Qed.

(** What a delivery said, which no later write touches. *)
Definition said (r : EventRow) : string * option Z * Z * option string * option json * string * Z :=
  (ev_event r, ev_event_timestamp r, ev_delivery_timestamp r, ev_subscription_id r,
   ev_payload r, ev_dedupe_key r, ev_created_at r).

Definition recorded_as (i : Z) (r0 : EventRow) (d : Db) : Prop :=
  exists r, flash_webhook_event d !! i = Some r /\ said r = said r0.
#[export] Instance recorded_invariant i r0 : RowInvariant (recorded_as i r0).
Proof.
  assert (Hsaid : forall f r, event_update f -> said (f r) = said r) by (by intros f r []).
  split; [split|..]; intros d.
  1-5: intros; done.
  - intros j r _ _ Hj (x & Hx & Hs). exists x. split; [|done]. simpl.
    rewrite lookup_insert_ne; [done|]. by intros ->; simplify_eq.
  - intros j f Hf (x & Hx & Hs). simpl. unfold recorded_as. simpl.
    destruct (decide (j = i)) as [->|]; [|exists x; by rewrite lookup_alter_ne].
    exists (f x). by rewrite lookup_alter_eq, Hx, Hsaid.
  - intros q f Hf (x & Hx & Hs). unfold recorded_as. simpl. rewrite lookup_fmap, Hx.
    eexists. split; [done|]. destruct (q x); [by rewrite Hsaid|done].
Qed.
#[export] Instance recorded_claim i r0 : ClaimInvariant (recorded_as i r0).
Proof.
  intros d j now (x & Hx & Hs). unfold recorded_as. simpl.
  destruct (decide (j = i)) as [->|]; [|exists x; by rewrite lookup_alter_ne].
  exists (claimed now x). by rewrite lookup_alter_eq, Hx.
Qed.
