(* ===== verification/DeliveryProps.v ===== *)
(** * What happens to a delivery

    Verification, recording, deduplication and claiming of Flash's webhooks:
    the theorems about [Webhook] and the event half of [BillingSync]. *)

From Stdlib Require Import Ascii String.
From S2P Require Import Prelude Json Time Types Effects Scenario Repos FlashMock Flash.
From S2P Require Import Billing Entitlement Webhook BillingSync SchedulingAdmin.
From S2P Require Import SubscriptionView AdminBilling Coherence RowInvariants.
Local Open Scope string_scope.

(** ** Recording *)

Section recording.
Context {E : Env}.

(** The key a body is deduplicated by. *)
Definition delivery_key (raw_body : string) : string :=
  let '(event, data, _) := read_delivery_body raw_body in build_dedupe_key event data raw_body.

Lemma dedupe_taken_true key d : dedupe_taken key d = true <->
  exists i r, flash_webhook_event d !! i = Some r /\ ev_dedupe_key r = key.
Proof.
  unfold dedupe_taken. rewrite existsb_map. split; intros (i & r & Hi & Hk);
    exists i, r; (split; [done|]); by apply String.eqb_eq.
Qed.

(** The insert: a key already there is reported and nothing is written; a new
    one is in the table afterwards. *)
Lemma insert_event_Ok ev dt ts sid payload key c w r w' :
  insert_flash_webhook_event_on_db ev dt ts sid payload key c w = (Ok r, w') ->
  committed w' = committed w /\ aborted w' = false
  /\ (dedupe_taken key (working w) = true -> r = None /\ working w' = working w)
  /\ dedupe_taken key (working w') = true.
Proof.
  unfold insert_flash_webhook_event_on_db. destruct (bind_text sid) as [b|]; [|done].
  destruct (negb _); [done|]. intros H.
  refine (wp_run _ (fun r w' => forall a, r = Ok a -> committed w' = committed w
    /\ aborted w' = false
    /\ (dedupe_taken key (working w) = true -> a = None /\ working w' = working w)
    /\ dedupe_taken key (working w') = true) _ _ _ _ H r eq_refl). clear H r w'.
  apply wp_bind. unfold wp at 1. simpl. apply wp_bind. unfold wp at 1. simpl.
  apply wp_bind. unfold wp at 1. simpl. apply wp_exec; [done|].
  intros a d _ Hst. unfold checked, insert_event in Hst. simpl in Hst.
  destruct (_ && _); [|done]. destruct (dedupe_taken key (working w)) eqn:Hk; simpl in Hst.
  - injection Hst as <- <-. intros a [= <-]. simpl. by rewrite Hk.
  - destruct (_ !! _); [done|]. injection Hst as <- <-. intros a [= <-]. simpl.
    split_and!; try done. apply dedupe_taken_true. simpl. eexists _, _.
    rewrite lookup_insert_eq. split; reflexivity.
Qed.

Lemma commit_Ok w w' :
  commit w = (Ok tt, w') -> committed w' = working w /\ working w' = working w.
Proof.
  unfold commit. destruct (aborted w); [done|]. destruct (commit_outcome _); [|done|done].
  by intros [= <-].
Qed.

Lemma record_delivery_Ok raw t w r w' :
  record_delivery raw t w = (Ok r, w') ->
  working w' = committed w'
  /\ (dedupe_taken (delivery_key raw) (working w) = true ->
       rd_event_id r = None /\ rd_duplicate r = true /\ committed w' = working w)
  /\ dedupe_taken (delivery_key raw) (committed w') = true.
Proof.
  unfold record_delivery, delivery_key. destruct (read_delivery_body raw) as [[ev data] payload].
  intros (ts & w1 & Hts & H)%bind_Ok_inv. injection Hts as _ <-.
  apply bind_Ok_inv in H as (at_ & w2 & Hat & H). injection Hat as _ <-.
  apply bind_Ok_inv in H as (id & w3 & Hin & H). apply bind_Ok_inv in H as ([] & w4 & Hc & H).
  injection H as <- <-. apply insert_event_Ok in Hin as (Hcm & _ & Hdup & Hk).
  simpl in Hcm, Hdup. apply commit_Ok in Hc as [-> ->]. split_and!; [done| |done].
  intros Hd. destruct (Hdup Hd) as [-> ->]. done.
Qed.

Lemma handle_delivery_Ok raw t w r w' :
  handle_delivery raw t w = (Ok r, w') ->
  working w' = committed w'
  /\ (dedupe_taken (delivery_key raw) (working w) = true ->
       rd_duplicate r = true /\ committed w' = working w)
  /\ dedupe_taken (delivery_key raw) (committed w') = true.
Proof.
  unfold handle_delivery. intros (rec & w1 & Hr & H)%bind_Ok_inv.
  apply record_delivery_Ok in Hr as (Hrest & Hdup & Hk).
  destruct (String.eqb _ _); [|injection H as <- <-; naive_solver].
  destruct (rd_event_id rec) as [id|] eqn:Hid; [|injection H as <- <-; naive_solver].
  apply bind_Ok_inv in H as (now & w2 & Hnow & H). injection Hnow as _ <-.
  apply bind_Ok_inv in H as ([] & w3 & Hm & H). apply bind_Ok_inv in H as ([] & w4 & Hc & H).
  injection H as <- <-. apply commit_Ok in Hc as [-> ->].
  split_and!; [done|intros Hd; destruct (Hdup Hd); congruence|].
  refine (wp_run _ (fun r w' => is_ok r = true ->
    dedupe_taken (delivery_key raw) (working w') = true) _ _ _ _ Hm eq_refl).
  apply wp_exec; [done|]. unfold modify. intros a d _ [= <- <-] _. simpl. rewrite Hrest.
  apply dedupe_taken_true in Hk as (i & x & Hi & Hx). apply dedupe_taken_true.
  destruct (decide (i = id)) as [->|].
  - exists id, (processed now x). simpl. by rewrite lookup_alter_eq, Hi.
  - exists i, x. simpl. by rewrite lookup_alter_ne.
Qed.

Lemma with_session_Ok {A} (m : M A) w a w' :
  with_session m w = (Ok a, w') ->
  exists w1, m w = (Ok a, w1) /\ committed w' = working w1 /\ working w' = working w1.
Proof.
  unfold with_session. intros [H|(e & w1 & _ & H)]%try_Ok_inv; [|done].
  apply bind_Ok_inv in H as (b & w1 & Hm & H). apply bind_Ok_inv in H as ([] & w2 & Hc & H).
  injection H as <- <-. apply commit_Ok in Hc as [-> ->]. eauto.
Qed.

Lemma receive_delivery_Ok h raw w r sch w' :
  receive_delivery h raw w = (Ok (r, sch), w') ->
  sch = needs_processing r /\ working w' = committed w'
  /\ (dedupe_taken (delivery_key raw) (working w) = true ->
       rd_duplicate r = true /\ committed w' = working w)
  /\ dedupe_taken (delivery_key raw) (committed w') = true.
Proof.
  intros (now & w2 & Hnow & Hm)%bind_Ok_inv.
  assert (Hw2 : working w2 = working w).
  { unfold unix_now in Hnow. apply bind_Ok_inv in Hnow as (t & w3 & Ht & Hret).
    injection Ht as _ <-. by injection Hret as _ <-. }
  destruct (verify_delivery _ _ _ _ _) as [parts|[]]; try done.
  apply bind_Ok_inv in Hm as (rec & w3 & Hh & Hret). injection Hret as <- <- <-.
  apply handle_delivery_Ok in Hh as (Hrest & Hdup & Hk).
  rewrite Hw2 in Hdup. by split_and!.
Qed.

Lemma receive_Ok h raw w r sch w' :
  receive_flash_webhook h raw w = (Ok (r, sch), w') ->
  sch = needs_processing r /\ working w' = committed w'
  /\ (dedupe_taken (delivery_key raw) (working w) = true ->
       rd_duplicate r = true /\ committed w' = working w)
  /\ dedupe_taken (delivery_key raw) (committed w') = true.
Proof.
  intros (w1 & (-> & Hw1 & Hdup & Hk)%receive_delivery_Ok & Hc & Hw)%with_session_Ok.
  rewrite Hc, Hw, Hw1. by split_and!.
Qed.

(** C12: a delivery takes effect once.  After a delivery was acknowledged, and
    whatever ran since, another delivery carrying the same event — the same
    key — that is acknowledged is reported a duplicate, schedules no processing
    and leaves every table as it was. *)
Theorem redelivery_ignored (ops : list Op) w0 h1 raw1 r1 s1 w1 h2 raw2 r2 s2 w2 :
  receive_flash_webhook h1 raw1 w0 = (Ok (r1, s1), w1) ->
  receive_flash_webhook h2 raw2 (run_all ops w1) = (Ok (r2, s2), w2) ->
  delivery_key raw2 = delivery_key raw1 ->
  rd_duplicate r2 = true /\ s2 = false /\ committed w2 = committed (run_all ops w1).
Proof.
  intros H1 H2 Hkey. apply receive_Ok in H1 as (_ & Hrest & _ & Hk).
  apply dedupe_taken_true in Hk as (i & x & Hi & Hx).
  assert (Hlog : at_rest (recorded_as i x) (run_all ops w1)).
  { apply (run_all_keeps _). split; [by exists x|done]. }
  destruct Hlog as [(y & Hy & Hs) Hrest']. apply receive_Ok in H2 as (-> & _ & Hdup & _).
  destruct Hdup as [Hd Hc].
  { rewrite Hrest'. apply dedupe_taken_true. exists i, y. split; [done|].
    injection Hs as _ _ _ _ _ Hs _. congruence. }
  rewrite Hc, Hrest'. split_and!; try done. unfold needs_processing. by rewrite Hd.
Qed.

(** Nothing recorded is lost.  Over any run of operations every recorded
    delivery keeps what it said — event, timestamps, subscription, payload and
    key — and no two recorded deliveries ever share a key. *)
Theorem deliveries_kept (ops : list Op) w i r :
  at_rest distinct_deliveries w -> flash_webhook_event (committed w) !! i = Some r ->
  distinct_deliveries (committed (run_all ops w))
  /\ exists r', flash_webhook_event (committed (run_all ops w)) !! i = Some r' /\ said r' = said r.
Proof.
  intros Hw Hi. split; [exact (proj1 (run_all_keeps distinct_deliveries ops w Hw))|].
  apply (run_all_keeps (recorded_as i r)). destruct Hw as [_ Hrest]. split; [|done].
  by exists r.
Qed.

End recording.

(** ** Claiming *)

Lemma claimable_claimed now now' stale r :
  tri_holds (claimable now' stale (claimed now r)) = (now <=? now' - stale)%Z.
Proof. unfold claimable. simpl. by destruct (now <=? _)%Z. Qed.

(** One worker at a time.  The claim of an event is one UPDATE: when it
    succeeds, no other claim of that event succeeds before the stale period has
    passed; a processed event is never claimed; and each success counts one
    attempt, on that event alone. *)
Theorem claim_excludes id now stale d d1 :
  claim_stmt id now stale d = (true, d1) ->
  (forall now', (now' < now + stale)%Z -> claim_stmt id now' stale d1 = (false, d1))
  /\ (exists r, flash_webhook_event d !! id = Some r /\ ev_processed_at r = None
        /\ flash_webhook_event d1 !! id = Some (claimed now r)
        /\ ev_attempts (claimed now r) = (ev_attempts r + 1)%Z)
  /\ forall j, j <> id -> flash_webhook_event d1 !! j = flash_webhook_event d !! j.
Proof.
  unfold claim_stmt. destruct (flash_webhook_event d !! id) as [r|] eqn:Hr; [|done].
  destruct (claim_where now stale r) eqn:Hc; [|done]. intros [= <-].
  assert (Hr1 : flash_webhook_event (alter_event id (claimed now) d) !! id = Some (claimed now r))
    by (simpl; by rewrite lookup_alter_eq, Hr).
  split_and!.
  - intros now' Hn. rewrite Hr1. unfold claim_where. rewrite tri_holds_and, claimable_claimed.
    destruct (Z.leb_spec now (now' - stale)); [lia|]. by rewrite andb_false_r.
  - exists r. split_and!; try done. unfold claim_where in Hc. rewrite tri_holds_and in Hc.
    apply andb_true_iff in Hc as [Hp _]. rewrite tri_holds_is_null in Hp.
    by apply bool_decide_eq_true in Hp.
  - intros j Hj. simpl. by rewrite lookup_alter_ne.
Qed.

(** ** Attempts are bounded *)

Definition within (max : Z) : Db -> Prop :=
  rows_satisfy (fun _ _ => True) (fun i r => ev_id r = i /\ (ev_attempts r <= max)%Z).

(** Event [i] has an attempt left. *)
Definition has_spare (max i : Z) (d : Db) : Prop :=
  exists r, flash_webhook_event d !! i = Some r /\ (ev_attempts r < max)%Z.

(** Every event within the bound, those of [ids] with an attempt left. *)
Definition spare (max : Z) (ids : list Z) (d : Db) : Prop :=
  within max d /\ forall i, i ∈ ids -> has_spare max i d.

Section attempts.
Context {E : Env} (max : Z) (Hmax : (1 <= max)%Z).

#[local] Instance within_invariant : RowInvariant (within max).
Proof using Hmax.
  apply rows_satisfy_invariant; [done|done| |].
  - intros i r (Hi & _ & Ha). split; [done|lia].
  - intros f i r [] [Hi Ha]; simpl; split; try done; lia.
Qed.

#[local] Instance has_spare_invariant i : RowInvariant (has_spare max i).
Proof using Hmax.
  split; [split|..]; intros d.
  1-5: intros; done.
  - intros j r _ _ Hj (x & Hx & Ha). exists x. split; [|done]. simpl.
    rewrite lookup_insert_ne; [done|]. by intros ->; simplify_eq.
  - intros j f Hf (x & Hx & Ha). unfold has_spare. simpl.
    destruct (decide (j = i)) as [->|]; [|exists x; by rewrite lookup_alter_ne].
    exists (f x). rewrite lookup_alter_eq, Hx. split; [done|]. destruct Hf; simpl; lia.
  - intros q f Hf (x & Hx & Ha). unfold has_spare. simpl. rewrite lookup_fmap, Hx.
    eexists. split; [done|]. destruct (q x); [|done]. destruct Hf; simpl; lia.
Qed.

#[local] Instance spare_invariant ids : RowInvariant (spare max ids).
Proof using Hmax.
  split; [split|..]; intros d.
  1-3: intros m [Hw Hs]; split; [by first [apply ri_nsec|apply ri_scheduling|apply ri_plans]|done].
  - intros p s sub plan g now created [Hw Hs]. split; [by apply ri_upsert|done].
  - intros p f Hf [Hw Hs]. split; [by apply ri_sub|done].
  - intros i r Hn Hk Hi [Hw Hs]. split; [by apply ri_new_event|].
    intros j Hj. by apply ri_new_event; auto.
  - intros i f Hf [Hw Hs]. split; [by apply ri_event|]. intros j Hj. by apply ri_event; auto.
  - intros q f Hf [Hw Hs]. split; [by apply ri_events|]. intros j Hj. by apply ri_events; auto.
Qed.

(** The claim spends the attempt its event had left. *)
Lemma claim_spends id ids now stale d :
  id ∉ ids -> spare max (id :: ids) d -> spare max ids (claim_stmt id now stale d).2.
Proof using Hmax.
  intros Hid [Hw Hs]. assert (Hkeep : spare max ids d) by (split; [done|set_solver]).
  unfold claim_stmt. destruct (Hs id) as (r & Hr & Ha); [set_solver|]. rewrite Hr.
  destruct (claim_where now stale r); [|done]. simpl. destruct Hw as [_ Hw]. split; [split; [done|]|].
  - intros j x Hx. simpl in Hx. destruct (decide (j = id)) as [->|].
    + rewrite lookup_alter_eq, Hr in Hx. injection Hx as <-. simpl.
      split; [by apply (Hw id r)|lia].
    + rewrite lookup_alter_ne in Hx by done. by apply Hw.
  - intros j Hj. destruct (Hs j) as (x & Hx & Hxa); [set_solver|]. exists x. simpl.
    rewrite lookup_alter_ne by set_solver. done.
Qed.

Lemma replay_event_spends now stale h ids w :
  ev_id h.2 ∉ ids ->
  within max (committed w) -> spare max (ev_id h.2 :: ids) (working w) ->
  wp (replay_event now stale h) (fun r w' => within max (committed w') /\ within max (working w')
    /\ (is_ok r = true -> spare max ids (working w'))) w.
Proof using Hmax.
  intros Hid Hc Hw. assert (Hwk : within max (working w)) by apply Hw.
  unfold replay_event. apply wp_bind. unfold attr at 1, wp at 1.
  destruct (orm_expires_on_rollback && _); simpl; [by split_and!|].
  apply wp_bind, wp_exec; [by split_and!|]. unfold modify. intros got d _ [= Hst].
  assert (Hd : spare max ids d).
  { pose proof (claim_spends (ev_id h.2) ids now stale (working w) Hid Hw) as Hd.
    by rewrite Hst in Hd. }
  assert (Hdw : within max d) by apply Hd.
  apply wp_bind, wp_commit; [intros k; by split_and!..|]. intros _.
  assert (Hrest : stable (keeps (spare max ids)) (
    if negb got then mret false else
    payload ← attr h ev_payload;
    match payload with
    | None => id ← attr h ev_id; _ ← record_event_failure id "payload missing"; mret false
    | Some _ => replay_claimed now h
    end)).
  { assert (Hrc := kept_replay_claimed (spare max ids) now h).
    assert (Hre := kept_record_event (spare max ids)). solve_stable. }
  apply wp_intro. intros r w' Hrun. pose proof (stable_run _ _ _ _ _ Hrest Hrun) as Hk.
  destruct Hk as [[Hc' _] Hw']; [by split|]. split_and!; [done|by destruct Hw'|done].
Qed.

Lemma replay_rows_within now stale rows n w :
  NoDup (ev_id <$> (snd <$> rows)) ->
  within max (committed w) -> spare max (ev_id <$> (snd <$> rows)) (working w) ->
  wp (fold_each rows n (fun n h =>
        replayed ← replay_event now stale h; mret (if replayed : bool then S n else n, false)))
     (fun _ w' => within max (committed w') /\ within max (working w')) w.
Proof using Hmax.
  revert n w. induction rows as [|h rows IH]; intros n w Hnd Hc Hw; simpl.
  { split; simpl; [done|apply Hw]. }
  rewrite !fmap_cons in Hnd. apply list.NoDup_cons in Hnd as [Hh Hnd].
  apply wp_bind, wp_bind. eapply wp_mono; [by apply (replay_event_spends now stale h _ w Hh)|].
  intros [b|e] w' (Hc' & Hw' & Hs); [|done]. apply wp_ret. simpl. apply IH; auto.
Qed.

(** The rows of a scan have distinct ids when they sit under them. *)
Lemma scan_ids_NoDup n (m : gmap Z EventRow) :
  (forall i r, m !! i = Some r -> ev_id r = i) -> NoDup (ev_id <$> scan n m).
Proof.
  intros Hk. unfold scan. set (leb := fun a b : Z * EventRow => _).
  assert (Hfst : ev_id <$> (snd <$> stable_sort leb (map_to_list m))
    = fst <$> stable_sort leb (map_to_list m)).
  { rewrite <- list_fmap_compose. apply list_fmap_ext. intros j [i r] Hj. simpl.
    apply list_elem_of_lookup_2, (stable_sort_elem leb), elem_of_map_to_list in Hj. by apply Hk. }
  rewrite Hfst, stable_sort_perm. apply NoDup_fst_map_to_list.
Qed.

Lemma replay_keeps_within limit stale :
  stable (keeps (within max)) (replay_unprocessed_events limit stale max).
Proof using Hmax.
  intros w [Hc Hw]. change (wp (replay_unprocessed_events limit stale max)
    (fun _ w' => within max (committed w') /\ within max (working w')) w).
  unfold replay_unprocessed_events. apply wp_bind. unfold wp at 1. simpl.
  apply wp_bind, wp_query; simpl; [by intros w' [-> ->]|]. intros n w1 [C1 D1]. simpl in C1, D1.
  apply wp_bind. unfold wp at 1. simpl. set (found := take limit _).
  assert (Hsub : forall r, r ∈ found -> flash_webhook_event (working w) !! ev_id r = Some r
            /\ (ev_attempts r < max)%Z).
  { intros r Hr. apply elem_of_take in Hr as (k & Hr & _).
    apply list_elem_of_lookup_2, (stable_sort_elem _), list_elem_of_filter in Hr as [Hr Hin].
    apply scan_elem in Hin as [i Hi]. destruct Hw as [_ Hw]. destruct (Hw i r Hi) as [<- _].
    split; [done|]. apply Is_true_true in Hr. unfold abandoned_where in Hr.
    rewrite !tri_holds_and, !andb_true_iff, tri_holds_of_bool in Hr.
    destruct Hr as (_ & Ha & _). by apply Z.ltb_lt in Ha. }
  assert (Hids : snd <$> ((fun r => (epoch w1, r)) <$> found) = found).
  { rewrite <- list_fmap_compose. apply list_fmap_id. }
  apply replay_rows_within; rewrite ?C1, ?D1, ?Hids; [|done|].
  - subst found. set (sorted := stable_sort _ _).
    apply (sublist_NoDup _ (ev_id <$> sorted)); [|by apply fmap_sublist, sublist_take].
    subst sorted. rewrite stable_sort_perm.
    eapply sublist_NoDup; [|apply fmap_sublist, sublist_filter].
    apply scan_ids_NoDup. intros i r Hi. by apply Hw.
  - split; [done|]. intros i (r & -> & Hr)%list_elem_of_fmap. exists r. by apply Hsub.
Qed.

End attempts.

(** An event is tried a bounded number of times.  With
    [billing_replay_max_attempts] at least one, no recorded event is ever
    claimed more often than that, however the operations and their failures
    interleave; an operator's mapping of its plan starts the count again. *)
Theorem attempts_bounded {E : Env} (ops : list Op) w :
  (1 <= billing_replay_max_attempts settings)%Z ->
  at_rest (within (billing_replay_max_attempts settings)) w ->
  at_rest (within (billing_replay_max_attempts settings)) (run_all ops w).
Proof.
  intros Hmax. pose proof (within_invariant _ Hmax). apply run_all_keeps_from; [done|].
  intros limit stale. by apply replay_keeps_within.
Qed.

(** ** Witnesses: [alice]'s activation delivered twice, with a sync cycle and the
       retirement of a policy in between *)

Import Scenario.

Definition between : list Op := [OnBilling (SyncCycle demo_cycle); OnPolicies (DeletePolicy 1)].

Abbreviation first_delivery :=
  (receive_flash_webhook (E := hooked) (demo_header "one") "one" demo).

Abbreviation second_delivery :=
  (receive_flash_webhook (E := hooked) (demo_header "two") "two"
     (run_all (E := hooked) between first_delivery.2)).

(** The acknowledged result of a run that succeeds. *)
Definition acknowledged (r : res exn (RecordedDelivery * bool) * World)
  : option (RecordedDelivery * bool) := match r.1 with Ok a => Some a | Raise _ => None end.

Lemma redelivery_ignored_witness :
  exists r1 r2 s2, acknowledged first_delivery = Some (r1, true)
    /\ acknowledged second_delivery = Some (r2, s2)
    /\ rd_duplicate r2 = true /\ s2 = false.
Proof.
  eexists _, _, _. split; [vm_compute; reflexivity|]. split; [vm_compute; reflexivity|].
  refine (let H := redelivery_ignored (E := hooked) between demo (demo_header "one") "one" _ true
    first_delivery.2 (demo_header "two") "two" _ _ second_delivery.2 _ _ _ in
    conj (proj1 H) (proj1 (proj2 H))).
  - apply run_returns. vm_compute. reflexivity.
  - apply run_returns. vm_compute. reflexivity.
  - vm_compute. reflexivity.
Defined.

Lemma empty_events_fine max : (1 <= max)%Z ->
  at_rest distinct_deliveries demo /\ at_rest (within max) demo.
Proof.
  intros Hmax. split; (split; [|done]).
  - intros i j r s Hi. vm_compute in Hi. discriminate.
  - split; [done|]. intros i r Hi. vm_compute in Hi. discriminate.
Qed.

Definition deliver_once : list Op := [OnBilling (Deliver (demo_header "one") "one")].

Abbreviation after_first := (run_all (E := hooked) deliver_once demo).

Lemma deliveries_kept_witness :
  exists r, flash_webhook_event (committed after_first) !! 1%Z = Some r
    /\ exists r', flash_webhook_event (committed (run_all (E := hooked) between after_first))
                    !! 1%Z = Some r' /\ said r' = said r.
Proof.
  eexists. split; [vm_compute; reflexivity|].
  refine (proj2 (deliveries_kept (E := hooked) between after_first 1%Z _ _ _)).
  - apply (run_all_keeps (E := hooked) distinct_deliveries deliver_once demo).
    by apply (empty_events_fine 1).
  - vm_compute. reflexivity.
Defined.

Lemma attempts_bounded_witness :
  let E := hooked in at_rest (within 5) (run_all between after_first).
Proof.
  apply (attempts_bounded (E := hooked) between after_first); [done|].
  pose proof (within_invariant 5 ltac:(lia)) as Hinv.
  apply (run_all_keeps_from (E := hooked) (within 5) deliver_once demo).
  - intros limit stale. by apply replay_keeps_within.
  - by apply (empty_events_fine 5).
Defined.

Lemma claim_excludes_witness :
  exists d1, claim_stmt 1 (demo_now + 600000000) 600000000 (committed first_delivery.2) = (true, d1)
    /\ claim_stmt 1 (demo_now + 700000000) 600000000 d1 = (false, d1).
Proof.
  eexists. split; [vm_compute; reflexivity|].
  refine (proj1 (claim_excludes 1 (demo_now + 600000000) 600000000 (committed first_delivery.2) _ _)
    _ _).
  - vm_compute. reflexivity.
  - vm_compute. reflexivity.
Defined.
