(* ===== verification/WebhookProps.v ===== *)
(** * Accepting a delivery and processing it

    Signatures: what is accepted, and that what Flash signs is.  Processing:
    when an event is settled, what a failure leaves, and the two places where
    the code does less than it says. *)

From Stdlib Require Import Ascii String.
From S2P Require Import Prelude Json Time Types Effects Scenario Repos FlashMock Flash.
From S2P Require Import Billing Entitlement Webhook BillingSync SchedulingAdmin.
From S2P Require Import SubscriptionView AdminBilling Coherence RowInvariants DeliveryProps.
Local Open Scope string_scope.

Section signatures.
Context {E : Env}.

(** Some configured secret yields the digest. *)
Lemma some_secret_matches t raw sig :
  existsb (fun secret => signature_matches secret t raw sig) accepted_webhook_secrets = true
  <-> exists secret, secret <> ""
        /\ (secret = flash_webhook_secret settings
            \/ secret = flash_webhook_secret_previous settings)
        /\ hmac_sha256_hex secret (pretty t ++ "." ++ raw) = sig.
Proof.
  rewrite existsb_exists. unfold accepted_webhook_secrets.
  split; intros (s & H1 & H2); exists s.
  - apply list_elem_of_In, list_elem_of_filter in H1 as [Hne Hin].
    apply negb_true_iff, String.eqb_neq in Hne. apply String.eqb_eq in H2.
    split_and!; [done|set_solver|done].
  - destruct H2 as [Hin Hh]. split; [|by apply String.eqb_eq].
    apply list_elem_of_In, list_elem_of_filter.
    split; [by apply negb_true_iff, String.eqb_neq|set_solver].
Qed.

(** Only Flash gets in.  A delivery is accepted exactly when its header
    names a timestamp within the tolerance and a digest that one of the
    configured secrets yields over that timestamp and the exact bytes received;
    with no secret configured nothing is. *)
Theorem verify_delivery_iff header raw now tolerance parts :
  (verify_delivery header raw accepted_webhook_secrets now tolerance = Ok parts
   <-> parse_signature_header header = Some parts
       /\ (Z.abs (now - sg_timestamp parts) <= tolerance)%Z
       /\ exists secret, secret <> ""
            /\ (secret = flash_webhook_secret settings
                \/ secret = flash_webhook_secret_previous settings)
            /\ hmac_sha256_hex secret (pretty (sg_timestamp parts) ++ "." ++ raw)
               = sg_signature parts).
Proof.
  unfold verify_delivery. rewrite <- some_secret_matches.
  destruct (parse_signature_header header) as [p|]; [|split; [done|by intros [? _]]].
  unfold is_timestamp_fresh. split.
  - destruct (Z.leb_spec (Z.abs (now - sg_timestamp p)) tolerance); [|done]. simpl.
    destruct (existsb _ _) eqn:Hs; [|done]. intros [= <-]. by split_and!.
  - intros ([= ->] & Hf & Hs). destruct (Z.leb_spec (Z.abs (now - sg_timestamp parts)) tolerance);
      [|lia]. simpl. by rewrite Hs.
Qed.

(** *** What Flash sends *)

Definition is_hex (c : ascii) : bool :=
  is_digit c || ((97 <=? chr_code c) && (chr_code c <=? 102))%Z.

(** [Flash-Signature: t=<unix>,v1=<hex>]. *)
Definition flash_header (timestamp : Z) (digest : string) : string :=
  "t=" ++ pretty timestamp ++ ",v1=" ++ digest.

Lemma hex_not c : is_hex c = true ->
  is_space c = false /\ Ascii.eqb c "," = false /\ Ascii.eqb c "=" = false.
Proof. destruct c as [[] [] [] [] [] [] [] []]; (done || discriminate). Qed.

Lemma hex_plain l : forallb is_hex l = true ->
  forallb (fun c => negb (is_space c)) l = true /\ free_of "," l /\ free_of "=" l.
Proof.
  intros Hl. rewrite forallb_forall in Hl. split_and!; unfold free_of; apply forallb_forall;
    intros c Hc; destruct (hex_not c (Hl c Hc)) as (H1 & H2 & H3); by rewrite ?H1, ?H2, ?H3.
Qed.

Lemma digit_hex l : forallb is_digit l = true -> forallb is_hex l = true.
Proof.
  rewrite !forallb_forall. intros Hl c Hc. unfold is_hex. by rewrite (Hl c Hc).
Qed.

(** One field of the header. *)
Lemma add_field_plain fields k v :
  forallb (fun c => negb (is_space c)) (chars k) = true -> free_of "=" (chars k) ->
  forallb (fun c => negb (is_space c)) v = true ->
  add_field fields (of_chars (chars k ++ "="%char :: v)) = dict_set k (of_chars v) fields.
Proof.
  intros Hk Hf Hv. unfold add_field, py_partition. rewrite chars_of_chars, partition_chars_app by done.
  unfold py_strip. by rewrite !chars_of_chars, !strip_chars_id, of_chars_chars.
Qed.

Lemma parse_flash_header t digest :
  (0 <= t < 10 ^ 18)%Z -> digest <> "" -> forallb is_hex (chars digest) = true ->
  parse_signature_header (Some (flash_header t digest))
  = Some {| sg_timestamp := t; sg_signature := digest |}.
Proof.
  intros Ht Hne Hd.
  destruct (pretty_Z_digits 18 t) as (Hdig & _ & Hpne & _); [lia|done|].
  destruct (hex_plain _ (digit_hex _ Hdig)) as (Hs & Hc & _).
  destruct (hex_plain _ Hd) as (Hs' & Hc' & _).
  unfold parse_signature_header. change (flash_header t digest)
    with (String "t" (String "=" (pretty t ++ ",v1=" ++ digest))).
  assert (Hsplit : py_split "," (String "t" (String "=" (pretty t ++ ",v1=" ++ digest)))
    = [of_chars (chars "t" ++ "="%char :: chars (pretty t));
       of_chars (chars "v1" ++ "="%char :: chars digest)]).
  { unfold py_split.
    assert (Hch : chars (String "t" (String "=" (pretty t ++ ",v1=" ++ digest)))
      = (("t"%char :: "="%char :: chars (pretty t)) ++ ","%char :: chars ("v1=" ++ digest))%list).
    { change ("t"%char :: "="%char :: chars (pretty t ++ ",v1=" ++ digest)
        = ("t"%char :: "="%char :: chars (pretty t)) ++ ","%char :: chars ("v1=" ++ digest))%list.
      by rewrite chars_append. }
    rewrite Hch, split_chars_app by (by repeat (apply free_of_cons; split)).
    rewrite split_chars_free; [done|]. by repeat (apply free_of_cons; split). }
  rewrite Hsplit. match goal with |- context [foldl add_field [] [?a; ?b]] =>
    change (foldl add_field [] [a; b]) with (add_field (add_field [] a) b) end.
  rewrite !add_field_plain by done. rewrite !of_chars_chars.
  assert (Hpt : pretty t <> "") by (intros Hp; by rewrite Hp in Hpne).
  set (fields := dict_set "v1" _ _).
  assert (Ht' : dict_get "t" fields = Some (pretty t)) by reflexivity.
  assert (Hv' : dict_get "v1" fields = Some digest) by reflexivity.
  rewrite Ht', Hv'. simpl.
  by rewrite (proj2 (String.eqb_neq _ _) Hpt), (proj2 (String.eqb_neq _ _) Hne), py_int_pretty.
Qed.

(** What Flash signs is accepted.  A delivery signed as Flash documents it,
    with the current secret or with the one being rotated out, over the bytes
    received and at a time within the tolerance, verifies. *)
Theorem signed_delivery_verifies secret t raw now tolerance :
  (forall k m, hmac_sha256_hex k m <> "" /\ forallb is_hex (chars (hmac_sha256_hex k m)) = true) ->
  secret <> "" ->
  secret = flash_webhook_secret settings \/ secret = flash_webhook_secret_previous settings ->
  (0 <= t < 10 ^ 18)%Z -> (Z.abs (now - t) <= tolerance)%Z ->
  verify_delivery (Some (flash_header t (compute_signature secret t raw))) raw
    accepted_webhook_secrets now tolerance
  = Ok {| sg_timestamp := t; sg_signature := compute_signature secret t raw |}.
Proof.
  intros Hdigest Hne Hsec Ht Hfresh. unfold verify_delivery.
  destruct (Hdigest secret (pretty t ++ "." ++ raw)) as [Hd1 Hd2].
  rewrite parse_flash_header by done. unfold is_timestamp_fresh. cbn [sg_timestamp sg_signature].
  destruct (Z.leb_spec (Z.abs (now - t)) tolerance); [|lia]. simpl.
  by rewrite (proj2 (some_secret_matches t raw _)); [|exists secret].
Qed.

End signatures.

(** ** Recording *)

Section recorded.
Context {E : Env}.

(** What a delivery that was not a duplicate left in the table. *)
Definition holds_delivery (d : Db) (id : Z) (raw_body : string) : Prop :=
  exists row, flash_webhook_event d !! id = Some row
    /\ let '(event, _, payload) := read_delivery_body raw_body in
       ev_event row = event /\ ev_payload row = Some payload
       /\ ev_dedupe_key row = delivery_key raw_body.

Lemma insert_event_new ev dt ts sid payload key c w id w' :
  insert_flash_webhook_event_on_db ev dt ts sid payload key c w = (Ok (Some id), w') ->
  exists row, flash_webhook_event (working w') !! id = Some row
    /\ ev_event row = ev /\ ev_payload row = Some payload /\ ev_dedupe_key row = key.
Proof.
  unfold insert_flash_webhook_event_on_db. destruct (bind_text sid) as [b|]; [|done].
  destruct (negb _); [done|]. intros H.
  refine (wp_run _ (fun r w' => forall id, r = Ok (Some id) -> exists row,
    flash_webhook_event (working w') !! id = Some row
    /\ ev_event row = ev /\ ev_payload row = Some payload /\ ev_dedupe_key row = key)
    _ _ _ _ H id eq_refl). clear H id w'.
  apply wp_bind. unfold wp at 1. simpl. apply wp_bind. unfold wp at 1. simpl.
  apply wp_bind. unfold wp at 1. simpl. apply wp_exec; [done|].
  intros a d _ Hst. unfold checked, insert_event in Hst. destruct (_ && _); [|done].
  destruct (dedupe_taken _ _); [injection Hst as <- <-; done|].
  destruct (_ !! _); [done|]. injection Hst as <- <-. intros id [= <-]. simpl.
  rewrite lookup_insert_eq. eauto.
Qed.

Lemma handle_delivery_new raw t w r id w' :
  handle_delivery raw t w = (Ok r, w') -> rd_event_id r = Some id ->
  holds_delivery (committed w') id raw.
Proof.
  unfold handle_delivery, record_delivery, holds_delivery, delivery_key.
  destruct (read_delivery_body raw) as [[ev data] payload].
  intros (rec & w1 & Hr & H)%bind_Ok_inv Hid.
  apply bind_Ok_inv in Hr as (ts & w2 & _ & Hr). apply bind_Ok_inv in Hr as (at_ & w3 & _ & Hr).
  apply bind_Ok_inv in Hr as (i & w4 & Hin & Hr). apply bind_Ok_inv in Hr as ([] & w5 & Hc & Hr).
  injection Hr as <- <-. apply commit_Ok in Hc as [Hc Hw].
  cbn [rd_event rd_event_id] in H. destruct (String.eqb ev PROBE_EVENT); last first.
  { injection H as <- <-. simpl in Hid. subst i. apply insert_event_new in Hin. by rewrite Hc. }
  destruct i as [i|]; [|injection H as <- <-; done].
  apply bind_Ok_inv in H as (now & w6 & Hnow & H). injection Hnow as _ <-.
  apply bind_Ok_inv in H as ([] & w7 & Hm & H). apply bind_Ok_inv in H as ([] & w8 & Hc2 & H).
  injection H as <- <-. simpl in Hid. injection Hid as ->.
  apply insert_event_new in Hin as (row & Hrow & Hev). apply commit_Ok in Hc2 as [-> _].
  refine (wp_run _ (fun r w' => is_ok r = true -> exists row,
    flash_webhook_event (working w') !! id = Some row /\ _) _ _ _ _ Hm eq_refl).
  apply wp_exec; [done|]. unfold modify. intros a d _ [= <- <-] _.
  exists (processed now row). simpl. by rewrite lookup_alter_eq, Hw, Hrow.
Qed.

(** What may come of the session once the answer is on its way: nothing, when the
    process dies; its closing commit, whatever becomes of that; a rollback. *)
Inductive session_ends (w : World) : World -> Prop :=
  | ends_dead : session_ends w w
  | ends_commit : session_ends w (commit w).2
  | ends_rollback : session_ends w (rollback (commit w).2).2.

Lemma session_ends_committed w w' : working w = committed w -> session_ends w w' -> committed w' = committed w.
Proof.
  intros Hw. assert (Hc : committed (commit w).2 = committed w).
  { unfold commit. destruct (aborted w); [done|]. destruct (commit_outcome _); simpl; congruence. }
  by intros [].
Qed.

(** C40: an acknowledgement means the delivery is safe.  The moment the endpoint's
    function returns what the answer is made from, before the session around it is
    closed, the event is in the committed table under its key; when it was not a
    duplicate, with the event name and the payload the body carried; and nothing that
    becomes of the session afterwards takes it away. *)
Theorem acknowledged_is_durable header raw w r scheduled w' :
  receive_delivery header raw w = (Ok (r, scheduled), w') ->
  dedupe_taken (delivery_key raw) (committed w') = true
  /\ (forall id, rd_event_id r = Some id -> holds_delivery (committed w') id raw)
  /\ (scheduled = true -> rd_duplicate r = false /\ str_in (rd_event r) RECOGNISED_EVENTS = true)
  /\ forall w'', session_ends w' w'' -> committed w'' = committed w'.
Proof.
  intros Hrun. pose proof (receive_delivery_Ok _ _ _ _ _ _ Hrun) as (-> & Hw & _ & Hk). split_and!; [done| | |].
  - intros id Hid. apply bind_Ok_inv in Hrun as (now & w2 & _ & Hm).
    destruct (verify_delivery _ _ _ _ _) as [parts|[]]; try done.
    apply bind_Ok_inv in Hm as (rec & w3 & Hh & Hret). inversion Hret; subst.
    by eapply handle_delivery_new.
  - unfold needs_processing. rewrite !andb_true_iff, negb_true_iff. tauto.
  - intros w''. by apply session_ends_committed.
Qed.

(** A signed delivery is refused when its subscription id is not text.  The
    driver cannot bind the value, so the insert fails, the endpoint answers 500
    and nothing is recorded — although the module's rule is to record everything
    and reject nothing. *)
Theorem untyped_subscription_id_refused raw event data payload t w r w' :
  read_delivery_body raw = (event, data, payload) ->
  bind_text (dt_subscription_id (delivery_target (Some payload))) = None ->
  handle_delivery raw t w = (r, w') -> is_ok r = false /\ committed w' = committed w.
Proof.
  unfold handle_delivery, record_delivery. intros -> Hb. unfold insert_flash_webhook_event_on_db. rewrite Hb.
  unfold lift, mbind, M_mbind. destruct (parse_event_timestamp payload) as [ts|e]; simpl;
    by intros [= <- <-].
Qed.

End recorded.

(** ** Processing *)

Definition unprocessed (id : Z) (d : Db) : Prop :=
  exists r, flash_webhook_event d !! id = Some r /\ ev_processed_at r = None.

#[local] Instance unprocessed_subs id : SubInvariant (unprocessed id).
Proof. split; done. Qed.

Section processing.
Context {E : Env}.

Lemma unprocessed_failure id j why :
  stable (keeps (unprocessed id)) (record_webhook_event_failure_on_db j why).
Proof.
  apply kept_modify. intros d (r & Hr & Hp). simpl. unfold unprocessed. simpl.
  destruct (decide (id = j)) as [->|]; [|exists r; by rewrite lookup_alter_ne].
  exists (failed_with why r). by rewrite lookup_alter_eq, Hr.
Qed.
#[local] Hint Resolve unprocessed_failure : stable.

Lemma unprocessed_record_failure id j e : stable (keeps (unprocessed id)) (record_failure j e).
Proof. unfold record_failure. solve_stable. Qed.
#[local] Hint Resolve unprocessed_record_failure : stable.

(** An event is marked processed only when its subscriber was settled.  If
    processing a delivery moved its event out of the unprocessed ones, the
    reconcile of the subscriber it names returned during that run, with a
    settled reason; every other way out leaves it for the replay. *)
Theorem processed_only_when_settled recorded w r w' id :
  working w = committed w -> process_delivery recorded w = (r, w') ->
  unprocessed id (committed w) -> ~ unprocessed id (committed w') ->
  exists o w1, apply_with_db_retries (rd_external_ref recorded) (rd_subscription_id recorded) w
      = (Ok o, w1) /\ settled (reason o) = true.
Proof.
  intros Hrest Hrun Hbefore Hafter. unfold process_delivery in Hrun.
  destruct (negb (needs_processing recorded)); [by injection Hrun as <- <-|].
  destruct (apply_with_db_retries _ _ w) as [[o|e] w1] eqn:Happly;
    [destruct (settled (reason o)) eqn:Hs; [by eauto|]|]; exfalso; apply Hafter;
    pose proof (stable_run _ _ _ _ _ (kept_retries (unprocessed id) DB_RETRIES _ _) Happly) as Hk1;
    (destruct Hk1 as [Hc1 Hw1]; [by rewrite Hrest|]).
  - set (h := fun err => match err with FlashUnavailable _ => _ | _ => _ end) in Hrun.
    assert (Hstep : stable (keeps (unprocessed id)) (try_ (settle_delivery recorded o) h)).
    { unfold settle_delivery, h. rewrite Hs. solve_stable. }
    assert (Heq : try_ (settle_delivery recorded o) h w1 = (r, w')).
    { rewrite <- Hrun. unfold try_, mbind, M_mbind. by rewrite Happly. }
    by apply (stable_run _ _ _ _ _ Hstep Heq).
  - assert (Hstep : stable (keeps (unprocessed id)) (match e with
      | FlashUnavailable _ =>
          _ ← record_failure (rd_event_id recorded) e;
          _ ← apply_payload_fallback (rd_event recorded) (rd_external_ref recorded);
          mret tt
      | _ => record_failure (rd_event_id recorded) e
      end)) by solve_stable.
    unfold try_, mbind, M_mbind in Hrun. rewrite Happly in Hrun.
    by apply (stable_run _ _ _ _ _ Hstep Hrun).
Qed.

(** A database failure inside a reconcile is not retried.  The retry loop
    waits for OperationalError and InterfaceError, but every statement runs
    through [execute_db_statement], which turns them into a 500; so a connection
    lost at the first statement ends the run after that one statement. *)
Theorem statement_failure_not_retried p subscription_id w k :
  p <> "" -> aborted w = false -> db_fault (tick w) = Some k ->
  exists w', apply_with_db_retries (JStr p) subscription_id w = (Raise (HTTPException 500), w')
    /\ tick w' = S (tick w).
Proof.
  intros Hp Ha Hf. unfold apply_with_db_retries. simpl. unfold try_, apply_entitlement. simpl.
  rewrite (proj2 (String.eqb_neq p "") Hp). simpl.
  unfold apply_entitlement_to, consult, brainstorm_nsec_exists_by_pubkey_on_db.
  unfold mbind, M_mbind, exec, try_, exec_raw. rewrite Ha, Hf. simpl. eauto.
Qed.

End processing.

(** ** Witnesses *)

Import Scenario.

Lemma hex_text_ok s : forallb is_hex (chars (hex_text s)) = true.
Proof.
  unfold hex_text. rewrite chars_of_chars. induction (chars s) as [|c l IH]; [done|].
  change (is_hex (hex_chr (chr_code c / 16)) && (is_hex (hex_chr (chr_code c mod 16))
    && forallb is_hex (mjoin ((fun c => [hex_chr (chr_code c / 16); hex_chr (chr_code c mod 16)])
         <$> l))) = true).
  rewrite IH. by destruct c as [[] [] [] [] [] [] [] []].
Qed.

Lemma signed_delivery_verifies_witness :
  let E := hooked in
  verify_delivery (Some (flash_header demo_unix (compute_signature "whsec" demo_unix "one"))) "one"
    accepted_webhook_secrets (demo_unix + 120) 300
  = Ok {| sg_timestamp := demo_unix; sg_signature := compute_signature "whsec" demo_unix "one" |}.
Proof.
  apply (signed_delivery_verifies (E := hooked)).
  - intros k m. split; [|apply hex_text_ok]. simpl. unfold hex_text. by destruct k.
  - discriminate.
  - by left.
  - by vm_compute.
  - by vm_compute.
Defined.

Lemma acknowledged_is_durable_witness :
  holds_delivery (E := hooked)
    (committed (receive_delivery (E := hooked) (demo_header "one") "one" demo).2) 1 "one".
Proof.
  assert (H : exists r s,
    (receive_delivery (E := hooked) (demo_header "one") "one" demo).1 = Ok (r, s)
    /\ rd_event_id r = Some 1%Z) by (eexists _, _; split; vm_compute; reflexivity).
  destruct H as (r & s & Hr & Hid).
  exact (proj1 (proj2 (acknowledged_is_durable (E := hooked) (demo_header "one") "one" demo r s _
    (run_returns _ _ Hr))) 1%Z Hid).
Defined.

Lemma untyped_subscription_id_refused_witness :
  let E := env_with flash_down false true (fun _ => Some (activation (JInt 7))) in
  is_ok (handle_delivery "one" demo_unix demo).1 = false.
Proof.
  set (E0 := env_with flash_down false true (fun _ => Some (activation (JInt 7)))).
  exact (proj1 (untyped_subscription_id_refused (E := E0) "one" _ _ _ demo_unix demo _ _
    eq_refl eq_refl (surjective_pairing (handle_delivery (E := E0) "one" demo_unix demo)))).
Defined.

Definition activated : RecordedDelivery := {|
  rd_event_id := Some 1%Z; rd_event := "subscription.activated";
  rd_subscription_id := JStr "sub-1"; rd_external_ref := JStr "alice";
  rd_duplicate := false; rd_event_timestamp := None |}.

Lemma processed_only_when_settled_witness :
  let E := hooked in
  exists o w1, apply_with_db_retries (JStr "alice") (JStr "sub-1") (run_all deliver_once demo)
      = (Ok o, w1) /\ settled (reason o) = true.
Proof.
  refine (processed_only_when_settled (E := hooked) activated
    (run_all (E := hooked) deliver_once demo) _ _ 1%Z _
    (surjective_pairing (process_delivery (E := hooked) activated
       (run_all (E := hooked) deliver_once demo))) _ _).
  - vm_compute. reflexivity.
  - eexists. split; vm_compute; reflexivity.
  - intros (r & Hr & Hp). vm_compute in Hr. injection Hr as <-. vm_compute in Hp. discriminate.
Defined.

(** A connection lost at the first statement. *)
Definition cut_off : Env := {|
  settings := demo_settings false; clock := fun _ => demo_now; db_clock := fun _ => demo_now;
  http := fun _ => flash_down; db_fault := fun n => if (n =? 0)%nat then Some OperationalError else None;
  commit_outcome := fun _ => CommitDone; row_locked := fun _ _ => false;
  scan_rank := fun _ _ => 0%Z; redis_fault := fun _ => false; orm_expires_on_rollback := true;
  nsec_unreadable := fun _ _ => false; jsonb_text := fun _ => ""; exn_str := fun _ => "error";
  exn_repr := fun _ => "error()"; json_loads := fun _ => None; decode_replace := fun s => s;
  netloc_ok := fun _ => true; sha256_hex := fun s => s; hmac_sha256_hex := fun _ _ => "" |}.

Lemma statement_failure_not_retried_witness :
  let E := cut_off in
  exists w', apply_with_db_retries (JStr "alice") JNull demo = (Raise (HTTPException 500), w')
    /\ tick w' = 1%nat.
Proof.
  apply (statement_failure_not_retried (E := cut_off) "alice" JNull demo OperationalError);
    [discriminate|reflexivity|reflexivity].
Defined.
