(* ===== verification/SyncProps.v ===== *)
(** * The periodic jobs and the payload fallback

    The lapse sweep takes back exactly what has lapsed, on a database that
    works; the reconcile batch reads the rows longest unread first; what an
    outage does to it; and what a webhook's payload alone may change. *)

From Stdlib Require Import Ascii String.
From S2P Require Import Prelude Json Time Types Effects Scenario Repos FlashMock Flash.
From S2P Require Import Billing Entitlement Webhook BillingSync SchedulingAdmin.
From S2P Require Import SubscriptionView AdminBilling Coherence RowInvariants.
Local Open Scope string_scope.

(** A database that does what it is told. *)
Class Healthy (E : Env) : Prop := {
  no_fault n : db_fault n = None;
  commits n : commit_outcome n = CommitDone;
  readable n p : nsec_unreadable n p = false;
}.

(** Nothing pending and the transaction usable. *)
Definition ready (d : Db) (w : World) : Prop :=
  aborted w = false /\ committed w = d /\ working w = d.

(** The session half way through a transaction. *)
Definition pending (c k : Db) (w : World) : Prop :=
  aborted w = false /\ committed w = c /\ working w = k.

Section healthy.
Context {E : Env} `{!Healthy E}.

(** A statement of a healthy session. *)
Lemma healthy_exec {A} (stmt : Stmt A) w c k a k' :
  pending c k w -> stmt (tick w) k = Ok (a, k') ->
  exists w', exec stmt w = (Ok a, w') /\ pending c k' w'.
Proof.
  intros (Ha & Hc & Hw) Hs. eexists. split.
  - apply exec_run; [done|apply no_fault|by rewrite Hw].
  - by split_and!.
Qed.

Lemma healthy_exec_raw {A} (stmt : Stmt A) w c k a k' :
  pending c k w -> stmt (tick w) k = Ok (a, k') ->
  exists w', exec_raw stmt w = (Ok a, w') /\ pending c k' w'.
Proof.
  intros (Ha & Hc & Hw) Hs. eexists. split.
  - apply exec_raw_run; [done|apply no_fault|by rewrite Hw].
  - by split_and!.
Qed.

Lemma healthy_commit w c k : pending c k w -> exists w', commit w = (Ok tt, w') /\ ready k w'.
Proof.
  intros (Ha & Hc & Hw). unfold commit. rewrite Ha, commits, Hw. eexists. split; [done|].
  by split_and!.
Qed.

Lemma bind_run {A B} (m : M A) (f : A -> M B) w a w1 :
  m w = (Ok a, w1) -> (m ≫= f) w = f a w1.
Proof. unfold mbind, M_mbind. by intros ->. Qed.

Lemma healthy_assign p sid src w c k :
  pending c k w -> is_Some (nsec k !! p) -> scheduling_fk sid k = true ->
  exists w', set_scheduling_for_pubkey_on_db p sid src w = (Ok tt, w')
    /\ pending c (assign_db p sid src k) w'.
Proof.
  intros Hw Hp Hfk. unfold set_scheduling_for_pubkey_on_db,
    get_or_create_brainstorm_observer_nsec_by_pubkey_on_db.
  destruct (healthy_exec (query (fun _ d => bool_decide (is_Some (nsec d !! p)))) w c k _ k Hw eq_refl)
    as (w1 & H1 & Hw1).
  rewrite (bool_decide_eq_true_2 _ Hp) in H1.
  destruct (healthy_exec_raw (fun (_ : nat) d => if scheduling_fk sid d
      then Ok (tt, assign_db p sid src d) else Raise IntegrityError) w1 c k tt
      (assign_db p sid src k) Hw1) as (w2 & H2 & Hw2); [by rewrite Hfk|].
  exists w2. split; [|done].
  erewrite bind_run; [exact H2|]. erewrite bind_run; [|exact H1]. simpl.
  unfold get_world, mbind, M_mbind. by rewrite readable.
Qed.

(** *** One candidate of the sweep *)

Definition lapsed (now : Z) (row : SubRow) : bool :=
  bool_decide (is_Some (us_granted row)) && bool_decide (lapse_decision row now = REVOKE).

Definition swept (now : Z) (d : Db) (row : SubRow) : Db :=
  if lapsed now row && negb (is_admin_held (source_of d (us_pubkey row)))
  then revoked_db (us_pubkey row) d else d.

Lemma revoke_lapsed_row_run now row d w :
  ready d w -> is_Some (nsec d !! us_pubkey row) ->
  exists b w', revoke_lapsed_row now row w = (Ok b, w') /\ ready (swept now d row) w'.
Proof.
  intros Hw Hp. unfold revoke_lapsed_row, swept, lapsed.
  destruct (us_granted row) as [g|]; [|by exists false, w].
  rewrite (bool_decide_eq_true_2 (is_Some (Some g))) by eauto. simpl.
  case_bool_decide; simpl; [|by exists false, w].
  destruct (healthy_exec (query (fun _ d => source_of d (us_pubkey row))) w d d _ d Hw eq_refl)
    as (w1 & H1 & Hw1).
  unfold get_scheduling_source_on_db. rewrite (bind_run _ _ _ _ _ H1).
  destruct (is_admin_held _); simpl; [by exists false, w1|].
  destruct (healthy_assign (us_pubkey row) None SOURCE_DEFAULT w1 d d Hw1 Hp eq_refl)
    as (w2 & H2 & Hw2).
  rewrite (bind_run _ _ _ _ _ H2).
  destruct (healthy_exec (modify (fun d => (tt, alter_sub (us_pubkey row)
      (fun r => us_with_granted r None) d))) w2 _ _ _ _ Hw2 eq_refl) as (w3 & H3 & Hw3).
  unfold clear_granted_scheduling_on_db. rewrite (bind_run _ _ _ _ _ H3).
  destruct (healthy_commit w3 _ _ Hw3) as (w4 & H4 & Hw4).
  rewrite (bind_run _ _ _ _ _ H4). by exists true, w4.
Qed.

Lemma swept_nsec now d row p : is_Some (nsec d !! p) -> is_Some (nsec (swept now d row) !! p).
Proof.
  unfold swept. destruct (_ && _); [|done]. simpl. intros Hp.
  by apply lookup_alter_is_Some.
Qed.

Lemma sweep_rows_run now rows d w n :
  ready d w -> (forall r, r ∈ rows -> is_Some (nsec d !! us_pubkey r)) ->
  exists n' w', fold_each rows n (fun n row =>
      taken ← revoke_lapsed_row now row; mret (if taken : bool then S n else n, false)) w
    = (Ok n', w') /\ ready (foldl (swept now) d rows) w'.
Proof.
  revert d w n. induction rows as [|row rows IH]; intros d w n Hw Hp; simpl; [eauto|].
  destruct (revoke_lapsed_row_run now row d w Hw) as (b & w1 & H1 & Hw1); [apply Hp; set_solver|].
  destruct (IH (swept now d row) w1 (if b then S n else n) Hw1) as (n' & w' & H2 & Hw').
  { intros r Hr. apply swept_nsec, Hp. set_solver. }
  exists n', w'. split; [|done].
  rewrite (bind_run _ _ w (if b then S n else n, false) w1); [exact H2|].
  by rewrite (bind_run _ _ _ _ _ H1).
Qed.

End healthy.

(** *** The tables after the sweep *)

Section swept_tables.
Context {E : Env}.

(** One user's assignment and record. *)
Definition standing (d : Db) (p : string) : option NsecRow * option SubRow :=
  (nsec d !! p, user_subscription d !! p).

Definition revoked_standing (s : option NsecRow * option SubRow)
  : option NsecRow * option SubRow :=
  (assign_row None SOURCE_DEFAULT <$> s.1, (fun r => us_with_granted r None) <$> s.2).

Lemma standing_revoked p q d : standing (revoked_db p d) q
  = if decide (q = p) then revoked_standing (standing d q) else standing d q.
Proof.
  unfold standing, revoked_standing. simpl. case_decide as Hq.
  - subst. by rewrite !lookup_alter_eq.
  - by rewrite !lookup_alter_ne.
Qed.

Lemma revoked_standing_twice s : revoked_standing (revoked_standing s) = revoked_standing s.
Proof.
  destruct s as [[]  []]; done.
Qed.

(** Held by an administrator, as the sweep sees it. *)
Lemma admin_held_standing d p : is_admin_held (source_of d p)
  = match (standing d p).1 with
    | Some r => String.eqb (ns_scheduling_source r) SOURCE_ADMIN
    | None => false
    end.
Proof.
  unfold is_admin_held, source_of, standing. simpl. destruct (nsec d !! p) as [r|]; [|done].
  by destruct (String.eqb_spec (ns_scheduling_source r) "") as [->|].
Qed.

Lemma swept_untouched now rows d p :
  (forall r, r ∈ rows -> us_pubkey r = p ->
     lapsed now r = false \/ is_admin_held (source_of d p) = true) ->
  standing (foldl (swept now) d rows) p = standing d p.
Proof.
  revert d. induction rows as [|row rows IH]; intros d Hr; simpl; [done|].
  assert (Hone : standing (swept now d row) p = standing d p).
  { unfold swept. destruct (_ && _) eqn:Hc; [|done]. rewrite standing_revoked.
    case_decide as Hp; [|done]. apply andb_true_iff in Hc as [Hl Ha]. subst p.
    destruct (Hr row) as [H|H]; [set_solver|done|congruence|].
    by rewrite H in Ha. }
  rewrite IH, Hone; [done|]. intros r Hin Hp. rewrite admin_held_standing, Hone.
  rewrite <- admin_held_standing. apply Hr; set_solver.
Qed.

Lemma swept_taken now rows d row :
  row ∈ rows -> lapsed now row = true -> is_admin_held (source_of d (us_pubkey row)) = false ->
  standing (foldl (swept now) d rows) (us_pubkey row)
  = revoked_standing (standing d (us_pubkey row)).
Proof.
  intros Hin Hl.
  assert (Hrev : forall rows d, standing d (us_pubkey row) = revoked_standing (standing d (us_pubkey row)) ->
    standing (foldl (swept now) d rows) (us_pubkey row) = standing d (us_pubkey row)).
  { intros rs. clear Hin d. induction rs as [|x rs IH]; intros d Hd; simpl; [done|].
    assert (Hx : standing (swept now d x) (us_pubkey row) = standing d (us_pubkey row)).
    { unfold swept. destruct (_ && _); [|done]. rewrite standing_revoked. by case_decide. }
    rewrite IH; rewrite Hx; done. }
  revert d. induction rows as [|x rows IH]; intros d Ha; [by apply not_elem_of_nil in Hin|]. simpl.
  apply elem_of_cons in Hin as [<-|Hin].
  - assert (Hs : standing (swept now d row) (us_pubkey row)
      = revoked_standing (standing d (us_pubkey row))).
    { unfold swept. rewrite Hl, Ha. simpl. rewrite standing_revoked. by case_decide. }
    rewrite Hrev; rewrite Hs; [done|]. by rewrite revoked_standing_twice.
  - assert (Hx : standing (swept now d x) (us_pubkey row) = standing d (us_pubkey row)
      \/ standing (swept now d x) (us_pubkey row)
         = revoked_standing (standing d (us_pubkey row))).
    { unfold swept. destruct (_ && _); [|by left]. rewrite standing_revoked.
      case_decide; [by right|by left]. }
    destruct Hx as [Hx|Hx].
    + rewrite IH, Hx; [done|done|]. by rewrite admin_held_standing, Hx, <- admin_held_standing.
    + rewrite Hrev; rewrite Hx; [done|]. by rewrite revoked_standing_twice.
Qed.

End swept_tables.

(** C39: the sweep takes back exactly what has lapsed.  On a working database it
    finishes, and every subscriber with a recorded grant whose stored state says
    the paid time is over — and whom no administrator holds — is back on the
    default policy with the grant cleared; everyone else stands as before. *)
Theorem sweep_takes_back_lapsed {E : Env} `{!Healthy E} now w :
  at_rest coherent w -> aborted w = false ->
  exists n w', revoke_lapsed_entitlements (Some now) w = (Ok n, w')
    /\ forall p row user, user_subscription (committed w) !! p = Some row ->
         nsec (committed w) !! p = Some user ->
         standing (committed w') p =
         if lapsed now row && negb (String.eqb (ns_scheduling_source user) SOURCE_ADMIN)
         then (Some (assign_row None SOURCE_DEFAULT user), Some (us_with_granted row None))
         else (Some user, Some row).
Proof.
  intros [Hc Hrest] Ha. set (d := committed w) in *.
  assert (Hw : ready d w) by (by split_and!).
  unfold revoke_lapsed_entitlements. rewrite (bind_run _ _ w now w eq_refl).
  set (rows_of := fun (n : nat) d => filter (fun r => tri_holds (sql_is_not_null (us_granted r)))
    (scan n (user_subscription d))).
  destruct (healthy_exec (query rows_of) w d d _ d Hw eq_refl) as (w1 & H1 & Hw1).
  unfold select_entitlement_candidates_on_db. rewrite (bind_run _ _ _ _ _ H1).
  set (rows := rows_of (tick w) d).
  assert (Hin : forall r, r ∈ rows <-> is_Some (us_granted r)
            /\ user_subscription d !! us_pubkey r = Some r).
  { intros r. unfold rows, rows_of. rewrite list_elem_of_filter, scan_elem, tri_holds_is_not_null,
      Is_true_true, bool_decide_eq_true. split.
    - intros [Hg [k Hk]]. split; [done|]. by rewrite (cu_key _ _ _ (Hc k) r Hk).
    - intros [Hg Hr]. eauto. }
  destruct (sweep_rows_run now rows d w1 0 Hw1) as (n & w' & H2 & (_ & Hd & _)).
  { intros r [[g Hg] Hr]%Hin. destruct (cu_granted _ _ _ (Hc (us_pubkey r)) r g Hr Hg) as (u & -> & _).
    eauto. }
  exists n, w'. split; [done|]. intros p row user Hrow Huser. rewrite Hd.
  assert (Hkey : us_pubkey row = p) by (by apply (cu_key _ _ _ (Hc p) row)).
  assert (Hadm : is_admin_held (source_of d p) = String.eqb (ns_scheduling_source user) SOURCE_ADMIN).
  { rewrite admin_held_standing. unfold standing. simpl. by rewrite Huser. }
  assert (Hst : standing d p = (Some user, Some row)) by (unfold standing; by rewrite Huser, Hrow).
  destruct (lapsed now row && _) eqn:Hl.
  - apply andb_true_iff in Hl as [Hl Hna]. subst p. rewrite swept_taken; [by rewrite Hst| |done|].
    + apply Hin. split; [|done]. unfold lapsed in Hl. apply andb_true_iff in Hl as [Hl _].
      by apply bool_decide_eq_true in Hl.
    + rewrite Hadm. by apply negb_true_iff.
  - rewrite swept_untouched, Hst; [done|]. intros r [_ Hr]%Hin Hp. rewrite Hp, Hrow in Hr.
    injection Hr as <-. rewrite Hadm. destruct (lapsed now row); [|by left].
    right. by apply negb_false_iff.
Qed.

(** ** Which rows the reconcile batch reads *)

Section candidates.
Context {E : Env}.

Lemma synced_order_total a b : synced_order a b = true \/ synced_order b a = true.
Proof.
  unfold synced_order, nulls_first. destruct (us_last_synced_at a), (us_last_synced_at b); auto.
  rewrite !Z.leb_le. lia.
Qed.

Lemma synced_order_trans a b c :
  synced_order a b = true -> synced_order b c = true -> synced_order a c = true.
Proof.
  unfold synced_order, nulls_first.
  destruct (us_last_synced_at a), (us_last_synced_at b), (us_last_synced_at c); try done.
  rewrite !Z.leb_le. lia.
Qed.

(** In a sorted list what comes first is not greater. *)
Lemma sorted_take_drop {A} (leb : A -> A -> bool) l n x y :
  StronglySorted (leb_rel leb) l -> x ∈ take n l -> y ∈ drop n l -> leb x y = true.
Proof.
  intros Hs. revert n. induction Hs as [|a l Hs IH Hall]; intros n.
  { rewrite take_nil. by intros ?%not_elem_of_nil. }
  destruct n as [|n]; simpl; [by intros ?%not_elem_of_nil|].
  intros [->|Hx]%elem_of_cons Hy; [|by eapply IH].
  rewrite Forall_forall in Hall. apply Hall, list_elem_of_In.
  rewrite <- (take_drop n l). apply elem_of_app. by right.
Qed.

(** The batch reads those longest unread.  It returns at most [limit] rows,
    each due; and when a due row is left out, the batch is full and every row in
    it was read no later — a row never read at all comes first. *)
Theorem reconcile_longest_unread_first now stale limit rule w rows w' :
  select_reconcile_candidates_on_db now stale limit rule w = (Ok rows, w') ->
  (length rows <= limit)%nat
  /\ (forall r, r ∈ rows -> tri_holds (reconcile_where now stale rule r) = true
        /\ exists p, user_subscription (working w) !! p = Some r)
  /\ (forall p r, user_subscription (working w) !! p = Some r ->
        tri_holds (reconcile_where now stale rule r) = true -> r ∉ rows ->
        length rows = limit
        /\ forall x, x ∈ rows -> nulls_first (us_last_synced_at x) (us_last_synced_at r) = true).
Proof.
  intros [n ->]%exec_query_Ok. set (due := filter _ _).
  assert (Hin : forall r, r ∈ stable_sort synced_order due
    <-> tri_holds (reconcile_where now stale rule r) = true
        /\ exists p, user_subscription (working w) !! p = Some r).
  { intros r. subst due. by rewrite stable_sort_elem, list_elem_of_filter, scan_elem, Is_true_true. }
  split_and!.
  - rewrite length_take. lia.
  - intros r Hr. apply Hin. apply elem_of_take in Hr as (i & Hr & _).
    by apply list_elem_of_lookup_2 in Hr.
  - intros p r Hp Hd Hr.
    assert (Hs : r ∈ stable_sort synced_order due) by (apply Hin; eauto).
    rewrite <- (take_drop limit (stable_sort synced_order due)) in Hs.
    apply elem_of_app in Hs as [Hs|Hs]; [done|]. split.
    + rewrite length_take. apply list_elem_of_lookup in Hs as [i Hi].
      apply lookup_lt_Some in Hi. rewrite length_drop in Hi. lia.
    + intros x Hx. refine (sorted_take_drop synced_order _ limit x r _ Hx Hs).
      apply stable_sort_sorted; [apply synced_order_total|apply synced_order_trans].
Qed.

End candidates.

(** ** An outage during the batch *)

Definition same_epoch (w w' : World) : Prop := epoch w' = epoch w.
#[local] Instance same_epoch_preorder : PreOrder same_epoch.
Proof. split; [done|]. unfold same_epoch. intros ???. congruence. Qed.

Section outage.
Context {E : Env}.

Lemma epoch_exec_raw {A} (stmt : Stmt A) : stable same_epoch (exec_raw stmt).
Proof. intros w. apply (wp_exec_raw _ (fun _ => same_epoch w)); by intros. Qed.
Lemma epoch_exec {A} (stmt : Stmt A) : stable same_epoch (exec stmt).
Proof. intros w. apply (wp_exec _ (fun _ => same_epoch w)); by intros. Qed.
Lemma epoch_commit : stable same_epoch commit.
Proof. intros w. apply (wp_commit (fun _ => same_epoch w)); by intros. Qed.
Lemma epoch_report k : stable same_epoch (report_once k).
Proof. intros w. unfold report_once. by destruct (str_in _ _). Qed.
Lemma epoch_now : stable same_epoch utc_now.
Proof. done. Qed.
Lemma epoch_db_now : stable same_epoch db_now.
Proof. done. Qed.
Lemma epoch_unbound {A} : stable same_epoch (exec_unbound (A := A)).
Proof. done. Qed.
Lemma epoch_request rq : stable same_epoch (request rq).
Proof. done. Qed.
#[local] Hint Resolve epoch_exec_raw epoch_exec epoch_commit epoch_report epoch_now
  epoch_db_now epoch_unbound epoch_request : stable.

Lemma epoch_retries left rq rs b : stable same_epoch (with_retries_from left rq rs b).
Proof. induction left as [|left IH]; simpl; solve_stable. Qed.
#[local] Hint Resolve epoch_retries : stable.

Lemma epoch_fetch sid ref : stable same_epoch (fetch_subscription sid ref).
Proof.
  unfold fetch_subscription, require_a_handle, FlashMock.lookup, read_for, read_body,
    get_with_retries, with_retries, subscription_from, report_policy_differences. solve_stable.
Qed.
#[local] Hint Resolve epoch_fetch : stable.

(** A reconcile rolls nothing back. *)
Lemma epoch_apply ref sid y a : stable same_epoch (apply_entitlement ref sid y a).
Proof.
  unfold apply_entitlement, apply_entitlement_to, consult, locate, current_of, grant_and_record,
    write_assignment, warn_if_policy_is_inert, upsert_user_subscription_on_db,
    set_scheduling_for_pubkey_on_db, get_or_create_brainstorm_observer_nsec_by_pubkey_on_db,
    brainstorm_nsec_exists_by_pubkey_on_db, lock_user_for_update_on_db,
    get_user_subscription_on_db, get_billing_plan_on_db, scalar_one_or_none,
    is_billing_blocked_on_db, get_scheduling_source_on_db, get_scheduling_on_db.
  solve_stable.
Qed.

(** An outage ends the batch instead of being recorded.  When a rollback
    expires the session's objects, a row whose read Flash could not answer makes
    the batch raise at the next look at that row: its failure is not stamped,
    nothing durable changes and no later row is visited. *)
Theorem outage_aborts_batch acc h rest w why w1 :
  orm_expires_on_rollback = true -> epoch w = h.1 -> us_pubkey h.2 <> "" ->
  working w = committed w ->
  apply_entitlement (JStr (us_pubkey h.2)) JNull false false w = (Raise (FlashUnavailable why), w1) ->
  fold_each (h :: rest) acc reconcile_row w
    = (Raise (OtherException "MissingGreenlet"), rolled_back w1)
  /\ committed (rolled_back w1) = committed w.
Proof.
  intros Horm Hep Hp Hrest Happly.
  assert (He1 : epoch w1 = h.1)
    by (rewrite <- Hep; exact (stable_run _ _ _ _ _ (epoch_apply _ _ _ _) Happly)).
  split.
  - assert (Hattr : attr h us_pubkey w = (Ok (us_pubkey h.2), w)).
    { unfold attr. by rewrite Hep, Nat.eqb_refl, andb_false_r. }
    assert (Hgone : attr h us_pubkey (rolled_back w1)
      = (Raise (OtherException "MissingGreenlet"), rolled_back w1)).
    { unfold attr. rewrite Horm. cbn [epoch rolled_back]. rewrite He1.
      by rewrite (proj2 (Nat.eqb_neq (S h.1) h.1) (Nat.neq_succ_diag_l _)). }
    assert (Hrow : reconcile_row acc h w
      = (Raise (OtherException "MissingGreenlet"), rolled_back w1)).
    { unfold reconcile_row, try_. rewrite (bind_run _ _ _ _ _ Hattr).
      unfold mbind at 1, M_mbind at 1. rewrite Happly.
      rewrite (bind_run rollback _ w1 tt (rolled_back w1) eq_refl).
      unfold mbind at 1, M_mbind at 1. by rewrite Hgone. }
    simpl. unfold mbind, M_mbind. by rewrite Hrow.
  - apply apply_entitlement_reconciled in Happly; [|done]. simpl.
    inversion Happly as [|e w2 Hc _|s plan now sub t c w2 r2 w3 Hok Ht rs d' Hc Hres]; subst; [done|].
    by destruct Hres as [[[=] _]|[k [=]]].
Qed.

End outage.

(** ** What a payload alone may change *)

Section fallback.
Context {E : Env}.

(** [c] differs from [d] at most at [p], where the assignment is untouched or —
    when [ended] — taken back from a user no administrator holds, and the
    recorded grant is untouched or cleared. *)
Definition only_taken (p : string) (ended : bool) (d c : Db) : Prop :=
  (forall q, q <> p -> standing c q = standing d q)
  /\ (nsec c !! p = nsec d !! p
      \/ ended = true /\ exists u, nsec d !! p = Some u /\ ns_scheduling_source u <> SOURCE_ADMIN
           /\ nsec c !! p = Some (assign_row None SOURCE_DEFAULT u))
  /\ (forall row', user_subscription c !! p = Some row' ->
        exists row, user_subscription d !! p = Some row
          /\ (us_granted row' = us_granted row \/ us_granted row' = None)).

Lemma only_taken_refl p b d : only_taken p b d d.
Proof. split_and!; [done|by left|eauto]. Qed.

(** The tables after the status of a record was rewritten. *)
Lemma only_taken_status p b d k st (cancel : option Z) :
  only_taken p b d k ->
  only_taken p b d (alter_sub p (fun r =>
    us_with_status r st (match cancel with Some _ => cancel | None => us_cancel r end)) k).
Proof.
  intros (Ho & Hn & Hs). split_and!.
  - intros q Hq. rewrite <- Ho by done. unfold standing. simpl. by rewrite lookup_alter_ne.
  - done.
  - intros row'. simpl. rewrite lookup_alter_eq. intros (r & Hr & ->)%fmap_Some_1. simpl.
    by apply Hs.
Qed.

Lemma only_taken_revoked p d u :
  nsec d !! p = Some u -> ns_scheduling_source u <> SOURCE_ADMIN ->
  only_taken p true d (revoked_db p d).
Proof.
  intros Hu Ha. split_and!.
  - intros q Hq. rewrite standing_revoked. by case_decide.
  - right. split; [done|]. exists u. split_and!; try done. simpl. by rewrite lookup_alter_eq, Hu.
  - intros row'. simpl. rewrite lookup_alter_eq. intros (r & Hr & ->)%fmap_Some_1. eauto.
Qed.

Lemma wp_fallback_revoke p row w d (Q : res exn unit -> World -> Prop) :
  is_Some (nsec d !! p) -> committed w = d -> working w = d ->
  (forall e w', committed w' = d -> Q (Raise e) w') ->
  (forall w', committed w' = d -> only_taken p true d (working w') -> Q (Ok tt) w') ->
  wp (fallback_revoke p row) Q w.
Proof.
  intros [u Hu] Hc Hw Hf Hok. unfold fallback_revoke. apply wp_bind, wp_query.
  { intros w' [C _]. apply Hf. congruence. }
  intros n w1 [C1 D1]. rewrite Hw in *. simpl.
  destruct (is_admin_held (source_of d p)) eqn:Ha; simpl.
  { apply wp_ret, Hok; [congruence|]. rewrite D1. apply only_taken_refl. }
  apply wp_bind, wp_set_scheduling; [rewrite D1; eauto|intros e w' _ [C _]; apply Hf; congruence|].
  intros w2 C2 _ D2. apply wp_bind, wp_exec; [apply Hf; simpl; congruence|].
  unfold modify. intros [] k _ [= <-]. apply wp_ret, Hok; simpl; [congruence|].
  rewrite D2, D1. apply (only_taken_revoked p d u Hu). intros Hs.
  rewrite admin_held_standing in Ha. unfold standing in Ha. simpl in Ha. by rewrite Hu, Hs in Ha.
Qed.

Lemma fallback_for_taken st p w d :
  committed w = d -> working w = d ->
  wp (fallback_for st p)
    (fun _ w' => only_taken p (String.eqb st "expired") d (committed w')) w.
Proof.
  intros Hc Hw. set (b := String.eqb st "expired").
  assert (Hkeep : forall w', committed w' = d -> only_taken p b d (committed w'))
    by (intros w' ->; apply only_taken_refl).
  unfold fallback_for. apply wp_bind, wp_reads; [solve_stable|intros e w' [C _]; apply Hkeep; congruence|].
  intros held w1 [C1 D1] Hl. apply exec_checked_query_Ok in Hl as (_ & n & ->). rewrite Hw in *.
  case_bool_decide as Hu; simpl; [|apply wp_ret, Hkeep; congruence].
  destruct (row_locked n p); simpl; [apply wp_ret, Hkeep; congruence|].
  apply wp_bind, wp_query; [intros w' [C _]; apply Hkeep; congruence|]. intros _ w2 [C2 D2].
  rewrite D1. destruct (user_subscription d !! p) as [row|]; [|apply wp_ret, Hkeep; congruence].
  apply wp_bind. fold b.
  assert (Hrest : forall w3, committed w3 = d -> only_taken p b d (working w3) ->
    wp (_ ← update_flash_status_on_db p st
              (if String.eqb st "canceled" && bool_decide (us_cancel row = None)
               then us_period_end row else None); _ ← commit; mret true)
      (fun _ w' => only_taken p b d (committed w')) w3).
  { intros w3 C3 D3. apply wp_bind, wp_exec; [by apply Hkeep|]. unfold modify. intros [] k _ [= <-].
    assert (Hk := only_taken_status p b d (working w3) st
      (if String.eqb st "canceled" && bool_decide (us_cancel row = None)
       then us_period_end row else None) D3).
    apply wp_bind, wp_commit; simpl; [intros k; by apply Hkeep|done|]. intros _. by apply wp_ret. }
  destruct b eqn:Hb; [|apply wp_ret, Hrest; [congruence|rewrite D2, D1; apply only_taken_refl]].
  apply (wp_fallback_revoke p row w2 d); try congruence.
  - intros e w' C. by apply Hkeep.
  - intros w' C D. by apply Hrest.
Qed.

(** A payload alone never grants.  When Flash cannot be read, what the
    event's payload is allowed to do concerns the user it names only, moves an
    assignment only back to the default, only on an expiry and never away from
    an administrator's, and never records a grant that was not there. *)
Theorem fallback_never_grants event ref w r w' :
  working w = committed w -> apply_payload_fallback event ref w = (r, w') ->
  committed w' = committed w
  \/ exists p, ref = JStr p
       /\ only_taken p (String.eqb event "subscription.expired") (committed w) (committed w').
Proof.
  intros Hrest Hrun. unfold apply_payload_fallback in Hrun.
  destruct (fallback_status event) as [st|] eqn:Hst; [|injection Hrun as <- <-; by left].
  destruct (negb (py_truthy ref)); [injection Hrun as <- <-; by left|].
  destruct ref; try (injection Hrun as <- <-; by left). right. exists s. split; [done|].
  pose proof (wp_run _ _ _ _ _ (fallback_for_taken st s w (committed w) eq_refl Hrest) Hrun) as H.
  assert (Heq : String.eqb st "expired" = String.eqb event "subscription.expired").
  { unfold fallback_status in Hst.
    destruct (String.eqb event "subscription.expired"); [by injection Hst as <-|].
    destruct (String.eqb event "subscription.canceled"); [by injection Hst as <-|].
    destruct (String.eqb event "subscription.past_due"); [by injection Hst as <-|done]. }
  by rewrite <- Heq.
Qed.

End fallback.

(** ** Witnesses *)

Import Scenario.

#[local] Instance unreachable_healthy b : Healthy (unreachable b).
Proof. split; done. Qed.

(** [bob]'s cancelled period is over. *)
Lemma sweep_takes_back_lapsed_witness :
  let E := unreachable true in
  exists n w', revoke_lapsed_entitlements (Some demo_now) demo = (Ok n, w')
    /\ standing (committed w') "bob" = (Some (user None "default"),
         Some (us_with_granted (subscription_of "bob" "sub-1" "canceled" (Some 7%Z) (Some 0%Z)) None)).
Proof.
  destruct (sweep_takes_back_lapsed (E := unreachable true) demo_now demo demo_coherent eq_refl)
    as (n & w' & Hrun & Hst).
  exists n, w'. split; [exact Hrun|].
  exact (Hst "bob" _ (user (Some 7%Z) "billing") eq_refl eq_refl).
Defined.

Lemma reconcile_longest_unread_first_witness :
  let E := unreachable true in
  exists rows w', select_reconcile_candidates_on_db demo_now 3600000000 5
      {| ab_after := 0; ab_error := "" |} demo = (Ok rows, w')
    /\ (length rows <= 5)%nat /\ us_pubkey <$> rows = ["bob"].
Proof.
  eexists _, _. split; [vm_compute; reflexivity|]. split; [|vm_compute; reflexivity].
  refine (proj1 (reconcile_longest_unread_first (E := unreachable true) demo_now 3600000000 5
    {| ab_after := 0; ab_error := "" |} demo _ _ _)).
  vm_compute. reflexivity.
Defined.

Definition bob_loaded : nat * SubRow :=
  (0%nat, subscription_of "bob" "sub-1" "canceled" (Some 7%Z) (Some 0%Z)).

Lemma outage_aborts_batch_witness :
  let E := unreachable true in
  exists w1, fold_each [bob_loaded] {| rc_reconciled := 0; rc_failed := 0 |} reconcile_row demo
      = (Raise (OtherException "MissingGreenlet"), rolled_back w1)
    /\ committed (rolled_back w1) = demo_db.
Proof.
  eexists. refine (outage_aborts_batch (E := unreachable true) {| rc_reconciled := 0; rc_failed := 0 |}
    bob_loaded [] demo "Could not reach Flash: timed out" _ eq_refl eq_refl _ eq_refl _).
  - discriminate.
  - vm_compute. reflexivity.
Defined.

(** The same batch, were loaded objects to survive a rollback: the failure is
    recorded and the batch goes on. *)
Example outage_recorded_without_expiry :
  let r := reconcile_row (E := unreachable false) {| rc_reconciled := 0; rc_failed := 0 |}
             bob_loaded demo in
  is_ok r.1 = true
  /\ us_last_sync_error <$> user_subscription (committed r.2) !! "bob"
     = Some (Some "Could not reach Flash: timed out").
Proof. vm_compute. done. Qed.

Lemma fallback_never_grants_witness :
  let E := unreachable true in
  let w' := (apply_payload_fallback "subscription.expired" (JStr "bob") demo).2 in
  (committed w' = demo_db \/ exists p, JStr "bob" = JStr p /\ only_taken p true demo_db (committed w'))
  /\ nsec (committed w') !! "bob" = Some (user None "default").
Proof.
  split; [|vm_compute; reflexivity].
  exact (fallback_never_grants (E := unreachable true) "subscription.expired" (JStr "bob") demo _ _
    eq_refl (surjective_pairing _)).
Defined.
