(* ===== verification/OperatorProps.v ===== *)
(** * What an operator's actions do

    Blocking a user, mapping and remapping plans, settling signups that named
    nobody, the start-up checks, and the endpoints' translation of Flash's
    failures. *)

From Stdlib Require Import Ascii String.
From S2P Require Import Prelude Json Time Types Effects Scenario Repos FlashMock Flash.
From S2P Require Import Billing Entitlement Webhook BillingSync SchedulingAdmin.
From S2P Require Import SubscriptionView AdminBilling Coherence RowInvariants.
Local Open Scope string_scope.

Section steps.
Context {E : Env}.

(** What a statement that returned did. *)
Lemma exec_modify_Ok {A} b (f : Db -> A * Db) w a w' :
  exec (checked b (modify f)) w = (Ok a, w') ->
  committed w' = committed w /\ f (working w) = (a, working w').
Proof.
  intros H. refine (wp_run _ (fun r w' => forall a, r = Ok a -> committed w' = committed w
    /\ f (working w) = (a, working w')) _ _ _ _ H a eq_refl).
  apply wp_exec; [done|]. unfold checked, modify. destruct b; [|done].
  intros x d _ [= Hf] ? [= <-]. done.
Qed.

Lemma exec_raw_Ok {A} (stmt : Stmt A) w a w' :
  exec_raw stmt w = (Ok a, w') ->
  committed w' = committed w /\ stmt (tick w) (working w) = Ok (a, working w').
Proof.
  unfold exec_raw. destruct (aborted w); [done|]. destruct (db_fault _); [done|].
  destruct (stmt _ _) as [[x d]|]; [|done]. by intros [= <- <-].
Qed.

Lemma commit_inv w w' :
  commit w = (Ok tt, w') -> committed w' = working w /\ working w' = working w.
Proof.
  unfold commit. destruct (aborted w); [done|]. destruct (commit_outcome _); [|done|done].
  by intros [= <-].
Qed.

Lemma assign_Ok p sid src w w' :
  is_Some (nsec (working w) !! p) ->
  set_scheduling_for_pubkey_on_db p sid src w = (Ok tt, w') ->
  committed w' = committed w /\ working w' = assign_db p sid src (working w).
Proof.
  intros Hp H. refine (wp_run _ (fun r w' => r = Ok tt -> committed w' = committed w
    /\ working w' = assign_db p sid src (working w)) _ _ _ _ H eq_refl).
  by apply wp_set_scheduling.
Qed.

(** *** Blocking *)

Definition billing_holds (p : string) (d : Db) : bool :=
  match nsec d !! p with
  | Some u => String.eqb (ns_scheduling_source u) SOURCE_BILLING
  | None => false
  end.

Lemma source_billing p d : String.eqb (source_of d p) SOURCE_BILLING = billing_holds p d.
Proof.
  unfold source_of, billing_holds. destruct (nsec d !! p) as [u|]; [|done].
  by destruct (String.eqb_spec (ns_scheduling_source u) "") as [->|].
Qed.

Lemma billing_holds_blocked p b d : billing_holds p (blocked_db p b d) = billing_holds p d.
Proof. unfold billing_holds. simpl. rewrite lookup_alter_eq. by destruct (nsec d !! p). Qed.

(** The tables after a user is blocked or unblocked. *)
Definition block_db (p : string) (b : bool) (d : Db) : Db :=
  if b && billing_holds p d then revoked_db p (blocked_db p b d) else blocked_db p b d.

(** A block takes billing's policy back at once and nothing else.  When it
    returns, the flag is set; a policy billing had granted is taken back and its
    record cleared, and that is reported; an administrator's assignment, and
    everybody else's, stands.  Unblocking grants nothing by itself. *)
Theorem block_takes_back p b w o w' :
  working w = committed w -> set_billing_block p b w = (Ok o, w') ->
  (bk_found o = false /\ nsec (committed w) !! p = None /\ committed w' = committed w)
  \/ (o = {| bk_found := true; bk_blocked := b; bk_revoked := b && billing_holds p (committed w) |}
      /\ committed w' = block_db p b (committed w)).
Proof.
  intros Hrest. unfold set_billing_block. intros (known & w1 & Hk & H)%bind_Ok_inv.
  assert (D1 : same_db w w1) by (eapply stable_run, Hk; solve_stable). destruct D1 as [C1 W1].
  apply exec_checked_query_Ok in Hk as (_ & n & ->).
  case_bool_decide as Hu; simpl in H; last first.
  { injection H as <- <-. left. split_and!; [done| |congruence].
    rewrite <- Hrest. by apply eq_None_not_Some. }
  apply bind_Ok_inv in H as (held & w2 & Hl & H).
  assert (D2 : same_db w1 w2) by (eapply stable_run, Hl; solve_stable). destruct D2 as [C2 W2].
  apply bind_Ok_inv in H as (found & w3 & Hb & H).
  apply exec_raw_Ok in Hb as [C3 Hb]. unfold modify in Hb. injection Hb as _ W3.
  apply bind_Ok_inv in H as (revoked & w4 & Hr & H). apply bind_Ok_inv in H as ([] & w5 & Hc & H).
  injection H as <- <-. apply commit_inv in Hc as [-> _]. right.
  assert (W3' : working w3 = blocked_db p b (committed w)) by congruence.
  clear W3 Hl. unfold block_db. destruct b; simpl; last first.
  { injection Hr as <- <-. by rewrite W3'. }
  apply bind_Ok_inv in Hr as (src & w6 & Hs & Hr).
  assert (D6 : same_db w3 w6) by (eapply stable_run, Hs; solve_stable). destruct D6 as [C6 W6].
  apply exec_query_Ok in Hs as [_ ->]. rewrite source_billing, W3', billing_holds_blocked in Hr.
  destruct (billing_holds p (committed w)) eqn:Hbill; last first.
  { injection Hr as <- <-. by rewrite W6, W3'. }
  apply bind_Ok_inv in Hr as ([] & w7 & Ha & Hr).
  apply assign_Ok in Ha as [C7 W7]; last first.
  { rewrite W6, W3'. simpl. apply lookup_alter_is_Some. by rewrite <- Hrest. }
  apply bind_Ok_inv in Hr as ([] & w8 & Hg & Hr). injection Hr as <- <-.
  apply (exec_modify_Ok true) in Hg as [C8 Hg]. injection Hg as W8.
  split; [done|]. by rewrite <- W8, W7, W6, W3'.
Qed.

End steps.

(** ** Plan mappings *)

Definition same_plan_seq (w w' : World) : Prop := plan_seq w' = plan_seq w.
#[local] Instance same_plan_seq_preorder : PreOrder same_plan_seq.
Proof. split; [done|]. unfold same_plan_seq. intros ???. congruence. Qed.

Section plans.
Context {E : Env}.

Lemma reads_require_scheduling i : reads (require_scheduling i).
Proof. unfold require_scheduling. solve_stable. Qed.
Lemma reads_require_unused s p : reads (require_unused_flash_ids s p).
Proof. unfold require_unused_flash_ids. solve_stable. Qed.
#[local] Hint Resolve reads_require_scheduling reads_require_unused : stable.

(** Neither check draws from the plan sequence. *)
Lemma seq_exec {A} (stmt : Stmt A) : stable same_plan_seq (exec stmt).
Proof. intros w. apply (wp_exec _ (fun _ => same_plan_seq w)); by intros. Qed.
#[local] Hint Resolve seq_exec : stable.
Lemma seq_require_scheduling i : stable same_plan_seq (require_scheduling i).
Proof. unfold require_scheduling, scheduling_exists_on_db. solve_stable. Qed.
Lemma seq_require_unused s p : stable same_plan_seq (require_unused_flash_ids s p).
Proof.
  unfold require_unused_flash_ids, get_billing_plan_on_db, scalar_one_or_none. solve_stable.
Qed.

Lemma require_unused_Ok s p w w' : require_unused_flash_ids s p w = (Ok tt, w') ->
  forall i r, billing_plan (working w) !! i = Some r -> plan_named s p r = false.
Proof.
  unfold require_unused_flash_ids, get_billing_plan_on_db.
  intros (taken & w1 & Hg & H)%bind_Ok_inv. apply bind_Ok_inv in Hg as (rows & w2 & Hq & Hs).
  apply exec_checked_query_Ok in Hq as (_ & n & ->). intros i r Hi.
  destruct (plan_named s p r) eqn:Hn; [|done]. exfalso.
  assert (Hin : r ∈ filter (fun r => plan_named s p r) (scan n (billing_plan (working w)))).
  { apply list_elem_of_filter. split; [by rewrite Hn|]. apply scan_elem. eauto. }
  destruct (filter _ _) as [|x [|y l]]; [set_solver| |done]. by injection Hs as <- <-.
Qed.

(** The events waiting for a mapping, back in the replay. *)
Definition reopened (s p : string) (m : gmap Z EventRow) : gmap Z EventRow :=
  (fun r => if awaiting_plan_where s p (reason_value UNKNOWN_PLAN) r
            then replayable_again r else r) <$> m.

(** Mapping a plan reopens what was waiting for it.  When the creation
    returns, the pair had no mapping before and has exactly the one returned;
    the events that failed for want of exactly that pair have their error and
    their attempt count cleared, so the replay takes them up again; no other
    event, user or subscription moves. *)
Theorem create_plan_reopens s p sid active w plan w' :
  working w = committed w -> create_billing_plan s p sid active w = (Ok plan, w') ->
  plan = {| bp_id := plan_seq w; bp_service_id := s; bp_plan_id := p; bp_scheduling_id := sid;
            bp_is_active := active |}
  /\ (forall i r, billing_plan (committed w) !! i = Some r -> plan_named s p r = false)
  /\ committed w' = with_events
       (with_plans (committed w) (<[bp_id plan := plan]> (billing_plan (committed w))))
       (reopened s p (flash_webhook_event (committed w))).
Proof.
  intros Hrest. unfold create_billing_plan. intros ([] & w1 & Hs & H)%bind_Ok_inv.
  assert (Hq1 : plan_seq w1 = plan_seq w) by exact (stable_run _ _ _ _ _ (seq_require_scheduling _) Hs).
  assert (D1 : same_db w w1) by (eapply stable_run, Hs; solve_stable). destruct D1 as [C1 W1].
  apply bind_Ok_inv in H as ([] & w2 & Hu & H).
  assert (D2 : same_db w1 w2) by (eapply stable_run, Hu; solve_stable). destruct D2 as [C2 W2].
  assert (Hq2 : plan_seq w2 = plan_seq w1) by exact (stable_run _ _ _ _ _ (seq_require_unused _ _) Hu).
  pose proof (require_unused_Ok _ _ _ _ Hu) as Hfree.
  apply bind_Ok_inv in H as (x & w3 & Hi & H). apply bind_Ok_inv in H as (k & w4 & Hr & H).
  apply bind_Ok_inv in H as ([] & w5 & Hc & H). unfold refresh_plan in H.
  apply exec_raw_Ok in H as [C6 Hx]. unfold query in Hx. injection Hx as Hx _.
  unfold insert_billing_plan_on_db in Hi. apply bind_Ok_inv in Hi as (w0 & w0' & Hg & Hi).
  injection Hg as <- <-. apply bind_Ok_inv in Hi as ([] & w0 & Hseq & Hi). injection Hseq as <-.
  apply exec_raw_Ok in Hi as [C3 Hi]. simpl in C3, Hi. unfold checked, put_plan in Hi.
  destruct (_ && _); [|done]. destruct (_ !! _); [done|]. destruct (_ && _); [|done].
  injection Hi as <- W3. simpl in Hr, Hx. apply (exec_modify_Ok true) in Hr as [C4 Hr].
  injection Hr as _ W4. apply commit_inv in Hc as [C5 W5].
  assert (Hd : working w4 = with_events (with_plans (committed w) (<[plan_seq w :=
      {| bp_id := plan_seq w; bp_service_id := s; bp_plan_id := p; bp_scheduling_id := sid;
         bp_is_active := active |}]> (billing_plan (committed w))))
      (reopened s p (flash_webhook_event (committed w)))).
  { rewrite <- W4, <- W3, W2, W1, Hrest, Hq2, Hq1. done. }
  rewrite W5, Hd, Hq2, Hq1 in Hx. simpl in Hx. rewrite lookup_insert_eq in Hx. simpl in Hx.
  subst plan. split_and!; [done|by rewrite <- Hrest, <- W1|]. by rewrite C6, C5, Hd.
Qed.

(** What somebody bought is not rewritten under them.  An edit that would
    change the Flash plan a mapping stands for fails, and changes nothing, while
    any subscription is on that mapping. *)
Theorem ids_fixed_under_subscribers i v cur p row w r w' :
  billing_plan (working w) !! i = Some cur ->
  plan_named (default (bp_service_id cur) (pe_service_id v))
    (default (bp_plan_id cur) (pe_plan_id v)) cur = false ->
  user_subscription (working w) !! p = Some row -> us_plan row = i ->
  update_billing_plan i v w = (r, w') -> is_ok r = false /\ committed w' = committed w.
Proof.
  intros Hcur Hre Hrow Hpl Hrun.
  refine (wp_run _ (fun r w' => is_ok r = false /\ committed w' = committed w) _ _ _ _ Hrun).
  unfold update_billing_plan. apply wp_bind, wp_reads.
  { destruct (pe_scheduling_id v); solve_stable. }
  { by intros e w1 [C1 _]. }
  intros [] w1 [C1 W1] _. apply wp_bind, wp_query; [intros w2 [C2 _]; split; [done|congruence]|].
  intros _ w2 [C2 W2]. rewrite W1, Hcur, Hre. simpl. apply wp_bind, wp_bind, wp_query.
  { intros w3 [C3 _]. split; [done|congruence]. }
  intros n w3 [C3 W3]. rewrite W2, W1.
  assert (Hlen : length (filter (fun r => us_plan r = i) (scan n (user_subscription (working w)))) <> 0%nat).
  { intros Hl%nil_length_inv. assert (row ∈ filter (fun r => us_plan r = i)
      (scan n (user_subscription (working w)))) as Hin; [|rewrite Hl in Hin; set_solver].
    apply list_elem_of_filter. split; [done|]. apply scan_elem. eauto. }
  rewrite (proj2 (Nat.eqb_neq _ _) Hlen). simpl. apply wp_raise. split; [done|congruence].
Qed.

End plans.

(** ** Signups that named nobody *)

Section unresolved.
Context {E : Env}.

(** Attribution never moves a subscription.  While anyone else holds the
    subscription, attributing it fails and changes nothing, whatever Flash or
    the database do. *)
Theorem attribution_never_steals sid pubkey acting holder row w r w' :
  user_subscription (working w) !! holder = Some row -> us_flash_id row = sid ->
  (forall q x, user_subscription (working w) !! q = Some x -> us_flash_id x = sid ->
     us_pubkey x <> pubkey) ->
  attribute_unresolved_subscription sid pubkey acting w = (r, w') ->
  is_ok r = false /\ committed w' = committed w.
Proof.
  intros Hrow Hid Hnot Hrun.
  refine (wp_run _ (fun r w' => is_ok r = false /\ committed w' = committed w) _ _ _ _ Hrun).
  unfold attribute_unresolved_subscription.
  apply wp_bind, wp_reads; [solve_stable|by intros e w1 [C1 _]|].
  intros found w1 [C1 W1] Hq. apply exec_checked_query_Ok in Hq as (_ & n & ->).
  destruct (head _) as [x|] eqn:Hh.
  - apply head_Some_elem_of, list_elem_of_filter in Hh as [Hx Hin]. apply scan_elem in Hin as [q Hq].
    rewrite (proj2 (String.eqb_neq _ _) (Hnot q x Hq Hx)). by apply wp_bind, wp_raise.
  - exfalso. apply head_None in Hh.
    assert (Hin : row ∈ filter (fun r => us_flash_id r = sid) (scan n (user_subscription (working w)))).
    { apply list_elem_of_filter. split; [done|]. apply scan_elem. eauto. }
    rewrite Hh in Hin. set_solver.
Qed.

(** A dismissal settles exactly the unattributed events of one
    subscription.  When it returns, it settled at least one; each event of that
    subscription that was unprocessed and named nobody is marked processed with
    who dismissed it, and no other event and no other table changed. *)
Theorem dismissal_settles_unattributed sid acting w o w' :
  working w = committed w -> dismiss_unresolved_subscription sid acting w = (Ok o, w') ->
  ro_events_settled o
    = size (filter (fun kv => settle_where sid true kv.2) (flash_webhook_event (committed w)))
  /\ ro_events_settled o <> 0%nat
  /\ exists now, committed w' = with_events (committed w)
       ((fun r => if settle_where sid true r then settled_by now "dismissed" acting r else r)
          <$> flash_webhook_event (committed w)).
Proof.
  intros Hrest. unfold dismiss_unresolved_subscription. intros (now & w1 & Hn & H)%bind_Ok_inv.
  injection Hn as _ <-. apply bind_Ok_inv in H as (n & w2 & Hs & H).
  apply exec_modify_Ok in Hs as [C2 Hs]. injection Hs as Hs W2. simpl in C2, Hs, W2.
  destruct (Nat.eqb_spec n 0) as [->|Hne].
  { by apply bind_Ok_inv in H as ([] & w3 & _ & H). }
  apply bind_Ok_inv in H as ([] & w3 & Hc & H). injection H as <- <-.
  apply commit_inv in Hc as [-> _]. rewrite Hrest in *. simpl. split_and!; [done|done|].
  exists now. by rewrite <- W2.
Qed.

End unresolved.

(** ** Start-up and access *)

(** The server does not start on payments it cannot serve.  The check
    passes exactly when payments are off, or the mock is confined to a local
    deployment and the key, the secret and the base URL are all set. *)
Theorem config_check_iff enabled api_key secret base_url mock environment :
  validate_flash_config enabled api_key secret base_url mock environment = Ok tt <->
  enabled = false
  \/ (mock = true -> environment = "LOCAL")
     /\ api_key <> "" /\ secret <> "" /\ base_url <> "".
Proof.
  unfold validate_flash_config, DEPLOY_ENVIRONMENT_LOCAL. destruct enabled; [|naive_solver].
  simpl. destruct mock, (String.eqb_spec environment "LOCAL"), (String.eqb_spec api_key ""),
    (String.eqb_spec secret ""), (String.eqb_spec base_url ""); simpl; naive_solver.
Qed.

Section endpoints.
Context {E : Env}.

(** An operator's resync does not tell an outage from a fault.  What the
    other operator paths answer with 503, 502 or 409, the resync endpoint lets
    through as it was raised. *)
Theorem resync_leaks_flash_failure pubkey w e w1 :
  apply_entitlement (JStr pubkey) JNull false false w = (Raise e, w1) ->
  (resync_subscription_endpoint pubkey w).1 = Raise e
  /\ (forall why, e = FlashUnavailable why ->
        (flash_failure_as_http (apply_entitlement (JStr pubkey) JNull false false) w).1
        = Raise (HTTPException 503)).
Proof.
  intros H. split.
  - unfold resync_subscription_endpoint, with_session, try_, mbind, M_mbind. by rewrite H.
  - intros why ->. unfold flash_failure_as_http, try_. by rewrite H.
Qed.

End endpoints.

(** ** Witnesses: two events wait, one that named nobody and one for an unmapped
       plan *)

Import Scenario.

Definition waiting (id : Z) (sid ref plan : string) (error : string) : EventRow := {|
  ev_id := id; ev_event := "subscription.activated"; ev_event_timestamp := None;
  ev_delivery_timestamp := 1; ev_subscription_id := Some sid;
  ev_payload := Some (JObj [("data", JObj [("externalRef", JStr ref); ("serviceId", JStr "svc");
                                           ("planId", JStr plan)])]);
  ev_processing_started_at := Some 1%Z; ev_processed_at := None; ev_attempts := 5;
  ev_process_error := Some error; ev_resolved_by := None; ev_resolution := None;
  ev_dedupe_key := sid; ev_created_at := 1 |}.

Definition waiting_db : Db := with_events demo_db
  (<[1%Z := waiting 1 "sub-9" "" "gold" "no_reference"]>
   (<[2%Z := waiting 2 "sub-8" "alice" "silver" "unknown_plan"]> ∅)).

Lemma block_takes_back_witness :
  let E := unreachable true in
  committed (set_billing_block "bob" true demo).2 = block_db "bob" true demo_db
  /\ nsec (block_db "bob" true demo_db) !! "bob"
     = Some {| ns_scheduling_id := None; ns_scheduling_source := "default";
               ns_billing_blocked := true |}.
Proof.
  split; [|vm_compute; reflexivity].
  destruct (block_takes_back (E := unreachable true) "bob" true demo
    {| bk_found := true; bk_blocked := true; bk_revoked := true |} _ eq_refl
    (run_returns (set_billing_block (E := unreachable true) "bob" true demo) _
      ltac:(vm_compute; reflexivity))) as [[H _]|[_ H]]; [discriminate H|exact H].
Defined.

Lemma create_plan_reopens_witness :
  let E := unreachable true in
  let w' := (create_billing_plan "svc" "silver" 7 true (world_of waiting_db)).2 in
  billing_plan (committed w') !! 4%Z
    = Some {| bp_id := 4; bp_service_id := "svc"; bp_plan_id := "silver"; bp_scheduling_id := 7;
              bp_is_active := true |}
  /\ ev_attempts <$> flash_webhook_event (committed w') !! 2%Z = Some 0%Z
  /\ ev_attempts <$> flash_webhook_event (committed w') !! 1%Z = Some 5%Z.
Proof.
  intros E w'. pose proof (create_plan_reopens (E := unreachable true) "svc" "silver" 7 true
    (world_of waiting_db) _ w' eq_refl (run_returns (create_billing_plan (E := unreachable true)
      "svc" "silver" 7 true (world_of waiting_db)) _ ltac:(vm_compute; reflexivity)))
    as (_ & _ & H).
  rewrite H. split_and!; vm_compute; reflexivity.
Defined.

Lemma ids_fixed_under_subscribers_witness :
  let E := unreachable true in
  is_ok (update_billing_plan 3 {| pe_service_id := None; pe_plan_id := Some "silver";
    pe_scheduling_id := None; pe_is_active := None |} demo).1 = false.
Proof.
  exact (proj1 (ids_fixed_under_subscribers (E := unreachable true) 3
    {| pe_service_id := None; pe_plan_id := Some "silver"; pe_scheduling_id := None;
       pe_is_active := None |} _ "bob" _ demo _ _ eq_refl eq_refl eq_refl eq_refl
    (surjective_pairing _))).
Defined.

Lemma attribution_never_steals_witness :
  let E := answering "bob" "active" in
  is_ok (attribute_unresolved_subscription "sub-1" "alice" "carol" demo).1 = false.
Proof.
  refine (proj1 (attribution_never_steals (E := answering "bob" "active") "sub-1" "alice" "carol"
    "bob" _ demo _ _ eq_refl eq_refl _ (surjective_pairing _))).
  intros q x Hx _. unfold demo, world_of, working, demo_db, user_subscription in Hx.
  apply lookup_insert_Some in Hx as [[_ <-]|[_ Hx]]; [discriminate|].
  rewrite lookup_empty in Hx. discriminate.
Defined.

Lemma dismissal_settles_unattributed_witness :
  let E := unreachable true in
  let w' := (dismiss_unresolved_subscription "sub-9" "carol" (world_of waiting_db)).2 in
  ev_resolution <$> flash_webhook_event (committed w') !! 1%Z = Some (Some "dismissed")
  /\ ev_resolution <$> flash_webhook_event (committed w') !! 2%Z = Some None.
Proof.
  intros E w'. pose proof (dismissal_settles_unattributed (E := unreachable true) "sub-9" "carol"
    (world_of waiting_db) _ w' eq_refl (run_returns (dismiss_unresolved_subscription
      (E := unreachable true) "sub-9" "carol" (world_of waiting_db)) _
      ltac:(vm_compute; reflexivity)))
    as (_ & _ & now & H).
  rewrite H. split; vm_compute; reflexivity.
Defined.

Lemma resync_leaks_flash_failure_witness :
  let E := unreachable true in
  (resync_subscription_endpoint "alice" demo).1
  = Raise (FlashUnavailable "Could not reach Flash: timed out").
Proof.
  refine (proj1 (resync_leaks_flash_failure (E := unreachable true) "alice" demo _
    (apply_entitlement (E := unreachable true) (JStr "alice") JNull false false demo).2 _)).
  apply injective_projections; [vm_compute; reflexivity|reflexivity].
Defined.
