(* ===== verification/ViewProps.v ===== *)
(** * What the views show

    The subscriber's view, the pricing page, the plan cache behind it and the
    divergence report: the theorems about [SubscriptionView], [PlanCache] and
    [Divergence]. *)

From Stdlib Require Import Ascii String.
From S2P Require Import Prelude Json Time Types Effects Scenario Repos FlashMock Flash.
From S2P Require Import PlanCache CheckoutUrl Billing Entitlement Webhook BillingSync.
From S2P Require Import SchedulingAdmin SubscriptionView AdminBilling Coherence.
From S2P Require Import RowInvariants Json.
Local Open Scope string_scope.

(** ** The subscriber's view *)

(** The policy a user receives: their assignment, or else the default. *)
Definition receives (d : Db) (p : string) (policy : option SchedRow) : Prop :=
  match (nsec d !! p ≫= ns_scheduling_id) ≫= (fun i => scheduling d !! i) with
  | Some r => policy = Some r
  | None =>
      match policy with
      | Some r => sc_is_default r = true /\ exists i, scheduling d !! i = Some r
      | None => forall i r, scheduling d !! i = Some r -> sc_is_default r = false
      end
  end.

Section view.
Context {E : Env}.

Lemma default_scheduling_Ok w o w' : get_default_scheduling_on_db w = (Ok o, w') ->
  match o with
  | Some r => sc_is_default r = true /\ exists i, scheduling (working w) !! i = Some r
  | None => forall i r, scheduling (working w) !! i = Some r -> sc_is_default r = false
  end.
Proof.
  intros [n ->]%exec_query_Ok. destruct (head _) as [r|] eqn:Hh.
  - apply head_Some_elem_of, list_elem_of_filter in Hh as [Hd Hin]. apply scan_elem in Hin as [i Hi].
    split; [by apply Is_true_true|eauto].
  - apply head_None in Hh. intros i r Hi. destruct (sc_is_default r) eqn:Hd; [|done]. exfalso.
    assert (Hin : r ∈ filter (fun s => sc_is_default s) (scan n (scheduling (working w)))).
    { apply list_elem_of_filter. split; [by rewrite Hd|]. apply scan_elem. eauto. }
    rewrite Hh in Hin. set_solver.
Qed.

Lemma resolve_policy_Ok p w o w' :
  resolve_policy p w = (Ok o, w') -> receives (working w) p o.
Proof.
  unfold resolve_policy, receives. intros (sid & w1 & Hs & H)%bind_Ok_inv.
  assert (D1 : same_db w w1) by (eapply stable_run, Hs; solve_stable). destruct D1 as [_ W1].
  apply exec_query_Ok in Hs as [_ ->].
  change (r ← nsec (working w) !! p; ns_scheduling_id r)
    with (nsec (working w) !! p ≫= ns_scheduling_id) in H.
  destruct (nsec (working w) !! p ≫= ns_scheduling_id) as [i|]; simpl.
  - apply bind_Ok_inv in H as (r & w2 & Hr & H).
    assert (D2 : same_db w1 w2) by (eapply stable_run, Hr; solve_stable). destruct D2 as [_ W2].
    apply exec_query_Ok in Hr as [_ ->]. rewrite W1 in H.
    destruct (scheduling (working w) !! i) as [r|]; [by injection H as <- _|].
    apply default_scheduling_Ok in H. by rewrite W2, W1 in H.
  - apply default_scheduling_Ok in H. by rewrite W1 in H.
Qed.

Lemma translate_active st b : translate st b = "active" ->
  (exists s, st = Some s /\ (s = "active" \/ s = "trial")) \/ b = false.
Proof.
  unfold translate, ui_status. destruct st as [s|]; simpl.
  - destruct (String.eqb_spec s "active"); [left; eauto|].
    destruct (String.eqb_spec s "trial"); [left; eauto|].
    destruct (String.eqb s "pending"); [done|]. destruct (String.eqb s "past_due"); [done|].
    destruct (String.eqb s "paused"); [done|]. destruct (String.eqb s "canceled"); [done|].
    destruct (String.eqb s "expired"); [done|]. destruct b; [done|by right].
  - destruct b; [done|by right].
Qed.

(** The page shows what the scheduler delivers.  The policy in a user's view
    is the one they receive, whatever their billing record says; the record
    shown, if any, is theirs and not a checkout Flash discarded; and the view
    says "active" only of somebody Flash reports paying or whose policy is not
    the default. *)
Theorem view_never_overstates p w v w' :
  read_subscription_view p w = (Ok v, w') ->
  exists policy row now, receives (working w) p policy
    /\ sv_policy v = policy_view <$> policy
    /\ row = shown_row now (user_subscription (working w) !! p)
    /\ sv_period_end v = row ≫= us_period_end
    /\ (sv_status v = "active" ->
          (exists r, row = Some r /\ (us_status r = "active" \/ us_status r = "trial"))
          \/ exists s, policy = Some s /\ sc_is_default s = false).
Proof.
  unfold read_subscription_view. intros (policy & w1 & Hp & H)%bind_Ok_inv.
  assert (D1 : same_db w w1) by (eapply stable_run, Hp; solve_stable). destruct D1 as [_ W1].
  apply resolve_policy_Ok in Hp. apply bind_Ok_inv in H as (row & w2 & Hr & H).
  apply exec_query_Ok in Hr as [_ ->]. rewrite W1 in H.
  apply bind_Ok_inv in H as (now & w3 & _ & H).
  assert (Hst : forall row, translate (us_status <$> row)
      (match policy with Some s => sc_is_default s | None => true end) = "active" ->
    (exists r, row = Some r /\ (us_status r = "active" \/ us_status r = "trial"))
    \/ exists s, policy = Some s /\ sc_is_default s = false).
  { intros row [(s & Hs & Hact)|Hd]%translate_active.
    - left. destruct row as [r|]; [|done]. injection Hs as <-. eauto.
    - right. destruct policy as [s|]; [eauto|done]. }
  exists policy. destruct (shown_row now _) as [r|] eqn:Hrow.
  - apply bind_Ok_inv in H as (plan & w4 & _ & H). injection H as <- _.
    exists (Some r), now. split_and!; try done. apply Hst.
  - injection H as <- _. exists None, now. split_and!; try done. apply (Hst None).
Qed.

End view.

(** ** The pricing page *)

Section page.
Context {E : Env}.

(** Sorting by a flag puts one half before the other and moves nothing else. *)
Lemma default_first_sort (l : list BillingPlanView) :
  stable_sort default_first l
  = (filter (fun v => pl_is_default v = true) l ++ filter (fun v => pl_is_default v = false) l)%list.
Proof.
  induction l as [|v l IH]; [done|]. simpl. rewrite IH, !filter_cons. clear IH.
  destruct (pl_is_default v) eqn:Hv; simpl.
  - assert (Hins : forall m, insert_sorted default_first v m = v :: m).
    { intros [|x m]; simpl; [done|]. unfold default_first at 1. by rewrite Hv. }
    by rewrite Hins.
  - assert (Hins : forall a b, Forall (fun v => pl_is_default v = true) a ->
      Forall (fun v => pl_is_default v = false) b ->
      insert_sorted default_first v (a ++ b) = (a ++ v :: b)%list).
    { intros a b Ha Hb. induction Ha as [|x a Hx Ha IH]; simpl.
      - destruct Hb as [|y b Hy Hb]; simpl; [done|]. unfold default_first. by rewrite Hv, Hy.
      - unfold default_first at 1. rewrite Hv, Hx. simpl. by rewrite IH. }
    apply Hins; apply Forall_forall; intros x Hx%list_elem_of_In;
      by apply list_elem_of_filter in Hx as [? _].
Qed.

Lemma plan_rows_of_elem policies sales rows v :
  plan_rows_of policies sales = Ok rows -> v ∈ rows ->
  exists plan flash policy, (plan, flash) ∈ sales /\ plan_row policy flash = Ok v
    /\ policy ∈ policies /\ sc_id policy = bp_scheduling_id plan.
Proof.
  revert rows. induction sales as [|[plan flash] sales IH]; intros rows; simpl.
  { intros [= <-] ?%not_elem_of_nil. done. }
  destruct (list_find _ _) as [[k policy]|] eqn:Hf; [|done].
  apply list_find_Some in Hf as (Hp & Hid & _).
  destruct (plan_row policy flash) as [row|] eqn:Hrow; [|done]. cbn [mbind res_mbind].
  destruct (plan_rows_of policies sales) as [rest|]; [|done]. cbn [mbind res_mbind].
  intros [= <-] [->|Hv]%elem_of_cons.
  - exists plan, flash, policy. split_and!; [set_solver|done| |done].
    by eapply list_elem_of_lookup_2.
  - destruct (IH rest eq_refl Hv) as (pl & fl & po & Hin & ?). exists pl, fl, po.
    split; [set_solver|done].
Qed.

Lemma sellable_mappings_elem active found plan flash :
  (plan, flash) ∈ sellable_mappings active found ->
  plan ∈ active /\ dict_get (bp_service_id plan, bp_plan_id plan) found = Some flash.
Proof.
  intros Hin. apply (proj1 (stable_sort_elem _ _ _)), list_elem_of_omap in Hin as (x & Hx & Hf).
  apply bind_Some in Hf as (f & Hf & [= <- <-]). done.
Qed.

Lemma dict_get_filter (found : plan_index) k f :
  dict_get k (sellable_plans found) = Some f -> can_sell f = true.
Proof.
  intros Hf. apply dict_get_elem, list_elem_of_filter in Hf as [Hs _]. done.
Qed.

Lemma plan_row_sold policy flash v : plan_row policy flash = Ok v -> can_sell flash = true ->
  pl_policy_id v = sc_id policy /\ pl_plan_id v = Some (fp_id flash)
  /\ is_Some (pl_amount_minor v) /\ is_Some (pl_checkout_url v).
Proof.
  unfold plan_row, can_sell. intros Hr [Ha Hu]%andb_true_iff.
  destruct (fp_signup_url flash) as [u|]; [|done]. apply negb_true_iff in Hu. rewrite Hu in Hr.
  destruct (checkout_url u) as [url|]; [|done]. injection Hr as <-. simpl.
  apply bool_decide_eq_true in Ha. split_and!; eauto.
Qed.

(** A tier we sell is never shown free.  Every row of the pricing page is
    either a public policy no active plan sells, at zero and without a checkout,
    or an active plan on a public policy with Flash's price for it and a
    checkout link; a plan Flash cannot price, or whose service cannot be read,
    costs its own row and never turns its policy into a free one. *)
Theorem paid_policy_never_free w rows w' v :
  list_billing_plans w = (Ok rows, w') -> v ∈ rows ->
  (pl_plan_id v = None /\ pl_amount_minor v = Some 0%Z /\ pl_checkout_url v = None
   /\ forall i plan, billing_plan (working w) !! i = Some plan -> bp_is_active plan = true ->
        bp_scheduling_id plan <> pl_policy_id v)
  \/ (is_Some (pl_plan_id v) /\ is_Some (pl_amount_minor v) /\ is_Some (pl_checkout_url v)
      /\ exists i plan, billing_plan (working w) !! i = Some plan /\ bp_is_active plan = true
           /\ bp_scheduling_id plan = pl_policy_id v).
Proof.
  unfold list_billing_plans. destruct (negb (flash_enabled settings)).
  { intros [= <- <-] ?%not_elem_of_nil. done. }
  intros (policies & w1 & Hpol & H)%bind_Ok_inv Hv.
  assert (D1 : same_db w w1) by (eapply stable_run, Hpol; solve_stable). destruct D1 as [_ W1].
  apply bind_Ok_inv in H as (plans & w2 & Hpl & H). apply exec_query_Ok in Hpl as [n ->].
  apply bind_Ok_inv in H as (found & w3 & _ & H). injection H as H _. rewrite W1 in H.
  set (active := on_public policies _) in H.
  assert (Hact : forall plan, plan ∈ active <-> bp_scheduling_id plan ∈ (sc_id <$> policies)
    /\ bp_is_active plan = true /\ exists i, billing_plan (working w) !! i = Some plan).
  { intros plan. unfold active, on_public.
    rewrite list_elem_of_filter, stable_sort_elem, list_elem_of_filter, scan_elem. simpl.
    rewrite Is_true_true. tauto. }
  unfold pricing_page in H. destruct (plan_rows_of _ _) as [sold|] eqn:Hsold; [|done].
  injection H as <-. apply (proj1 (stable_sort_elem _ _ _)), elem_of_app in Hv as [Hv|Hv].
  - left. apply list_elem_of_fmap in Hv as (policy & -> & Hin). apply list_elem_of_filter in Hin as [Hno Hin].
    split_and!; try done. intros i plan Hi Ha Hs. apply Hno, list_elem_of_fmap. exists plan.
    split; [done|]. apply Hact. split_and!; [|done|eauto]. rewrite Hs. simpl.
    by apply list_elem_of_fmap_2.
  - right. destruct (plan_rows_of_elem _ _ _ _ Hsold Hv) as (plan & flash & policy & Hin & Hrow & Hp & Hid).
    apply sellable_mappings_elem in Hin as [Hin Hd]. apply dict_get_filter in Hd.
    destruct (plan_row_sold _ _ _ Hrow Hd) as (Hpid & Hplan & Ham & Hurl).
    apply Hact in Hin as (_ & Ha & i & Hi). split_and!; [rewrite Hplan; eauto|done|done|].
    exists i, plan. split_and!; [done|done|congruence].
Qed.

(** The order of the page: default rows first; within each half the free rows,
    then the plans in Flash's order. *)
Lemma pricing_page_order policies active found rows :
  pricing_page policies active found = Ok rows ->
  exists sold, plan_rows_of policies (sellable_mappings active found) = Ok sold
    /\ let all := ((free_row <$> filter (fun p => sc_id p ∉ (bp_scheduling_id <$> active)) policies)
                   ++ sold)%list in
       rows = (filter (fun v => pl_is_default v = true) all
               ++ filter (fun v => pl_is_default v = false) all)%list.
Proof.
  unfold pricing_page. destruct (plan_rows_of _ _) as [sold|]; [|done]. intros [= <-].
  exists sold. split; [done|]. apply default_first_sort.
Qed.

End page.

(** ** The divergence report *)

(** What [AbandonRule.matches] asks of a row in hand is what the query asks. *)
Lemma abandon_holds rule now r :
  tri_holds (abandon_condition rule now r) = abandon_matches rule now r.
Proof.
  unfold abandon_condition, abandon_matches.
  rewrite !tri_holds_and, tri_holds_of_bool, tri_holds_is_null, tri_holds_is_not_null.
  assert (Herr : tri_holds (sql_cmp (String.eqb (ab_error rule)) (us_last_sync_error r))
                 = bool_decide (us_last_sync_error r = Some (ab_error rule))).
  { destruct (us_last_sync_error r) as [e|]; simpl; [|done].
    rewrite tri_holds_of_bool. destruct (String.eqb_spec (ab_error rule) e) as [->|Hne].
    - by rewrite bool_decide_eq_true_2.
    - rewrite bool_decide_eq_false_2; congruence. }
  rewrite Herr, !andb_assoc. destruct (us_sync_error_since r) as [t|]; simpl;
    rewrite ?tri_holds_of_bool, ?andb_true_r, ?andb_false_r; done.
Qed.

(** A paired error keeps the condition out of NULL, so that its negation is its
    complement. *)
Lemma abandon_not_null rule now r : sync_paired r -> abandon_condition rule now r <> TNull.
Proof.
  intros [Hp _]. unfold abandon_condition. destruct (us_last_sync_error r) as [e|]; simpl.
  - destruct (String.eqb (us_status r) _), (us_granted r), (String.eqb _ e),
      (us_sync_error_since r) as [t|]; simpl; try done; by destruct (t <=? _)%Z.
  - rewrite (Hp eq_refl). by destruct (String.eqb (us_status r) _), (us_granted r).
Qed.

Lemma settled_not_null r : settled_condition r <> TNull.
Proof.
  unfold settled_condition.
  by destruct (String.eqb _ _), (us_granted r), (us_last_sync_error r).
Qed.

Lemma unattributed_not_null {E : Env} r : unattributed r <> TNull.
Proof.
  unfold unattributed. destruct (payload_text _ _) as [s|]; simpl; [|done]. by destruct s.
Qed.

Lemma complement_iff (b : bool) (P Q : Prop) :
  P -> Q -> (negb b = true /\ P <-> ~ (b = true /\ Q)).
Proof. destruct b; simpl; naive_solver. Qed.

(** A section that is not cut off holds every row its query matches. *)
Lemma section_whole {A} (l l' : list A) :
  l = take ROW_LIMIT l' -> ds_truncated (section l) = false -> l = l'.
Proof.
  intros -> Ht. unfold section in Ht. cbn [ds_truncated] in Ht. apply Nat.leb_gt in Ht. rewrite length_take in Ht.
  apply take_ge. lia.
Qed.

Section report.
Context {E : Env}.

(** What each of the ten queries returned, all on the same tables. *)
Lemma report_sections w rep w' : build_divergence_report w = (Ok rep, w') ->
  exists n1 n2 n3 n4 n5 n6 n7 n8, let d := working w in let now := clock (tick w) in
    policy_mismatch rep = take ROW_LIMIT (mismatches false n7 d)
    /\ admin_overrides rep = take ROW_LIMIT (mismatches true n8 d)
    /\ stale_syncs rep = take ROW_LIMIT (filter (fun r => tri_holds
         (stale_where (now - billing_stale_sync_hours settings * hour) now abandon_rule r))
         (scan n1 (user_subscription d)))
    /\ failing_syncs rep = take ROW_LIMIT (filter (fun r => tri_holds
         (failing_where now abandon_rule r)) (scan n2 (user_subscription d)))
    /\ abandoned_checkouts rep = take ROW_LIMIT (filter (fun r => tri_holds
         (abandon_condition abandon_rule now r)) (scan n3 (user_subscription d)))
    /\ unresolved_signups rep = take ROW_LIMIT (stable_sort newest_event_first
         (filter (fun r => tri_holds (tri_and (unapplied r) (unattributed r)))
            (scan n4 (flash_webhook_event d))))
    /\ unmapped_plans rep = take ROW_LIMIT (stable_sort newest_event_first
         (filter (fun r => tri_holds (tri_and (unapplied r) (tri_not (unattributed r))))
            (scan n5 (flash_webhook_event d))))
    /\ exhausted_events rep = take ROW_LIMIT (filter (fun r => tri_holds
         (exhausted_where (billing_replay_max_attempts settings) r))
         (scan n6 (flash_webhook_event d))).
Proof.
  unfold build_divergence_report. intros (now & w1 & Hn & H)%bind_Ok_inv.
  injection Hn as <- <-. revert H. set (w1 := with_db _ _ _ _). change (working w) with (working w1).
  generalize (clock (tick w)). clearbody w1. clear w. intros now H.
  repeat match type of H with
  | mbind _ (exec _) ?w0 = _ =>
      let W := fresh "W" in let v := fresh "v" in let w2 := fresh "w" in let Hq := fresh "Hq" in
      apply bind_Ok_inv in H as (v & w2 & Hq & H);
      assert (W : working w2 = working w0) by (eapply (stable_run same_db), Hq; solve_stable);
      apply exec_query_Ok in Hq as [? Hq]
  | mbind _ ?m _ = _ => let m' := eval red in m in change m with m' in H
  end.
  injection H as <- _. cbn. rewrite ?W7, ?W6, ?W5, ?W4, ?W3, ?W2, ?W1, ?W0, ?W in *.
  do 8 eexists. split_and!; eassumption.
Qed.

(** Nothing that failed is missing from the report.  After any sequence of
    operations, in a report whose sections are not cut off: a record with a sync
    error is either failing or an abandoned checkout and never both; a record
    nobody has read for the stale period is listed, unless it is settled or
    abandoned; a delivery that was not applied is either an unresolved signup or
    an unmapped plan and never both, and is exhausted exactly when its attempts
    are used up. *)
Theorem report_misses_nothing ops w0 rep w' :
  at_rest errors_paired w0 ->
  build_divergence_report (run_all ops w0) = (Ok rep, w') ->
  ds_truncated (section (failing_syncs rep)) = false ->
  ds_truncated (section (abandoned_checkouts rep)) = false ->
  ds_truncated (section (stale_syncs rep)) = false ->
  ds_truncated (section (unresolved_signups rep)) = false ->
  ds_truncated (section (unmapped_plans rep)) = false ->
  ds_truncated (section (exhausted_events rep)) = false ->
  let w := run_all ops w0 in
  let now := clock (tick w) in
  (forall p r, user_subscription (committed w) !! p = Some r ->
     (us_last_sync_error r <> None ->
        (r ∈ failing_syncs rep <-> r ∉ abandoned_checkouts rep))
     /\ ((forall t, us_last_synced_at r = Some t ->
           (t <= now - billing_stale_sync_hours settings * hour)%Z) ->
         tri_holds (settled_condition r) = false ->
         (r ∈ stale_syncs rep <-> r ∉ abandoned_checkouts rep)))
  /\ forall i r, flash_webhook_event (committed w) !! i = Some r -> ev_processed_at r = None ->
     (ev_process_error r <> None -> (r ∈ unresolved_signups rep <-> r ∉ unmapped_plans rep))
     /\ (r ∈ exhausted_events rep
         <-> (billing_replay_max_attempts settings <= ev_attempts r)%Z).
Proof.
  intros H0 Hrep T1 T2 T3 T4 T5 T6 w now.
  destruct (run_all_keeps errors_paired ops w0 H0) as [[Hpair _] Hwork]. fold w in Hpair, Hwork.
  apply report_sections in Hrep as (n1 & n2 & n3 & n4 & n5 & n6 & ? & ? & _ & _ & Hs & Hf & Ha & Hu & Hm & Hx).
  fold w in Hs, Hf, Ha, Hu, Hm, Hx. fold now in Hs, Hf, Ha.
  rewrite Hwork in Hs, Hf, Ha, Hu, Hm, Hx.
  apply section_whole in Hs; [|done]. apply section_whole in Hf; [|done].
  apply section_whole in Ha; [|done]. apply section_whole in Hu; [|done].
  apply section_whole in Hm; [|done]. apply section_whole in Hx; [|done].
  rewrite Hs, Hf, Ha, Hu, Hm, Hx. split.
  - intros p r Hr. assert (Hin : forall n, r ∈ scan n (user_subscription (committed w)))
      by (intros n; apply scan_elem; eauto).
    pose proof (abandon_not_null abandon_rule now r (Hpair p r Hr)) as Hnn.
    rewrite !list_elem_of_filter, !Is_true_true. unfold failing_where, stale_where.
    rewrite !tri_holds_and, !tri_holds_not, tri_holds_is_not_null by (done || apply settled_not_null).
    split.
    + intros He%not_eq_None_Some. rewrite (bool_decide_eq_true_2 _ He). simpl.
      by apply complement_iff.
    + intros Hold ->. rewrite tri_holds_or, tri_holds_is_null.
      assert (Hstale : bool_decide (us_last_synced_at r = None)
        || tri_holds (sql_cmp (fun t => (t <=? now - billing_stale_sync_hours settings * hour)%Z)
             (us_last_synced_at r)) = true).
      { destruct (us_last_synced_at r) as [t|]; simpl; [|done].
        rewrite tri_holds_of_bool. apply Z.leb_le, Hold. done. }
      rewrite Hstale. simpl. rewrite andb_true_r. by apply complement_iff.
  - intros i r Hr Hproc. assert (Hin : forall n, r ∈ scan n (flash_webhook_event (committed w)))
      by (intros n; apply scan_elem; eauto).
    rewrite !stable_sort_elem, !list_elem_of_filter, !Is_true_true. unfold unapplied, exhausted_where.
    rewrite !tri_holds_and, tri_holds_not, tri_holds_is_null, tri_holds_is_not_null, tri_holds_of_bool
      by apply unattributed_not_null.
    rewrite Hproc. rewrite bool_decide_eq_true_2 by done. simpl. split.
    + intros He%not_eq_None_Some. rewrite (bool_decide_eq_true_2 _ He). simpl.
      rewrite <- (negb_involutive (tri_holds (unattributed r))) at 1. by apply complement_iff.
    + rewrite Z.leb_le. naive_solver.
Qed.

End report.

(** ** The plan cache *)

Definition same_redis (w w' : World) : Prop := redis w' = redis w.
#[export] Instance same_redis_preorder : PreOrder same_redis.
Proof. split; [done|]. intros ???. unfold same_redis. congruence. Qed.

Section cache.
Context {E : Env}.

Lemma same_redis_request rq : stable same_redis (request rq).
Proof. done. Qed.
#[local] Hint Resolve same_redis_request : stable.

Lemma same_redis_retries left rq rs b : stable same_redis (with_retries_from left rq rs b).
Proof. induction left as [|left IH]; simpl; solve_stable. Qed.
#[local] Hint Resolve same_redis_retries : stable.

Lemma same_redis_fetch s : stable same_redis (fetch_service_plans_raw s).
Proof.
  unfold fetch_service_plans_raw, read_body, get_with_retries, with_retries. solve_stable.
Qed.

Lemma ticks_fetch_plans s : stable ticks (fetch_service_plans_raw s).
Proof.
  assert (Hr := @ticks_with_retries_from E).
  unfold fetch_service_plans_raw, read_body, get_with_retries, with_retries. solve_stable.
Qed.

Lemma fetch_plans_down s w why : s <> "" ->
  (get_with_retries (services_url [s]) [] w).1 = Raise (FlashUnavailable why) ->
  (fetch_service_plans_raw s w).1 = Raise (FlashUnavailable why).
Proof.
  intros Hs Hg. unfold fetch_service_plans_raw. rewrite (proj2 (String.eqb_neq _ _) Hs).
  unfold read_body, try_, mbind, M_mbind.
  destruct (get_with_retries _ _ w) as [r w1]. simpl in Hg. by subst r.
Qed.

Lemma omap_as_obj_rows (plans : list (list (string * json))) : omap as_obj (JObj <$> plans) = plans.
Proof. induction plans as [|p plans IH]; [done|]. simpl. f_equal. exact IH. Qed.

Lemma cache_keys_apart s : fresh_key s <> last_good_key s.
Proof.
  unfold fresh_key, last_good_key. intros H%(f_equal String.length).
  rewrite !length_append in H. simpl in H. lia.
Qed.

(** What is stored of a body, and what it reads back as. *)
Definition stored_plans (plans : list (list (string * json))) : json := JList (JObj <$> plans).

Lemma cached_stored plans : cached_plans (stored_plans plans) = Ok (parse_plan <$> plans).
Proof. unfold stored_plans, cached_plans. by rewrite omap_as_obj_rows. Qed.

Lemma store_run s plans w :
  (forall n, redis_fault n = false) -> (0 < flash_plans_cache_ttl_seconds settings)%Z ->
  exists deadline, let w' := (store s plans w).2 in (store s plans w).1 = Ok tt
    /\ redis w' !! fresh_key s = Some (Some (stored_plans plans), Some deadline)
    /\ redis w' !! last_good_key s = Some (Some (stored_plans plans), None).
Proof.
  intros Hf Httl. unfold store, try_, redis_set, mbind, M_mbind. rewrite !Hf. simpl.
  rewrite (proj2 (Z.leb_gt _ _) Httl). simpl. rewrite Hf. simpl. eexists. split_and!; [done| |].
  - rewrite lookup_insert_ne; [|apply not_eq_sym, cache_keys_apart]. by rewrite lookup_insert_eq.
  - by rewrite lookup_insert_eq.
Qed.

Lemma load_stored key plans deadline w :
  (forall n, redis_fault n = false) ->
  redis w !! key = Some (Some (stored_plans plans), deadline) ->
  exists o, load key w = (Ok o, with_redis w (redis w))
    /\ (o = Some (parse_plan <$> plans) \/ (o = None /\ is_Some deadline)).
Proof.
  intros Hf. pose proof (cached_stored plans) as Hc. revert Hc.
  generalize (stored_plans plans). intros v Hc Hk. unfold load, try_, redis_get, mbind, M_mbind. rewrite Hf, Hk. simpl.
  unfold redis_live. simpl.
  destruct deadline as [t|]; simpl; [destruct (_ <? t)%Z; simpl; [|eauto]|].
  all: rewrite Hc; eauto.
Qed.

(** A refresh that cannot ask answers from the stored copy. *)
Lemma refresh_during_outage s w plans :
  (forall n, redis_fault n = false) ->
  redis w !! last_good_key s = Some (Some (stored_plans plans), None) ->
  (exists why, (fetch_service_plans_raw s w).1 = Raise (FlashUnavailable why)) ->
  (refresh_plans s w).1 = Ok (parse_plan <$> plans).
Proof.
  intros Hf Hk [why Hd]. unfold refresh_plans, attempt, mbind, M_mbind.
  pose proof (same_redis_fetch s w) as Hr. destruct (fetch_service_plans_raw s w) as [r w1].
  simpl in *. subst r. unfold same_redis in Hr. rewrite <- Hr in Hk.
  destruct (load_stored _ _ _ w1 Hf Hk) as (o & -> & [->|[_ []%is_Some_None]]). done.
Qed.

(** An outage does not empty the pricing page.  Once a service's plans have
    been read, and while Redis holds what was stored, a later read answers with
    the same plans for as long as Flash cannot be reached: from the short-lived
    copy while it lasts, and from the last known good copy afterwards. *)
Theorem outage_serves_last_known s w body w1 w2 :
  flash_mock_enabled settings = false ->
  (forall n, redis_fault n = false) -> (0 < flash_plans_cache_ttl_seconds settings)%Z ->
  fetch_service_plans_raw s w = (Ok body, w1) ->
  (forall k, k ∈ [fresh_key s; last_good_key s] ->
     redis w2 !! k = redis (refresh_plans s w).2 !! k) ->
  (forall w3, ticks w2 w3 ->
     exists why, (fetch_service_plans_raw s w3).1 = Raise (FlashUnavailable why)) ->
  let plans := parse_plan <$> plan_rows (dget "plans" body) in
  (refresh_plans s w).1 = Ok plans /\ forall fresh, (read_service_plans s fresh w2).1 = Ok plans.
Proof.
  intros Hmock Hf Httl Hok Hkept Hdown plans. set (rows := plan_rows (dget "plans" body)) in *.
  destruct (store_run s rows w1 Hf Httl) as (t & Hst & Hfresh & Hgood).
  assert (Hrun : refresh_plans s w = (Ok plans, (store s rows w1).2)).
  { unfold refresh_plans, attempt, mbind, M_mbind. rewrite Hok. fold rows.
    by destruct (store s rows w1) as [r w']; simpl in *; subst r. }
  rewrite Hrun in Hkept |- *. split; [done|]. simpl in Hkept.
  rewrite <- Hkept in Hfresh by set_solver. rewrite <- Hkept in Hgood by set_solver.
  intros fresh. unfold read_service_plans. rewrite Hmock. destruct fresh.
  - cbn. apply refresh_during_outage; [done..|]. by apply Hdown.
  - unfold mbind, M_mbind.
    destruct (load_stored _ _ _ w2 Hf Hfresh) as (o & -> & [->|[-> _]]); [done|].
    destruct (load_stored _ _ _ (with_redis w2 (redis w2)) Hf Hfresh) as (o & -> & [->|[-> _]]); [done|].
    apply refresh_during_outage; [done..|]. apply Hdown. unfold ticks. simpl. lia.
Qed.

End cache.

(** ** Witnesses *)

Import Scenario.

Lemma view_never_overstates_witness :
  let E := answering "bob" "active" in
  let r := read_subscription_view "bob" demo in
  exists v, r.1 = Ok v /\ sv_status v = "canceled"
    /\ exists policy row now, receives demo_db "bob" policy /\ sv_policy v = policy_view <$> policy
         /\ row = shown_row now (user_subscription demo_db !! "bob")
         /\ sv_period_end v = row ≫= us_period_end.
Proof.
  cbv zeta. eexists. split; [vm_compute; reflexivity|]. split; [vm_compute; reflexivity|].
  destruct (view_never_overstates (E := answering "bob" "active") "bob" demo _ _
    (run_returns (read_subscription_view (E := answering "bob" "active") "bob" demo) _
       ltac:(vm_compute; reflexivity))) as (policy & row & now & Hr & Hp & Hrow & He & _).
  exists policy, row, now. split; [exact Hr|split; [exact Hp|split; [exact Hrow|exact He]]].
Defined.

(** Flash answers for service [svc] until tick [up], and is down afterwards. *)
Definition svc_body : list (string * json) :=
  [("plans", JList [JObj [("id", JStr "gold"); ("serviceId", JStr "svc"); ("name", JStr "Gold");
    ("amount", JStr "500"); ("currency", JStr "USD"); ("signupUrl", JStr "https://flash.test/s/gold")]])].

Definition svc_until (up n : nat) (rq : HttpRequest) : HttpOutcome :=
  if (n <? up)%nat && String.eqb (rq_url rq) "https://flash.test/api/v1/external/services/svc"
  then Response 200 (Some (JObj svc_body)) else flash_down rq.

Definition selling (up : nat) : Env := env_over (svc_until up) false true (fun _ => None).

(** One free row and one sold one. *)
Lemma paid_policy_never_free_witness :
  let E := selling 1000 in
  exists rows v, (list_billing_plans demo).1 = Ok rows /\ v ∈ rows
    /\ (pl_amount_minor <$> rows = [Some 0%Z; Some 500%Z]) /\ pl_policy_id v = 7%Z
    /\ ((pl_plan_id v = None /\ pl_amount_minor v = Some 0%Z /\ pl_checkout_url v = None
         /\ forall i plan, billing_plan demo_db !! i = Some plan -> bp_is_active plan = true ->
              bp_scheduling_id plan <> pl_policy_id v)
        \/ (is_Some (pl_plan_id v) /\ is_Some (pl_amount_minor v) /\ is_Some (pl_checkout_url v)
            /\ exists i plan, billing_plan demo_db !! i = Some plan /\ bp_is_active plan = true
                 /\ bp_scheduling_id plan = pl_policy_id v)).
Proof.
  cbv zeta. eexists _, _. split; [vm_compute; reflexivity|].
  split; [apply list_elem_of_further, list_elem_of_here|].
  split; [reflexivity|]. split; [reflexivity|].
  refine (paid_policy_never_free (E := selling 1000) demo _ _ _
    (run_returns (list_billing_plans (E := selling 1000) demo) _ ltac:(vm_compute; reflexivity)) _).
  apply list_elem_of_further, list_elem_of_here.
Defined.

Lemma svc_gone w : (3 <= tick w)%nat ->
  (fetch_service_plans_raw (E := selling 3) "svc" w).1
  = Raise (FlashUnavailable "Could not reach Flash: timed out").
Proof.
  intros Hw.
  assert (Hall : forall left rq w, (3 <= tick w)%nat ->
    (with_retries_from (E := selling 3) (S left) rq RETRYABLE true w).1
    = Raise (FlashUnavailable "Could not reach Flash: timed out")).
  { induction left as [|left IH]; intros rq w1 H1; cbn [with_retries_from];
      unfold request, mbind, M_mbind; cbn [http selling env_over];
      unfold svc_until; rewrite (proj2 (Nat.ltb_ge _ _) H1); [done|].
    cbn. apply IH. simpl. lia. }
  assert (Hg : (get_with_retries (E := selling 3) (services_url (E := selling 3) ["svc"]) [] w).1
    = Raise (FlashUnavailable "Could not reach Flash: timed out")) by (by apply (Hall 3%nat)).
  by apply fetch_plans_down.
Qed.

Lemma outage_serves_last_known_witness :
  let E := selling 3 in
  let plans := parse_plan <$> plan_rows (dget "plans" svc_body) in
  (refresh_plans "svc" demo).1 = Ok plans
  /\ forall fresh, (read_service_plans "svc" fresh (refresh_plans "svc" demo).2).1 = Ok plans.
Proof.
  refine (outage_serves_last_known (E := selling 3) "svc" demo svc_body _ _ eq_refl (fun _ => eq_refl)
    eq_refl (run_returns (fetch_service_plans_raw (E := selling 3) "svc" demo) _
      ltac:(vm_compute; reflexivity)) (fun _ _ => eq_refl) _).
  intros w3 Hw. eexists. apply svc_gone. unfold ticks in Hw.
  assert (Ht : tick (refresh_plans (E := selling 3) "svc" demo).2 = 3%nat) by (vm_compute; reflexivity).
  rewrite Ht in Hw. exact Hw.
Defined.

(** [bob]'s reconcile fails during the outage, and is reported as failing. *)
Lemma demo_paired : at_rest errors_paired demo.
Proof.
  split; [|done]. split; [|done]. unfold demo, world_of, committed, demo_db, user_subscription.
  intros p r [[<- <-]|[_ H]]%lookup_insert_Some; [done|].
  by rewrite lookup_empty in H.
Qed.

(** One sync cycle in which [bob]'s record cannot be read. *)
Definition failing_cycle : list Op := [OnBilling (SyncCycle demo_cycle)].

Definition demo_past_due : World :=
  world_of (with_subs demo_db (<["bob" := subscription_of "bob" "sub-1" "past_due" (Some 7%Z) (Some 0%Z)]> ∅)).

Lemma demo_past_due_paired : at_rest errors_paired demo_past_due.
Proof.
  split; [|done]. split; [|done]. unfold demo_past_due, world_of, committed, user_subscription, with_subs.
  intros p r [[<- <-]|[_ H]]%lookup_insert_Some; [done|]. by rewrite lookup_empty in H.
Qed.

Lemma report_misses_nothing_witness :
  let E := unreachable false in
  let w := run_all failing_cycle demo_past_due in
  exists rep r, (build_divergence_report w).1 = Ok rep
    /\ user_subscription (committed w) !! "bob" = Some r
    /\ us_last_sync_error r = Some "Could not reach Flash: timed out"
    /\ us_pubkey <$> failing_syncs rep = ["bob"]
    /\ (r ∈ failing_syncs rep <-> r ∉ abandoned_checkouts rep).
Proof.
  cbv zeta. eexists _, _. split; [vm_compute; reflexivity|]. split; [vm_compute; reflexivity|].
  split; [reflexivity|]. split; [reflexivity|].
  refine (proj1 (proj1 (report_misses_nothing (E := unreachable false) failing_cycle demo_past_due _ _
    demo_past_due_paired
    (run_returns (build_divergence_report (E := unreachable false)
                    (run_all (E := unreachable false) failing_cycle demo_past_due)) _
       ltac:(vm_compute; reflexivity)) eq_refl eq_refl eq_refl eq_refl eq_refl eq_refl)
    "bob" _ _) _); [vm_compute; reflexivity|discriminate].
Defined.

(** *** What the code does beside what it says *)

(** A refused credential is not an outage: with no short-lived copy left it
    fails the whole page, though a last known good copy is stored. *)
Example credential_refusal_fails_page :
  let E := env_with (fun _ => Response 401 None) false true (fun _ => None) in
  let w := with_redis demo (<[last_good_key "svc" :=
             (Some (stored_plans (plan_rows (dget "plans" svc_body))), None)]> ∅) in
  (list_billing_plans w).1 = Raise FlashCredentialError
  /\ (let E := unreachable true in
      exists rows, (list_billing_plans w).1 = Ok rows
        /\ (pl_amount_minor <$> rows) = [Some 0%Z; Some 500%Z]).
Proof. split; [vm_compute; reflexivity|]. eexists. by split; [vm_compute; reflexivity|]. Qed.

(** [bob], moved by an administrator, is in Flash's grace period when the
    override is lifted: the decision holds, so what he pays for is not restored,
    and what is recorded as granted is no longer what he is assigned. *)
Example clear_override_leaves_mismatch :
  let E := answering "bob" "past_due" in
  let w := world_of (with_nsec (committed demo_past_due)
             (<["bob" := user (Some 1%Z) "admin"]> ∅)) in
  let w' := (clear_user_scheduling_override_endpoint "bob" w).2 in
  nsec (committed w') !! "bob" = Some (user None "default")
  /\ (us_granted <$> user_subscription (committed w') !! "bob") = Some (Some 7%Z)
  /\ (select_policy_mismatches_on_db false 10 w').1
     = Ok [("bob", "past_due", Some 7%Z, None, "default")].
Proof. vm_compute. done. Qed.

(** A user we do not know is reported "verified" though Flash was not asked. *)
Example unknown_user_reads_verified :
  let E := unreachable true in
  let r := refresh_subscription_endpoint "nobody" (Some "sub-1") demo in
  (exists v, r.1 = Ok ("verified", v)) /\ sent r.2 = [].
Proof. split; [eexists|]; vm_compute; reflexivity. Qed.
