(* ===== verification/ResultQueue.v ===== *)
(** * The reliable result queues
      ([src/app/message_queue_tasks/result_queue.py] and the consumer loops of
       [src/app/message_queue_tasks/message_queue_consumer.py])

    A consumer is a program of Redis commands and calls of its two callbacks:
    [prog].  Every command is atomic; between two commands of one consumer
    anything may happen — other consumers run, the worker queues new results,
    the connection drops with the command done or not, the process is killed.
    [sys_step] is that interleaving. *)

From Stdlib Require Import Ascii String.
From S2P Require Import Prelude Json.
Local Open Scope string_scope.

(** ** Redis, as far as the queues use it *)

Record Store := {
  lists : gmap string (list string);
  strings : gmap string string;
  counters : gmap string Z;
  sets : gmap string (gset string);
}.

Definition with_lists (s : Store) (m : gmap string (list string)) : Store :=
  {| lists := m; strings := strings s; counters := counters s; sets := sets s |}.
Definition with_counters (s : Store) (m : gmap string Z) : Store :=
  {| lists := lists s; strings := strings s; counters := m; sets := sets s |}.
Definition with_sets (s : Store) (m : gmap string (gset string)) : Store :=
  {| lists := lists s; strings := strings s; counters := counters s; sets := m |}.

Definition list_at (s : Store) (k : string) : list string := default [] (lists s !! k).
Definition set_at (s : Store) (k : string) : gset string := default ∅ (sets s !! k).

(** DEL of several keys, whatever they hold. *)
Definition del_keys (ks : list string) (s : Store) : Store :=
  {| lists := foldr delete (lists s) ks; strings := foldr delete (strings s) ks;
     counters := foldr delete (counters s) ks; sets := foldr delete (sets s) ks |}.

(** LREM key 1 v: the first occurrence. *)
Fixpoint remove_first (v : string) (l : list string) : list string :=
  match l with
  | [] => []
  | x :: l' => if String.eqb x v then l' else x :: remove_first v l'
  end.

Inductive side := LEFT | RIGHT.

Definition pop_side (d : side) (l : list string) : option (string * list string) :=
  match d with
  | LEFT => match l with [] => None | x :: l' => Some (x, l') end
  | RIGHT => match reverse l with [] => None | x :: l' => Some (x, reverse l') end
  end.

Definition push_side (d : side) (x : string) (l : list string) : list string :=
  match d with LEFT => x :: l | RIGHT => (l ++ [x])%list end.

(** A message once decoded. *)
Definition Message : Type := list (string * json).

(** One atomic step of a consumer. [Handle] and [OnLost] are its callbacks. *)
Inductive cmd :=
  | Lmove (src dst : string) (from to : side)
  | Incr (k : string)
  | Expire (k : string) (seconds : Z)
  | Strlen (k : string)
  | Getrange (k : string) (first last : nat)
  | Lrem (k v : string)
  | Del (ks : list string)
  | Srem (k v : string)
  | Scard (k : string)
  | Handle (queue raw : string) (message : Message)
  | OnLost (queue raw : string) (message : Message) (reason : string).

Inductive reply :=
  | RNil
  | RInt (n : Z)
  | RText (s : string).

Definition run_cmd (c : cmd) (s : Store) : reply * Store :=
  match c with
  | Lmove src dst from to =>
      match pop_side from (list_at s src) with
      | None => (RNil, s)
      | Some (x, rest) =>
          let s' := with_lists s (<[src := rest]> (lists s)) in
          (RText x, with_lists s' (<[dst := push_side to x (list_at s' dst)]> (lists s')))
      end
  | Incr k =>
      let n := (default 0 (counters s !! k) + 1)%Z in
      (RInt n, with_counters s (<[k := n]> (counters s)))
  | Expire _ _ => (RNil, s)
  | Strlen k => (RInt (Z.of_nat (String.length (default "" (strings s !! k)))), s)
  | Getrange k i j => (RText (String.substring i (j - i + 1) (default "" (strings s !! k))), s)
  | Lrem k v => (RNil, with_lists s (<[k := remove_first v (list_at s k)]> (lists s)))
  | Del ks => (RNil, del_keys ks s)
  | Srem k v => (RNil, with_sets s (<[k := set_at s k ∖ {[v]}]> (sets s)))
  | Scard k => (RInt (Z.of_nat (size (set_at s k))), s)
  | Handle _ _ _ | OnLost _ _ _ _ => (RNil, s)
  end.

(** ** Programs *)

Inductive prog (A : Type) : Type :=
  | Done (r : res exn A)
  | Do (c : cmd) (k : res exn reply -> prog A).
Arguments Done {A} r.
Arguments Do {A} c k.

Fixpoint prog_bind {A B} (p : prog A) (f : A -> prog B) : prog B :=
  match p with
  | Done (Ok a) => f a
  | Done (Raise e) => Done (Raise e)
  | Do c k => Do c (fun r => prog_bind (k r) f)
  end.

#[export] Instance prog_mret : MRet prog := fun _ a => Done (Ok a).
#[export] Instance prog_mbind : MBind prog := fun _ _ f p => prog_bind p f.

(** [try: p  except Exception as e: h(e)]. *)
Fixpoint prog_try {A} (p : prog A) (h : exn -> prog A) : prog A :=
  match p with
  | Done (Ok a) => Done (Ok a)
  | Done (Raise e) => h e
  | Do c k => Do c (fun r => prog_try (k r) h)
  end.

Definition command (c : cmd) : prog reply := Do c Done.
Definition of_res {A} (r : res exn A) : prog A := Done r.

(** A reply of the kind its command gives. *)
Definition int_reply (r : reply) : prog Z :=
  match r with RInt n => mret n | _ => of_res (Raise TypeError) end.
Definition text_reply (r : reply) : prog (option string) :=
  match r with RText s => mret (Some s) | RNil => mret None | RInt _ => of_res (Raise TypeError) end.

(** ** The consumer *)

Definition MAX_ATTEMPTS : Z := 3.
Definition ATTEMPTS_TTL_SECONDS : Z := 7 * 24 * 60 * 60.

Definition processing_list (queue : string) : string := queue ++ ":processing".
Definition pending_key (key : string) : string := key ++ ":pending".

(** [message["private_id"]]. *)
Definition item (k : string) (message : Message) : res exn json :=
  match dict_get k message with Some v => Ok v | None => Raise KeyError end.

Class QueueEnv := {
  (* [orjson.loads]. *)
  loads : string -> option json;
  (* [str(e)]. *)
  error_text : exn -> string;
  (* [READ_CHUNK_BYTES], a positive constant. *)
  read_chunk_bytes : nat;
}.

Section consumer.
Context {Q : QueueEnv}.

Definition attempts_key (queue : string) (message : Message) : res exn string :=
  let key := dget "result_key" message in
  v ← (if py_truthy key then Ok key else item "private_id" message);
  Ok (queue ++ ":attempts:" ++ py_str v).

(** The key of a stored payload, as redis-py sends it: text or a number. *)
Definition redis_key (v : json) : res exn string :=
  match v with
  | JStr s => Ok s
  | JInt z => Ok (pretty z)
  | JFloat r => Ok r
  | _ => Raise (OtherException "DataError")
  end.

(** The chunks of a payload of [size] bytes from offset [length buf] on; [left]
    bounds the rounds, each of which adds at least a byte. *)
Fixpoint read_chunks (left : nat) (key : string) (size : nat) (buf : string) : prog (option string) :=
  if (String.length buf <? size)%nat then
    match left with
    | O => mret None
    | S left' =>
        r ← command (Getrange key (String.length buf) (String.length buf + read_chunk_bytes - 1));
        chunk ← text_reply r;
        match chunk with
        | None | Some "" => mret None
        | Some c => read_chunks left' key size (buf ++ c)
        end
    end
  else mret (Some buf).

Definition read_payload (key : string) : prog (option string) :=
  r ← command (Strlen key);
  size ← int_reply r;
  if (size =? 0)%Z then mret None
  else read_chunks (Z.to_nat size) key (Z.to_nat size) "".

(** [orjson.loads(blob)["result"]]. *)
Definition payload_result (blob : string) : res exn json :=
  match loads blob with
  | None => Raise (OtherException "JSONDecodeError")
  | Some (JObj d) => item "result" d
  | Some _ => Raise TypeError
  end.

Definition call_on_lost (queue raw : string) (message : Message) (reason : string) : prog unit :=
  _ ← command (OnLost queue raw message reason); mret tt.
Definition call_handler (queue raw : string) (message : Message) : prog unit :=
  _ ← command (Handle queue raw message); mret tt.

(** The body of the [try] in [handle_one]. *)
Definition attempt_message (queue raw : string) (message : Message) (key : json) (akey : string)
  : prog unit :=
  r ← command (Incr akey);
  attempts ← int_reply r;
  _ ← command (Expire akey ATTEMPTS_TTL_SECONDS);
  if (MAX_ATTEMPTS <? attempts)%Z then
    _ ← of_res (item "private_id" message);
    call_on_lost queue raw message ("gave up after " ++ pretty MAX_ATTEMPTS ++ " interrupted attempts")
  else match key with
  | JNull => call_handler queue raw message
  | _ =>
      k ← of_res (redis_key key);
      blob ← read_payload k;
      match blob with
      | None =>
          _ ← of_res (item "private_id" message);
          call_on_lost queue raw message
            ("result payload " ++ py_str key ++ " missing (evicted or expired)")
      | Some b =>
          result ← of_res (payload_result b);
          call_handler queue raw (dict_set "result" result message)
      end
  end.

(** Ack, then release: what runs after the [try]. *)
Definition release (queue raw : string) (key : json) (akey : string) : prog unit :=
  _ ← command (Lrem (processing_list queue) raw);
  _ ← command (Del [akey]);
  match key with
  | JNull => mret tt
  | _ =>
      let pending := pending_key (py_str key) in
      _ ← command (Srem pending queue);
      r ← command (Scard pending);
      n ← int_reply r;
      if (n =? 0)%Z then
        k ← of_res (redis_key key);
        _ ← command (Del [k; pending]);
        mret tt
      else mret tt
  end.

Definition handle_one (queue raw : string) : prog unit :=
  match loads raw with
  | None => of_res (Raise (OtherException "JSONDecodeError"))
  | Some (JObj message) =>
      let key := dget "result_key" message in
      akey ← of_res (attempts_key queue message);
      _ ← prog_try (attempt_message queue raw message key akey)
            (fun e => prog_try (call_on_lost queue raw message ("handler failed: " ++ error_text e))
                        (fun _ => mret tt));
      release queue raw key akey
  | Some _ => of_res (Raise AttributeError)
  end.

(** One round of [recover_in_flight]; [true] when a message was put back. *)
Definition recover_step (queue : string) : prog bool :=
  r ← command (Lmove (processing_list queue) queue RIGHT LEFT);
  moved ← text_reply r;
  mret (match moved with Some s => negb (String.eqb s "") | None => false end).

(** One round of [consume_result_queue]'s loop. *)
Definition serve_step (queue : string) : prog bool :=
  r ← command (Lmove queue (processing_list queue) LEFT RIGHT);
  raw ← text_reply r;
  match raw with
  | None => mret false
  | Some m => _ ← handle_one queue m; mret false
  end.

(** Where a consumer is: putting interrupted messages back, or serving. *)
Inductive phase := Recovering | Serving.

Definition start (queue : string) (ph : phase) : phase * prog bool :=
  match ph with
  | Recovering => (Recovering, recover_step queue)
  | Serving => (Serving, serve_step queue)
  end.

(** What follows a finished round: an exception reconnects and recovers. *)
Definition next_phase (ph : phase) (r : res exn bool) : phase :=
  match r, ph with
  | Raise _, _ => Recovering
  | Ok true, Recovering => Recovering
  | Ok _, _ => Serving
  end.

End consumer.

(** ** The interleaving *)

(** The queues of [message_queue_consumer]. *)
Definition RESULTS_QUEUE_NAME := "results_message_queue".
Definition UPLOAD_NOSTR_RESULTS_QUEUE_NAME := "nostr_results_message_queue".
Definition WRITE_NEO4J_RESULTS_QUEUE_NAME := "write_neo4j_message_queue".
Definition RESULT_QUEUES : list string :=
  [RESULTS_QUEUE_NAME; UPLOAD_NOSTR_RESULTS_QUEUE_NAME; WRITE_NEO4J_RESULTS_QUEUE_NAME].

(** What happened outside Redis: a callback was called for a message of a queue. *)
Inductive call :=
  | Handled (queue raw : string)
  | Lost (queue raw : string).

#[export] Instance call_eq_dec : EqDecision call.
Proof. solve_decision. Defined.

Definition call_of (c : cmd) : list call :=
  match c with
  | Handle q raw _ => [Handled q raw]
  | OnLost q raw _ _ => [Lost q raw]
  | _ => []
  end.

(** Redis, the consumers, the callbacks called so far; and, for the theorems,
    which messages were queued where, which payload keys the worker has used,
    which payloads Redis dropped on its own and which counters expired. *)
Record Sys := {
  store : Store;
  consumers : gmap string (phase * prog bool);
  calls : list call;
  queued : list (string * string);
  used : gset string;
  evicted : gset string;
  forgotten : gset string;
}.

Definition sys_with (s : Sys) (st : Store) (cs : gmap string (phase * prog bool)) (l : list call)
  : Sys :=
  {| store := st; consumers := cs; calls := l; queued := queued s; used := used s;
     evicted := evicted s; forgotten := forgotten s |}.

(** The worker, which is another program: it stores a payload under a key of its
    own, names the queues that need it and queues the envelope on each. *)
Definition produced (key raw payload : string) (s : Store) : Store :=
  {| lists := foldr (fun q m => <[q := (default [] (lists s !! q) ++ [raw])%list]> m)
                (lists s) RESULT_QUEUES;
     strings := <[key := payload]> (strings s);
     counters := counters s;
     sets := <[pending_key key := list_to_set RESULT_QUEUES]> (sets s) |}.

Section steps.
Context {Q : QueueEnv} (worker_key : string -> bool).

(** The payload key an envelope names. *)
Definition envelope_key (raw : string) : option string :=
  match loads raw with
  | Some (JObj m) => match dget "result_key" m with JStr k => Some k | _ => None end
  | _ => None
  end.

(** A message without a payload of its own; the id that names its attempts is
    not a payload's key. *)
Definition keyless (raw : string) : bool :=
  match loads raw with
  | Some (JObj m) =>
      match dget "result_key" m with
      | JNull => negb (worker_key (py_str (dget "private_id" m)))
      | _ => false
      end
  | _ => true
  end.

Inductive sys_step (s : Sys) : Sys -> Prop :=
  (* The worker queues a result: on every queue, or inline on one. *)
  | step_produce key raw payload :
      worker_key key = true -> key ∉ used s -> envelope_key raw = Some key ->
      sys_step s {| store := produced key raw payload (store s); consumers := consumers s;
                    calls := calls s;
                    queued := (((fun q => (q, raw)) <$> RESULT_QUEUES) ++ queued s)%list;
                    used := {[key]} ∪ used s; evicted := evicted s; forgotten := forgotten s |}
  | step_inline q raw :
      q ∈ RESULT_QUEUES -> keyless raw = true ->
      sys_step s {| store := with_lists (store s)
                               (<[q := (list_at (store s) q ++ [raw])%list]> (lists (store s)));
                    consumers := consumers s; calls := calls s; queued := (q, raw) :: queued s;
                    used := used s; evicted := evicted s; forgotten := forgotten s |}
  (* A consumer's next command: answered; failing before it is done; or done
     with the answer lost. *)
  | step_command q ph c k :
      consumers s !! q = Some (ph, Do c k) ->
      sys_step s (sys_with s (run_cmd c (store s)).2
                    (<[q := (ph, k (Ok (run_cmd c (store s)).1))]> (consumers s))
                    (call_of c ++ calls s))
  | step_failed q ph c k e :
      consumers s !! q = Some (ph, Do c k) ->
      sys_step s (sys_with s (store s) (<[q := (ph, k (Raise e))]> (consumers s))
                    (call_of c ++ calls s))
  | step_unanswered q ph c k e :
      consumers s !! q = Some (ph, Do c k) ->
      sys_step s (sys_with s (run_cmd c (store s)).2 (<[q := (ph, k (Raise e))]> (consumers s))
                    (call_of c ++ calls s))
  (* A round ends; a consumer is killed, or started, at any moment. *)
  | step_round q ph r :
      consumers s !! q = Some (ph, Done r) ->
      sys_step s (sys_with s (store s) (<[q := start q (next_phase ph r)]> (consumers s)) (calls s))
  | step_restart q :
      q ∈ RESULT_QUEUES ->
      sys_step s (sys_with s (store s) (<[q := start q Recovering]> (consumers s)) (calls s))
  (* Redis drops a payload, or an attempt counter expires. *)
  | step_evict key :
      sys_step s {| store := {| lists := lists (store s); strings := delete key (strings (store s));
                                counters := counters (store s); sets := sets (store s) |};
                    consumers := consumers s; calls := calls s; queued := queued s; used := used s;
                    evicted := {[key]} ∪ evicted s; forgotten := forgotten s |}
  | step_forget akey :
      sys_step s {| store := with_counters (store s) (delete akey (counters (store s)));
                    consumers := consumers s; calls := calls s; queued := queued s; used := used s;
                    evicted := evicted s; forgotten := {[akey]} ∪ forgotten s |}.

End steps.

(** Nothing queued and nobody running. *)
Definition idle : Sys := {|
  store := {| lists := ∅; strings := ∅; counters := ∅; sets := ∅ |};
  consumers := ∅; calls := []; queued := []; used := ∅; evicted := ∅; forgotten := ∅ |}.

(** What is queued or being worked on. *)
Definition outstanding (q : string) (s : Store) : list string :=
  (list_at s q ++ list_at s (processing_list q))%list.

(** *** A consumer alone, with every command answered *)

Fixpoint run_prog {A} (p : prog A) (s : Store) (l : list call) : res exn A * Store * list call :=
  match p with
  | Done r => (r, s, l)
  | Do c k => run_prog (k (Ok (run_cmd c s).1)) (run_cmd c s).2 (call_of c ++ l)
  end.

(** [n] rounds of a consumer, from a phase. *)
Fixpoint run_rounds {Q : QueueEnv} (n : nat) (q : string) (ph : phase) (s : Store) (l : list call)
  : phase * Store * list call :=
  match n with
  | O => (ph, s, l)
  | S n' =>
      let '(r, s', l') := run_prog (start q ph).2 s l in
      run_rounds n' q (next_phase ph r) s' l'
  end.
