(* ===== verification/ResultQueueProps.v ===== *)
(** * What the result queues promise

    Rely–guarantee over the interleaving of [ResultQueue]: a consumer carries a
    [claim] about the store that no other step can falsify, and [behaves] says
    that each of its commands is one its claim allows.  The theorems: nothing
    queued is lost, a payload outlives every queue's need of it, attempts are
    capped, a payload read in chunks is the payload, and a queue drains. *)

From Stdlib Require Import Ascii String.
From S2P Require Import Prelude Json ResultQueue.
Local Open Scope string_scope.

(** ** Names *)

(** What the server relies on: the worker's keys, and their pending sets, are
    named apart from the queues, and no key is the pending set of another. *)
Record worker_names (worker_key : string -> bool) : Prop := {
  names_apart : forall k q, worker_key k = true -> q ∈ RESULT_QUEUES ->
    String.prefix q (pending_key k) = false;
  names_pending : forall k, worker_key (pending_key k) = false;
  names_nonempty : worker_key "" = false;
}.

Section apart.
Context (worker_key : string -> bool) (W : worker_names worker_key).
Implicit Types q k : string.

Lemma key_not_queue q y k : q ∈ RESULT_QUEUES -> worker_key k = true -> k <> q ++ y.
Proof using W.
  intros Hq Hk ->. pose proof (names_apart _ W _ _ Hk Hq) as Hp.
  unfold pending_key in Hp. by rewrite (prefix_weaken q (q ++ y)) in Hp by apply prefix_app.
Qed.

Lemma pending_not_queue q y k : q ∈ RESULT_QUEUES -> worker_key k = true -> pending_key k <> q ++ y.
Proof using W.
  intros Hq Hk E. pose proof (names_apart _ W _ _ Hk Hq) as Hp.
  rewrite E in Hp. by rewrite prefix_app in Hp.
Qed.

Lemma key_not_pending k k' : worker_key k = true -> k <> pending_key k'.
Proof using W. intros Hk ->. by rewrite (names_pending _ W) in Hk. Qed.

Lemma pending_inj k k' : pending_key k = pending_key k' -> k = k'.
Proof using. apply append_inj_r. Qed.

(** Two queues share no key. *)
Lemma queues_apart q q' y y' :
  q ∈ RESULT_QUEUES -> q' ∈ RESULT_QUEUES -> q <> q' -> q ++ y <> q' ++ y'.
Proof using.
  unfold RESULT_QUEUES. intros Hq Hq' Hne.
  repeat (apply elem_of_cons in Hq as [->|Hq]); try (by apply elem_of_nil in Hq);
    repeat (apply elem_of_cons in Hq' as [->|Hq']); try (by apply elem_of_nil in Hq');
    try done; discriminate.
Qed.
End apart.

(** ** Claims *)

(** How a message's attempts are counted. *)
Definition counter_name (q k : string) : string := q ++ ":attempts:" ++ k.

(** What a consumer knows while it works on a message: it took it (and, once
    counted, which attempt this is; and whether a callback was called), it has
    acknowledged it, it saw that no queue needs the payload. *)
Inductive claim :=
  | Nothing
  | Holding (raw : string) (counted : option Z) (called : bool)
  | Acked (raw : string)
  | Drained (raw : string).

Section claims.
Context {Q : QueueEnv} (worker_key : string -> bool).

Definition akey_of (q raw : string) : option string :=
  match loads raw with
  | Some (JObj m) => match attempts_key q m with Ok a => Some a | Raise _ => None end
  | _ => None
  end.

(** A message the worker may queue. *)
Definition fine (raw : string) : bool :=
  match envelope_key raw with Some k => worker_key k | None => keyless worker_key raw end.

Definition permitted (q : string) (cl : claim) (c : cmd) : Prop :=
  match c with
  | Lmove a b f t =>
      cl = Nothing /\ ((a = q /\ b = processing_list q /\ f = LEFT /\ t = RIGHT)
                      \/ (a = processing_list q /\ b = q /\ f = RIGHT /\ t = LEFT))
  | Incr a => exists raw, cl = Holding raw None false /\ akey_of q raw = Some a /\ fine raw = true
  | Expire _ _ | Strlen _ | Getrange _ _ _ | Scard _ => True
  | Lrem k v => k = processing_list q /\ exists n, cl = Holding v n true
  | Del ks =>
      (exists raw a, cl = Acked raw /\ ks = [a] /\ akey_of q raw = Some a /\ fine raw = true)
      \/ (exists raw k, cl = Drained raw /\ envelope_key raw = Some k /\ ks = [k; pending_key k]
                       /\ worker_key k = true)
  | Srem p v =>
      v = q /\ exists raw k, cl = Acked raw /\ envelope_key raw = Some k /\ p = pending_key k
                            /\ worker_key k = true
  | Handle q' raw _ => q' = q /\ exists n, cl = Holding raw (Some n) false /\ (n <= MAX_ATTEMPTS)%Z
  | OnLost q' raw _ _ => q' = q /\ exists n b, cl = Holding raw n b
  end.

Definition next (q : string) (cl : claim) (c : cmd) (r : res exn reply) : claim :=
  match c, cl, r with
  | Lmove a _ _ _, _, Ok (RText m) => if String.eqb a q then Holding m None false else Nothing
  | Incr _, Holding raw _ b, Ok (RInt n) => Holding raw (Some n) b
  | (Handle _ _ _ | OnLost _ _ _ _), Holding raw _ _, _ => Holding raw None true
  | Lrem _ _, Holding raw _ _, Ok _ => Acked raw
  | Lrem _ _, _, Raise _ => Nothing
  | Scard p, Acked raw, Ok (RInt 0) =>
      if decide (pending_key <$> envelope_key raw = Some p) then Drained raw else cl
  | _, _, _ => cl
  end.

(** What a queue hands out is what the worker may queue. *)
Definition credible (c : cmd) (r : res exn reply) : Prop :=
  match c, r with Lmove _ _ _ _, Ok (RText m) => fine m = true | _, _ => True end.

Fixpoint behaves {A} (q : string) (cl : claim) (p : prog A) (post : res exn A -> claim -> Prop)
  : Prop :=
  match p with
  | Done r => post r cl
  | Do c k => permitted q cl c /\ forall r, credible c r -> behaves q (next q cl c r) (k r) post
  end.

Lemma behaves_mono {A} q cl (p : prog A) (P P' : res exn A -> claim -> Prop) :
  behaves q cl p P -> (forall r c, P r c -> P' r c) -> behaves q cl p P'.
Proof using.
  intros Hp HPP. revert cl Hp. induction p as [r|c k IH]; simpl; [auto|].
  intros cl [Hc Hk]. split; [done|]. intros r Hr. by apply IH, Hk.
Qed.

Lemma behaves_bind {A B} q cl (p : prog A) (f : A -> prog B) P :
  behaves q cl p (fun r c => match r with
                             | Ok a => behaves q c (f a) P
                             | Raise e => P (Raise e) c end) ->
  behaves q cl (p ≫= f) P.
Proof using.
  revert cl. induction p as [[a|e]|c k IH]; simpl; [done|done|].
  intros cl [Hc Hk]. split; [done|]. intros r Hr. by apply IH, Hk.
Qed.

Lemma behaves_try {A} q cl (p : prog A) (h : exn -> prog A) P :
  behaves q cl p (fun r c => match r with
                             | Ok a => P (Ok a) c
                             | Raise e => behaves q c (h e) P end) ->
  behaves q cl (prog_try p h) P.
Proof using.
  revert cl. induction p as [[a|e]|c k IH]; simpl; [done|done|].
  intros cl [Hc Hk]. split; [done|]. intros r Hr. by apply IH, Hk.
Qed.

Lemma behaves_command q cl c P :
  permitted q cl c -> (forall r, credible c r -> P r (next q cl c r)) -> behaves q cl (command c) P.
Proof using. simpl. auto. Qed.

Lemma behaves_of_res {A} q cl (r : res exn A) P : P r cl -> behaves q cl (of_res r) P.
Proof using. done. Qed.

(** ** The consumer keeps to its claims *)

(** Reading a payload changes no claim. *)
Lemma behaves_read_chunks q cl left key size buf :
  behaves q cl (read_chunks left key size buf) (fun _ c => c = cl).
Proof using.
  revert buf. induction left as [|left IH]; intros buf; simpl;
    destruct (String.length buf <? size)%nat; try done.
  split; [done|]. intros [[| |chunk]|e] _; simpl; try done.
  destruct chunk as [|x chunk]; [done|]. apply IH.
Qed.

Lemma behaves_read_payload q cl key : behaves q cl (read_payload key) (fun _ c => c = cl).
Proof using.
  apply behaves_bind, behaves_command; [done|]. intros [[|n|]|e] _; simpl; try done.
  destruct (n =? 0)%Z; [done|]. apply behaves_read_chunks.
Qed.

Lemma behaves_on_lost q raw n b m reason :
  behaves q (Holding raw n b) (call_on_lost q raw m reason) (fun _ c => c = Holding raw None true).
Proof using.
  apply behaves_bind, behaves_command; [simpl; eauto|]. by intros [?|?] _.
Qed.

Lemma behaves_handler q raw n m :
  (n <= MAX_ATTEMPTS)%Z ->
  behaves q (Holding raw (Some n) false) (call_handler q raw m) (fun _ c => c = Holding raw None true).
Proof using.
  intros Hn. apply behaves_bind, behaves_command; [simpl; eauto|]. by intros [?|?] _.
Qed.

(** After the [try] body a callback was called, or an exception is on its way to
    [on_lost]. *)
Definition attempted (raw : string) (r : res exn unit) (c : claim) : Prop :=
  exists n b, c = Holding raw n b /\ (is_ok r = true -> b = true).

Lemma behaves_lost q raw n b m reason :
  behaves q (Holding raw n b) (call_on_lost q raw m reason) (attempted raw).
Proof using.
  eapply behaves_mono; [apply behaves_on_lost|]. intros r c ->. unfold attempted. eauto.
Qed.

Lemma attempted_raise raw e n b : attempted raw (Raise e) (Holding raw n b).
Proof using. by exists n, b. Qed.

Lemma behaves_attempt q raw m key akey :
  akey_of q raw = Some akey -> fine raw = true ->
  behaves q (Holding raw None false) (attempt_message q raw m key akey) (attempted raw).
Proof using.
  intros Ha Hf. unfold attempt_message.
  apply behaves_bind, behaves_command; [simpl; eauto|].
  intros [[|n|]|e] _; try apply attempted_raise.
  apply behaves_bind, behaves_of_res, behaves_bind, behaves_command; [done|].
  intros [?|e] _; [|apply attempted_raise].
  destruct (MAX_ATTEMPTS <? n)%Z eqn:Hn.
  - apply behaves_bind, behaves_of_res. destruct (item _ _); [apply behaves_lost|apply attempted_raise].
  - apply Z.ltb_ge in Hn.
    assert (Hh : forall m', behaves q (Holding raw (Some n) false) (call_handler q raw m') (attempted raw)).
    { intros m'. eapply behaves_mono; [by apply behaves_handler|].
      intros r' c ->. unfold attempted. eauto. }
    destruct key; try apply Hh;
      (apply behaves_bind, behaves_of_res; destruct (redis_key _) as [k|e]; [|apply attempted_raise];
       apply behaves_bind; eapply behaves_mono; [apply behaves_read_payload|];
       intros [[blob|]|e] c ->; [| |apply attempted_raise];
       apply behaves_bind, behaves_of_res; [destruct (payload_result blob)|destruct (item _ _)];
       try apply Hh; try apply behaves_lost; apply attempted_raise).
Qed.

Lemma envelope_key_of raw m :
  loads raw = Some (JObj m) ->
  envelope_key raw = match dget "result_key" m with JStr k => Some k | _ => None end.
Proof using. unfold envelope_key. by intros ->. Qed.

(** The payload's key of a message the worker may queue is text or absent. *)
Lemma fine_key raw m :
  loads raw = Some (JObj m) -> fine raw = true ->
  dget "result_key" m = JNull
  \/ exists k, dget "result_key" m = JStr k /\ envelope_key raw = Some k /\ worker_key k = true.
Proof using.
  intros Hl. unfold fine, keyless. rewrite (envelope_key_of _ _ Hl), Hl.
  destruct (dget "result_key" m); try done; eauto.
Qed.

Lemma behaves_release q raw m akey :
  loads raw = Some (JObj m) -> akey_of q raw = Some akey -> fine raw = true ->
  forall n, behaves q (Holding raw n true) (release q raw (dget "result_key" m) akey) (fun _ _ => True).
Proof using.
  intros Hl Ha Hf n. unfold release.
  apply behaves_bind, behaves_command; [simpl; eauto|]. intros [?|e] _; simpl; [|done].
  split; [left; eauto 6|]. intros [?|e] _; simpl; [|done].
  destruct (fine_key _ _ Hl Hf) as [->|(k & -> & He & Hk)]; [done|].
  change (py_str (JStr k)) with k. simpl.
  split; [eauto 8|]. intros [?|e] _; simpl; [|done].
  split; [done|]. intros [[|z|]|e] _; simpl; try done.
  destruct (Z.eqb_spec z 0) as [->|Hz]; [|done]. simpl. rewrite He.
  rewrite decide_True by done. simpl.
  split; [right; eauto 8|]. by intros [?|e] _.
Qed.

Lemma behaves_handle_one q raw :
  fine raw = true -> behaves q (Holding raw None false) (handle_one q raw) (fun _ _ => True).
Proof using.
  intros Hf. unfold handle_one. destruct (loads raw) as [[]|] eqn:Hl; try done.
  apply behaves_bind, behaves_of_res. destruct (attempts_key q d) as [a|e] eqn:Ha; [|done].
  assert (Hak : akey_of q raw = Some a) by (unfold akey_of; by rewrite Hl, Ha).
  apply behaves_bind, behaves_try. eapply behaves_mono; [by apply behaves_attempt|].
  intros r c (n & b & -> & Hb). destruct r as [u|e].
  - rewrite (Hb eq_refl). by apply behaves_release.
  - apply behaves_try. eapply behaves_mono; [apply behaves_on_lost|].
    intros [u|e'] c ->; simpl; by apply behaves_release.
Qed.

Lemma behaves_round q ph : behaves q Nothing (start q ph).2 (fun _ _ => True).
Proof using.
  destruct ph; apply behaves_bind, behaves_command; try (simpl; by auto 6).
  - by intros [[]|] _.
  - intros [[|n|raw]|e] Hc; try done. simpl. rewrite String.eqb_refl.
    apply behaves_bind. eapply behaves_mono; [by apply behaves_handle_one|].
    by intros [?|?] c _.
Qed.

End claims.

(** ** The invariant *)

Definition count {A} `{EqDecision A} (x : A) (l : list A) : nat := length (filter (eq x) l).

Lemma count_app {A} `{EqDecision A} (x : A) l l' : count x (l ++ l') = (count x l + count x l')%nat.
Proof. unfold count. by rewrite list.filter_app, length_app. Qed.

Lemma count_nil {A} `{EqDecision A} (x : A) : count x [] = 0%nat.
Proof. done. Qed.

Lemma count_cons {A} `{EqDecision A} (x y : A) l :
  count x (y :: l) = ((if decide (x = y) then 1 else 0) + count x l)%nat.
Proof. unfold count. rewrite filter_cons. by case_decide. Qed.

#[export] Instance count_proper {A} `{EqDecision A} (x : A) : Proper (Permutation ==> eq) (count x).
Proof. intros l l' E. unfold count. by rewrite E. Qed.

Lemma remove_first_perm v l : v ∈ l -> l ≡ₚ v :: remove_first v l.
Proof.
  induction l as [|x l IH]; [by intros ?%elem_of_nil|]. simpl.
  intros Hv. destruct (String.eqb_spec x v) as [->|Hne]; [done|].
  apply elem_of_cons in Hv as [->|Hv]; [done|]. rewrite (IH Hv) at 1. apply Permutation_swap.
Qed.

Lemma remove_first_absent v l : v ∉ l -> remove_first v l = l.
Proof.
  induction l as [|x l IH]; simpl; [done|]. intros [Hne Hl]%not_elem_of_cons.
  destruct (String.eqb_spec x v); [congruence|]. by rewrite IH.
Qed.

(** Moving the last or first element of one list to another end. *)
Lemma pop_side_perm d l x rest : pop_side d l = Some (x, rest) -> l ≡ₚ x :: rest.
Proof.
  destruct d; simpl; [by destruct l; intros [= <- <-]|].
  destruct (reverse l) as [|y r] eqn:E; [done|]. intros [= <- <-].
  rewrite <- (reverse_involutive l), E, reverse_cons. by rewrite Permutation_app_comm.
Qed.

Lemma push_side_perm d x l : push_side d x l ≡ₚ x :: l.
Proof. destruct d; simpl; [done|]. by rewrite Permutation_app_comm. Qed.

Section invariant.
Context {Q : QueueEnv} (worker_key : string -> bool) (W : worker_names worker_key).
Notation fine := (fine worker_key).
Notation permitted := (permitted worker_key).
Notation credible := (credible worker_key).
Notation behaves := (behaves worker_key).

Definition ctr (st : Store) (q k : string) : Z := default 0%Z (counters st !! counter_name q k).
Definition pend (st : Store) (k : string) : gset string := set_at st (pending_key k).

(** The outstanding messages of a queue that need a payload. *)
Definition keyed (q k : string) (st : Store) : list string :=
  filter (fun raw => envelope_key raw = Some k) (outstanding q st).

Definition n_calls (q raw : string) (l : list call) : nat :=
  (count (Handled q raw) l + count (Lost q raw) l)%nat.

Definition holds (q : string) (s : Sys) (cl : claim) : Prop :=
  match cl with
  | Nothing => True
  | Holding raw n called =>
      raw ∈ list_at (store s) (processing_list q)
      /\ (called = true ->
          count (q, raw) (queued s) < count raw (outstanding q (store s)) + n_calls q raw (calls s))%nat
      /\ (forall z k, n = Some z -> envelope_key raw = Some k ->
          counter_name q k ∈ forgotten s
          \/ (Z.of_nat (count (Handled q raw) (calls s)) < z <= ctr (store s) q k)%Z)
  | Acked raw => forall k, envelope_key raw = Some k -> k ∈ used s /\ keyed q k (store s) = []
  | Drained raw => forall k, envelope_key raw = Some k -> k ∈ used s /\ pend (store s) k = ∅
  end.

Record QInv (s : Sys) : Prop := {
  inv_keys : forall k, k ∈ used s -> worker_key k = true;
  inv_used : forall q raw k, q ∈ RESULT_QUEUES -> raw ∈ outstanding q (store s) ->
    envelope_key raw = Some k -> k ∈ used s;
  inv_fine : forall q raw, q ∈ RESULT_QUEUES -> raw ∈ outstanding q (store s) -> fine raw = true;
  inv_once : forall q k, q ∈ RESULT_QUEUES -> (length (keyed q k (store s)) <= 1)%nat;
  inv_pend : forall q raw k, q ∈ RESULT_QUEUES -> raw ∈ outstanding q (store s) ->
    envelope_key raw = Some k -> q ∈ pend (store s) k;
  inv_pay : forall q raw k, q ∈ RESULT_QUEUES -> raw ∈ outstanding q (store s) ->
    envelope_key raw = Some k -> is_Some (strings (store s) !! k) \/ k ∈ evicted s;
  inv_kept : forall q raw, q ∈ RESULT_QUEUES ->
    (count (q, raw) (queued s) <= count raw (outstanding q (store s)) + n_calls q raw (calls s))%nat;
  inv_counters : forall a n, counters (store s) !! a = Some n -> (0 <= n)%Z;
  inv_unused : forall q raw k, envelope_key raw = Some k -> k ∉ used s ->
    count (Handled q raw) (calls s) = 0%nat;
  inv_attempts : forall q raw k, q ∈ RESULT_QUEUES -> envelope_key raw = Some k ->
    counter_name q k ∉ forgotten s ->
    (Z.of_nat (count (Handled q raw) (calls s)) <= MAX_ATTEMPTS)%Z
    /\ (raw ∈ outstanding q (store s) ->
        Z.of_nat (count (Handled q raw) (calls s)) <= ctr (store s) q k)%Z;
  inv_consumers : forall q ph p, consumers s !! q = Some (ph, p) ->
    q ∈ RESULT_QUEUES /\ exists cl, behaves q cl p (fun _ _ => True) /\ holds q s cl;
}.

(** What a command of [q]'s consumer may change; [gone] is what it acknowledged. *)
Record guarantee (q : string) (gone : list string) (st st' : Store) : Prop := {
  g_gone : outstanding q st ≡ₚ gone ++ outstanding q st';
  g_other : forall q', q' ∈ RESULT_QUEUES -> q' <> q ->
    list_at st' q' = list_at st q' /\ list_at st' (processing_list q') = list_at st (processing_list q');
  g_pend_less : forall k, worker_key k = true -> pend st' k ⊆ pend st k;
  g_pend : forall k q', worker_key k = true -> q' ∈ RESULT_QUEUES -> q' ∈ pend st k ->
    q' ∈ pend st' k \/ keyed q' k st' = [];
  g_pay : forall k, worker_key k = true -> is_Some (strings st !! k) ->
    is_Some (strings st' !! k) \/ forall q', q' ∈ RESULT_QUEUES -> keyed q' k st' = [];
  g_ctr_other : forall q' k, q' ∈ RESULT_QUEUES -> q' <> q -> ctr st' q' k = ctr st q' k;
  g_ctr : forall k, worker_key k = true -> (ctr st q k <= ctr st' q k)%Z \/ keyed q k st' = [];
  g_nonneg : (forall a n, counters st !! a = Some n -> (0 <= n)%Z) ->
    forall a n, counters st' !! a = Some n -> (0 <= n)%Z;
}.

Lemma guarantee_refl q st : guarantee q [] st st.
Proof using. clear W. split; intros; auto; try (left; done || lia); set_solver. Qed.

Lemma g_mine q gone st st' : guarantee q gone st st' -> outstanding q st' ⊆+ outstanding q st.
Proof using. intros G. rewrite (g_gone _ _ _ _ G). by apply submseteq_inserts_l. Qed.

Lemma keyed_nil q k st raw :
  keyed q k st = [] -> raw ∈ outstanding q st -> envelope_key raw = Some k -> False.
Proof using.
  unfold keyed. intros E Hin Hk. apply (elem_of_nil raw). rewrite <- E.
  by apply list_elem_of_filter.
Qed.

Lemma keyed_empty q k st :
  (forall raw, raw ∈ outstanding q st -> envelope_key raw <> Some k) -> keyed q k st = [].
Proof using.
  unfold keyed. induction (outstanding q st) as [|x l IH]; intros H; [done|].
  rewrite filter_cons_False by apply H, elem_of_cons, or_introl, eq_refl.
  apply IH. intros raw Hin. by apply H, elem_of_cons, or_intror.
Qed.

Lemma keyed_sub q k st st' : outstanding q st' ⊆+ outstanding q st -> keyed q k st' ⊆+ keyed q k st.
Proof using.
  unfold keyed. set (P := fun raw => envelope_key raw = Some k). intros [l E]%submseteq_Permutation.
  rewrite E, list.filter_app. by apply submseteq_inserts_r.
Qed.

(** *** Naming *)

Lemma akey_shape q raw a :
  fine raw = true -> akey_of q raw = Some a ->
  exists x, a = counter_name q x /\ (worker_key x = true -> envelope_key raw = Some x)
            /\ (forall k, envelope_key raw = Some k -> x = k).
Proof using W.
  unfold akey_of. destruct (loads raw) as [[]|] eqn:Hl; try done. intros Hf.
  unfold attempts_key. destruct (fine_key _ _ _ Hl Hf) as [Hn|(k & Hk & He & Hw)].
  - rewrite Hn. simpl. unfold item, dget in *. destruct (dict_get "private_id" d) as [v|] eqn:Hp; simpl; [|done].
    intros [= <-]. exists (py_str v). split; [done|].
    unfold ResultQueueProps.fine, keyless in Hf. rewrite (envelope_key_of _ _ Hl) in *. unfold dget in *.
    rewrite Hn, Hl, Hp in *. split; [|done]. intros Hw.
    rewrite Hn in Hf. change (negb (worker_key (py_str v)) = true) in Hf. by rewrite Hw in Hf.
  - rewrite Hk. simpl. destruct k as [|c k]; [by rewrite (names_nonempty _ W) in Hw|]. simpl.
    intros [= <-]. exists (String c k). rewrite He. split; [done|]. split; [done|]. intros k' E'; by simplify_eq.
Qed.

Lemma queue_app q : q = q ++ "".
Proof using. by rewrite append_nil_r. Qed.

(** The lists of a queue, its counters, the worker's keys and their pending sets
    are all named apart. *)
Lemma counter_not_list q q' x :
  q ∈ RESULT_QUEUES -> q' ∈ RESULT_QUEUES ->
  counter_name q x <> q' /\ counter_name q x <> processing_list q'.
Proof using.
  intros Hq Hq'. unfold counter_name, processing_list. destruct (decide (q = q')) as [<-|Hne].
  - rewrite (queue_app q) at 2. split; intros E%append_inj_l; discriminate.
  - rewrite (queue_app q') at 1. split; by apply queues_apart.
Qed.

Lemma list_not_key q k :
  q ∈ RESULT_QUEUES -> worker_key k = true ->
  k <> q /\ k <> processing_list q /\ pending_key k <> q /\ pending_key k <> processing_list q.
Proof using W.
  intros Hq Hk. unfold processing_list. rewrite (queue_app q) at 1 3.
  repeat split; (by eapply key_not_queue) || by eapply pending_not_queue.
Qed.

Lemma counter_inj q q' x x' :
  q ∈ RESULT_QUEUES -> q' ∈ RESULT_QUEUES -> counter_name q x = counter_name q' x' -> q = q' /\ x = x'.
Proof using.
  intros Hq Hq' E. unfold counter_name in E. destruct (decide (q = q')) as [<-|Hne].
  - by do 2 apply append_inj_l in E.
  - by apply queues_apart in E.
Qed.

Lemma counter_not_key q x k :
  q ∈ RESULT_QUEUES -> worker_key k = true -> k <> counter_name q x /\ pending_key k <> counter_name q x.
Proof using W. intros Hq Hk. split; [by eapply key_not_queue|by eapply pending_not_queue]. Qed.

Lemma queue_not_processing q q' : q ∈ RESULT_QUEUES -> q' ∈ RESULT_QUEUES -> q <> processing_list q'.
Proof using.
  intros Hq Hq'. unfold processing_list. rewrite (queue_app q).
  destruct (decide (q = q')) as [<-|Hne]; [intros E%append_inj_l; discriminate|by apply queues_apart].
Qed.

Lemma processing_inj q q' : processing_list q = processing_list q' -> q = q'.
Proof using. apply append_inj_r. Qed.

Lemma list_at_ne st k v x : x <> k -> list_at (with_lists st (<[k := v]> (lists st))) x = list_at st x.
Proof using. intros. unfold list_at. simpl. by rewrite lookup_insert_ne. Qed.

Lemma list_at_eq st k v : list_at (with_lists st (<[k := v]> (lists st))) k = v.
Proof using. unfold list_at. simpl. by rewrite lookup_insert_eq. Qed.

Lemma del_keys_other ks st x :
  x ∉ ks ->
  lists (del_keys ks st) !! x = lists st !! x /\ strings (del_keys ks st) !! x = strings st !! x
  /\ counters (del_keys ks st) !! x = counters st !! x /\ sets (del_keys ks st) !! x = sets st !! x.
Proof using.
  intros Hx. simpl. induction ks as [|y ks IH]; [done|].
  apply not_elem_of_cons in Hx as [Hne Hx]. simpl. rewrite !lookup_delete_ne by done. auto.
Qed.

Lemma del_keys_counters ks st x n : counters (del_keys ks st) !! x = Some n -> counters st !! x = Some n.
Proof using.
  simpl. induction ks as [|y ks IH]; simpl; [done|]. by intros [? ?]%lookup_delete_Some; auto.
Qed.

(** *** What each command changes *)

(** Only the lists of [q] changed. *)
Lemma guarantee_lists q gone st m :
  (forall q', q' ∈ RESULT_QUEUES -> q' <> q ->
     list_at (with_lists st m) q' = list_at st q'
     /\ list_at (with_lists st m) (processing_list q') = list_at st (processing_list q')) ->
  outstanding q st ≡ₚ gone ++ outstanding q (with_lists st m) ->
  guarantee q gone st (with_lists st m).
Proof using. clear W. intros Ho Hm. split; auto; intros; left; unfold ctr; simpl; done || lia. Qed.

Lemma outstanding_lmove q st a b f t :
  q ∈ RESULT_QUEUES -> permitted q Nothing (Lmove a b f t) ->
  outstanding q (run_cmd (Lmove a b f t) st).2 ≡ₚ outstanding q st
  /\ (forall x, x <> q -> x <> processing_list q -> list_at (run_cmd (Lmove a b f t) st).2 x = list_at st x)
  /\ exists m, (run_cmd (Lmove a b f t) st).2 = with_lists st m.
Proof using.
  intros Hq Hp. pose proof (queue_not_processing q q Hq Hq) as Hne. simpl.
  destruct (pop_side f (list_at st a)) as [[x rest]|] eqn:Hpop; simpl; cycle 1.
  { split; [done|]. split; [done|]. exists (lists st). by destruct st. }
  pose proof (pop_side_perm _ _ _ _ Hpop) as Hl. unfold outstanding.
  simpl in Hp. destruct Hp as [_ [(-> & -> & -> & ->)|(-> & -> & -> & ->)]];
    (split; [|split; [intros y Hy1 Hy2; by rewrite !list_at_ne|eauto]]).
  all: repeat first [rewrite list_at_eq | rewrite list_at_ne by done].
  all: rewrite push_side_perm, Hl; simpl; by rewrite Permutation_middle.
Qed.

Lemma guarantee_lmove q st a b f t :
  q ∈ RESULT_QUEUES -> permitted q Nothing (Lmove a b f t) ->
  guarantee q [] st (run_cmd (Lmove a b f t) st).2.
Proof using.
  intros Hq Hp. destruct (outstanding_lmove q st a b f t Hq Hp) as (Ho & Hx & m & Hm).
  rewrite Hm in *. apply guarantee_lists; [|by rewrite Ho].
  intros q' Hq' Hne. split; apply Hx; try done; try by apply queue_not_processing.
  - apply not_eq_sym. by apply queue_not_processing.
  - by intros ->%processing_inj.
Qed.

Lemma outstanding_lrem q st v :
  q ∈ RESULT_QUEUES -> v ∈ list_at st (processing_list q) ->
  outstanding q st ≡ₚ v :: outstanding q (run_cmd (Lrem (processing_list q) v) st).2.
Proof using.
  intros Hq Hv. unfold outstanding. simpl. rewrite list_at_eq, list_at_ne by by apply queue_not_processing.
  rewrite (remove_first_perm _ _ Hv) at 1. by rewrite Permutation_middle.
Qed.

Lemma guarantee_lrem q st v :
  q ∈ RESULT_QUEUES -> v ∈ list_at st (processing_list q) ->
  guarantee q [v] st (run_cmd (Lrem (processing_list q) v) st).2.
Proof using.
  intros Hq Hv. apply guarantee_lists.
  - intros q' Hq' Hne. rewrite !list_at_ne; [done| |by apply queue_not_processing].
    by intros ->%processing_inj.
  - exact (outstanding_lrem q st v Hq Hv).
Qed.

Lemma guarantee_incr q st x :
  q ∈ RESULT_QUEUES -> guarantee q [] st (run_cmd (Incr (counter_name q x)) st).2.
Proof using.
  intros Hq. clear W. split; try done; simpl; try (intros; by left).
  - intros q' k Hq' Hne. unfold ctr. simpl. rewrite lookup_insert_ne; [done|].
    by intros [-> _]%counter_inj.
  - intros k _. left. unfold ctr. simpl. destruct (decide (counter_name q x = counter_name q k)) as [<-|Hne].
    + rewrite lookup_insert_eq. simpl. lia.
    + by rewrite lookup_insert_ne.
  - intros Hn a n. rewrite lookup_insert_Some. intros [[<- <-]|[_ Ha]]; [|by eauto].
    destruct (counters st !! _) eqn:E; simpl; [apply Hn in E|]; lia.
Qed.

(** Deleting keys that are none of the queues' lists. *)
Lemma outstanding_del q ks st :
  q ∉ ks -> processing_list q ∉ ks ->
  list_at (del_keys ks st) q = list_at st q
  /\ list_at (del_keys ks st) (processing_list q) = list_at st (processing_list q).
Proof using.
  intros H1 H2. unfold list_at. destruct (del_keys_other ks st _ H1) as [-> _].
  by destruct (del_keys_other ks st _ H2) as [-> _].
Qed.

Lemma keyed_same q k st st' :
  list_at st' q = list_at st q /\ list_at st' (processing_list q) = list_at st (processing_list q) ->
  keyed q k st' = keyed q k st /\ outstanding q st' = outstanding q st.
Proof using. unfold keyed, outstanding. by intros [-> ->]. Qed.

Lemma guarantee_del_counter q st x :
  q ∈ RESULT_QUEUES -> (worker_key x = true -> keyed q x st = []) ->
  guarantee q [] st (del_keys [counter_name q x] st).
Proof using W.
  intros Hq Hx.
  assert (Hl : forall q', q' ∈ RESULT_QUEUES ->
    list_at (del_keys [counter_name q x] st) q' = list_at st q'
    /\ list_at (del_keys [counter_name q x] st) (processing_list q') = list_at st (processing_list q')).
  { intros q' Hq'. destruct (counter_not_list q q' x Hq Hq').
    apply outstanding_del; intros ?%list_elem_of_singleton; congruence. }
  assert (Hpend : forall k, worker_key k = true -> pend (del_keys [counter_name q x] st) k = pend st k).
  { intros k Hk. unfold pend, set_at. simpl. rewrite lookup_delete_ne; [done|].
    destruct (counter_not_key q x k Hq Hk); congruence. }
  split; try (intros; apply Hl; done).
  - by destruct (keyed_same q "" _ _ (Hl q Hq)) as [_ ->].
  - intros k Hk. by rewrite Hpend.
  - intros k q' Hk Hq' Hin. left. by rewrite Hpend.
  - intros k Hk Hs. left. simpl. rewrite lookup_delete_ne; [done|].
    destruct (counter_not_key q x k Hq Hk); congruence.
  - intros q' k Hq' Hne. unfold ctr. simpl. rewrite lookup_delete_ne; [done|].
    by intros [-> _]%counter_inj.
  - intros k Hk. destruct (decide (k = x)) as [->|Hne].
    + right. destruct (keyed_same q x _ _ (Hl q Hq)) as [-> _]. auto.
    + left. unfold ctr. simpl. rewrite lookup_delete_ne; [done|]. by intros [_ ->]%counter_inj.
  - intros Hn a n Ha. by eapply Hn, del_keys_counters.
Qed.

Lemma pend_srem st k k' q :
  pend (run_cmd (Srem (pending_key k) q) st).2 k' = if decide (k = k') then pend st k' ∖ {[q]} else pend st k'.
Proof using.
  unfold pend, set_at. simpl. case_decide as Hk.
  - subst. by rewrite lookup_insert_eq.
  - rewrite lookup_insert_ne; [done|]. by intros ->%pending_inj.
Qed.

Lemma guarantee_srem q st k :
  q ∈ RESULT_QUEUES -> keyed q k st = [] -> guarantee q [] st (run_cmd (Srem (pending_key k) q) st).2.
Proof using.
  intros Hq Hx. clear W. split; try done; try (intros; by left).
  - intros k' _. rewrite pend_srem. case_decide; set_solver.
  - intros k' q' _ Hq' Hin. rewrite pend_srem. case_decide as Hk; [subst k'|by left].
    destruct (decide (q' = q)) as [->|Hne]; [by right|left; set_solver].
Qed.

Lemma guarantee_del_payload q s k :
  QInv s -> q ∈ RESULT_QUEUES -> worker_key k = true -> pend (store s) k = ∅ ->
  guarantee q [] (store s) (del_keys [k; pending_key k] (store s)).
Proof using W.
  intros I Hq Hk Hp. set (st := store s).
  assert (Hl : forall q', q' ∈ RESULT_QUEUES ->
    list_at (del_keys [k; pending_key k] st) q' = list_at st q'
    /\ list_at (del_keys [k; pending_key k] st) (processing_list q') = list_at st (processing_list q')).
  { intros q' Hq'. destruct (list_not_key q' k Hq' Hk) as (?&?&?&?). apply outstanding_del; set_solver. }
  assert (Hc : forall q' x, q' ∈ RESULT_QUEUES -> ctr (del_keys [k; pending_key k] st) q' x = ctr st q' x).
  { intros q' x Hq'. unfold ctr. destruct (counter_not_key q' x k Hq' Hk).
    destruct (del_keys_other [k; pending_key k] st (counter_name q' x)) as (_&_&->&_); set_solver. }
  assert (Hpe : forall k', worker_key k' = true -> pend (del_keys [k; pending_key k] st) k' = pend st k').
  { intros k' Hk'. unfold pend, set_at. simpl. destruct (decide (k = k')) as [<-|Hne].
    - rewrite lookup_delete_ne, lookup_delete_eq by by apply (key_not_pending worker_key W). symmetry. exact Hp.
    - rewrite !lookup_delete_ne; [done| |by apply (key_not_pending worker_key W)]. by intros ->%pending_inj. }
  split; try (intros; apply Hl; done).
  - by destruct (keyed_same q "" _ _ (Hl q Hq)) as [_ ->].
  - intros k' Hk'. by rewrite Hpe.
  - intros k' q' Hk' Hq' Hin. left. by rewrite Hpe.
  - intros k' Hk' Hs. destruct (decide (k = k')) as [<-|Hne].
    + right. intros q' Hq'. destruct (keyed_same q' k _ _ (Hl q' Hq')) as [-> _].
      apply keyed_empty. intros raw Hin He.
      pose proof (inv_pend _ I _ _ _ Hq' Hin He) as Hb. rewrite Hp in Hb. set_solver.
    + left. simpl. rewrite !lookup_delete_ne; try done. apply not_eq_sym. by apply (key_not_pending worker_key W).
  - intros q' x Hq' _. by apply Hc.
  - intros x _. left. by rewrite Hc.
  - intros Hn a n Ha. by eapply Hn, del_keys_counters.
Qed.

(** *** A command preserves the invariant *)

Definition acked (c : cmd) : list string := match c with Lrem _ v => [v] | _ => [] end.

Lemma cmd_guarantee q s cl c :
  QInv s -> q ∈ RESULT_QUEUES -> permitted q cl c -> holds q s cl ->
  guarantee q (acked c) (store s) (run_cmd c (store s)).2.
Proof using W.
  intros I Hq Hp Hh. destruct c; try apply guarantee_refl.
  - destruct Hp as [-> Hp]. apply guarantee_lmove; [done|]. by split.
  - destruct Hp as (raw & -> & Ha & Hf). destruct (akey_shape _ _ _ Hf Ha) as (x & -> & _).
    by apply guarantee_incr.
  - destruct Hp as (-> & n & ->). apply guarantee_lrem; [done|]. by destruct Hh.
  - destruct Hp as [(raw & a & -> & -> & Ha & Hf)|(raw & kk & -> & He & -> & Hk)].
    + destruct (akey_shape _ _ _ Hf Ha) as (x & -> & Hx & _). apply guarantee_del_counter; [done|].
      intros Hw. by destruct (Hh x (Hx Hw)).
    + apply guarantee_del_payload; try done. by destruct (Hh kk He).
  - destruct Hp as (-> & raw & kk & -> & He & -> & Hk). apply guarantee_srem; [done|].
    by destruct (Hh kk He).
Qed.

(** A command is answered, fails undone, or is done with the answer lost. *)
Definition outcome (c : cmd) (st st' : Store) (r : res exn reply) : Prop :=
  (st' = st /\ exists e, r = Raise e)
  \/ (st' = (run_cmd c st).2 /\ (r = Ok (run_cmd c st).1 \/ exists e, r = Raise e)).

Lemma outcome_guarantee q s cl c st' r :
  QInv s -> q ∈ RESULT_QUEUES -> permitted q cl c -> holds q s cl -> outcome c (store s) st' r ->
  exists gone, (gone = [] \/ gone = acked c) /\ guarantee q gone (store s) st'.
Proof using W.
  intros I Hq Hp Hh [[-> _]|[-> _]]; eexists.
  - split; [by left|apply guarantee_refl].
  - split; [by right|by eapply cmd_guarantee].
Qed.

Lemma call_of_other q q' cl c raw :
  permitted q cl c -> q' <> q ->
  count (Handled q' raw) (call_of c) = 0%nat /\ count (Lost q' raw) (call_of c) = 0%nat.
Proof using.
  intros Hp Hne. destruct c; simpl in *; try done;
    destruct Hp as [-> _]; rewrite !count_cons; repeat case_decide; simplify_eq; auto.
Qed.

(** What another consumer claims stays true. *)
Lemma other_claim q q' s cl cl' c gone st' cs :
  QInv s -> q' ∈ RESULT_QUEUES -> q' <> q -> permitted q cl c -> guarantee q gone (store s) st' ->
  holds q' s cl' -> holds q' (sys_with s st' cs (call_of c ++ calls s)) cl'.
Proof using W.
  intros I Hq' Hne Hp G Hh.
  destruct (keyed_same q' "" _ _ (g_other _ _ _ _ G q' Hq' Hne)) as [_ Ho].
  destruct cl' as [|raw n called|raw|raw]; simpl in *; [done| | |].
  - destruct (call_of_other q q' cl c raw Hp Hne) as [H1 H2].
    rewrite (proj2 (g_other _ _ _ _ G q' Hq' Hne)), Ho. unfold n_calls in *. rewrite !count_app, H1, H2.
    destruct Hh as (Hin & Hc & Hn). split; [done|]. split; [auto|].
    intros z k Hz Hk. rewrite (g_ctr_other _ _ _ _ G) by done. auto.
  - intros k Hk. destruct (Hh k Hk) as [Hu He]. split; [done|].
    by destruct (keyed_same q' k _ _ (g_other _ _ _ _ G q' Hq' Hne)) as [-> _].
  - intros k Hk. destruct (Hh k Hk) as [Hu He]. split; [done|].
    pose proof (g_pend_less _ _ _ _ G k (inv_keys _ I _ Hu)). set_solver.
Qed.

(** A claim that is not about the attempt in progress survives what this
    consumer itself may change. *)
Lemma claim_kept q gone s cl st' cs l :
  QInv s -> guarantee q gone (store s) st' -> holds q s cl ->
  match cl with Holding _ _ _ => st' = store s /\ l = calls s | _ => True end ->
  holds q (sys_with s st' cs l) cl.
Proof using W.
  intros I G Hh Hsame. destruct cl as [|raw n called|raw|raw]; simpl in *; [done| | |].
  - by destruct Hsame as [-> ->].
  - intros k Hk. destruct (Hh k Hk) as [Hu He]. split; [done|].
    pose proof (keyed_sub q k _ _ (g_mine _ _ _ _ G)) as Hs. rewrite He in Hs.
    by apply submseteq_nil_r in Hs.
  - intros k Hk. destruct (Hh k Hk) as [Hu He]. split; [done|].
    pose proof (g_pend_less _ _ _ _ G k (inv_keys _ I _ Hu)). set_solver.
Qed.

Lemma in_outstanding q st raw : raw ∈ list_at st (processing_list q) -> raw ∈ outstanding q st.
Proof using. unfold outstanding. rewrite elem_of_app. by right. Qed.

Lemma claim_lmove q s a b f t cs st' r :
  q ∈ RESULT_QUEUES -> permitted q Nothing (Lmove a b f t) ->
  outcome (Lmove a b f t) (store s) st' r ->
  holds q (sys_with s st' cs (calls s)) (next q Nothing (Lmove a b f t) r).
Proof using.
  intros Hq [_ Hp] [[-> [e ->]]|[-> [->|[e ->]]]]; try done. simpl.
  destruct (pop_side f (list_at (store s) a)) as [[x rest]|] eqn:Hpop; [|done]. simpl.
  destruct (String.eqb_spec a q) as [->|]; [|done].
  destruct Hp as [(_ & -> & -> & ->)|(E & _)]; [|by apply queue_not_processing in E]. simpl.
  repeat split; try done. rewrite list_at_eq. apply elem_of_app. right. by apply list_elem_of_singleton.
Qed.

Lemma claim_incr q s raw a cs st' r :
  QInv s -> q ∈ RESULT_QUEUES -> permitted q (Holding raw None false) (Incr a) ->
  holds q s (Holding raw None false) -> outcome (Incr a) (store s) st' r ->
  holds q (sys_with s st' cs (calls s)) (next q (Holding raw None false) (Incr a) r).
Proof using W.
  intros I Hq (raw' & [= <-] & Ha & Hf) (Hin & _) Hout.
  assert (Hrefl : forall st, lists st = lists (store s) ->
    holds q (sys_with s st cs (calls s)) (Holding raw None false)).
  { intros st El. simpl. unfold list_at in *. by rewrite El. }
  destruct Hout as [[-> [e ->]]|[-> [->|[e ->]]]]; try by apply Hrefl.
  split; [done|]. split; [done|]. intros z k [= <-] Hk.
  destruct (akey_shape _ _ _ Hf Ha) as (x & -> & _ & Hx). rewrite (Hx k Hk).
  destruct (decide (counter_name q k ∈ forgotten s)) as [|Hnf]; [by left|right].
  destruct (inv_attempts _ I q raw k Hq Hk Hnf) as [_ Hc]. specialize (Hc (in_outstanding _ _ _ Hin)).
  unfold ctr in *. simpl. rewrite lookup_insert_eq. simpl. lia.
Qed.

Lemma claim_lrem q s raw n cs st' r :
  QInv s -> q ∈ RESULT_QUEUES -> holds q s (Holding raw n true) ->
  outcome (Lrem (processing_list q) raw) (store s) st' r ->
  holds q (sys_with s st' cs (calls s)) (next q (Holding raw n true) (Lrem (processing_list q) raw) r).
Proof using.
  intros I Hq (Hin & _) Hout.
  destruct Hout as [[-> [e ->]]|[-> [->|[e ->]]]]; try done.
  intros k Hk. split; [exact (inv_used _ I q raw k Hq (in_outstanding _ _ _ Hin) Hk)|].
  pose proof (inv_once _ I q k Hq) as H1. unfold keyed in *.
  rewrite (outstanding_lrem q _ _ Hq Hin), filter_cons_True in H1 by done. simpl in H1.
  apply length_zero_iff_nil. simpl. simpl in H1. lia.
Qed.

Lemma claim_call q s cl c cs r :
  QInv s -> q ∈ RESULT_QUEUES -> permitted q cl c -> holds q s cl -> call_of c <> [] ->
  holds q (sys_with s (store s) cs (call_of c ++ calls s)) (next q cl c r).
Proof using.
  intros I Hq Hp Hh Hc. destruct c as [| | | | | | | | |q' raw m|q' raw m reason]; try done.
  all: destruct Hp as (-> & Hp).
  1: destruct Hp as (n & -> & _). 2: destruct Hp as (n & b & ->).
  all: destruct Hh as (Hin & _); split; [done|]; split; [|done]; intros _.
  all: pose proof (inv_kept _ I q raw Hq); unfold n_calls in *; simpl.
  all: rewrite !count_cons; repeat case_decide; simplify_eq; simpl; lia.
Qed.

Lemma own_claim q s cl c cs st' r :
  QInv s -> q ∈ RESULT_QUEUES -> permitted q cl c -> holds q s cl -> outcome c (store s) st' r ->
  holds q (sys_with s st' cs (call_of c ++ calls s)) (next q cl c r).
Proof using W.
  intros I Hq Hp Hh Hout. destruct (outcome_guarantee _ _ _ _ _ _ I Hq Hp Hh Hout) as (gone & _ & G).
  assert (Hst : (run_cmd c (store s)).2 = store s -> st' = store s) by (destruct Hout as [[-> _]|[-> _]]; done).
  destruct c.
  - destruct Hp as [-> Hp]. apply claim_lmove; [done|by split|done].
  - destruct Hp as (raw & -> & Ha & Hf). apply claim_incr; try done. by exists raw.
  - rewrite Hst by done. exact Hh.
  - rewrite Hst by done. exact Hh.
  - rewrite Hst by done. exact Hh.
  - destruct Hp as (-> & n & ->). by apply claim_lrem.
  - eapply claim_kept; try done. by destruct Hp as [(? & ? & -> & _)|(? & ? & -> & _)].
  - eapply claim_kept; try done. by destruct Hp as (_ & ? & ? & -> & _).
  - specialize (Hst eq_refl). subst st'. destruct cl as [| |raw|]; try exact Hh.
    destruct Hout as [[_ [e ->]]|[_ [->|[e ->]]]]; try exact Hh. simpl.
    destruct (size (set_at (store s) k)) as [|n] eqn:Hs; [|exact Hh].
    simpl. case_decide as He; [|exact Hh]. intros k' Hk'. rewrite Hk' in He. injection He as <-.
    destruct (Hh k' Hk') as [Hu _]. split; [done|]. apply leibniz_equiv. by apply size_empty_inv.
  - rewrite Hst by done. by apply claim_call.
  - rewrite Hst by done. by apply claim_call.
Qed.

Lemma still_there q gone st st' q' raw :
  guarantee q gone st st' -> q' ∈ RESULT_QUEUES -> raw ∈ outstanding q' st' -> raw ∈ outstanding q' st.
Proof using.
  intros G Hq' Hin. destruct (decide (q' = q)) as [->|Hne].
  - by eapply elem_of_submseteq; [|eapply g_mine].
  - by destruct (keyed_same q' "" _ _ (g_other _ _ _ _ G q' Hq' Hne)) as [_ <-].
Qed.

Lemma keyed_less q gone st st' q' k :
  guarantee q gone st st' -> q' ∈ RESULT_QUEUES ->
  (length (keyed q' k st') <= length (keyed q' k st))%nat.
Proof using.
  intros G Hq'. destruct (decide (q' = q)) as [->|Hne].
  - by eapply submseteq_length, keyed_sub, g_mine.
  - by destruct (keyed_same q' k _ _ (g_other _ _ _ _ G q' Hq' Hne)) as [-> _].
Qed.

(** What an acknowledged message leaves behind: a call. *)
Lemma kept_command q s cl c gone st' q' raw :
  QInv s -> permitted q cl c -> holds q s cl -> gone = [] \/ gone = acked c ->
  guarantee q gone (store s) st' -> q' ∈ RESULT_QUEUES ->
  (count (q', raw) (queued s)
   <= count raw (outstanding q' st') + n_calls q' raw (call_of c ++ calls s))%nat.
Proof using.
  intros I Hp Hh Hg G Hq'. pose proof (inv_kept _ I q' raw Hq') as Hk.
  unfold n_calls in *. rewrite !count_app. destruct (decide (q' = q)) as [->|Hne].
  - rewrite (g_gone _ _ _ _ G), count_app in Hk.
    destruct Hg as [->| ->]; [rewrite count_nil in Hk; lia|].
    destruct c; try (simpl in Hk; rewrite ?count_nil in Hk; lia). simpl in *.
    destruct Hp as (-> & n & ->). destruct Hh as (_ & Hc & _). specialize (Hc eq_refl).
    rewrite (g_gone _ _ _ _ G), count_app in Hc. unfold n_calls in Hc.
    rewrite count_cons, count_nil in Hk, Hc.
    destruct (decide (raw = v)) as [->|Hr]; [rewrite decide_True in Hc by done|]; lia.
  - destruct (keyed_same q' "" _ _ (g_other _ _ _ _ G q' Hq' Hne)) as [_ ->]. lia.
Qed.

(** A handler is called only for a message that was queued, and counted. *)
Lemma handled_command q cl c q' raw l :
  permitted q cl c ->
  count (Handled q' raw) (call_of c ++ l) = count (Handled q' raw) l
  \/ (q' = q /\ exists n, cl = Holding raw (Some n) false /\ (n <= MAX_ATTEMPTS)%Z
      /\ count (Handled q' raw) (call_of c ++ l) = S (count (Handled q' raw) l)).
Proof using.
  intros Hp. destruct c as [| | | | | | | | |q1 raw1 m|q1 raw1 m reason]; try (by left).
  all: simpl; rewrite count_cons; case_decide as E; [|by left]; simplify_eq.
  destruct Hp as (-> & n & -> & Hn). right. eauto.
Qed.

Lemma attempts_command q s cl c gone st' q' raw k :
  QInv s -> q ∈ RESULT_QUEUES -> permitted q cl c -> holds q s cl -> guarantee q gone (store s) st' ->
  (call_of c = [] \/ st' = store s) ->
  q' ∈ RESULT_QUEUES -> envelope_key raw = Some k -> counter_name q' k ∉ forgotten s ->
  (Z.of_nat (count (Handled q' raw) (call_of c ++ calls s)) <= MAX_ATTEMPTS)%Z
  /\ (raw ∈ outstanding q' st' ->
      Z.of_nat (count (Handled q' raw) (call_of c ++ calls s)) <= ctr st' q' k)%Z.
Proof using W.
  intros I Hq Hp Hh G Hcs Hq' Hk Hnf. destruct (inv_attempts _ I q' raw k Hq' Hk Hnf) as [Hle Hctr].
  destruct (handled_command q cl c q' raw (calls s) Hp) as [E|(-> & n & -> & Hn & E)].
  - rewrite E. split; [done|]. intros Hin.
    pose proof (still_there _ _ _ _ _ _ G Hq' Hin) as Hin'. specialize (Hctr Hin').
    destruct (decide (q' = q)) as [->|Hne]; [|by rewrite (g_ctr_other _ _ _ _ G)].
    pose proof (inv_keys _ I _ (inv_used _ I _ _ _ Hq Hin' Hk)) as Hw.
    destruct (g_ctr _ _ _ _ G k Hw) as [|He]; [lia|]. by destruct (keyed_nil _ _ _ _ He Hin Hk).
  - destruct Hcs as [Hcs| ->]; [rewrite Hcs in E; simpl in E; lia|].
    destruct Hh as (_ & _ & Hz). destruct (Hz n k eq_refl Hk) as [|Hz']; [done|].
    rewrite E. split; [lia|]. intros _. lia.
Qed.

Lemma inv_command q s ph c f st' r :
  QInv s -> consumers s !! q = Some (ph, Do c f) -> outcome c (store s) st' r ->
  QInv (sys_with s st' (<[q := (ph, f r)]> (consumers s)) (call_of c ++ calls s)).
Proof using W.
  intros I Hc Hout. destruct (inv_consumers _ I _ _ _ Hc) as (Hq & cl & [Hp Hb] & Hh).
  destruct (outcome_guarantee _ _ _ _ _ _ I Hq Hp Hh Hout) as (gone & Hgone & G).
  split; simpl.
  - apply (inv_keys _ I).
  - intros q' raw k Hq' Hin. eapply (inv_used _ I); [done|by eapply still_there].
  - intros q' raw Hq' Hin. eapply (inv_fine _ I); [done|by eapply still_there].
  - intros q' k Hq'. etrans; [by eapply keyed_less|by apply (inv_once _ I)].
  - intros q' raw k Hq' Hin Hk. pose proof (still_there _ _ _ _ _ _ G Hq' Hin) as Hin'.
    destruct (g_pend _ _ _ _ G k q' (inv_keys _ I _ (inv_used _ I _ _ _ Hq' Hin' Hk)) Hq'
                (inv_pend _ I _ _ _ Hq' Hin' Hk)) as [|He]; [done|].
    by destruct (keyed_nil _ _ _ _ He Hin Hk).
  - intros q' raw k Hq' Hin Hk. pose proof (still_there _ _ _ _ _ _ G Hq' Hin) as Hin'.
    destruct (inv_pay _ I _ _ _ Hq' Hin' Hk) as [Hs|]; [|by right].
    destruct (g_pay _ _ _ _ G k (inv_keys _ I _ (inv_used _ I _ _ _ Hq' Hin' Hk)) Hs) as [|He]; [by left|].
    by destruct (keyed_nil _ _ _ _ (He q' Hq') Hin Hk).
  - intros q' raw Hq'. by eapply kept_command.
  - apply (g_nonneg _ _ _ _ G), (inv_counters _ I).
  - intros q' raw k Hk Hu. destruct (handled_command q cl c q' raw (calls s) Hp) as [->|(-> & n & -> & _)].
    + by eapply (inv_unused _ I).
    + destruct Hh as [Hin _]. destruct Hu. by eapply (inv_used _ I); [|apply in_outstanding|].
  - intros q' raw k Hq' Hk Hnf. eapply (attempts_command q s cl c gone); try done.
    destruct c; try (by left); right; destruct Hout as [[-> _]|[-> _]]; done.
  - intros q' ph' p' Hl. apply lookup_insert_Some in Hl as [[<- [= <- <-]]|[Hne Hl]].
    + split; [done|]. exists (next q cl c r). split; [|by apply own_claim].
      apply Hb. destruct Hout as [[_ [e ->]]|[_ [->|[e ->]]]]; [by destruct c| |by destruct c].
      destruct c as [a b from to| | | | | | | | | |]; try done. simpl.
      destruct (pop_side from (list_at (store s) a)) as [[x rest]|] eqn:Hpop; [|done]. simpl.
      apply (inv_fine _ I q); [done|]. unfold outstanding. rewrite elem_of_app.
      apply pop_side_perm in Hpop. destruct Hp as [_ [(-> & _)|(-> & _)]]; rewrite Hpop; set_solver.
    + destruct (inv_consumers _ I _ _ _ Hl) as (Hq' & cl' & Hb' & Hh'). split; [done|].
      exists cl'. split; [done|]. by eapply other_claim.
Qed.

(** *** The other steps *)

Lemma inv_turn q s p :
  QInv s -> q ∈ RESULT_QUEUES -> behaves q Nothing p.2 (fun _ _ => True) ->
  QInv (sys_with s (store s) (<[q := p]> (consumers s)) (calls s)).
Proof using.
  intros I Hq Hb. split; try apply I. simpl. intros q' ph' p' Hl.
  apply lookup_insert_Some in Hl as [[<- ->]|[_ Hl]]; [|by apply (inv_consumers _ I _ _ _ Hl)].
  split; [done|]. by exists Nothing.
Qed.

(** A message is added at the tail of some queues. *)
Record added (raw : string) (where_ : string -> bool) (s s' : Sys) : Prop := {
  add_consumers : consumers s' = consumers s;
  add_calls : calls s' = calls s;
  add_evicted : evicted s' = evicted s;
  add_forgotten : forgotten s' = forgotten s;
  add_used : used s ⊆ used s';
  add_keys : forall k, k ∈ used s' -> worker_key k = true;
  add_lists : forall q, q ∈ RESULT_QUEUES ->
    list_at (store s') q = (list_at (store s) q ++ if where_ q then [raw] else [])%list
    /\ list_at (store s') (processing_list q) = list_at (store s) (processing_list q);
  add_queued : forall q raw', q ∈ RESULT_QUEUES ->
    count (q, raw') (queued s')
    = (count (q, raw') (queued s) + if where_ q then if decide (raw' = raw) then 1 else 0 else 0)%nat;
  add_counters : counters (store s') = counters (store s);
  add_pend : forall k, k ∈ used s -> pend (store s') k = pend (store s) k;
  add_strings : forall k, k ∈ used s -> strings (store s') !! k = strings (store s) !! k;
  add_fine : fine raw = true;
  add_fresh : forall k, envelope_key raw = Some k ->
    k ∉ used s /\ k ∈ used s' /\ is_Some (strings (store s') !! k)
    /\ forall q, q ∈ RESULT_QUEUES -> q ∈ pend (store s') k;
}.

Lemma added_outstanding raw w s s' q :
  added raw w s s' -> q ∈ RESULT_QUEUES ->
  outstanding q (store s') ≡ₚ (if w q then [raw] else []) ++ outstanding q (store s).
Proof using.
  intros A Hq. unfold outstanding. destruct (add_lists _ _ _ _ A q Hq) as [-> ->].
  destruct (w q); [|by rewrite app_nil_r]. rewrite <- app_assoc. simpl. by rewrite <- Permutation_middle.
Qed.

Lemma added_keyed raw w s s' q k :
  added raw w s s' -> q ∈ RESULT_QUEUES -> k ∈ used s ->
  length (keyed q k (store s')) = length (keyed q k (store s)).
Proof using.
  intros A Hq Hk. unfold keyed. rewrite (added_outstanding _ _ _ _ _ A Hq).
  destruct (w q); [|done]. simpl. rewrite filter_cons_False; [done|].
  intros He. by destruct (add_fresh _ _ _ _ A k He).
Qed.

Lemma added_count raw w s s' q raw' :
  added raw w s s' -> q ∈ RESULT_QUEUES ->
  count raw' (outstanding q (store s'))
  = (count raw' (outstanding q (store s)) + if w q then if decide (raw' = raw) then 1 else 0 else 0)%nat.
Proof using.
  intros A Hq. rewrite (added_outstanding _ _ _ _ _ A Hq), count_app.
  destruct (w q); [rewrite count_cons, count_nil|rewrite count_nil]; lia.
Qed.

Lemma added_in raw w s s' q raw' :
  added raw w s s' -> q ∈ RESULT_QUEUES -> raw' ∈ outstanding q (store s') ->
  raw' = raw \/ raw' ∈ outstanding q (store s).
Proof using.
  intros A Hq. rewrite (added_outstanding _ _ _ _ _ A Hq). destruct (w q); [|by right].
  intros [->|]%elem_of_cons; auto.
Qed.

Lemma added_claim raw w s s' q cl :
  added raw w s s' -> q ∈ RESULT_QUEUES -> holds q s cl -> holds q s' cl.
Proof using.
  intros A Hq. destruct cl as [|raw' n called|raw'|raw']; simpl; [done| | |].
  - rewrite (proj2 (add_lists _ _ _ _ A q Hq)), (add_queued _ _ _ _ A _ _ Hq),
      (added_count _ _ _ _ _ _ A Hq), (add_calls _ _ _ _ A), (add_forgotten _ _ _ _ A).
    unfold ctr. rewrite (add_counters _ _ _ _ A).
    intros (Hin & Hc & Hz). split; [done|]. split; [|done]. intros Hb. specialize (Hc Hb). lia.
  - intros H k Hk. destruct (H k Hk) as [Hu He]. split; [by apply (add_used _ _ _ _ A)|].
    apply length_zero_iff_nil. by rewrite (added_keyed _ _ _ _ _ _ A Hq Hu), He.
  - intros H k Hk. destruct (H k Hk) as [Hu He]. split; [by apply (add_used _ _ _ _ A)|].
    by rewrite (add_pend _ _ _ _ A).
Qed.

Lemma inv_added raw w s s' : QInv s -> added raw w s s' -> QInv s'.
Proof using.
  intros I A. split.
  - apply (add_keys _ _ _ _ A).
  - intros q raw' k Hq [->|Hin]%(added_in _ _ _ _ _ _ A Hq) Hk; [by apply (add_fresh _ _ _ _ A)|].
    by apply (add_used _ _ _ _ A), (inv_used _ I q raw').
  - intros q raw' Hq [->|Hin]%(added_in _ _ _ _ _ _ A Hq); [apply (add_fine _ _ _ _ A)|].
    by apply (inv_fine _ I q).
  - intros q k Hq. destruct (decide (k ∈ used s)) as [Hk|Hk].
    { rewrite (added_keyed _ _ _ _ _ _ A Hq Hk). by apply (inv_once _ I). }
    unfold keyed. rewrite (added_outstanding _ _ _ _ _ A Hq), list.filter_app, length_app.
    assert (E : keyed q k (store s) = []).
    { apply keyed_empty. intros raw' Hin He. by apply Hk, (inv_used _ I q raw'). }
    unfold keyed in E. rewrite E. etrans; [apply Nat.add_le_mono_r, length_filter|].
    destruct (w q); simpl; lia.
  - intros q raw' k Hq [->|Hin]%(added_in _ _ _ _ _ _ A Hq) Hk; [by apply (add_fresh _ _ _ _ A)|].
    rewrite (add_pend _ _ _ _ A) by by apply (inv_used _ I q raw'). by apply (inv_pend _ I q raw').
  - intros q raw' k Hq [->|Hin]%(added_in _ _ _ _ _ _ A Hq) Hk; [by left; apply (add_fresh _ _ _ _ A)|].
    rewrite (add_strings _ _ _ _ A), (add_evicted _ _ _ _ A) by by apply (inv_used _ I q raw').
    by apply (inv_pay _ I q raw').
  - intros q raw' Hq. rewrite (add_queued _ _ _ _ A _ _ Hq), (added_count _ _ _ _ _ _ A Hq), (add_calls _ _ _ _ A).
    pose proof (inv_kept _ I q raw' Hq). lia.
  - rewrite (add_counters _ _ _ _ A). apply (inv_counters _ I).
  - intros q raw' k Hk Hu. rewrite (add_calls _ _ _ _ A). eapply (inv_unused _ I); [done|].
    intros Hu'. by apply Hu, (add_used _ _ _ _ A).
  - intros q raw' k Hq Hk. rewrite (add_calls _ _ _ _ A), (add_forgotten _ _ _ _ A). unfold ctr.
    rewrite (add_counters _ _ _ _ A). intros Hnf. destruct (inv_attempts _ I q raw' k Hq Hk Hnf) as [Hle Hc].
    split; [done|]. intros [->|Hin]%(added_in _ _ _ _ _ _ A Hq); [|by apply Hc].
    rewrite (inv_unused _ I q raw k Hk) by by apply (add_fresh _ _ _ _ A).
    destruct (counters (store s) !! counter_name q k) eqn:E; [by apply (inv_counters _ I) in E|done].
  - rewrite (add_consumers _ _ _ _ A). intros q ph p Hl.
    destruct (inv_consumers _ I _ _ _ Hl) as (Hq & cl & Hb & Hh). split; [done|].
    exists cl. split; [done|]. by eapply added_claim.
Qed.

Lemma produced_lists q key raw payload st :
  q ∈ RESULT_QUEUES ->
  list_at (produced key raw payload st) q = (list_at st q ++ [raw])%list
  /\ list_at (produced key raw payload st) (processing_list q) = list_at st (processing_list q).
Proof using.
  unfold list_at, RESULT_QUEUES. intros Hq. simpl.
  repeat (apply elem_of_cons in Hq as [->|Hq]); try (by apply elem_of_nil in Hq);
    by repeat first [rewrite lookup_insert_eq | rewrite lookup_insert_ne by discriminate].
Qed.

Lemma fine_envelope raw k : envelope_key raw = Some k -> worker_key k = true -> fine raw = true.
Proof using. unfold ResultQueueProps.fine. by intros ->. Qed.

Lemma keyless_envelope raw : keyless worker_key raw = true -> envelope_key raw = None.
Proof using.
  unfold keyless, envelope_key. destruct (loads raw) as [[]|]; try done. by destruct (dget "result_key" d).
Qed.

Lemma inv_produce s key raw payload :
  QInv s -> worker_key key = true -> key ∉ used s -> envelope_key raw = Some key ->
  QInv {| store := produced key raw payload (store s); consumers := consumers s; calls := calls s;
          queued := (((fun q => (q, raw)) <$> RESULT_QUEUES) ++ queued s)%list;
          used := {[key]} ∪ used s; evicted := evicted s; forgotten := forgotten s |}.
Proof using.
  intros I Hk Hu He. apply (inv_added raw (fun _ => true) s); [done|]. split; try done; simpl.
  - apply union_subseteq_r.
  - intros k [->%elem_of_singleton|Hin]%elem_of_union; [done|by apply (inv_keys _ I)].
  - intros q Hq. by apply produced_lists.
  - intros q raw' Hq. rewrite !count_cons. unfold RESULT_QUEUES in Hq.
    repeat (apply elem_of_cons in Hq as [->|Hq]); try (by apply elem_of_nil in Hq);
      repeat case_decide; simplify_eq; lia.
  - intros k Hin. unfold pend, set_at. simpl. rewrite lookup_insert_ne; [done|].
    by intros ->%pending_inj.
  - intros k Hin. rewrite lookup_insert_ne; [done|]. by intros ->.
  - by eapply fine_envelope.
  - intros k E. rewrite He in E. injection E as <-. split; [done|]. split; [|split].
    + by apply elem_of_union_l, elem_of_singleton.
    + rewrite lookup_insert_eq. by eexists.
    + intros q Hq. apply (elem_of_list_to_set (C:=gset string)) in Hq.
      unfold pend, set_at. simpl. rewrite lookup_insert_eq. exact Hq.
Qed.

Lemma inv_inline s q raw :
  QInv s -> q ∈ RESULT_QUEUES -> keyless worker_key raw = true ->
  QInv {| store := with_lists (store s) (<[q := (list_at (store s) q ++ [raw])%list]> (lists (store s)));
          consumers := consumers s; calls := calls s; queued := (q, raw) :: queued s;
          used := used s; evicted := evicted s; forgotten := forgotten s |}.
Proof using.
  intros I Hq Hk. pose proof (keyless_envelope raw Hk) as He.
  apply (inv_added raw (fun q' => bool_decide (q' = q)) s); [done|]. split; try done; simpl.
  - apply (inv_keys _ I).
  - intros q' Hq'. rewrite (list_at_ne _ _ _ (processing_list q')) by
      (apply not_eq_sym; by apply queue_not_processing). split; [|done].
    case_bool_decide as E; [subst; by rewrite list_at_eq|]. by rewrite list_at_ne, app_nil_r.
  - intros q' raw' Hq'. rewrite count_cons. case_bool_decide; repeat case_decide; simplify_eq; lia.
  - unfold ResultQueueProps.fine. by rewrite He.
  - intros k. by rewrite He.
Qed.

Lemma inv_evict s key :
  QInv s ->
  QInv {| store := {| lists := lists (store s); strings := delete key (strings (store s));
                      counters := counters (store s); sets := sets (store s) |};
          consumers := consumers s; calls := calls s; queued := queued s; used := used s;
          evicted := {[key]} ∪ evicted s; forgotten := forgotten s |}.
Proof using.
  intros I. split; try apply I. simpl. intros q raw k Hq Hin Hk.
  destruct (decide (k = key)) as [->|Hne]; [right; by apply elem_of_union_l, elem_of_singleton|].
  rewrite lookup_delete_ne by done.
  destruct (inv_pay _ I q raw k Hq Hin Hk); [by left|right; by apply elem_of_union_r].
Qed.

Lemma ctr_forget st akey q k :
  counter_name q k <> akey -> ctr (with_counters st (delete akey (counters st))) q k = ctr st q k.
Proof using. intros Hne. unfold ctr. simpl. by rewrite lookup_delete_ne. Qed.

Lemma inv_forget s akey :
  QInv s ->
  QInv {| store := with_counters (store s) (delete akey (counters (store s)));
          consumers := consumers s; calls := calls s; queued := queued s; used := used s;
          evicted := evicted s; forgotten := {[akey]} ∪ forgotten s |}.
Proof using.
  intros I. split; try apply I; simpl.
  - intros a n [_ Ha]%lookup_delete_Some. by apply (inv_counters _ I) in Ha.
  - intros q raw k Hq Hk [Hne Hnf]%not_elem_of_union. rewrite not_elem_of_singleton in Hne.
    rewrite ctr_forget by done. by apply (inv_attempts _ I).
  - intros q ph p Hl. destruct (inv_consumers _ I _ _ _ Hl) as (Hq & cl & Hb & Hh).
    split; [done|]. exists cl. split; [done|].
    destruct cl as [|raw n called| |]; simpl in *; try done.
    destruct Hh as (Hin & Hc & Hz). split; [done|]. split; [done|]. intros z k Hn Hk.
    destruct (decide (counter_name q k = akey)) as [<-|Hne];
      [left; by apply elem_of_union_l, elem_of_singleton|].
    rewrite ctr_forget by done. destruct (Hz z k Hn Hk); [left; by apply elem_of_union_r|by right].
Qed.

Lemma inv_idle : QInv idle.
Proof using W.
  split; simpl; try done; try (intros; set_solver).
Qed.

Lemma inv_step s s' : sys_step worker_key s s' -> QInv s -> QInv s'.
Proof using W.
  intros Hs I. destruct Hs as [key raw payload Hk Hu He|q raw Hq Hk|q ph c k Hc|q ph c k e Hc
    |q ph c k e Hc|q ph r Hc|q Hq|key|akey].
  - by apply inv_produce.
  - by apply inv_inline.
  - apply inv_command; [done|done|]. right. auto.
  - apply (inv_command q s ph c k (store s) (Raise e)); [done|done|]. left. eauto.
  - apply inv_command; [done|done|]. right. eauto.
  - apply inv_turn; [done|by eapply inv_consumers|]. apply behaves_round.
  - apply inv_turn; [done|done|]. apply behaves_round.
  - by apply inv_evict.
  - by apply inv_forget.
Qed.

Lemma inv_reachable s : rtc (sys_step worker_key) idle s -> QInv s.
Proof using W.
  remember idle as s0 eqn:E0. intros H. assert (I0 : QInv s0) by (subst; apply inv_idle). clear E0.
  induction H as [|s1 s2 s3 H12 _ IH]; [done|]. apply IH. by eapply inv_step.
Qed.

End invariant.

(** ** Safety *)

(** C3: no message is lost, whatever the interleaving of the three consumers,
    however often connections drop or processes are killed: as often as a message
    was queued on a queue it is still outstanding there (queued or in the
    processing list), or a callback — the handler or [on_lost] — was called for
    it. *)
Theorem nothing_lost {Q : QueueEnv} worker_key s q raw :
  worker_names worker_key -> rtc (sys_step worker_key) idle s -> q ∈ RESULT_QUEUES ->
  (count (q, raw) (queued s)
   <= count raw (outstanding q (store s)) + n_calls q raw (calls s))%nat.
Proof. intros W Hr Hq. by apply (inv_kept worker_key s (inv_reachable _ W s Hr)). Qed.

(** A payload outlives every need of it: while a queue still holds an envelope
    naming the payload, the queue is in the payload's pending set and the payload
    is in Redis, unless Redis itself dropped it.  So no consumer's release deletes
    what another has yet to read. *)
Theorem payload_outlives_need {Q : QueueEnv} worker_key s q raw key :
  worker_names worker_key -> rtc (sys_step worker_key) idle s -> q ∈ RESULT_QUEUES ->
  raw ∈ outstanding q (store s) -> envelope_key raw = Some key ->
  q ∈ set_at (store s) (pending_key key)
  /\ (is_Some (strings (store s) !! key) \/ key ∈ evicted s).
Proof.
  intros W Hr Hq Hin Hk. pose proof (inv_reachable _ W s Hr) as I. split.
  - by apply (inv_pend worker_key s I q raw key).
  - by apply (inv_pay worker_key s I q raw key).
Qed.

(** The handler runs at most [MAX_ATTEMPTS] times for an envelope on each
    queue, over every interleaving and every number of restarts, unless the
    attempt counter itself expired in between. *)
Theorem attempts_capped {Q : QueueEnv} worker_key s q raw key :
  worker_names worker_key -> rtc (sys_step worker_key) idle s -> q ∈ RESULT_QUEUES ->
  envelope_key raw = Some key -> counter_name q key ∉ forgotten s ->
  (Z.of_nat (count (Handled q raw) (calls s)) <= MAX_ATTEMPTS)%Z.
Proof. intros W Hr Hq Hk Hf. by apply (inv_attempts worker_key s (inv_reachable _ W s Hr) q raw key). Qed.

(** ** Reading a payload *)

Lemma run_prog_bind {A B} (p : prog A) (f : A -> prog B) st l :
  run_prog (p ≫= f) st l =
  let '(r, st', l') := run_prog p st l in
  match r with Ok a => run_prog (f a) st' l' | Raise e => (Raise e, st', l') end.
Proof.
  revert st l. induction p as [[a|e]|c k IH]; intros st l; [done|done|]. exact (IH _ _ _).
Qed.

Lemma run_prog_try {A} (p : prog A) (h : exn -> prog A) st l :
  run_prog (prog_try p h) st l =
  let '(r, st', l') := run_prog p st l in
  match r with Ok a => (Ok a, st', l') | Raise e => run_prog (h e) st' l' end.
Proof.
  revert st l. induction p as [[a|e]|c k IH]; intros st l; [done|done|]. exact (IH _ _ _).
Qed.

Lemma run_prog_command c st l :
  run_prog (command c) st l = (Ok (run_cmd c st).1, (run_cmd c st).2, (call_of c ++ l)%list).
Proof. done. Qed.

Lemma run_prog_of_res {A} (r : res exn A) st l : run_prog (of_res r) st l = (r, st, l).
Proof. done. Qed.

Lemma run_prog_ret {A} (a : A) st l : run_prog (mret a) st l = (Ok a, st, l).
Proof. done. Qed.

Section reading.
Context {Q : QueueEnv} (Hchunk : (0 < read_chunk_bytes)%nat).

Lemma read_chunks_rest left key buf rest st l :
  strings st !! key = Some (buf ++ rest) -> (String.length rest <= left)%nat ->
  run_prog (read_chunks left key (String.length (buf ++ rest)) buf) st l
  = (Ok (Some (buf ++ rest)), st, l).
Proof using Hchunk.
  revert buf rest. induction left as [|left IH]; intros buf rest Hs Hl; simpl.
  - destruct rest; [|simpl in Hl; lia]. rewrite append_nil_r, Nat.ltb_irrefl. done.
  - rewrite length_append. destruct (Nat.ltb_spec (String.length buf) (String.length buf + String.length rest)) as [Hlt|Hge].
    2:{ destruct rest; [|simpl in Hge; lia]. by rewrite append_nil_r. }
    simpl. rewrite Hs. simpl. replace (_ - String.length buf + 1)%nat with read_chunk_bytes by lia.
    rewrite substring_skip. destruct (substring_split read_chunk_bytes rest) as (rest' & E & Hl').
    destruct (String.substring 0 read_chunk_bytes rest) as [|c chunk] eqn:Es.
    { change (rest = rest') in E. subst rest'. lia. }
    simpl. rewrite <- length_append, E, <- append_assoc. apply IH; [|lia].
    by rewrite append_assoc, <- E.
Qed.

(** Reading a payload chunk by chunk gives what one GET would: the stored
    bytes, or nothing when the key is absent or empty; and it changes nothing. *)
Theorem read_payload_whole key st l :
  run_prog (read_payload key) st l
  = (Ok (match strings st !! key with Some "" | None => None | Some p => Some p end), st, l).
Proof using Hchunk.
  unfold read_payload. simpl. destruct (strings st !! key) as [p|] eqn:Hs; simpl; [|done].
  destruct p as [|c p]; [done|].
  destruct (Z.eqb_spec (Z.of_nat (String.length (String c p))) 0) as [E|_]; [simpl in E; lia|].
  rewrite Nat2Z.id. by apply (read_chunks_rest _ key "" (String c p)).
Qed.
End reading.

(** ** A queue drains *)

Section draining.
Context {Q : QueueEnv} (worker_key : string -> bool) (W : worker_names worker_key).
Context (Hchunk : (0 < read_chunk_bytes)%nat).

(** A message the consumer can name: it decodes to an object with an id. *)
Definition serviceable (q raw : string) : bool :=
  fine worker_key raw && negb (String.eqb raw "")
  && match akey_of q raw with Some _ => true | None => false end.

(** A callback was called for the message. *)
Definition called_for (q raw : string) (c : call) : Prop := c = Handled q raw \/ c = Lost q raw.

(** After the [try] body: a callback was called, or an exception is on its way. *)
Definition settled (q raw : string) (st : Store) (l : list call)
  (out : res exn unit * Store * list call) : Prop :=
  lists out.1.2 = lists st
  /\ (out.2 = l /\ (exists e, out.1.1 = Raise e)
      \/ exists c, called_for q raw c /\ out.2 = c :: l /\ out.1.1 = Ok tt).

Lemma settled_raise q raw st st1 l e : lists st1 = lists st -> settled q raw st l (Raise e, st1, l).
Proof using. intros H. split; [done|]. left. eauto. Qed.

Lemma settled_call q raw st st1 l c :
  lists st1 = lists st -> called_for q raw c -> settled q raw st l (Ok tt, st1, c :: l).
Proof using. intros H Hc. split; [done|]. right. eauto. Qed.

Lemma attempt_alone q raw m key akey st l :
  settled q raw st l (run_prog (attempt_message q raw m key akey) st l).
Proof using Hchunk.
  unfold attempt_message. rewrite run_prog_bind, run_prog_command.
  cbn [run_cmd fst snd call_of app int_reply]. rewrite run_prog_bind, run_prog_ret.
  rewrite run_prog_bind, run_prog_command. cbn [run_cmd fst snd call_of app].
  set (st1 := with_counters st _). set (n := (default 0 _ + 1)%Z).
  assert (Hl : lists st1 = lists st) by done.
  assert (Hh : called_for q raw (Handled q raw)) by by left.
  assert (Ho : called_for q raw (Lost q raw)) by by right.
  assert (Hp : forall reason, settled q raw st l (run_prog
    (of_res (item "private_id" m) ≫= fun _ => call_on_lost q raw m reason) st1 l)).
  { intros reason. destruct (item "private_id" m); [by apply settled_call|by apply settled_raise]. }
  destruct (MAX_ATTEMPTS <? n)%Z; [apply Hp|].
  destruct key; try (by apply settled_call);
    rewrite run_prog_bind, run_prog_of_res; destruct (redis_key _) as [k|e]; try (by apply settled_raise);
    rewrite run_prog_bind, read_payload_whole by exact Hchunk;
    (destruct (strings st1 !! k) as [[|x p]|]; [apply Hp| |apply Hp];
     rewrite run_prog_bind; destruct (payload_result _); [by apply settled_call|by apply settled_raise]).
Qed.

Lemma release_alone q raw m akey st l :
  q ∈ RESULT_QUEUES -> loads raw = Some (JObj m) -> fine worker_key raw = true -> akey_of q raw = Some akey ->
  exists st', run_prog (release q raw (dget "result_key" m) akey) st l = (Ok tt, st', l)
    /\ list_at st' q = list_at st q
    /\ list_at st' (processing_list q) = remove_first raw (list_at st (processing_list q)).
Proof using W.
  clear Hchunk. intros Hq Hl Hf Ha. destruct (akey_shape _ W _ _ _ Hf Ha) as (x & -> & _).
  set (st1 := (run_cmd (Lrem (processing_list q) raw) st).2).
  set (st2 := del_keys [counter_name q x] st1).
  assert (H1 : list_at st1 q = list_at st q /\ list_at st1 (processing_list q)
               = remove_first raw (list_at st (processing_list q))).
  { unfold st1. simpl. rewrite list_at_eq, list_at_ne by by apply queue_not_processing. done. }
  assert (H2 : list_at st2 q = list_at st1 q
               /\ list_at st2 (processing_list q) = list_at st1 (processing_list q)).
  { destruct (counter_not_list q q x Hq Hq). apply outstanding_del; intros ?%list_elem_of_singleton; congruence. }
  destruct H1 as [H1a H1b], H2 as [H2a H2b].
  destruct (fine_key _ _ _ Hl Hf) as [->|(k & -> & He & Hk)]; unfold release.
  { exists st2. split; [done|]. split; congruence. }
  simpl. fold st1. change (with_lists st _) with st1. fold st2.
  set (st3 := with_sets st2 _).
  assert (H3 : forall x, list_at st3 x = list_at st2 x) by done.
  destruct (Z.of_nat (size (set_at st3 _)) =? 0)%Z; simpl.
  - exists (del_keys [k; pending_key k] st3). split; [done|].
    destruct (list_not_key worker_key W q k Hq Hk) as (?&?&?&?).
    destruct (outstanding_del q [k; pending_key k] st3) as [E1 E2]; [set_solver..|].
    rewrite E1, E2, !H3. split; congruence.
  - exists st3. split; [done|]. rewrite !H3. split; congruence.
Qed.

Lemma handle_one_alone q raw st l :
  q ∈ RESULT_QUEUES -> serviceable q raw = true ->
  exists st' c, run_prog (handle_one q raw) st l = (Ok tt, st', c :: l) /\ called_for q raw c
    /\ list_at st' q = list_at st q
    /\ list_at st' (processing_list q) = remove_first raw (list_at st (processing_list q)).
Proof using W Hchunk.
  intros Hq [[Hf _]%andb_true_iff Ha]%andb_true_iff. destruct (akey_of q raw) as [a|] eqn:Hak; [|done].
  unfold handle_one. destruct (loads raw) as [[| | | | | |m]|] eqn:Hl; unfold akey_of in Hak; rewrite Hl in Hak; try done.
  destruct (attempts_key q m) as [a'|] eqn:Hat; [|done]. injection Hak as ->.
  rewrite run_prog_bind, run_prog_of_res, run_prog_bind, run_prog_try.
  pose proof (attempt_alone q raw m (dget "result_key" m) a st l) as Hs.
  destruct (run_prog (attempt_message q raw m (dget "result_key" m) a) st l) as [[r st1] l1].
  destruct Hs as (Hst & Hs). simpl in Hst, Hs.
  assert (Hrel : forall c, called_for q raw c -> exists st' c',
    run_prog (release q raw (dget "result_key" m) a) st1 (c :: l) = (Ok tt, st', c' :: l)
    /\ called_for q raw c' /\ list_at st' q = list_at st q
    /\ list_at st' (processing_list q) = remove_first raw (list_at st (processing_list q))).
  { intros c Hc. destruct (release_alone q raw m a st1 (c :: l) Hq Hl Hf) as (st' & E & E1 & E2).
    { unfold akey_of. by rewrite Hl, Hat. }
    exists st', c. rewrite E, E1, E2. unfold list_at. by rewrite Hst. }
  destruct Hs as [(-> & e & ->)|(c & Hc & -> & ->)]; [|by apply Hrel].
  rewrite run_prog_try. simpl. apply Hrel. by right.
Qed.

Lemma serve_alone q st l raw rest :
  q ∈ RESULT_QUEUES -> serviceable q raw = true ->
  list_at st q = raw :: rest -> list_at st (processing_list q) = [] ->
  exists st' c, run_rounds 1 q Serving st l = (Serving, st', c :: l) /\ called_for q raw c
    /\ list_at st' q = rest /\ list_at st' (processing_list q) = [].
Proof using W Hchunk.
  intros Hq Hs H1 H2. cbn [run_rounds start snd]. unfold serve_step.
  rewrite run_prog_bind, run_prog_command. cbn [run_cmd]. rewrite H1. cbn [pop_side fst snd call_of app].
  cbn [text_reply]. rewrite run_prog_bind, run_prog_ret, run_prog_bind.
  set (st1 := with_lists (with_lists st _) _).
  assert (E1 : list_at st1 q = rest).
  { unfold st1. rewrite list_at_ne, list_at_eq; [done|]. by apply queue_not_processing. }
  assert (E2 : list_at st1 (processing_list q) = [raw]).
  { unfold st1. rewrite list_at_eq, list_at_ne, H2; [done|]. apply not_eq_sym. by apply queue_not_processing. }
  destruct (handle_one_alone q raw st1 l Hq Hs) as (st' & c & -> & Hc & E3 & E4).
  exists st', c. split; [done|]. rewrite E3, E4, E1, E2. simpl. by rewrite String.eqb_refl.
Qed.

Lemma recover_alone q st l p :
  q ∈ RESULT_QUEUES -> list_at st (processing_list q) = p -> (forall raw, raw ∈ p -> raw <> "") ->
  exists st', run_rounds (length p + 1) q Recovering st l = (Serving, st', l)
    /\ list_at st' q = (p ++ list_at st q)%list /\ list_at st' (processing_list q) = [].
Proof using.
  clear Hchunk. intros Hq. pose proof (queue_not_processing q q Hq Hq) as Hne.
  revert st. induction p as [|x p IH] using rev_ind; intros st Hp Hraw.
  - simpl. unfold recover_step. rewrite Hp. simpl. eauto.
  - rewrite length_app. replace (length p + length [x] + 1)%nat with (S (length p + 1)) by (simpl; lia).
    cbn [run_rounds start snd]. unfold recover_step.
    rewrite run_prog_bind, run_prog_command. cbn [run_cmd]. rewrite Hp. cbn [pop_side].
    rewrite reverse_snoc. cbn [fst snd call_of app text_reply push_side].
    rewrite run_prog_bind, run_prog_ret, run_prog_ret, reverse_involutive.
    set (st1 := with_lists (with_lists st _) _).
    assert (E1 : list_at st1 q = x :: list_at st q).
    { unfold st1. by rewrite list_at_eq, list_at_ne. }
    assert (E2 : list_at st1 (processing_list q) = p).
    { unfold st1. rewrite list_at_ne, list_at_eq; [done|]. by apply not_eq_sym. }
    assert (Hx : String.eqb x "" = false).
    { apply String.eqb_neq, Hraw, elem_of_app. right. by apply list_elem_of_singleton. }
    rewrite Hx. cbn [negb next_phase].
    destruct (IH st1 E2) as (st' & -> & E3 & E4).
    { intros raw Hin. apply Hraw, elem_of_app. by left. }
    exists st'. rewrite E3, E1, <- app_assoc. done.
Qed.

Lemma run_rounds_add n n' q ph st l :
  run_rounds (n + n') q ph st l =
  let '(ph1, st1, l1) := run_rounds n q ph st l in run_rounds n' q ph1 st1 l1.
Proof using.
  revert ph st l. induction n as [|n IH]; intros ph st l; [done|]. simpl.
  destruct (run_prog _ st l) as [[r st1] l1]. apply IH.
Qed.

Lemma serve_all_alone q st l w :
  q ∈ RESULT_QUEUES -> list_at st q = w -> list_at st (processing_list q) = [] ->
  (forall raw, raw ∈ w -> serviceable q raw = true) ->
  exists st' cs, run_rounds (length w) q Serving st l = (Serving, st', cs ++ l)%list
    /\ outstanding q st' = [] /\ Forall2 (called_for q) w (reverse cs).
Proof using W Hchunk.
  intros Hq. revert st l. induction w as [|raw w IH]; intros st l Hw Hp Hs.
  - exists st, []. unfold outstanding. rewrite Hw, Hp. split; [done|]. split; [done|]. constructor.
  - change (length (raw :: w)) with (1 + length w)%nat. rewrite run_rounds_add.
    destruct (serve_alone q st l raw w Hq (Hs raw (list_elem_of_here _ _)) Hw Hp) as (st1 & c & -> & Hc & E1 & E2).
    destruct (IH st1 (c :: l) E1 E2) as (st' & cs & -> & Ho & Hf).
    { intros raw' Hin. by apply Hs, list_elem_of_further. }
    exists st', (cs ++ [c])%list. rewrite <- app_assoc, reverse_snoc. split; [done|]. split; [done|].
    by constructor.
Qed.


End draining.

(** ** A message that does not decode *)

Section poison.
Context {Q : QueueEnv}.

(** The message at the head, or just taken by a consumer that will put it back. *)
Definition blocked (q bad : string) (rest : list string) (ph : phase) (st : Store) : Prop :=
  (list_at st q = bad :: rest /\ list_at st (processing_list q) = [])
  \/ (ph = Recovering /\ list_at st q = rest /\ list_at st (processing_list q) = [bad]).

Lemma blocked_round q bad rest ph st l :
  q ∈ RESULT_QUEUES -> loads bad = None -> blocked q bad rest ph st ->
  exists ph' st', run_rounds 1 q ph st l = (ph', st', l) /\ blocked q bad rest ph' st'.
Proof.
  intros Hq Hl. pose proof (queue_not_processing q q Hq Hq) as Hne.
  cbn [run_rounds]. intros [[H1 H2]|(-> & H1 & H2)].
  - destruct ph; cbn [start snd]; [unfold recover_step|unfold serve_step];
      rewrite run_prog_bind, run_prog_command; cbn [run_cmd]; rewrite ?H1, ?H2;
      cbn [pop_side fst snd call_of app text_reply]; rewrite ?run_prog_bind.
    { eexists _, _. split; [done|]. by left. }
    rewrite run_prog_ret, run_prog_bind. unfold handle_one. rewrite Hl. eexists _, _. split; [done|].
    right. split; [done|].
    repeat first [rewrite list_at_eq | rewrite list_at_ne by (done || by apply not_eq_sym)].
    by rewrite H2.
  - cbn [start snd]. unfold recover_step. rewrite run_prog_bind, run_prog_command. cbn [run_cmd].
    rewrite H2. cbn [pop_side reverse fst snd call_of app text_reply rev_append].
    rewrite run_prog_bind, !run_prog_ret. eexists _, _. split; [done|]. left. cbn [push_side].
    rewrite list_at_eq, !list_at_ne, list_at_eq by (done || by apply not_eq_sym). by rewrite H1.
Qed.

(** A message that does not decode blocks its queue for good: the decoding is
    outside the [try], so the exception ends the round before an attempt is
    counted, recovery puts the message back in front, and however many rounds the
    consumer runs no callback is ever called, for it or for any message behind
    it. *)
Theorem poison_blocks q bad rest st l n :
  q ∈ RESULT_QUEUES -> loads bad = None ->
  list_at st q = bad :: rest -> list_at st (processing_list q) = [] ->
  let out := run_rounds n q Recovering st l in
  out.2 = l /\ outstanding q out.1.2 ≡ₚ bad :: rest.
Proof.
  intros Hq Hl H1 H2. assert (Hb : blocked q bad rest Recovering st) by by left. clear H1 H2.
  revert Hb. generalize Recovering as ph. revert st.
  induction n as [|n IH]; intros st ph Hb.
  - split; [done|]. unfold outstanding. simpl.
    destruct Hb as [[-> ->]|(_ & -> & ->)]; [by rewrite app_nil_r|]. by rewrite Permutation_app_comm.
  - change (S n) with (1 + n)%nat. cbv zeta. rewrite run_rounds_add.
    destruct (blocked_round q bad rest ph st l Hq Hl Hb) as (ph' & st' & -> & Hb'). by apply IH.
Qed.
End poison.

(** ** One envelope, on all three queues *)

Definition demo_queue : QueueEnv := {|
  loads := fun s =>
    if String.eqb s "envelope" then Some (JObj [("private_id", JInt 7); ("result_key", JStr "result:7")])
    else if String.eqb s "inline" then Some (JObj [("private_id", JInt 8)])
    else if String.eqb s "payload" then Some (JObj [("result", JInt 1)])
    else None;
  error_text := fun _ => "";
  read_chunk_bytes := 3 |}.

Definition demo_keys (k : string) : bool := String.eqb k "result:7".

Lemma demo_names : worker_names demo_keys.
Proof.
  split; [|intros k; unfold demo_keys|done].
  - intros k q ->%String.eqb_eq Hq. unfold RESULT_QUEUES in Hq.
    repeat (apply elem_of_cons in Hq as [->|Hq]; [done|]). by apply elem_of_nil in Hq.
  - apply String.eqb_neq. intros E. destruct k as [|c k]; [done|].
    apply (f_equal String.length) in E. unfold pending_key in E. rewrite length_append in E. simpl in E. lia.
Qed.

(** The step of [q]'s consumer when nothing fails. *)
Definition advance {Q : QueueEnv} (q : string) (s : Sys) : Sys :=
  match consumers s !! q with
  | Some (ph, Do c k) =>
      sys_with s (run_cmd c (store s)).2 (<[q := (ph, k (Ok (run_cmd c (store s)).1))]> (consumers s))
        (call_of c ++ calls s)
  | Some (ph, Done r) => sys_with s (store s) (<[q := start q (next_phase ph r)]> (consumers s)) (calls s)
  | None => sys_with s (store s) (<[q := start q Recovering]> (consumers s)) (calls s)
  end.

Lemma advance_rtc {Q : QueueEnv} worker_key q n s :
  q ∈ RESULT_QUEUES -> rtc (sys_step worker_key) s (Nat.iter n (advance q) s).
Proof.
  intros Hq. induction n as [|n IH]; [done|]. eapply rtc_r; [exact IH|]. simpl.
  set (t := Nat.iter n (advance q) s). unfold advance.
  destruct (consumers t !! q) as [[ph [r|c k]]|] eqn:E;
    [by apply step_round|by apply step_command|by apply step_restart].
Qed.

(** The envelope was queued everywhere and the first queue's consumer has run
    [n] steps. *)
Definition demo_sys (n : nat) : Sys :=
  Nat.iter n (advance (Q:=demo_queue) RESULTS_QUEUE_NAME)
    {| store := produced "result:7" "envelope" "payload" (store idle); consumers := ∅; calls := [];
       queued := (((fun q => (q, "envelope")) <$> RESULT_QUEUES) ++ [])%list;
       used := {["result:7"]} ∪ ∅; evicted := ∅; forgotten := ∅ |}.

Lemma demo_reachable n : rtc (sys_step (Q:=demo_queue) demo_keys) idle (demo_sys n).
Proof.
  eapply rtc_l; [|apply advance_rtc; by left].
  exact (step_produce (Q:=demo_queue) demo_keys idle "result:7" "envelope" "payload" eq_refl
           (not_elem_of_empty _) eq_refl).
Qed.

Lemma nothing_lost_witness :
  calls (demo_sys 30) = [Handled RESULTS_QUEUE_NAME "envelope"]
  /\ (count (RESULTS_QUEUE_NAME, "envelope") (queued (demo_sys 30))
      <= count "envelope" (outstanding RESULTS_QUEUE_NAME (store (demo_sys 30)))
         + n_calls RESULTS_QUEUE_NAME "envelope" (calls (demo_sys 30)))%nat.
Proof.
  split; [by vm_compute|].
  apply (nothing_lost (Q:=demo_queue) demo_keys); [apply demo_names|apply demo_reachable|by left].
Defined.

Lemma payload_outlives_need_witness :
  calls (demo_sys 30) = [Handled RESULTS_QUEUE_NAME "envelope"]
  /\ (UPLOAD_NOSTR_RESULTS_QUEUE_NAME ∈ set_at (store (demo_sys 30)) (pending_key "result:7")
      /\ (is_Some (strings (store (demo_sys 30)) !! "result:7") \/ "result:7" ∈ evicted (demo_sys 30))).
Proof.
  split; [by vm_compute|].
  apply (payload_outlives_need (Q:=demo_queue) demo_keys _ _ "envelope");
    [apply demo_names|apply demo_reachable|by right; left| |done].
  replace (outstanding _ _) with ["envelope"] by (by vm_compute). by left.
Defined.

Lemma attempts_capped_witness :
  calls (demo_sys 30) = [Handled RESULTS_QUEUE_NAME "envelope"]
  /\ (Z.of_nat (count (Handled RESULTS_QUEUE_NAME "envelope") (calls (demo_sys 30))) <= MAX_ATTEMPTS)%Z.
Proof.
  split; [by vm_compute|].
  apply (attempts_capped (Q:=demo_queue) demo_keys _ _ _ "result:7");
    [apply demo_names|apply demo_reachable|by left|done|].
  replace (forgotten (demo_sys 30)) with (∅ : gset string) by (by vm_compute). apply not_elem_of_empty.
Defined.

Lemma read_payload_whole_witness :
  (run_prog (read_payload (Q:=demo_queue) "result:7") (produced "result:7" "envelope" "payload" (store idle)) []).1.1
  = Ok (Some "payload").
Proof.
  rewrite (read_payload_whole (Q:=demo_queue)); [by vm_compute|simpl; lia].
Defined.

(** Interrupted on an inline message, with an envelope waiting. *)
Definition demo_backlog : Store := {|
  lists := <[RESULTS_QUEUE_NAME := ["envelope"]]> {[processing_list RESULTS_QUEUE_NAME := ["inline"]]};
  strings := ∅; counters := ∅; sets := ∅ |}.


Lemma poison_blocks_witness :
  let st := {| lists := {[RESULTS_QUEUE_NAME := ["oops"; "envelope"]]};
               strings := ∅; counters := ∅; sets := ∅ |} in
  let out := run_rounds (Q:=demo_queue) 100 RESULTS_QUEUE_NAME Recovering st [] in
  out.2 = [] /\ outstanding RESULTS_QUEUE_NAME out.1.2 ≡ₚ ["oops"; "envelope"].
Proof.
  apply (poison_blocks (Q:=demo_queue) RESULTS_QUEUE_NAME "oops" ["envelope"] _ [] 100);
    [by left|done|by vm_compute|by vm_compute].
Defined.

(** When the last of the three consumers is done nothing is left in Redis but
    empty lists. *)
Example payload_released :
  let s := foldr (fun q s => Nat.iter 30 (advance (Q:=demo_queue) q) s) (demo_sys 0) RESULT_QUEUES in
  (map_size (strings (store s)), map_size (counters (store s)), map_size (sets (store s)), length (calls s))
  = (0, 0, 0, 3)%nat.
Proof. by vm_compute. Qed.
