(* ===== verification/Binary64.v ===== *)
(** * Python's floats, as rationals

    A finite float is the rational it denotes; an operation is the exact result
    rounded to the nearest 53-bit significand, ties to even ([rn]).  The exponent
    is not bounded: what the development computes with floats (shares, scores and
    their thresholds) is far from both ends of the range. *)

From Stdlib Require Import QArith Qabs Lqa.
From Stdlib Require Import QArith Qpower Qabs Lqa.
From S2P Require Import Prelude.
Local Open Scope Z_scope.

(** [n / d] to the nearest integer, ties to even. *)
Definition round_half_even (n d : Z) : Z :=
  let k := n / d in
  let r := 2 * (n mod d) in
  if r <? d then k
  else if d <? r then k + 1
  else if Z.even k then k else k + 1.

Lemma round_half_even_error n d :
  0 < d -> Z.abs (2 * (d * round_half_even n d - n)) <= d.
Proof.
  intros Hd. unfold round_half_even. pose proof (Z_div_mod_eq_full n d) as E.
  pose proof (Z.mod_pos_bound n d Hd) as B. set (k := n / d) in *. set (r := n mod d) in *.
  destruct (Z.ltb_spec (2 * r) d); [|destruct (Z.ltb_spec d (2 * r)); [|destruct (Z.even k)]]; nia.
Qed.

(** [m * 2^e]. *)
Definition scale2 (m e : Z) : Q :=
  if 0 <=? e then inject_Z (m * 2 ^ e) else Qmake m (Z.to_pos (2 ^ (- e))).

(** [n / d] over [2^e], as a fraction. *)
Definition over2 (n d e : Z) : Z * Z :=
  if 0 <=? e then (n, d * 2 ^ e) else (n * 2 ^ (- e), d).

(** The exponent that leaves 53 bits. *)
Definition exponent (n d : Z) : Z :=
  let e := Z.log2 n - Z.log2 d - 53 in
  let '(a, b) := over2 n d e in
  if a <? 2 ^ 53 * b then e else e + 1.

Definition round_to (n d e : Z) : Q :=
  let '(a, b) := over2 n d e in scale2 (round_half_even a b) e.

Definition rn (q : Q) : Q :=
  let n := Qnum q in
  let d := Zpos (Qden q) in
  if n =? 0 then 0%Q
  else let s := round_to (Z.abs n) d (exponent (Z.abs n) d) in
       if n <? 0 then Qopp s else s.

(** The operations the server uses: true division of integers, subtraction,
    multiplication. *)
Definition fdiv (a b : Z) : Q := rn (inject_Z a / inject_Z b).
Definition fsub (a b : Q) : Q := rn (a - b).
Definition fmul (a b : Q) : Q := rn (a * b).

(** [a < b] and [a <= b] on floats. *)
Definition flt (a b : Q) : bool := negb (Qle_bool b a).
Definition fle (a b : Q) : bool := Qle_bool a b.

(** ** The relative error of one rounding is at most [2^-53] *)

Lemma over2_spec n d e :
  0 < n -> 0 < d ->
  let '(a, b) := over2 n d e in
  0 < a /\ 0 < b /\ (0 <= e -> a = n /\ b = d * 2 ^ e) /\ (e < 0 -> a = n * 2 ^ (- e) /\ b = d).
Proof.
  intros Hn Hd. unfold over2. destruct (Z.leb_spec 0 e) as [He|He].
  - pose proof (Z.pow_pos_nonneg 2 e ltac:(lia) He). repeat split; try lia; nia.
  - pose proof (Z.pow_pos_nonneg 2 (- e) ltac:(lia) ltac:(lia)). repeat split; try lia; nia.
Qed.

(** The scaled significand has at least 53 bits. *)
Lemma exponent_spec n d :
  0 < n -> 0 < d -> let '(a, b) := over2 n d (exponent n d) in 2 ^ 52 * b <= a.
Proof.
  intros Hn Hd. pose proof (Z.log2_spec n Hn) as [Hn1 Hn2]. pose proof (Z.log2_spec d Hd) as [Hd1 Hd2].
  pose proof (Z.log2_nonneg n). pose proof (Z.log2_nonneg d).
  set (x := Z.log2 n) in *. set (y := Z.log2 d) in *.
  assert (Hstep : forall e, e = x - y - 53 -> let '(a, b) := over2 n d e in 2 ^ 52 * b <= a).
  { intros e ->. unfold over2. destruct (Z.leb_spec 0 (x - y - 53)) as [He|He].
    - rewrite Z.mul_assoc, (Z.mul_comm (2 ^ 52)), <- Z.mul_assoc, <- Z.pow_add_r by lia.
      replace (52 + (x - y - 53)) with (x - Z.succ y) by lia.
      assert (2 ^ x = 2 ^ Z.succ y * 2 ^ (x - Z.succ y)) by (rewrite <- Z.pow_add_r by lia; f_equal; lia).
      pose proof (Z.pow_pos_nonneg 2 (x - Z.succ y) ltac:(lia) ltac:(lia)). nia.
    - assert (E : 2 ^ x * 2 ^ (- (x - y - 53)) = 2 ^ 52 * 2 ^ Z.succ y)
        by (rewrite <- !Z.pow_add_r by lia; f_equal; lia).
      pose proof (Z.pow_pos_nonneg 2 (- (x - y - 53)) ltac:(lia) ltac:(lia)). nia. }
  unfold exponent. fold x y. specialize (Hstep _ eq_refl).
  destruct (over2 n d (x - y - 53)) as [a b] eqn:E.
  destruct (Z.ltb_spec a (2 ^ 53 * b)) as [Hlt|Hge]; [by rewrite E|].
  unfold over2 in *. destruct (Z.leb_spec 0 (x - y - 53)) as [He|He]; injection E as <- <-.
  - destruct (Z.leb_spec 0 (x - y - 53 + 1)); [|lia]. rewrite Z.pow_add_r by lia.
    change (2 ^ 1) with 2. change (2 ^ 53) with (2 * 2 ^ 52) in Hge. nia.
  - destruct (Z.leb_spec 0 (x - y - 53 + 1)) as [He'|He'].
    + replace (x - y - 53 + 1) with 0 by lia. replace (x - y - 53) with (-1) in Hge by lia.
      change (2 ^ (- -1)) with 2 in Hge. change (2 ^ 0) with 1. change (2 ^ 53) with (2 * 2 ^ 52) in Hge. lia.
    + assert (E : 2 ^ (- (x - y - 53)) = 2 * 2 ^ (- (x - y - 53 + 1)))
        by (rewrite <- Z.pow_succ_r by lia; f_equal; lia).
      rewrite E in Hge. change (2 ^ 53) with (2 * 2 ^ 52) in Hge. nia.
Qed.

Definition ulp_bound : Q := 1 # (2 ^ 53).

Lemma round_to_error (n d e : Z) :
  0 < n -> 0 < d -> (let '(a, b) := over2 n d e in 2 ^ 52 * b <= a) ->
  (Qabs (round_to n d e - Qmake n (Z.to_pos d)) <= Qmake n (Z.to_pos d) * ulp_bound)%Q.
Proof.
  intros Hn Hd Hbig. pose proof (over2_spec n d e Hn Hd) as Ho. unfold round_to.
  destruct (over2 n d e) as [a b]. destruct Ho as (Ha & Hb & Hpos & Hneg).
  pose proof (round_half_even_error a b Hb) as Herr. set (m := round_half_even a b) in *.
  unfold scale2, ulp_bound. apply Qabs_Qle_condition.
  destruct (Z.leb_spec 0 e) as [He|He].
  - destruct (Hpos He) as [-> ->]. pose proof (Z.pow_pos_nonneg 2 e ltac:(lia) He).
    unfold Qle, Qminus, Qplus, Qopp, Qmult, inject_Z. cbn [Qnum Qden].
    rewrite ?Pos2Z.inj_mul, ?Z2Pos.id by lia. cbn -[Z.pow Z.mul].
    change (Zpos (2 ^ 53)) with (2 * 2 ^ 52). apply Z.abs_le in Herr. nia.
  - destruct (Hneg He) as [-> ->]. pose proof (Z.pow_pos_nonneg 2 (- e) ltac:(lia) ltac:(lia)).
    unfold Qle, Qminus, Qplus, Qopp, Qmult. cbn [Qnum Qden].
    rewrite ?Pos2Z.inj_mul, ?Z2Pos.id by lia.
    change (Zpos (2 ^ 53)) with (2 * 2 ^ 52). apply Z.abs_le in Herr. nia.
Qed.

Lemma rn_error (q : Q) : (Qabs (rn q - q) <= Qabs q * ulp_bound)%Q.
Proof.
  unfold rn. destruct q as [n d]. cbn [Qnum Qden].
  destruct (Z.eqb_spec n 0) as [->|Hn].
  { unfold Qle, Qabs, ulp_bound. simpl. lia. }
  assert (Ha : 0 < Z.abs n) by lia.
  pose proof (round_to_error (Z.abs n) (Zpos d) (exponent (Z.abs n) (Zpos d)) Ha eq_refl
                (exponent_spec _ (Zpos d) Ha eq_refl)) as H.
  change (Z.to_pos (Zpos d)) with d in H. set (s := round_to _ _ _) in *.
  change (Qabs (n # d)) with (Z.abs n # d)%Q.
  destruct (Z.ltb_spec n 0) as [Hneg|Hpos].
  - rewrite Z.abs_neq in * by lia.
    assert (E : (- s - (n # d) == - (s - (- n # d)))%Q) by (unfold Qeq; simpl; ring).
    by rewrite E, Qabs_opp.
  - by rewrite Z.abs_eq in * by lia.
Qed.

(** Floats that denote the same rational round alike. *)
Lemma fle_Qle (a b : Q) : fle a b = true <-> (a <= b)%Q.
Proof. unfold fle. apply Qle_bool_iff. Qed.

Lemma flt_Qlt (a b : Q) : flt a b = true <-> (a < b)%Q.
Proof.
  unfold flt. rewrite negb_true_iff, <- not_true_iff_false, Qle_bool_iff. split.
  - apply Qnot_le_lt.
  - apply Qlt_not_le.
Qed.

(** *** Integers are exact, and compare as integers *)

Lemma round_half_even_exact m d : 0 < d -> round_half_even (m * d) d = m.
Proof.
  intros Hd. unfold round_half_even. rewrite Z.div_mul, Z.mod_mul by lia.
  by destruct (Z.ltb_spec (2 * 0) d); [|lia].
Qed.

Lemma round_to_exact k d e :
  0 < k < 2 ^ 53 -> 0 < d -> (let '(a, b) := over2 (k * d) d e in 2 ^ 52 * b <= a) ->
  (round_to (k * d) d e == inject_Z k)%Q.
Proof.
  intros Hk Hd. unfold round_to, over2, scale2. destruct (Z.leb_spec 0 e) as [He|He]; intros Hbig.
  - destruct (decide (e = 0)) as [->|Hne].
    + change (2 ^ 0) with 1. by rewrite !Z.mul_1_r, round_half_even_exact.
    + exfalso. replace e with (1 + (e - 1)) in Hbig by lia. rewrite Z.pow_add_r in Hbig by lia.
      pose proof (Z.pow_pos_nonneg 2 (e - 1) ltac:(lia) ltac:(lia)).
      change (2 ^ 1) with 2 in Hbig. change (2 ^ 53) with (2 ^ 52 * 2) in Hk. nia.
  - pose proof (Z.pow_pos_nonneg 2 (- e) ltac:(lia) ltac:(lia)).
    replace (k * d * 2 ^ (- e)) with (k * 2 ^ (- e) * d) by ring.
    rewrite round_half_even_exact by done. unfold Qeq, inject_Z. simpl. rewrite Z2Pos.id by lia. lia.
Qed.

Lemma rn_exact (k : Z) (d : positive) : Z.abs k < 2 ^ 53 -> (rn (k * Zpos d # d) == inject_Z k)%Q.
Proof.
  intros Hk. unfold rn. cbn [Qnum Qden]. destruct (Z.eqb_spec (k * Zpos d) 0) as [E|Hne].
  { assert (k = 0) as -> by nia. reflexivity. }
  assert (E : Z.abs (k * Zpos d) = Z.abs k * Zpos d) by lia. rewrite E.
  assert (Hr : (round_to (Z.abs k * Zpos d) (Zpos d) (exponent (Z.abs k * Zpos d) (Zpos d)) == inject_Z (Z.abs k))%Q).
  { apply round_to_exact; [lia|done|]. apply exponent_spec; lia. }
  destruct (Z.ltb_spec (k * Zpos d) 0); rewrite Hr; unfold Qeq; simpl; nia.
Qed.

(** A quotient by a million compares with an integer as the integers do: nothing
    is lost within a timestamp's range. *)
Lemma fdiv_million us : fdiv us 1000000 = rn (us # 1000000).
Proof. unfold fdiv, inject_Z, Qdiv, Qinv, Qmult. simpl. by rewrite Z.mul_1_r. Qed.

Lemma fdiv_million_ge us n :
  Z.abs n < 2 ^ 31 -> ((inject_Z n <= fdiv us 1000000)%Q <-> n * 1000000 <= us).
Proof.
  intros Hn. rewrite fdiv_million. destruct (decide (us = n * 1000000)) as [->|Hne].
  { rewrite rn_exact by (transitivity (2 ^ 31); [done|by vm_compute]). split; [lia|intros _; apply Qle_refl]. }
  pose proof (rn_error (us # 1000000)) as H. apply Qabs_Qle_condition in H as [H1 H2].
  set (r := rn (us # 1000000)) in *. clearbody r. destruct r as [rn rd].
  unfold ulp_bound, Qle, Qminus, Qplus, Qopp, Qmult, Qabs, inject_Z in *. cbn [Qnum Qden] in *.
  rewrite ?Pos2Z.inj_mul in *. change (Zpos (2 ^ 53)) with (2 ^ 53) in *. nia.
Qed.

(** Within 136 years two distinct microseconds are two distinct floats, in order. *)
Lemma fdiv_million_le a b :
  Z.abs a < 2 ^ 32 * 1000000 -> Z.abs b < 2 ^ 32 * 1000000 ->
  ((fdiv a 1000000 <= fdiv b 1000000)%Q <-> a <= b).
Proof.
  intros Ha Hb. rewrite !fdiv_million. destruct (decide (a = b)) as [->|Hne].
  { split; [lia|intros _; apply Qle_refl]. }
  pose proof (rn_error (a # 1000000)) as H. apply Qabs_Qle_condition in H as [H1 H2].
  pose proof (rn_error (b # 1000000)) as H. apply Qabs_Qle_condition in H as [H3 H4].
  assert (Hu : forall x, Z.abs x < 2 ^ 32 * 1000000 ->
            (Qabs (x # 1000000) * ulp_bound <= 1 # (2 * 1000000 + 1))%Q).
  { intros x Hx. unfold Qle, Qmult, Qabs, ulp_bound. cbn [Qnum Qden]. rewrite !Pos2Z.inj_mul. lia. }
  pose proof (Hu a Ha) as Ua. pose proof (Hu b Hb) as Ub. clear Hu.
  split; intros H.
  - destruct (Z.le_gt_cases a b) as [|Hlt]; [done|exfalso].
    assert (E : ((b # 1000000) + (1 # 1000000) <= a # 1000000)%Q).
    { unfold Qle, Qplus. cbn [Qnum Qden]. lia. }
    assert (L : ((1 # (2 * 1000000 + 1)) + (1 # (2 * 1000000 + 1)) < 1 # 1000000)%Q) by (by vm_compute).
    revert H1 H4 Ua Ub E L H. generalize (Qabs (a # 1000000) * ulp_bound)%Q (Qabs (b # 1000000) * ulp_bound)%Q.
    intros ua ub. intros. apply (Qlt_irrefl 0). lra.
  - assert (E : ((a # 1000000) + (1 # 1000000) <= b # 1000000)%Q).
    { unfold Qle, Qplus. cbn [Qnum Qden]. lia. }
    assert (L : ((1 # (2 * 1000000 + 1)) + (1 # (2 * 1000000 + 1)) < 1 # 1000000)%Q) by (by vm_compute).
    lra.
Qed.

(** *** Rounding to two decimals: [round(x, 2)] *)

(** The nearest hundredth, ties to even, and the nearest float to it. *)
Definition hundredths (x : Q) : Z := round_half_even (100 * Qnum x) (Zpos (Qden x)).
Definition round2 (x : Q) : Q := fdiv (hundredths x) 100.
(** [round(x)]: an integer. *)
Definition round0 (x : Q) : Z := round_half_even (Qnum x) (Zpos (Qden x)).

Example round2_down : round2 (rn (2675 # 1000)) = rn (267 # 100).
Proof. by vm_compute. Qed.
Example one_tenth : Qeq_bool (rn (1 # 10)) (3602879701896397 # 36028797018963968) = true.
Proof. by vm_compute. Qed.

(** ** Rounding keeps order

    [rn_mono]: a float operation rounds the exact result, and rounding is monotone;
    so bounds on exact values survive a chain of operations.  Sums and quotients of
    floats, which the scores of Trusted Lists use, are defined here. *)

Definition fadd (a b : Q) : Q := rn (a + b).
Definition fquot (a b : Q) : Q := rn (a / b).

(** ** To the nearest integer *)

Lemma round_half_even_ext a1 b1 a2 b2 :
  0 < b1 -> 0 < b2 -> a1 * b2 = a2 * b1 -> round_half_even a1 b1 = round_half_even a2 b2.
Proof.
  intros H1 H2 E. unfold round_half_even.
  pose proof (Z_div_mod_eq_full a1 b1) as E1. pose proof (Z.mod_pos_bound a1 b1 H1) as B1.
  pose proof (Z_div_mod_eq_full a2 b2) as E2. pose proof (Z.mod_pos_bound a2 b2 H2) as B2.
  set (k1 := a1 / b1) in *. set (r1 := a1 mod b1) in *. set (k2 := a2 / b2) in *. set (r2 := a2 mod b2) in *.
  assert (Hr : r1 * b2 - r2 * b1 = (k2 - k1) * (b1 * b2)) by nia.
  assert (0 <= r1 * b2 < b1 * b2 /\ 0 <= r2 * b1 < b1 * b2) as [L1 L2] by nia.
  assert (k1 = k2) as -> by (clear - Hr L1 L2; generalize dependent (b1 * b2); intros; nia). assert (Hr' : r1 * b2 = r2 * b1) by nia.
  destruct (Z.ltb_spec (2 * r1) b1), (Z.ltb_spec (2 * r2) b2); try nia.
  destruct (Z.ltb_spec b1 (2 * r1)), (Z.ltb_spec b2 (2 * r2)); try nia; done.
Qed.

Lemma round_half_even_mono a1 b1 a2 b2 :
  0 < b1 -> 0 < b2 -> a1 * b2 <= a2 * b1 -> round_half_even a1 b1 <= round_half_even a2 b2.
Proof.
  intros H1 H2 Hle. destruct (Z.eq_dec (a1 * b2) (a2 * b1)) as [E|Hne].
  { by rewrite (round_half_even_ext a1 b1 a2 b2). }
  pose proof (round_half_even_error a1 b1 H1) as Er1. pose proof (round_half_even_error a2 b2 H2) as Er2.
  set (m1 := round_half_even a1 b1) in *. set (m2 := round_half_even a2 b2) in *.
  apply Z.abs_le in Er1, Er2. destruct (Z.le_gt_cases m1 m2) as [|Hgt]; [done|exfalso].
  assert (2 * b1 * b2 * (m1 - m2) <= 2 * (a1 * b2 - a2 * b1) + 2 * b1 * b2) by nia. nia.
Qed.

(** ** Powers of two *)

Local Open Scope Q_scope.

Definition two_p (e : Z) : Q := Qpower 2 e.

Lemma two_p_pos e : 0 < two_p e.
Proof. apply Qpower_0_lt. reflexivity. Qed.

Lemma two_p_plus a b : two_p (a + b) == two_p a * two_p b.
Proof. apply Qpower_plus. discriminate. Qed.

Lemma two_p_Z (e : Z) : (0 <= e)%Z -> two_p e == inject_Z (2 ^ e).
Proof.
  intros He. unfold two_p. symmetry. exact (Zpower_Qpower 2 e He).
Qed.

Lemma scale2_two_p m e : scale2 m e == inject_Z m * two_p e.
Proof.
  unfold scale2. destruct (Z.leb_spec 0 e) as [He|He].
  - by rewrite inject_Z_mult, two_p_Z.
  - pose proof (Z.pow_pos_nonneg 2 (- e) ltac:(lia) ltac:(lia)) as Hp.
    assert (E : two_p e * inject_Z (2 ^ (- e)) == 1).
    { rewrite <- two_p_Z by lia. rewrite <- two_p_plus. by replace (e + - e)%Z with 0%Z by lia. }
    assert (Hm : Qmake m (Z.to_pos (2 ^ (- e))) * inject_Z (2 ^ (- e)) == inject_Z m).
    { unfold Qeq, Qmult, inject_Z. simpl. rewrite Pos.mul_1_r, Z2Pos.id by done. lia. }
    rewrite <- Hm, <- Qmult_assoc, (Qmult_comm (inject_Z _) (two_p e)), E. ring.
Qed.

Lemma over2_two_p (n d e : Z) : (0 < n)%Z -> (0 < d)%Z ->
  let '(a, b) := over2 n d e in (0 < b)%Z /\ inject_Z a * two_p e * inject_Z d == inject_Z n * inject_Z b.
Proof.
  intros Hn Hd. unfold over2. destruct (Z.leb_spec 0 e) as [He|He].
  - split; [pose proof (Z.pow_pos_nonneg 2 e ltac:(lia) He); nia|]. rewrite inject_Z_mult, two_p_Z by done. ring.
  - split; [done|]. rewrite inject_Z_mult.
    assert (E : inject_Z (2 ^ (- e)) * two_p e == 1).
    { rewrite <- two_p_Z by lia. rewrite <- two_p_plus. by replace (- e + e)%Z with 0%Z by lia. }
    rewrite <- (Qmult_assoc (inject_Z n)), E. ring.
Qed.

(** ** The significand has 53 bits *)

Lemma exponent_upper n d : (0 < n)%Z -> (0 < d)%Z ->
  let '(a, b) := over2 n d (exponent n d) in (a < 2 ^ 53 * b)%Z.
Proof.
  intros Hn Hd. unfold exponent. set (e := (Z.log2 n - Z.log2 d - 53)%Z).
  destruct (over2 n d e) as [a b] eqn:E. destruct (Z.ltb_spec a (2 ^ 53 * b)) as [Hlt|Hge]; [by rewrite E|].
  pose proof (Z.log2_spec n Hn) as [Hn1 Hn2]. pose proof (Z.log2_spec d Hd) as [Hd1 Hd2].
  pose proof (Z.log2_nonneg n). pose proof (Z.log2_nonneg d). unfold over2.
  destruct (Z.leb_spec 0 (e + 1)) as [He|He].
  - assert (E2 : (2 ^ 53 * (2 ^ Z.log2 d * 2 ^ (e + 1)) = 2 ^ Z.succ (Z.log2 n))%Z).
    { rewrite <- !Z.pow_add_r by lia. f_equal. lia. }
    pose proof (Z.pow_pos_nonneg 2 (e + 1) ltac:(lia) He). nia.
  - assert (E2 : (2 ^ Z.succ (Z.log2 n) * 2 ^ (- (e + 1)) = 2 ^ 53 * 2 ^ Z.log2 d)%Z).
    { rewrite <- !Z.pow_add_r by lia. f_equal. lia. }
    pose proof (Z.pow_pos_nonneg 2 (- (e + 1)) ltac:(lia) ltac:(lia)). nia.
Qed.

(** A positive number lies between [2^52] and [2^53] units of its own scale. *)
Definition units (n d e : Z) (q : Q) : Prop :=
  inject_Z (2 ^ 52) * two_p e <= q /\ q < inject_Z (2 ^ 53) * two_p e.

Lemma Qeq_le a b : a == b -> a <= b.
Proof. intros ->. apply Qle_refl. Qed.

Lemma Qmult_cancel_le a b c : 0 < c -> a * c <= b * c -> a <= b.
Proof. intros Hc H. by apply Qmult_le_r in H. Qed.
Lemma Qmult_cancel_lt a b c : 0 < c -> a * c < b * c -> a < b.
Proof. intros Hc H. by apply Qmult_lt_r in H. Qed.

Lemma inject_pos z : (0 < z)%Z -> 0 < inject_Z z.
Proof. intros H. change 0 with (inject_Z 0). by rewrite <- Zlt_Qlt. Qed.

Lemma exponent_units n (d : positive) : (0 < n)%Z ->
  units n (Zpos d) (exponent n (Zpos d)) (n # d).
Proof.
  intros Hn. pose proof (exponent_spec n (Zpos d) Hn eq_refl) as Hlo. pose proof (exponent_upper n (Zpos d) Hn eq_refl) as Hhi.
  pose proof (over2_two_p n (Zpos d) (exponent n (Zpos d)) Hn eq_refl) as Ho.
  set (e := exponent n (Zpos d)) in *. destruct (over2 n (Zpos d) e) as [a b]. destruct Ho as [Hb Ho].
  assert (Eq : (n # d) * inject_Z (Zpos d) == inject_Z n) by (unfold Qeq, Qmult, inject_Z; simpl; lia).
  assert (Eq2 : (n # d) * (inject_Z b * inject_Z (Zpos d)) == inject_Z a * two_p e * inject_Z (Zpos d)).
  { rewrite Ho, <- Eq. ring. }
  pose proof (inject_pos b Hb) as Hb'. pose proof (inject_pos (Zpos d) eq_refl) as Hd'. pose proof (two_p_pos e) as He.
  assert (Hc : 0 < inject_Z b * inject_Z (Zpos d)) by by apply Qmult_lt_0_compat.
  split.
  - apply (Qmult_cancel_le _ _ (inject_Z b * inject_Z (Zpos d)) Hc). rewrite Eq2.
    assert (Hz : inject_Z (2 ^ 52) * inject_Z b <= inject_Z a) by (rewrite <- inject_Z_mult, <- Zle_Qle; done).
    assert (Hp : 0 < two_p e * inject_Z (Zpos d)) by by apply Qmult_lt_0_compat.
    apply (Qmult_le_r _ _ _ Hp) in Hz. eapply Qle_trans; [|eapply Qle_trans; [exact Hz|]]; apply Qeq_le; ring.
  - apply (Qmult_cancel_lt _ _ (inject_Z b * inject_Z (Zpos d)) Hc). rewrite Eq2.
    assert (Hz : inject_Z a < inject_Z (2 ^ 53) * inject_Z b) by (rewrite <- inject_Z_mult, <- Zlt_Qlt; done).
    assert (Hp : 0 < two_p e * inject_Z (Zpos d)) by by apply Qmult_lt_0_compat.
    apply (Qmult_lt_r _ _ _ Hp) in Hz. eapply Qle_lt_trans; [|eapply Qlt_le_trans; [exact Hz|]]; apply Qeq_le; ring.
Qed.

(** ** Monotone *)

Lemma round_to_units n (d : positive) e : (0 < n)%Z -> units n (Zpos d) e (n # d) ->
  exists m, (2 ^ 52 <= m <= 2 ^ 53)%Z /\ round_to n (Zpos d) e == inject_Z m * two_p e
    /\ m = (let '(a, b) := over2 n (Zpos d) e in round_half_even a b).
Proof.
  intros Hn [Hlo Hhi]. pose proof (over2_two_p n (Zpos d) e Hn eq_refl) as Ho. unfold round_to.
  destruct (over2 n (Zpos d) e) as [a b]. destruct Ho as [Hb Ho].
  exists (round_half_even a b). split; [|split; [apply scale2_two_p|done]].
  assert (Eq : (n # d) * inject_Z b == inject_Z a * two_p e).
  { assert (Hd : ~ inject_Z (Zpos d) == 0) by (unfold Qeq; simpl; lia). apply (Qmult_inj_r _ _ _ Hd). rewrite Ho.
    assert (En : (n # d) * inject_Z (Zpos d) == inject_Z n) by (unfold Qeq, Qmult, inject_Z; simpl; lia).
    rewrite <- En. ring. }
  pose proof (inject_pos b Hb) as Hb'. pose proof (two_p_pos e) as He.
  assert (H1 : (2 ^ 52 * b <= a)%Z).
  { rewrite Zle_Qle, inject_Z_mult. apply (Qmult_cancel_le _ _ _ He). rewrite <- Eq.
    apply (Qmult_le_r _ _ _ Hb') in Hlo. eapply Qle_trans; [|exact Hlo]. apply Qeq_le. ring. }
  assert (H2 : (a <= 2 ^ 53 * b)%Z).
  { rewrite Zle_Qle, inject_Z_mult. apply (Qmult_cancel_le _ _ _ He). rewrite <- Eq.
    apply Qlt_le_weak in Hhi. apply (Qmult_le_r _ _ _ Hb') in Hhi. eapply Qle_trans; [exact Hhi|]. apply Qeq_le. ring. }
  split.
  - rewrite <- (round_half_even_exact (2 ^ 52) 1) by done. apply round_half_even_mono; lia.
  - rewrite <- (round_half_even_exact (2 ^ 53) 1) by done. apply round_half_even_mono; lia.
Qed.

(** The scales of two numbers are ordered as the numbers are. *)
Lemma units_mono n1 d1 e1 n2 d2 e2 q1 q2 :
  units n1 d1 e1 q1 -> units n2 d2 e2 q2 -> q1 <= q2 -> (e1 <= e2)%Z.
Proof.
  intros [L1 _] [_ U2] Hle. destruct (Z.le_gt_cases e1 e2) as [|Hgt]; [done|exfalso].
  assert (H : inject_Z (2 ^ 52) * two_p e1 < inject_Z (2 ^ 53) * two_p e2).
  { eapply Qle_lt_trans; [exact L1|]. eapply Qle_lt_trans; [exact Hle|exact U2]. }
  replace e1 with (e2 + 1 + (e1 - e2 - 1))%Z in H by lia. rewrite !two_p_plus in H.
  pose proof (two_p_pos e2) as He. rewrite (two_p_Z (e1 - e2 - 1)) in H by lia.
  assert (Hp : 1 <= inject_Z (2 ^ (e1 - e2 - 1))).
  { change 1 with (inject_Z 1). rewrite <- Zle_Qle. pose proof (Z.pow_pos_nonneg 2 (e1 - e2 - 1)). lia. }
  change (two_p 1) with 2 in H. change (2 ^ 53)%Z with (2 ^ 52 * 2)%Z in H. rewrite inject_Z_mult in H.
  set (p := inject_Z (2 ^ (e1 - e2 - 1))) in *. set (t := two_p e2) in *. set (c := inject_Z (2 ^ 52)) in *.
  assert (Hc : 0 < c) by reflexivity. change (inject_Z 2) with 2 in H. clearbody p t c.
  assert (Hct : 0 < c * t) by by apply Qmult_lt_0_compat.
  assert (E1 : c * (t * 2 * p) == c * t * 2 * p) by ring. rewrite E1 in H.
  assert (Hpp : c * t * 2 * 1 <= c * t * 2 * p).
  { apply Qmult_le_l; [|done]. by apply Qmult_lt_0_compat. }
  assert (E2 : c * 2 * t == c * t * 2 * 1) by ring. rewrite E2 in H.
  exact (Qlt_irrefl _ (Qle_lt_trans _ _ _ Hpp H)).
Qed.

Lemma two_p_le a b : (a <= b)%Z -> two_p a <= two_p b.
Proof.
  intros H. replace b with (a + (b - a))%Z by lia. rewrite two_p_plus, (two_p_Z (b - a)) by lia.
  assert (Hp : inject_Z 1 <= inject_Z (2 ^ (b - a))).
  { rewrite <- Zle_Qle. pose proof (Z.pow_pos_nonneg 2 (b - a)). lia. }
  pose proof (two_p_pos a) as Ha. apply (Qmult_le_l _ _ _ Ha) in Hp. eapply Qle_trans; [|exact Hp].
  apply Qeq_le. change (inject_Z 1) with 1. ring.
Qed.

Lemma round_pos_mono n1 (d1 : positive) n2 (d2 : positive) : (0 < n1)%Z -> (0 < n2)%Z -> (n1 # d1) <= (n2 # d2) ->
  round_to n1 (Zpos d1) (exponent n1 (Zpos d1)) <= round_to n2 (Zpos d2) (exponent n2 (Zpos d2)).
Proof.
  intros H1 H2 Hle. pose proof (exponent_units n1 d1 H1) as U1. pose proof (exponent_units n2 d2 H2) as U2.
  pose proof (units_mono _ _ _ _ _ _ _ _ U1 U2 Hle) as He.
  destruct (round_to_units n1 d1 _ H1 U1) as (m1 & B1 & -> & E1). destruct (round_to_units n2 d2 _ H2 U2) as (m2 & B2 & -> & E2).
  set (e1 := exponent n1 (Zpos d1)) in *. set (e2 := exponent n2 (Zpos d2)) in *.
  destruct (Z.eq_dec e1 e2) as [Ee|Hne].
  - rewrite <- Ee in *. apply Qmult_le_r; [apply two_p_pos|]. rewrite <- Zle_Qle. rewrite E1, E2. clear - H1 H2 Hle.
    unfold over2. unfold Qle in Hle. simpl in Hle. destruct (Z.leb_spec 0 e1) as [He|He].
    + pose proof (Z.pow_pos_nonneg 2 e1 ltac:(lia) He). apply round_half_even_mono; nia.
    + pose proof (Z.pow_pos_nonneg 2 (- e1) ltac:(lia) ltac:(lia)). apply round_half_even_mono; nia.
  - assert (Hp : two_p (e1 + 1) <= two_p e2) by (apply two_p_le; lia). rewrite two_p_plus in Hp. change (two_p 1) with 2 in Hp.
    pose proof (two_p_pos e1) as P1. pose proof (two_p_pos e2) as P2.
    apply Qle_trans with (inject_Z (2 ^ 53) * two_p e1).
    { apply Qmult_le_r; [done|]. rewrite <- Zle_Qle. lia. }
    apply Qle_trans with (inject_Z (2 ^ 52) * two_p e2).
    { assert (H52 : 0 < inject_Z (2 ^ 52)) by reflexivity. apply (Qmult_le_l _ _ _ H52) in Hp.
      eapply Qle_trans; [|exact Hp]. apply Qeq_le. change (2 ^ 53)%Z with (2 ^ 52 * 2)%Z. rewrite inject_Z_mult.
      change (inject_Z 2) with 2. ring. }
    apply Qmult_le_r; [done|]. rewrite <- Zle_Qle. lia.
Qed.

Lemma round_pos_nonneg n (d : positive) : (0 < n)%Z -> 0 <= round_to n (Zpos d) (exponent n (Zpos d)).
Proof.
  intros Hn. destruct (round_to_units n d _ Hn (exponent_units n d Hn)) as (m & B & -> & _).
  apply Qmult_le_0_compat; [|apply Qlt_le_weak, two_p_pos]. change 0 with (inject_Z 0). rewrite <- Zle_Qle. lia.
Qed.

(** Rounding is monotone. *)
Lemma rn_mono a b : a <= b -> rn a <= rn b.
Proof.
  destruct a as [n1 d1], b as [n2 d2]. intros Hle. unfold rn. cbn [Qnum Qden].
  assert (Hz : (n1 * Zpos d2 <= n2 * Zpos d1)%Z) by exact Hle.
  destruct (Z.eqb_spec n1 0) as [->|N1], (Z.eqb_spec n2 0) as [->|N2].
  - apply Qle_refl.
  - destruct (Z.ltb_spec n2 0); [nia|]. apply round_pos_nonneg. lia.
  - destruct (Z.ltb_spec n1 0); [|nia]. change 0 with (- 0). apply Qopp_le_compat. apply round_pos_nonneg. lia.
  - destruct (Z.ltb_spec n1 0) as [S1|S1], (Z.ltb_spec n2 0) as [S2|S2].
    + apply Qopp_le_compat. apply round_pos_mono; [lia|lia|]. unfold Qle. simpl. nia.
    + apply Qle_trans with 0.
      * change 0 with (- 0). apply Qopp_le_compat. apply round_pos_nonneg. lia.
      * apply round_pos_nonneg. lia.
    + nia.
    + apply round_pos_mono; [lia|lia|]. unfold Qle. simpl. nia.
Qed.

#[export] Instance rn_proper : Proper (Qeq ==> Qeq) rn.
Proof. intros a b E. apply Qle_antisym; apply rn_mono; rewrite E; apply Qle_refl. Qed.

Lemma rn_int k : (Z.abs k < 2 ^ 53)%Z -> rn (inject_Z k) == inject_Z k.
Proof. intros Hk. rewrite <- (rn_exact k 1 Hk) at 2. apply rn_proper. unfold Qeq, inject_Z. simpl. lia. Qed.

Lemma rn_le_int q k : (Z.abs k < 2 ^ 53)%Z -> q <= inject_Z k -> rn q <= inject_Z k.
Proof. intros Hk Hq. rewrite <- (rn_int k Hk). by apply rn_mono. Qed.
Lemma rn_ge_int q k : (Z.abs k < 2 ^ 53)%Z -> inject_Z k <= q -> inject_Z k <= rn q.
Proof. intros Hk Hq. rewrite <- (rn_int k Hk). by apply rn_mono. Qed.

Lemma rn_opp q : rn (- q) == - rn q.
Proof.
  unfold rn, Qopp. cbn [Qnum Qden]. destruct (Z.eqb_spec (- Qnum q) 0), (Z.eqb_spec (Qnum q) 0); try lia; [done|].
  rewrite Z.abs_opp. destruct (Z.ltb_spec (- Qnum q) 0), (Z.ltb_spec (Qnum q) 0); try lia.
  - done.
  - change (round_to (Z.abs (Qnum q)) (Z.pos (Qden q)) (exponent (Z.abs (Qnum q)) (Z.pos (Qden q))) ==
            - - round_to (Z.abs (Qnum q)) (Z.pos (Qden q)) (exponent (Z.abs (Qnum q)) (Z.pos (Qden q)))).
    by rewrite Qopp_involutive.
Qed.
