(* ===== verification/Atomic.v ===== *)
(** * Handlers as sequences of transactions

    A handler of the run pipeline opens sessions, commits, calls Redis, Neo4j and
    the relay, and other handlers run in between.  [act] is a handler cut at its
    commits: each [Tx] is one committed unit on the shared state, and anything may
    happen before the next one.  [pool_step] interleaves any number of handlers;
    a unit may be done, may fail and leave nothing, or may be done with the
    connection lost before the answer.  [safe_from] is the rule by which an
    invariant, and a relation between any two moments, are shown of a handler
    whatever runs beside it; [within] is its shorter form for handlers whose units
    need nothing from the ones before. *)

From S2P Require Import Prelude.

(** ** The body of a unit: statements on the state, or an exception *)

Definition TX (S A : Type) : Type := S -> res exn A * S.

#[export] Instance TX_mret S : MRet (TX S) := fun _ a s => (Ok a, s).
#[export] Instance TX_mbind S : MBind (TX S) := fun _ _ f m s =>
  match m s with (Ok a, s') => f a s' | (Raise e, s') => (Raise e, s') end.

Definition raise {S A} (e : exn) : TX S A := fun s => (Raise e, s).
Definition reads {S A} (f : S -> A) : TX S A := fun s => (Ok (f s), s).
Definition writes {S} (f : S -> S) : TX S unit := fun s => (Ok tt, f s).

Lemma tx_bind_ok {S A B} (m : TX S A) (f : A -> TX S B) s a s' :
  m s = (Ok a, s') -> (m ≫= f) s = f a s'.
Proof. unfold mbind, TX_mbind. by intros ->. Qed.

(** The first two statements of three. *)
Lemma tx_bind_pair {S A B C} (m : TX S A) (n : TX S B) (f : B -> TX S C) s b s' :
  (m ≫= fun _ => n) s = (Ok b, s') -> (m ≫= fun _ => n ≫= f) s = f b s'.
Proof.
  unfold mbind, TX_mbind. destruct (m s) as [[a|e] s1]; [|done]. by intros ->.
Qed.

(** An exception rolls the session back. *)
Definition committed {S A} (m : TX S A) : TX S A := fun s =>
  match m s with (Ok a, s') => (Ok a, s') | (Raise e, _) => (Raise e, s) end.

Lemma committed_ok {S A} (m : TX S A) s a s' : m s = (Ok a, s') -> committed m s = (Ok a, s').
Proof. unfold committed. by intros ->. Qed.

Lemma committed_raise {S A} (m : TX S A) s e s' : m s = (Raise e, s') -> committed m s = (Raise e, s).
Proof. unfold committed. by intros ->. Qed.

Lemma committed_reads {S A} (f : S -> A) s : committed (reads f) s = (Ok (f s), s).
Proof. done. Qed.

(** ** Handlers *)

Inductive act (S A : Type) : Type :=
  | Ret (r : res exn A)
  | Tx {B : Type} (f : TX S B) (k : res exn B -> act S A).
Arguments Ret {S A} r.
Arguments Tx {S A B} f k.

Fixpoint act_bind {S A B} (p : act S A) (f : A -> act S B) : act S B :=
  match p with
  | Ret (Ok a) => f a
  | Ret (Raise e) => Ret (Raise e)
  | Tx t k => Tx t (fun r => act_bind (k r) f)
  end.

#[export] Instance act_mret S : MRet (act S) := fun _ a => Ret (Ok a).
#[export] Instance act_mbind S : MBind (act S) := fun _ _ f p => act_bind p f.

Lemma act_bind_ok {S A B} (a : A) (f : A -> act S B) : (Ret (Ok a) ≫= f) = f a.
Proof. done. Qed.

(** [try: p  except Exception as e: h(e)]. *)
Fixpoint act_try {S A} (p : act S A) (h : exn -> act S A) : act S A :=
  match p with
  | Ret (Ok a) => Ret (Ok a)
  | Ret (Raise e) => h e
  | Tx t k => Tx t (fun r => act_try (k r) h)
  end.

(** [async with db_session() as db: ...; await db.commit()]. *)
Definition session {S A} (m : TX S A) : act S A := Tx (committed m) Ret.
Definition throw {S A} (e : exn) : act S A := Ret (Raise e).

(** ** Interleaving *)

Record Pool (S : Type) := { shared : S; running : gmap nat (act S unit) }.
Arguments Build_Pool {S}.
Arguments shared {S}.
Arguments running {S}.

Section pool.
Context {S : Type} (handler : act S unit -> Prop) (outside : S -> S -> Prop).

Inductive pool_step (p : Pool S) : Pool S -> Prop :=
  | pool_start i h :
      handler h -> running p !! i = None ->
      pool_step p {| shared := shared p; running := <[i := h]> (running p) |}
  | pool_done i B (f : TX S B) k :
      running p !! i = Some (Tx f k) ->
      pool_step p {| shared := (f (shared p)).2; running := <[i := k (f (shared p)).1]> (running p) |}
  | pool_failed i B (f : TX S B) k e :
      running p !! i = Some (Tx f k) ->
      pool_step p {| shared := shared p; running := <[i := k (Raise e)]> (running p) |}
  | pool_unanswered i B (f : TX S B) k e :
      running p !! i = Some (Tx f k) ->
      pool_step p {| shared := (f (shared p)).2; running := <[i := k (Raise e)]> (running p) |}
  | pool_gone i : pool_step p {| shared := shared p; running := delete i (running p) |}
  | pool_outside s : outside (shared p) s -> pool_step p {| shared := s; running := running p |}.
End pool.

(** A handler alone, every unit done. *)
Fixpoint run_act {S A} (p : act S A) (s : S) : res exn A * S :=
  match p with
  | Ret r => (r, s)
  | Tx f k => run_act (k (f s).1) (f s).2
  end.

(** A pool can run a handler of its own from beginning to end. *)
Lemma pool_runs {S} (handler : act S unit -> Prop) (outside : S -> S -> Prop) h i (p : Pool S) :
  handler h -> running p !! i = None ->
  rtc (pool_step handler outside) p {| shared := (run_act h (shared p)).2; running := running p |}.
Proof.
  intros Hh Hi. eapply rtc_l; [by apply (pool_start _ _ p i h)|]. clear Hh.
  enough (Hgo : forall s, rtc (pool_step handler outside) {| shared := s; running := <[i := h]> (running p) |}
    {| shared := (run_act h s).2; running := running p |}) by apply Hgo.
  induction h as [r|B f k IH]; intros s.
  - apply rtc_once. pose proof (pool_gone handler outside {| shared := s; running := <[i := Ret r]> (running p) |} i) as Hg.
    simpl in Hg. by rewrite delete_insert_id in Hg.
  - eapply rtc_l; [eapply (pool_done _ _ _ i); apply lookup_insert_eq|]. simpl. rewrite insert_insert_eq. apply IH.
Qed.

Lemma run_act_bind {S A B} (p : act S A) (f : A -> act S B) s :
  run_act (p ≫= f) s =
  match run_act p s with (Ok a, s') => run_act (f a) s' | (Raise e, s') => (Raise e, s') end.
Proof. revert s. induction p as [[a|e]|B' t k IH]; intros s; [done|done|]. exact (IH _ _). Qed.

Lemma run_act_tx {S A} (f : TX S A) s : run_act (Tx f Ret) s = f s.
Proof. simpl. by destruct (f s). Qed.

Lemma run_act_session {S A} (m : TX S A) s : run_act (session m) s = committed m s.
Proof. apply run_act_tx. Qed.

Lemma run_act_try {S A} (p : act S A) (h : exn -> act S A) s :
  run_act (act_try p h) s =
  match run_act p s with (Ok a, s') => (Ok a, s') | (Raise e, s') => run_act (h e) s' end.
Proof. revert s. induction p as [[a|e]|B' t k IH]; intros s; [done|done|]. exact (IH _ _). Qed.

(** *** Alone, but not undisturbed: every unit may be done, fail, or lose its answer *)

Fixpoint any_run {S A} (p : act S A) (s : S) (Q : res exn A -> S -> Prop) : Prop :=
  match p with
  | Ret r => Q r s
  | Tx f k => any_run (k (f s).1) (f s).2 Q
              /\ forall e, any_run (k (Raise e)) s Q /\ any_run (k (Raise e)) (f s).2 Q
  end.

Lemma any_run_mono {S A} (p : act S A) s (Q Q' : res exn A -> S -> Prop) :
  any_run p s Q -> (forall r s', Q r s' -> Q' r s') -> any_run p s Q'.
Proof.
  intros Hp HQ. revert s Hp. induction p as [r|B f k IH]; intros s Hp; simpl in *; [auto|].
  destruct Hp as [H1 H2]. split; [by apply IH|]. intros e. destruct (H2 e). split; by apply IH.
Qed.

Lemma any_run_bind {S A B} (p : act S A) (f : A -> act S B) s Q :
  any_run p s (fun r s' => match r with Ok a => any_run (f a) s' Q | Raise e => Q (Raise e) s' end) ->
  any_run (p ≫= f) s Q.
Proof.
  revert s. induction p as [[a|e]|B' t k IH]; intros s Hp; [done|done|].
  destruct Hp as [H1 H2]. split; [by apply IH|]. intros e. destruct (H2 e). split; by apply IH.
Qed.

Lemma any_run_try {S A} (p : act S A) (h : exn -> act S A) s Q :
  any_run p s (fun r s' => match r with Ok a => Q (Ok a) s' | Raise e => any_run (h e) s' Q end) ->
  any_run (act_try p h) s Q.
Proof.
  revert s. induction p as [[a|e]|B' t k IH]; intros s Hp; [done|done|].
  destruct Hp as [H1 H2]. split; [by apply IH|]. intros e. destruct (H2 e). split; by apply IH.
Qed.

Lemma any_run_tx {S A} (f : TX S A) s (Q : res exn A -> S -> Prop) :
  Q (f s).1 (f s).2 -> (forall e, Q (Raise e) s) -> (forall e, Q (Raise e) (f s).2) -> any_run (Tx f Ret) s Q.
Proof. intros H1 H2 H3. split; [done|]. intros e. split; [apply H2|apply H3]. Qed.

(** ** What a handler knows survives what others do

    [R] is what any step, of this handler or of another, can do to the state; a
    fact about a past state that [R] preserves can be used later.  [safe_from s0]
    is a handler whose last look at the state was [s0]. *)

Section safe.
Context {S : Type} (R : S -> S -> Prop) (I : S -> Prop).

Definition step_ok (s s' : S) : Prop := I s' /\ R s s'.

Fixpoint safe_from {A} (s0 : S) (p : act S A) (post : A -> S -> Prop) : Prop :=
  match p with
  | Ret (Ok a) => post a s0
  | Ret (Raise _) => True
  | Tx f k =>
      forall s, R s0 s -> I s ->
        step_ok s (f s).2 /\ safe_from (f s).2 (k (f s).1) post
        /\ forall e, safe_from s (k (Raise e)) post /\ safe_from (f s).2 (k (Raise e)) post
  end.

Context (R_refl : forall s, R s s) (R_trans : forall s1 s2 s3, R s1 s2 -> R s2 s3 -> R s1 s3).

Lemma safe_mono {A} s0 (p : act S A) (P P' : A -> S -> Prop) :
  safe_from s0 p P -> (forall a s, R s0 s -> P a s -> P' a s) -> safe_from s0 p P'.
Proof using R_refl R_trans.
  revert s0. induction p as [[a|e]|B f k IH]; intros s0 Hp HPP; simpl in *; [auto|done|].
  intros s Hs HI. destruct (Hp s Hs HI) as ([HI' HR] & Hk & He). split; [done|].
  assert (Hstep : R s0 (f s).2) by by eapply R_trans.
  split; [|intros e; destruct (He e) as [H1 H2]; split]; eapply IH; eauto.
Qed.

Lemma act_safe_bind {A B} s0 (p : act S A) (f : A -> act S B) (P : A -> S -> Prop) (P' : B -> S -> Prop) :
  safe_from s0 p P -> (forall a s, R s0 s -> P a s -> safe_from s (f a) P') ->
  safe_from s0 (p ≫= f) P'.
Proof using R_refl R_trans.
  revert s0. induction p as [[a|e]|B' t k IH]; intros s0 Hp Hf; simpl in *; [auto|done|].
  intros s Hs HI. destruct (Hp s Hs HI) as ([HI' HR] & Hk & He). split; [done|].
  assert (Hstep : R s0 (t s).2) by by eapply R_trans.
  split; [|intros e; destruct (He e) as [H1 H2]; split]; eapply IH; eauto.
Qed.

Lemma act_safe_try {A} s0 (p : act S A) (h : exn -> act S A) (P : A -> S -> Prop) :
  safe_from s0 p P -> (forall e s, R s0 s -> safe_from s (h e) P) -> safe_from s0 (act_try p h) P.
Proof using R_refl R_trans.
  revert s0. induction p as [[a|e]|B' t k IH]; intros s0 Hp Hh; simpl in *; [auto|auto|].
  intros s Hs HI. destruct (Hp s Hs HI) as ([HI' HR] & Hk & He). split; [done|].
  assert (Hstep : R s0 (t s).2) by by eapply R_trans.
  split; [|intros e; destruct (He e) as [H1 H2]; split]; eapply IH; eauto.
Qed.

(** One unit with a postcondition. *)
Lemma safe_tx {A} s0 (f : TX S A) (P : A -> S -> Prop) :
  (forall s, R s0 s -> I s ->
     step_ok s (f s).2 /\ match (f s).1 with Ok a => P a (f s).2 | Raise _ => True end) ->
  safe_from s0 (Tx f Ret) P.
Proof using.
  intros H s Hs HI. destruct (H s Hs HI) as [Hok HP]. split; [done|]. split; [|done].
  simpl. by destruct (f s).1.
Qed.

Lemma safe_session {A} s0 (m : TX S A) (P : A -> S -> Prop) :
  (forall s, R s0 s -> I s ->
     match m s with (Ok a, s') => step_ok s s' /\ P a s' | (Raise _, _) => True end) ->
  safe_from s0 (session m) P.
Proof using R_refl.
  intros H. apply safe_tx. intros s Hs HI. specialize (H s Hs HI). unfold committed.
  destruct (m s) as [[a|e] s']; simpl; [done|]. split; [|done]. by split.
Qed.

(** A handler that is alone. *)
Lemma safe_run {A} s (p : act S A) (post : A -> S -> Prop) : safe_from s p post -> I s ->
  I (run_act p s).2 /\ match (run_act p s).1 with Ok a => post a (run_act p s).2 | Raise _ => True end.
Proof using R_refl.
  revert s. induction p as [[a|e]|B f k IH]; intros s Hp HI; [done|done|].
  destruct (Hp s (R_refl s) HI) as ([HI' _] & Hk & _). by apply IH.
Qed.

(** *** Units that are fine wherever they run *)

Definition keeps {A} (m : TX S A) : Prop := forall s, I s -> step_ok s (m s).2.

Lemma keeps_bind {A B} (m : TX S A) (f : A -> TX S B) :
  keeps m -> (forall a, keeps (f a)) -> keeps (m ≫= f).
Proof using R_trans.
  intros Hm Hf s HI. unfold mbind, TX_mbind. specialize (Hm s HI).
  destruct (m s) as [[a|e] s1]; simpl in *; [|done]. destruct Hm as [HI1 HR1].
  destruct (Hf a s1 HI1) as [HI2 HR2]. split; [done|]. by eapply R_trans.
Qed.

Lemma keeps_reads {A} (f : S -> A) : keeps (reads f).
Proof using R_refl. intros s HI. by split. Qed.
Lemma keeps_ret {A} (a : A) : keeps (mret a : TX S A).
Proof using R_refl. intros s HI. by split. Qed.
Lemma keeps_raise {A} (e : exn) : keeps (raise (A:=A) e).
Proof using R_refl. intros s HI. by split. Qed.

Fixpoint within {A} (p : act S A) : Prop :=
  match p with
  | Ret _ => True
  | Tx f k => keeps f /\ forall r, within (k r)
  end.

Lemma within_bind {A B} (p : act S A) (f : A -> act S B) :
  within p -> (forall a, within (f a)) -> within (p ≫= f).
Proof using.
  intros Hp Hf. induction p as [[a|e]|B' t k IH]; [apply Hf|done|].
  destruct Hp as [Ht Hk]. split; [done|]. intros r. by apply IH.
Qed.

Lemma within_try {A} (p : act S A) (h : exn -> act S A) :
  within p -> (forall e, within (h e)) -> within (act_try p h).
Proof using.
  intros Hp Hh. induction p as [[a|e]|B t k IH]; [done|apply Hh|].
  destruct Hp as [Ht Hk]. split; [done|]. intros r. by apply IH.
Qed.

Lemma within_tx {A} (f : TX S A) : keeps f -> within (Tx f Ret).
Proof using. by split. Qed.

Lemma within_session {A} (m : TX S A) : keeps m -> within (session m).
Proof using R_refl.
  intros Hm. split; [|done]. intros s HI. unfold committed. specialize (Hm s HI).
  destruct (m s) as [[a|e] s']; simpl in *; [done|]. by split.
Qed.

Lemma within_safe {A} s0 (p : act S A) : within p -> safe_from s0 p (fun _ _ => True).
Proof using.
  revert s0. induction p as [[a|e]|B f k IH]; intros s0 Hp; [done|done|].
  destruct Hp as [Hf Hk]. intros s _ HI. split; [by apply Hf|]. split; [by apply IH|].
  intros e. split; by apply IH.
Qed.

Context (handler : act S unit -> Prop) (outside : S -> S -> Prop).
Context (handlers_safe : forall h s0, handler h -> I s0 -> safe_from s0 h (fun _ _ => True)).
Context (outside_ok : forall s s', I s -> outside s s' -> step_ok s s').

Definition pool_ok (p : Pool S) : Prop :=
  I (shared p) /\ forall i h, running p !! i = Some h ->
    exists s0, R s0 (shared p) /\ safe_from s0 h (fun _ _ => True).

Lemma pool_safe p p' :
  pool_ok p -> rtc (pool_step handler outside) p p' -> pool_ok p' /\ R (shared p) (shared p').
Proof using R_refl R_trans handlers_safe outside_ok.
  intros [HI Hrun] Hsteps. revert HI Hrun.
  induction Hsteps as [p|p1 p2 p3 H12 _ IH]; intros HI Hrun; [done|].
  assert (Hkeep : forall s, R (shared p1) s -> forall i h, running p1 !! i = Some h ->
    exists s0, R s0 s /\ safe_from s0 h (fun _ _ => True)).
  { intros s Hs i h Hi. destruct (Hrun i h Hi) as (s0 & H0 & Hsafe). eauto. }
  assert (Hins : forall s i h, R (shared p1) s -> safe_from s h (fun _ _ => True) ->
    forall j h', <[i := h]> (running p1) !! j = Some h' ->
      exists s0, R s0 s /\ safe_from s0 h' (fun _ _ => True)).
  { intros s i h Hs Hsafe j h' [[_ <-]|[_ Hj]]%lookup_insert_Some; [by exists s|by eapply Hkeep]. }
  assert (H : step_ok (shared p1) (shared p2) /\ forall i h, running p2 !! i = Some h ->
    exists s0, R s0 (shared p2) /\ safe_from s0 h (fun _ _ => True)).
  { destruct H12 as [i h Hn Hi|i B f k Hi|i B f k e Hi|i B f k e Hi|i|s Hs]; simpl.
    - split; [by split|]. apply Hins; auto.
    - destruct (Hrun _ _ Hi) as (s0 & H0 & Hsafe). destruct (Hsafe _ H0 HI) as (Hok & Hk & He).
      split; [done|]. apply Hins; [apply Hok|done].
    - destruct (Hrun _ _ Hi) as (s0 & H0 & Hsafe). destruct (Hsafe _ H0 HI) as (Hok & Hk & He).
      split; [by split|]. apply Hins; [done|apply He].
    - destruct (Hrun _ _ Hi) as (s0 & H0 & Hsafe). destruct (Hsafe _ H0 HI) as (Hok & Hk & He).
      split; [done|]. apply Hins; [apply Hok|apply He].
    - split; [by split|]. intros j h' Hj. simpl in Hj. apply lookup_delete_Some in Hj as [_ Hj].
      by eapply Hkeep.
    - split; [by apply outside_ok|]. apply Hkeep. by apply outside_ok. }
  destruct H as [[HI2 HR] Hrun2]. destruct (IH HI2 Hrun2) as [Hok3 HR3].
  split; [done|]. by eapply R_trans.
Qed.
End safe.

(** ** Counting what handlers hold

    [credit] is a number read off the state, such as the tickets given out and not
    spent.  [pays s0 n p post] is a handler that holds [n] of it: each of its units may
    lower the credit by no more than the handler gives up, and what it keeps on holding
    is backed by the state.  So the credit never falls below what all the handlers
    together hold, whatever they do in between, and never below zero. *)

Section tally.
Context {S : Type} (R : S -> S -> Prop) (I : S -> Prop) (credit : S -> Z).

Definition backed (s : S) (n : Z) (s' : S) (n' : Z) : Prop := (0 <= n' /\ credit s - n <= credit s' - n')%Z.

Fixpoint pays {A} (s0 : S) (n : Z) (p : act S A) (post : A -> S -> Z -> Prop) : Prop :=
  match p with
  | Ret (Ok a) => post a s0 n
  | Ret (Raise _) => True
  | Tx f k =>
      forall s, R s0 s -> I s ->
        step_ok R I s (f s).2
        /\ (exists n', backed s n (f s).2 n' /\ pays (f s).2 n' (k (f s).1) post)
        /\ forall e, pays s n (k (Raise e)) post
             /\ exists n', backed s n (f s).2 n' /\ pays (f s).2 n' (k (Raise e)) post
  end.

Context (R_refl : forall s, R s s) (R_trans : forall s1 s2 s3, R s1 s2 -> R s2 s3 -> R s1 s3).

Lemma pays_bind {A B} s0 n (p : act S A) (f : A -> act S B) (P : A -> S -> Z -> Prop) (P' : B -> S -> Z -> Prop) :
  pays s0 n p P -> (forall a s n', R s0 s -> P a s n' -> pays s n' (f a) P') -> pays s0 n (p ≫= f) P'.
Proof using R_refl R_trans.
  revert s0 n. induction p as [[a|e]|B' t k IH]; intros s0 n Hp Hf; simpl in *; [auto|done|].
  intros s Hs HI. destruct (Hp s Hs HI) as (Hok & (n' & Hn & Hk) & He). split; [done|].
  assert (Hstep : R s0 (t s).2) by (eapply R_trans; [exact Hs|apply Hok]).
  assert (Hlater : forall s1 m q, R s0 s1 -> pays s1 m (k q) P -> pays s1 m (act_bind (k q) f) P').
  { intros s1 m q H1 H2. eapply IH; [exact H2|]. intros a s2 m2 H3 H4. eapply Hf; [|exact H4]. by eapply R_trans. }
  split; [exists n'; split; [done|by apply Hlater]|]. intros e. destruct (He e) as [H1 (m & Hm & H2)].
  split; [by apply Hlater|]. exists m. split; [done|by apply Hlater].
Qed.

Lemma pays_weaken {A} s0 n (p : act S A) (P P' : A -> S -> Z -> Prop) :
  pays s0 n p P -> (forall a s n', P a s n' -> P' a s n') -> pays s0 n p P'.
Proof using.
  intros Hp HPP. revert s0 n Hp. induction p as [[a|e]|B f k IH]; intros s0 n Hp; simpl in *; [auto|done|].
  intros s Hs HI. destruct (Hp s Hs HI) as (Hok & (n' & Hn & Hk) & He). split; [done|].
  split; [exists n'; split; [done|by eapply IH]|]. intros e. destruct (He e) as [H1 (m & Hm & H2)].
  split; [by eapply IH|]. exists m. split; [done|by eapply IH].
Qed.

(** One unit. *)
Lemma pays_tx {A} s0 n (f : TX S A) (P : A -> S -> Z -> Prop) :
  (forall s, R s0 s -> I s -> step_ok R I s (f s).2
     /\ (credit s - n <= credit (f s).2)%Z
     /\ exists n', (0 <= n' /\ credit s - n <= credit (f s).2 - n')%Z /\ forall a, (f s).1 = Ok a -> P a (f s).2 n') ->
  pays s0 n (Tx f Ret) P.
Proof using.
  intros H s Hs HI. destruct (H s Hs HI) as (Hok & Hlost & n' & Hn & HP). split; [done|]. split.
  - exists n'. split; [done|]. simpl. destruct (f s).1; [by apply HP|done].
  - intros e. split; [done|]. exists 0%Z. split; [|done]. unfold backed. lia.
Qed.

(** A unit that does not touch the credit. *)
Lemma pays_idle {A} s0 n (f : TX S A) :
  (0 <= n)%Z -> (forall s, I s -> step_ok R I s (f s).2 /\ credit (f s).2 = credit s) ->
  pays s0 n (Tx f Ret) (fun _ _ n' => n' = n).
Proof using.
  intros Hn H. apply pays_tx. intros s _ HI. destruct (H s HI) as [Hok Hc]. split; [done|]. split; [lia|].
  exists n. split; [lia|done].
Qed.

(** A handler that never lowers the credit holds on to what it has. *)
Fixpoint spares {A} (p : act S A) : Prop :=
  match p with
  | Ret _ => True
  | Tx f k => (forall s, credit s <= credit (f s).2)%Z /\ forall r, spares (k r)
  end.

Lemma spares_bind {A B} (p : act S A) (f : A -> act S B) :
  spares p -> (forall a, spares (f a)) -> spares (p ≫= f).
Proof using.
  intros Hp Hf. induction p as [[a|e]|B' t k IH]; [apply Hf|done|].
  destruct Hp as [Ht Hk]. split; [done|]. intros r. by apply IH.
Qed.

Lemma spares_try {A} (p : act S A) (h : exn -> act S A) : spares p -> (forall e, spares (h e)) -> spares (act_try p h).
Proof using.
  intros Hp Hh. induction p as [[a|e]|B t k IH]; [done|apply Hh|].
  destruct Hp as [Ht Hk]. split; [done|]. intros r. by apply IH.
Qed.

Lemma spares_tx {A} (f : TX S A) : (forall s, credit s <= credit (f s).2)%Z -> spares (Tx f Ret).
Proof using. by split. Qed.

Lemma safe_pays {A} s0 n (p : act S A) (P : A -> S -> Prop) :
  (0 <= n)%Z -> safe_from R I s0 p P -> spares p -> pays s0 n p (fun a s n' => P a s /\ n' = n).
Proof using.
  intros Hn. revert s0. induction p as [[a|e]|B f k IH]; intros s0 Hp Hs; [done|done|].
  destruct Hs as [Hf Hk]. intros s Hs HI. destruct (Hp s Hs HI) as (Hok & Hnext & He). specialize (Hf s).
  assert (Hb : backed s n (f s).2 n) by (unfold backed; lia).
  split; [done|]. split; [exists n; split; [done|by apply IH]|]. intros e. destruct (He e) as [H1 H2].
  split; [by apply IH|]. exists n. split; [done|by apply IH].
Qed.

(** Only what it does to the state. *)
Lemma pays_safe {A} s0 n (p : act S A) (P : A -> S -> Z -> Prop) (Q : A -> S -> Prop) :
  pays s0 n p P -> (forall a s n', P a s n' -> Q a s) -> safe_from R I s0 p Q.
Proof using.
  intros Hp HPQ. revert s0 n Hp. induction p as [[a|e]|B f k IH]; intros s0 n Hp; simpl in *; [by eapply HPQ|done|].
  intros s Hs HI. destruct (Hp s Hs HI) as (Hok & (n' & _ & Hk) & He). split; [done|]. split; [by eapply IH|].
  intros e. destruct (He e) as [H1 (m & _ & H2)]. split; by eapply IH.
Qed.

(** *** A pool of them *)

Context (handler : act S unit -> Prop) (outside : S -> S -> Prop).
Context (handlers_pay : forall h s0, handler h -> I s0 -> pays s0 0 h (fun _ _ _ => True)).
Context (outside_ok : forall s s', I s -> outside s s' -> step_ok R I s s' /\ (credit s <= credit s')%Z).

Definition held_in_all (held : gmap nat Z) : Z := map_fold (fun _ n acc => n + acc)%Z 0%Z held.

Lemma held_insert (held : gmap nat Z) i n :
  (held_in_all (<[i := n]> held) = n - default 0 (held !! i) + held_in_all held)%Z.
Proof using.
  assert (Hfresh : forall m : gmap nat Z, m !! i = None -> held_in_all (<[i := n]> m) = (n + held_in_all m)%Z).
  { intros m Hm. unfold held_in_all. rewrite map_fold_insert_L; [done| |done]. intros; lia. }
  destruct (held !! i) as [m|] eqn:Hi; simpl; [|rewrite Hfresh by done; lia].
  rewrite <- insert_delete_eq, Hfresh by apply lookup_delete_eq. unfold held_in_all at 2.
  rewrite (map_fold_delete_L _ _ i m held) by (first [done | intros; lia]). fold (held_in_all (delete i held)). lia.
Qed.

Lemma held_delete (held : gmap nat Z) i : held_in_all (delete i held) = (held_in_all held - default 0 (held !! i))%Z.
Proof using.
  destruct (held !! i) as [m|] eqn:Hi; simpl; [|rewrite delete_id by done; lia].
  unfold held_in_all. rewrite (map_fold_delete_L _ _ i m held) by (first [done | intros; lia]). lia.
Qed.

Lemma held_nonneg (held : gmap nat Z) : (forall i n, held !! i = Some n -> (0 <= n)%Z) -> (0 <= held_in_all held)%Z.
Proof using.
  induction held as [|i n m Hi IH] using map_ind; intros H; [done|]. rewrite held_insert, Hi. simpl.
  specialize (IH ltac:(intros j x Hj; apply (H j); rewrite lookup_insert_ne; congruence)).
  specialize (H i n (lookup_insert_eq _ _ _)). lia.
Qed.

Definition tallied (p : Pool S) : Prop :=
  I (shared p) /\ exists held : gmap nat Z,
    (held_in_all held <= credit (shared p))%Z /\ (forall i n, held !! i = Some n -> (0 <= n)%Z)
    /\ forall i h, running p !! i = Some h -> exists s0, R s0 (shared p) /\ pays s0 (default 0%Z (held !! i)) h (fun _ _ _ => True).

Lemma tallied_step p p' : tallied p -> pool_step handler outside p p' -> tallied p'.
Proof using R_refl R_trans handlers_pay outside_ok.
  intros (HI & held & Hsum & Hpos & Hrun).
  (* The handler at [i] becomes [h], holding [n], in the state [s]. *)
  assert (Hmove : forall i h s n, I s -> R (shared p) s -> (0 <= n)%Z ->
    (credit (shared p) - default 0 (held !! i) <= credit s - n)%Z -> pays s n h (fun _ _ _ => True) ->
    tallied {| shared := s; running := <[i := h]> (running p) |}).
  { intros i h s n Hs HR Hn Hc Hpay. split; [done|]. exists (<[i := n]> held). simpl. split_and!.
    - rewrite held_insert. lia.
    - intros j m [[_ <-]|[_ Hj]]%lookup_insert_Some; [done|by eapply Hpos].
    - intros j h' [[<- <-]|[Hne Hj]]%lookup_insert_Some.
      + exists s. rewrite lookup_insert_eq. by split.
      + rewrite lookup_insert_ne by done. destruct (Hrun j h' Hj) as (s0 & H0 & H1). exists s0. split; [by eapply R_trans|done]. }
  assert (Hheld : forall i, (0 <= default 0 (held !! i))%Z).
  { intros i. destruct (held !! i) eqn:E; simpl; [by eapply Hpos|lia]. }
  intros [i h Hn Hi|i B f k Hi|i B f k e Hi|i B f k e Hi|i|s Hs].
  - apply (Hmove i h (shared p) 0%Z); [done|done|lia|specialize (Hheld i); lia|by apply handlers_pay].
  - destruct (Hrun _ _ Hi) as (s0 & H0 & Hp). destruct (Hp _ H0 HI) as ([HI' HR] & (n' & [Hn Hc] & Hk) & _). by eapply Hmove.
  - destruct (Hrun _ _ Hi) as (s0 & H0 & Hp). destruct (Hp _ H0 HI) as (_ & _ & He). destruct (He e) as [Hk _].
    eapply Hmove; [done|done|apply (Hheld i)|lia|exact Hk].
  - destruct (Hrun _ _ Hi) as (s0 & H0 & Hp). destruct (Hp _ H0 HI) as ([HI' HR] & _ & He). destruct (He e) as [_ (n' & [Hn Hc] & Hk)].
    by eapply Hmove.
  - split; [done|]. exists (delete i held). simpl. split_and!.
    + rewrite held_delete. specialize (Hheld i). lia.
    + intros j n [_ Hj]%lookup_delete_Some. by eapply Hpos.
    + intros j h [Hne Hj]%lookup_delete_Some. rewrite lookup_delete_ne by done. by apply Hrun.
  - destruct (outside_ok _ _ HI Hs) as [[HI' HR] Hc]. split; [done|]. exists held. simpl. split; [lia|]. split; [done|].
    intros j h Hj. destruct (Hrun j h Hj) as (s0 & H0 & H1). exists s0. split; [by eapply R_trans|done].
Qed.

Lemma pool_tallied s p : I s -> (0 <= credit s)%Z ->
  rtc (pool_step handler outside) {| shared := s; running := ∅ |} p -> I (shared p) /\ (0 <= credit (shared p))%Z.
Proof using R_refl R_trans handlers_pay outside_ok.
  intros HI Hc Hr. assert (Ht : tallied p).
  { assert (H0 : tallied {| shared := s; running := ∅ |}).
    { split; [done|]. exists ∅. split; [exact Hc|]. split; [by intros ?? ?%lookup_empty_Some|].
      intros i h Hi. simpl in Hi. by rewrite lookup_empty in Hi. }
    clear Hc HI. induction Hr as [p|p1 p2 p3 H12 _ IH]; [done|]. apply IH. by eapply tallied_step. }
  destruct Ht as (HI' & held & Hsum & Hpos & _). split; [done|]. pose proof (held_nonneg held Hpos). lia.
Qed.
End tally.
