(* ===== verification/Runs.v ===== *)
(** * GrapeRank runs in the database
      ([src/app/repos/brainstorm_request_repo.py] and the run columns of
       [src/app/repos/brainstorm_nsec.py])

    A run is a row of [brainstorm_request] with three stages: the calculation, the
    publication of Trusted Assertions to the relay, and the write to Neo4j.  The
    state [Pipe] is what the run pipeline shares: both tables, the policies, the
    whitelist snapshots, the Redis lanes and the relay's assertions.  Times are
    microseconds; a unit reads one clock, the database's and the server's alike. *)

From Stdlib Require Import QArith Ascii String.
From S2P Require Import Prelude Json Atomic.
Local Open Scope string_scope.
Local Open Scope Z_scope.

(** ** Rows *)

Inductive BrainstormRequestStatus := WAITING | ONGOING | SUCCESS | FAILURE.

#[export] Instance status_eq_dec : EqDecision BrainstormRequestStatus.
Proof. solve_decision. Defined.

Definition status_value (s : BrainstormRequestStatus) : string :=
  match s with
  | WAITING => "waiting" | ONGOING => "ongoing" | SUCCESS => "success" | FAILURE => "failure"
  end.

Inductive TriggerSource := MANUAL | SCHEDULED | ADMIN | PERIODIC.

#[export] Instance trigger_eq_dec : EqDecision TriggerSource.
Proof. solve_decision. Defined.

(** GrapeRank's parameters; as stored with a run, if they still validate. *)
Record GrapeRankPresetParams := {
  rigor : Q; attenuationFactor : Q; followRating : Q; followConfidence : Q; muteRating : Q;
  muteConfidence : Q; reportRating : Q; reportConfidence : Q; followConfidenceOfObserver : Q;
  verifiedFollowersInfluenceCutoff : Q; verifiedReportersInfluenceCutoff : Q;
  verifiedMutersInfluenceCutoff : Q;
}.

Inductive stored_params := Readable (p : GrapeRankPresetParams) | Unreadable.

Record BrainstormRequest := {
  password : string;
  status : BrainstormRequestStatus;
  status_ta_publication : BrainstormRequestStatus;
  status_internal_brainstorm_publication : option BrainstormRequestStatus;
  count_values : option string;
  error : option json;
  parameters : string;
  algorithm : string;
  run_pubkey : option string;
  graperank_preset_used : option string;
  graperank_params : option stored_params;
  publish_duration_seconds : option Q;
  trigger_source : TriggerSource;
  force_full_relay : option bool;
  force_full_neo4j : option bool;
  created_at : Z;
  updated_at : Z;
}.

(** The columns of [brainstorm_nsec] that runs use. *)
Record Observer := {
  last_time_triggered_graperank : option Z;
  last_time_calculated_graperank : option Z;
  last_time_published_graperank : option Z;
  assistant_kind0_published_at : option Z;
  last_published_pubkeys : option string;
  last_published_graperank_request_id : option Z;
  runs_since_full : Z;
  last_neo4j_cleanup_at : option Z;
  scheduling_id : option Z;
  graperank_preset : option string;
  graperank_custom_params : option stored_params;
}.

Definition new_observer : Observer := {|
  last_time_triggered_graperank := None; last_time_calculated_graperank := None;
  last_time_published_graperank := None; assistant_kind0_published_at := None;
  last_published_pubkeys := None; last_published_graperank_request_id := None;
  runs_since_full := 0; last_neo4j_cleanup_at := None; scheduling_id := None;
  graperank_preset := None; graperank_custom_params := None |}.

(** A scheduling policy, as far as runs use it. *)
Record Policy := {
  policy_name : string;
  schedule_interval_seconds : Z;
  priority : Z;
  enabled : bool;
  manual_quota_limit : Z;
  manual_quota_window_seconds : Z;
  is_default : bool;
}.

(** The view of a run; an error's message is the administrators'. *)
Record BrainstormRequestInstance := {
  inst_private_id : Z;
  inst_status : BrainstormRequestStatus;
  inst_ta_status : BrainstormRequestStatus;
  inst_internal_status : option BrainstormRequestStatus;
  inst_count_values : option string;
  inst_password : string;
  inst_algorithm : string;
  inst_parameters : string;
  inst_priority : Z;
  inst_pubkey : option string;
  inst_trigger : TriggerSource;
  inst_preset_used : option string;
  inst_params : option stored_params;
  inst_error : option json;
  inst_created_at : Z;
  inst_updated_at : Z;
}.

(** What is pushed on a lane: the run, and the keys the observer designated. *)
Record CalcMessage := {
  msg_instance : BrainstormRequestInstance;
  msg_designated : list string;
}.

Definition msg_private_id (m : CalcMessage) : Z := inst_private_id (msg_instance m).

(** What one observer's run leaves on a node. *)
Record Score := { score_influence : Q; score_hops : Z; score_trusted_followers : Z }.

(** ** The shared state *)

Record Pipe := {
  clock : Z;
  requests : gmap Z BrainstormRequest;
  next_id : Z;
  observers : gmap string Observer;
  policies : gmap Z Policy;
  whitelists : gmap string (list (string * Q) * Z);
  lanes : gmap string (list CalcMessage);
  presets : gmap string GrapeRankPresetParams;
  preset_history : list (string * option string * GrapeRankPresetParams);
  (* The graph's nodes, with each observer's score on them. *)
  graph : gmap string (gmap string Score);
  (* Who is asserted under each observer's key on the relay. *)
  relay : gmap string (gset string);
  (* The scheduler's memory: runs admitted per priority. *)
  admitted_counts : list (Z * Z);
}.

Definition with_requests (s : Pipe) (r : gmap Z BrainstormRequest) : Pipe :=
  {| clock := clock s; requests := r; next_id := next_id s; observers := observers s;
     policies := policies s; whitelists := whitelists s; presets := presets s;
     preset_history := preset_history s; graph := graph s; lanes := lanes s; relay := relay s;
     admitted_counts := admitted_counts s |}.
Definition with_observers (s : Pipe) (o : gmap string Observer) : Pipe :=
  {| clock := clock s; requests := requests s; next_id := next_id s; observers := o;
     policies := policies s; whitelists := whitelists s; presets := presets s;
     preset_history := preset_history s; graph := graph s; lanes := lanes s; relay := relay s;
     admitted_counts := admitted_counts s |}.
Definition with_whitelists (s : Pipe) (w : gmap string (list (string * Q) * Z)) : Pipe :=
  {| clock := clock s; requests := requests s; next_id := next_id s; observers := observers s;
     policies := policies s; whitelists := w; presets := presets s;
     preset_history := preset_history s; graph := graph s; lanes := lanes s; relay := relay s;
     admitted_counts := admitted_counts s |}.
Definition with_presets (s : Pipe) (m : gmap string GrapeRankPresetParams)
  (h : list (string * option string * GrapeRankPresetParams)) : Pipe :=
  {| clock := clock s; requests := requests s; next_id := next_id s; observers := observers s;
     policies := policies s; whitelists := whitelists s; presets := m; preset_history := h;
     graph := graph s; lanes := lanes s; relay := relay s;
     admitted_counts := admitted_counts s |}.
Definition with_graph (s : Pipe) (g : gmap string (gmap string Score)) : Pipe :=
  {| clock := clock s; requests := requests s; next_id := next_id s; observers := observers s;
     policies := policies s; whitelists := whitelists s; presets := presets s;
     preset_history := preset_history s; graph := g; lanes := lanes s; relay := relay s;
     admitted_counts := admitted_counts s |}.
Definition with_lanes (s : Pipe) (l : gmap string (list CalcMessage)) : Pipe :=
  {| clock := clock s; requests := requests s; next_id := next_id s; observers := observers s;
     policies := policies s; whitelists := whitelists s; presets := presets s;
     preset_history := preset_history s; graph := graph s; lanes := l; relay := relay s;
     admitted_counts := admitted_counts s |}.
Definition with_relay (s : Pipe) (r : gmap string (gset string)) : Pipe :=
  {| clock := clock s; requests := requests s; next_id := next_id s; observers := observers s;
     policies := policies s; whitelists := whitelists s; presets := presets s;
     preset_history := preset_history s; graph := graph s; lanes := lanes s; relay := r;
     admitted_counts := admitted_counts s |}.
Definition with_admitted (s : Pipe) (c : list (Z * Z)) : Pipe :=
  {| clock := clock s; requests := requests s; next_id := next_id s; observers := observers s;
     policies := policies s; whitelists := whitelists s; presets := presets s;
     preset_history := preset_history s; graph := graph s; lanes := lanes s; relay := relay s;
     admitted_counts := c |}.
Definition with_new_request (s : Pipe) (r : BrainstormRequest) : Pipe :=
  {| clock := clock s; requests := <[next_id s := r]> (requests s); next_id := next_id s + 1;
     observers := observers s; policies := policies s; whitelists := whitelists s;
     presets := presets s; preset_history := preset_history s; graph := graph s;
     lanes := lanes s; relay := relay s; admitted_counts := admitted_counts s |}.

(** ** Conditions on a row *)

Definition non_terminal (st : BrainstormRequestStatus) : bool :=
  match st with WAITING | ONGOING => true | SUCCESS | FAILURE => false end.

(** The WHERE clause; both columns are NOT NULL. *)
Definition in_pipeline_condition (r : BrainstormRequest) : tri :=
  tri_or (tri_of_bool (non_terminal (status r)))
    (tri_and (tri_of_bool (bool_decide (status r = SUCCESS)))
       (tri_of_bool (non_terminal (status_ta_publication r)))).

Definition in_pipeline (r : BrainstormRequest) : bool := tri_holds (in_pipeline_condition r).

(** ** Updates *)

(** An UPDATE of one row by its id; [updated_at] is the statement's [now()]. *)
Definition touch (now : Z) (r : BrainstormRequest) : BrainstormRequest :=
  {| password := password r; status := status r; status_ta_publication := status_ta_publication r;
     status_internal_brainstorm_publication := status_internal_brainstorm_publication r;
     count_values := count_values r; error := error r; parameters := parameters r;
     algorithm := algorithm r; run_pubkey := run_pubkey r;
     graperank_preset_used := graperank_preset_used r; graperank_params := graperank_params r;
     publish_duration_seconds := publish_duration_seconds r; trigger_source := trigger_source r;
     force_full_relay := force_full_relay r; force_full_neo4j := force_full_neo4j r;
     created_at := created_at r; updated_at := now |}.

Definition update_where (id : Z) (cond : BrainstormRequest -> bool)
  (f : BrainstormRequest -> BrainstormRequest) : TX Pipe unit :=
  writes (fun s =>
    match requests s !! id with
    | Some r => if cond r then with_requests s (<[id := touch (clock s) (f r)]> (requests s)) else s
    | None => s
    end).

Definition set_status (v : BrainstormRequestStatus) (r : BrainstormRequest) : BrainstormRequest :=
  {| password := password r; status := v; status_ta_publication := status_ta_publication r;
     status_internal_brainstorm_publication := status_internal_brainstorm_publication r;
     count_values := count_values r; error := error r; parameters := parameters r;
     algorithm := algorithm r; run_pubkey := run_pubkey r;
     graperank_preset_used := graperank_preset_used r; graperank_params := graperank_params r;
     publish_duration_seconds := publish_duration_seconds r; trigger_source := trigger_source r;
     force_full_relay := force_full_relay r; force_full_neo4j := force_full_neo4j r;
     created_at := created_at r; updated_at := updated_at r |}.

Definition set_ta_status (v : BrainstormRequestStatus) (r : BrainstormRequest) : BrainstormRequest :=
  {| password := password r; status := status r; status_ta_publication := v;
     status_internal_brainstorm_publication := status_internal_brainstorm_publication r;
     count_values := count_values r; error := error r; parameters := parameters r;
     algorithm := algorithm r; run_pubkey := run_pubkey r;
     graperank_preset_used := graperank_preset_used r; graperank_params := graperank_params r;
     publish_duration_seconds := publish_duration_seconds r; trigger_source := trigger_source r;
     force_full_relay := force_full_relay r; force_full_neo4j := force_full_neo4j r;
     created_at := created_at r; updated_at := updated_at r |}.

Definition set_internal_status (v : BrainstormRequestStatus) (r : BrainstormRequest) : BrainstormRequest :=
  {| password := password r; status := status r; status_ta_publication := status_ta_publication r;
     status_internal_brainstorm_publication := Some v;
     count_values := count_values r; error := error r; parameters := parameters r;
     algorithm := algorithm r; run_pubkey := run_pubkey r;
     graperank_preset_used := graperank_preset_used r; graperank_params := graperank_params r;
     publish_duration_seconds := publish_duration_seconds r; trigger_source := trigger_source r;
     force_full_relay := force_full_relay r; force_full_neo4j := force_full_neo4j r;
     created_at := created_at r; updated_at := updated_at r |}.

Definition set_result (v : BrainstormRequestStatus) (counts : string) (err : option json)
  (r : BrainstormRequest) : BrainstormRequest :=
  {| password := password r; status := v; status_ta_publication := status_ta_publication r;
     status_internal_brainstorm_publication := status_internal_brainstorm_publication r;
     count_values := Some counts; error := err; parameters := parameters r;
     algorithm := algorithm r; run_pubkey := run_pubkey r;
     graperank_preset_used := graperank_preset_used r; graperank_params := graperank_params r;
     publish_duration_seconds := publish_duration_seconds r; trigger_source := trigger_source r;
     force_full_relay := force_full_relay r; force_full_neo4j := force_full_neo4j r;
     created_at := created_at r; updated_at := updated_at r |}.

Definition set_publish_extras (seconds : option Q) (full : option bool) (r : BrainstormRequest)
  : BrainstormRequest :=
  {| password := password r; status := status r; status_ta_publication := status_ta_publication r;
     status_internal_brainstorm_publication := status_internal_brainstorm_publication r;
     count_values := count_values r; error := error r; parameters := parameters r;
     algorithm := algorithm r; run_pubkey := run_pubkey r;
     graperank_preset_used := graperank_preset_used r; graperank_params := graperank_params r;
     publish_duration_seconds := seconds; trigger_source := trigger_source r;
     force_full_relay := full; force_full_neo4j := force_full_neo4j r;
     created_at := created_at r; updated_at := updated_at r |}.

Definition update_brainstorm_request_status_by_id_on_db (id : Z) (v : BrainstormRequestStatus)
  : TX Pipe unit := update_where id (fun _ => true) (set_status v).
Definition update_brainstorm_request_ta_status_by_id_on_db (id : Z) (v : BrainstormRequestStatus)
  : TX Pipe unit := update_where id (fun _ => true) (set_ta_status v).
Definition update_brainstorm_request_internal_publication_status_by_id_on_db (id : Z)
  (v : BrainstormRequestStatus) : TX Pipe unit := update_where id (fun _ => true) (set_internal_status v).
Definition update_brainstorm_request_result_by_id_on_db (id : Z) (counts : string)
  (v : BrainstormRequestStatus) (err : option json) : TX Pipe unit :=
  update_where id (fun r => non_terminal (status r)) (set_result v counts err).
Definition update_brainstorm_request_publish_duration_by_id_on_db (id : Z) (seconds : Q)
  : TX Pipe unit :=
  update_where id (fun _ => true) (fun r => set_publish_extras (Some seconds) (force_full_relay r) r).
Definition mark_brainstorm_request_force_full_relay_on_db (id : Z) : TX Pipe unit :=
  update_where id (fun _ => true) (fun r => set_publish_extras (publish_duration_seconds r) (Some true) r).

(** [handle_no_data]. *)
Definition handle_no_data {S A} (r : option A) : TX S A :=
  match r with Some a => mret a | None => raise (HTTPException 404) end.

Definition select_brainstorm_request_by_id_on_db (id : Z) : TX Pipe BrainstormRequest :=
  r ← reads (fun s => requests s !! id); handle_no_data r.

(** A row another table refers to cannot be deleted. *)
Definition referenced (id : Z) (s : Pipe) : bool :=
  existsb (fun ko => bool_decide (last_published_graperank_request_id ko.2 = Some id))
    (map_to_list (observers s))
  || existsb (fun kw => bool_decide (kw.2.2 = id)) (map_to_list (whitelists s)).

Definition delete_brainstorm_request_by_id_on_db (id : Z) : TX Pipe unit :=
  r ← reads (fun s => requests s !! id);
  busy ← reads (referenced id);
  if busy : bool then raise (HTTPException 500) else
  _ ← handle_no_data r;
  writes (fun s => with_requests s (delete id (requests s))).

Definition create_brainstorm_request_on_db (pw alg params pubkey preset : string)
  (gparams : GrapeRankPresetParams)
  (full_relay full_neo4j : bool) (trigger : TriggerSource) : TX Pipe (Z * BrainstormRequest) :=
  fun s =>
    let r := {| password := pw; status := WAITING; status_ta_publication := WAITING;
                status_internal_brainstorm_publication := Some WAITING; count_values := None;
                error := None; parameters := params; algorithm := alg; run_pubkey := Some pubkey;
                graperank_preset_used := Some preset; graperank_params := Some (Readable gparams);
                publish_duration_seconds := None; trigger_source := trigger;
                force_full_relay := Some full_relay; force_full_neo4j := Some full_neo4j;
                created_at := clock s; updated_at := clock s |} in
    (Ok (next_id s, r), with_new_request s r).

(** The reaper's statement: rows in the pipeline untouched since [cutoff]. *)
Definition reap (now cutoff : Z) (r : BrainstormRequest) : BrainstormRequest :=
  if in_pipeline r && (updated_at r <? cutoff) then
    touch now (set_status FAILURE
      (if non_terminal (status_ta_publication r) then set_ta_status FAILURE r else r))
  else r.

Definition fail_stale_in_pipeline_brainstorm_requests_on_db (stale_threshold : Z) : TX Pipe (list Z) :=
  fun s =>
    let cutoff := clock s - stale_threshold in
    (Ok ((filter (fun kr => in_pipeline kr.2 && (updated_at kr.2 <? cutoff) = true)
            (map_to_list (requests s))).*1),
     with_requests s (reap (clock s) cutoff <$> requests s)).

(** ** Reads over the table *)

(** Rows in insertion order of their ids. *)
Definition rows (s : Pipe) : list (Z * BrainstormRequest) := map_to_list (requests s).

Definition count_if (cond : Z * BrainstormRequest -> bool) (s : Pipe) : Z :=
  Z.of_nat (length (filter (fun kr => cond kr = true) (rows s))).

Definition max_id (cond : Z * BrainstormRequest -> bool) (s : Pipe) : option Z :=
  max_by id ((filter (fun kr => cond kr = true) (rows s)).*1).

Definition count_brainstorm_requests_with_priority_over_one_on_db (reference_id : Z) (s : Pipe) : Z :=
  match max_id (fun kr => negb (bool_decide (status kr.2 = WAITING))) s with
  | None => reference_id
  | Some last => if reference_id <? last then 0 else reference_id - last
  end.

Definition owned_by (pubkey : string) (r : BrainstormRequest) : bool :=
  tri_holds (sql_cmp (String.eqb pubkey) (run_pubkey r)).

Definition any_request_in_pipeline_for_pubkey_on_db (pubkey : string) (s : Pipe) : bool :=
  existsb (fun kr => owned_by pubkey kr.2 && in_pipeline kr.2) (rows s).

Definition count_scheduled_publishing_inflight_on_db (s : Pipe) : Z :=
  count_if (fun kr => bool_decide (trigger_source kr.2 = SCHEDULED) && in_pipeline kr.2) s.

Definition interactive (t : TriggerSource) : bool :=
  match t with MANUAL | ADMIN => true | _ => false end.

Definition any_interactive_in_pipeline_on_db (s : Pipe) : bool :=
  0 <? count_if (fun kr => interactive (trigger_source kr.2) && in_pipeline kr.2) s.

Definition counted_manual (pubkey : string) (window_start : Z) (r : BrainstormRequest) : bool :=
  owned_by pubkey r && bool_decide (trigger_source r = MANUAL)
  && bool_decide (status_ta_publication r = SUCCESS) && (window_start <=? created_at r).

Definition count_successful_manual_runs_in_window_on_db (pubkey : string) (window_start : Z) (s : Pipe)
  : Z * option Z :=
  let rs := filter (fun kr => counted_manual pubkey window_start kr.2 = true) (rows s) in
  (Z.of_nat (length rs), Z.opp <$> max_by id ((fun kr => - created_at kr.2) <$> rs)).

(** Runs whose full publication succeeded, before a run. *)
Definition full_ok (pubkey : string) (before_run_id : Z) (kr : Z * BrainstormRequest) : bool :=
  owned_by pubkey kr.2 && (kr.1 <? before_run_id)
  && bool_decide (force_full_relay kr.2 = Some true)
  && bool_decide (status_ta_publication kr.2 = SUCCESS).

Definition relay_publish_gap_pending_on_db (pubkey : string) (before_run_id : Z) (s : Pipe) : bool :=
  let last_full_ok := max_id (full_ok pubkey before_run_id) s in
  existsb (fun kr =>
    owned_by pubkey kr.2 && (kr.1 <? before_run_id) && (default 0 last_full_ok <? kr.1)
    && bool_decide (status_ta_publication kr.2 = FAILURE)) (rows s).

(** The latest run by creation; rows created at the same instant in table order. *)
Definition latest_of (cond : BrainstormRequest -> bool) (s : Pipe) : option (Z * BrainstormRequest) :=
  max_by (fun kr => created_at kr.2) (filter (fun kr => cond kr.2 = true) (rows s)).
Definition select_latest_brainstorm_request_on_db (pubkey : string) (s : Pipe) :=
  latest_of (owned_by pubkey) s.
Definition select_latest_non_waiting_brainstorm_request_on_db (pubkey : string) (s : Pipe) :=
  latest_of (fun r => owned_by pubkey r && negb (bool_decide (status r = WAITING))) s.

(** *** The administrator's statistics and history *)

Definition distinct_pubkeys (cond : BrainstormRequest -> bool) (s : Pipe) : Z :=
  Z.of_nat (size (list_to_set (C := gset string)
    (omap (fun kr => if cond kr.2 then run_pubkey kr.2 else None) (rows s)))).

Definition compute_admin_stats_on_db (s : Pipe) : Z * Z * Z :=
  let max_non_waiting := max_id (fun kr => negb (bool_decide (status kr.2 = WAITING))) s in
  (count_if (fun kr => bool_decide (status kr.2 = WAITING)
                       && match max_non_waiting with Some m => m <? kr.1 | None => true end) s,
   distinct_pubkeys (fun r => bool_decide (status r = SUCCESS)) s,
   distinct_pubkeys (fun r => bool_decide (status_ta_publication r = SUCCESS)) s).

Definition DAY : Z := 24 * 3600 * 1000000.

(** Newest first. *)
Definition build_recent_brainstorm_requests_stmt (pubkey : option string)
  (st : option BrainstormRequestStatus) (alg : option string) (days : option Z) (s : Pipe)
  : list (Z * BrainstormRequest) :=
  stable_sort (fun a b => created_at b.2 <=? created_at a.2)
    (filter (fun kr =>
       (match days with Some d => clock s - d * DAY <=? created_at kr.2 | None => true end)
       && (match pubkey with Some p => owned_by p kr.2 | None => true end)
       && (match st with Some v => bool_decide (status kr.2 = v) | None => true end)
       && (match alg with Some a => String.eqb (algorithm kr.2) a | None => true end) = true)
     (rows s)).

(** ** The observer's columns *)

Definition update_observer (pubkey : string) (f : Z -> Observer -> Observer) : TX Pipe unit :=
  writes (fun s =>
    match observers s !! pubkey with
    | Some o => with_observers s (<[pubkey := f (clock s) o]> (observers s))
    | None => s
    end).

Definition set_times (triggered calculated published : option Z) (o : Observer) : Observer :=
  {| last_time_triggered_graperank := triggered; last_time_calculated_graperank := calculated;
     last_time_published_graperank := published;
     assistant_kind0_published_at := assistant_kind0_published_at o;
     last_published_pubkeys := last_published_pubkeys o;
     last_published_graperank_request_id := last_published_graperank_request_id o;
     runs_since_full := runs_since_full o; last_neo4j_cleanup_at := last_neo4j_cleanup_at o;
     scheduling_id := scheduling_id o; graperank_preset := graperank_preset o;
     graperank_custom_params := graperank_custom_params o |}.

Definition set_bookkeeping (kind0 : option Z) (blob : option string) (req : option Z) (since : Z)
  (cleanup : option Z) (o : Observer) : Observer :=
  {| last_time_triggered_graperank := last_time_triggered_graperank o;
     last_time_calculated_graperank := last_time_calculated_graperank o;
     last_time_published_graperank := last_time_published_graperank o;
     assistant_kind0_published_at := kind0; last_published_pubkeys := blob;
     last_published_graperank_request_id := req; runs_since_full := since;
     last_neo4j_cleanup_at := cleanup; scheduling_id := scheduling_id o;
     graperank_preset := graperank_preset o; graperank_custom_params := graperank_custom_params o |}.

Definition update_last_time_triggered_graperank_on_db (pubkey : string) : TX Pipe unit :=
  update_observer pubkey (fun now o => set_times (Some now) (last_time_calculated_graperank o)
                                         (last_time_published_graperank o) o).
Definition update_last_time_calculated_graperank_on_db (pubkey : string) : TX Pipe unit :=
  update_observer pubkey (fun now o => set_times (last_time_triggered_graperank o) (Some now)
                                         (last_time_published_graperank o) o).
Definition update_last_time_published_graperank_on_db (pubkey : string) : TX Pipe unit :=
  update_observer pubkey (fun now o => set_times (last_time_triggered_graperank o)
                                         (last_time_calculated_graperank o) (Some now) o).
Definition update_assistant_kind0_published_at_on_db (pubkey : string) : TX Pipe unit :=
  update_observer pubkey (fun now o =>
    set_bookkeeping (Some now) (last_published_pubkeys o) (last_published_graperank_request_id o)
      (runs_since_full o) (last_neo4j_cleanup_at o) o).
Definition increment_runs_since_full_on_db (pubkey : string) : TX Pipe unit :=
  update_observer pubkey (fun _ o =>
    set_bookkeeping (assistant_kind0_published_at o) (last_published_pubkeys o)
      (last_published_graperank_request_id o) (runs_since_full o + 1) (last_neo4j_cleanup_at o) o).
Definition reset_runs_since_full_on_db (pubkey : string) : TX Pipe unit :=
  update_observer pubkey (fun _ o =>
    set_bookkeeping (assistant_kind0_published_at o) (last_published_pubkeys o)
      (last_published_graperank_request_id o) 0 (last_neo4j_cleanup_at o) o).
Definition mark_neo4j_cleanup_on_db (pubkey : string) : TX Pipe unit :=
  update_observer pubkey (fun now o =>
    set_bookkeeping (assistant_kind0_published_at o) (last_published_pubkeys o)
      (last_published_graperank_request_id o) (runs_since_full o) (Some now) o).

(** The row, created when there is none. *)
Definition get_or_create_brainstorm_observer_nsec_by_pubkey_on_db (pubkey : string)
  : TX Pipe (Observer * bool) :=
  fun s =>
    match observers s !! pubkey with
    | Some o => (Ok (o, false), s)
    | None => (Ok (new_observer, true), with_observers s (<[pubkey := new_observer]> (observers s)))
    end.

(** *** The published state: pubkeys packed as 32-byte strings *)

Definition PUBKEY_BYTES : nat := 32.

Definition hex_digit (c : ascii) : option nat :=
  let n := nat_of_ascii c in
  if (48 <=? n)%nat && (n <=? 57)%nat then Some (n - 48)%nat
  else if (97 <=? n)%nat && (n <=? 102)%nat then Some (n - 87)%nat
  else if (65 <=? n)%nat && (n <=? 70)%nat then Some (n - 55)%nat
  else None.

Definition hex_char (n : nat) : ascii := ascii_of_nat (if (n <? 10)%nat then 48 + n else 87 + n).

(** [bytes.fromhex]: pairs of digits, whitespace between pairs skipped. *)
Definition is_ascii_space (c : ascii) : bool :=
  let n := nat_of_ascii c in ((9 <=? n)%nat && (n <=? 13)%nat) || (n =? 32)%nat.

Fixpoint fromhex (s : string) : option string :=
  match s with
  | EmptyString => Some EmptyString
  | String c s' =>
      if is_ascii_space c then fromhex s'
      else match s' with
           | EmptyString => None
           | String d s'' =>
               match hex_digit c, hex_digit d, fromhex s'' with
               | Some a, Some b, Some r => Some (String (ascii_of_nat (16 * a + b)) r)
               | _, _, _ => None
               end
           end
  end.

(** [bytes.hex()]. *)
Fixpoint tohex (b : string) : string :=
  match b with
  | EmptyString => EmptyString
  | String c b' =>
      String (hex_char (nat_of_ascii c / 16)) (String (hex_char (nat_of_ascii c mod 16)) (tohex b'))
  end.

Fixpoint pack_pubkeys (pubkeys : list string) : res exn string :=
  match pubkeys with
  | [] => Ok ""
  | pk :: rest =>
      match fromhex pk, pack_pubkeys rest with
      | Some b, Ok r => Ok (b ++ r)%string
      | None, _ => Raise (OtherException "ValueError")
      | _, Raise e => Raise e
      end
  end.

(** [blob[i : i + 32]] for each [i]; [rounds] is at most the length. *)
Fixpoint unpack_chunks (rounds : nat) (blob : string) : list string :=
  match rounds, blob with
  | O, _ | _, EmptyString => []
  | S r, _ =>
      tohex (String.substring 0 PUBKEY_BYTES blob)
      :: unpack_chunks r (String.substring PUBKEY_BYTES (String.length blob - PUBKEY_BYTES) blob)
  end.

Definition unpack_pubkeys (blob : option string) : list string :=
  match blob with
  | None => []
  | Some b => unpack_chunks (String.length b) b
  end.

Definition get_last_published_pubkeys_by_pubkey_on_db (pubkey : string) (s : Pipe) : list string :=
  unpack_pubkeys (observers s !! pubkey ≫= last_published_pubkeys).

Definition update_last_published_pubkeys_by_pubkey_on_db (pubkey : string) (published : list string)
  (request_id : Z) : TX Pipe unit :=
  match pack_pubkeys published with
  | Raise e => raise e
  | Ok blob =>
      update_observer pubkey (fun _ o =>
        set_bookkeeping (assistant_kind0_published_at o) (Some blob) (Some request_id)
          (runs_since_full o) (last_neo4j_cleanup_at o) o)
  end.

Definition get_last_neo4j_cleanup_at_on_db (pubkey : string) (s : Pipe) : option Z :=
  observers s !! pubkey ≫= last_neo4j_cleanup_at.

(** *** Policies *)

Definition get_default_scheduling_on_db (s : Pipe) : option Policy :=
  head ((filter (fun kp => is_default kp.2 = true) (map_to_list (policies s))).*2).

Definition get_scheduling_for_pubkey_on_db (pubkey : string) (s : Pipe) : option Policy :=
  match observers s !! pubkey ≫= scheduling_id with
  | Some i => match policies s !! i with Some p => Some p | None => get_default_scheduling_on_db s end
  | None => get_default_scheduling_on_db s
  end.

(** *** Whitelist snapshots *)

Definition upsert_observer_whitelist_on_db (pubkey : string) (scores : list (string * Q)) (request_id : Z)
  : TX Pipe unit :=
  writes (fun s => with_whitelists s (<[pubkey := (scores, request_id)]> (whitelists s))).

(** *** GrapeRank presets *)

Definition get_graperank_preset_by_pubkey_on_db (pubkey : string) (s : Pipe) : option string :=
  observers s !! pubkey ≫= graperank_preset.
Definition get_graperank_custom_params_by_pubkey_on_db (pubkey : string) (s : Pipe) : option stored_params :=
  observers s !! pubkey ≫= graperank_custom_params.

Definition set_preset_columns (preset : option string) (custom : option stored_params) (o : Observer)
  : Observer :=
  {| last_time_triggered_graperank := last_time_triggered_graperank o;
     last_time_calculated_graperank := last_time_calculated_graperank o;
     last_time_published_graperank := last_time_published_graperank o;
     assistant_kind0_published_at := assistant_kind0_published_at o;
     last_published_pubkeys := last_published_pubkeys o;
     last_published_graperank_request_id := last_published_graperank_request_id o;
     runs_since_full := runs_since_full o; last_neo4j_cleanup_at := last_neo4j_cleanup_at o;
     scheduling_id := scheduling_id o; graperank_preset := preset; graperank_custom_params := custom |}.

Definition set_graperank_preset_by_pubkey_on_db (pubkey : string) (preset : string) : TX Pipe unit :=
  _ ← get_or_create_brainstorm_observer_nsec_by_pubkey_on_db pubkey;
  update_observer pubkey (fun _ o => set_preset_columns (Some preset) (graperank_custom_params o) o).
Definition set_graperank_custom_params_by_pubkey_on_db (pubkey : string) (p : GrapeRankPresetParams)
  : TX Pipe unit :=
  _ ← get_or_create_brainstorm_observer_nsec_by_pubkey_on_db pubkey;
  update_observer pubkey (fun _ o => set_preset_columns (graperank_preset o) (Some (Readable p)) o).

(** The preset's values and one line of history, together. *)
Definition update_preset_on_db (preset_id : string) (p : GrapeRankPresetParams) (changed_by : option string)
  : TX Pipe GrapeRankPresetParams :=
  row ← reads (fun s => presets s !! preset_id);
  match row with
  | None => raise (OtherException "ValueError")
  | Some _ =>
      _ ← writes (fun s => with_presets s (<[preset_id := p]> (presets s))
                             ((preset_id, changed_by, p) :: preset_history s));
      mret p
  end.

(** *** Scores in the graph *)

(** Only nodes that exist; [SET n += props]. *)
Definition set_observer_scores (observer : string) (rows : list (string * Score)) (s : Pipe) : Pipe :=
  with_graph s (foldl (fun g row => alter (insert observer row.2) row.1 g) (graph s) rows).

Definition clear_observer_scores (observer : string) (pubkeys : list string) (s : Pipe) : Pipe :=
  with_graph s (foldl (fun g pk => alter (delete observer) pk g) (graph s) pubkeys).

Definition get_pubkeys_scored_by_observer (observer : string) (s : Pipe) : list string :=
  (filter (fun kn => is_Some (kn.2 !! observer)) (map_to_list (graph s))).*1.
