(* ===== verification/PublishPlan.v ===== *)
(** * What one run publishes
      ([src/app/message_queue_tasks/upload_nostr_events.py], the pure part;
       [src/app/message_queue_tasks/ta_signing.py], the tags;
       [src/app/core/tier_thresholds.py] and the bucketing of
       [src/app/message_queue_tasks/message_queue_consumer.py];
       [src/app/services/publish_drift.py]) *)

From Stdlib Require Import QArith Ascii String.
From S2P Require Import Prelude Json Binary64 Runs.
Local Open Scope string_scope.
Local Open Scope Z_scope.

(** ** The worker's result ([src/app/models/grapeRankResult.py]) *)

Record ScoreCard := {
  observer : string;
  observee : string;
  influence : Q;
  hops : Q;
  trusted_followers : option Q;
  trusted_reporters : option Q;
  trusted_muters : option Q;
}.

Record GrapeRankResult := {
  scorecards : option (list (string * ScoreCard));
  success : option bool;
  changedScorePubkeys : list string;
  neo4jWritePubkeys : option (list string);
  neo4jClearPubkeys : list string;
  neo4jPersistFloor : option Q;
  result_error : option json;
}.

(** [int(x)]: towards zero. *)
Definition py_int (x : Q) : Z := Z.quot (Qnum x) (Zpos (Qden x)).

(** [int(sc.get(field, 0))]. *)
Definition count_of (x : option Q) : Z := match x with Some q => py_int q | None => 0 end.

(** ** Trusted Assertions *)

Record TaInput := {
  ta_observee : string;
  rank : Z;
  ta_followers : Z;
  ta_reporters : Z;
  ta_muters : Z;
  ta_hops : Z;
}.

(** The validity cutoff, on the score rounded to two decimals. *)
Definition above (cutoff : Q) (sc : ScoreCard) : bool := fle cutoff (round2 (influence sc)).

Definition ta_input (sc : ScoreCard) : TaInput := {|
  ta_observee := observee sc; rank := round0 (fmul (influence sc) 100);
  ta_followers := count_of (trusted_followers sc); ta_reporters := count_of (trusted_reporters sc);
  ta_muters := count_of (trusted_muters sc); ta_hops := py_int (hops sc) |}.

Definition selected (changed : list string) (cutoff : Q) (full_sync : bool) (kc : string * ScoreCard) : bool :=
  (full_sync || bool_decide (kc.1 ∈ changed)) && above cutoff kc.2.

Definition prepare_ta_inputs (cards : list (string * ScoreCard)) (changed : list string) (cutoff : Q)
  (full_sync : bool) : list TaInput :=
  ta_input <$> stable_sort (fun a b => fle (influence b) (influence a))
                 ((filter (fun kc => selected changed cutoff full_sync kc = true) cards).*2).

Definition UNREACHABLE_HOPS : Z := 999.
Definition TA_KIND : Z := 30382.
Definition DELETION_COORDS_PER_EVENT : nat := 200.

(** [src/app/utils/client_tag.py]. *)
Definition CLIENT_TAG : list string := ["client"; "Brainstorm"].

Definition ta_tags (t : TaInput) : list (list string) :=
  ([["d"; ta_observee t]; ["rank"; pretty (rank t)]; ["followers"; pretty (ta_followers t)];
    ["reporters"; pretty (ta_reporters t)]; ["muters"; pretty (ta_muters t)]; CLIENT_TAG]
   ++ if ta_hops t <? UNREACHABLE_HOPS then [["hops"; pretty (ta_hops t)]] else [])%list.

(** [observees[i : i + chunk_size]] for each [i]; [rounds] bounds the chunks. *)
Fixpoint chunks {A} (rounds chunk_size : nat) (l : list A) : list (list A) :=
  match rounds, l with
  | O, _ | _, [] => []
  | S r, _ => take chunk_size l :: chunks r chunk_size (drop chunk_size l)
  end.

Definition coordinate (signing_pubkey obs : string) : string :=
  pretty TA_KIND ++ ":" ++ signing_pubkey ++ ":" ++ obs.

Definition atag_deletion_tags (observees : list string) (signing_pubkey : string)
  (chunk_size : nat) : list (list (list string)) :=
  (fun c => (((fun o => ["a"; coordinate signing_pubkey o]) <$> c) ++ [CLIENT_TAG])%list)
    <$> chunks (length observees) chunk_size observees.

(** ** Deletions and the published state *)

Definition sorted_set (x : gset string) : list string := stable_sort String.leb (elements x).

Definition delete_from_sets (fell_off below_cutoff : gset string) (sweep_below_cutoff : bool) : list string :=
  sorted_set (if sweep_below_cutoff then fell_off ∪ below_cutoff else fell_off).

Definition compute_delete_observees (previously_published currently_published below_cutoff : list string)
  (sweep_below_cutoff : bool) : list string :=
  delete_from_sets (list_to_set previously_published ∖ list_to_set currently_published)
    (list_to_set below_cutoff) sweep_below_cutoff.

Record PublishPlan := { currently_published : list string; deletes : list string }.

(** One pass over the scorecards. *)
Definition plan_step (cutoff : Q) (acc : list string * gset string * gset string) (sc : ScoreCard)
  : list string * gset string * gset string :=
  let '(currently, up, below) := acc in
  if above cutoff sc then ((currently ++ [observee sc])%list, up ∪ {[observee sc]}, below)
  else (currently, up, below ∪ {[observee sc]}).

Definition plan_publish (cards : list (string * ScoreCard)) (previously_published : list string)
  (cutoff : Q) (sweep_below_cutoff : bool) : PublishPlan :=
  let '(currently, up, below) := foldl (plan_step cutoff) ([], ∅, ∅) cards.*2 in
  {| currently_published := currently;
     deletes := delete_from_sets (list_to_set previously_published ∖ up) below sweep_below_cutoff |}.

Definition published_state_to_persist (previously_published currently_published : list string)
  (relay_write_failed : bool) : list string :=
  if relay_write_failed
  then elements (list_to_set (C := gset string) previously_published ∪ list_to_set currently_published)
  else currently_published.

(** ** When a run publishes in full *)

Definition resolve_full_sync (setting_full : bool) (force_full : option bool) : bool :=
  setting_full || match force_full with Some true => true | _ => false end.

Definition backstop_due (runs_since : Z) (every_n : Z) : bool :=
  (0 <? every_n) && (every_n <=? runs_since + 1).

Record ForceFull := { full_relay : bool; full_neo4j : bool }.

Inductive ResyncTarget := target_relay | target_neo4j | target_both.
Definition RESYNC_TARGETS (t : ResyncTarget) : ForceFull :=
  match t with
  | target_relay => {| full_relay := true; full_neo4j := false |}
  | target_neo4j => {| full_relay := false; full_neo4j := true |}
  | target_both => {| full_relay := true; full_neo4j := true |}
  end.

(** ** Tiers and the result's summary *)

(** The literals of [tier_thresholds.py], as floats. *)
Definition TIER_HIGH : Q := rn (50 # 100).
Definition TIER_MEDIUM_HIGH : Q := rn (20 # 100).
Definition TIER_MEDIUM : Q := rn (7 # 100).
Definition DEFAULT_VERIFIED_THRESHOLD : Q := rn (2 # 100).

Definition FLAGGED_TIER := "low_and_reported_by_2_or_more_trusted_pubkeys".
Definition TIER_NAMES : list string :=
  ["high"; "medium_high"; "medium"; "medium_low"; "low"; FLAGGED_TIER].

Definition classify_tier (infl : option Q) (reporters : Q) (verified_line : Q) : string :=
  match infl with
  | Some i =>
      if flt verified_line i then
        if fle TIER_HIGH i then "high"
        else if fle TIER_MEDIUM_HIGH i then "medium_high"
        else if fle TIER_MEDIUM i then "medium"
        else "medium_low"
      else if fle 2 reporters then FLAGGED_TIER else "low"
  | None => if fle 2 reporters then FLAGGED_TIER else "low"
  end.

Definition counts : Type := list (string * list (Z * Z)).

Definition bump (tier : string) (h : Z) (c : counts) : counts :=
  let by_hops := default [] (dict_get tier c) in
  dict_set tier (dict_set h (default 0 (dict_get h by_hops) + 1) by_hops) c.

Definition bucket_step (verified_line cutoff : Q) (acc : counts * list (string * Q)) (sc : ScoreCard)
  : counts * list (string * Q) :=
  let tier := classify_tier (Some (influence sc)) (default 0%Q (trusted_reporters sc)) verified_line in
  (bump tier (py_int (hops sc)) acc.1,
   let r := round2 (influence sc) in
   if fle cutoff r then dict_set (observee sc) r acc.2 else acc.2).

Definition bucket_scorecards_by_confidence_and_hops (cards : option (list (string * ScoreCard)))
  (verified_line cutoff : Q) : counts * list (string * Q) :=
  foldl (bucket_step verified_line cutoff) ((fun n => (n, [])) <$> TIER_NAMES, [])
    (default [] cards).*2.

Definition verified_line_for_run (r : BrainstormRequest) : Q :=
  match graperank_params r with
  | Some (Readable p) => verifiedFollowersInfluenceCutoff p
  | _ => DEFAULT_VERIFIED_THRESHOLD
  end.
