(* ===== verification/Pipeline.v ===== *)
(** * The run pipeline
      ([src/app/services/brainstorm_request_service.py],
       [src/app/services/graperank_preset_service.py],
       [src/app/services/scheduler_lanes.py], the consumers of
       [src/app/message_queue_tasks/] and
       [src/app/cronjobs/fail_stale_ongoing_brainstorm_requests.py])

    Each handler is an [act] over [Pipe]: a unit per session or per call of
    Redis, Neo4j or the relay. *)

From Stdlib Require Import QArith Ascii String.
From S2P Require Import Prelude Json Binary64 Atomic Runs PublishPlan.
Local Open Scope string_scope.
Local Open Scope Z_scope.

(** ** What the pipeline relies on *)

(** What [publish_events] reports, and what the relay then holds: the
    assertions it accepted and the deletions it honoured. *)
Record PublishReport := {
  n_events : Z;
  n_acked : Z;
  aborted : bool;
  accepted : gset string;
  removed : gset string;
}.

Definition n_unacked (r : PublishReport) : Z := n_events r - n_acked r.

Class PipeEnv := {
  (* Settings. *)
  scheduler_enabled : bool;
  scheduler_inflight_target : Z;
  scheduler_fairness_enabled : bool;
  relay_full_sync_setting : bool;
  relay_sweep_below_cutoff : bool;
  cutoff_of_valid_graperank_scores : Q;
  neo4j_full_write : bool;
  neo4j_cleanup_interval_days : Z;
  stale_threshold : Z;
  full_sync_every_n_runs : Z;
  platform_pubkey : string;
  (* Outside the program, at a time: a password, the keys designated in the
     observer's kind-10040, whether Redis takes the message, whether the key
     parses and the profile is published, the seconds a publication took, who
     follows somebody. *)
  new_password : Z -> string;
  fetch_designated_pubkeys : Z -> string -> list string;
  push_fails : Z -> option exn;
  keys_fail : string -> option exn;
  kind0_fails : Z -> string -> option exn;
  publish_seconds : Z -> Q;
  has_grapevine : Z -> string -> bool;
  (* [json.dumps] of the summary; a validated error. *)
  dumps_counts : counts -> string;
  validated_error : json -> res exn json;
  lost_error : string -> json;
  (* [publish_events] at a time, for these assertions and deletions. *)
  publish_events : Z -> list TaInput -> list string -> PublishReport;
}.

(** What the publisher promises: a complete report means the relay holds every
    assertion and none of what was deleted; it changes nobody else. *)
Class PublisherLaws (E : PipeEnv) := {
  complete_accepted : forall t inputs dels,
    let r := publish_events t inputs dels in
    aborted r = false -> n_unacked r = 0 ->
    accepted r = list_to_set (ta_observee <$> inputs) /\ removed r = list_to_set dels;
  partial_accepted : forall t inputs dels,
    accepted (publish_events t inputs dels) ⊆ list_to_set (ta_observee <$> inputs)
    /\ removed (publish_events t inputs dels) ⊆ list_to_set dels;
}.

Section pipeline.
Context {E : PipeEnv}.

(** ** Presets *)

Inductive GrapeRankPresetTemplate := DEFAULT | PERMISSIVE | RESTRICTIVE | CUSTOM.

Definition template_value (t : GrapeRankPresetTemplate) : string :=
  match t with
  | DEFAULT => "DEFAULT" | PERMISSIVE => "PERMISSIVE" | RESTRICTIVE => "RESTRICTIVE" | CUSTOM => "CUSTOM"
  end.

Definition upper_ascii (c : ascii) : ascii :=
  let n := nat_of_ascii c in
  if (97 <=? n)%nat && (n <=? 122)%nat then ascii_of_nat (n - 32) else c.
Fixpoint upper (s : string) : string :=
  match s with EmptyString => EmptyString | String c s' => String (upper_ascii c) (upper s') end.

Definition normalize_preset (raw : option string) : GrapeRankPresetTemplate :=
  match raw with
  | None | Some "" => DEFAULT
  | Some r =>
      default DEFAULT (head (filter (fun t => template_value t = upper r)
                               [DEFAULT; PERMISSIVE; RESTRICTIVE; CUSTOM]))
  end.

Definition validated (p : stored_params) : TX Pipe GrapeRankPresetParams :=
  match p with Readable q => mret q | Unreadable => raise (OtherException "ValidationError") end.

Definition builtin_params (preset : GrapeRankPresetTemplate)
  : TX Pipe (GrapeRankPresetTemplate * GrapeRankPresetParams) :=
  row ← reads (fun s => presets s !! template_value preset);
  match row with
  | None => raise (OtherException "RuntimeError")
  | Some p => mret (preset, p)
  end.

Definition resolve_preset_params (preset : GrapeRankPresetTemplate) (pubkey : string)
  : TX Pipe (GrapeRankPresetTemplate * GrapeRankPresetParams) :=
  match preset with
  | CUSTOM =>
      custom ← reads (get_graperank_custom_params_by_pubkey_on_db pubkey);
      match custom with
      | Some c => p ← validated c; mret (CUSTOM, p)
      | None => builtin_params DEFAULT
      end
  | _ => builtin_params preset
  end.

(** [PUT /user/graperank/preset]. *)
Definition set_graperank_preset_endpoint (pubkey : string) (preset : GrapeRankPresetTemplate)
  : act Pipe GrapeRankPresetTemplate :=
  session (
    stored ← reads (get_graperank_custom_params_by_pubkey_on_db pubkey);
    match preset, stored with
    | CUSTOM, None => raise (HTTPException 400)
    | _, _ =>
        _ ← set_graperank_preset_by_pubkey_on_db pubkey (template_value preset); mret preset
    end).

(** ** Lanes *)

Definition DEFAULT_LANE := "message_queue".
Definition LANE_ADMIN := "sched:admin".
Definition LANE_HOUSE := "sched:house".

Definition resolve_scheduler_lane (trigger : TriggerSource) (scheduling : option Policy) : string :=
  if negb scheduler_enabled then DEFAULT_LANE
  else match trigger with
       | ADMIN => LANE_ADMIN
       | PERIODIC => LANE_HOUSE
       | SCHEDULED => "sched:" ++ pretty (match scheduling with Some p => priority p | None => 0 end)
       | MANUAL => DEFAULT_LANE
       end.

(** The policy is read in the caller's session, then the message is pushed. *)
Definition enqueue_calc_request (instance : BrainstormRequestInstance) (pubkey : string) (trigger : TriggerSource)
  (designated : list string) : act Pipe unit :=
  scheduling ← (match trigger with
                | SCHEDULED => session (reads (get_scheduling_for_pubkey_on_db pubkey))
                | _ => mret None
                end);
  let lane := resolve_scheduler_lane trigger scheduling in
  Tx (fun s =>
        match push_fails (clock s) with
        | Some e => (Raise e, s)
        | None =>
            let m := {| msg_instance := instance; msg_designated := designated |} in
            (Ok tt, with_lanes s (<[lane := (default [] (lanes s !! lane) ++ [m])%list]> (lanes s)))
        end) Ret.

(** ** Creating a run *)

(** [error.model_copy(update={"message": None})]. *)
Definition hide_message (e : json) : json :=
  match e with JObj d => JObj (dict_set "message" JNull d) | _ => e end.

Definition brainstorm_request_db_obj_to_schema_converter (private_id : Z) (r : BrainstormRequest)
  (how_many : Z) (is_admin : bool) : res exn BrainstormRequestInstance :=
  let inst e := {| inst_private_id := private_id; inst_status := status r;
                   inst_ta_status := status_ta_publication r;
                   inst_internal_status := status_internal_brainstorm_publication r;
                   inst_count_values := count_values r; inst_password := password r;
                   inst_algorithm := algorithm r; inst_parameters := parameters r;
                   inst_priority := how_many; inst_pubkey := run_pubkey r;
                   inst_trigger := trigger_source r; inst_preset_used := graperank_preset_used r;
                   inst_params := graperank_params r; inst_error := e;
                   inst_created_at := created_at r; inst_updated_at := updated_at r |} in
  match error r with
  | None => Ok (inst None)
  | Some raw =>
      e ← validated_error raw;
      Ok (inst (Some (if is_admin then e else hide_message e)))
  end.

Definition lift {S A} (r : res exn A) : TX S A :=
  match r with Ok a => mret a | Raise e => raise e end.

Definition get_brainstorm_request_by_id (private_id : Z) (is_admin : bool)
  : act Pipe BrainstormRequestInstance :=
  session (
    r ← select_brainstorm_request_by_id_on_db private_id;
    how_many ← reads (fun s => match status r with
                               | WAITING => count_brainstorm_requests_with_priority_over_one_on_db private_id s
                               | _ => 0
                               end);
    lift (brainstorm_request_db_obj_to_schema_converter private_id r how_many is_admin)).

Definition delete_brainstorm_request_by_id (private_id : Z) : act Pipe unit :=
  session (delete_brainstorm_request_by_id_on_db private_id).

(** The session of [create_brainstorm_request] up to its own commit. *)
Definition insert_request (alg params pubkey : string) (nsec_exists full_relay full_neo4j : bool)
  (trigger : TriggerSource) : TX Pipe BrainstormRequestInstance :=
  stored ← reads (get_graperank_preset_by_pubkey_on_db params);
  resolved ← resolve_preset_params (normalize_preset stored) params;
  pw ← reads (fun s => new_password (clock s));
  created ← create_brainstorm_request_on_db pw alg params pubkey (template_value resolved.1) resolved.2
              full_relay full_neo4j trigger;
  how_many ← reads (count_brainstorm_requests_with_priority_over_one_on_db created.1);
  instance ← lift (brainstorm_request_db_obj_to_schema_converter created.1 created.2 how_many false);
  _ ← (if nsec_exists then mret tt
       else _ ← get_or_create_brainstorm_observer_nsec_by_pubkey_on_db params; mret tt);
  _ ← update_last_time_triggered_graperank_on_db params;
  mret instance.

Definition create_brainstorm_request (alg params pubkey : string) (nsec_exists full_relay full_neo4j : bool)
  (trigger : TriggerSource) : act Pipe BrainstormRequestInstance :=
  designated ← Tx (reads (fun s => fetch_designated_pubkeys (clock s) params)) Ret;
  instance ← session (insert_request alg params pubkey nsec_exists full_relay full_neo4j trigger);
  _ ← act_try (enqueue_calc_request instance params trigger designated)
        (fun e =>
           _ ← session (update_brainstorm_request_status_by_id_on_db (inst_private_id instance) FAILURE);
           throw e);
  mret instance.

(** ** The consumers *)

(** [process_job_started_message]. *)
Definition process_job_started_message (request_id : Z) : act Pipe unit :=
  session (update_brainstorm_request_result_by_id_on_db request_id "" ONGOING None).

(** A result with its run. *)
Definition first_card (cards : option (list (string * ScoreCard))) : option ScoreCard :=
  match cards with Some ((_, c) :: _) => Some c | _ => None end.

Definition process_message (private_id : Z) (result : GrapeRankResult) : act Pipe unit :=
  let st := match success result with Some true => SUCCESS | _ => FAILURE end in
  let pubkey := observer <$> first_card (scorecards result) in
  session (
    row ← select_brainstorm_request_by_id_on_db private_id;
    let '(by_hops, whitelist) :=
      bucket_scorecards_by_confidence_and_hops (scorecards result) (verified_line_for_run row)
        cutoff_of_valid_graperank_scores in
    err ← lift (match result_error result with
                | Some e => if py_truthy e then v ← validated_error e; Ok (Some v) else Ok None
                | None => Ok None
                end);
    _ ← update_brainstorm_request_result_by_id_on_db private_id (dumps_counts by_hops) st err;
    _ ← (match st with
         | FAILURE =>
             _ ← update_brainstorm_request_ta_status_by_id_on_db private_id FAILURE;
             update_brainstorm_request_internal_publication_status_by_id_on_db private_id FAILURE
         | _ => mret tt
         end);
    _ ← (match st, pubkey with
         | SUCCESS, Some pk =>
             if String.eqb pk "" then mret tt else upsert_observer_whitelist_on_db pk whitelist private_id
         | _, _ => mret tt
         end);
    match pubkey with
    | Some pk => if String.eqb pk "" then mret tt else update_last_time_calculated_graperank_on_db pk
    | None => mret tt
    end).

Definition empty_counts : counts := (fun n => (n, [])) <$> TIER_NAMES.

Definition fail_result_stage (private_id : Z) (reason : string) : act Pipe unit :=
  session (update_brainstorm_request_result_by_id_on_db private_id (dumps_counts empty_counts) FAILURE
             (Some (lost_error reason))).
Definition fail_ta_stage (private_id : Z) : act Pipe unit :=
  session (update_brainstorm_request_ta_status_by_id_on_db private_id FAILURE).
Definition fail_neo4j_stage (private_id : Z) : act Pipe unit :=
  session (update_brainstorm_request_internal_publication_status_by_id_on_db private_id FAILURE).

(** *** Publishing to the relay *)

(** The first session: whether to publish in full, and the stage is running. *)
Definition begin_publish (run_id : Z) (pk : string) : TX Pipe (bool * option Z) :=
  nsec ← get_or_create_brainstorm_observer_nsec_by_pubkey_on_db pk;
  row ← select_brainstorm_request_by_id_on_db run_id;
  let full := resolve_full_sync relay_full_sync_setting (force_full_relay row) in
  gap ← reads (relay_publish_gap_pending_on_db pk run_id);
  let forced := negb full && gap in
  _ ← (if forced : bool then mark_brainstorm_request_force_full_relay_on_db run_id else mret tt);
  _ ← update_brainstorm_request_ta_status_by_id_on_db run_id ONGOING;
  mret (full || forced, assistant_kind0_published_at nsec.1).

Definition ensure_assistant_kind0_published (pk : string) (published_at : option Z) : act Pipe unit :=
  match published_at with
  | Some _ => mret tt
  | None =>
      act_try (session (
          fails ← reads (fun s => kind0_fails (clock s) pk);
          match fails with
          | Some e => raise e
          | None => update_assistant_kind0_published_at_on_db pk
          end))
        (fun _ => mret tt)
  end.

(** The relay after a publication: assertions first, then deletions. *)
Definition send_to_relay (pk : string) (inputs : list TaInput) (dels : list string) : TX Pipe PublishReport :=
  fun s =>
    let r := publish_events (clock s) inputs dels in
    (Ok r, with_relay s (<[pk := (default ∅ (relay s !! pk) ∪ accepted r) ∖ removed r]> (relay s))).

Definition finish_publish (run_id : Z) (pk : string) (published : list string) (full : bool) : TX Pipe unit :=
  _ ← update_brainstorm_request_ta_status_by_id_on_db run_id SUCCESS;
  _ ← update_last_published_pubkeys_by_pubkey_on_db pk published run_id;
  _ ← update_last_time_published_graperank_on_db pk;
  seconds ← reads (fun s => publish_seconds (clock s));
  _ ← update_brainstorm_request_publish_duration_by_id_on_db run_id seconds;
  if full : bool then reset_runs_since_full_on_db pk else mret tt.

(** The body of the [try]. *)
Definition publish_run (run_id : Z) (pk : string) (cards : list (string * ScoreCard))
  (changed : list string) (full : bool) (kind0 : option Z) : act Pipe unit :=
  match keys_fail pk with
  | Some e => throw e
  | None =>
      _ ← ensure_assistant_kind0_published pk kind0;
      let inputs := prepare_ta_inputs cards changed cutoff_of_valid_graperank_scores full in
      previous ← session (reads (get_last_published_pubkeys_by_pubkey_on_db pk));
      let plan := plan_publish cards previous cutoff_of_valid_graperank_scores relay_sweep_below_cutoff in
      report ← Tx (send_to_relay pk inputs (deletes plan)) Ret;
      if aborted report || negb (n_unacked report =? 0) then throw (OtherException "RuntimeError")
      else session (finish_publish run_id pk (currently_published plan) full)
  end.

Definition process_nostr_upload_message (run_id : Z) (result : GrapeRankResult) : act Pipe unit :=
  match scorecards result with
  | None | Some [] =>
      match success result with
      | Some true => session (update_brainstorm_request_ta_status_by_id_on_db run_id SUCCESS)
      | _ => mret tt
      end
  | Some (((_, c) :: _) as cards) =>
      let pk := observer c in
      begun ← session (begin_publish run_id pk);
      act_try (publish_run run_id pk cards (changedScorePubkeys result) begun.1 begun.2)
        (fun _ => session (update_brainstorm_request_ta_status_by_id_on_db run_id FAILURE))
  end.

(** *** Writing scores to Neo4j *)

Definition BATCH_SIZE : nat := 5000.

Definition write_batches {A} (work : list A -> Pipe -> Pipe) (items : list A) : act Pipe unit :=
  foldr (fun batch rest => _ ← Tx (writes (work batch)) Ret; rest) (mret tt)
    (chunks (length items) BATCH_SIZE items).

Definition cleanup_due (last : option Z) (interval_days now : Z) : bool :=
  if interval_days <=? 0 then false
  else match last with None => true | Some l => interval_days * DAY <=? now - l end.

Definition score_row (c : ScoreCard) : string * Score :=
  (observee c, {| score_influence := influence c; score_hops := py_int (hops c);
                  score_trusted_followers := count_of (trusted_followers c) |}).

(** The scorecards a run writes. *)
Definition cards_to_write (full : bool) (write_set : option (list string)) (floor : option Q)
  (cards : list ScoreCard) : list ScoreCard :=
  if negb full then filter (fun c => observee c ∈ default [] write_set) cards
  else match floor with
       | Some f => filter (fun c => flt f (influence c) = true) cards
       | None => cards
       end.

Definition clear_unreached (pk : string) (scored : gset string) : act Pipe unit :=
  holders ← Tx (reads (get_pubkeys_scored_by_observer pk)) Ret;
  write_batches (clear_observer_scores pk) (filter (fun h => h ∉ scored) holders).

Definition begin_write (run_id : Z) (pk : string) (write_set : option (list string))
  : TX Pipe (bool * bool) :=
  row ← select_brainstorm_request_by_id_on_db run_id;
  let forced := match force_full_neo4j row with Some true => true | _ => false end in
  due ← reads (fun s => cleanup_due (get_last_neo4j_cleanup_at_on_db pk s) neo4j_cleanup_interval_days (clock s));
  let full := neo4j_full_write || forced || match write_set with None => true | Some _ => false end in
  _ ← update_brainstorm_request_internal_publication_status_by_id_on_db run_id ONGOING;
  mret (forced || due, full).

Definition process_neo4j_write_message (run_id : Z) (result : GrapeRankResult) : act Pipe unit :=
  match success result with
  | None => throw KeyError
  | Some is_success =>
  match scorecards result with
  | None | Some [] =>
      if is_success then
        session (update_brainstorm_request_internal_publication_status_by_id_on_db run_id SUCCESS)
      else mret tt
  | Some (((_, c) :: _) as cards) =>
      let pk := observer c in
      begun ← session (begin_write run_id pk (neo4jWritePubkeys result));
      _ ← write_batches (set_observer_scores pk)
            (score_row <$> cards_to_write begun.2 (neo4jWritePubkeys result) (neo4jPersistFloor result) cards.*2);
      _ ← write_batches (clear_observer_scores pk) (neo4jClearPubkeys result);
      _ ← (if begun.1 : bool then clear_unreached pk (list_to_set (observee <$> cards.*2)) else mret tt);
      session (
        _ ← update_brainstorm_request_internal_publication_status_by_id_on_db run_id SUCCESS;
        if begun.1 : bool then mark_neo4j_cleanup_on_db pk else mret tt)
  end
  end.

(** ** The reaper *)

Definition fail_stale_ongoing_brainstorm_requests : act Pipe unit :=
  act_try (_ ← session (fail_stale_in_pipeline_brainstorm_requests_on_db stale_threshold); mret tt)
    (fun _ => mret tt).

(** ** The periodic trigger *)

Definition trigger_graperank (pubkey : string) : act Pipe BrainstormRequestInstance :=
  (* One session until [create_brainstorm_request] commits it. *)
  designated ← Tx (reads (fun s => fetch_designated_pubkeys (clock s) pubkey)) Ret;
  instance ← session (
    nsec ← get_or_create_brainstorm_observer_nsec_by_pubkey_on_db pubkey;
    let due := backstop_due (runs_since_full nsec.1) full_sync_every_n_runs in
    _ ← (if due : bool then mret tt else increment_runs_since_full_on_db pubkey);
    insert_request "graperank" pubkey pubkey true due due PERIODIC);
  _ ← act_try (enqueue_calc_request instance pubkey PERIODIC designated)
        (fun e =>
           _ ← session (update_brainstorm_request_status_by_id_on_db (inst_private_id instance) FAILURE);
           throw e);
  mret instance.

End pipeline.
