(* ===== verification/Scheduler.v ===== *)
(** * The scheduler
      ([src/app/services/scheduler.py], [src/app/cronjobs/scheduler.py],
       [src/app/repos/scheduler_repo.py], [src/app/services/manual_quota.py] and
       the manual trigger of [src/app/routers/user/router.py]) *)

From Stdlib Require Import QArith Ascii String.
From S2P Require Import Prelude Json Binary64 Atomic Runs PublishPlan Pipeline.
Local Open Scope string_scope.
Local Open Scope Z_scope.

(** ** Decisions *)

Definition NON_TERMINAL_STATUSES : list string := ["waiting"; "ongoing"].

(** On the columns' text. *)
Definition request_in_pipeline (st ta_status : string) : bool :=
  if decide (st ∈ NON_TERMINAL_STATUSES) then true
  else String.eqb st "success" && bool_decide (ta_status ∈ NON_TERMINAL_STATUSES).

Record SchedulerCandidate := {
  cand_pubkey : string;
  cand_priority : Z;
  cand_interval_seconds : Z;
  cand_last_published : option Z;
  cand_last_failed_at : option Z;
  cand_enabled : bool;
}.

Definition RETRY_BACKOFF_SECONDS : Z := 3600.

(** [timedelta.total_seconds()] of a difference in microseconds. *)
Definition total_seconds (us : Z) : Q := fdiv us 1000000.

Definition admission_budget (target inflight : Z) (interactive_in_flight : bool) : Z :=
  if interactive_in_flight then 0 else Z.max 0 (target - inflight).

Definition is_overdue (c : SchedulerCandidate) (now : Z) : bool :=
  match cand_last_published c with
  | None => true
  | Some t => fle (inject_Z (cand_interval_seconds c)) (total_seconds (now - t))
  end.

Definition in_retry_backoff (c : SchedulerCandidate) (now backoff : Z) : bool :=
  match cand_last_failed_at c with
  | None => false
  | Some t => flt (total_seconds (now - t)) (inject_Z backoff)
  end.

Definition eligible (now backoff : Z) (c : SchedulerCandidate) : bool :=
  cand_enabled c && is_overdue c now && negb (in_retry_backoff c now backoff).

(** [_overdue_seconds]: never published is infinite. *)
Definition overdue_le (now : Z) (a b : SchedulerCandidate) : bool :=
  match cand_last_published a, cand_last_published b with
  | _, None => true
  | None, Some _ => false
  | Some x, Some y => fle (total_seconds (now - x)) (total_seconds (now - y))
  end.

(** [(priority, overdue)] of [b] is at most that of [a]: descending order. *)
Definition ranks_before (now : Z) (a b : SchedulerCandidate) : bool :=
  (cand_priority b <? cand_priority a)
  || ((cand_priority b =? cand_priority a) && overdue_le now b a).

Definition rank_overdue_candidates (candidates : list SchedulerCandidate) (now : Z)
  : list SchedulerCandidate :=
  stable_sort (ranks_before now) (filter (fun c => eligible now RETRY_BACKOFF_SECONDS c = true) candidates).

(** ** Which lane fills the next slot *)

Definition admitted (p : Z) (counts : list (Z * Z)) : Z := default 0 (dict_get p counts).

Definition sum (l : list Z) : Z := foldr Z.add 0 l.

Definition deficit (active : list Z) (counts : list (Z * Z)) (p : Z) : Q :=
  let total_weight := sum ((fun q => q + 1) <$> active) in
  let total_admitted := sum ((fun q => admitted q counts) <$> active) in
  let target := fdiv (p + 1) total_weight in
  let current := if total_admitted =? 0 then 0%Q else fdiv (admitted p counts) total_admitted in
  fsub target current.

(** [max(active, key=lambda p: (deficit(p), p))]: the first with the largest. *)
Definition lane_less (active : list Z) (counts : list (Z * Z)) (p q : Z) : bool :=
  flt (deficit active counts p) (deficit active counts q)
  || (fle (deficit active counts p) (deficit active counts q)
      && fle (deficit active counts q) (deficit active counts p) && (p <? q)).

Fixpoint best_lane (less : Z -> Z -> bool) (best : Z) (l : list Z) : Z :=
  match l with
  | [] => best
  | p :: l' => best_lane less (if less best p then p else best) l'
  end.

(** [max] of nothing raises; so does a share of zero weight. *)
Definition choose_admission_lane (active : list Z) (counts : list (Z * Z)) : res exn Z :=
  match active with
  | [] => Raise (OtherException "ValueError")
  | p :: l =>
      if sum ((fun q => q + 1) <$> active) =? 0 then Raise (OtherException "ZeroDivisionError")
      else Ok (best_lane (lane_less active counts) p l)
  end.

(** [max(active)]. *)
Definition strict_lane (active : list Z) : res exn Z :=
  match active with
  | [] => Raise (OtherException "ValueError")
  | p :: l => Ok (best_lane Z.ltb p l)
  end.

(** ** Candidates *)

Definition last_failed_at (pubkey : string) (s : Pipe) : option Z :=
  max_by id ((fun kr => updated_at kr.2) <$>
    filter (fun kr => owned_by pubkey kr.2 && bool_decide (status kr.2 = FAILURE) = true) (rows s)).

Definition candidate_of (default_policy : Policy) (s : Pipe) (pubkey : string) (o : Observer)
  : SchedulerCandidate :=
  let p := default default_policy (scheduling_id o ≫= (fun i => policies s !! i)) in
  {| cand_pubkey := pubkey; cand_priority := priority p;
     cand_interval_seconds := schedule_interval_seconds p; cand_enabled := enabled p;
     cand_last_published := last_time_published_graperank o;
     cand_last_failed_at := last_failed_at pubkey s |}.

Definition load_scheduler_candidates_on_db (platform : string) (default_policy : Policy) (s : Pipe)
  : list SchedulerCandidate :=
  (fun ko => candidate_of default_policy s ko.1 ko.2) <$>
    filter (fun ko => ko.1 <> platform
                      /\ any_request_in_pipeline_for_pubkey_on_db ko.1 s = false)
      (map_to_list (observers s)).

(** ** One cycle *)

(** [lanes.setdefault(candidate.priority, []).append(candidate)]. *)
Definition add_to_lane (l : list (Z * list SchedulerCandidate)) (c : SchedulerCandidate)
  : list (Z * list SchedulerCandidate) :=
  dict_set (cand_priority c) (default [] (dict_get (cand_priority c) l) ++ [c])%list l.

Definition bucket (ranked : list SchedulerCandidate) : list (Z * list SchedulerCandidate) :=
  foldl add_to_lane [] ranked.

Definition nonempty {A} (l : list A) : bool := match l with [] => false | _ => true end.
Definition active_lanes (l : list (Z * list SchedulerCandidate)) : list Z :=
  (filter (fun kq => nonempty kq.2 = true) l).*1.

(** [lanes[lane].pop(0)]. *)
Definition pop_lane (lane : Z) (l : list (Z * list SchedulerCandidate))
  : option (SchedulerCandidate * list (Z * list SchedulerCandidate)) :=
  match dict_get lane l with
  | Some (c :: q) => Some (c, dict_set lane q l)
  | _ => None
  end.

Section cycle.
Context {E : PipeEnv}.

Definition choose_lane (active : list Z) (counts : list (Z * Z)) : res exn Z :=
  if scheduler_fairness_enabled then choose_admission_lane active counts else strict_lane active.

(** The [while]; [left] is the number of candidates not yet looked at, which every
    round lowers. *)
Fixpoint admit_loop (left : nat) (budget enqueued : Z) (queues : list (Z * list SchedulerCandidate))
  : act Pipe Z :=
  match left with
  | O => mret enqueued
  | S left' =>
      if (enqueued <? budget) && nonempty (active_lanes queues) then
        counts ← Tx (reads admitted_counts) Ret;
        lane ← Ret (choose_lane (active_lanes queues) counts);
        match pop_lane lane queues with
        | None => throw KeyError
        | Some (c, queues') =>
            follows_someone ← Tx (reads (fun s => has_grapevine (clock s) (cand_pubkey c))) Ret;
            if negb follows_someone then admit_loop left' budget enqueued queues'
            else
              _ ← create_brainstorm_request "graperank" (cand_pubkey c) (cand_pubkey c) true false false SCHEDULED;
              _ ← Tx (writes (fun s => with_admitted s
                        (dict_set lane (admitted lane (admitted_counts s) + 1) (admitted_counts s)))) Ret;
              admit_loop left' budget (enqueued + 1) queues'
        end
      else mret enqueued
  end.

Definition run_cycle : act Pipe unit :=
  inflight ← Tx (reads count_scheduled_publishing_inflight_on_db) Ret;
  busy ← Tx (reads any_interactive_in_pipeline_on_db) Ret;
  let budget := admission_budget scheduler_inflight_target inflight busy in
  if budget <=? 0 then mret tt
  else
    default_policy ← Tx (reads get_default_scheduling_on_db) Ret;
    match default_policy with
    | None => mret tt
    | Some d =>
        candidates ← Tx (reads (load_scheduler_candidates_on_db platform_pubkey d)) Ret;
        now ← Tx (reads clock) Ret;
        let ranked := rank_overdue_candidates candidates now in
        _ ← admit_loop (length ranked) budget 0 (bucket ranked);
        mret tt
    end.

(** ** The manual quota *)

Record QuotaDecision := { allowed : bool; reset_at : option Z }.

Definition manual_quota_decision (count : Z) (oldest_in_window : option Z) (limit window_seconds now : Z)
  : QuotaDecision :=
  if count <? limit then {| allowed := true; reset_at := None |}
  else {| allowed := false; reset_at := Some (default now oldest_in_window + window_seconds * 1000000) |}.

Definition enforce_manual_quota (pubkey : string) : TX Pipe unit :=
  policy ← reads (get_scheduling_for_pubkey_on_db pubkey);
  match policy with
  | None => mret tt
  | Some p =>
      now ← reads clock;
      counted ← reads (count_successful_manual_runs_in_window_on_db pubkey
                         (now - manual_quota_window_seconds p * 1000000));
      let d := manual_quota_decision counted.1 counted.2 (manual_quota_limit p)
                 (manual_quota_window_seconds p) now in
      if allowed d then mret tt else raise (HTTPException 429)
  end.

(** [POST /user/graperank]; [block_minutes] when frequent requests are refused. *)
Definition create_graperank_calc_endpoint (block_minutes : option Z) (pubkey : string)
  : act Pipe BrainstormRequestInstance :=
  _ ← session (
    _ ← enforce_manual_quota pubkey;
    match block_minutes with
    | None => mret tt
    | Some m =>
        latest ← reads (select_latest_brainstorm_request_on_db pubkey);
        now ← reads clock;
        match latest with
        | Some kr => if now - m * 60 * 1000000 <? created_at kr.2 then raise (HTTPException 403) else mret tt
        | None => mret tt
        end
    end);
  create_brainstorm_request "graperank" pubkey pubkey true false false MANUAL.

End cycle.
