(* ===== verification/PipeScenario.v ===== *)
(** * A small deployment of the run pipeline, on which witnesses evaluate *)

From Stdlib Require Import QArith Ascii String.
From S2P Require Import Prelude Json Binary64 Atomic Runs PublishPlan Pipeline.
Local Open Scope string_scope.
Local Open Scope Z_scope.

Definition everything_lands (t : Z) (inputs : list TaInput) (dels : list string) : PublishReport := {|
  n_events := Z.of_nat (length inputs) + 1; n_acked := Z.of_nat (length inputs) + 1; aborted := false;
  accepted := list_to_set (ta_observee <$> inputs); removed := list_to_set dels |}.

(** Every assertion lands, then the connection dies before the last answer. *)
Definition answer_lost (t : Z) (inputs : list TaInput) (dels : list string) : PublishReport := {|
  n_events := Z.of_nat (length inputs) + 1; n_acked := Z.of_nat (length inputs); aborted := true;
  accepted := list_to_set (ta_observee <$> inputs); removed := ∅ |}.

Definition pipe_env (publish : Z -> list TaInput -> list string -> PublishReport)
  (push : Z -> option exn) : PipeEnv := {|
  scheduler_enabled := true; scheduler_inflight_target := 2; scheduler_fairness_enabled := true;
  relay_full_sync_setting := false; relay_sweep_below_cutoff := false;
  cutoff_of_valid_graperank_scores := rn (2 # 100); neo4j_full_write := true;
  neo4j_cleanup_interval_days := 30; stale_threshold := 7 * 3600 * 1000000;
  full_sync_every_n_runs := 84; platform_pubkey := "platform";
  new_password := fun _ => "secret"; fetch_designated_pubkeys := fun _ _ => [];
  push_fails := push; keys_fail := fun _ => None; kind0_fails := fun _ _ => None;
  publish_seconds := fun _ => 1%Q; has_grapevine := fun _ pk => negb (String.eqb pk "loner");
  dumps_counts := fun _ => "{}"; validated_error := fun e => Ok e; lost_error := fun r => JStr r;
  publish_events := publish |}.

Definition demo_pipe : PipeEnv := pipe_env everything_lands (fun _ => None).

Lemma demo_publisher push : PublisherLaws (pipe_env everything_lands push).
Proof. by split. Qed.

Definition key_a := "aaaaaaaaaaaaaaaaaaaaaaaaaaaaaaaaaaaaaaaaaaaaaaaaaaaaaaaaaaaaaaaa".
Definition key_b := "bbbbbbbbbbbbbbbbbbbbbbbbbbbbbbbbbbbbbbbbbbbbbbbbbbbbbbbbbbbbbbbb".

Definition demo_params : GrapeRankPresetParams := {|
  rigor := 1; attenuationFactor := 1; followRating := 1; followConfidence := 1; muteRating := 0;
  muteConfidence := 1; reportRating := 0; reportConfidence := 1; followConfidenceOfObserver := 1;
  verifiedFollowersInfluenceCutoff := rn (2 # 100); verifiedReportersInfluenceCutoff := rn (1 # 10);
  verifiedMutersInfluenceCutoff := rn (1 # 100) |}.

Definition demo_policy : Policy := {|
  policy_name := "free"; schedule_interval_seconds := 86400; priority := 0; enabled := true;
  manual_quota_limit := 1; manual_quota_window_seconds := 604800; is_default := true |}.

Definition empty_pipe : Pipe := {|
  clock := 1000000000000; requests := ∅; next_id := 1; observers := ∅;
  policies := {[1 := demo_policy]}; whitelists := ∅; presets := {["DEFAULT" := demo_params]};
  preset_history := []; graph := ∅; lanes := ∅; relay := ∅; admitted_counts := [] |}.

Definition card (who : string) (infl : Q) : string * ScoreCard :=
  (who, {| observer := "alice"; observee := who; influence := rn infl; hops := 1;
           trusted_followers := Some 3%Q; trusted_reporters := None; trusted_muters := None |}).

Definition demo_result (cards : list (string * ScoreCard)) (changed : list string) : GrapeRankResult := {|
  scorecards := Some cards; success := Some true; changedScorePubkeys := changed;
  neo4jWritePubkeys := None; neo4jClearPubkeys := []; neo4jPersistFloor := None; result_error := None |}.

(** A run of an observer. *)
Definition demo_run (pk : string) (st ta : BrainstormRequestStatus) (full : bool) (at_ : Z) : BrainstormRequest := {|
  password := ""; status := st; status_ta_publication := ta;
  status_internal_brainstorm_publication := Some WAITING; count_values := None; error := None;
  parameters := pk; algorithm := "graperank"; run_pubkey := Some pk; graperank_preset_used := None;
  graperank_params := None; publish_duration_seconds := None; trigger_source := MANUAL;
  force_full_relay := Some full; force_full_neo4j := None; created_at := at_; updated_at := at_ |}.

Definition demo_message : CalcMessage := {|
  msg_instance := {|
    inst_private_id := 0; inst_status := WAITING; inst_ta_status := WAITING;
    inst_internal_status := Some WAITING; inst_count_values := None; inst_password := "";
    inst_algorithm := "graperank"; inst_parameters := "alice"; inst_priority := 0;
    inst_pubkey := Some "alice"; inst_trigger := MANUAL; inst_preset_used := None;
    inst_params := None; inst_error := None; inst_created_at := 0; inst_updated_at := 0 |};
  msg_designated := [] |}.

Definition at_clock (t : Z) (s : Pipe) : Pipe :=
  {| clock := t; requests := requests s; next_id := next_id s; observers := observers s;
     policies := policies s; whitelists := whitelists s; presets := presets s;
     preset_history := preset_history s; graph := graph s; lanes := lanes s; relay := relay s;
     admitted_counts := admitted_counts s |}.
