(* ===== verification/PipelineProps.v ===== *)
(** * What the run pipeline promises

    Over any interleaving of creations, consumers, the reaper, the periodic and
    manual triggers and the scheduler's cycles, with failures at every unit: a failed run stays failed and its result
    is settled once, a queued message names a committed run, reaping is exact, and
    a relay publication that did not land forces the next one to be full. *)

From Stdlib Require Import QArith Ascii String.
From S2P Require Import Prelude Json Binary64 Atomic Runs PublishPlan Pipeline Scheduler PipeScenario.
Local Open Scope string_scope.
Local Open Scope Z_scope.

(** ** How a row may change *)

Definition settled (r : BrainstormRequest) : bool := negb (non_terminal (status r)).

Record follows (r r' : BrainstormRequest) : Prop := {
  f_failure : status r = FAILURE -> status r' = FAILURE;
  f_settled : settled r = true ->
    (status r' = status r \/ status r' = FAILURE) /\ count_values r' = count_values r /\ error r' = error r;
  f_who : run_pubkey r' = run_pubkey r /\ trigger_source r' = trigger_source r
          /\ parameters r' = parameters r /\ algorithm r' = algorithm r /\ created_at r' = created_at r;
  f_params : graperank_params r' = graperank_params r;
  f_full : force_full_relay r = Some true -> force_full_relay r' = Some true;
  f_time : updated_at r <= updated_at r';
}.

Lemma follows_refl r : follows r r.
Proof. split; auto; lia. Qed.

Lemma follows_trans r1 r2 r3 : follows r1 r2 -> follows r2 r3 -> follows r1 r3.
Proof.
  intros H12 H23. split.
  - intros H. by apply (f_failure _ _ H23), (f_failure _ _ H12).
  - intros H. destruct (f_settled _ _ H12 H) as ([E|E] & Hc & He).
    + assert (Hs : settled r2 = true) by (unfold settled in *; by rewrite E).
      destruct (f_settled _ _ H23 Hs) as (Hst & Hc' & He'). rewrite E in Hst.
      by rewrite Hc', He'.
    + assert (Hs : settled r2 = true) by (unfold settled; by rewrite E).
      destruct (f_settled _ _ H23 Hs) as (_ & Hc' & He').
      rewrite Hc', He'. split; [right; by apply (f_failure _ _ H23)|done].
  - destruct (f_who _ _ H12) as (?&?&?&?&?), (f_who _ _ H23) as (?&?&?&?&?). repeat split; congruence.
  - by rewrite (f_params _ _ H23), (f_params _ _ H12).
  - intros H. by apply (f_full _ _ H23), (f_full _ _ H12).
  - pose proof (f_time _ _ H12). pose proof (f_time _ _ H23). lia.
Qed.

(** What any step does to the state, and what always holds of it. *)
Definition history (s s' : Pipe) : Prop :=
  clock s <= clock s' /\ next_id s <= next_id s'
  /\ forall id r, requests s !! id = Some r -> exists r', requests s' !! id = Some r' /\ follows r r'.

Definition well_formed (s : Pipe) : Prop :=
  (forall id r, requests s !! id = Some r -> id < next_id s /\ updated_at r <= clock s)
  /\ (forall lane ms m, lanes s !! lane = Some ms -> m ∈ ms -> is_Some (requests s !! msg_private_id m)).

Lemma history_refl s : history s s.
Proof. split; [lia|]. split; [lia|]. intros id r H. exists r. split; [done|apply follows_refl]. Qed.

Lemma history_trans s1 s2 s3 : history s1 s2 -> history s2 s3 -> history s1 s3.
Proof.
  intros (Hc1 & Hn1 & Hr1) (Hc2 & Hn2 & Hr2). split; [lia|]. split; [lia|]. intros id r H.
  destruct (Hr1 _ _ H) as (r' & H' & F1). destruct (Hr2 _ _ H') as (r'' & H'' & F2).
  exists r''. split; [done|]. by eapply follows_trans.
Qed.

(** What the rest of the world does: time passes, workers take messages, others
    edit what runs only read. *)
Definition elsewhere (s s' : Pipe) : Prop :=
  clock s <= clock s' /\ requests s' = requests s /\ next_id s' = next_id s
  /\ forall lane ms m, lanes s' !! lane = Some ms -> m ∈ ms ->
       exists lane' ms', lanes s !! lane' = Some ms' /\ m ∈ ms'.

Notation ok := (step_ok history well_formed).
Notation keeps := (keeps history well_formed).

Lemma elsewhere_ok s s' : well_formed s -> elsewhere s s' -> ok s s'.
Proof.
  intros [Hw Hl] (Hc & Hr & Hn & Hm). split; [split|].
  - rewrite Hr, Hn. intros id r H. destruct (Hw _ _ H). lia.
  - intros lane ms m H Hin. destruct (Hm _ _ _ H Hin) as (lane' & ms' & H' & Hin'). rewrite Hr. by eapply Hl.
  - split; [done|]. split; [lia|]. rewrite Hr. intros id r H. exists r. split; [done|apply follows_refl].
Qed.

(** *** Statements *)

(** A write that touches neither the runs nor the lanes. *)
Lemma keeps_aside {A} (m : TX Pipe A) :
  (forall s, let s' := (m s).2 in
     clock s' = clock s /\ requests s' = requests s /\ next_id s' = next_id s /\ lanes s' = lanes s) ->
  keeps m.
Proof.
  intros H s Hs. destruct (H s) as (Hc & Hr & Hn & Hl). apply elsewhere_ok; [done|].
  split; [lia|]. split; [done|]. split; [done|]. rewrite Hl. eauto.
Qed.

(** An UPDATE that lets a row follow itself. *)
Lemma keeps_update id cond f :
  (forall now r, cond r = true -> updated_at r <= now -> follows r (touch now (f r))) ->
  keeps (update_where id cond f).
Proof.
  intros Hf s [Hw Hl]. unfold update_where, writes. simpl.
  destruct (requests s !! id) as [r|] eqn:Hr; [|by split; [|apply history_refl]].
  destruct (cond r) eqn:Hc; [|by split; [|apply history_refl]].
  destruct (Hw _ _ Hr) as [Hid Hup]. specialize (Hf (clock s) r Hc Hup). split; [split|]; simpl.
  - intros id' r' [[<- <-]|[_ H]]%lookup_insert_Some; [simpl; lia|by apply Hw].
  - intros lane ms m H Hin. destruct (Hl _ _ _ H Hin) as [r0 H0].
    destruct (decide (msg_private_id m = id)) as [->|Hne]; [rewrite lookup_insert_eq; eauto|].
    rewrite lookup_insert_ne by done. eauto.
  - split; [simpl; lia|]. split; [simpl; lia|]. intros id' r' H. simpl. destruct (decide (id' = id)) as [->|Hne].
    + rewrite lookup_insert_eq. rewrite Hr in H. injection H as <-. eauto.
    + rewrite lookup_insert_ne by done. exists r'. split; [done|apply follows_refl].
Qed.

Lemma keeps_ta id v : keeps (update_brainstorm_request_ta_status_by_id_on_db id v).
Proof. apply keeps_update. intros now r _ Hup. by split; auto; intros _; auto. Qed.
Lemma keeps_internal id v : keeps (update_brainstorm_request_internal_publication_status_by_id_on_db id v).
Proof. apply keeps_update. intros now r _ Hup. by split; auto; intros _; auto. Qed.
Lemma keeps_status_failure id : keeps (update_brainstorm_request_status_by_id_on_db id FAILURE).
Proof. apply keeps_update. intros now r _ Hup. by split; auto; intros _; auto. Qed.
Lemma keeps_result id c v e : keeps (update_brainstorm_request_result_by_id_on_db id c v e).
Proof.
  apply keeps_update. intros now r Hn Hup. split; auto; simpl.
  - intros H. by rewrite H in Hn.
  - unfold settled. by rewrite Hn.
Qed.
Lemma keeps_duration id q : keeps (update_brainstorm_request_publish_duration_by_id_on_db id q).
Proof. apply keeps_update. intros now r _ Hup. by split; auto; intros _; auto. Qed.
Lemma keeps_mark id : keeps (mark_brainstorm_request_force_full_relay_on_db id).
Proof. apply keeps_update. intros now r _ Hup. by split; auto; intros _; auto. Qed.

Lemma keeps_observer pk f : keeps (update_observer pk f).
Proof. apply keeps_aside. intros s. unfold update_observer, writes. simpl. by destruct (observers s !! pk). Qed.
Lemma keeps_nsec pk : keeps (get_or_create_brainstorm_observer_nsec_by_pubkey_on_db pk).
Proof.
  apply keeps_aside. intros s. unfold get_or_create_brainstorm_observer_nsec_by_pubkey_on_db.
  by destruct (observers s !! pk).
Qed.
Lemma keeps_whitelist pk w id : keeps (upsert_observer_whitelist_on_db pk w id).
Proof. by apply keeps_aside. Qed.

Lemma follows_reap now cutoff r : updated_at r <= now -> follows r (reap now cutoff r).
Proof.
  intros Hup. unfold reap. destruct (in_pipeline r && (updated_at r <? cutoff)); [|apply follows_refl].
  destruct (non_terminal (status_ta_publication r)); by split; auto; intros _; auto.
Qed.

Lemma keeps_reap t : keeps (fail_stale_in_pipeline_brainstorm_requests_on_db t).
Proof.
  intros s [Hw Hl]. simpl. split; [split|]; simpl.
  - intros id r H. rewrite lookup_fmap in H. destruct (requests s !! id) as [r0|] eqn:Hr; [|done].
    injection H as <-. destruct (Hw _ _ Hr). split; [done|]. unfold reap.
    by destruct (_ && _).
  - intros lane ms m H Hin. destruct (Hl _ _ _ H Hin) as [r0 H0]. rewrite lookup_fmap, H0. by eexists.
  - split; [simpl; lia|]. split; [simpl; lia|]. intros id r H. exists (reap (clock s) (clock s - t) r).
    simpl. rewrite lookup_fmap, H. split; [done|]. apply follows_reap. by destruct (Hw _ _ H).
Qed.

(** ** The handlers *)

Section handlers.
Context {E : PipeEnv}.
Notation within := (within history well_formed).
Notation safe_from := (safe_from history well_formed).

(** Every statement of the pipeline but the insert. *)
Create HintDb pipeline_db.
#[local] Hint Resolve keeps_ta keeps_internal keeps_status_failure keeps_result keeps_duration keeps_mark
  keeps_observer keeps_nsec keeps_whitelist keeps_reap : pipeline_db.

Ltac unit_keeps :=
  cbv zeta;
  repeat first
    [ solve [eauto with pipeline_db nocore]
    | apply keeps_bind; [exact history_trans| |intros ?]
    | apply keeps_reads, history_refl
    | apply keeps_ret, history_refl
    | apply keeps_raise, history_refl
    | apply keeps_observer
    | match goal with |- Atomic.keeps _ _ (match ?x with _ => _ end) => destruct x end ].

Lemma keeps_lift {A} (r : res exn A) : keeps (lift r : TX Pipe A).
Proof using. destruct r; simpl; unit_keeps. Qed.
Lemma keeps_select id : keeps (select_brainstorm_request_by_id_on_db id).
Proof using. unfold select_brainstorm_request_by_id_on_db, handle_no_data. unit_keeps. Qed.
Lemma keeps_published pk l id : keeps (update_last_published_pubkeys_by_pubkey_on_db pk l id).
Proof using. unfold update_last_published_pubkeys_by_pubkey_on_db. unit_keeps. Qed.
Lemma keeps_send pk i d : keeps (send_to_relay pk i d).
Proof using. by apply keeps_aside. Qed.
Lemma keeps_set_preset pk p : keeps (set_graperank_preset_by_pubkey_on_db pk p).
Proof using. unfold set_graperank_preset_by_pubkey_on_db. unit_keeps. Qed.
#[local] Hint Resolve keeps_lift keeps_select keeps_published keeps_send keeps_set_preset : pipeline_db.

Ltac handler_within :=
  repeat first
    [ apply within_bind; [|intros ?]
    | apply within_try; [|intros ?]
    | apply within_session; [exact history_refl|]; unit_keeps
    | apply within_tx; unit_keeps
    | exact I
    | match goal with |- Atomic.within _ _ (match ?x with _ => _ end) => destruct x end ].

Lemma within_batches {A} (work : list A -> Pipe -> Pipe) items :
  (forall b s, exists g, work b s = with_graph s g) -> within (write_batches work items).
Proof using.
  intros H. unfold write_batches. induction (chunks (length items) BATCH_SIZE items) as [|b l IH]; [exact I|].
  simpl. split; [|by intros [u|e]]. apply keeps_aside. intros s. simpl. by destruct (H b s) as [g ->].
Qed.

Lemma within_job_started id : within (process_job_started_message id).
Proof using. unfold process_job_started_message. handler_within. Qed.

Lemma within_process_message id res : within (process_message id res).
Proof using.
  unfold process_message. apply within_session; [exact history_refl|].
  apply keeps_bind; [exact history_trans|apply keeps_select|intros row].
  destruct (bucket_scorecards_by_confidence_and_hops _ _ _). unit_keeps.
Qed.

Lemma within_fail_stages id reason :
  within (fail_result_stage id reason) /\ within (fail_ta_stage id) /\ within (fail_neo4j_stage id).
Proof using.
  unfold fail_result_stage, fail_ta_stage, fail_neo4j_stage. split; [|split]; handler_within.
Qed.

Lemma keeps_begin_publish id pk : keeps (begin_publish id pk).
Proof using. unfold begin_publish. unit_keeps. Qed.
Lemma keeps_finish_publish id pk l b : keeps (finish_publish id pk l b).
Proof using. unfold finish_publish. unit_keeps. Qed.
#[local] Hint Resolve keeps_begin_publish keeps_finish_publish : pipeline_db.

Lemma within_upload id res : within (process_nostr_upload_message id res).
Proof using.
  unfold process_nostr_upload_message, publish_run, ensure_assistant_kind0_published, throw.
  handler_within.
Qed.

Lemma keeps_begin_write id pk w : keeps (begin_write id pk w).
Proof using. unfold begin_write. unit_keeps. Qed.
#[local] Hint Resolve keeps_begin_write : pipeline_db.

Lemma within_neo4j id res : within (process_neo4j_write_message id res).
Proof using.
  unfold process_neo4j_write_message, clear_unreached, throw. handler_within;
    apply within_batches; intros ? ?; eexists; reflexivity.
Qed.

Lemma within_reaper : within fail_stale_ongoing_brainstorm_requests.
Proof using. unfold fail_stale_ongoing_brainstorm_requests. handler_within. Qed.

Lemma within_set_preset pk p : within (set_graperank_preset_endpoint pk p).
Proof using. unfold set_graperank_preset_endpoint. destruct p; handler_within. Qed.

(** *** Creating a run *)

Lemma keeps_create pw alg params pk preset gp fr fn tr :
  keeps (create_brainstorm_request_on_db pw alg params pk preset gp fr fn tr).
Proof using.
  intros s [Hw Hl]. unfold create_brainstorm_request_on_db. simpl. split; [split|]; simpl.
  - intros id r [[<- <-]|[_ H]]%lookup_insert_Some; simpl; [lia|]. destruct (Hw _ _ H). lia.
  - intros lane ms m H Hin. destruct (Hl _ _ _ H Hin) as [r0 H0]. destruct (Hw _ _ H0).
    rewrite lookup_insert_ne by lia. eauto.
  - split; [simpl; lia|]. split; [simpl; lia|]. intros id r H. destruct (Hw _ _ H).
    exists r. simpl. rewrite lookup_insert_ne by lia. split; [done|apply follows_refl].
Qed.

Lemma keeps_resolve p pk : keeps (resolve_preset_params p pk).
Proof using.
  unfold resolve_preset_params, builtin_params, validated. destruct p; unit_keeps.
Qed.
#[local] Hint Resolve keeps_create keeps_resolve : pipeline_db.

Lemma keeps_insert alg params pk ne fr fn tr : keeps (insert_request alg params pk ne fr fn tr).
Proof using. unfold insert_request. unit_keeps. Qed.
#[local] Hint Resolve keeps_insert : pipeline_db.

(** A bind that returns went through both parts. *)
Lemma bind_ok {A B} (m : TX Pipe A) (f : A -> TX Pipe B) s b s' :
  (m ≫= f) s = (Ok b, s') -> exists a s1, m s = (Ok a, s1) /\ f a s1 = (Ok b, s').
Proof using. unfold mbind, TX_mbind. destruct (m s) as [[a|e] s1]; [eauto|done]. Qed.

Lemma lift_ok {A} (r : res exn A) (s : Pipe) a s' : lift r s = (Ok a, s') -> r = Ok a /\ s' = s.
Proof using. destruct r; [intros [= -> ->]; done|done]. Qed.

Lemma converter_id id r n b i :
  brainstorm_request_db_obj_to_schema_converter id r n b = Ok i -> inst_private_id i = id.
Proof using.
  unfold brainstorm_request_db_obj_to_schema_converter. destruct (error r); [|by intros [= <-]].
  destruct (validated_error _); simpl; [by intros [= <-]|done].
Qed.

Lemma observer_requests pk f s : requests (update_observer pk f s).2 = requests s.
Proof using. unfold update_observer, writes. simpl. by destruct (observers s !! pk). Qed.

Lemma nsec_requests pk s : requests (get_or_create_brainstorm_observer_nsec_by_pubkey_on_db pk s).2 = requests s.
Proof using.
  unfold get_or_create_brainstorm_observer_nsec_by_pubkey_on_db. by destruct (observers s !! pk).
Qed.

(** The instance names the row just inserted. *)
Lemma insert_request_row alg params pk ne fr fn tr s i s' :
  insert_request alg params pk ne fr fn tr s = (Ok i, s') -> is_Some (requests s' !! inst_private_id i).
Proof using.
  unfold insert_request. intros H.
  apply bind_ok in H as (stored & s1 & [= <- <-] & H). apply bind_ok in H as (res & s2 & Hres & H).
  apply bind_ok in H as (pw & s3 & [= <- <-] & H). apply bind_ok in H as (cr & s4 & Hcr & H).
  unfold create_brainstorm_request_on_db in Hcr. injection Hcr as <- <-.
  apply bind_ok in H as (n & s5 & [= <- <-] & H). apply bind_ok in H as (inst & s6 & Hi & H).
  apply lift_ok in Hi as [Hi ->]. apply converter_id in Hi. cbn [fst snd] in Hi.
  apply bind_ok in H as (u & s7 & Hu & H). apply bind_ok in H as (u' & s8 & Hu' & H).
  injection H as <- <-. rewrite Hi.
  match type of Hu with context [with_new_request s2 ?r] => set (r0 := r) in Hu end.
  assert (E7 : requests s7 = <[next_id s2 := r0]> (requests s2)).
  { destruct ne; [by injection Hu as _ <-|]. apply bind_ok in Hu as (o & s9 & Ho & Hu).
    injection Hu as _ <-. pose proof (nsec_requests params (with_new_request s2 r0)) as En.
    rewrite Ho in En. exact En. }
  pose proof (observer_requests params (fun now o => set_times (Some now) (last_time_calculated_graperank o)
                                         (last_time_published_graperank o) o) s7) as E8.
  unfold update_last_time_triggered_graperank_on_db in Hu'. rewrite Hu' in E8. simpl in E8.
  rewrite E8, E7, lookup_insert_eq. eauto.
Qed.

(** A message may be queued for a run whose row is there. *)
Lemma safe_enqueue s0 i pk tr des :
  is_Some (requests s0 !! inst_private_id i) -> safe_from s0 (enqueue_calc_request i pk tr des) (fun _ _ => True).
Proof using.
  intros [r0 H0]. unfold enqueue_calc_request.
  eapply (act_safe_bind _ _ history_refl history_trans _ _ _ (fun _ _ => True)).
  { apply within_safe. destruct tr; handler_within. }
  intros sched s1 (_ & _ & H01) _. apply safe_tx. intros s (_ & _ & H1s) [Hw Hl].
  destruct (H01 _ _ H0) as (r1 & Hr1 & _). destruct (H1s _ _ Hr1) as (r & Hr & _).
  destruct (push_fails (clock s)); simpl; [split; [|done]; by split; [|apply history_refl]|].
  split; [|done]. split; [split; [done|]|].
  - simpl. intros lane ms m [[<- <-]|[_ H]]%lookup_insert_Some Hin; [|by eapply Hl].
    apply elem_of_app in Hin as [Hin|Hin].
    + destruct (lanes s !! _) as [ms|] eqn:Hms; [by eapply Hl|by apply elem_of_nil in Hin].
    + apply list_elem_of_singleton in Hin as ->. simpl. eauto.
  - split; [simpl; lia|]. split; [simpl; lia|]. intros id' r' H. exists r'. split; [done|apply follows_refl].
Qed.

(** Insert, commit, enqueue; a failed enqueue fails the row. *)
Definition create_and_enqueue {A} (before : TX Pipe A) (insert : A -> TX Pipe BrainstormRequestInstance)
  (params : string) (tr : TriggerSource) : act Pipe BrainstormRequestInstance :=
  designated ← Tx (reads (fun s => fetch_designated_pubkeys (clock s) params)) Ret;
  instance ← session (a ← before; insert a);
  _ ← act_try (enqueue_calc_request instance params tr designated)
        (fun e =>
           _ ← session (update_brainstorm_request_status_by_id_on_db (inst_private_id instance) FAILURE);
           throw e);
  mret instance.

Lemma safe_create {A} (before : TX Pipe A) insert params tr s0 :
  keeps before -> (forall a, keeps (insert a)) ->
  (forall a s i s', insert a s = (Ok i, s') -> is_Some (requests s' !! inst_private_id i)) ->
  safe_from s0 (create_and_enqueue before insert params tr) (fun _ _ => True).
Proof using.
  intros Hb Hk Hrow. unfold create_and_enqueue.
  eapply (act_safe_bind _ _ history_refl history_trans _ _ _ (fun _ _ => True)).
  { apply within_safe. handler_within. }
  intros des s1 _ _.
  eapply (act_safe_bind _ _ history_refl history_trans _ _ _ (fun i s => is_Some (requests s !! inst_private_id i))).
  { apply safe_session; [exact history_refl|]. intros s _ HI.
    pose proof (keeps_bind _ _ history_trans before insert Hb Hk s HI) as Hstep.
    destruct ((a ← before; insert a) s) as [[i|e] s'] eqn:Hi; [|done]. simpl in Hstep. split; [done|].
    apply bind_ok in Hi as (a & s2 & _ & Hi). by eapply Hrow. }
  intros i s2 _ Hi.
  eapply (act_safe_bind _ _ history_refl history_trans _ _ _ (fun _ _ => True)); [|done].
  apply act_safe_try; [exact history_refl|exact history_trans|by apply safe_enqueue|].
  intros e s3 _. apply within_safe. unfold throw. handler_within.
Qed.

Lemma create_eq alg params pk ne fr fn tr :
  create_brainstorm_request alg params pk ne fr fn tr
  = create_and_enqueue (mret tt) (fun _ => insert_request alg params pk ne fr fn tr) params tr.
Proof using. unfold create_brainstorm_request, create_and_enqueue. cbn. reflexivity. Qed.

Definition periodic_insert (pk : string) (nsec : Observer * bool) : TX Pipe BrainstormRequestInstance :=
  let due := backstop_due (runs_since_full nsec.1) full_sync_every_n_runs in
  _ ← (if due : bool then mret tt else increment_runs_since_full_on_db pk);
  insert_request "graperank" pk pk true due due PERIODIC.

Lemma trigger_eq pk :
  trigger_graperank pk
  = create_and_enqueue (get_or_create_brainstorm_observer_nsec_by_pubkey_on_db pk) (periodic_insert pk) pk PERIODIC.
Proof using. reflexivity. Qed.

(** *** The scheduler and the manual trigger *)

Lemma safe_then {A B} s0 (p : act Pipe A) (f : A -> act Pipe B) :
  safe_from s0 p (fun _ _ => True) -> (forall a s, safe_from s (f a) (fun _ _ => True)) ->
  safe_from s0 (p ≫= f) (fun _ _ => True).
Proof using.
  intros Hp Hf. eapply (act_safe_bind _ _ history_refl history_trans); [exact Hp|]. auto.
Qed.

Lemma safe_create_request alg params pk ne fr fn tr s0 :
  safe_from s0 (create_brainstorm_request alg params pk ne fr fn tr) (fun _ _ => True).
Proof using.
  rewrite create_eq. apply safe_create.
  - apply keeps_ret, history_refl.
  - intros _. apply keeps_insert.
  - intros _ s i s'. apply insert_request_row.
Qed.

Lemma keeps_admitted (f : Pipe -> list (Z * Z)) : keeps (writes (fun s => with_admitted s (f s))).
Proof using. by apply keeps_aside. Qed.

Lemma act_safe_reads {A} s0 (f : Pipe -> A) : safe_from s0 (Tx (reads f) Ret) (fun _ _ => True).
Proof using. apply within_safe, within_tx, keeps_reads, history_refl. Qed.

Lemma safe_admit left : forall budget k queues s0, safe_from s0 (admit_loop left budget k queues) (fun _ _ => True).
Proof using.
  induction left as [|left IH]; intros budget k queues s0; cbn [admit_loop]; [done|].
  match goal with |- context [if ?b then _ else _] => destruct b end; [|done].
  apply safe_then; [apply act_safe_reads|]. intros counts s1.
  apply safe_then; [by destruct (choose_lane _ counts)|]. intros lane s2.
  destruct (pop_lane lane queues) as [[c queues']|]; [|done].
  apply safe_then; [apply act_safe_reads|]. intros [] s3; [|apply IH].
  apply safe_then; [apply safe_create_request|]. intros _ s4.
  apply safe_then; [apply within_safe, within_tx, keeps_admitted|]. intros _ s5. apply IH.
Qed.

Lemma safe_cycle s0 : safe_from s0 run_cycle (fun _ _ => True).
Proof using.
  unfold run_cycle. apply safe_then; [apply act_safe_reads|]. intros inflight s1.
  apply safe_then; [apply act_safe_reads|]. intros busy s2. destruct (_ <=? 0); [done|].
  apply safe_then; [apply act_safe_reads|]. intros [d|] s3; [|done].
  apply safe_then; [apply act_safe_reads|]. intros candidates s4.
  apply safe_then; [apply act_safe_reads|]. intros now s5.
  by apply safe_then; [apply safe_admit|].
Qed.

Lemma keeps_quota pk : keeps (enforce_manual_quota pk).
Proof using. unfold enforce_manual_quota. unit_keeps. Qed.

Lemma safe_manual minutes pk s0 : safe_from s0 (create_graperank_calc_endpoint minutes pk) (fun _ _ => True).
Proof using.
  unfold create_graperank_calc_endpoint. apply safe_then; [|intros _ s; apply safe_create_request].
  apply within_safe, within_session; [apply history_refl|].
  apply keeps_bind; [apply history_trans|apply keeps_quota|]. intros _. destruct minutes; unit_keeps.
Qed.

(** *** Everything that runs *)

Inductive pipeline_handler : act Pipe unit -> Prop :=
  | h_create alg params pk ne fr fn tr :
      pipeline_handler (_ ← create_brainstorm_request alg params pk ne fr fn tr; mret tt)
  | h_periodic pk : pipeline_handler (_ ← trigger_graperank pk; mret tt)
  | h_started id : pipeline_handler (process_job_started_message id)
  | h_result id res : pipeline_handler (process_message id res)
  | h_lost_result id reason : pipeline_handler (fail_result_stage id reason)
  | h_lost_ta id : pipeline_handler (fail_ta_stage id)
  | h_lost_neo4j id : pipeline_handler (fail_neo4j_stage id)
  | h_upload id res : pipeline_handler (process_nostr_upload_message id res)
  | h_neo4j id res : pipeline_handler (process_neo4j_write_message id res)
  | h_reaper : pipeline_handler fail_stale_ongoing_brainstorm_requests
  | h_preset pk p : pipeline_handler (_ ← set_graperank_preset_endpoint pk p; mret tt)
  | h_cycle : pipeline_handler run_cycle
  | h_manual minutes pk : pipeline_handler (_ ← create_graperank_calc_endpoint minutes pk; mret tt).

Lemma handlers_safe h s0 : pipeline_handler h -> well_formed s0 -> safe_from s0 h (fun _ _ => True).
Proof using.
  intros Hh _. destruct Hh as [alg params pk ne fr fn tr|pk|id|id res|id reason|id|id|id res|id res| |pk p| |minutes pk].
  - by apply safe_then; [apply safe_create_request|].
  - eapply (act_safe_bind _ _ history_refl history_trans _ _ _ (fun _ _ => True)); [|done].
    rewrite trigger_eq. apply safe_create.
    + apply keeps_nsec.
    + intros nsec. unfold periodic_insert. unit_keeps.
    + intros nsec s i s' H. apply bind_ok in H as (u & s1 & _ & H). by eapply insert_request_row.
  - apply within_safe, within_job_started.
  - apply within_safe, within_process_message.
  - apply within_safe. by apply within_fail_stages.
  - apply within_safe. by apply (within_fail_stages id "").
  - apply within_safe. by apply (within_fail_stages id "").
  - apply within_safe, within_upload.
  - apply within_safe, within_neo4j.
  - apply within_safe, within_reaper.
  - apply within_safe, within_bind; [apply within_set_preset|done].
  - apply safe_cycle.
  - by apply safe_then; [apply safe_manual|].
Qed.

Notation pstep := (pool_step pipeline_handler elsewhere).
Notation pok := (pool_ok history well_formed).

Lemma pipeline_safe p p' : pok p -> rtc pstep p p' -> pok p' /\ history (shared p) (shared p').
Proof using.
  apply (pool_safe _ _ history_refl history_trans _ _ handlers_safe).
  intros s s'. apply elsewhere_ok.
Qed.

(** The server starts on a well-formed database with nothing running. *)
Definition fresh (p : Pool Pipe) : Prop := well_formed (shared p) /\ running p = ∅.

Lemma fresh_ok p : fresh p -> pok p.
Proof using. intros [Hw Hr]. split; [done|]. rewrite Hr. intros i h H. by rewrite lookup_empty in H. Qed.

End handlers.

(** ** Theorems *)

(** C4: a run's outcome is settled once: whatever consumers, redeliveries, late
    workers, the reaper and failures do afterwards, in any interleaving, a run
    whose calculation failed stays failed and out of the pipeline, one that
    succeeded can only be failed later, and the stored result and error never
    change again. *)
Theorem outcome_settled_once {E : PipeEnv} p0 p p' id r :
  fresh p0 -> rtc (pool_step pipeline_handler elsewhere) p0 p ->
  rtc (pool_step pipeline_handler elsewhere) p p' ->
  requests (shared p) !! id = Some r -> settled r = true ->
  exists r', requests (shared p') !! id = Some r'
    /\ (status r = FAILURE -> status r' = FAILURE /\ in_pipeline r' = false)
    /\ (status r' = status r \/ status r' = FAILURE)
    /\ count_values r' = count_values r /\ error r' = error r.
Proof.
  intros Hf H0 H1 Hr Hs. destruct (pipeline_safe _ _ (fresh_ok _ Hf) H0) as [Hok _].
  destruct (pipeline_safe _ _ Hok H1) as [_ (_ & _ & Hh)]. destruct (Hh _ _ Hr) as (r' & Hr' & F).
  destruct (f_settled _ _ F Hs) as (Hst & Hc & He). exists r'. split; [done|]. split; [|done].
  intros Hfail. pose proof (f_failure _ _ F Hfail) as Hf'. split; [done|].
  unfold in_pipeline, in_pipeline_condition. by rewrite Hf'.
Qed.

(** A worker never sees a message before its run is in the database: at every
    moment of every interleaving, each message on a lane names a committed row. *)
Theorem queued_rows_exist {E : PipeEnv} p0 p lane ms m :
  fresh p0 -> rtc (pool_step pipeline_handler elsewhere) p0 p ->
  lanes (shared p) !! lane = Some ms -> m ∈ ms ->
  is_Some (requests (shared p) !! msg_private_id m).
Proof.
  intros Hf H0 Hl Hin. destruct (pipeline_safe _ _ (fresh_ok _ Hf) H0) as [[[_ Hw] _] _]. by eapply Hw.
Qed.

(** The SQL condition and the scheduler's Python predicate, each documented as
    the mirror of the other, agree on every row. *)
Theorem pipeline_conditions_agree r :
  in_pipeline r
  = request_in_pipeline (status_value (status r)) (status_value (status_ta_publication r)).
Proof. unfold in_pipeline, in_pipeline_condition. by destruct (status r), (status_ta_publication r). Qed.

(** The reaper is exact: afterwards no run untouched since the cutoff is in
    the pipeline; what it reports is what it failed; a reaped run is failed with
    its publication closed; every other row is as it was. *)
Theorem reaper_exact s threshold :
  let out := fail_stale_in_pipeline_brainstorm_requests_on_db threshold s in
  let cutoff := clock s - threshold in
  let stale r := in_pipeline r && (updated_at r <? cutoff) in
  exists ids, out.1 = Ok ids
  /\ (forall id, id ∈ ids <-> exists r, requests s !! id = Some r /\ stale r = true)
  /\ forall id r, requests s !! id = Some r -> exists r', requests out.2 !! id = Some r'
       /\ (if stale r then status r' = FAILURE /\ non_terminal (status_ta_publication r') = false
                           /\ (non_terminal (status_ta_publication r) = false ->
                               status_ta_publication r' = status_ta_publication r)
          else r' = r).
Proof.
  intros out cutoff stale. eexists. split; [done|]. split.
  - intros id. rewrite list_elem_of_fmap. split.
    + intros ([id' r] & -> & [Hs Hin]%list_elem_of_filter). apply elem_of_map_to_list in Hin. eauto.
    + intros (r & Hr & Hs). exists (id, r). split; [done|]. apply list_elem_of_filter.
      split; [done|]. by apply elem_of_map_to_list.
  - intros id r Hr. exists (reap (clock s) cutoff r). simpl. rewrite lookup_fmap, Hr. split; [done|].
    unfold reap. fold (stale r). destruct (stale r) eqn:Hs; [|done].
    destruct (non_terminal (status_ta_publication r)) eqn:Ht; simpl; by rewrite ?Ht.
Qed.

(** ** Witnesses *)

Definition failed_pool : Pool Pipe :=
  {| shared := with_lanes (with_requests (at_clock 10 empty_pipe) {[0 := demo_run "alice" FAILURE FAILURE false 1]})
                 {["message_queue" := [demo_message]]};
     running := ∅ |}.

Lemma failed_pool_fresh : fresh failed_pool.
Proof.
  split; [|done]. split.
  - simpl. intros id r [<- <-]%lookup_singleton_Some. simpl. lia.
  - simpl. intros lane ms m [<- <-]%lookup_singleton_Some ->%list_elem_of_singleton. simpl.
    rewrite lookup_singleton_eq. eauto.
Qed.

(** A worker reports the start of a run that was already failed. *)
Definition late_pool : Pool Pipe :=
  let f := committed (update_brainstorm_request_result_by_id_on_db 0 "" ONGOING None) in
  {| shared := (f (shared failed_pool)).2;
     running := <[0%nat := Ret (f (shared failed_pool)).1]> (<[0%nat := process_job_started_message 0]> ∅) |}.

Lemma late_pool_reached : rtc (pool_step (pipeline_handler (E := demo_pipe)) elsewhere) failed_pool late_pool.
Proof.
  eapply rtc_l; [by apply (pool_start _ _ failed_pool 0%nat _ (h_started (E := demo_pipe) 0))|].
  eapply rtc_l; [|apply rtc_refl].
  exact (pool_done _ _
    {| shared := shared failed_pool; running := <[0%nat := process_job_started_message 0]> (running failed_pool) |}
    0%nat unit (committed (update_brainstorm_request_result_by_id_on_db 0 "" ONGOING None)) Ret eq_refl).
Qed.

Lemma outcome_settled_once_witness :
  exists r', requests (shared late_pool) !! 0 = Some r'
    /\ (FAILURE = FAILURE -> status r' = FAILURE /\ in_pipeline r' = false)
    /\ (status r' = FAILURE \/ status r' = FAILURE)
    /\ count_values r' = None /\ error r' = None.
Proof.
  apply (outcome_settled_once (E := demo_pipe) failed_pool failed_pool late_pool 0
           (demo_run "alice" FAILURE FAILURE false 1));
    [apply failed_pool_fresh|apply rtc_refl|apply late_pool_reached|done|done].
Defined.

Lemma queued_rows_exist_witness :
  is_Some (requests (shared late_pool) !! 0).
Proof.
  apply (queued_rows_exist (E := demo_pipe) failed_pool late_pool "message_queue"
    [demo_message]
    demo_message);
    [apply failed_pool_fresh|apply late_pool_reached|by vm_compute|by left].
Defined.

(** ** Creating a run

    What [create_brainstorm_request] leaves behind on both of its outcomes: one
    waiting row and one message on the lane its trigger and policy name, or one
    failed row and no message. *)

Section create.
Context {E : PipeEnv}.
Context (alg params pk : string) (ne fr fn : bool) (tr : TriggerSource).

(** The row as inserted. *)
Definition new_run (t : GrapeRankPresetTemplate) (p : GrapeRankPresetParams) (s : Pipe) : BrainstormRequest := {|
  password := new_password (clock s); status := WAITING; status_ta_publication := WAITING;
  status_internal_brainstorm_publication := Some WAITING; count_values := None; error := None;
  parameters := params; algorithm := alg; run_pubkey := Some pk;
  graperank_preset_used := Some (template_value t); graperank_params := Some (Readable p);
  publish_duration_seconds := None; trigger_source := tr; force_full_relay := Some fr;
  force_full_neo4j := Some fn; created_at := clock s; updated_at := clock s |}.

(** The observers after it: the trigger's time, on a row that may be new. *)
Definition triggered (s : Pipe) : gmap string Observer :=
  let mark o := set_times (Some (clock s)) (last_time_calculated_graperank o)
                  (last_time_published_graperank o) o in
  match observers s !! params with
  | Some o => <[params := mark o]> (observers s)
  | None => if ne then observers s else <[params := mark new_observer]> (observers s)
  end.

(** The database once the session has committed. *)
Definition inserted (t : GrapeRankPresetTemplate) (p : GrapeRankPresetParams) (s : Pipe) : Pipe :=
  with_observers (with_new_request s (new_run t p s)) (triggered s).

Definition resolves (t : GrapeRankPresetTemplate) (p : GrapeRankPresetParams) (s : Pipe) : Prop :=
  resolve_preset_params (normalize_preset (get_graperank_preset_by_pubkey_on_db params s)) params s
  = (Ok (t, p), s).

Lemma update_triggered s (r : BrainstormRequest) :
  let s1 := with_new_request s r in
  ((if ne then mret tt else _ ← get_or_create_brainstorm_observer_nsec_by_pubkey_on_db params; mret tt)
     ≫= (fun _ => update_last_time_triggered_graperank_on_db params)) s1
  = (Ok tt, with_observers s1 (triggered s)).
Proof using.
  intros s1. unfold triggered, get_or_create_brainstorm_observer_nsec_by_pubkey_on_db,
    update_last_time_triggered_graperank_on_db, update_observer, writes, mbind, TX_mbind, mret, TX_mret.
  subst s1. destruct ne; simpl; destruct (observers s !! params) as [o|] eqn:Ho; simpl;
    rewrite ?Ho, ?lookup_insert_eq; simpl; rewrite ?insert_insert_eq; by destruct s.
Qed.

Lemma insert_request_run t p s :
  resolves t p s ->
  exists i, insert_request alg params pk ne fr fn tr s = (Ok i, inserted t p s)
    /\ inst_private_id i = next_id s /\ inst_status i = WAITING /\ inst_trigger i = tr
    /\ inst_parameters i = params.
Proof using.
  intros Hres. unfold insert_request.
  erewrite tx_bind_ok by done. erewrite tx_bind_ok by exact Hres.
  erewrite tx_bind_ok by done. erewrite tx_bind_ok by done. cbn [fst snd].
  erewrite tx_bind_ok by done. erewrite tx_bind_ok by done.
  erewrite (tx_bind_pair (if ne then _ else _)) by exact (update_triggered s (new_run t p s)).
  by eexists.
Qed.

Lemma policy_inserted t p s q :
  get_scheduling_for_pubkey_on_db q (inserted t p s) = get_scheduling_for_pubkey_on_db q s.
Proof using.
  unfold get_scheduling_for_pubkey_on_db, get_default_scheduling_on_db, inserted, triggered. simpl.
  destruct (observers s !! params) as [o|] eqn:Ho; [|destruct ne; [done|]];
    (destruct (decide (q = params)) as [->|Hq]; [rewrite lookup_insert_eq, Ho|by rewrite lookup_insert_ne]); done.
Qed.
End create.

Section enqueue.
Context {E : PipeEnv}.

Definition push (lane : string) (m : CalcMessage) (s : Pipe) : Pipe :=
  with_lanes s (<[lane := (default [] (lanes s !! lane) ++ [m])%list]> (lanes s)).

Lemma enqueue_run i q tr des s :
  run_act (enqueue_calc_request i q tr des) s =
  match push_fails (clock s) with
  | Some e => (Raise e, s)
  | None => (Ok tt, push (resolve_scheduler_lane tr (get_scheduling_for_pubkey_on_db q s))
                      {| msg_instance := i; msg_designated := des |} s)
  end.
Proof using.
  unfold enqueue_calc_request, push. rewrite run_act_bind.
  destruct tr; simpl; destruct (push_fails (clock s)); done.
Qed.

(** Creating a run either leaves one new waiting row, with the preset that
    resolves for the observer and the trigger's flags, and puts one message with that
    row's id on the lane of its trigger and policy; or, when Redis refuses the
    message, leaves the row failed and no message, and raises. Nothing else of the
    queues or of the other runs changes. *)
Theorem create_queues_run alg params pk ne fr fn tr t p s :
  resolves params t p s ->
  let s1 := inserted alg params pk ne fr fn tr t p s in
  let id := next_id s in
  let lane := resolve_scheduler_lane tr (get_scheduling_for_pubkey_on_db params s) in
  requests s1 = <[id := new_run alg params pk fr fn tr t p s]> (requests s)
  /\ lanes s1 = lanes s
  /\ match push_fails (clock s) with
     | None => exists i,
         run_act (create_brainstorm_request alg params pk ne fr fn tr) s
         = (Ok i, push lane {| msg_instance := i;
                               msg_designated := fetch_designated_pubkeys (clock s) params |} s1)
         /\ inst_private_id i = id /\ inst_parameters i = params
     | Some e => exists r,
         run_act (create_brainstorm_request alg params pk ne fr fn tr) s
         = (Raise e, with_requests s1 (<[id := r]> (requests s1)))
         /\ status r = FAILURE /\ in_pipeline r = false
     end.
Proof using.
  intros Hres s1 id lane. do 2 (split; [done|]).
  destruct (insert_request_run alg params pk ne fr fn tr t p s Hres) as (i & Hi & Hid & _ & _ & Hp).
  assert (Hrun : run_act (create_brainstorm_request alg params pk ne fr fn tr) s =
    match push_fails (clock s) with
    | None => (Ok i, push lane {| msg_instance := i; msg_designated := fetch_designated_pubkeys (clock s) params |} s1)
    | Some e => (Raise e, (update_brainstorm_request_status_by_id_on_db id FAILURE s1).2)
    end).
  { unfold create_brainstorm_request. rewrite !run_act_bind, run_act_tx. cbn [reads].
    rewrite run_act_bind, run_act_session, (committed_ok _ _ _ _ Hi), run_act_bind, run_act_try, enqueue_run.
    rewrite policy_inserted. change (clock (inserted _ _ _ _ _ _ _ _ _ _)) with (clock s).
    destruct (push_fails (clock s)) as [e|]; [|done].
    rewrite run_act_bind, run_act_session, Hid. by erewrite committed_ok by done. }
  rewrite Hrun. destruct (push_fails (clock s)) as [e|]; [|by exists i].
  unfold update_brainstorm_request_status_by_id_on_db, update_where, writes. cbn [snd].
  assert (Hl : requests s1 !! id = Some (new_run alg params pk fr fn tr t p s)) by apply lookup_insert_eq.
  rewrite Hl. eexists. split; [reflexivity|]. done.
Qed.
End enqueue.
