(* ===== verification/PublishProps.v ===== *)
(** * What a publication leaves on the relay

    The plan agrees with its reference definition, packed keys unpack to
    themselves, and a complete full publication leaves exactly the observees above
    the cutoff on the relay and in the stored baseline. *)

From Stdlib Require Import QArith Ascii String.
From S2P Require Import Prelude Json Binary64 Atomic Runs PublishPlan Pipeline PipeScenario.
Local Open Scope string_scope.
Local Open Scope Z_scope.

Lemma sorted_weaken {A} (R R' : A -> A -> Prop) l :
  (forall a b, R a b -> R' a b) -> StronglySorted R l -> StronglySorted R' l.
Proof.
  intros H. induction 1 as [|a l Hs IH Hall]; constructor; [done|].
  eapply Forall_impl; [apply H|exact Hall].
Qed.

(** ** The plan *)

Definition above_cutoff (cutoff : Q) (cards : list (string * ScoreCard)) : list string :=
  observee <$> filter (fun sc => above cutoff sc = true) cards.*2.
Definition below_cutoff (cutoff : Q) (cards : list (string * ScoreCard)) : list string :=
  observee <$> filter (fun sc => above cutoff sc = false) cards.*2.

Lemma plan_pass cutoff l cur up below :
  foldl (plan_step cutoff) (cur, up, below) l
  = ((cur ++ (observee <$> filter (fun sc => above cutoff sc = true) l))%list,
     up ∪ list_to_set (observee <$> filter (fun sc => above cutoff sc = true) l),
     below ∪ list_to_set (observee <$> filter (fun sc => above cutoff sc = false) l)).
Proof.
  revert cur up below. induction l as [|sc l IH]; intros cur up below.
  - cbn. by rewrite app_nil_r, !(right_id_L ∅ (∪)).
  - cbn [foldl]. unfold plan_step at 2. destruct (above cutoff sc) eqn:Ha; rewrite IH.
    + rewrite filter_cons_True, filter_cons_False by congruence.
      rewrite fmap_cons, list_to_set_cons, <- app_assoc. by rewrite (assoc_L (∪)).
    + rewrite filter_cons_False, filter_cons_True by congruence.
      rewrite fmap_cons, list_to_set_cons. by rewrite (assoc_L (∪)).
Qed.

(** The one-pass plan is the documented diff: what is published is every
    observee above the cutoff, in the result's order, and what is deleted is
    [compute_delete_observees] of the two states — including the sweep of what is
    below the cutoff when it is on. *)
Theorem plan_is_the_diff cards previous cutoff sweep :
  let plan := plan_publish cards previous cutoff sweep in
  currently_published plan = above_cutoff cutoff cards
  /\ deletes plan
     = compute_delete_observees previous (currently_published plan) (below_cutoff cutoff cards) sweep.
Proof.
  intros plan. unfold plan, plan_publish. rewrite plan_pass. simpl. split; [done|].
  unfold compute_delete_observees. by rewrite !(left_id_L ∅ (∪)).
Qed.

Lemma sorted_set_elem x X : x ∈ sorted_set X <-> x ∈ X.
Proof. unfold sorted_set. rewrite stable_sort_elem. apply elem_of_elements. Qed.

Lemma sorted_set_to_set X : list_to_set (C:=gset string) (sorted_set X) = X.
Proof. apply set_eq. intros x. rewrite elem_of_list_to_set. apply sorted_set_elem. Qed.

(** A publication never deletes what it asserts: with one scorecard per
    observee the delete set and the published set are disjoint, swept or not, and
    without the sweep it is exactly what fell off. *)
Theorem deletes_disjoint cards previous cutoff sweep :
  NoDup (observee <$> cards.*2) ->
  let plan := plan_publish cards previous cutoff sweep in
  (forall x, x ∈ deletes plan -> x ∈ currently_published plan -> False)
  /\ (sweep = false -> forall x, x ∈ deletes plan <-> x ∈ previous /\ x ∉ currently_published plan).
Proof.
  intros Hnd plan. unfold plan, plan_publish. rewrite plan_pass. simpl.
  rewrite !(left_id_L ∅ (∪)). unfold delete_from_sets. split.
  - intros x Hx Hc. apply sorted_set_elem in Hx.
    assert (Hdis : x ∉ below_cutoff cutoff cards).
    { unfold below_cutoff. intros Hb. apply list_elem_of_fmap in Hb as (b & -> & [Hb Hbin]%list_elem_of_filter).
      apply list_elem_of_fmap in Hc as (a & E & [Ha Hain]%list_elem_of_filter).
      assert (a = b); [|congruence]. apply list_elem_of_lookup in Hain as [i Hi], Hbin as [j Hj].
      assert (i = j); [|congruence].
      eapply (NoDup_lookup _ i j (observee b) Hnd); rewrite list_lookup_fmap; [by rewrite Hi, E|by rewrite Hj]. }
    destruct sweep; [|set_solver]. unfold below_cutoff in Hdis. set_solver.
  - intros -> x. rewrite sorted_set_elem. set_solver.
Qed.

(** What a full run asserts is what it publishes. *)
Lemma full_inputs cards changed cutoff :
  list_to_set (C:=gset string) (ta_observee <$> prepare_ta_inputs cards changed cutoff true)
  = list_to_set (above_cutoff cutoff cards).
Proof.
  apply set_eq. intros x. rewrite !elem_of_list_to_set. unfold prepare_ta_inputs, above_cutoff.
  rewrite !list_elem_of_fmap. split.
  - intros (t & -> & (sc & -> & Hin)%list_elem_of_fmap). apply stable_sort_elem in Hin.
    apply list_elem_of_fmap in Hin as (kc & -> & [Hs Hin]%list_elem_of_filter).
    exists kc.2. split; [done|]. apply list_elem_of_filter. split; [done|].
    apply list_elem_of_fmap. eauto.
  - intros (sc & -> & [Ha Hin]%list_elem_of_filter). apply list_elem_of_fmap in Hin as (kc & -> & Hin).
    exists (ta_input kc.2). split; [done|]. apply list_elem_of_fmap. exists kc.2. split; [done|].
    apply stable_sort_elem, list_elem_of_fmap. exists kc. split; [done|]. apply list_elem_of_filter. by split.
Qed.

(** The assertions of a run are the selected scorecards, highest influence
    first: in full mode every one above the cutoff, otherwise those that changed. *)
Theorem inputs_selected_and_sorted cards changed cutoff full :
  (forall t, t ∈ prepare_ta_inputs cards changed cutoff full <->
     exists key sc, (key, sc) ∈ cards /\ t = ta_input sc /\ above cutoff sc = true
                    /\ (full = true \/ key ∈ changed))
  /\ exists scs, prepare_ta_inputs cards changed cutoff full = ta_input <$> scs
     /\ StronglySorted (fun a b => (influence b <= influence a)%Q) scs.
Proof.
  unfold prepare_ta_inputs. split.
  - intros t. rewrite list_elem_of_fmap. split.
    + intros (sc & -> & Hin). apply stable_sort_elem, list_elem_of_fmap in Hin as ([key sc'] & -> & [Hs Hin]%list_elem_of_filter).
      unfold selected in Hs. simpl in Hs. apply andb_true_iff in Hs as [Hf Ha].
      exists key, sc'. repeat split; try done. apply orb_true_iff in Hf as [Hf|Hf]; [by left|right].
      by apply bool_decide_eq_true in Hf.
    + intros (key & sc & Hin & -> & Ha & Hf). exists sc. split; [done|].
      apply stable_sort_elem, list_elem_of_fmap. exists (key, sc). split; [done|].
      apply list_elem_of_filter. split; [|done]. unfold selected. simpl. rewrite Ha, andb_true_r.
      destruct Hf as [->|Hf]; [done|]. rewrite orb_true_iff. right. by apply bool_decide_eq_true.
  - eexists. split; [done|]. eapply sorted_weaken; [|apply stable_sort_sorted].
    + intros a b H. by apply fle_Qle.
    + intros a b. unfold fle. destruct (Qlt_le_dec (influence a) (influence b)) as [H|H].
      * right. apply Qle_bool_iff. by apply Qlt_le_weak.
      * left. by apply Qle_bool_iff.
    + intros a b c H1 H2. apply fle_Qle in H1, H2. apply fle_Qle. by eapply Qle_trans; [exact H2|].
Qed.

(** ** The packed baseline *)

Definition lower_hex (c : ascii) : bool :=
  let n := nat_of_ascii c in
  ((48 <=? n)%nat && (n <=? 57)%nat) || ((97 <=? n)%nat && (n <=? 102)%nat).

(** A public key as Nostr writes it. *)
Definition is_pubkey (s : string) : bool :=
  (String.length s =? 64)%nat && forallb lower_hex (list_ascii_of_string s).

Lemma lower_hex_digit c :
  lower_hex c = true ->
  exists a, hex_digit c = Some a /\ (a < 16)%nat /\ hex_char a = c /\ is_ascii_space c = false.
Proof.
  intros H. destruct c as [[] [] [] [] [] [] [] []]; vm_compute in H; try discriminate H;
    (eexists; split; [vm_compute; reflexivity|]; split; [lia|]; split; vm_compute; reflexivity).
Qed.

Lemma fromhex_tohex n s :
  String.length s = (2 * n)%nat -> forallb lower_hex (list_ascii_of_string s) = true ->
  exists b, fromhex s = Some b /\ tohex b = s /\ String.length b = n.
Proof.
  revert s. induction n as [|n IH]; intros s Hl Hh.
  { destruct s; [|done]. by exists "". }
  destruct s as [|c [|d s]]; [done|simpl in Hl; lia|]. simpl in Hh.
  apply andb_true_iff in Hh as [Hc Hh]. apply andb_true_iff in Hh as [Hd Hh].
  destruct (lower_hex_digit c Hc) as (a & Ea & Ha & Hca & Hsc).
  destruct (lower_hex_digit d Hd) as (b & Eb & Hb & Hdb & _).
  destruct (IH s ltac:(simpl in Hl; lia) Hh) as (r & Er & Ht & Hlr).
  exists (String (ascii_of_nat (16 * a + b)) r). cbn [fromhex]. rewrite Hsc, Ea, Eb, Er.
  split; [done|]. split; [|by simpl; rewrite Hlr]. cbn [tohex].
  rewrite nat_ascii_embedding by lia.
  replace ((16 * a + b) / 16)%nat with a by (rewrite Nat.mul_comm, Nat.div_add_l, Nat.div_small; lia).
  replace ((16 * a + b) mod 16)%nat with b by (rewrite Nat.add_comm, Nat.mul_comm, Nat.Div0.mod_add, Nat.mod_small; lia).
  by rewrite Hca, Hdb, Ht.
Qed.

Lemma unpack_app rounds b r :
  String.length b = PUBKEY_BYTES ->
  unpack_chunks (S rounds) (b ++ r) = tohex b :: unpack_chunks rounds r.
Proof.
  intros Hb. destruct b as [|c b]; [done|].
  change (unpack_chunks (S rounds) (String c b ++ r)) with
    (tohex (String.substring 0 PUBKEY_BYTES (String c b ++ r))
     :: unpack_chunks rounds (String.substring PUBKEY_BYTES
          (String.length (String c b ++ r) - PUBKEY_BYTES) (String c b ++ r))).
  rewrite <- Hb, substring_prefix, substring_skip, length_append.
  replace (_ + String.length r - _)%nat with (String.length r) by lia. by rewrite substring_whole.
Qed.

Lemma unpack_rounds_pack l blob rounds :
  pack_pubkeys l = Ok blob -> Forall (fun pk => is_pubkey pk = true) l ->
  (String.length blob <= rounds)%nat -> unpack_chunks rounds blob = l.
Proof.
  revert blob rounds. induction l as [|pk l IH]; intros blob rounds Hp Hv Hr; simpl in Hp.
  { injection Hp as <-. by destruct rounds. }
  inversion Hv as [|? ? Hpk Hl]; subst. apply andb_true_iff in Hpk as [Hlen Hhex].
  apply Nat.eqb_eq in Hlen. destruct (fromhex_tohex 32 pk Hlen Hhex) as (b & Eb & Ht & Hb).
  rewrite Eb in Hp. destruct (pack_pubkeys l) as [r|]; [|done]. injection Hp as <-.
  rewrite length_append, Hb in Hr. destruct rounds as [|rounds]; [lia|].
  rewrite unpack_app, Ht by done. f_equal. apply IH; [done|done|lia].
Qed.

(** The published baseline survives storage: packing public keys always
    succeeds and unpacking gives the same list back, in order. *)
Theorem pubkeys_round_trip l :
  Forall (fun pk => is_pubkey pk = true) l ->
  exists blob, pack_pubkeys l = Ok blob /\ unpack_pubkeys (Some blob) = l.
Proof.
  intros Hv. assert (Hp : exists blob, pack_pubkeys l = Ok blob).
  { induction Hv as [|pk l Hpk Hv [blob IH]]; [by eexists|]. apply andb_true_iff in Hpk as [Hlen Hhex].
    apply Nat.eqb_eq in Hlen. destruct (fromhex_tohex 32 pk Hlen Hhex) as (b & Eb & _).
    simpl. rewrite Eb, IH. by eexists. }
  destruct Hp as [blob Hp]. exists blob. split; [done|]. by eapply unpack_rounds_pack.
Qed.

(** ** A whole publication *)

Section publication.
Context {E : PipeEnv}.

(** What the parts of a publication other than the relay and the final session
    leave alone. *)
Definition aside (pk : string) (id : Z) (s s' : Pipe) : Prop :=
  relay s' = relay s
  /\ get_last_published_pubkeys_by_pubkey_on_db pk s' = get_last_published_pubkeys_by_pubkey_on_db pk s
  /\ (is_Some (requests s !! id) -> is_Some (requests s' !! id))
  /\ (is_Some (observers s !! pk) -> is_Some (observers s' !! pk)).

Lemma aside_refl pk id s : aside pk id s s.
Proof using. done. Qed.
Lemma aside_trans pk id s1 s2 s3 : aside pk id s1 s2 -> aside pk id s2 s3 -> aside pk id s1 s3.
Proof using. intros (?&?&?&?) (?&?&?&?). repeat split; try congruence; auto. Qed.

Notation beside pk id := (keeps (aside pk id) (fun _ => True)).

Lemma beside_update pk id id' cond f : beside pk id (update_where id' cond f).
Proof using.
  intros s _. split; [done|]. unfold update_where, writes. simpl.
  destruct (requests s !! id') as [r|] eqn:Hr; [|apply aside_refl].
  destruct (cond r); [|apply aside_refl]. repeat split; simpl; auto. intros Hs.
  destruct (decide (id = id')) as [->|Hne]; [rewrite lookup_insert_eq; eauto|by rewrite lookup_insert_ne].
Qed.

Lemma beside_observer pk id pk' f :
  (forall now o, last_published_pubkeys (f now o) = last_published_pubkeys o) ->
  beside pk id (update_observer pk' f).
Proof using.
  intros Hf s _. split; [done|]. unfold update_observer, writes. simpl.
  destruct (observers s !! pk') as [o|] eqn:Ho; [|apply aside_refl].
  unfold aside, get_last_published_pubkeys_by_pubkey_on_db. simpl.
  destruct (decide (pk = pk')) as [->|Hne].
  - rewrite lookup_insert_eq, Ho. simpl. rewrite Hf. eauto.
  - by rewrite lookup_insert_ne.
Qed.

Lemma beside_nsec pk id pk' : beside pk id (get_or_create_brainstorm_observer_nsec_by_pubkey_on_db pk').
Proof using.
  intros s _. split; [done|]. unfold get_or_create_brainstorm_observer_nsec_by_pubkey_on_db.
  destruct (observers s !! pk') as [o|] eqn:Ho; [apply aside_refl|].
  unfold aside, get_last_published_pubkeys_by_pubkey_on_db. simpl.
  destruct (decide (pk = pk')) as [->|Hne].
  - rewrite lookup_insert_eq, Ho. simpl. eauto.
  - by rewrite lookup_insert_ne.
Qed.

(** The session that begins a publication: it decides on a full one exactly when
    the setting, the run's flag or an earlier failed publication asks for it. *)
Lemma begin_publish_run run_id pk s r :
  requests s !! run_id = Some r ->
  exists k0 s1,
    begin_publish run_id pk s
    = (Ok (resolve_full_sync relay_full_sync_setting (force_full_relay r)
           || relay_publish_gap_pending_on_db pk run_id s, k0), s1)
    /\ aside pk run_id s s1 /\ is_Some (observers s1 !! pk).
Proof using.
  intros Hr.
  assert (Hnsec : exists o b s0, get_or_create_brainstorm_observer_nsec_by_pubkey_on_db pk s = (Ok (o, b), s0)
    /\ requests s0 = requests s /\ is_Some (observers s0 !! pk)).
  { unfold get_or_create_brainstorm_observer_nsec_by_pubkey_on_db.
    destruct (observers s !! pk) as [o|] eqn:Ho; [eauto 8|]. eexists _, _, _. split; [done|].
    split; [done|]. simpl. rewrite lookup_insert_eq. eauto. }
  destruct Hnsec as (o & b & s0 & Hn & Hreq & Ho).
  destruct (beside_nsec pk run_id pk s I) as [_ Ha0]. rewrite Hn in Ha0. simpl in Ha0.
  set (full := resolve_full_sync relay_full_sync_setting (force_full_relay r)).
  assert (Hgap : relay_publish_gap_pending_on_db pk run_id s0 = relay_publish_gap_pending_on_db pk run_id s).
  { unfold relay_publish_gap_pending_on_db, max_id, rows. by rewrite Hreq. }
  unfold begin_publish, mbind, TX_mbind at 1. rewrite Hn.
  unfold select_brainstorm_request_by_id_on_db, mbind, TX_mbind, reads. rewrite Hreq, Hr. cbn [handle_no_data].
  unfold mret, TX_mret. fold full. rewrite Hgap. set (gap := relay_publish_gap_pending_on_db pk run_id s).
  set (forced := negb full && gap).
  destruct (beside_update pk run_id run_id (fun _ => true)
    (fun r => set_publish_extras (publish_duration_seconds r) (Some true) r) s0 I) as [_ Ha1].
  set (s1 := if forced then (mark_brainstorm_request_force_full_relay_on_db run_id s0).2 else s0).
  assert (E1 : (if forced then mark_brainstorm_request_force_full_relay_on_db run_id else (fun s => (Ok tt, s))) s0
               = (Ok tt, s1)) by (unfold s1; by destruct forced).
  rewrite E1. assert (Ha01 : aside pk run_id s0 s1) by (unfold s1; destruct forced; [exact Ha1|apply aside_refl]).
  destruct (beside_update pk run_id run_id (fun _ => true) (set_ta_status ONGOING) s1 I) as [_ Ha2].
  eexists _, _. split; [by replace (full || forced) with (full || gap) by (unfold forced; by destruct full)|].
  split; [|by apply Ha2, Ha01]. eapply aside_trans; [exact Ha0|]. by eapply aside_trans.
Qed.

Lemma kind0_run pk k0 id s :
  exists s', run_act (ensure_assistant_kind0_published pk k0) s = (Ok tt, s') /\ aside pk id s s'.
Proof using.
  unfold ensure_assistant_kind0_published. destruct k0; [by eexists|]. rewrite run_act_try.
  cbn [run_act session]. unfold committed, mbind, TX_mbind, reads.
  destruct (kind0_fails (clock s) pk) as [e|]; [by eexists|].
  eexists. split; [done|]. by apply (beside_observer pk id pk).
Qed.

(** The final session records the run's published set. *)
Lemma finish_publish_run run_id pk published full s :
  is_Some (requests s !! run_id) -> is_Some (observers s !! pk) ->
  Forall (fun p => is_pubkey p = true) published ->
  exists s' r', finish_publish run_id pk published full s = (Ok tt, s')
    /\ relay s' = relay s /\ get_last_published_pubkeys_by_pubkey_on_db pk s' = published
    /\ requests s' !! run_id = Some r' /\ status_ta_publication r' = SUCCESS.
Proof using.
  intros [r Hr] [o Ho] Hv. destruct (pubkeys_round_trip published Hv) as (blob & Hp & Hu).
  unfold finish_publish, update_last_published_pubkeys_by_pubkey_on_db,
    update_brainstorm_request_ta_status_by_id_on_db, update_last_time_published_graperank_on_db,
    update_brainstorm_request_publish_duration_by_id_on_db, reset_runs_since_full_on_db,
    update_where, update_observer, mbind, TX_mbind, writes, reads. rewrite Hp, Hr. simpl.
  rewrite Ho. simpl. destruct full; repeat (rewrite lookup_insert_eq; simpl);
    (eexists _, _; split; [reflexivity|]; split; [reflexivity|];
     unfold get_last_published_pubkeys_by_pubkey_on_db; simpl; rewrite !lookup_insert_eq; simpl;
     split; [exact Hu|]; split; reflexivity).
Qed.

(** The relay's contents after the new set is added and the deletions are made. *)
Lemma relay_after (D : gset string) prev cur below sweep :
  D ⊆ list_to_set prev ∪ list_to_set cur ->
  (sweep = true -> forall x, x ∈ below -> x ∈ cur -> False) ->
  (D ∪ list_to_set cur) ∖ list_to_set (compute_delete_observees prev cur below sweep) = list_to_set cur.
Proof using.
  intros HD Hs. unfold compute_delete_observees, delete_from_sets. rewrite sorted_set_to_set.
  apply set_eq. intros x. specialize (HD x). destruct sweep.
  - specialize (Hs eq_refl x). destruct (decide (x ∈ cur)); set_solver.
  - destruct (decide (x ∈ cur)); set_solver.
Qed.

Section one_publication.
Context `{!PublisherLaws E} (run_id : Z) (pk : string) (cards : list (string * ScoreCard)) (changed : list string).
Let cur := above_cutoff cutoff_of_valid_graperank_scores cards.

(** The sweep is off, or no observee has two scorecards. *)
Context (sweep_apart : relay_sweep_below_cutoff = false \/ NoDup (observee <$> cards.*2)).
Context (cur_valid : Forall (fun p => is_pubkey p = true) cur).

(** The state and the baseline a publication starts from. *)
Context (s : Pipe).
Let prev := get_last_published_pubkeys_by_pubkey_on_db pk s.
Context (relay_known : default ∅ (relay s !! pk) ⊆ list_to_set prev ∪ list_to_set cur).

Definition baseline (t : Pipe) : list string := get_last_published_pubkeys_by_pubkey_on_db pk t.
Definition published_exactly (t : Pipe) : Prop := baseline t = cur /\ relay t !! pk = Some (list_to_set cur).

(** Sent and complete, and put on record. *)
Lemma publication_recorded t :
  aside pk run_id s t -> is_Some (requests t !! run_id) -> is_Some (observers t !! pk) ->
  let plan := plan_publish cards prev cutoff_of_valid_graperank_scores relay_sweep_below_cutoff in
  let sent := send_to_relay pk (prepare_ta_inputs cards changed cutoff_of_valid_graperank_scores true) (deletes plan) t in
  exists rep s3, sent = (Ok rep, s3) /\ baseline s3 = prev /\ is_Some (requests s3 !! run_id)
    /\ (aborted rep || negb (n_unacked rep =? 0) = false ->
        exists s4 r4, finish_publish run_id pk (currently_published plan) true s3 = (Ok tt, s4)
          /\ requests s4 !! run_id = Some r4 /\ status_ta_publication r4 = SUCCESS /\ published_exactly s4).
Proof using sweep_apart cur_valid relay_known PublisherLaws0.
  intros (Hre & Hb & _) Hreq Hobs plan sent. unfold sent, send_to_relay. eexists _, _. split; [reflexivity|].
  split; [exact Hb|]. split; [done|]. set (rep := publish_events _ _ _). intros Hrep.
  apply orb_false_iff in Hrep as [Hab Hun]. apply negb_false_iff, Z.eqb_eq in Hun.
  destruct (complete_accepted _ _ _ Hab Hun) as [Hacc Hrem]. fold rep in Hacc, Hrem.
  destruct (plan_is_the_diff cards prev cutoff_of_valid_graperank_scores relay_sweep_below_cutoff) as [Hcur Hdel].
  fold plan cur in Hcur, Hdel. set (s3 := with_relay t _).
  destruct (finish_publish_run run_id pk (currently_published plan) true s3) as (s4 & r4 & Hf & Hre4 & Hpub & Hr4 & Hta);
    [exact Hreq|exact Hobs|by rewrite Hcur|].
  exists s4, r4. split; [done|]. split; [done|]. split; [done|]. split; [unfold baseline; by rewrite Hpub|].
  rewrite Hre4. unfold s3. simpl. rewrite lookup_insert_eq. f_equal. rewrite Hacc, Hrem, full_inputs, Hre, Hdel, Hcur.
  fold cur. apply relay_after; [exact relay_known|]. intros Hsweep x Hx Hc.
  destruct sweep_apart as [Hoff|Hnd]; [congruence|].
  destruct (deletes_disjoint cards prev cutoff_of_valid_graperank_scores true Hnd) as [Hdis _].
  apply (Hdis x); rewrite <- Hsweep; fold plan; [|by rewrite Hcur]. rewrite Hdel. unfold compute_delete_observees, delete_from_sets.
  rewrite Hsweep. apply sorted_set_elem. set_solver.
Qed.

(** The body of the [try], undisturbed. *)
Lemma publish_run_exact t k0 : aside pk run_id s t -> is_Some (requests t !! run_id) -> is_Some (observers t !! pk) ->
  let '(r, s') := run_act (publish_run run_id pk cards changed true k0) t in
  match r with
  | Ok _ => exists r4, requests s' !! run_id = Some r4 /\ status_ta_publication r4 = SUCCESS /\ published_exactly s'
  | Raise _ => baseline s' = prev /\ is_Some (requests s' !! run_id)
  end.
Proof using sweep_apart cur_valid relay_known PublisherLaws0.
  intros Ha Hreq Hobs. unfold publish_run. destruct (keys_fail pk) as [e|]; [by split; [apply Ha|]|].
  rewrite run_act_bind. destruct (kind0_run pk k0 run_id t) as (s2 & -> & Ha2).
  rewrite run_act_bind, run_act_session, committed_reads. cbv beta iota.
  assert (Hs2 : aside pk run_id s s2) by by eapply aside_trans. destruct (Hs2) as (_ & Hb2 & _). rewrite Hb2. fold prev.
  destruct (publication_recorded s2 Hs2) as (rep & s3 & Hsent & Hb3 & Hr3 & Hdone); [by apply Ha2|by apply Ha2|].
  rewrite run_act_bind, run_act_tx, Hsent. destruct (aborted rep || negb (n_unacked rep =? 0)); [done|].
  destruct (Hdone eq_refl) as (s4 & r4 & Hf & Hr4 & Hta & Hex).
  rewrite run_act_session, (committed_ok _ _ _ _ Hf). eauto.
Qed.

(** The body, whatever fails. *)
Lemma publish_run_any t k0 : aside pk run_id s t -> is_Some (requests t !! run_id) -> is_Some (observers t !! pk) ->
  any_run (publish_run run_id pk cards changed true k0) t (fun _ s' => baseline s' = prev \/ published_exactly s').
Proof using sweep_apart cur_valid relay_known PublisherLaws0.
  intros Ha Hreq Hobs. unfold publish_run. destruct (keys_fail pk) as [e|]; [left; apply Ha|].
  apply any_run_bind, (any_run_mono _ _ (fun _ s' => aside pk run_id t s')).
  { unfold ensure_assistant_kind0_published. destruct k0; [apply aside_refl|]. apply any_run_try.
    assert (Hm : aside pk run_id t (committed (fails ← reads (fun s => kind0_fails (clock s) pk);
        match fails with Some e => raise e | None => update_assistant_kind0_published_at_on_db pk end) t).2).
    { unfold committed, mbind, TX_mbind, reads. destruct (kind0_fails (clock t) pk); [apply aside_refl|]. by apply (beside_observer pk run_id pk). }
    apply any_run_tx; [|intros e; apply aside_refl|by intros e]. destruct (committed _ t) as [[u|e] s']; exact Hm. }
  intros [u|e] s2 Ha2; [|left; unfold baseline, prev; destruct Ha as (_ & <- & _); apply Ha2].
  assert (Hs2 : aside pk run_id s s2) by by eapply aside_trans. destruct (Hs2) as (_ & Hb2 & _).
  apply any_run_bind, any_run_tx; rewrite ?committed_reads; [|by left..]. cbn [fst snd]. rewrite Hb2. fold prev.
  destruct (publication_recorded s2 Hs2) as (rep & s3 & Hsent & Hb3 & Hr3 & Hdone); [by apply Ha2|by apply Ha2|].
  apply any_run_bind, any_run_tx; rewrite ?Hsent; [|by left..]. cbn [fst snd].
  destruct (aborted rep || negb (n_unacked rep =? 0)); [by left|].
  destruct (Hdone eq_refl) as (s4 & r4 & Hf & Hr4 & Hta & Hex).
  apply any_run_tx; rewrite ?(committed_ok _ _ _ _ Hf); [by right|by left|by right].
Qed.
End one_publication.

(** Marking the stage touches neither the baseline nor the relay. *)
Lemma mark_failed run_id pk t :
  let t' := (committed (update_brainstorm_request_ta_status_by_id_on_db run_id FAILURE) t).2 in
  baseline pk t' = baseline pk t /\ relay t' = relay t
  /\ (is_Some (requests t !! run_id) -> exists r', requests t' !! run_id = Some r' /\ status_ta_publication r' = FAILURE).
Proof using.
  unfold committed, update_brainstorm_request_ta_status_by_id_on_db, update_where, writes.
  destruct (requests t !! run_id) as [rt|] eqn:Hrt; [|by split_and!; [..|intros []]]. simpl. split_and!; [done|done|].
  intros _. rewrite lookup_insert_eq. eauto.
Qed.

(** C5: a full publication is exact, or leaves its record as it was.  Take a result with
    scorecards, of a run that is published in full because the setting, the run's own
    flag or a failed earlier publication says so; the observees above the cutoff being
    64 lower-case hex digits; the sweep below the cutoff being off, or no observee having
    two scorecards; and the relay holding nothing outside the baseline and the new set.
    Handled by one consumer, with nothing else at work on that user: undisturbed, either
    the stage succeeds and both the relay and the stored baseline are exactly the
    observees above the cutoff, or it fails and the baseline is as it was; and whichever
    transactions fail or lose their answers on the way, the baseline is as it was or both
    are exact, whatever the stage's status then says. *)
Theorem full_publication_exact `{!PublisherLaws E} run_id result c cards s r :
  let pk := observer c.2 in
  let cur := above_cutoff cutoff_of_valid_graperank_scores (c :: cards) in
  let prev := get_last_published_pubkeys_by_pubkey_on_db pk s in
  let s' := (run_act (process_nostr_upload_message run_id result) s).2 in
  scorecards result = Some (c :: cards) ->
  requests s !! run_id = Some r ->
  resolve_full_sync relay_full_sync_setting (force_full_relay r)
    || relay_publish_gap_pending_on_db pk run_id s = true ->
  relay_sweep_below_cutoff = false \/ NoDup (observee <$> (c :: cards).*2) ->
  Forall (fun p => is_pubkey p = true) cur ->
  default ∅ (relay s !! pk) ⊆ list_to_set prev ∪ list_to_set cur ->
  (exists r', requests s' !! run_id = Some r'
    /\ ((status_ta_publication r' = SUCCESS
         /\ relay s' !! pk = Some (list_to_set cur)
         /\ get_last_published_pubkeys_by_pubkey_on_db pk s' = cur)
        \/ (status_ta_publication r' = FAILURE
            /\ get_last_published_pubkeys_by_pubkey_on_db pk s' = prev)))
  /\ any_run (process_nostr_upload_message run_id result) s (fun _ t =>
       get_last_published_pubkeys_by_pubkey_on_db pk t = prev
       \/ relay t !! pk = Some (list_to_set cur) /\ get_last_published_pubkeys_by_pubkey_on_db pk t = cur).
Proof using.
  intros pk cur prev s' Hsc Hr Hfull Hsweep Hv Hrelay. unfold s'. clear s'.
  destruct (begin_publish_run run_id pk s r Hr) as (k0 & s1 & Hb & Ha1 & Ho1).
  assert (Hreq1 : is_Some (requests s1 !! run_id)) by (apply Ha1; eauto).
  unfold process_nostr_upload_message. rewrite Hsc. destruct c as [key c]. cbn [snd] in *. fold pk. rewrite Hfull in Hb. split.
  - rewrite run_act_bind, run_act_session, (committed_ok _ _ _ _ Hb). cbv beta iota. cbn [fst snd]. rewrite run_act_try.
    pose proof (publish_run_exact run_id pk ((key, c) :: cards) (changedScorePubkeys result) Hsweep Hv s Hrelay s1 k0 Ha1 Hreq1 Ho1) as Hx.
    destruct (run_act (publish_run _ _ _ _ _ _) s1) as [[u|e] s2].
    + destruct Hx as (r4 & Hr4 & Hta & Hbase & Hre). exists r4. split; [done|]. by left.
    + destruct Hx as [Hbase Hreq2]. rewrite run_act_session. destruct (mark_failed run_id pk s2) as (E1 & _ & E2).
      destruct (E2 Hreq2) as (r' & Hr' & Hta). exists r'. split; [done|]. right. split; [done|]. by etrans.
  - assert (Hprev : get_last_published_pubkeys_by_pubkey_on_db pk s1 = prev) by apply Ha1.
    apply any_run_bind, any_run_tx; rewrite ?(committed_ok _ _ _ _ Hb); cbn [fst snd]; [|by left..].
    apply any_run_try. eapply any_run_mono;
      [exact (publish_run_any run_id pk ((key, c) :: cards) (changedScorePubkeys result) Hsweep Hv s Hrelay s1 k0 Ha1 Hreq1 Ho1)|].
    intros [u|e] t Ht; [by destruct Ht as [?|[]]; [left|right]|].
    destruct (mark_failed run_id pk t) as (E1 & E2 & _). unfold baseline in *.
    assert (Hkeep : forall t', t' = t \/ t' = (committed (update_brainstorm_request_ta_status_by_id_on_db run_id FAILURE) t).2 ->
      get_last_published_pubkeys_by_pubkey_on_db pk t' = prev
      \/ relay t' !! pk = Some (list_to_set cur) /\ get_last_published_pubkeys_by_pubkey_on_db pk t' = cur).
    { intros t' [->| ->]; rewrite ?E1, ?E2; destruct Ht as [?|[]]; [by left|by right|by left|by right]. }
    apply any_run_tx; [|intros e'|intros e']; apply Hkeep; auto.
Qed.

End publication.

(** ** Failed publications *)

Lemma max_id_spec cond s m :
  max_id cond s = Some m ->
  (exists r, requests s !! m = Some r /\ cond (m, r) = true)
  /\ forall id r, requests s !! id = Some r -> cond (id, r) = true -> id <= m.
Proof.
  unfold max_id. intros H. apply max_by_spec in H as [Hin Hmax]. split.
  - apply list_elem_of_fmap in Hin as ([id r] & -> & [Hc Hin]%list_elem_of_filter).
    apply elem_of_map_to_list in Hin. eauto.
  - intros id r Hr Hc. apply (Hmax id), list_elem_of_fmap. exists (id, r). split; [done|].
    apply list_elem_of_filter. split; [done|]. by apply elem_of_map_to_list.
Qed.

(** A publication that failed is made up for: if an earlier run of the
    observer failed to publish and no full publication with a later id has
    succeeded since, the next publication is a full one and its run is marked so,
    whatever the settings. *)
Theorem failed_publication_forces_full {E : PipeEnv} run_id pk s r failed_id failed :
  requests s !! run_id = Some r ->
  requests s !! failed_id = Some failed -> owned_by pk failed = true ->
  0 < failed_id < run_id -> status_ta_publication failed = FAILURE ->
  (forall id r', requests s !! id = Some r' -> full_ok pk run_id (id, r') = true -> id < failed_id) ->
  exists k0 s1 r1, begin_publish run_id pk s = (Ok (true, k0), s1)
    /\ requests s1 !! run_id = Some r1 /\ status_ta_publication r1 = ONGOING
    /\ (relay_full_sync_setting = false -> force_full_relay r1 = Some true).
Proof.
  intros Hr Hf Hown Hid Hta Hno.
  assert (Hgap : relay_publish_gap_pending_on_db pk run_id s = true).
  { unfold relay_publish_gap_pending_on_db. apply existsb_exists. exists (failed_id, failed).
    split; [apply list_elem_of_In; by apply elem_of_map_to_list|]. simpl. rewrite Hown, Hta.
    rewrite (proj2 (Z.ltb_lt failed_id run_id)) by lia. simpl. rewrite andb_true_r. apply Z.ltb_lt.
    destruct (max_id (full_ok pk run_id) s) as [m|] eqn:Hm; simpl; [|lia].
    destruct (max_id_spec _ _ _ Hm) as [(r' & Hr' & Hc) _]. by eapply Hno. }
  destruct (begin_publish_run run_id pk s r Hr) as (k0 & s1 & Hb & _). rewrite Hgap, orb_true_r in Hb.
  cut (exists r1, requests s1 !! run_id = Some r1 /\ status_ta_publication r1 = ONGOING
    /\ (relay_full_sync_setting = false -> force_full_relay r1 = Some true)).
  { intros (r1 & Hr1). by exists k0, s1, r1. }
  revert Hb. unfold begin_publish, mbind, TX_mbind at 1.
  destruct (get_or_create_brainstorm_observer_nsec_by_pubkey_on_db pk s) as [[o|e] s0] eqn:Hn; [|done].
  assert (Hreq : requests s0 = requests s).
  { revert Hn. unfold get_or_create_brainstorm_observer_nsec_by_pubkey_on_db.
    destruct (observers s !! pk); by intros [= _ <-]. }
  unfold select_brainstorm_request_by_id_on_db, mbind, TX_mbind, reads. rewrite Hreq, Hr. cbn [handle_no_data].
  unfold mret, TX_mret, relay_publish_gap_pending_on_db, max_id, rows in *. rewrite Hreq, Hgap. clear Hgap.
  set (full := resolve_full_sync relay_full_sync_setting (force_full_relay r)).
  assert (Hff : full = true -> relay_full_sync_setting = false -> force_full_relay r = Some true).
  { unfold full, resolve_full_sync. intros Hfull Hset. rewrite Hset in Hfull. simpl in Hfull. by destruct (force_full_relay r) as [[]|]. }
  destruct full eqn:Hfull; simpl.
  - unfold update_brainstorm_request_ta_status_by_id_on_db, update_where, writes. rewrite Hreq, Hr. simpl.
    intros [= _ <-]. eexists. simpl. rewrite lookup_insert_eq. split; [done|]. split; [done|]. by auto.
  - unfold mark_brainstorm_request_force_full_relay_on_db, update_brainstorm_request_ta_status_by_id_on_db,
      update_where, writes. rewrite Hreq, Hr. simpl. rewrite lookup_insert_eq. simpl.
    intros [= _ <-]. eexists. simpl. rewrite lookup_insert_eq. split; [done|]. split; [done|]. by auto.
Qed.

(** *** Findings *)

(** Run 9 fails to publish after the full run 10, which overtook it, succeeded:
    run 11 sees no gap, though what run 9 changed never reached the relay. *)
Example gap_hidden_by_overtaking_full_run :
  let s := with_requests empty_pipe
    (<[9 := demo_run "alice" SUCCESS FAILURE false 1]> (<[10 := demo_run "alice" SUCCESS SUCCESS true 2]>
      {[11 := demo_run "alice" SUCCESS WAITING false 3]})) in
  relay_publish_gap_pending_on_db "alice" 11 s = false.
Proof. by vm_compute. Qed.

(** A run that failed after its assertions landed leaves one behind for good: the
    next, complete run does not know about it, while the baseline
    [published_state_to_persist] would have kept would have had it deleted. *)
Example failed_run_orphans_assertion :
  let s0 := with_requests empty_pipe (<[1 := demo_run "alice" SUCCESS WAITING false 1]>
              {[2 := demo_run "alice" SUCCESS WAITING false 2]}) in
  let s1 := (run_act (process_nostr_upload_message (E := pipe_env answer_lost (fun _ => None)) 1
               (demo_result [card key_a (1 # 2); card key_b (1 # 2)] [key_a; key_b])) s0).2 in
  let s2 := (run_act (process_nostr_upload_message (E := demo_pipe) 2
               (demo_result [card key_a (1 # 2); card key_b (1 # 100)] [key_b])) s1).2 in
  (status_ta_publication <$> requests s1 !! 1) = Some FAILURE
  /\ (status_ta_publication <$> requests s2 !! 2) = Some SUCCESS
  /\ get_last_published_pubkeys_by_pubkey_on_db "alice" s2 = [key_a]
  /\ (elements <$> relay s2 !! "alice") = Some [key_a; key_b]
  /\ deletes (plan_publish [card key_a (1 # 2); card key_b (1 # 100)]
       (published_state_to_persist [] [key_a; key_b] true) (rn (2 # 100)) false) = [key_b].
Proof. by vm_compute. Qed.

(** ** Witnesses *)

Lemma deletes_disjoint_witness :
  let plan := plan_publish [card key_a (1 # 2); card key_b (1 # 100)] [key_b] (rn (2 # 100)) true in
  deletes plan = [key_b]
  /\ ((forall x, x ∈ deletes plan -> x ∈ currently_published plan -> False)
      /\ (true = false -> forall x, x ∈ deletes plan <-> x ∈ [key_b] /\ x ∉ currently_published plan)).
Proof.
  split; [by vm_compute|].
  apply (deletes_disjoint [card key_a (1 # 2); card key_b (1 # 100)] [key_b] (rn (2 # 100)) true).
  apply (bool_decide_unpack _). by vm_compute.
Defined.

Lemma pubkeys_round_trip_witness :
  exists blob, pack_pubkeys [key_a; key_b] = Ok blob /\ unpack_pubkeys (Some blob) = [key_a; key_b].
Proof. apply (pubkeys_round_trip [key_a; key_b]). by repeat constructor. Defined.

Definition demo_publication : Pipe :=
  with_relay (with_requests empty_pipe (<[1 := demo_run "alice" SUCCESS FAILURE false 1]>
                {[2 := demo_run "alice" SUCCESS WAITING false 2]}))
    {["alice" := {[key_a]}]}.

Lemma full_publication_exact_witness :
  let c := card key_a (1 # 2) in
  let cards := [card key_b (1 # 100)] in
  let pk := observer c.2 in
  let cur := above_cutoff (cutoff_of_valid_graperank_scores (PipeEnv := demo_pipe)) (c :: cards) in
  let prev := get_last_published_pubkeys_by_pubkey_on_db pk demo_publication in
  let s' := (run_act (process_nostr_upload_message (E := demo_pipe) 2 (demo_result (c :: cards) []))
               demo_publication).2 in
  cur = [key_a]
  /\ exists r', requests s' !! 2 = Some r'
    /\ ((status_ta_publication r' = SUCCESS /\ relay s' !! pk = Some (list_to_set cur)
         /\ get_last_published_pubkeys_by_pubkey_on_db pk s' = cur)
        \/ (status_ta_publication r' = FAILURE
            /\ get_last_published_pubkeys_by_pubkey_on_db pk s' = prev)).
Proof.
  split; [by vm_compute|].
  refine (proj1 (full_publication_exact (E := demo_pipe) (PublisherLaws0 := demo_publisher _) 2
    (demo_result [card key_a (1 # 2); card key_b (1 # 100)] []) (card key_a (1 # 2)) [card key_b (1 # 100)]
    demo_publication (demo_run "alice" SUCCESS WAITING false 2) _ _ _ _ _ _)).
  - reflexivity.
  - by vm_compute.
  - by vm_compute.
  - left. reflexivity.
  - replace (above_cutoff _ _) with [key_a] by (by vm_compute). by repeat constructor.
  - apply (bool_decide_unpack _). by vm_compute.
Defined.

Lemma failed_publication_forces_full_witness :
  exists k0 s1 r1, begin_publish (E := demo_pipe) 2 "alice" demo_publication = (Ok (true, k0), s1)
    /\ requests s1 !! 2 = Some r1 /\ status_ta_publication r1 = ONGOING
    /\ (relay_full_sync_setting (PipeEnv := demo_pipe) = false -> force_full_relay r1 = Some true).
Proof.
  apply (failed_publication_forces_full (E := demo_pipe) 2 "alice" demo_publication
    (demo_run "alice" SUCCESS WAITING false 2) 1 (demo_run "alice" SUCCESS FAILURE false 1));
    [by vm_compute|by vm_compute|by vm_compute|lia|done|].
  intros id r' Hr' Hok. exfalso. revert Hr' Hok. unfold demo_publication. simpl.
  intros [[<- <-]|[_ [<- <-]%lookup_singleton_Some]]%lookup_insert_Some; by vm_compute.
Defined.
