(* ===== verification/SchedulerProps.v ===== *)
(** * What the scheduler guarantees

    Who is due and in which order; what one cycle admits; that no tier takes more
    than its share; how much the pipeline is loaded; the manual quota. *)

From Stdlib Require Import QArith Qabs Lqa Ascii String.
From S2P Require Import Prelude Json Binary64 Atomic Runs PublishPlan Pipeline Scheduler.
From S2P Require Import PipeScenario PipelineProps.
Local Open Scope string_scope.
Local Open Scope Z_scope.

(** ** Who is due *)

(** Due, on the microseconds the columns hold. *)
Definition due (now : Z) (c : SchedulerCandidate) : bool :=
  cand_enabled c
  && match cand_last_published c with None => true | Some t => cand_interval_seconds c * 1000000 <=? now - t end
  && match cand_last_failed_at c with None => true | Some t => RETRY_BACKOFF_SECONDS * 1000000 <=? now - t end.

(** A 32-bit column. *)
Definition int32 (z : Z) : Prop := Z.abs z < 2 ^ 31.

Lemma fle_million us n : int32 n -> fle (inject_Z n) (total_seconds us) = (n * 1000000 <=? us).
Proof.
  intros Hn. apply eq_true_iff_eq. rewrite fle_Qle, Z.leb_le. by apply fdiv_million_ge.
Qed.

Lemma eligible_due now c :
  int32 (cand_interval_seconds c) -> eligible now RETRY_BACKOFF_SECONDS c = due now c.
Proof.
  intros Hi. unfold eligible, due, is_overdue, in_retry_backoff, flt.
  destruct (cand_last_published c) as [t|]; destruct (cand_last_failed_at c) as [f|];
    rewrite ?negb_involutive; fold (fle (inject_Z RETRY_BACKOFF_SECONDS)); try fold fle.
  all: change (Qle_bool (inject_Z RETRY_BACKOFF_SECONDS)) with (fle (inject_Z RETRY_BACKOFF_SECONDS)).
  all: rewrite ?fle_million; done.
Qed.

(** [a] is served no later than [b]: a higher tier, then the longer unpublished. *)
Definition served_before (a b : SchedulerCandidate) : Prop :=
  cand_priority b < cand_priority a
  \/ cand_priority b = cand_priority a
     /\ match cand_last_published a, cand_last_published b with
        | None, _ => True
        | Some _, None => False
        | Some x, Some y => x <= y
        end.

(** Published within 136 years of now. *)
Definition in_range (now : Z) (c : SchedulerCandidate) : Prop :=
  int32 (cand_interval_seconds c)
  /\ match cand_last_published c with None => True | Some t => Z.abs (now - t) < 2 ^ 32 * 1000000 end.

Lemma ranks_before_total now a b : ranks_before now a b = true \/ ranks_before now b a = true.
Proof.
  unfold ranks_before, overdue_le.
  destruct (Z.ltb_spec (cand_priority b) (cand_priority a)); [by left|].
  destruct (Z.ltb_spec (cand_priority a) (cand_priority b)); [by right|].
  rewrite !(proj2 (Z.eqb_eq _ _)) by lia.
  destruct (cand_last_published a), (cand_last_published b); auto.
  simpl. rewrite !fle_Qle. destruct (Qlt_le_dec (total_seconds (now - z)) (total_seconds (now - z0))); auto.
  right. by apply Qlt_le_weak.
Qed.

Lemma overdue_le_trans now a b c :
  overdue_le now a b = true -> overdue_le now b c = true -> overdue_le now a c = true.
Proof.
  unfold overdue_le. destruct (cand_last_published a), (cand_last_published b), (cand_last_published c); try done.
  rewrite !fle_Qle. apply Qle_trans.
Qed.

Lemma ranks_before_trans now a b c :
  ranks_before now a b = true -> ranks_before now b c = true -> ranks_before now a c = true.
Proof.
  unfold ranks_before. rewrite !orb_true_iff, !andb_true_iff, !Z.ltb_lt, !Z.eqb_eq.
  intros [H1|[H1 L1]] [H2|[H2 L2]]; try (left; lia). right. split; [lia|].
  by eapply overdue_le_trans.
Qed.

Lemma ranks_before_served now a b :
  in_range now a -> in_range now b -> ranks_before now a b = true -> served_before a b.
Proof.
  intros [_ Ha] [_ Hb]. unfold ranks_before, served_before, overdue_le.
  rewrite orb_true_iff, andb_true_iff, Z.ltb_lt, Z.eqb_eq. intros [H|[H L]]; [by left|right].
  split; [done|]. destruct (cand_last_published a) as [x|], (cand_last_published b) as [y|]; try done.
  apply fle_Qle in L. pose proof (proj1 (fdiv_million_le _ _ Hb Ha) L). lia.
Qed.

Lemma sorted_impl {A} (R R' : A -> A -> Prop) (P : A -> Prop) l :
  (forall x y, P x -> P y -> R x y -> R' x y) -> Forall P l -> StronglySorted R l -> StronglySorted R' l.
Proof.
  intros HR HP Hs. induction Hs as [|x l Hs IH Hall]; [constructor|].
  apply list.Forall_cons in HP as [Hx HP]. constructor; [by apply IH|].
  rewrite list.Forall_forall in Hall, HP |- *. intros y Hy. apply HR; auto.
Qed.

Lemma rank_elem cs now c :
  c ∈ rank_overdue_candidates cs now <-> eligible now RETRY_BACKOFF_SECONDS c = true /\ c ∈ cs.
Proof. unfold rank_overdue_candidates. rewrite stable_sort_elem, list_elem_of_filter. done. Qed.

(** The ranking is exactly the candidates that are due (enabled, never
    published or published at least their interval ago, not failed within the last
    hour, to the microsecond although the code compares floats), each once, higher
    tiers first and within a tier the never published, then the longest unpublished. *)
Theorem ranking_exact cs now :
  Forall (in_range now) cs ->
  rank_overdue_candidates cs now ≡ₚ filter (fun c => due now c = true) cs
  /\ StronglySorted served_before (rank_overdue_candidates cs now).
Proof.
  intros Hr. split.
  - unfold rank_overdue_candidates. rewrite stable_sort_perm.
    induction Hr as [|c cs [Hi Ht] Hr IH]; [done|]. rewrite !filter_cons, eligible_due by done.
    destruct (decide _); by rewrite IH.
  - eapply (sorted_impl _ _ (in_range now)); [apply ranks_before_served| |].
    + rewrite list.Forall_forall in Hr |- *. intros c [_ Hc]%rank_elem. auto.
    + apply stable_sort_sorted; [apply ranks_before_total|apply ranks_before_trans].
Qed.

(** ** Fairness *)

(** [n] slots filled while the same lanes compete. *)
Fixpoint fill_slots (n : nat) (active : list Z) (counts : list (Z * Z)) : res exn (list (Z * Z)) :=
  match n with
  | O => Ok counts
  | S n' =>
      lane ← choose_admission_lane active counts;
      fill_slots n' active (dict_set lane (admitted lane counts + 1) counts)
  end.

Section best.
Context (less : Z -> Z -> bool) (key : Z -> Q).
Context (less_le : forall p q, less p q = true -> (key p <= key q)%Q).
Context (not_less_le : forall p q, less p q = false -> (key q <= key p)%Q).

Lemma best_lane_elem best l : best_lane less best l ∈ best :: l.
Proof using.
  revert best. induction l as [|p l IH]; intros best; simpl; [constructor|].
  specialize (IH (if less best p then p else best)). rewrite !elem_of_cons in *. destruct (less best p); tauto.
Qed.

Lemma best_lane_key best l q : q ∈ best :: l -> (key q <= key (best_lane less best l))%Q.
Proof using less_le not_less_le.
  revert best q. induction l as [|p l IH]; intros best q Hq; simpl.
  { apply list_elem_of_singleton in Hq as ->. apply Qle_refl. }
  assert (Hb : (key (if less best p then p else best) <= key (best_lane less (if less best p then p else best) l))%Q)
    by (apply IH; constructor).
  destruct (less best p) eqn:E.
  - apply elem_of_cons in Hq as [->|Hq]; [|by apply IH].
    eapply Qle_trans; [by apply less_le|exact Hb].
  - apply elem_of_cons in Hq as [->|Hq]; [done|]. apply elem_of_cons in Hq as [->|Hq].
    + eapply Qle_trans; [by apply not_less_le|exact Hb].
    + apply IH. by constructor.
Qed.
End best.

Lemma lane_less_le active counts p q :
  lane_less active counts p q = true -> (deficit active counts p <= deficit active counts q)%Q.
Proof.
  unfold lane_less. rewrite orb_true_iff, !andb_true_iff, flt_Qlt, !fle_Qle.
  intros [H|[[H _] _]]; [by apply Qlt_le_weak|done].
Qed.

Lemma lane_not_less_le active counts p q :
  lane_less active counts p q = false -> (deficit active counts q <= deficit active counts p)%Q.
Proof.
  unfold lane_less. intros [H _]%orb_false_iff. apply Qnot_lt_le. intros Hlt%flt_Qlt. congruence.
Qed.

Local Abbreviation weight_of active := (sum ((fun q => q + 1) <$> active)).
Local Abbreviation admitted_of active counts := (sum ((fun q => admitted q counts) <$> active)).

(** What a share loses to rounding. *)
Lemma share_error a b :
  0 <= a <= b -> 0 < b -> (Qabs (fdiv a b - (a # Z.to_pos b)) <= ulp_bound)%Q.
Proof.
  intros Ha Hb. unfold fdiv.
  assert (E : (inject_Z a / inject_Z b == a # Z.to_pos b)%Q).
  { destruct b as [|b|]; try lia. unfold Qeq. simpl. lia. }
  assert (Hs : (Qabs (inject_Z a / inject_Z b) <= 1)%Q).
  { rewrite E. unfold Qle. simpl. rewrite Z2Pos.id by lia. lia. }
  rewrite <- E. eapply Qle_trans; [apply rn_error|].
  rewrite <- (Qmult_1_l ulp_bound) at 2. by apply Qmult_le_compat_r.
Qed.

(** The computed deficit against the exact one. *)
Lemma fsub_error (x y x' y' : Q) :
  (Qabs (x' - x) <= ulp_bound)%Q -> (Qabs (y' - y) <= ulp_bound)%Q ->
  (0 <= x <= 1)%Q -> (0 <= y <= 1)%Q ->
  (Qabs (fsub x' y' - (x - y)) <= 4 * ulp_bound)%Q.
Proof.
  intros [X1 X2]%Qabs_Qle_condition [Y1 Y2]%Qabs_Qle_condition Hx Hy. unfold fsub.
  assert (Hu : (0 < ulp_bound /\ ulp_bound < 1 # 4)%Q) by (by vm_compute).
  assert (Hb : (Qabs (x' - y') <= 2)%Q) by (apply Qabs_Qle_condition; split; lra).
  pose proof (rn_error (x' - y')) as Hr.
  assert (Hr2 : (Qabs (rn (x' - y') - (x' - y')) <= 2 * ulp_bound)%Q).
  { eapply Qle_trans; [exact Hr|]. apply Qmult_le_compat_r; [done|lra]. }
  apply Qabs_Qle_condition in Hr2 as [R1 R2]. apply Qabs_Qle_condition. split; lra.
Qed.

Lemma sum_cons (f : Z -> Z) p l : sum (f <$> p :: l) = f p + sum (f <$> l).
Proof. done. Qed.

Lemma sum_nonneg (f : Z -> Z) l : (forall q, q ∈ l -> 0 <= f q) -> 0 <= sum (f <$> l).
Proof.
  induction l as [|q l IH]; intros H; [done|]. rewrite sum_cons.
  pose proof (H q ltac:(constructor)). specialize (IH ltac:(intros r Hr; apply H; by constructor)). lia.
Qed.

Lemma sum_neg (f : Z -> Z) l : (forall q, q ∈ l -> f q < 0) -> l <> [] -> sum (f <$> l) < 0.
Proof.
  intros H Hne. destruct l as [|p l]; [done|]. rewrite sum_cons.
  pose proof (H p ltac:(constructor)).
  pose proof (sum_nonneg (fun q => - f q) l ltac:(intros q Hq; specialize (H q ltac:(by constructor)); lia)) as Hs.
  assert (E : sum ((fun q => - f q) <$> l) = - sum (f <$> l)); [|lia].
  clear. induction l as [|q l IH]; [done|]. rewrite !sum_cons, IH. lia.
Qed.

Lemma sum_zero_nonneg (f : Z -> Z) l : sum (f <$> l) = 0 -> l <> [] -> exists p, p ∈ l /\ 0 <= f p.
Proof.
  intros Hs Hne. destruct (decide (Exists (fun p => 0 <= f p) l)) as [He|Hn].
  - by apply list.Exists_exists in He.
  - exfalso. enough (sum (f <$> l) < 0) by lia. apply sum_neg; [|done]. intros p Hp.
    apply Z.nle_gt. intros Hf. apply Hn, list.Exists_exists. eauto.
Qed.

Lemma sum_ge (f : Z -> Z) l p : (forall q, q ∈ l -> 0 <= f q) -> p ∈ l -> f p <= sum (f <$> l).
Proof.
  intros H Hp. induction Hp as [p l|p q l Hp IH]; rewrite sum_cons.
  - pose proof (sum_nonneg f l ltac:(intros r Hr; apply H; by constructor)). lia.
  - pose proof (H q ltac:(constructor)). specialize (IH ltac:(intros r Hr; apply H; by constructor)). lia.
Qed.

Lemma sum_linear (f g : Z -> Z) a b l :
  sum ((fun p => f p * a - g p * b) <$> l) = sum (f <$> l) * a - sum (g <$> l) * b.
Proof. induction l as [|p l IH]; [done|]. rewrite !sum_cons, IH. lia. Qed.

(** The choice is the lane with the largest computed deficit. *)
Lemma choose_spec active counts c :
  choose_admission_lane active counts = Ok c ->
  c ∈ active /\ forall p, p ∈ active -> (deficit active counts p <= deficit active counts c)%Q.
Proof.
  unfold choose_admission_lane. destruct active as [|p0 l]; [done|].
  destruct (_ =? 0); [done|]. intros [= <-]. split; [apply best_lane_elem|].
  intros p Hp. apply best_lane_key; [apply lane_less_le|apply lane_not_less_le|done].
Qed.

Section fair.
Context (active : list Z) (counts : list (Z * Z)).
Context (weights : forall p, p ∈ active -> 0 <= p).
Context (counted : forall p, p ∈ active -> 0 <= admitted p counts).
Local Abbreviation W := (weight_of active).
Local Abbreviation T := (admitted_of active counts).

Lemma weight_bound p : p ∈ active -> 0 < p + 1 <= W.
Proof using weights.
  intros Hp. split; [specialize (weights p Hp); lia|].
  apply (sum_ge (fun q => q + 1)); [|done]. intros q Hq. specialize (weights q Hq). lia.
Qed.

Lemma admitted_bound p : p ∈ active -> 0 <= admitted p counts <= T.
Proof using counted.
  intros Hp. split; [by apply counted|]. by apply (sum_ge (fun q => admitted q counts)).
Qed.

Definition exact_deficit (p : Z) : Q :=
  ((p + 1 # Z.to_pos W) - (admitted p counts # Z.to_pos T))%Q.

Lemma deficit_error p :
  p ∈ active -> 0 < T -> (Qabs (deficit active counts p - exact_deficit p) <= 4 * ulp_bound)%Q.
Proof using weights counted.
  intros Hp HT. pose proof (weight_bound p Hp) as Hw. pose proof (admitted_bound p Hp) as Ha.
  unfold deficit, exact_deficit. rewrite (proj2 (Z.eqb_neq T 0)) by lia.
  apply fsub_error; [apply share_error; lia..| |];
    unfold Qle; cbn [Qnum Qden]; rewrite Z2Pos.id by lia; lia.
Qed.

(** The lane chosen is not ahead of its share by more than the rounding. *)
Lemma chosen_not_ahead c :
  choose_admission_lane active counts = Ok c -> 0 < T < 2 ^ 40 ->
  1024 * (W * admitted c counts) <= 1024 * (T * (c + 1)) + W.
Proof using weights counted.
  intros [Hin Hbest]%choose_spec HT.
  destruct (sum_zero_nonneg (fun p => (p + 1) * T - admitted p counts * W) active) as (p & Hp & Hd).
  { rewrite (sum_linear (fun p => p + 1) (fun p => admitted p counts)). lia. }
  { intros E. rewrite E in Hin. by apply elem_of_nil in Hin. }
  pose proof (Hbest p Hp) as Hmax.
  pose proof (deficit_error p Hp ltac:(lia)) as [P1 P2]%Qabs_Qle_condition.
  pose proof (deficit_error c Hin ltac:(lia)) as [C1 C2]%Qabs_Qle_condition.
  pose proof (weight_bound c Hin) as Hw.
  assert (Hp0 : (0 <= exact_deficit p)%Q).
  { unfold exact_deficit, Qle, Qminus, Qplus, Qopp. cbn [Qnum Qden]. rewrite !Z2Pos.id by lia. nia. }
  assert (Hc0 : (- (8 * ulp_bound) <= exact_deficit c)%Q) by lra.
  clear - Hc0 Hw HT. unfold exact_deficit, ulp_bound, Qle, Qminus, Qplus, Qopp, Qmult in Hc0.
  cbn [Qnum Qden] in Hc0. rewrite ?Pos2Z.inj_mul, ?Z2Pos.id in Hc0 by lia.
  change (Zpos (2 ^ 53)) with (2 ^ 13 * 2 ^ 40) in Hc0. nia.
Qed.
End fair.

(** After [t] slots no lane is ahead of its share by more than a slot and a
    thousandth. *)
Definition fair_state (active : list Z) (t : Z) (counts : list (Z * Z)) : Prop :=
  admitted_of active counts = t
  /\ forall p, p ∈ active ->
       0 <= admitted p counts
       /\ 1024 * (weight_of active * admitted p counts) <= 1024 * (t * (p + 1)) + 1025 * weight_of active.

Lemma admitted_set lane n counts p :
  admitted p (dict_set lane n counts) = if decide (p = lane) then n else admitted p counts.
Proof. unfold admitted. rewrite dict_get_set. by repeat case_decide; simplify_eq. Qed.

Lemma sum_bump c active counts :
  NoDup active ->
  admitted_of active (dict_set c (admitted c counts + 1) counts) =
  admitted_of active counts + (if decide (c ∈ active) then 1 else 0).
Proof.
  induction 1 as [|p l Hp Hnd IH]; [done|].
  rewrite (sum_cons (fun q => admitted q (dict_set c (admitted c counts + 1) counts))), IH,
    (sum_cons (fun q => admitted q counts)), admitted_set.
  repeat case_decide; simplify_eq; set_solver by lia.
Qed.

Lemma choose_total active counts :
  active <> [] -> (forall p, p ∈ active -> 0 <= p) -> exists c, choose_admission_lane active counts = Ok c.
Proof.
  intros Hne Hw. unfold choose_admission_lane. destruct active as [|p l]; [done|].
  pose proof (weight_bound (p :: l) Hw p ltac:(constructor)).
  destruct (Z.eqb_spec (weight_of (p :: l)) 0); [lia|eauto].
Qed.

Lemma fair_step active t counts c :
  NoDup active -> (forall p, p ∈ active -> 0 <= p) -> 0 <= t < 2 ^ 40 ->
  fair_state active t counts -> choose_admission_lane active counts = Ok c ->
  fair_state active (t + 1) (dict_set c (admitted c counts + 1) counts).
Proof.
  intros Hnd Hw Ht [Hsum Hfair] Hc. pose proof (choose_spec _ _ _ Hc) as [Hin _].
  split. { rewrite sum_bump by done. destruct (decide _); [lia|done]. }
  intros p Hp. rewrite admitted_set. destruct (Hfair p Hp) as [Ha Hb].
  pose proof (weight_bound active Hw p Hp) as Hwp.
  destruct (decide (p = c)) as [->|Hne]; [|split; [done|nia]]. split; [lia|].
  destruct (decide (t = 0)) as [->|Hpos].
  - pose proof (admitted_bound active counts (fun q Hq => proj1 (Hfair q Hq)) c Hp). nia.
  - pose proof (chosen_not_ahead active counts Hw (fun q Hq => proj1 (Hfair q Hq)) c Hc ltac:(lia)). nia.
Qed.

Lemma fill_slots_fair n active t counts :
  NoDup active -> active <> [] -> (forall p, p ∈ active -> 0 <= p) -> 0 <= t -> t + Z.of_nat n <= 2 ^ 40 ->
  fair_state active t counts ->
  exists counts', fill_slots n active counts = Ok counts' /\ fair_state active (t + Z.of_nat n) counts'.
Proof.
  intros Hnd Hne Hw. revert t counts. induction n as [|n IH]; intros t counts Ht Hn Hf.
  - exists counts. by rewrite Z.add_0_r.
  - destruct (choose_total active counts Hne Hw) as [c Hc]. simpl. rewrite Hc.
    destruct (IH (t + 1) (dict_set c (admitted c counts + 1) counts)) as (counts' & E & Hf'); [lia..| |].
    + by apply fair_step; [done|done|lia|..].
    + exists counts'. split; [exact E|]. by replace (t + Z.of_nat (S n)) with (t + 1 + Z.of_nat n) by lia.
Qed.

Lemma fair_start active : (forall p, p ∈ active -> 0 <= p) -> fair_state active 0 [].
Proof.
  intros Hw. assert (E : forall p, admitted p [] = 0) by done. split.
  - clear Hw. induction active as [|p l IH]; [done|]. by rewrite (sum_cons (fun q => admitted q [])), E, IH.
  - intros p Hp. rewrite E. split; [done|]. pose proof (weight_bound active Hw p Hp). lia.
Qed.

(** What is within a slot and a thousandth from above is within one per other lane
    from below. *)
Lemma fair_below active t counts p :
  fair_state active t counts -> p ∈ active ->
  1024 * (t * (p + 1)) <= 1024 * (weight_of active * admitted p counts)
                          + 1025 * (weight_of active * (Z.of_nat (length active) - 1)).
Proof.
  intros [Hsum Hfair] Hp. set (W := weight_of active) in *.
  set (f := fun q => 1024 * (t * (q + 1)) + 1025 * W - 1024 * (W * admitted q counts)).
  assert (Hf : f p <= sum (f <$> active)).
  { apply sum_ge; [|done]. intros q Hq. destruct (Hfair q Hq). unfold f. lia. }
  assert (E : sum (f <$> active) =
    1024 * (t * weight_of active) + 1025 * W * Z.of_nat (length active)
    - 1024 * (W * admitted_of active counts)).
  { clear Hf Hfair Hp Hsum. subst f. clearbody W. induction active as [|q l IH]; [simpl; lia|].
    rewrite (sum_cons (fun q => 1024 * (t * (q + 1)) + 1025 * W - 1024 * (W * admitted q counts))), IH,
      (sum_cons (fun q => admitted q counts)), (sum_cons (fun q => q + 1)).
    change (length (q :: l)) with (S (length l)). lia. }
  rewrite E, Hsum in Hf. fold W in Hf. unfold f in Hf. lia.
Qed.

(** C9: while the same tiers compete, weighted admission is fair whatever the
    rounding of its floats: of [n] slots (up to 2^40) a tier of priority [p] gets its
    share [n * (p+1) / W], at most one slot and a thousandth more, and at most that
    much less for each other tier. *)
Theorem fair_share n active :
  NoDup active -> active <> [] -> (forall p, p ∈ active -> 0 <= p) -> Z.of_nat n <= 2 ^ 40 ->
  exists counts, fill_slots n active [] = Ok counts
  /\ sum ((fun p => admitted p counts) <$> active) = Z.of_nat n
  /\ forall p, p ∈ active ->
       let W := sum ((fun q => q + 1) <$> active) in
       let share := (Z.of_nat n * (p + 1) # Z.to_pos W)%Q in
       let slack := (1025 # 1024)%Q in
       (inject_Z (admitted p counts) <= share + slack)%Q
       /\ (share - slack * inject_Z (Z.of_nat (length active) - 1) <= inject_Z (admitted p counts))%Q.
Proof.
  intros Hnd Hne Hw Hn.
  destruct (fill_slots_fair n active 0 [] Hnd Hne Hw ltac:(lia) ltac:(lia) (fair_start _ Hw))
    as (counts & E & Hf). rewrite Z.add_0_l in Hf.
  exists counts. split; [done|]. split; [apply Hf|]. intros p Hp W share slack.
  pose proof (fair_below _ _ _ p Hf Hp) as Hlo. destruct Hf as [_ Hf]. destruct (Hf p Hp) as [_ Hhi].
  pose proof (weight_bound active Hw p Hp) as HW. fold W in Hlo, Hhi, HW. clearbody W.
  unfold share, slack, Qle, Qminus, Qplus, Qmult, Qopp, inject_Z. cbn [Qnum Qden].
  rewrite ?Pos2Z.inj_mul, ?Z2Pos.id by lia. split; nia.
Qed.
