(* ===== verification/CycleProps.v ===== *)
(** * One cycle of the scheduler, from its reads to the rows and messages it leaves *)

From Stdlib Require Import QArith Ascii String.
From S2P Require Import Prelude Json Binary64 Atomic Runs PublishPlan Pipeline Scheduler.
From S2P Require Import PipeScenario PipelineProps SchedulerProps.
From stdpp Require Import list.
Local Open Scope string_scope.
Local Open Scope Z_scope.

(** ** The lanes hold what is left of the ranking, in its order *)

Local Abbreviation tier p := (fun c => cand_priority c = p).

Definition lanes_hold (queues : list (Z * list SchedulerCandidate)) (rest : list SchedulerCandidate) : Prop :=
  NoDup queues.*1 /\ forall p, default [] (dict_get p queues) = filter (tier p) rest.

Lemma dict_set_nodup {V} (k : Z) (v : V) d : NoDup d.*1 -> NoDup (dict_set k v d).*1.
Proof.
  intros Hd. induction d as [|[k' v'] d IH]; simpl; [apply NoDup_singleton|].
  apply NoDup_cons in Hd as [Hn Hd]. case_decide; subst; simpl; [by constructor|].
  constructor; [|by apply IH].
  enough (forall x, x ∈ (dict_set k v d).*1 -> x = k \/ x ∈ d.*1) as Hx.
  { intros [->|Hin]%Hx; by auto. }
  clear. intros x. induction d as [|[k'' v''] d IH]; simpl; [set_solver|].
  case_decide; simpl; set_solver.
Qed.

Lemma add_to_lane_holds queues l c : lanes_hold queues l -> lanes_hold (add_to_lane queues c) (l ++ [c]).
Proof.
  intros [Hnd Hq]. split; [by apply dict_set_nodup|]. intros p. unfold add_to_lane.
  rewrite dict_get_set, filter_app, filter_cons, filter_nil. case_decide as Hp.
  - subst p. simpl. rewrite Hq. by rewrite decide_True.
  - rewrite Hq, decide_False by congruence. by rewrite app_nil_r.
Qed.

Lemma bucket_holds ranked : lanes_hold (bucket ranked) ranked.
Proof.
  assert (G : forall l queues l0, lanes_hold queues l0 -> lanes_hold (foldl add_to_lane queues l) (l0 ++ l)).
  { induction l as [|c l IH]; intros queues l0 H; simpl; [by rewrite app_nil_r|].
    rewrite cons_middle, app_assoc. by apply IH, add_to_lane_holds. }
  apply (G ranked [] []). split; [apply NoDup_nil_2|done].
Qed.

Lemma dict_get_nodup {V} (k : Z) (v : V) d : NoDup d.*1 -> (k, v) ∈ d -> dict_get k d = Some v.
Proof.
  intros Hd. induction d as [|[k' v'] d IH]; simpl; [by intros ?%elem_of_nil|].
  apply NoDup_cons in Hd as [Hn Hd]. intros [[= -> ->]|Hin]%elem_of_cons; [by rewrite decide_True|].
  case_decide; [|by apply IH]. subst. exfalso. apply Hn. apply list_elem_of_fmap. by exists (k', v).
Qed.

Lemma active_lanes_spec queues rest p :
  lanes_hold queues rest -> p ∈ active_lanes queues <-> filter (tier p) rest <> [].
Proof.
  intros [Hnd Hq]. unfold active_lanes. rewrite list_elem_of_fmap. rewrite <- Hq. split.
  - intros ([k q] & -> & [Hne Hin]%list_elem_of_filter). simpl in *.
    rewrite (dict_get_nodup _ _ _ Hnd Hin). by destruct q.
  - intros H. destruct (dict_get p queues) as [q|] eqn:E; [|done]. simpl in H.
    exists (p, q). split; [done|]. apply list_elem_of_filter. split; [by destruct q|]. by apply dict_get_elem.
Qed.

Lemma active_lanes_tier queues rest p :
  lanes_hold queues rest -> p ∈ active_lanes queues -> exists c, c ∈ rest /\ cand_priority c = p.
Proof.
  intros H Hp. apply (active_lanes_spec _ _ _ H) in Hp. destruct (filter (tier p) rest) as [|c l] eqn:Ef; [done|].
  assert (Hc : c ∈ filter (tier p) rest) by (rewrite Ef; constructor).
  apply list_elem_of_filter in Hc as [? ?]. eauto.
Qed.

Lemma active_lanes_empty queues rest : lanes_hold queues rest -> nonempty (active_lanes queues) = nonempty rest.
Proof.
  intros H. destruct rest as [|c rest]; simpl.
  - destruct (active_lanes queues) as [|p l] eqn:Ea; [done|exfalso].
    assert (Hp : p ∈ active_lanes queues) by (rewrite Ea; constructor).
    by apply (active_lanes_spec _ _ _ H) in Hp.
  - assert (Hp : cand_priority c ∈ active_lanes queues).
    { apply (active_lanes_spec _ _ _ H). by rewrite filter_cons_True. }
    destruct (active_lanes queues); [by apply elem_of_nil in Hp|done].
Qed.

(** The head of a lane is the first of its tier in the ranking. *)
Lemma pop_lane_first queues rest p :
  lanes_hold queues rest -> p ∈ active_lanes queues ->
  exists c queues' l1 l2, pop_lane p queues = Some (c, queues') /\ rest = (l1 ++ c :: l2)%list
    /\ cand_priority c = p /\ filter (tier p) l1 = [] /\ lanes_hold queues' (l1 ++ l2).
Proof.
  intros H Hp. pose proof H as [Hnd Hq]. apply (active_lanes_spec _ _ _ H) in Hp.
  assert (Hs : exists l1 c l2, rest = (l1 ++ c :: l2)%list /\ cand_priority c = p /\ filter (tier p) l1 = []).
  { clear - Hp. induction rest as [|c rest IH]; [done|]. destruct (decide (cand_priority c = p)) as [Hc|Hc].
    - by exists [], c, rest.
    - rewrite filter_cons_False in Hp by done. destruct (IH Hp) as (l1 & c' & l2 & -> & Hc' & Hf).
      exists (c :: l1), c', l2. split; [done|]. split; [done|]. by rewrite filter_cons_False. }
  destruct Hs as (l1 & c & l2 & -> & Hc & Hl1).
  assert (Hd : default [] (dict_get p queues) = c :: filter (tier p) l2).
  { by rewrite Hq, filter_app, Hl1, filter_cons_True. }
  destruct (dict_get p queues) as [q|] eqn:Eq; [|done]. simpl in Hd. subst q.
  exists c, (dict_set p (filter (tier p) l2) queues), l1, l2. unfold pop_lane. rewrite Eq.
  do 4 (split; [done|]). split; [by apply dict_set_nodup|]. intros p'. rewrite dict_get_set, filter_app.
  case_decide as Hp'; [subst p'; by rewrite Hl1|].
  rewrite Hq, filter_app, filter_cons_False by congruence. done.
Qed.

(** ** The lane taken *)

Section lane.
Context {E : PipeEnv}.

Lemma strict_lane_spec active p :
  strict_lane active = Ok p -> p ∈ active /\ forall q, q ∈ active -> q <= p.
Proof using.
  unfold strict_lane. destruct active as [|p0 l]; [done|]. intros [= <-].
  split; [apply best_lane_elem|]. intros q Hq. rewrite Zle_Qle.
  apply (best_lane_key Z.ltb inject_Z); [| |done]; intros a b; rewrite <- Zle_Qle; lia.
Qed.

Lemma choose_lane_ok queues rest counts :
  lanes_hold queues rest -> rest <> [] ->
  (scheduler_fairness_enabled = true -> Forall (fun c => 0 <= cand_priority c) rest) ->
  exists p, choose_lane (active_lanes queues) counts = Ok p /\ p ∈ active_lanes queues
    /\ (scheduler_fairness_enabled = false -> forall c, c ∈ rest -> cand_priority c <= p).
Proof using.
  intros H Hne Hw. pose proof (active_lanes_empty _ _ H) as Hn.
  assert (Ha : active_lanes queues <> []).
  { intros Ea. rewrite Ea in Hn. by destruct rest. }
  unfold choose_lane. destruct scheduler_fairness_enabled.
  - destruct (choose_total (active_lanes queues) counts Ha) as [p Hp].
    { intros p Hp. destruct (active_lanes_tier _ _ _ H Hp) as (c & Hc & <-).
      specialize (Hw eq_refl). rewrite Forall_forall in Hw. by apply Hw. }
    exists p. split; [done|]. split; [|done]. by apply choose_spec in Hp as [? _].
  - destruct (strict_lane (active_lanes queues)) as [p|] eqn:Hs.
    + exists p. split; [done|]. apply strict_lane_spec in Hs as [Hp Hmax]. split; [done|].
      intros _ c Hc. apply Hmax, (active_lanes_spec _ _ _ H). intros Hf.
      assert (Hin : c ∈ filter (tier (cand_priority c)) rest) by by apply list_elem_of_filter.
      rewrite Hf in Hin. by apply elem_of_nil in Hin.
    + unfold strict_lane in Hs. by destruct (active_lanes queues).
Qed.
End lane.

(** ** What an admission leaves *)

Section admission.
Context {E : PipeEnv}.

(** A run can be created for every candidate: its preset resolves and Redis takes
    the message. *)
Definition ready (s : Pipe) (c : SchedulerCandidate) : Prop :=
  push_fails (clock s) = None /\ exists t p, resolves (cand_pubkey c) t p s.

(** The rows of [picked], in order, from the next id on, waiting and scheduled. *)
Definition admits (s : Pipe) (picked : list SchedulerCandidate) (s' : Pipe) : Prop :=
  next_id s' = next_id s + Z.of_nat (length picked)
  /\ (forall id, id < next_id s \/ next_id s' <= id -> requests s' !! id = requests s !! id)
  /\ forall i c, picked !! i = Some c -> exists r,
       requests s' !! (next_id s + Z.of_nat i) = Some r
       /\ run_pubkey r = Some (cand_pubkey c) /\ trigger_source r = SCHEDULED
       /\ status r = WAITING /\ status_ta_publication r = WAITING.

Lemma admits_nil s s' : requests s' = requests s -> next_id s' = next_id s -> admits s [] s'.
Proof using. intros Hr Hn. split; [simpl; lia|]. split; [by rewrite Hr|done]. Qed.

Lemma admits_cons s c s1 picked s' r :
  next_id s1 = next_id s + 1 -> requests s1 = <[next_id s := r]> (requests s) ->
  run_pubkey r = Some (cand_pubkey c) -> trigger_source r = SCHEDULED -> status r = WAITING ->
  status_ta_publication r = WAITING -> admits s1 picked s' -> admits s (c :: picked) s'.
Proof using.
  intros Hn1 Hr1 Hpk Htr Hst Hta (Hn & Hold & Hnew). split; [simpl; lia|]. split.
  - intros id Hid. rewrite Hold by lia. rewrite Hr1, lookup_insert_ne by lia. done.
  - intros [|i] c' Hi.
    + injection Hi as <-. exists r. rewrite Z.add_0_r, Hold by lia.
      by rewrite Hr1, lookup_insert_eq.
    + destruct (Hnew i c' Hi) as (r' & Hr' & ?). exists r'.
      by replace (next_id s + Z.of_nat (S i)) with (next_id s1 + Z.of_nat i) by lia.
Qed.

(** Presets are as they were after a run has been created. *)
Lemma resolve_same pr q s s' t p :
  presets s' = presets s ->
  get_graperank_custom_params_by_pubkey_on_db q s' = get_graperank_custom_params_by_pubkey_on_db q s ->
  resolve_preset_params pr q s = (Ok (t, p), s) -> resolve_preset_params pr q s' = (Ok (t, p), s').
Proof using.
  intros Hp Hc. unfold resolve_preset_params, builtin_params, mbind, TX_mbind, reads.
  destruct pr; rewrite ?Hp, ?Hc.
  1-3: destruct (presets s !! _); [by intros [= <- <-]|done].
  destruct (get_graperank_custom_params_by_pubkey_on_db q s) as [[g|]|]; simpl; [by intros [= <- <-]|done|].
  rewrite ?Hp. destruct (presets s !! _); [by intros [= <- <-]|done].
Qed.

Lemma triggered_columns {A} (col : Observer -> option A) params ne s q :
  col new_observer = None ->
  (forall o a b c, col (set_times a b c o) = col o) ->
  triggered params ne s !! q ≫= col = observers s !! q ≫= col.
Proof using.
  intros Hnew Hset. unfold triggered. destruct (observers s !! params) as [o|] eqn:Ho; [|destruct ne; [done|]];
    (destruct (decide (q = params)) as [->|Hq]; [rewrite lookup_insert_eq, Ho; simpl; by rewrite Hset|
       by rewrite lookup_insert_ne]).
Qed.

Lemma ready_created s c c0 alg fr fn tr t p lane m counts :
  ready s c ->
  ready (with_admitted (push lane m (inserted alg (cand_pubkey c0) (cand_pubkey c0) true fr fn tr t p s)) counts) c.
Proof using.
  intros [Hpush (t' & p' & Hres)]. split; [done|]. exists t', p'. unfold resolves in *.
  set (s1 := with_admitted _ _).
  assert (H1 : get_graperank_preset_by_pubkey_on_db (cand_pubkey c) s1
               = get_graperank_preset_by_pubkey_on_db (cand_pubkey c) s)
    by by apply (triggered_columns graperank_preset).
  rewrite H1. eapply resolve_same; [| |exact Hres]; [done|].
  by apply (triggered_columns graperank_custom_params).
Qed.
End admission.

(** ** The loop *)

Section loop.
Context {E : PipeEnv} (now : Z).

Local Abbreviation follows_someone := (fun c => has_grapevine now (cand_pubkey c) = true).

(** What a cycle may pick from a ranking with [room] slots: as many as there are
    candidates who follow someone, of each tier the first ones in order, and the
    first ones overall when tiers are strict. *)
Definition picks (room : nat) (rest picked : list SchedulerCandidate) : Prop :=
  length picked = (room `min` length (filter follows_someone rest))%nat
  /\ (forall p, filter (tier p) picked `prefix_of` filter (tier p) (filter follows_someone rest))
  /\ (scheduler_fairness_enabled = false -> picked = take room (filter follows_someone rest)).

Lemma picks_skip room l1 c l2 picked :
  has_grapevine now (cand_pubkey c) = false ->
  picks room (l1 ++ l2) picked -> picks room (l1 ++ c :: l2) picked.
Proof using.
  intros Hc. unfold picks. rewrite !filter_app, filter_cons_False by congruence. done.
Qed.

Lemma picks_take room l1 c l2 picked :
  has_grapevine now (cand_pubkey c) = true -> filter (tier (cand_priority c)) l1 = [] ->
  (scheduler_fairness_enabled = false -> l1 = []) ->
  picks room (l1 ++ l2) picked -> picks (S room) (l1 ++ c :: l2) (c :: picked).
Proof using.
  intros Hc Hl1 Hstrict (Hlen & Hpre & Htake). unfold picks.
  rewrite filter_app in Hlen, Htake. rewrite filter_app, filter_cons_True by done. split; [|split].
  - rewrite length_app in *. cbn [length]. lia.
  - intros p. specialize (Hpre p). rewrite !filter_app in *.
    destruct (decide (cand_priority c = p)) as [Hp|Hp].
    + rewrite !(filter_cons_True (tier p) c) by done.
      assert (Hn : filter (tier p) (filter follows_someone l1) = []).
      { apply filter_none. subst p. intros x [_ Hx]%list_elem_of_filter Hx1.
        by eapply (filter_nil_not_elem_of (tier (cand_priority c))). }
      rewrite Hn in *. by apply prefix_cons.
    + by rewrite !(filter_cons_False (tier p) c).
  - intros Hs. specialize (Htake Hs). rewrite (Hstrict Hs) in *. simpl in *. by rewrite Htake.
Qed.

Lemma sorted_app_skip {A} (R : A -> A -> Prop) l1 c l2 :
  StronglySorted R (l1 ++ c :: l2) -> StronglySorted R (l1 ++ l2) /\ Forall (fun x => R x c) l1.
Proof using.
  induction l1 as [|x l1 IH]; simpl; intros Hs; apply StronglySorted_inv in Hs as [Hs Hall]; [by split|].
  destruct (IH Hs) as [Hs' Hf]. apply Forall_app in Hall as [H1 [Hc H2]%Forall_cons].
  split; [constructor; [done|by apply Forall_app]|by constructor].
Qed.

Definition ranked_ok (rest : list SchedulerCandidate) : Prop :=
  if scheduler_fairness_enabled then Forall (fun c => 0 <= cand_priority c) rest
  else StronglySorted (fun a b => cand_priority b <= cand_priority a) rest.

(** Taking the first of a tier out leaves a ranking; under strict order it was the
    first of all. *)
Lemma ranked_ok_skip l1 c l2 :
  ranked_ok (l1 ++ c :: l2) -> filter (tier (cand_priority c)) l1 = [] ->
  (scheduler_fairness_enabled = false -> forall x, x ∈ (l1 ++ c :: l2)%list -> cand_priority x <= cand_priority c) ->
  ranked_ok (l1 ++ l2) /\ (scheduler_fairness_enabled = false -> l1 = []).
Proof using.
  unfold ranked_ok. intros Hr Hl1 Hmax. destruct scheduler_fairness_enabled.
  - apply Forall_app in Hr as [H1 [_ H2]%Forall_cons]. split; [by apply Forall_app|done].
  - apply sorted_app_skip in Hr as [Hs Hf]. split; [done|]. intros _.
    destruct l1 as [|x l1]; [done|exfalso]. apply Forall_cons in Hf as [Hx _].
    specialize (Hmax eq_refl x ltac:(constructor)).
    rewrite filter_cons_True in Hl1 by lia. done.
Qed.

Lemma admit_run left : forall rest budget k queues s,
  length rest = left -> lanes_hold queues rest -> ranked_ok rest -> k <= budget -> clock s = now ->
  Forall (ready s) rest ->
  exists picked s',
    run_act (admit_loop left budget k queues) s = (Ok (k + Z.of_nat (length picked)), s')
    /\ picks (Z.to_nat (budget - k)) rest picked /\ admits s picked s'.
Proof using.
  induction left as [|left IH]; intros rest budget k queues s Hlen Hq Hr Hk Hnow Hready.
  { destruct rest; [|done]. exists [], s. split; [simpl; by rewrite Z.add_0_r|]. split.
    - split; [simpl; lia|]. split; [intros p; apply prefix_nil|intros _; by rewrite filter_nil, take_nil].
    - by apply admits_nil. }
  cbn [admit_loop]. rewrite (active_lanes_empty _ _ Hq). destruct rest as [|c0 rest0] eqn:Erest; [done|].
  rewrite <- Erest in *. assert (Hne : rest <> []) by by rewrite Erest.
  assert (nonempty rest = true) as -> by by rewrite Erest. rewrite andb_true_r.
  destruct (Z.ltb_spec k budget) as [Hlt|Hge]; cycle 1.
  { exists [], s. split; [simpl; by rewrite Z.add_0_r|]. assert (budget - k = 0) as -> by lia.
    split; [|by apply admits_nil]. split; [done|]. split; [intros p; apply prefix_nil|done]. }
  destruct (choose_lane_ok queues rest (admitted_counts s) Hq Hne) as (p & Hp & Hact & Hmax).
  { intros Ef. unfold ranked_ok in Hr. by rewrite Ef in Hr. }
  destruct (pop_lane_first _ _ _ Hq Hact) as (c & queues' & l1 & l2 & Hpop & Hsplit & Hcp & Hl1 & Hq').
  cbv iota. rewrite run_act_bind, run_act_tx. cbn [reads]. rewrite Hp.
  cbn [mbind act_mbind act_bind]. rewrite Hpop.
  cbn [run_act reads fst snd]. rewrite Hnow. subst p. rewrite Hsplit in *.
  destruct (ranked_ok_skip _ _ _ Hr Hl1 Hmax) as [Hr' Hstrict].
  assert (Hlen' : length (l1 ++ l2) = left) by (rewrite length_app in *; simpl in *; lia).
  apply Forall_app in Hready as [Hy1 [[Hpush (t & g & Hres)] Hy2]%Forall_cons].
  destruct (has_grapevine now (cand_pubkey c)) eqn:Hg; cbn [negb]; cycle 1.
  { destruct (IH _ budget k queues' s Hlen' Hq' Hr' Hk Hnow) as (picked & s' & Hrun & Hpk & Had);
      [by apply Forall_app|]. exists picked, s'. split; [done|]. split; [by apply picks_skip|done]. }
  pose proof (create_queues_run "graperank" (cand_pubkey c) (cand_pubkey c) true false false SCHEDULED t g s Hres)
    as (_ & _ & Hcreate). rewrite Hpush in Hcreate. destruct Hcreate as (i & Hrun & _).
  rewrite run_act_bind, Hrun. cbn [run_act writes fst snd].
  match goal with |- context [run_act _ ?x] => set (s1 := x) end.
  destruct (IH _ budget (k + 1) queues' s1 Hlen' Hq' Hr') as (picked & s' & Hrun' & Hpk & Had).
  { lia. } { done. }
  { apply Forall_app. split; eapply Forall_impl; [exact Hy1| |exact Hy2|]; intros x Hx; by apply ready_created. }
  exists (c :: picked), s'. rewrite Hrun'. split; [f_equal; f_equal; simpl; lia|]. split.
  - replace (Z.to_nat (budget - k)) with (S (Z.to_nat (budget - (k + 1)))) by lia.
    by apply picks_take.
  - apply (admits_cons s c s1 picked s'
      (new_run "graperank" (cand_pubkey c) (cand_pubkey c) false false SCHEDULED t g s)); [done..|exact Had].
Qed.
End loop.

(** ** The cycle *)

Section cycle.
Context {E : PipeEnv}.

Local Abbreviation budget s :=
  (admission_budget scheduler_inflight_target (count_scheduled_publishing_inflight_on_db s)
     (any_interactive_in_pipeline_on_db s)).
Local Abbreviation ranking d s :=
  (rank_overdue_candidates (load_scheduler_candidates_on_db platform_pubkey d s) (clock s)).

Lemma ranking_ok cs now :
  (scheduler_fairness_enabled = true -> Forall (fun c => 0 <= cand_priority c) cs) ->
  ranked_ok (rank_overdue_candidates cs now).
Proof using.
  unfold ranked_ok. destruct scheduler_fairness_enabled; intros H.
  - apply Forall_forall. intros c [_ Hc]%rank_elem. specialize (H eq_refl).
    rewrite Forall_forall in H. by apply H.
  - eapply (sorted_impl _ _ (fun _ => True)); [|by apply Forall_true|
      apply stable_sort_sorted; [apply ranks_before_total|apply ranks_before_trans]].
    intros a b _ _. unfold leb_rel, ranks_before. rewrite orb_true_iff, andb_true_iff, Z.ltb_lt, Z.eqb_eq. lia.
Qed.

Lemma cycle_run s d :
  get_default_scheduling_on_db s = Some d ->
  (scheduler_fairness_enabled = true ->
     Forall (fun c => 0 <= cand_priority c) (load_scheduler_candidates_on_db platform_pubkey d s)) ->
  Forall (ready s) (ranking d s) ->
  exists picked s', run_act run_cycle s = (Ok tt, s')
    /\ picks (clock s) (Z.to_nat (budget s)) (ranking d s) picked /\ admits s picked s'.
Proof using.
  intros Hd Hw Hready. unfold run_cycle.
  rewrite !run_act_bind, run_act_tx. cbn [reads]. rewrite run_act_bind, run_act_tx. cbn [reads].
  destruct (Z.leb_spec (budget s) 0) as [Hb|Hb].
  { exists [], s. split; [done|]. replace (Z.to_nat (budget s)) with O by lia. split; [|by apply admits_nil].
    split; [done|]. split; [intros p; apply prefix_nil|done]. }
  rewrite run_act_bind, run_act_tx. cbn [reads]. rewrite Hd.
  rewrite run_act_bind, run_act_tx. cbn [reads]. rewrite run_act_bind, run_act_tx. cbn [reads].
  destruct (admit_run (clock s) (length (ranking d s)) (ranking d s) (budget s) 0 (bucket (ranking d s)) s)
    as (picked & s' & Hrun & Hp & Ha); [done|apply bucket_holds|by apply ranking_ok|lia|done|done|].
  exists picked, s'. rewrite run_act_bind, Hrun. rewrite Z.sub_0_r in Hp. done.
Qed.


(** ** Backpressure *)

(** The ids a count counts. *)
Definition counted_ids (cond : Z * BrainstormRequest -> bool) (s : Pipe) : gset Z :=
  list_to_set (filter (fun kr => cond kr = true) (rows s)).*1.

Lemma counted_ids_elem cond s id :
  id ∈ counted_ids cond s <-> exists r, requests s !! id = Some r /\ cond (id, r) = true.
Proof using.
  unfold counted_ids, rows. rewrite elem_of_list_to_set, list_elem_of_fmap. split.
  - intros ([k r] & -> & [Hc Hin]%list_elem_of_filter). exists r. by apply elem_of_map_to_list in Hin.
  - intros (r & Hr & Hc). exists (id, r). split; [done|]. apply list_elem_of_filter.
    split; [done|]. by apply elem_of_map_to_list.
Qed.

Lemma count_if_size cond s : count_if cond s = Z.of_nat (size (counted_ids cond s)).
Proof using.
  unfold count_if, counted_ids. rewrite size_list_to_set; [by rewrite length_fmap|].
  eapply sublist_NoDup; [apply (NoDup_fst_map_to_list (requests s))|].
  apply fmap_sublist, sublist_filter.
Qed.

Lemma admits_count s picked s' cond :
  admits s picked s' -> count_if cond s' <= count_if cond s + Z.of_nat (length picked).
Proof using.
  intros (Hn & Hold & _). rewrite !count_if_size.
  set (new := list_to_set (C := gset Z) ((fun i => next_id s + Z.of_nat i) <$> seq 0 (length picked))).
  assert (Hsub : counted_ids cond s' ⊆ counted_ids cond s ∪ new).
  { intros id (r & Hr & Hc)%counted_ids_elem. apply elem_of_union.
    destruct (decide (id < next_id s \/ next_id s' <= id)) as [Ho|Ho].
    - left. apply counted_ids_elem. exists r. by rewrite <- Hold.
    - right. apply elem_of_list_to_set, list_elem_of_fmap. exists (Z.to_nat (id - next_id s)).
      split; [lia|]. apply elem_of_seq. lia. }
  assert (Hnew : size new = length picked).
  { unfold new. rewrite size_list_to_set; [by rewrite length_fmap, length_seq|].
    apply NoDup_fmap_2; [intros i j; lia|apply NoDup_seq]. }
  apply subseteq_size in Hsub. rewrite size_union_alt in Hsub.
  pose proof (subseteq_size (new ∖ counted_ids cond s) new ltac:(set_solver)).
  lia.
Qed.

(** A cycle never loads the pipeline beyond the target: afterwards there are at
    most as many scheduled runs in flight as the target allows, or as there were, and
    while a manual or administrator's run is in the pipeline it creates none. *)
Theorem cycle_respects_target s d :
  get_default_scheduling_on_db s = Some d ->
  (scheduler_fairness_enabled = true ->
     Forall (fun c => 0 <= cand_priority c) (load_scheduler_candidates_on_db platform_pubkey d s)) ->
  Forall (ready s) (rank_overdue_candidates (load_scheduler_candidates_on_db platform_pubkey d s) (clock s)) ->
  exists s', run_act run_cycle s = (Ok tt, s')
    /\ count_scheduled_publishing_inflight_on_db s'
       <= Z.max scheduler_inflight_target (count_scheduled_publishing_inflight_on_db s)
    /\ (any_interactive_in_pipeline_on_db s = true -> next_id s' = next_id s /\ requests s' = requests s).
Proof using.
  intros Hd Hw Hready.
  destruct (cycle_run s d Hd Hw Hready) as (picked & s' & Hrun & (Hlen & _) & Ha).
  exists s'. split; [done|]. unfold admission_budget in Hlen. split.
  - unfold count_scheduled_publishing_inflight_on_db in *.
    pose proof (admits_count _ _ _ (fun kr => bool_decide (trigger_source kr.2 = SCHEDULED) && in_pipeline kr.2) Ha).
    destruct (any_interactive_in_pipeline_on_db s); lia.
  - intros Hi. rewrite Hi in Hlen. destruct picked; [|done]. destruct Ha as (Hn & Hold & _).
    simpl in Hn. rewrite Z.add_0_r in Hn. split; [done|]. apply map_eq. intros id. apply Hold. lia.
Qed.
End cycle.
