(* ===== verification/QuotaProps.v ===== *)
(** * The manual quota and the retry pause *)

From Stdlib Require Import QArith Ascii String.
From S2P Require Import Prelude Json Binary64 Atomic Runs PublishPlan Pipeline Scheduler.
From S2P Require Import PipeScenario PipelineProps SchedulerProps CycleProps.
From stdpp Require Import list.
Local Open Scope string_scope.
Local Open Scope Z_scope.

(** ** When the quota frees up *)

Local Abbreviation window_runs pk start s :=
  (filter (fun kr => counted_manual pk start kr.2 = true) (rows s)).

Lemma counted_later pk a b r :
  a <= b -> counted_manual pk b r = true -> counted_manual pk a r = true.
Proof.
  unfold counted_manual. rewrite !andb_true_iff, !Z.leb_le. intros Hab [H Hb]. split; [done|lia].
Qed.

Lemma oldest_spec pk start s o :
  (count_successful_manual_runs_in_window_on_db pk start s).2 = Some o ->
  (exists kr, kr ∈ window_runs pk start s /\ created_at kr.2 = o)
  /\ forall kr, kr ∈ window_runs pk start s -> o <= created_at kr.2.
Proof.
  unfold count_successful_manual_runs_in_window_on_db. simpl.
  intros (m & Hm & ->)%fmap_Some. apply max_by_spec in Hm as [Hin Hmax]. split.
  - apply list_elem_of_fmap in Hin as (kr & -> & Hkr). exists kr. split; [done|lia].
  - intros kr Hkr. specialize (Hmax (- created_at kr.2)).
    specialize (Hmax ltac:(apply list_elem_of_fmap; eauto)). unfold id in Hmax. lia.
Qed.

(** Moving the window over the oldest run loses a run; not reaching it loses none. *)
Lemma window_moves pk a b s o :
  a <= b -> (count_successful_manual_runs_in_window_on_db pk a s).2 = Some o ->
  (o < b -> (length (window_runs pk b s) < length (window_runs pk a s))%nat)
  /\ (b <= o -> window_runs pk b s = window_runs pk a s).
Proof.
  intros Hab Ho. apply oldest_spec in Ho as [(kr & Hkr & Hc) Hmin].
  assert (E : window_runs pk b s = filter (fun kr => b <= created_at kr.2) (window_runs pk a s)).
  { rewrite list_filter_filter. apply list_filter_iff. intros x. split.
    - intros Hx. split; [|by eapply counted_later]. unfold counted_manual in Hx.
      rewrite !andb_true_iff, Z.leb_le in Hx. apply Hx.
    - unfold counted_manual. rewrite !andb_true_iff, !Z.leb_le. intros [Hb [H _]]. by split. }
  rewrite E. split; intros Hb.
  - apply length_filter_lt with kr; [done|lia].
  - clear E Hkr. induction (window_runs pk a s) as [|x l IH]; [done|].
    rewrite filter_cons_True by (specialize (Hmin x ltac:(constructor)); lia). f_equal. apply IH.
    intros y Hy. apply Hmin. by constructor.
Qed.

(** The reset a refused manual run is told is exact: with the window full and
    nothing new published, the quota refuses up to that instant and lets the user
    through at every later one. *)
Theorem quota_reset_exact {E : PipeEnv} pk s p :
  get_scheduling_for_pubkey_on_db pk s = Some p ->
  let w := manual_quota_window_seconds p * 1000000 in
  let counted := count_successful_manual_runs_in_window_on_db pk (clock s - w) s in
  counted.1 = manual_quota_limit p -> 0 < manual_quota_limit p ->
  exists reset,
    manual_quota_decision counted.1 counted.2 (manual_quota_limit p) (manual_quota_window_seconds p) (clock s)
    = {| allowed := false; reset_at := Some reset |}
    /\ forall t, clock s <= t ->
         (enforce_manual_quota pk (at_clock t s)).1 = if t <=? reset then Raise (HTTPException 429) else Ok tt.
Proof.
  intros Hp w counted Hc Hl. unfold manual_quota_decision. rewrite Hc, Z.ltb_irrefl.
  assert (Ho : is_Some counted.2).
  { subst counted. unfold count_successful_manual_runs_in_window_on_db in *. simpl in *.
    apply fmap_is_Some, max_by_is_Some. intros En%fmap_nil_inv. rewrite En in Hc. simpl in Hc. lia. }
  destruct Ho as [o Ho]. rewrite Ho. eexists. split; [done|]. intros t Ht. simpl.
  unfold enforce_manual_quota. erewrite tx_bind_ok by done.
  change (get_scheduling_for_pubkey_on_db pk (at_clock t s)) with (get_scheduling_for_pubkey_on_db pk s).
  rewrite Hp. erewrite tx_bind_ok by done. erewrite tx_bind_ok by done. cbn [clock at_clock]. fold w.
  change (count_successful_manual_runs_in_window_on_db pk (t - w) (at_clock t s))
    with (count_successful_manual_runs_in_window_on_db pk (t - w) s).
  destruct (window_moves pk (clock s - w) (t - w) s o ltac:(lia) Ho) as [Hless Hsame].
  unfold manual_quota_decision. unfold count_successful_manual_runs_in_window_on_db at 1. cbn [fst].
  unfold counted, count_successful_manual_runs_in_window_on_db in Hc. cbn [fst] in Hc.
  destruct (Z.leb_spec t (o + w)) as [Hle|Hgt].
  - rewrite Hsame by lia. by rewrite Hc, Z.ltb_irrefl.
  - specialize (Hless ltac:(lia)). by rewrite (proj2 (Z.ltb_lt _ _)) by lia.
Qed.

(** ** A small deployment *)

Definition manual_at (t : Z) (ta : BrainstormRequestStatus) : BrainstormRequest :=
  demo_run "alice" SUCCESS ta false t.

(** One published manual run an hour ago, against a quota of one a week. *)
Definition spent_quota : Pipe :=
  with_requests empty_pipe {[0 := manual_at (1000000000000 - 3600 * 1000000) SUCCESS]}.

Lemma quota_reset_exact_witness :
  exists reset,
    manual_quota_decision 1 (Some (1000000000000 - 3600 * 1000000)) 1 604800 1000000000000
    = {| allowed := false; reset_at := Some reset |}
    /\ forall t, 1000000000000 <= t ->
         (enforce_manual_quota "alice" (at_clock t spent_quota)).1
         = if t <=? reset then Raise (HTTPException 429) else Ok tt.
Proof.
  apply (quota_reset_exact (E := demo_pipe) "alice" spent_quota demo_policy);
    [reflexivity|vm_compute; reflexivity|vm_compute; reflexivity].
Defined.

(** Two manual runs are let through while neither has published, and both then
    count: a quota of one does not keep a second run from being published. *)
Definition two_manual_runs : act Pipe unit :=
  first ← create_graperank_calc_endpoint (E := demo_pipe) None "alice";
  second ← create_graperank_calc_endpoint (E := demo_pipe) None "alice";
  _ ← session (update_brainstorm_request_ta_status_by_id_on_db (inst_private_id first) SUCCESS);
  session (update_brainstorm_request_ta_status_by_id_on_db (inst_private_id second) SUCCESS).

Example quota_exceeded_by_inflight :
  let '(r, s) := run_act two_manual_runs empty_pipe in
  r = Ok tt /\ manual_quota_limit demo_policy = 1
  /\ (count_successful_manual_runs_in_window_on_db "alice" (clock s - 604800 * 1000000) s).1 = 2.
Proof. vm_compute. done. Qed.

(** ** A failed publication has no retry pause *)

(** The calculation succeeded and the publication failed a second ago: the
    candidate has no failure on record and is due at once. *)
Definition unpublished : Pipe :=
  {| clock := 1000000000000;
     requests := {[0 := demo_run "alice" SUCCESS FAILURE false (1000000000000 - 1000000)]};
     next_id := 1; observers := {["alice" := new_observer]}; policies := {[1 := demo_policy]};
     whitelists := ∅; presets := {["DEFAULT" := demo_params]}; preset_history := []; graph := ∅;
     lanes := ∅; relay := ∅; admitted_counts := [] |}.

Example publish_failure_has_no_backoff :
  cand_pubkey <$> rank_overdue_candidates (load_scheduler_candidates_on_db "platform" demo_policy unpublished)
                    (clock unpublished) = ["alice"].
Proof. by vm_compute. Qed.

(** ** Witnesses of the ranking, the fairness and the cycle *)

Definition cand (pk : string) (prio : Z) (last : option Z) : SchedulerCandidate := {|
  cand_pubkey := pk; cand_priority := prio; cand_interval_seconds := 3600;
  cand_last_published := last; cand_last_failed_at := None; cand_enabled := true |}.

Definition demo_candidates : list SchedulerCandidate :=
  [cand "carol" 0 None; cand "bob" 1 (Some 0); cand "alice" 1 (Some (10000000000 - 3600000000));
   cand "dave" 2 (Some 9999999999)].

Lemma ranking_exact_witness :
  rank_overdue_candidates demo_candidates 10000000000
    ≡ₚ filter (fun c => due 10000000000 c = true) demo_candidates
  /\ StronglySorted served_before (rank_overdue_candidates demo_candidates 10000000000).
Proof.
  apply (ranking_exact demo_candidates 10000000000).
  repeat apply Forall_cons_2; try apply Forall_nil_2; by vm_compute.
Defined.

Example ranking_example :
  cand_pubkey <$> rank_overdue_candidates demo_candidates 10000000000 = ["bob"; "alice"; "carol"].
Proof. by vm_compute. Qed.

Lemma fair_share_witness :
  exists counts, fill_slots 7 [0; 1; 2] [] = Ok counts
  /\ sum ((fun p => admitted p counts) <$> [0; 1; 2]) = 7
  /\ forall p, p ∈ [0; 1; 2] ->
       let W := sum ((fun q => q + 1) <$> [0; 1; 2]) in
       let share := (7 * (p + 1) # Z.to_pos W)%Q in
       let slack := (1025 # 1024)%Q in
       (inject_Z (admitted p counts) <= share + slack)%Q
       /\ (share - slack * inject_Z (3 - 1) <= inject_Z (admitted p counts))%Q.
Proof.
  apply (fair_share 7 [0; 1; 2]); [by repeat constructor; set_solver|done| |done].
  intros p Hp. set_solver by lia.
Defined.

Lemma create_queues_run_witness :
  resolves "alice" DEFAULT demo_params empty_pipe
  /\ exists i, (run_act (create_brainstorm_request (E := demo_pipe) "graperank" "alice" "alice" false false false MANUAL)
                 empty_pipe).1 = Ok i /\ inst_private_id i = 1.
Proof.
  assert (H : resolves "alice" DEFAULT demo_params empty_pipe) by by vm_compute.
  split; [exact H|].
  pose proof (create_queues_run (E := demo_pipe) "graperank" "alice" "alice" false false false MANUAL
                DEFAULT demo_params empty_pipe H) as (_ & _ & i & Hr & Hi & _).
  exists i. rewrite Hr. by split.
Defined.

(** Two overdue users, one of whom follows nobody. *)
Definition two_users : Pipe :=
  {| clock := 1000000000000; requests := ∅; next_id := 1;
     observers := {["alice" := new_observer; "loner" := new_observer]};
     policies := {[1 := demo_policy]}; whitelists := ∅; presets := {["DEFAULT" := demo_params]};
     preset_history := []; graph := ∅; lanes := ∅; relay := ∅; admitted_counts := [] |}.

Lemma two_users_ready :
  Forall (ready (E := demo_pipe) two_users)
    (rank_overdue_candidates (load_scheduler_candidates_on_db "platform" demo_policy two_users) (clock two_users)).
Proof.
  vm_compute rank_overdue_candidates.
  repeat apply Forall_cons_2; try apply Forall_nil_2; (split; [done|]); exists DEFAULT, demo_params; by vm_compute.
Qed.


Example cycle_example :
  let '(_, s) := run_act (run_cycle (E := demo_pipe)) two_users in
  run_pubkey <$> requests s !! 1 = Some (Some "alice") /\ length (default [] (lanes s !! "sched:0")) = 1%nat.
Proof. vm_compute. done. Qed.

(** A policy of priority -1 alone: the cycle divides by the sum of the weights, which is
    zero, and nobody is admitted. *)
Definition below_zero : Policy := {|
  policy_name := "free"; schedule_interval_seconds := 86400; priority := -1; enabled := true;
  manual_quota_limit := 1; manual_quota_window_seconds := 604800; is_default := true |}.
Definition negative_lane : Pipe :=
  {| clock := clock two_users; requests := ∅; next_id := 1; observers := observers two_users;
     policies := {[1 := below_zero]}; whitelists := ∅; presets := presets two_users;
     preset_history := []; graph := ∅; lanes := ∅; relay := ∅; admitted_counts := [] |}.

Example negative_lane_admits_nobody :
  run_act (run_cycle (E := demo_pipe)) negative_lane = (Raise (OtherException "ZeroDivisionError"), negative_lane).
Proof. by vm_compute. Qed.

Lemma cycle_respects_target_witness :
  exists s', run_act (run_cycle (E := demo_pipe)) two_users = (Ok tt, s')
    /\ count_scheduled_publishing_inflight_on_db s' <= 2.
Proof.
  destruct (cycle_respects_target (E := demo_pipe) two_users demo_policy) as (s' & Hrun & Hc & _);
    [reflexivity|intros _; vm_compute; repeat constructor; done|exact two_users_ready|].
  exists s'. split; [exact Hrun|exact Hc].
Defined.
