(* ===== verification/RelayPublisher.v ===== *)
(** * Publishing a stream of signed events to one relay
      ([src/app/message_queue_tasks/relay_publisher.py])

    The publisher is a producer, a few workers each with at most one connection,
    a sender and a reader per connection, and timers for retries, all tasks of one
    event loop: nothing runs between two awaits of a task.  [pub_step] is one such
    stretch of one task, in any order the loop may take; the relay, the network and
    the event source decide what it gets.  [acked_ids] and [failed_ids] record for
    which events the relay answered [true] and which used up their attempts; the
    code keeps their numbers only. *)

From Stdlib Require Import Ascii String.
From S2P Require Import Prelude Json.
From stdpp Require Import list.
Local Open Scope string_scope.
Local Open Scope Z_scope.

Record PublishConfig := {
  connections : nat;
  max_in_flight : Z;
  max_outstanding : Z;
  max_event_attempts : Z;
  max_connect_attempts : Z;
}.

Definition default_config : PublishConfig := {|
  connections := 4; max_in_flight := 2000; max_outstanding := 10000;
  max_event_attempts := 5; max_connect_attempts := 5 |}.

Record Item := { item_id : string; frame : string; attempts : Z }.

Record SignedEvent := { event_id : string; event_json : string }.

Definition quote_chr : string := String (ascii_of_N 34) "".
Definition event_item (e : SignedEvent) : Item := {|
  item_id := event_id e;
  frame := "[" ++ quote_chr ++ "EVENT" ++ quote_chr ++ "," ++ event_json e ++ "]";
  attempts := 0 |}.

(** One connection: its unacknowledged events, the permits of its semaphore,
    whether the sender holds one while it waits for an event, and whether the relay
    has answered about an event. *)
Record Conn := {
  pending : list (string * Item);
  in_flight : Z;
  holding : bool;
  progress : bool;
}.

Definition new_conn (cfg : PublishConfig) : Conn :=
  {| pending := []; in_flight := max_in_flight cfg; holding := false; progress := false |}.

(** Where a worker is: at the head of its loop, opening a connection, on one,
    closing it, or gone. *)
Inductive Worker :=
  | AtHead (failures : Z)
  | Opening (failures : Z)
  | Running (failures : Z) (c : Conn)
  | Closing (failures : Z) (progressed : bool)
  | Stopped.

Record Pub := {
  source : list SignedEvent;
  todo : list (option Item);
  outstanding : Z;
  later : list Item;
  workers : list Worker;
  done : bool;
  produced_all : bool;
  source_failed : bool;
  n_resolved : Z;
  dead_workers : nat;
  (* [PublishStats]. *)
  n_events : Z;
  n_acked : Z;
  n_retried : Z;
  n_reconnects : Z;
  aborted : bool;
  rejected : list (string * Z);
  failure_samples : list string;
  (* History. *)
  acked_ids : list string;
  failed_ids : list string;
}.

(** ** Setters *)

Definition with_queue (s : Pub) (t : list (option Item)) (l : list Item) (ws : list Worker) : Pub :=
  {| source := source s; todo := t; outstanding := outstanding s; later := l; workers := ws;
     done := done s; produced_all := produced_all s; source_failed := source_failed s;
     n_resolved := n_resolved s; dead_workers := dead_workers s; n_events := n_events s;
     n_acked := n_acked s; n_retried := n_retried s; n_reconnects := n_reconnects s;
     aborted := aborted s; rejected := rejected s; failure_samples := failure_samples s;
     acked_ids := acked_ids s; failed_ids := failed_ids s |}.
Definition with_worker (s : Pub) (i : nat) (w : Worker) : Pub :=
  with_queue s (todo s) (later s) (<[i := w]> (workers s)).
Definition with_done (s : Pub) (d p f : bool) (t : list (option Item)) : Pub :=
  {| source := source s; todo := t; outstanding := outstanding s; later := later s;
     workers := workers s; done := d; produced_all := p; source_failed := f;
     n_resolved := n_resolved s; dead_workers := dead_workers s; n_events := n_events s;
     n_acked := n_acked s; n_retried := n_retried s; n_reconnects := n_reconnects s;
     aborted := aborted s; rejected := rejected s; failure_samples := failure_samples s;
     acked_ids := acked_ids s; failed_ids := failed_ids s |}.
Definition with_abort (s : Pub) (dead : nat) (reconnects : Z) (a : bool) : Pub :=
  {| source := source s; todo := todo s; outstanding := outstanding s; later := later s;
     workers := workers s; done := done s; produced_all := produced_all s;
     source_failed := source_failed s; n_resolved := n_resolved s; dead_workers := dead;
     n_events := n_events s; n_acked := n_acked s; n_retried := n_retried s;
     n_reconnects := reconnects; aborted := a; rejected := rejected s;
     failure_samples := failure_samples s; acked_ids := acked_ids s; failed_ids := failed_ids s |}.
Definition with_answer (s : Pub) (resolved acked retried : Z) (rej : list (string * Z))
  (samples ok bad : list string) : Pub :=
  {| source := source s; todo := todo s; outstanding := outstanding s; later := later s;
     workers := workers s; done := done s; produced_all := produced_all s;
     source_failed := source_failed s; n_resolved := resolved; dead_workers := dead_workers s;
     n_events := n_events s; n_acked := acked; n_retried := retried;
     n_reconnects := n_reconnects s; aborted := aborted s; rejected := rej;
     failure_samples := samples; acked_ids := ok; failed_ids := bad |}.
Definition with_permits (s : Pub) (n : Z) : Pub :=
  {| source := source s; todo := todo s; outstanding := n; later := later s; workers := workers s;
     done := done s; produced_all := produced_all s; source_failed := source_failed s;
     n_resolved := n_resolved s; dead_workers := dead_workers s; n_events := n_events s;
     n_acked := n_acked s; n_retried := n_retried s; n_reconnects := n_reconnects s;
     aborted := aborted s; rejected := rejected s; failure_samples := failure_samples s;
     acked_ids := acked_ids s; failed_ids := failed_ids s |}.
Definition with_produced (s : Pub) (rest : list SignedEvent) (n : Z) (t : list (option Item)) : Pub :=
  {| source := rest; todo := t; outstanding := outstanding s; later := later s; workers := workers s;
     done := done s; produced_all := produced_all s; source_failed := source_failed s;
     n_resolved := n_resolved s; dead_workers := dead_workers s; n_events := n;
     n_acked := n_acked s; n_retried := n_retried s; n_reconnects := n_reconnects s;
     aborted := aborted s; rejected := rejected s; failure_samples := failure_samples s;
     acked_ids := acked_ids s; failed_ids := failed_ids s |}.

Section publisher.
Context (cfg : PublishConfig).

Definition start (events : list SignedEvent) : Pub := {|
  source := events; todo := []; outstanding := max_outstanding cfg; later := [];
  workers := replicate (connections cfg) (AtHead 0); done := false; produced_all := false;
  source_failed := false; n_resolved := 0; dead_workers := 0; n_events := 0; n_acked := 0;
  n_retried := 0; n_reconnects := 0; aborted := false; rejected := []; failure_samples := [];
  acked_ids := []; failed_ids := [] |}.

(** ** Finishing *)

Definition finish (s : Pub) : Pub :=
  if done s then s
  else with_done s true (produced_all s) (source_failed s) (todo s ++ replicate (connections cfg) None).

Definition check_done (s : Pub) : Pub :=
  if produced_all s && (n_resolved s =? n_events s) then finish s else s.

(** [_resolve]; the counters of the answer are set with it. *)
Definition release_and_check (s : Pub) : Pub := check_done (with_permits s (outstanding s + 1)).

(** ** The producer *)

Definition produce_one (s : Pub) : option Pub :=
  match source s with
  | e :: rest =>
      if produced_all s || source_failed s || (outstanding s <=? 0) then None
      else Some (with_produced (with_permits s (outstanding s - 1)) rest (n_events s + 1)
                   (todo s ++ [Some (event_item e)]))
  | [] => None
  end.

Definition produce_end (s : Pub) : option Pub :=
  match source s with
  | [] => if produced_all s || source_failed s then None
          else Some (check_done (with_done s (done s) true (source_failed s) (todo s)))
  | _ => None
  end.

Definition produce_raises (s : Pub) : option Pub :=
  if produced_all s || source_failed s then None
  else Some (with_done s true (produced_all s) true (todo s)).

(** ** A worker *)

Definition requeue (c : Conn) (s : Pub) : Pub :=
  with_queue s (todo s ++ (Some <$> (pending c).*2)) (later s) (workers s).

(** The head of the loop. *)
Definition worker_head (i : nat) (s : Pub) : option Pub :=
  match workers s !! i with
  | Some (AtHead f) => Some (with_worker s i (if done s then Stopped else Opening f))
  | _ => None
  end.

Definition connect (i : nat) (ok : bool) (s : Pub) : option Pub :=
  match workers s !! i with
  | Some (Opening f) =>
      Some (with_worker s i (if ok then Running f (new_conn cfg) else Closing f false))
  | _ => None
  end.

(** The connection is over, whatever ended it: unacknowledged events are queued
    again before it is closed. *)
Definition connection_over (i : nat) (s : Pub) : option Pub :=
  match workers s !! i with
  | Some (Running f c) => Some (with_worker (requeue c s) i (Closing f (progress c)))
  | _ => None
  end.

(** After the close: stop, give up or go round again. *)
Definition connection_closed (i : nat) (s : Pub) : option Pub :=
  match workers s !! i with
  | Some (Closing f progressed) =>
      if done s then Some (with_worker s i Stopped)
      else
        let failures := if progressed : bool then 0 else f + 1 in
        if max_connect_attempts cfg <=? failures then
          let s1 := with_worker (with_abort s (S (dead_workers s)) (n_reconnects s) (aborted s)) i Stopped in
          Some (if (dead_workers s1 =? connections cfg)%nat
                then finish (with_abort s1 (dead_workers s1) (n_reconnects s1) true) else s1)
        else Some (with_worker (with_abort s (dead_workers s) (n_reconnects s + 1) (aborted s)) i (AtHead failures))
  | _ => None
  end.

(** *** The sender *)

Definition send_acquire (i : nat) (s : Pub) : option Pub :=
  match workers s !! i with
  | Some (Running f c) =>
      if holding c || (in_flight c <=? 0) then None
      else Some (with_worker s i (Running f
             {| pending := pending c; in_flight := in_flight c - 1; holding := true; progress := progress c |}))
  | _ => None
  end.

(** A [None] ends the sender, and with it the connection. *)
Definition send_next (i : nat) (s : Pub) : option Pub :=
  match workers s !! i with
  | Some (Running f c) =>
      if holding c then
        match todo s with
        | [] => None
        | None :: t => connection_over i (with_queue s t (later s) (workers s))
        | Some it :: t =>
            Some (with_worker (with_queue s t (later s) (workers s)) i (Running f
                    {| pending := dict_set (item_id it) it (pending c); in_flight := in_flight c;
                       holding := false; progress := progress c |}))
        end
      else None
  | _ => None
  end.

(** *** The reader *)

Definition reject_reason (message : string) : string :=
  match py_partition ":"%char message with
  | Some (p, _) => if String.eqb (py_strip p) "" then "unknown" else py_strip p
  | None => "unknown"
  end.

(** An answer about an event that is waiting for one. *)
Definition answered (i : nat) (f : Z) (c : Conn) (it : Item) (ok : json) (extra : list json) (s : Pub) : Pub :=
  let c' := {| pending := dict_pop (item_id it) (pending c); in_flight := in_flight c + 1;
               holding := holding c; progress := true |} in
  let s1 := with_worker s i (Running f c') in
  match ok with
  | JBool true =>
      release_and_check (with_answer s1 (n_resolved s1 + 1) (n_acked s1 + 1) (n_retried s1) (rejected s1)
                           (failure_samples s1) (item_id it :: acked_ids s1) (failed_ids s1))
  | _ =>
      let reason := match extra with r :: _ => py_str r | [] => "" end in
      let rej := dict_set (reject_reason reason) (default 0 (dict_get (reject_reason reason) (rejected s1)) + 1)
                   (rejected s1) in
      let it' := {| item_id := item_id it; frame := frame it; attempts := attempts it + 1 |} in
      if max_event_attempts cfg <=? attempts it' then
        let samples := if (length (failure_samples s1) <? 5)%nat
                       then (failure_samples s1 ++ [(item_id it ++ ": " ++ reason)%string])%list else failure_samples s1 in
        release_and_check (with_answer s1 (n_resolved s1 + 1) (n_acked s1) (n_retried s1) rej samples
                             (acked_ids s1) (item_id it :: failed_ids s1))
      else
        let s2 := with_answer s1 (n_resolved s1) (n_acked s1) (n_retried s1 + 1) rej (failure_samples s1)
                    (acked_ids s1) (failed_ids s1) in
        with_queue s2 (todo s2) (it' :: later s2) (workers s2)
  end.

(** A frame; [None] when it is not JSON. *)
Definition read_frame (i : nat) (raw : option json) (s : Pub) : option Pub :=
  match workers s !! i with
  | Some (Running f c) =>
      match raw with
      | Some (JList (kind :: id :: ok :: extra)) =>
          if json_is_str kind "OK" then
            if negb (hashable id) then connection_over i s
            else match id with
                 | JStr k => match dict_get k (pending c) with
                             | Some it => Some (answered i f c it ok extra s)
                             | None => Some s
                             end
                 | _ => Some s
                 end
          else Some s
      | _ => Some s
      end
  | _ => None
  end.

(** The timer of a retry. *)
Definition timer_fires (n : nat) (s : Pub) : option Pub :=
  it ← later s !! n;
  Some (with_queue s (todo s ++ [Some it]) (delete n (later s)) (workers s)).

(** ** The event loop *)

Inductive pub_step (s s' : Pub) : Prop :=
  | p_produce : produce_one s = Some s' -> pub_step s s'
  | p_end : produce_end s = Some s' -> pub_step s s'
  | p_raises : produce_raises s = Some s' -> pub_step s s'
  | p_head i : worker_head i s = Some s' -> pub_step s s'
  | p_connect i ok : connect i ok s = Some s' -> pub_step s s'
  | p_over i : connection_over i s = Some s' -> pub_step s s'
  | p_closed i : connection_closed i s = Some s' -> pub_step s s'
  | p_acquire i : send_acquire i s = Some s' -> pub_step s s'
  | p_next i : send_next i s = Some s' -> pub_step s s'
  | p_read i raw : read_frame i raw s = Some s' -> pub_step s s'
  | p_timer n : timer_fires n s = Some s' -> pub_step s s'.

(** What [publish_events] returns once [done] is set: the statistics, or the
    source's exception. *)
Definition n_unacked (s : Pub) : Z := n_events s - n_acked s.
Definition complete (s : Pub) : Prop :=
  done s = true /\ source_failed s = false /\ aborted s = false /\ n_unacked s = 0.

End publisher.
