(* ===== verification/RelayProps.v ===== *)
(** * What the relay publisher guarantees

    Whatever the relay answers, connections drop and tasks interleave: no event is
    lost or counted twice, a complete report means every event was acknowledged,
    memory is bounded, and the publisher can always finish. *)

From Stdlib Require Import Ascii String.
From S2P Require Import Prelude Json RelayPublisher.
From stdpp Require Import gmultiset list.
Local Open Scope string_scope.
Local Open Scope Z_scope.

(** ** Where an event is *)

Definition held (w : Worker) : list Item :=
  match w with Running _ c => (pending c).*2 | _ => [] end.

Definition ids (l : list Item) : gmultiset string := list_to_set_disj (item_id <$> l).
Definition queued (s : Pub) : list Item := omap id (todo s).
Definition flying (ws : list Worker) : list Item := mjoin (held <$> ws).
Definition live (s : Pub) : list Item := (queued s ++ flying (workers s) ++ later s)%list.

(** Every event is in one place: still at the source, queued, in flight, waiting
    for its retry, acknowledged or given up. *)
Definition balance (s : Pub) : gmultiset string :=
  ids (live s) ⊎ list_to_set_disj (acked_ids s) ⊎ list_to_set_disj (failed_ids s)
  ⊎ list_to_set_disj (event_id <$> source s).

Lemma ids_app l1 l2 : ids (l1 ++ l2) = ids l1 ⊎ ids l2.
Proof. unfold ids. by rewrite fmap_app, list_to_set_disj_app. Qed.
Lemma ids_cons it l : ids (it :: l) = {[+ item_id it +]} ⊎ ids l.
Proof. done. Qed.
Lemma ids_perm l1 l2 : l1 ≡ₚ l2 -> ids l1 = ids l2.
Proof. intros H. unfold ids. by rewrite H. Qed.
Lemma ids_nil : ids [] = ∅.
Proof. done. Qed.

Lemma delete_after_insert {A} (l : list A) i x : delete i (<[i := x]> l) = delete i l.
Proof. revert i. induction l as [|y l IH]; intros [|i]; [done..|]. simpl. f_equal. apply IH. Qed.

Lemma flying_split ws i w :
  ws !! i = Some w ->
  flying ws ≡ₚ (held w ++ flying (delete i ws))%list
  /\ forall w', flying (<[i := w']> ws) ≡ₚ (held w' ++ flying (delete i ws))%list.
Proof.
  intros Hi. unfold flying. split.
  - rewrite (delete_Permutation ws i w Hi) at 1. done.
  - intros w'. assert (Hi' : <[i := w']> ws !! i = Some w').
    { apply list_lookup_insert_eq. by eapply lookup_lt_Some. }
    rewrite (delete_Permutation _ _ _ Hi') at 1. simpl. by rewrite delete_after_insert.
Qed.

Lemma omap_id_Some {A} (l : list A) : omap id (Some <$> l) = l.
Proof. induction l as [|x l IH]; [done|]. cbn. f_equal. exact IH. Qed.

(** ** One connection *)

(** [exact] is that no two events of the stream share an id; otherwise a connection
    keeps one of two such events and a permit is lost with the other. *)
Section conn.
Context (cfg : PublishConfig) (exact : Prop).

Record conn_ok (c : Conn) : Prop := {
  conn_keys : forall k it, (k, it) ∈ pending c -> k = item_id it;
  conn_nodup : NoDup (pending c).*1;
  conn_permits : in_flight c + Z.of_nat (length (pending c)) + Z.b2z (holding c) <= max_in_flight cfg;
  conn_exact : exact -> in_flight c + Z.of_nat (length (pending c)) + Z.b2z (holding c) = max_in_flight cfg;
  conn_bound : 0 <= in_flight c;
}.

Lemma new_conn_ok : 0 <= max_in_flight cfg -> conn_ok (new_conn cfg).
Proof using. intros H. split; simpl; [by intros k it ?%elem_of_nil|constructor|lia|lia|lia]. Qed.
End conn.

Lemma dict_set_fresh {V} (k : string) (v : V) d : k ∉ d.*1 -> dict_set k v d = (d ++ [(k, v)])%list.
Proof.
  induction d as [|[k' v'] d IH]; [done|]. simpl. rewrite not_elem_of_cons. intros [Hne Hd].
  rewrite decide_False by done. by rewrite IH.
Qed.

(** Setting a key replaces at most one value. *)
Lemma dict_set_sub {V} (k : string) (v : V) d :
  (dict_set k v d).*2 ⊆+ v :: d.*2 /\ (NoDup d.*1 -> NoDup (dict_set k v d).*1)
  /\ forall kv, kv ∈ dict_set k v d -> kv = (k, v) \/ kv ∈ d.
Proof.
  assert (Hkeys : forall d x, x ∈ (dict_set k v d).*1 -> x = k \/ x ∈ d.*1).
  { clear. intros d x. induction d as [|[k' v'] d IH]; simpl; [set_solver|].
    case_decide; simpl; set_solver. }
  induction d as [|[k' v'] d (IH1 & IH2 & IH3)]; simpl; [split; [done|]; split; [intros; apply NoDup_singleton|set_solver]|].
  case_decide as Hk; simpl.
  - subst k'. split; [apply submseteq_skip, submseteq_cons; done|]. split; [done|set_solver].
  - split; [rewrite (submseteq_skip v' _ _ IH1); apply Permutation_submseteq, Permutation_swap|].
    split; [|set_solver]. intros [Hn Hnd]%NoDup_cons. constructor; [|by apply IH2].
    intros [->|Hin]%Hkeys; done.
Qed.

Lemma dict_pop_split {V} (k : string) (v : V) d :
  NoDup d.*1 -> dict_get k d = Some v ->
  d ≡ₚ (k, v) :: dict_pop k d /\ NoDup (dict_pop k d).*1 /\ forall kv, kv ∈ dict_pop k d -> kv ∈ d.
Proof.
  unfold dict_pop. intros Hnd Hk. split; [|split].
  - induction d as [|[k' v'] d IH]; [done|]. simpl in *. apply NoDup_cons in Hnd as [Hn Hnd].
    rewrite filter_cons. simpl. destruct (decide (k = k')) as [<-|Hne].
    + injection Hk as ->. rewrite decide_False by naive_solver. f_equiv.
      clear IH Hnd. induction d as [|[k1 v1] d IHd]; [done|]. simpl in Hn. apply not_elem_of_cons in Hn as [H1 H2].
      rewrite filter_cons_True by (simpl; congruence). f_equiv. by apply IHd.
    + rewrite decide_True by done. rewrite (IH Hnd Hk) at 1. apply Permutation_swap.
  - eapply sublist_NoDup; [exact Hnd|]. apply fmap_sublist, sublist_filter.
  - intros kv Hkv. by apply list_elem_of_filter in Hkv as [_ ?].
Qed.

Lemma ms_nodup (l : list string) x :
  NoDup l -> (multiplicity x (list_to_set_disj (C := gmultiset string) l) <= 1)%nat.
Proof.
  induction 1 as [|y l Hy _ IH]; [simpl; rewrite multiplicity_empty; lia|].
  rewrite list_to_set_disj_cons, multiplicity_disj_union, multiplicity_singleton.
  destruct (decide (x = y)) as [->|Hne]; [|lia].
  assert (Hn : y ∉ list_to_set_disj (C := gmultiset string) l) by by rewrite elem_of_list_to_set_disj.
  apply not_elem_of_multiplicity in Hn. lia.
Qed.

Lemma elements_ms (l : list string) :
  elements (list_to_set_disj (C := gmultiset string) l) ≡ₚ l.
Proof.
  induction l as [|x l IH]; [done|]. rewrite list_to_set_disj_cons, gmultiset_elements_disj_union,
    gmultiset_elements_singleton, IH. done.
Qed.

(** An event settled. *)
Lemma ms_settle (X L A F A' F' S : gmultiset string) :
  A' ⊎ F' = X ⊎ A ⊎ F -> L ⊎ A' ⊎ F' ⊎ S = (X ⊎ L) ⊎ A ⊎ F ⊎ S.
Proof.
  intros E. rewrite <- (gmultiset_disj_union_assoc L A' F'), E. multiset_solver.
Qed.
Lemma ms_settle_failed (x : string) (A F : gmultiset string) : A ⊎ ({[+ x +]} ⊎ F) = {[+ x +]} ⊎ A ⊎ F.
Proof. multiset_solver. Qed.

Lemma size_ms (l : list string) : size (list_to_set_disj (C := gmultiset string) l) = length l.
Proof. unfold size, gmultiset_size. simpl. by rewrite elements_ms. Qed.

Lemma ids_submseteq l1 l2 : l1 ⊆+ l2 -> ids l1 ⊆ ids l2.
Proof.
  intros [l Hl]%submseteq_Permutation. rewrite (ids_perm _ _ Hl), ids_app. multiset_solver.
Qed.

Lemma ms_subseteq_eq (X Y : gmultiset string) : X ⊆ Y -> (size Y <= size X)%nat -> X = Y.
Proof.
  intros Hs Hn. pose proof (gmultiset_size_difference _ _ Hs) as Hd.
  assert (E : Y ∖ X = ∅) by (apply gmultiset_size_empty_inv; lia).
  rewrite (gmultiset_disj_union_difference X Y Hs), E. multiset_solver.
Qed.

(** ** The invariant *)

Section invariant.
Context (cfg : PublishConfig) (events : list SignedEvent).
Context (permits : 0 <= max_in_flight cfg).

Definition exact : Prop := NoDup (event_id <$> events).

(** Nothing but the stream's events, and all of them. *)
Definition accounts (X : gmultiset string) : Prop :=
  X ⊆ list_to_set_disj (event_id <$> events) /\ (exact -> X = list_to_set_disj (event_id <$> events)).

Record inv (s : Pub) : Prop := {
  inv_balance : accounts (balance s);
  inv_acked : n_acked s = Z.of_nat (length (acked_ids s));
  inv_resolved : n_resolved s = Z.of_nat (length (acked_ids s)) + Z.of_nat (length (failed_ids s));
  inv_events : n_events s + Z.of_nat (length (source s)) = Z.of_nat (length events);
  inv_permits : outstanding s = max_outstanding cfg - (n_events s - n_resolved s) /\ 0 <= outstanding s;
  inv_conns : forall i f c, workers s !! i = Some (Running f c) -> conn_ok cfg exact c;
  inv_attempts : Forall (fun it => attempts it < Z.max 1 (max_event_attempts cfg)) (live s);
  inv_source : produced_all s = true -> source s = [];
  inv_done : done s = true ->
    source_failed s = true \/ aborted s = true \/ produced_all s = true /\ n_resolved s = n_events s;
  inv_sentinels : None ∈ todo s -> done s = true;
}.

(** The number of live events is the number unresolved. *)
Lemma inv_live s :
  inv s -> Z.of_nat (length (live s)) <= n_events s - n_resolved s
           /\ (exact -> Z.of_nat (length (live s)) = n_events s - n_resolved s).
Proof using.
  intros H. pose proof (inv_resolved s H) as Hr. pose proof (inv_events s H) as He.
  assert (E : (size (balance s) = length (live s) + length (acked_ids s) + length (failed_ids s) + length (source s))%nat).
  { unfold balance, ids. by rewrite !gmultiset_size_disj_union, !size_ms, !length_fmap. }
  destruct (inv_balance s H) as [Hsub Hex]. split.
  - apply gmultiset_subseteq_size in Hsub. rewrite E, size_ms, length_fmap in Hsub. lia.
  - intros Hx. specialize (Hex Hx). apply (f_equal size) in Hex. rewrite E, size_ms, length_fmap in Hex. lia.
Qed.

(** A step that only moves events about. *)
Definition same_counts (s s' : Pub) : Prop :=
  acked_ids s' = acked_ids s /\ failed_ids s' = failed_ids s /\ source s' = source s
  /\ n_acked s' = n_acked s /\ n_resolved s' = n_resolved s /\ n_events s' = n_events s
  /\ outstanding s' = outstanding s /\ produced_all s' = produced_all s
  /\ source_failed s' = source_failed s /\ aborted s' = aborted s /\ done s' = done s.

Lemma inv_moves_sub s s' :
  inv s -> live s' ⊆+ live s -> (exact -> live s' ≡ₚ live s) -> same_counts s s' ->
  (forall i f c, workers s' !! i = Some (Running f c) -> conn_ok cfg exact c) ->
  (None ∈ todo s' -> None ∈ todo s) -> inv s'.
Proof using.
  intros H Hl Hx (E1 & E2 & E3 & E4 & E5 & E6 & E7 & E8 & E9 & E10 & E11) Hc Hn. destruct H.
  split; rewrite ?E1, ?E2, ?E3, ?E4, ?E5, ?E6, ?E7, ?E8, ?E9, ?E10, ?E11; auto.
  - destruct inv_balance0 as [B1 B2]. unfold balance in *. rewrite E1, E2, E3. split.
    + etrans; [|exact B1]. do 3 apply gmultiset_disj_union_mono_r. by apply ids_submseteq.
    + intros Hex. by rewrite <- B2, (ids_perm _ _ (Hx Hex)) by done.
  - apply submseteq_Permutation in Hl as [l Hl]. rewrite Hl in inv_attempts0. by apply Forall_app in inv_attempts0 as [? _].
Qed.

Lemma inv_moves s s' :
  inv s -> live s' ≡ₚ live s -> same_counts s s' ->
  (forall i f c, workers s' !! i = Some (Running f c) -> conn_ok cfg exact c) ->
  (None ∈ todo s' -> None ∈ todo s) -> inv s'.
Proof using. intros H Hl. apply inv_moves_sub; [done|by rewrite Hl|done]. Qed.

(** A worker moves on, its events with it. *)
Lemma inv_worker s i w w' :
  inv s -> workers s !! i = Some w -> held w' ≡ₚ held w ->
  (forall f c, w' = Running f c -> conn_ok cfg exact c) -> inv (with_worker s i w').
Proof using.
  intros H Hi Hh Hc. apply (inv_moves s); simpl; auto.
  - unfold live, queued. simpl. destruct (flying_split _ _ _ Hi) as [F1 F2]. by rewrite (F2 w'), Hh, <- F1.
  - done.
  - intros j f c [(_ & Ew & _)|[_ Hj]]%list_lookup_insert_Some; [by eapply Hc|by eapply inv_conns].
Qed.

Lemma inv_head i s s' : inv s -> worker_head i s = Some s' -> inv s'.
Proof using.
  unfold worker_head. intros H. destruct (workers s !! i) as [[f| | | |]|] eqn:Hi; [|done..].
  intros [= <-]. eapply inv_worker; [done..| |]; by destruct (done s).
Qed.

Lemma inv_connect i ok s s' : inv s -> connect cfg i ok s = Some s' -> inv s'.
Proof using permits.
  unfold connect. intros H. destruct (workers s !! i) as [[|f| | |]|] eqn:Hi; [done| |done..].
  intros [= <-]. eapply inv_worker; [done..| |]; destruct ok; try done.
  intros f' c [= -> <-]. by apply new_conn_ok.
Qed.

Lemma inv_over i s s' : inv s -> connection_over i s = Some s' -> inv s'.
Proof using.
  unfold connection_over. intros H. destruct (workers s !! i) as [[| |f c| |]|] eqn:Hi; [done..| |done|done|done].
  intros [= <-]. apply (inv_moves s); simpl; auto.
  - unfold live, queued. simpl. destruct (flying_split _ _ _ Hi) as [F1 F2].
    rewrite F1, (F2 (Closing f (progress c))). simpl. rewrite omap_app, <- !app_assoc. f_equiv.
    by rewrite omap_id_Some.
  - done.
  - intros j f' c' [(_ & ? & _)|[_ Hj]]%list_lookup_insert_Some; [done|by eapply inv_conns].
  - intros [Hn|Hn]%elem_of_app; [done|]. by apply list_elem_of_fmap in Hn as (? & ? & ?).
Qed.

Lemma inv_finish s :
  inv s -> source_failed s = true \/ aborted s = true \/ produced_all s = true /\ n_resolved s = n_events s ->
  inv (finish cfg s).
Proof using.
  intros H Hr. unfold finish. destruct (done s) eqn:Hd; [done|].
  assert (Hq : live (with_done s true (produced_all s) (source_failed s) (todo s ++ replicate (connections cfg) None))
               = live s).
  { unfold live, queued. simpl. rewrite omap_app.
    replace (omap id (replicate (connections cfg) None)) with (@nil Item); [by rewrite app_nil_r|].
    induction (connections cfg); done. }
  destruct H. split; simpl; auto; [|by rewrite Hq].
  unfold balance in *. by rewrite Hq.
Qed.

Lemma inv_check_done s : inv s -> inv (check_done cfg s).
Proof using.
  intros H. unfold check_done. destruct (produced_all s) eqn:Hp; [|done]. simpl.
  destruct (Z.eqb_spec (n_resolved s) (n_events s)); [|done]. apply inv_finish; auto.
Qed.

Lemma inv_closed i s s' : inv s -> connection_closed cfg i s = Some s' -> inv s'.
Proof using.
  unfold connection_closed. intros H. destruct (workers s !! i) as [[| | |f pr|]|] eqn:Hi; [done..| |done|done].
  assert (Hab : forall d n, inv (with_abort s d n (aborted s))).
  { intros d n. apply (inv_moves s); [done|done|done|exact (inv_conns s H)|done]. }
  destruct (done s) eqn:Hd; [intros [= <-]; by eapply inv_worker|].
  destruct (_ <=? _); cycle 1.
  { intros [= <-]. eapply inv_worker; [apply Hab|exact Hi|done|done]. }
  intros [= <-]. set (s1 := with_worker _ i Stopped).
  assert (H1 : inv s1) by (eapply inv_worker; [apply Hab|exact Hi|done|done]).
  match goal with |- inv (if ?b then _ else _) => destruct b end; [|done]. apply inv_finish; [|by right; left].
  destruct H1. split; auto.
Qed.
Lemma inv_acquire i s s' : inv s -> send_acquire i s = Some s' -> inv s'.
Proof using.
  unfold send_acquire. intros H. destruct (workers s !! i) as [[| |f c| |]|] eqn:Hi; [done..| |done|done|done].
  destruct (holding c) eqn:Hh; [done|]. simpl. destruct (Z.leb_spec (in_flight c) 0); [done|].
  intros [= <-]. eapply inv_worker; [done..|]. intros f' c' [= -> <-].
  destruct (inv_conns s H i _ _ Hi) as [K N P X B]. rewrite Hh in P, X.
  split; simpl in *; auto; try lia. intros Hx. specialize (X Hx). lia.
Qed.

(** No two events share an id, wherever they are. *)
Lemma queued_not_flying s it l i f c :
  inv s -> exact -> queued s ≡ₚ it :: l -> workers s !! i = Some (Running f c) -> item_id it ∉ (pending c).*1.
Proof using.
  intros H Hx Hq Hi ([k it'] & Hk & Hin)%list_elem_of_fmap. simpl in Hk. subst k.
  pose proof (conn_keys _ _ _ (inv_conns s H i f c Hi) _ _ Hin) as Hid.
  assert (Hf : exists l', flying (workers s) ≡ₚ it' :: l').
  { apply elem_of_Permutation. destruct (flying_split _ _ _ Hi) as [-> _].
    apply elem_of_app. left. simpl. apply list_elem_of_fmap. by exists (item_id it, it'). }
  destruct Hf as [l' Hf]. pose proof (ms_nodup (event_id <$> events) (item_id it') Hx) as Hm.
  rewrite <- (proj2 (inv_balance s H) Hx) in Hm. unfold balance, live in Hm.
  rewrite !ids_app, (ids_perm _ _ Hq), (ids_perm _ _ Hf), !ids_cons, Hid in Hm.
  rewrite !multiplicity_disj_union, multiplicity_singleton_eq in Hm. lia.
Qed.

Lemma inv_next i s s' : inv s -> send_next i s = Some s' -> inv s'.
Proof using.
  unfold send_next. intros H. destruct (workers s !! i) as [[| |f c| |]|] eqn:Hi; [done..| |done|done|done].
  destruct (holding c) eqn:Hh; [|done]. destruct (todo s) as [|[it|] t] eqn:Ht; [done| |].
  - intros [= <-].
    assert (Hfresh : exact -> item_id it ∉ (pending c).*1).
    { intros Hx. apply (queued_not_flying s it (omap id t) i f c); [done|done| |exact Hi]. unfold queued. by rewrite Ht. }
    destruct (dict_set_sub (item_id it) it (pending c)) as (D1 & D2 & D3).
    destruct (flying_split _ _ _ Hi) as [F1 F2].
    apply (inv_moves_sub s); simpl; auto.
    + unfold live, queued. rewrite Ht. simpl. rewrite F1, F2. simpl.
      etrans; [apply submseteq_app; [done|apply submseteq_app; [apply submseteq_app; [exact D1|done]|done]]|].
      simpl. by rewrite <- !Permutation_middle.
    + intros Hx. unfold live, queued. rewrite Ht. simpl. rewrite F1, F2. simpl.
      rewrite dict_set_fresh by auto. rewrite fmap_app. simpl.
      rewrite <- !app_assoc. simpl. rewrite <- !Permutation_middle. done.
    + done.
    + intros j f' c' [(_ & [= <- <-] & _)|[_ Hj]]%list_lookup_insert_Some; [|by eapply inv_conns].
      destruct (inv_conns s H i _ _ Hi) as [K N P X B]. rewrite Hh in P, X.
      apply submseteq_length in D1. simpl in D1. rewrite !length_fmap in D1.
      split; simpl in *; [| |lia| |lia].
      * intros k it' [[= -> ->]|Hin]%D3; [done|by apply K].
      * by apply D2.
      * intros Hx. rewrite dict_set_fresh, length_app by auto. specialize (X Hx). simpl. lia.
    + intros Hn. rewrite Ht. by constructor.
  - intros Hs. eapply inv_over; [|exact Hs]. apply (inv_moves s); simpl; auto.
    + unfold live, queued. by rewrite Ht.
    + done.
    + by apply inv_conns.
    + intros Hn. rewrite Ht. by constructor.
Qed.

Lemma inv_timer n s s' : inv s -> timer_fires n s = Some s' -> inv s'.
Proof using.
  unfold timer_fires. intros H. destruct (later s !! n) as [it|] eqn:Hn; [|done]. intros [= <-].
  apply (inv_moves s); simpl; auto.
  - unfold live, queued. simpl. rewrite omap_app. pose proof (delete_Permutation (later s) n it Hn) as Hl.
    set (l := delete n (later s)) in *. clearbody l. rewrite Hl. simpl.
    rewrite <- !app_assoc. simpl. by rewrite <- !Permutation_middle.
  - done.
  - by apply inv_conns.
  - intros [?|?%list_elem_of_singleton]%elem_of_app; done.
Qed.
Lemma pub_inv_produce s s' : inv s -> produce_one s = Some s' -> inv s'.
Proof using permits.
  unfold produce_one. intros H. destruct (source s) as [|e rest] eqn:Hs; [done|].
  destruct (produced_all s) eqn:Hp; [done|]. destruct (source_failed s) eqn:Hf; [done|]. simpl.
  destruct (Z.leb_spec (outstanding s) 0) as [|Ho]; [done|]. intros [= <-].
  set (s' := with_produced _ _ _ _).
  assert (Hl : live s' ≡ₚ event_item e :: live s).
  { unfold live, queued. simpl. rewrite omap_app. simpl. rewrite <- app_assoc. simpl. by rewrite <- Permutation_middle. }
  pose proof (inv_permits s H). pose proof (inv_events s H) as He. rewrite Hs in He. simpl in He.
  split; simpl; try apply H; try lia; [| | |intros Hd; pose proof (inv_done s H Hd); rewrite Hp, Hf in *; naive_solver|].
  - replace (balance s') with (balance s); [apply H|]. unfold balance. rewrite (ids_perm _ _ Hl), Hs. simpl.
    rewrite ids_cons. clear. simpl. multiset_solver.
  - rewrite Hl. constructor; [simpl; lia|apply H].
  - by rewrite Hp.
  - intros [Hn|Hn%list_elem_of_singleton]%elem_of_app; [by apply H|done].
Qed.

Lemma inv_produce_end s s' : inv s -> produce_end cfg s = Some s' -> inv s'.
Proof using permits.
  unfold produce_end. intros H. destruct (source s) eqn:Hs; [|done].
  destruct (produced_all s) eqn:Hp; [done|]. destruct (source_failed s) eqn:Hf; [done|]. simpl. intros [= <-].
  apply inv_check_done. split; simpl; try apply H; [done|].
  intros Hd. pose proof (inv_done s H Hd). rewrite Hp, Hf in *. naive_solver.
Qed.

Lemma inv_produce_raises s s' : inv s -> produce_raises s = Some s' -> inv s'.
Proof using permits.
  unfold produce_raises. intros H. destruct (produced_all s || source_failed s); [done|]. intros [= <-].
  split; simpl; try apply H; auto.
Qed.

(** The relay's answer takes the event off the connection. *)
Lemma answered_live i f c k it s :
  inv s -> workers s !! i = Some (Running f c) -> dict_get k (pending c) = Some it ->
  let c' := {| pending := dict_pop (item_id it) (pending c); in_flight := in_flight c + 1;
               holding := holding c; progress := true |} in
  k = item_id it /\ live s ≡ₚ it :: live (with_worker s i (Running f c'))
  /\ forall j f' c0, workers (with_worker s i (Running f c')) !! j = Some (Running f' c0) -> conn_ok cfg exact c0.
Proof using permits.
  intros H Hi Hk c'. pose proof (inv_conns s H i f c Hi) as [K N P X B].
  assert (k = item_id it) as -> by (apply K; by apply dict_get_elem). split; [done|].
  destruct (dict_pop_split _ _ _ N Hk) as (Hp & Hnd & Hin). split.
  - unfold live, queued. simpl. destruct (flying_split _ _ _ Hi) as [F1 F2]. rewrite F1, F2. simpl.
    assert (Hq : (pending c).*2 ≡ₚ it :: (dict_pop (item_id it) (pending c)).*2) by (rewrite Hp at 1; done).
    rewrite Hq. simpl. by rewrite <- !Permutation_middle.
  - intros j f' c0 [(_ & [= <- <-] & _)|[_ Hj]]%list_lookup_insert_Some; [|by eapply inv_conns].
    pose proof (Permutation_length Hp) as L. simpl in L.
    split; simpl; [|done|lia| |lia].
    + intros k it' Hin'. by apply K, Hin.
    + intros Hx. specialize (X Hx). lia.
Qed.

Lemma inv_answered i f c k it ok extra s :
  inv s -> workers s !! i = Some (Running f c) -> dict_get k (pending c) = Some it ->
  inv (answered cfg i f c it ok extra s).
Proof using permits.
  intros H Hi Hk. destruct (answered_live i f c k it s H Hi Hk) as (-> & Hl & Hc).
  pose proof (inv_live s H) as [Hlen _]. rewrite Hl in Hlen. simpl in Hlen.
  pose proof (inv_permits s H) as [Hp1 Hp2]. pose proof (inv_acked s H). pose proof (inv_resolved s H).
  pose proof (inv_balance s H) as Hb. unfold balance in Hb. rewrite (ids_perm _ _ Hl), ids_cons in Hb.
  pose proof (inv_attempts s H) as Ha. rewrite Hl in Ha. apply Forall_cons in Ha as [Ha1 Ha2].
  assert (Hdone : done s = true -> source_failed s = true \/ aborted s = true).
  { intros Hd. destruct (inv_done s H Hd) as [?|[?|[_ ?]]]; [by left|by right|lia]. }
  unfold answered. set (w' := Running f {| pending := dict_pop _ _ |}) in *. set (s1 := with_worker s i w') in *.
  assert (Hresolved : forall acked ok_ids bad_ids retried rej samples,
    acked = Z.of_nat (length ok_ids) ->
    Z.of_nat (length ok_ids) + Z.of_nat (length bad_ids) = n_resolved s + 1 ->
    list_to_set_disj (C := gmultiset string) ok_ids ⊎ list_to_set_disj bad_ids
      = {[+ item_id it +]} ⊎ list_to_set_disj (acked_ids s) ⊎ list_to_set_disj (failed_ids s) ->
    inv (release_and_check cfg
           (with_answer s1 (n_resolved s1 + 1) acked retried rej samples ok_ids bad_ids))).
  { intros acked ok_ids bad_ids retried rej samples E1 E2 E3. apply inv_check_done.
    split; simpl; try apply H; try lia; auto; [|intros Hd; destruct (Hdone Hd); auto].
    unfold balance. simpl. by rewrite (ms_settle {[+ item_id it +]} _ (list_to_set_disj (acked_ids s)) (list_to_set_disj (failed_ids s))). }
  assert (Hbad : forall rej samples, inv (release_and_check cfg
     (with_answer s1 (n_resolved s1 + 1) (n_acked s1) (n_retried s1) rej samples
        (acked_ids s1) (item_id it :: failed_ids s1)))).
  { intros rej samples. apply Hresolved; [done|simpl; lia|]. apply ms_settle_failed. }
  assert (Hretry : forall rej, attempts it + 1 < max_event_attempts cfg ->
    inv (let s2 := with_answer s1 (n_resolved s1) (n_acked s1) (n_retried s1 + 1) rej (failure_samples s1)
                     (acked_ids s1) (failed_ids s1) in
         with_queue s2 (todo s2) ({| item_id := item_id it; frame := frame it; attempts := attempts it + 1 |} :: later s2)
           (workers s2))).
  { intros rej Hlt. set (it' := {| attempts := attempts it + 1 |}).
    match goal with |- inv ?x => set (s' := x) end.
    assert (Hl' : live s' ≡ₚ it' :: live s1).
    { unfold live, queued. simpl. by rewrite <- !Permutation_middle. }
    split; simpl; try apply H; auto.
    - unfold balance. rewrite (ids_perm _ _ Hl'), ids_cons. done.
    - rewrite Hl'. constructor; [simpl; lia|done]. }
  destruct ok as [|[]| | | | |]; try (cbv zeta; destruct (Z.leb_spec (max_event_attempts cfg) (attempts it + 1));
    simpl; destruct (Z.leb_spec (max_event_attempts cfg) (attempts it + 1)); try lia; [apply Hbad|by apply Hretry]).
  by apply Hresolved; [simpl; lia|simpl; lia|].
Qed.

Lemma inv_read i raw s s' : inv s -> read_frame cfg i raw s = Some s' -> inv s'.
Proof using permits.
  unfold read_frame. intros H. destruct (workers s !! i) as [[| |f c| |]|] eqn:Hi; [done..| |done|done|done].
  destruct raw as [[]|]; try by intros [= <-].
  destruct l as [|kind [|id [|ok extra]]]; try by intros [= <-].
  destruct (json_is_str kind "OK"); [|by intros [= <-]].
  destruct (hashable id) eqn:Hh; simpl; [|by apply inv_over].
  destruct id; try by intros [= <-].
  destruct (dict_get s0 (pending c)) as [it|] eqn:Hk; intros [= <-]; [by eapply inv_answered|done].
Qed.

Lemma pub_inv_step s s' : inv s -> pub_step cfg s s' -> inv s'.
Proof using permits.
  intros H [].
  - by eapply pub_inv_produce.
  - by eapply inv_produce_end.
  - by eapply inv_produce_raises.
  - by eapply inv_head.
  - by eapply inv_connect.
  - by eapply inv_over.
  - by eapply inv_closed.
  - by eapply inv_acquire.
  - by eapply inv_next.
  - by eapply inv_read.
  - by eapply inv_timer.
Qed.
End invariant.

Lemma inv_start cfg events : 0 <= max_outstanding cfg -> inv cfg events (start cfg events).
Proof.
  intros Ho.
  assert (Hf : flying (replicate (connections cfg) (AtHead 0)) = []) by (induction (connections cfg); done).
  split; simpl; try done; try lia.
  - replace (balance (start cfg events)) with (list_to_set_disj (C := gmultiset string) (event_id <$> events)); [done|].
    unfold balance, live, queued. simpl. rewrite Hf. simpl. rewrite ids_nil. multiset_solver.
  - intros i f c [? _]%lookup_replicate. done.
  - unfold live, queued. simpl. rewrite Hf. constructor.
  - by intros ?%elem_of_nil.
Qed.

Section reachable.
Context (cfg : PublishConfig) (events : list SignedEvent).
Context (in_flight_ok : 0 <= max_in_flight cfg) (outstanding_ok : 0 <= max_outstanding cfg).

Lemma pub_inv_reachable s : rtc (pub_step cfg) (start cfg events) s -> inv cfg events s.
Proof using in_flight_ok outstanding_ok.
  assert (G : forall s0, inv cfg events s0 -> rtc (pub_step cfg) s0 s -> inv cfg events s).
  { intros s0 H0 Hr. revert H0. induction Hr as [s0|s0 s1 s2 H01 _ IH]; intros H0; [done|].
    apply IH. by eapply pub_inv_step. }
  apply G. by apply inv_start.
Qed.

Lemma delivered s :
  rtc (pub_step cfg) (start cfg events) s -> complete s ->
  acked_ids s ≡ₚ event_id <$> events /\ live s = [] /\ failed_ids s = [].
Proof using in_flight_ok outstanding_ok.
  intros Hr (Hd & Hf & Ha & Hu). pose proof (pub_inv_reachable s Hr) as H. unfold n_unacked in Hu.
  destruct (inv_done cfg events s H Hd) as [?|[?|[Hp Hn]]]; [congruence..|].
  pose proof (inv_live cfg events s H) as [Hl _]. pose proof (inv_acked cfg events s H).
  pose proof (inv_resolved cfg events s H). pose proof (inv_source cfg events s H Hp) as Hs.
  pose proof (inv_events cfg events s H) as He. rewrite Hs in He. simpl in He.
  assert (Hlive : live s = []) by (apply length_zero_iff_nil; lia).
  assert (Hbad : failed_ids s = []) by (apply length_zero_iff_nil; lia).
  split; [|done]. destruct (inv_balance cfg events s H) as [Hb _]. unfold balance in Hb.
  rewrite Hlive, Hbad, Hs in Hb. simpl in Hb. rewrite ids_nil in Hb.
  assert (E : list_to_set_disj (C := gmultiset string) (acked_ids s) = list_to_set_disj (event_id <$> events)).
  { apply ms_subseteq_eq; [multiset_solver|]. rewrite !size_ms, length_fmap. lia. }
  rewrite <- (elements_ms (acked_ids s)), E. apply elements_ms.
Qed.


(** The publisher's memory is bounded: at any moment the events taken from the
    stream and not settled are at most [max_outstanding], a connection never has more
    than [max_in_flight] unanswered, and no event still live was refused as often as
    the limit allows. *)
Theorem publisher_bounded s :
  rtc (pub_step cfg) (start cfg events) s ->
  Z.of_nat (length (live s)) <= max_outstanding cfg
  /\ (forall i f c, workers s !! i = Some (Running f c) -> Z.of_nat (length (pending c)) <= max_in_flight cfg)
  /\ Forall (fun it => attempts it < Z.max 1 (max_event_attempts cfg)) (live s).
Proof using in_flight_ok outstanding_ok.
  intros Hr. pose proof (pub_inv_reachable s Hr) as H. split; [|split].
  - destruct (inv_live _ _ s H) as [? _]. pose proof (inv_permits _ _ s H). lia.
  - intros i f c Hi. destruct (inv_conns _ _ s H i f c Hi) as [_ _ P _ B]. destruct (holding c); simpl in P; lia.
  - apply H.
Qed.
End reachable.
