(* ===== verification/RelayLiveness.v ===== *)
(** * The relay publisher delivers as soon as the relay behaves

    No permit, event, wake-up or sentinel is lost: from every reachable state in which
    some worker can still get a connection, the tasks, on a relay that from now on
    accepts connections, keeps them and answers [true], bring every event that was not
    refused for good to its acknowledgement. *)

From Stdlib Require Import Ascii String.
From S2P Require Import Prelude Json RelayPublisher RelayProps.
From stdpp Require Import gmultiset list.
Local Open Scope string_scope.
Local Open Scope Z_scope.

Definition is_stopped (w : Worker) : bool := match w with Stopped => true | _ => false end.
Definition stopped (ws : list Worker) : nat := length (filter (fun w => is_stopped w = true) ws).

Section alive.
Context (cfg : PublishConfig).

Record alive (s : Pub) : Prop := {
  alive_workers : length (workers s) = connections cfg;
  alive_some : done s = false -> dead_workers s = stopped (workers s) /\ (dead_workers s < connections cfg)%nat;
  alive_source : done s = false -> source_failed s = false;
  alive_settled : produced_all s = true -> n_resolved s = n_events s -> done s = true;
  alive_aborted : done s = false -> aborted s = false;
}.

Lemma stopped_insert ws i w w' :
  ws !! i = Some w ->
  (stopped (<[i := w']> ws) + (if is_stopped w then 1 else 0)
   = stopped ws + (if is_stopped w' then 1 else 0))%nat.
Proof using.
  unfold stopped. revert i. induction ws as [|w0 ws IH]; intros [|i] Hi; [done..| |]; simpl in *.
  - injection Hi as ->. rewrite !filter_cons. destruct w, w'; simpl; lia.
  - specialize (IH i Hi). rewrite !filter_cons. destruct w0; simpl; lia.
Qed.

Lemma alive_moves s s' :
  alive s -> workers s' = workers s -> dead_workers s' = dead_workers s -> done s' = done s ->
  source_failed s' = source_failed s -> aborted s' = aborted s ->
  (produced_all s' = true -> n_resolved s' = n_events s' -> produced_all s = true /\ n_resolved s = n_events s) ->
  alive s'.
Proof using. intros [] E1 E2 E3 E4 E5 H. split; rewrite ?E1, ?E2, ?E3, ?E4, ?E5; auto. intros. by apply alive_settled0; apply H. Qed.

Lemma alive_worker s i w w' :
  alive s -> workers s !! i = Some w -> is_stopped w = false -> (is_stopped w' = true -> done s = true) ->
  alive (with_worker s i w').
Proof using.
  intros H Hi Hw Hs. destruct H. split; simpl; auto; [by rewrite length_insert|].
  intros Hd. destruct (alive_some0 Hd) as [E L]. split; [|done].
  pose proof (stopped_insert _ _ _ w' Hi) as Hst. rewrite Hw in Hst.
  destruct (is_stopped w'); [specialize (Hs eq_refl); congruence|lia].
Qed.

Lemma alive_done s : length (workers s) = connections cfg -> done s = true -> alive s.
Proof using. intros Hl Hd. split; [done|by rewrite Hd..|done|by rewrite Hd]. Qed.

Lemma finish_done s : done (finish cfg s) = true.
Proof using. unfold finish. by destruct (done s) eqn:Hd. Qed.
Lemma finish_workers s : workers (finish cfg s) = workers s.
Proof using. unfold finish. by destruct (done s). Qed.

Lemma alive_check s :
  length (workers s) = connections cfg ->
  (done s = false -> dead_workers s = stopped (workers s) /\ (dead_workers s < connections cfg)%nat) ->
  (done s = false -> source_failed s = false) -> (done s = false -> aborted s = false) -> alive (check_done cfg s).
Proof using.
  intros Hl Ha Hs Hab. unfold check_done. destruct (produced_all s) eqn:Hp; simpl; cycle 1.
  { split; auto. congruence. }
  destruct (Z.eqb_spec (n_resolved s) (n_events s)); cycle 1.
  { by split; auto. }
  apply alive_done; [by rewrite finish_workers|apply finish_done].
Qed.

Lemma alive_over i s s' : alive s -> connection_over i s = Some s' -> alive s'.
Proof using.
  unfold connection_over. intros H. destruct (workers s !! i) as [[| |f c| |]|] eqn:Hi; [done..| |done|done|done].
  intros [= <-]. eapply alive_worker; [|exact Hi|done|done]. by eapply alive_moves.
Qed.

Lemma alive_answered i f c it ok extra s :
  alive s -> workers s !! i = Some (Running f c) -> alive (answered cfg i f c it ok extra s).
Proof using.
  intros H Hi. unfold answered. set (w' := Running f {| pending := dict_pop _ _ |}).
  assert (H1 : alive (with_worker s i w')) by by eapply alive_worker.
  assert (Hc : forall r a n rej sm o b, alive (release_and_check cfg (with_answer (with_worker s i w') r a n rej sm o b))).
  { intros. apply alive_check; apply H1. }
  destruct ok as [|[]| | | | |]; try apply Hc; cbv zeta; (destruct (_ <=? _); [apply Hc|by eapply alive_moves]).
Qed.

Lemma alive_closed i s s' : alive s -> connection_closed cfg i s = Some s' -> alive s'.
Proof using.
  unfold connection_closed. intros H. destruct (workers s !! i) as [[| | |f pr|]|] eqn:Hi; [done..| |done|done].
  destruct (done s) eqn:Hd; [intros [= <-]; by eapply alive_worker|].
  destruct (_ <=? _); cycle 1.
  { intros [= <-]. eapply alive_worker; [|exact Hi|done|done]. by eapply alive_moves. }
  intros [= <-]. destruct (alive_some s H Hd) as [E L]. pose proof (stopped_insert _ _ _ Stopped Hi) as Hst.
  simpl in Hst. match goal with |- alive (if ?b then _ else _) => destruct b eqn:Eb end.
  - apply alive_done; [|apply finish_done]. rewrite finish_workers. simpl. rewrite length_insert. apply H.
  - change ((S (dead_workers s) =? connections cfg)%nat = false) in Eb. apply Nat.eqb_neq in Eb.
    destruct H. split; simpl; auto; [by rewrite length_insert|]. intros _. lia.
Qed.

Lemma alive_step s s' : alive s -> pub_step cfg s s' -> alive s'.
Proof using.
  intros H [Hs|Hs|Hs|i Hs|i ok Hs|i Hs|i Hs|i Hs|i Hs|i raw Hs|n Hs].
  - unfold produce_one in Hs. destruct (source s) as [|e rest] eqn:Es; [done|].
    destruct (produced_all s) eqn:Hp; [done|]. simpl in Hs. destruct (source_failed s || _); [done|]. injection Hs as <-.
    eapply alive_moves; try done. simpl. congruence.
  - unfold produce_end in Hs. destruct (source s); [|done].
    destruct (produced_all s); [done|]. destruct (source_failed s) eqn:Hf; [done|]. simpl in Hs. injection Hs as <-.
    apply alive_check; simpl; [apply H|apply H|done|apply H].
  - unfold produce_raises in Hs. destruct (_ || _); [done|]. injection Hs as <-. apply alive_done; [apply H|done].
  - unfold worker_head in Hs. destruct (workers s !! i) as [[f| | | |]|] eqn:Hi; [|done..]. injection Hs as <-.
    eapply alive_worker; [done|exact Hi|done|]. by destruct (done s).
  - unfold connect in Hs. destruct (workers s !! i) as [[|f| | |]|] eqn:Hi; [done| |done..]. injection Hs as <-.
    eapply alive_worker; [done|exact Hi|done|]. by destruct ok.
  - by eapply alive_over.
  - by eapply alive_closed.
  - unfold send_acquire in Hs. destruct (workers s !! i) as [[| |f c| |]|] eqn:Hi; [done..| |done|done|done].
    destruct (_ || _); [done|]. injection Hs as <-. by eapply alive_worker.
  - unfold send_next in Hs. destruct (workers s !! i) as [[| |f c| |]|] eqn:Hi; [done..| |done|done|done].
    destruct (holding c); [|done]. destruct (todo s) as [|[it|] t]; [done| |].
    + injection Hs as <-. eapply alive_worker; [|exact Hi|done|done]. by eapply alive_moves.
    + eapply alive_over; [|exact Hs]. by eapply alive_moves.
  - unfold read_frame in Hs. destruct (workers s !! i) as [[| |f c| |]|] eqn:Hi; [done..| |done|done|done].
    destruct raw as [[]|]; try (injection Hs as <-; done).
    destruct l as [|kind [|id [|ok extra]]]; try (injection Hs as <-; done).
    destruct (json_is_str kind "OK"); [|by injection Hs as <-].
    destruct (hashable id); simpl in Hs; [|by eapply alive_over].
    destruct id; try (injection Hs as <-; done).
    destruct (dict_get s0 (pending c)); injection Hs as <-; [by apply alive_answered|done].
  - unfold timer_fires in Hs. destruct (later s !! n); [|done]. injection Hs as <-. by eapply alive_moves.
Qed.
End alive.

(** ** Driving to the end *)

Definition phase (w : Worker) : nat :=
  match w with Closing _ _ => 4 | AtHead _ => 3 | Opening _ => 2 | Running _ _ => 1 | Stopped => 0 end.

Fixpoint phases (ws : list Worker) : nat :=
  match ws with [] => 0 | w :: ws' => phase w + phases ws' end.

(** What is left to do. *)
Definition work (s : Pub) : nat :=
  5 * length (source s) + 3 * length (todo s) + 4 * length (later s) + 2 * length (flying (workers s))
  + phases (workers s).

Lemma phases_insert ws i w w' :
  ws !! i = Some w -> (phases (<[i := w']> ws) + phase w = phases ws + phase w')%nat.
Proof.
  revert i. induction ws as [|w0 ws IH]; intros [|i] Hi; [done..| |].
  - injection Hi as ->. cbn [phases insert list_insert]. lia.
  - specialize (IH i Hi).
    change (phase w0 + phases (<[i := w']> ws) + phase w = phase w0 + phases ws + phase w')%nat. lia.
Qed.

Lemma flying_insert ws i w w' :
  ws !! i = Some w ->
  (length (flying (<[i := w']> ws)) + length (held w) = length (flying ws) + length (held w'))%nat.
Proof.
  intros [H1 H2]%flying_split. rewrite H1, (H2 w'), !length_app. lia.
Qed.

Lemma work_worker s i w w' :
  workers s !! i = Some w -> length (held w') = length (held w) -> (phase w' < phase w)%nat ->
  (work (with_worker s i w') < work s)%nat.
Proof.
  intros Hi Hh Hp. unfold work. simpl. pose proof (phases_insert _ _ _ w' Hi).
  pose proof (flying_insert _ _ _ w' Hi). lia.
Qed.

Section drive.
Context (cfg : PublishConfig) (events : list SignedEvent).
Context (events_distinct : NoDup (event_id <$> events)).
Context (some_connection : (0 < connections cfg)%nat).
Context (in_flight_pos : 0 < max_in_flight cfg) (outstanding_pos : 0 < max_outstanding cfg).

(** A worker that may still get a connection. *)
Definition usable (w : Worker) : bool :=
  match w with
  | Stopped => false
  | Closing f progressed => (if progressed : bool then 0 else f + 1) <? max_connect_attempts cfg
  | _ => true
  end.
Definition some_usable (s : Pub) : Prop := Exists (fun w => usable w = true) (workers s).

#[export] Instance some_usable_dec s : Decision (some_usable s).
Proof. unfold some_usable. apply _. Defined.

(** The steps of the tasks on a relay that accepts connections, does not close them and
    answers [true], and a source that does not raise. *)
Inductive healthy (s s' : Pub) : Prop :=
  | h_produce : produce_one s = Some s' -> healthy s s'
  | h_end : produce_end cfg s = Some s' -> healthy s s'
  | h_head i : worker_head i s = Some s' -> healthy s s'
  | h_connect i : connect cfg i true s = Some s' -> healthy s s'
  | h_closed i : connection_closed cfg i s = Some s' -> healthy s s'
  | h_acquire i : send_acquire i s = Some s' -> healthy s s'
  | h_next i : send_next i s = Some s' -> healthy s s'
  | h_answer i k : read_frame cfg i (Some (JList [JStr "OK"; JStr k; JBool true])) s = Some s' -> healthy s s'
  | h_timer n : timer_fires n s = Some s' -> healthy s s'.

Lemma healthy_step s s' : healthy s s' -> pub_step cfg s s'.
Proof.
  intros [Hs|Hs|i Hs|i Hs|i Hs|i Hs|i Hs|i k Hs|n Hs].
  - by apply p_produce. - by apply p_end. - by eapply p_head. - by eapply p_connect. - by eapply p_closed.
  - by eapply p_acquire. - by eapply p_next. - by eapply p_read. - by eapply p_timer.
Qed.

(** The end of a publication that nothing cut short. *)
Definition settled (s : Pub) : Prop :=
  done s = true /\ aborted s = false /\ source_failed s = false /\ produced_all s = true /\ n_resolved s = n_events s.

Record reaches (s s' : Pub) : Prop := {
  reaches_steps : rtc healthy s s';
  reaches_failed : failed_ids s' = failed_ids s;
  reaches_usable : some_usable s';
}.
Definition nearer (s s' : Pub) : Prop := settled s' \/ done s' = false /\ (work s' < work s)%nat.
Definition advances (s : Pub) : Prop := exists s', reaches s s' /\ nearer s s'.

Lemma advance_one s s' :
  healthy s s' -> failed_ids s' = failed_ids s -> some_usable s' -> nearer s s' -> advances s.
Proof. intros Hs Hf Hu Hn. exists s'. split; [|done]. split; [by apply rtc_once|done|done]. Qed.

Lemma usable_insert s i w w' : workers s !! i = Some w -> usable w' = true -> some_usable (with_worker s i w').
Proof.
  intros Hi Hw. apply Exists_exists. exists w'. split; [|done]. simpl. apply list_elem_of_lookup. exists i.
  apply list_lookup_insert_eq. by eapply lookup_lt_Some.
Qed.

(** A usable worker that is between connections goes on. *)
Lemma advance_worker s i w :
  workers s !! i = Some w -> usable w = true -> (forall f c, w <> Running f c) -> done s = false -> advances s.
Proof.
  intros Hi Hu Hr Hd. destruct w as [f|f|f c|f pr|]; [| |by destruct (Hr f c)| |done].
  - eapply advance_one; [apply (h_head _ _ i); unfold worker_head; by rewrite Hi|done|by rewrite Hd; eapply usable_insert|].
    right. rewrite Hd. split; [done|]. by eapply work_worker; [exact Hi|simpl..]; [done|lia].
  - eapply advance_one; [apply (h_connect _ _ i); unfold connect; by rewrite Hi|done|by eapply usable_insert|].
    right. split; [done|]. by eapply work_worker; [exact Hi|simpl..]; [done|lia].
  - eapply advance_one; [apply (h_closed _ _ i); unfold connection_closed; rewrite Hi, Hd; simpl in Hu|..].
    + rewrite (proj2 (Z.leb_gt _ _)); [reflexivity|]. by apply Z.ltb_lt.
    + done.
    + by eapply (usable_insert (with_abort s _ _ _)).
    + right. split; [done|].
      refine (work_worker (with_abort s _ _ _) i (Closing f pr) (AtHead _) Hi _ _); simpl; [done|lia].
Qed.

(** Checking for the end either ends the publication or changes nothing. *)
Lemma check_done_settles s : done s = false -> aborted s = false -> source_failed s = false ->
  settled (check_done cfg s) \/ check_done cfg s = s.
Proof.
  intros Hd Ha Hf. unfold check_done. destruct (produced_all s) eqn:Hp; [|by right]. simpl.
  destruct (Z.eqb_spec (n_resolved s) (n_events s)); [left|by right].
  unfold finish, settled. rewrite Hd. by split_and!.
Qed.
Lemma check_done_failed s : failed_ids (check_done cfg s) = failed_ids s.
Proof. unfold check_done, finish. destruct (_ && _); [|done]. by destruct (done s). Qed.
Lemma check_done_workers s : workers (check_done cfg s) = workers s.
Proof. unfold check_done, finish. destruct (_ && _); [|done]. by destruct (done s). Qed.

(** The relay acknowledges an event in flight. *)
Lemma advance_ack s i f c k it rest :
  inv cfg events s -> alive cfg s -> done s = false -> workers s !! i = Some (Running f c) -> pending c = (k, it) :: rest -> advances s.
Proof.
  intros H Hal Hdone Hi Hp. assert (Hk : dict_get k (pending c) = Some it) by (rewrite Hp; simpl; by rewrite decide_True).
  destruct (answered_live cfg events ltac:(lia) i f c k it s H Hi Hk) as (_ & Hl & _).
  set (w' := Running f {| pending := dict_pop (item_id it) (pending c); in_flight := in_flight c + 1; holding := holding c; progress := true |}) in *.
  set (s1 := with_permits (with_answer (with_worker s i w') (n_resolved s + 1) (n_acked s + 1) (n_retried s) (rejected s)
               (failure_samples s) (item_id it :: acked_ids s) (failed_ids s)) (outstanding s + 1)).
  assert (E : read_frame cfg i (Some (JList [JStr "OK"; JStr k; JBool true])) s = Some (check_done cfg s1)).
  { unfold read_frame. rewrite Hi. simpl. by rewrite Hk. }
  eapply advance_one; [by eapply h_answer| | |].
  - by rewrite check_done_failed.
  - unfold some_usable. rewrite check_done_workers. by eapply (usable_insert s).
  - destruct (check_done_settles s1) as [Hs|Hs]; [done|by apply Hal|by apply Hal|by left|right]. rewrite Hs. split; [done|].
    unfold work. simpl. pose proof (phases_insert _ _ _ w' Hi) as Hph. simpl in Hph.
    apply Permutation_length in Hl. unfold live in Hl. cbn [length] in Hl. rewrite !length_app in Hl.
    unfold queued in Hl. simpl in Hl. lia.
Qed.

(** The sender takes the next event. *)
Lemma advance_send s i f c it t :
  inv cfg events s -> done s = false -> workers s !! i = Some (Running f c) -> pending c = [] -> todo s = Some it :: t -> advances s.
Proof.
  intros H Hd Hi Hp Ht. destruct (inv_conns _ _ s H i f c Hi) as [_ _ _ P B]. specialize (P events_distinct). rewrite Hp in P.
  assert (G : forall s0 c0, workers s0 !! i = Some (Running f c0) -> pending c0 = [] -> holding c0 = true ->
    todo s0 = Some it :: t -> done s0 = false -> exists s1, healthy s0 s1 /\ failed_ids s1 = failed_ids s0
      /\ some_usable s1 /\ done s1 = false /\ (work s1 < work s0)%nat).
  { intros s0 c0 Hi0 Hp0 Hh0 Ht0 Hd0. eexists. split_and!.
    - apply (h_next _ _ i). unfold send_next. by rewrite Hi0, Hh0, Ht0.
    - done.
    - by eapply (usable_insert (with_queue s0 _ _ _)).
    - done.
    - unfold work. simpl. rewrite Ht0. set (w' := Running f {| pending := dict_set _ _ _ |}).
      pose proof (phases_insert _ _ _ w' Hi0) as Hph. pose proof (flying_insert _ _ _ w' Hi0) as Hfl.
      simpl in Hph, Hfl. rewrite Hp0 in Hfl. simpl in *. lia. }
  destruct (holding c) eqn:Hh.
  { destruct (G s c Hi Hp Hh Ht Hd) as (s1 & Hs & Hf & Hu & Hd1 & Hw). eapply advance_one; [exact Hs|done|done|by right]. }
  assert (Ha : exists s1, send_acquire i s = Some s1 /\ work s1 = work s /\ failed_ids s1 = failed_ids s /\ done s1 = false
    /\ exists c1, workers s1 !! i = Some (Running f c1) /\ pending c1 = [] /\ holding c1 = true /\ todo s1 = todo s).
  { unfold send_acquire. rewrite Hi, Hh. simpl. simpl in P.
    destruct (Z.leb_spec (in_flight c) 0); [lia|]. eexists. split; [done|].
    set (w' := Running f {| pending := pending c; in_flight := in_flight c - 1 |}). split_and!; [|done|done|].
    - unfold work. simpl. pose proof (phases_insert _ _ _ w' Hi) as Hph. pose proof (flying_insert _ _ _ w' Hi) as Hfl.
      simpl in Hph, Hfl. lia.
    - eexists. split; [apply list_lookup_insert_eq; by eapply lookup_lt_Some|]. done. }
  destruct Ha as (s1 & Hs1 & Hw1 & Hf1 & Hd1 & c1 & Hi1 & Hp1 & Hh1 & Ht1).
  destruct (G s1 c1 Hi1 Hp1 Hh1 ltac:(by rewrite Ht1) Hd1) as (s2 & Hs2 & Hf2 & Hu2 & Hd2 & Hw2).
  exists s2. split; [|right; split; [done|lia]]. split; [|congruence|done].
  eapply rtc_l; [by apply (h_acquire _ _ i)|]. by apply rtc_once.
Qed.

(** Nothing is queued, in flight or waiting for a timer: the producer goes on. *)
Lemma advance_source s : inv cfg events s -> alive cfg s -> done s = false -> some_usable s -> live s = [] -> advances s.
Proof.
  intros H Ha Hd Hu Hlive. pose proof (proj2 (inv_live _ _ s H) events_distinct) as Hlen. rewrite Hlive in Hlen. simpl in Hlen.
  pose proof (alive_source _ s Ha Hd) as Hf. pose proof (inv_permits _ _ s H) as [Ho _].
  destruct (produced_all s) eqn:Hp; [pose proof (alive_settled _ s Ha Hp ltac:(lia)); congruence|].
  destruct (source s) as [|e rest] eqn:Hsrc.
  - eapply advance_one; [apply h_end; unfold produce_end; by rewrite Hsrc, Hp, Hf|by rewrite check_done_failed|..].
    + unfold some_usable. by rewrite check_done_workers.
    + left. unfold check_done, finish, settled. simpl. rewrite Hd, (proj2 (Z.eqb_eq _ _)) by lia. simpl.
      split_and!; [done|by apply Ha|done|done|lia].
  - assert (Hpos : (outstanding s <=? 0) = false) by lia.
    eapply advance_one; [apply h_produce; unfold produce_one; by rewrite Hsrc, Hp, Hf, Hpos|done|exact Hu|].
    right. split; [done|]. unfold work. simpl. rewrite Hsrc, length_app. simpl. lia.
Qed.

Lemma advance_not_done s : inv cfg events s -> alive cfg s -> done s = false -> some_usable s -> advances s.
Proof.
  intros H Ha Hd Hu.
  destruct (decide (Exists (fun w => usable w = true /\ phase w <> 1%nat) (workers s))) as [He|Hn].
  { apply Exists_exists in He as (w & [i Hi]%list_elem_of_lookup & Hw & Hp).
    eapply advance_worker; [exact Hi|done| |done]. intros f c ->. done. }
  assert (Hrun : exists i f c, workers s !! i = Some (Running f c)).
  { apply Exists_exists in Hu as (w & [i Hi]%list_elem_of_lookup & Hw). exists i.
    destruct w as [f|f|f c|f pr|]; [| |by eauto| |done];
      exfalso; apply Hn, Exists_exists; (eexists; split; [by eapply list_elem_of_lookup_2|done]). }
  destruct (later s) as [|it0 l0] eqn:Hlater; cycle 1.
  { eapply advance_one; [apply (h_timer _ _ 0); unfold timer_fires; by rewrite Hlater|done|exact Hu|].
    right. split; [done|]. unfold work. simpl. rewrite Hlater, length_app. simpl. lia. }
  destruct (decide (flying (workers s) = [])) as [Hfly|Hfly]; cycle 1.
  { assert (Hex : exists i f c k it rest, workers s !! i = Some (Running f c) /\ pending c = (k, it) :: rest).
    { clear - Hfly. induction (workers s) as [|w ws IH]; [done|]. destruct w as [f|f|f c|f pr|]; cycle 2.
      1: destruct (pending c) as [|[k it] rest] eqn:Hp; [|by exists 0%nat, f, c, k, it, rest].
      all: destruct IH as (i & f' & c' & k & it & rest & Hi & Hp'); [unfold flying in *; simpl in *; by rewrite ?Hp in Hfly|];
        by exists (S i), f', c', k, it, rest. }
    destruct Hex as (i & f & c & k & it & rest & Hi & Hp). by eapply advance_ack. }
  destruct Hrun as (i & f & c & Hi). assert (Hp : pending c = []).
  { destruct (flying_split _ _ _ Hi) as [Hf _]. rewrite Hfly in Hf.
    apply Permutation_nil_l in Hf. symmetry in Hf. apply app_nil in Hf as [Hf _]. simpl in Hf. by destruct (pending c). }
  destruct (todo s) as [|[it|] t] eqn:Htodo; [|by eapply advance_send|].
  - apply advance_source; [done..|]. unfold live, queued. by rewrite Htodo, Hfly, Hlater.
  - exfalso. pose proof (inv_sentinels _ _ s H) as Hs. rewrite Htodo in Hs. specialize (Hs ltac:(constructor)). congruence.
Qed.

Lemma steps_keep s s' : rtc (pub_step cfg) s s' -> inv cfg events s /\ alive cfg s -> inv cfg events s' /\ alive cfg s'.
Proof.
  induction 1 as [s|s s2 s3 H12 _ IH]; [done|]. intros [H Ha].
  apply IH. split; [|by eapply alive_step]. eapply pub_inv_step; [lia|done|done].
Qed.

Lemma healthy_steps s s' : rtc healthy s s' -> rtc (pub_step cfg) s s'.
Proof. induction 1 as [|s s2 s3 H12 _ IH]; [done|]. eapply rtc_l; [by apply healthy_step|done]. Qed.

Lemma drive n s :
  (work s <= n)%nat -> inv cfg events s -> alive cfg s -> done s = false -> some_usable s ->
  exists s', reaches s s' /\ settled s'.
Proof.
  revert s. induction n as [|n IH]; intros s Hn H Ha Hd Hu;
    destruct (advance_not_done s H Ha Hd Hu) as (s1 & [H1 Hf1 Hu1] & [Hs1|[Hd1 Hw]]); [by exists s1|lia|by exists s1|].
  destruct (steps_keep _ _ (healthy_steps _ _ H1) (conj H Ha)) as [H' Ha'].
  destruct (IH s1 ltac:(lia) H' Ha' Hd1 Hu1) as (s2 & [H2 Hf2 Hu2] & Hs2). exists s2. split; [|done].
  split; [by etransitivity|congruence|done].
Qed.

Lemma alive_start : alive cfg (start cfg events).
Proof.
  split; simpl; [by rewrite length_replicate| |done|done|done]. intros _. split; [|done].
  unfold stopped. clear. induction (connections cfg); done.
Qed.

(** C14: the publisher is never wedged: for a stream of distinct events and limits that
    are positive, whatever has happened so far, of lost connections, refusals and lost
    answers, as long as the publication is not over and some worker may still connect:
    should the relay from now on accept connections, keep them and answer [true], and
    the source not raise, the tasks can bring the publication to its end without an
    abort, with no further event failing and every event of the stream either
    acknowledged or failed before.  So no permit is leaked, no event is forgotten by
    every queue, no wake-up is missed. *)
Theorem never_wedged s :
  rtc (pub_step cfg) (start cfg events) s -> done s = false -> some_usable s ->
  exists s', rtc healthy s s' /\ done s' = true /\ aborted s' = false /\ source_failed s' = false
    /\ failed_ids s' = failed_ids s /\ acked_ids s' ++ failed_ids s' ≡ₚ event_id <$> events.
Proof.
  intros Hr Hd Hu. destruct (steps_keep _ _ Hr) as [H Ha]; [split; [apply inv_start; lia|apply alive_start]|].
  destruct (drive (work s) s ltac:(done) H Ha Hd Hu) as (s' & [Hs Hf _] & (Hd' & Hab & Hsf & Hp & Hn)).
  exists s'. do 5 (split; [done|]).
  destruct (steps_keep _ _ (healthy_steps _ _ Hs) (conj H Ha)) as [H' _].
  pose proof (proj2 (inv_live _ _ s' H') events_distinct) as Hl.
  assert (Hlive : live s' = []) by (apply length_zero_iff_nil; lia).
  pose proof (proj2 (inv_balance _ _ s' H') events_distinct) as Hb.
  unfold balance in Hb. rewrite Hlive, (inv_source _ _ s' H' Hp) in Hb. simpl in Hb. rewrite ids_nil in Hb.
  rewrite <- (elements_ms (event_id <$> events)), <- Hb, <- (elements_ms (_ ++ _)), list_to_set_disj_app. f_equiv. multiset_solver.
Qed.
End drive.
