(* ===== verification/PublisherRefinement.v ===== *)
(** * The publisher keeps the promise the pipeline relies on

    [PublisherLaws] is what the publication stage assumes of [publish_events].  Here
    the stream it is given is the signed assertions followed by the signed deletions
    ([sign_publish_events] of [src/app/message_queue_tasks/upload_nostr_events.py]),
    the report is read off a finished run of the publisher, and the laws follow for
    any relay that holds what it acknowledged and nothing it was not sent. *)

From Stdlib Require Import QArith Ascii String.
From S2P Require Import Prelude Json Binary64 Atomic Runs PublishPlan Pipeline PipeScenario.
From S2P Require Import RelayPublisher RelayProps RelayLiveness.
From stdpp Require Import list.
Local Open Scope string_scope.
Local Open Scope Z_scope.

Section refinement.
Context (cfg : PublishConfig) (signing_pubkey : string).
(** Signing, which a library does: the event of an assertion, the event of a
    deletion. *)
Context (sign_ta_json : TaInput -> SignedEvent) (sign_deletion_json : list (list string) -> SignedEvent).

Definition deletion_tags (dels : list string) : list (list (list string)) :=
  atag_deletion_tags dels signing_pubkey DELETION_COORDS_PER_EVENT.

Definition sign_publish_events (inputs : list TaInput) (dels : list string) : list SignedEvent :=
  ((sign_ta_json <$> inputs) ++ (sign_deletion_json <$> deletion_tags dels))%list.

(** What the events a relay holds mean to it: an assertion is there, a coordinate
    named by a deletion is not. *)
Definition deleted (held : gset string) (dels : list string) (o : string) : Prop :=
  Exists (fun tags => event_id (sign_deletion_json tags) ∈ held /\ ["a"; coordinate signing_pubkey o] ∈ tags)
    (deletion_tags dels).

#[local] Instance deleted_dec held dels o : Decision (deleted held dels o).
Proof. apply _. Defined.

Definition report (inputs : list TaInput) (dels : list string) (s : Pub) (held : gset string) : PublishReport := {|
  Pipeline.n_events := n_events s; Pipeline.n_acked := n_acked s; Pipeline.aborted := aborted s;
  accepted := list_to_set (ta_observee <$> filter (fun t => event_id (sign_ta_json t) ∈ held) inputs);
  removed := list_to_set (filter (deleted held dels) dels) |}.

(** A relay holds what it acknowledged, and only what it was sent. *)
Definition honest (events : list SignedEvent) (s : Pub) (held : gset string) : Prop :=
  (forall x, x ∈ acked_ids s -> x ∈ held) /\ (forall x, x ∈ held -> x ∈ event_id <$> events).

(** Every deletion is named in some chunk. *)
Lemma chunks_cover {A} rounds size (l : list A) x :
  (0 < size)%nat -> (length l <= rounds)%nat -> x ∈ l -> exists c, c ∈ chunks rounds size l /\ x ∈ c.
Proof using.
  intros Hs. revert l. induction rounds as [|r IH]; intros l Hl Hx; destruct l as [|y l];
    try (by apply elem_of_nil in Hx); [simpl in Hl; lia|]. cbn [chunks].
  rewrite <- (take_drop size (y :: l)) in Hx. apply elem_of_app in Hx as [Hx|Hx].
  - eexists. split; [by constructor|done].
  - destruct (IH (drop size (y :: l))) as (c & Hc & Hxc); [rewrite length_drop; simpl in *; lia|done|].
    exists c. split; [by constructor|done].
Qed.

Lemma deleted_all held dels o :
  (forall tags, tags ∈ deletion_tags dels -> event_id (sign_deletion_json tags) ∈ held) ->
  o ∈ dels -> deleted held dels o.
Proof using.
  intros Hall Ho. unfold deleted. apply Exists_exists.
  destruct (chunks_cover (length dels) DELETION_COORDS_PER_EVENT dels o) as (c & Hc & Hoc);
    [unfold DELETION_COORDS_PER_EVENT; lia|lia|done|].
  set (tags := (((fun o => ["a"; coordinate signing_pubkey o]) <$> c) ++ [CLIENT_TAG])%list).
  assert (Ht : tags ∈ deletion_tags dels) by (apply list_elem_of_fmap; by exists c).
  exists tags. split; [done|]. split; [by apply Hall|].
  apply elem_of_app. left. apply list_elem_of_fmap. by exists o.
Qed.

Lemma filter_id {A} (P : A -> Prop) `{!forall x, Decision (P x)} (l : list A) :
  (forall x, x ∈ l -> P x) -> filter P l = l.
Proof using.
  intros Hl. induction l as [|x l IH]; [done|]. rewrite filter_cons_True by (apply Hl; constructor).
  f_equal. apply IH. intros y Hy. apply Hl. by constructor.
Qed.

Lemma finished_report inputs dels s held :
  let events := sign_publish_events inputs dels in
  0 <= max_in_flight cfg -> 0 <= max_outstanding cfg ->
  rtc (pub_step cfg) (start cfg events) s -> done s = true -> source_failed s = false -> honest events s held ->
  let r := report inputs dels s held in
  (Pipeline.aborted r = false -> Pipeline.n_unacked r = 0 ->
     accepted r = list_to_set (ta_observee <$> inputs) /\ removed r = list_to_set dels)
  /\ accepted r ⊆ list_to_set (ta_observee <$> inputs) /\ removed r ⊆ list_to_set dels.
Proof using.
  intros events Hi Ho Hr Hd Hf [Hheld _] r. split; [|split].
  - intros Ha Hu. pose proof (pub_inv_reachable cfg events Hi Ho s Hr) as H.
    assert (Hall : forall e, e ∈ events -> event_id e ∈ held).
    { intros e He. apply Hheld.
      destruct (delivered cfg events Hi Ho s Hr) as [Hp _]; [by repeat split|].
      rewrite Hp. apply list_elem_of_fmap. by exists e. }
    unfold r, report. simpl. split; f_equal.
    + f_equal. apply filter_id. intros t Ht. apply Hall, elem_of_app. left. apply list_elem_of_fmap. by exists t.
    + apply filter_id. intros o Hin. apply deleted_all; [|done]. intros tags Ht. apply Hall, elem_of_app. right.
      apply list_elem_of_fmap. by exists tags.
  - unfold r, report. simpl. intros x Hx. rewrite elem_of_list_to_set in *.
    apply list_elem_of_fmap in Hx as (t & -> & [_ Ht]%list_elem_of_filter). apply list_elem_of_fmap. by exists t.
  - unfold r, report. simpl. intros x Hx. rewrite elem_of_list_to_set in *. by apply list_elem_of_filter in Hx as [_ Hx].
Qed.
End refinement.


(** ** Runs, step by step *)

Inductive action :=
  | AProduce | AEnd | ARaise | AHead (i : nat) | AConnect (i : nat) (ok : bool) | AOver (i : nat)
  | AClosed (i : nat) | AAcquire (i : nat) | ANext (i : nat) | ARead (i : nat) (raw : option json) | ATimer (n : nat).

Definition perform (cfg : PublishConfig) (a : action) (s : Pub) : option Pub :=
  match a with
  | AProduce => produce_one s
  | AEnd => produce_end cfg s
  | ARaise => produce_raises s
  | AHead i => worker_head i s
  | AConnect i ok => connect cfg i ok s
  | AOver i => connection_over i s
  | AClosed i => connection_closed cfg i s
  | AAcquire i => send_acquire i s
  | ANext i => send_next i s
  | ARead i raw => read_frame cfg i raw s
  | ATimer n => timer_fires n s
  end.

Fixpoint perform_all (cfg : PublishConfig) (l : list action) (s : Pub) : option Pub :=
  match l with
  | [] => Some s
  | a :: l' => s' ← perform cfg a s; perform_all cfg l' s'
  end.

Lemma perform_steps cfg l s s' : perform_all cfg l s = Some s' -> rtc (pub_step cfg) s s'.
Proof.
  revert s. induction l as [|a l IH]; intros s; simpl; [by intros [= ->]|].
  destruct (perform cfg a s) as [s1|] eqn:Ha; [|done]. simpl. intros H.
  eapply rtc_l; [|by apply IH]. destruct a; simpl in Ha.
  - by apply p_produce.
  - by apply p_end.
  - by apply p_raises.
  - by eapply p_head.
  - by eapply p_connect.
  - by eapply p_over.
  - by eapply p_closed.
  - by eapply p_acquire.
  - by eapply p_next.
  - by eapply p_read.
  - by eapply p_timer.
Qed.

Definition tiny : PublishConfig := {|
  connections := 1; max_in_flight := 1; max_outstanding := 1; max_event_attempts := 2; max_connect_attempts := 1 |}.

Definition two_events : list SignedEvent :=
  [{| event_id := "e1"; event_json := "{}" |}; {| event_id := "e2"; event_json := "{}" |}].

Definition ok_frame (x : string) : option json := Some (JList [JStr "OK"; JStr x; JBool true]).
Definition refused_frame (x : string) : option json :=
  Some (JList [JStr "OK"; JStr x; JBool false; JStr "rate-limited: slow down"]).

(** A refusal and a lost connection on the way. *)
Definition rough_run : list action :=
  [AProduce; AHead 0; AConnect 0 true; AAcquire 0; ANext 0; ARead 0 (refused_frame "e1"); ATimer 0;
   AAcquire 0; ANext 0; AOver 0; AClosed 0; AHead 0; AConnect 0 true; AAcquire 0; ANext 0;
   ARead 0 (ok_frame "e1"); AProduce; AAcquire 0; ANext 0; ARead 0 (ok_frame "e2"); AEnd].

Definition after_rough_run : Pub := default (start tiny []) (perform_all tiny rough_run (start tiny two_events)).

Lemma rough_run_ends : perform_all tiny rough_run (start tiny two_events) = Some after_rough_run.
Proof. by vm_compute. Qed.


(** The same run, stopped early. *)
Definition midway (n : nat) : Pub :=
  default (start tiny []) (perform_all tiny (take n rough_run) (start tiny two_events)).

Lemma midway_reached n :
  is_Some (perform_all tiny (take n rough_run) (start tiny two_events)) ->
  rtc (pub_step tiny) (start tiny two_events) (midway n).
Proof. unfold midway. intros [s Hs]. rewrite Hs. by apply (perform_steps tiny (take n rough_run)). Qed.

Lemma publisher_bounded_witness : Z.of_nat (length (live (midway 5))) <= 1.
Proof.
  apply (publisher_bounded tiny two_events ltac:(done) ltac:(done) (midway 5)).
  apply midway_reached. vm_compute. eauto.
Defined.

(** Refused once, and the connection about to be lost. *)
Lemma never_wedged_witness :
  n_retried (midway 8) = 1 /\ acked_ids (midway 8) = []
  /\ exists s', rtc (healthy tiny) (midway 8) s' /\ done s' = true /\ aborted s' = false
       /\ acked_ids s' ++ failed_ids s' ≡ₚ ["e1"; "e2"].
Proof.
  split; [by vm_compute|]. split; [by vm_compute|].
  destruct (never_wedged tiny two_events) with (s := midway 8) as (s' & H1 & H2 & H3 & _ & _ & H6).
  - by repeat constructor; set_solver.
  - simpl; lia.
  - simpl; lia.
  - simpl; lia.
  - apply midway_reached. vm_compute. eauto.
  - by vm_compute.
  - apply (bool_decide_eq_true_1 (some_usable tiny (midway 8))). by vm_compute.
  - by exists s'.
Defined.

(** A relay that is down: the only worker gives up and nothing is sent. *)
Definition relay_down : list action := [AHead 0; AConnect 0 false; AClosed 0].
Definition after_relay_down (events : list SignedEvent) : Pub :=
  default (start tiny []) (perform_all tiny relay_down (start tiny events)).

Lemma after_relay_down_reached events :
  rtc (pub_step tiny) (start tiny events) (after_relay_down events)
  /\ done (after_relay_down events) = true /\ source_failed (after_relay_down events) = false
  /\ acked_ids (after_relay_down events) = [].
Proof.
  split; [|by vm_compute]. eapply (perform_steps tiny relay_down). vm_compute. reflexivity.
Qed.

Definition sign_nothing {A} (a : A) : SignedEvent := {| event_id := "e"; event_json := "{}" |}.

Definition down_env : PipeEnv := pipe_env
  (fun _ inputs dels =>
     report "pk" sign_nothing sign_nothing inputs dels
       (after_relay_down (sign_publish_events "pk" sign_nothing sign_nothing inputs dels)) ∅)
  (fun _ => None).

