(* ===== verification/LeaderLock.v ===== *)
(** * The leader lock ([src/app/services/leader_lock.py])

    One Redis key with a deadline.  [acquire_or_renew_leader] is up to three
    commands; between two of them time passes and other instances act.  [stage] is
    where an instance's call is, [grants] the calls that answered true and when. *)

From Stdlib Require Import Ascii String.
From S2P Require Import Prelude.
From stdpp Require Import list.
Local Open Scope string_scope.
Local Open Scope Z_scope.

Definition SCHEDULER_LOCK_KEY := "lock:scheduler:leader".
Definition BILLING_LOCK_KEY := "lock:billing:leader".

(** Before the [GET], or before the [SET XX]. *)
Inductive stage := BeforeGet | BeforeRenew.

Record Lock := {
  now_ms : Z;
  (* The value and when it expires. *)
  held_by : option (string * Z);
  calls : gmap string stage;
  grants : list (string * Z);
}.

(** What Redis answers to [GET]: an expired key is no key. *)
Definition current (l : Lock) : option string :=
  match held_by l with
  | Some (who, until) => if now_ms l <? until then Some who else None
  | None => None
  end.

Section lock.
Context (ttl_ms : Z).

(** [SET key id NX PX ttl]. *)
Definition set_nx (who : string) (l : Lock) : bool * Lock :=
  match current l with
  | None => (true, {| now_ms := now_ms l; held_by := Some (who, now_ms l + ttl_ms); calls := calls l;
                      grants := grants l |})
  | Some _ => (false, l)
  end.

(** [SET key id XX PX ttl]. *)
Definition set_xx (who : string) (l : Lock) : Lock :=
  match current l with
  | None => l
  | Some _ => {| now_ms := now_ms l; held_by := Some (who, now_ms l + ttl_ms); calls := calls l;
                 grants := grants l |}
  end.

Definition at_stage (l : Lock) (who : string) (st : stage) : Lock :=
  {| now_ms := now_ms l; held_by := held_by l; calls := <[who := st]> (calls l); grants := grants l |}.
Definition returns (l : Lock) (who : string) (answer : bool) : Lock :=
  {| now_ms := now_ms l; held_by := held_by l; calls := delete who (calls l);
     grants := if answer then (who, now_ms l) :: grants l else grants l |}.

(** [acquire_or_renew_leader], command by command. *)
Definition acquire_first (who : string) (l : Lock) : Lock :=
  let '(ok, l') := set_nx who l in
  if ok then returns l' who true else at_stage l' who BeforeGet.
Definition acquire_get (who : string) (l : Lock) : Lock :=
  if decide (current l = Some who) then at_stage l who BeforeRenew else returns l who false.
Definition acquire_renew (who : string) (l : Lock) : Lock := returns (set_xx who l) who true.

Definition wait (d : Z) (l : Lock) : Lock :=
  {| now_ms := now_ms l + d; held_by := held_by l; calls := calls l; grants := grants l |}.

Inductive lock_step (l : Lock) : Lock -> Prop :=
  | l_first who : calls l !! who = None -> lock_step l (acquire_first who l)
  | l_get who : calls l !! who = Some BeforeGet -> lock_step l (acquire_get who l)
  | l_renew who : calls l !! who = Some BeforeRenew -> lock_step l (acquire_renew who l)
  | l_dies who : lock_step l (returns l who false)
  | l_wait d : 0 <= d -> lock_step l (wait d l).

(** The same, when no lock expires between an instance's [GET] and its renewal. *)
Inductive prompt_step (l : Lock) : Lock -> Prop :=
  | prompt l' : lock_step l l' ->
      (forall who, l' = acquire_renew who l -> calls l !! who = Some BeforeRenew -> current l = Some who) ->
      prompt_step l l'.

Definition free_lock : Lock := {| now_ms := 0; held_by := None; calls := ∅; grants := [] |}.

(** Whoever was told it leads still holds the lock, for the time it was promised. *)
Definition kept (l : Lock) : Prop :=
  (forall who t, (who, t) ∈ grants l ->
     t <= now_ms l /\ (now_ms l < t + ttl_ms -> exists until, held_by l = Some (who, until) /\ t + ttl_ms <= until))
  /\ forall a b t u, (a, t) ∈ grants l -> (b, u) ∈ grants l -> a <> b -> ttl_ms <= Z.abs (t - u).

(** A grant to the holder: nobody else was promised this moment. *)
Lemma kept_grant l who until :
  0 < ttl_ms -> kept l -> (current l = None \/ current l = Some who) -> until = now_ms l + ttl_ms ->
  kept (returns {| now_ms := now_ms l; held_by := Some (who, until); calls := calls l; grants := grants l |} who true).
Proof using.
  intros Httl [Hk Hs] Hc ->.
  assert (Hother : forall b u, (b, u) ∈ grants l -> b <> who -> u + ttl_ms <= now_ms l).
  { intros b u Hb Hne. destruct (Hk b u Hb) as [_ Hp]. apply Z.nlt_ge. intros Hlt.
    destruct (Hp Hlt) as (un & Hh & Hu). unfold current in Hc. rewrite Hh in Hc.
    destruct (Z.ltb_spec (now_ms l) un); [|lia]. destruct Hc as [?|[= ?]]; done. }
  split; simpl.
  - intros b u [[= -> ->]|Hb]%elem_of_cons; [split; [lia|eauto with lia]|].
    destruct (Hk b u Hb) as [Hle Hp]. split; [done|]. intros Hlt. destruct (decide (b = who)) as [->|Hne].
    + exists (now_ms l + ttl_ms). split; [done|lia].
    + specialize (Hother b u Hb Hne). lia.
  - intros a b t u [[= -> ->]|Ha]%elem_of_cons [[= -> ->]|Hb]%elem_of_cons Hne; [done| | |by eapply Hs].
    + specialize (Hother b u Hb ltac:(congruence)). lia.
    + specialize (Hother a t Ha Hne). lia.
Qed.

Lemma kept_same l l' :
  kept l -> now_ms l' = now_ms l -> held_by l' = held_by l -> grants l' = grants l -> kept l'.
Proof using. intros [H1 H2] E1 E2 E3. split; rewrite ?E1, ?E2, ?E3; done. Qed.

Lemma kept_step l l' : 0 < ttl_ms -> kept l -> prompt_step l l' -> kept l'.
Proof using.
  intros Httl Hk Hp. destruct Hp as [l' Hs Hprompt]. destruct Hs as [who Hc|who Hc|who Hc|who|d Hd].
  - unfold acquire_first, set_nx. destruct (current l) eqn:E; [by eapply kept_same|].
    apply kept_grant; [done|done|by left|done].
  - unfold acquire_get. destruct (decide _); by eapply kept_same.
  - specialize (Hprompt who eq_refl Hc). unfold acquire_renew, set_xx. rewrite Hprompt.
    apply kept_grant; [done|done|by right|done].
  - by eapply kept_same.
  - destruct Hk as [H1 H2]. split; simpl; [|done]. intros who t Hg. destruct (H1 who t Hg) as [Hle Hh].
    split; [lia|]. intros Hlt. apply Hh. lia.
Qed.

(** As long as no lock expires between an instance's read of it and its renewal,
    at most one instance leads at a time: two calls of different instances that both
    answer true are at least the lock's lifetime apart. *)
Theorem one_leader l a b t u :
  0 < ttl_ms -> rtc prompt_step free_lock l ->
  (a, t) ∈ grants l -> (b, u) ∈ grants l -> a <> b -> ttl_ms <= Z.abs (t - u).
Proof using.
  intros Httl Hr. enough (Hk : kept l) by apply Hk.
  assert (G : forall l0, kept l0 -> rtc prompt_step l0 l -> kept l).
  { clear Hr. intros l0 H0 Hr0. revert H0. induction Hr0 as [l0|l0 l1 l2 H01 _ IH]; intros H0; [done|].
    apply IH. by eapply kept_step. }
  apply (G free_lock); [|done]. split; simpl; [by intros ?? ?%elem_of_nil|by intros ???? ?%elem_of_nil].
Qed.
End lock.

(** ** Runs *)

Lemma one_leader_witness :
  exists l, rtc (prompt_step 60) free_lock l /\ ("a", 0) ∈ grants l /\ ("b", 60) ∈ grants l
            /\ 60 <= Z.abs (0 - 60).
Proof.
  set (l1 := acquire_first 60 "a" free_lock). set (l2 := wait 60 l1). set (l3 := acquire_first 60 "b" l2).
  assert (Hidle : forall l l', calls l = ∅ -> lock_step 60 l l' -> prompt_step 60 l l').
  { intros l l' Hc Hs. split; [done|]. intros who _ Hw. by rewrite Hc, lookup_empty in Hw. }
  assert (Hr : rtc (prompt_step 60) free_lock l3).
  { eapply rtc_l; [apply (Hidle free_lock l1); [done|by apply l_first]|].
    eapply rtc_l; [apply (Hidle l1 l2); [by vm_compute|by apply l_wait]|].
    eapply rtc_l; [apply (Hidle l2 l3); [by vm_compute|by apply l_first]|apply rtc_refl]. }
  exists l3. split; [exact Hr|]. split; [by vm_compute; repeat constructor|].
  split; [by vm_compute; repeat constructor|].
  apply (one_leader 60 l3 "a" "b" 0 60 ltac:(lia) Hr); [by vm_compute; repeat constructor..|done].
Defined.

(** Without that: the lock expires after the leader has read it and before it renews
    it; another instance takes it, and the renewal overwrites the new leader's. Both
    calls answer true within a millisecond. *)
Definition race : Lock :=
  let l1 := acquire_first 60 "a" free_lock in
  let l2 := wait 59 l1 in
  let l3 := acquire_get "a" (acquire_first 60 "a" l2) in
  let l4 := wait 1 l3 in
  let l5 := acquire_first 60 "b" l4 in
  acquire_renew 60 "a" l5.

Example two_leaders :
  rtc (lock_step 60) free_lock race /\ ("a", 60) ∈ grants race /\ ("b", 60) ∈ grants race.
Proof.
  split; [|split; vm_compute; repeat constructor].
  eapply rtc_l; [by apply (l_first 60 free_lock "a")|].
  eapply rtc_l; [by apply (l_wait 60 _ 59)|].
  eapply rtc_l; [by apply (l_first 60 _ "a")|].
  eapply rtc_l; [by apply (l_get 60 _ "a")|].
  eapply rtc_l; [by apply (l_wait 60 _ 1)|].
  eapply rtc_l; [by apply (l_first 60 _ "b")|].
  eapply rtc_l; [by apply (l_renew 60 _ "a")|]. apply rtc_refl.
Qed.
