(* ===== verification/Tables.v ===== *)
(** * Tables keyed by a serial id

    A table is a map from ids to rows that carry their id; a SELECT with an ORDER BY
    is a sort of the rows that match.  Inserting under the next id appends to the
    selection in id order, updating a row in place keeps its position, and two tables
    with the same matching rows give the same listing under any total order. *)

From Stdlib Require Import Ascii String.
From S2P Require Import Prelude.
From stdpp Require Import list.
Local Open Scope Z_scope.

(** ** Sorted lists of the same elements *)

Lemma sorted_unique {A} (R : A -> A -> Prop) (l1 l2 : list A) :
  (forall x y, x ∈ l1 -> y ∈ l1 -> R x y -> R y x -> x = y) ->
  StronglySorted R l1 -> StronglySorted R l2 -> l1 ≡ₚ l2 -> l1 = l2.
Proof.
  intros Has H1. revert l2 Has. induction H1 as [|x l1 H1 IH Hx]; intros l2 Has H2 Hp.
  { apply Permutation_nil_l in Hp. done. }
  destruct H2 as [|y l2 H2 Hy]; [by apply Permutation_nil_r in Hp|].
  assert (x = y) as ->.
  { assert (Hxin : x ∈ y :: l2) by (rewrite <- Hp; left). assert (Hyin : y ∈ x :: l1) by (rewrite Hp; left).
    apply elem_of_cons in Hxin as [?|Hxin]; [done|]. apply elem_of_cons in Hyin as [?|Hyin]; [done|].
    apply Has; [left|by right| |].
    - rewrite Forall_forall in Hx. by apply Hx.
    - rewrite Forall_forall in Hy. by apply Hy. }
  f_equal. apply IH; [|done|by apply Permutation_cons_inv in Hp].
  intros a b Ha Hb. apply Has; by right.
Qed.

Lemma stable_sort_unique {A} (leb : A -> A -> bool) (l1 l2 : list A) :
  (forall x y, leb x y = true \/ leb y x = true) ->
  (forall x y z, leb x y = true -> leb y z = true -> leb x z = true) ->
  (forall x y, x ∈ l1 -> y ∈ l1 -> leb x y = true -> leb y x = true -> x = y) ->
  l1 ≡ₚ l2 -> stable_sort leb l1 = stable_sort leb l2.
Proof.
  intros Htot Htr Has Hp. eapply (sorted_unique (leb_rel leb)).
  - intros x y Hx Hy. rewrite stable_sort_elem in Hx, Hy. by apply Has.
  - by apply stable_sort_sorted.
  - by apply stable_sort_sorted.
  - by rewrite !stable_sort_perm.
Qed.

(** *** Text, in the order of its characters *)

Lemma str_leb_trans (x y z : string) : String.leb x y = true -> String.leb y z = true -> String.leb x z = true.
Proof.
  unfold String.leb. revert y z. induction x as [|a x IH]; intros [|b y] [|c z]; simpl; try done.
  destruct (Ascii.compare a b) eqn:Eab, (Ascii.compare b c) eqn:Ebc; try done; intros H1 H2.
  - apply Ascii.compare_eq_iff in Eab as ->, Ebc as ->.
    rewrite (proj2 (N.compare_eq_iff _ _) eq_refl : Ascii.compare c c = Eq). by eapply IH.
  - apply Ascii.compare_eq_iff in Eab as ->. by rewrite Ebc.
  - apply Ascii.compare_eq_iff in Ebc as <-. by rewrite Eab.
  - unfold Ascii.compare in *. rewrite N.compare_lt_iff in Eab, Ebc.
    by rewrite (proj2 (N.compare_lt_iff _ _) (N.lt_trans _ _ _ Eab Ebc)).
Qed.

Lemma str_sorted (l : list string) : StronglySorted (leb_rel String.leb) (stable_sort String.leb l).
Proof. apply stable_sort_sorted; [apply String.leb_total|apply str_leb_trans]. Qed.

(** The strict order. *)
Definition str_lt (a b : string) : bool := negb (String.leb b a).

Lemma str_lt_spec a b : str_lt a b = true <-> String.leb b a = false.
Proof. unfold str_lt. by rewrite negb_true_iff. Qed.

Lemma str_lt_leb a b : str_lt a b = true -> String.leb a b = true.
Proof. rewrite str_lt_spec. intros H. destruct (String.leb_total a b); [done|congruence]. Qed.

Lemma str_lt_trans a b c : str_lt a b = true -> str_lt b c = true -> str_lt a c = true.
Proof.
  rewrite !str_lt_spec. intros H1 H2. apply not_true_iff_false. intros H3.
  destruct (String.leb_total c b) as [H|H]; [congruence|].
  by rewrite (str_leb_trans b c a H H3) in H1.
Qed.

Lemma str_lt_irrefl a : str_lt a a = false.
Proof. unfold str_lt. by destruct (String.leb_total a a) as [-> | ->]. Qed.

Lemma str_lt_empty s : str_lt "" s = true <-> s <> "".
Proof. destruct s; by split. Qed.

(** In a sorted list the front is below the back. *)
Lemma sorted_split {A} (R : A -> A -> Prop) l1 l2 x y :
  StronglySorted R (l1 ++ l2) -> x ∈ l1 -> y ∈ l2 -> R x y.
Proof.
  induction l1 as [|z l1 IH]; simpl; [set_solver|]. inversion 1 as [|?? Hs Hall]; subst.
  intros [->|Hx]%elem_of_cons Hy; [|by apply IH].
  rewrite Forall_forall in Hall. apply Hall. set_solver.
Qed.

(** ** Rows of a table *)

Section table.
Context {V : Type} (id : V -> Z).

Definition keyed (m : gmap Z V) : Prop := forall i v, m !! i = Some v -> id v = i.
Definition rows (m : gmap Z V) : list V := (map_to_list m).*2.
Definition by_id (a b : V) : bool := id a <=? id b.

Lemma rows_elem m v : keyed m -> v ∈ rows m <-> m !! id v = Some v.
Proof.
  intros Hk. unfold rows. rewrite list_elem_of_fmap. split.
  - intros ([i w] & -> & Hin%elem_of_map_to_list). simpl. by rewrite (Hk _ _ Hin).
  - intros H. exists (id v, v). split; [done|]. by apply elem_of_map_to_list.
Qed.

Lemma rows_NoDup m : keyed m -> NoDup (rows m).
Proof.
  intros Hk. unfold rows. apply NoDup_fmap_2_strong; [|apply NoDup_map_to_list].
  intros [i v] [j w] Hi%elem_of_map_to_list Hj%elem_of_map_to_list. simpl. intros <-.
  by rewrite <- (Hk _ _ Hi), <- (Hk _ _ Hj).
Qed.

Lemma rows_insert m v : m !! id v = None -> rows (<[id v := v]> m) ≡ₚ v :: rows m.
Proof. intros H. unfold rows. by rewrite map_to_list_insert. Qed.

Lemma by_id_sorted l : StronglySorted (leb_rel by_id) (stable_sort by_id l).
Proof. apply stable_sort_sorted; unfold by_id; intros; lia. Qed.

(** [SELECT ... WHERE p ORDER BY id]. *)
Definition select (p : V -> Prop) `{forall v, Decision (p v)} (m : gmap Z V) : list V :=
  stable_sort by_id (filter p (rows m)).

Lemma select_elem p `{forall v, Decision (p v)} m v :
  keyed m -> v ∈ select p m <-> p v /\ m !! id v = Some v.
Proof. intros Hk. unfold select. by rewrite stable_sort_elem, list_elem_of_filter, rows_elem. Qed.

(** A row under a new, larger id comes last. *)
Lemma select_insert p `{forall v, Decision (p v)} m v :
  keyed m -> (forall i w, m !! i = Some w -> i < id v) ->
  select p (<[id v := v]> m) = select p m ++ (if decide (p v) then [v] else []).
Proof.
  intros Hk Hmax.
  assert (Hnone : m !! id v = None) by (destruct (m !! id v) eqn:E; [apply Hmax in E; lia|done]).
  assert (Hk' : keyed (<[id v := v]> m)) by (intros i w [[<- <-]|[_ ?]]%lookup_insert_Some; auto).
  apply (sorted_unique (leb_rel by_id)).
  - unfold leb_rel, by_id. intros x y [_ Hx]%(select_elem _ _ _ Hk') [_ Hy]%(select_elem _ _ _ Hk') Hxy Hyx.
    assert (id x = id y) as E by lia. rewrite E in Hx. congruence.
  - apply by_id_sorted.
  - case_decide; [|rewrite app_nil_r; apply by_id_sorted].
    assert (Hall : Forall (fun x => leb_rel by_id x v) (select p m)).
    { apply Forall_forall. intros x [_ Hx%Hmax]%(select_elem _ _ _ Hk). unfold leb_rel, by_id. lia. }
    pose proof (by_id_sorted (filter p (rows m))) as Hs. fold (select p m) in Hs.
    induction Hs as [|x l Hs IH Hx]; simpl; [by repeat constructor|].
    apply Forall_cons in Hall as [Hxv Hall]. constructor; [auto|]. apply Forall_app; split; [done|].
    by apply Forall_singleton.
  - unfold select. rewrite !stable_sort_perm, (rows_insert _ _ Hnone), filter_cons. case_decide.
    + by rewrite Permutation_app_comm.
    + by rewrite app_nil_r.
Qed.
End table.
