(* ===== verification/RateLimit.v ===== *)
(** * Rate limits ([src/app/utils/rate_limiting/rate_limiting.py])

    A fixed window per bucket: INCR, an EXPIRE by the caller who was counted
    first, and a refusal past the limit.  The three commands are separate, so
    other callers, time and failures come between them.  [Redis] is the counters
    with the moment each falls due, and two histories: what INCR has replied, and
    which requests went on to their endpoint, with the moments they came and went on.

    [rate_bounded] bounds the requests that go on whatever the interleaving, and
    [spoofed_hops_ignored] says whose word the bucket's address is. *)

From Stdlib Require Import Ascii String.
From S2P Require Import Prelude Json Atomic.
From stdpp Require Import list.
Local Open Scope string_scope.
Local Open Scope Z_scope.

(** ** Redis, as far as a window uses it; times in milliseconds *)

Record Redis := {
  redis_now : Z;
  counters : gmap string (Z * option Z);
  answers : list (string * (Z * Z));
  passages : list (string * (Z * Z));
}.

(** A key past its deadline is as good as gone. *)
Definition live (r : Redis) (key : string) : option (Z * option Z) :=
  match counters r !! key with
  | Some (v, Some d) => if redis_now r <? d then Some (v, Some d) else None
  | o => o
  end.

Definition incr (key : string) : TX Redis Z := fun r =>
  let '(v, d) := match live r key with Some (v, d) => (v + 1, d) | None => (1, None) end in
  (Ok v, {| redis_now := redis_now r; counters := <[key := (v, d)]> (counters r);
            answers := answers r ++ [(key, (redis_now r, v))]; passages := passages r |}).

Definition expire (key : string) (seconds : Z) : TX Redis unit := writes (fun r =>
  match live r key with
  | Some (v, _) =>
      {| redis_now := redis_now r; answers := answers r; passages := passages r;
         counters := <[key := (v, Some (redis_now r + 1000 * seconds))]> (counters r) |}
  | None => r
  end).

(** Seconds, to the nearest; -1 without a deadline, -2 without a key. *)
Definition ttl (key : string) : TX Redis Z := reads (fun r =>
  match live r key with
  | Some (_, Some d) => (d - redis_now r + 500) / 1000
  | Some (_, None) => -1
  | None => -2
  end).

(** ** The window *)

Record RateLimitPolicy := { key_prefix : string; limit : Z; window_seconds : Z }.

Definition GRAPERANK_POLICY : RateLimitPolicy :=
  {| key_prefix := "graperank"; limit := 3; window_seconds := 1800 |}.

(** [None] lets the caller on; [Some s] is the Retry-After of a 429. *)
Definition window_verdict (key : string) (limit window : Z) : act Redis (option Z) :=
  current ← Tx (incr key) Ret;
  _ ← (if current =? 1 then Tx (expire key window) Ret else mret tt);
  if limit <? current then
    retry_after ← Tx (ttl key) Ret;
    mret (Some (if retry_after <? 1 then window else retry_after))
  else mret None.

Definition enforce_window (key : string) (limit window : Z) : act Redis unit :=
  v ← window_verdict key limit window;
  match v with None => mret tt | Some _ => throw (HTTPException 429) end.

(** An endpoint behind the limit: the check is a dependency, resolved before the
    endpoint's own code; what that does is noted as one passage, with the moment the
    request came and the moment it went on. *)
Definition note_passage (key : string) (began : Z) : TX Redis unit := writes (fun r =>
  {| redis_now := redis_now r; counters := counters r; answers := answers r;
     passages := passages r ++ [(key, (began, redis_now r))] |}).
Definition guarded (key : string) (limit window : Z) : act Redis unit :=
  began ← Tx (reads redis_now) Ret;
  _ ← enforce_window key limit window;
  Tx (note_passage key began) Ret.

(** ** Whose request it is *)

(** [[hop.strip() for hop in forwarded.split(",") if hop.strip()]]. *)
Definition forwarded_hops (forwarded : string) : list string :=
  filter (fun h => h <> "") (map py_strip (py_split "," forwarded)).

(** [peer] is the connection's own address, when it has one. *)
Definition resolve_client_ip (trusted_proxy_hops : Z) (forwarded : string) (peer : option string) : string :=
  let hops := forwarded_hops forwarded in
  if (1 <=? trusted_proxy_hops) && (trusted_proxy_hops <=? Z.of_nat (length hops))
  then default "" (hops !! (length hops - Z.to_nat trusted_proxy_hops)%nat)
  else default "unknown" peer.

Definition REFRESH_RATE_LIMIT : Z := 12.
Definition REFRESH_WINDOW_SECONDS : Z := 60.
Definition validate_subscription_refresh_allowed (pubkey : string) : act Redis unit :=
  enforce_window ("rate_limit:billing_refresh:" ++ pubkey) REFRESH_RATE_LIMIT REFRESH_WINDOW_SECONDS.

Definition FLASH_RECORD_RATE_LIMIT : Z := 30.
Definition FLASH_RECORD_WINDOW_SECONDS : Z := 60.
Definition validate_flash_record_read_allowed (operator_pubkey : string) : act Redis unit :=
  enforce_window ("rate_limit:billing_flash_record:" ++ operator_pubkey)
    FLASH_RECORD_RATE_LIMIT FLASH_RECORD_WINDOW_SECONDS.

Definition SUPPORT_MESSAGE_RATE_LIMIT : Z := 20.
Definition SUPPORT_MESSAGE_WINDOW_SECONDS : Z := 60.
Definition validate_support_message_allowed (pubkey : string) : act Redis unit :=
  enforce_window ("rate_limit:support_message:" ++ pubkey)
    SUPPORT_MESSAGE_RATE_LIMIT SUPPORT_MESSAGE_WINDOW_SECONDS.

Local Open Scope list_scope.

(** ** What INCR has answered on one key *)

Definition replies (key : string) (r : Redis) : list (Z * Z) :=
  (filter (fun a => a.1 = key) (answers r)).*2.

(** The replies within the limit in [[from, from + span)]. *)
Definition within_limit (key : string) (limit from span : Z) (r : Redis) : list (Z * Z) :=
  filter (fun a => from <= a.1 < from + span /\ a.2 <= limit) (replies key r).

(** The requests that came and went on to their endpoint inside [[from, from + span)]. *)
Definition got_through (key : string) (from span : Z) (r : Redis) : list (Z * Z) :=
  filter (fun a => from <= a.1 /\ a.2 < from + span) (filter (fun a => a.1 = key) (passages r)).*2.

(** Times never go back; a reply is one more than the last, or 1 again; and
    whoever is answered 1 comes a whole span after the last one who was. *)
Fixpoint windowed (span : Z) (start : option Z) (last : Z * Z) (l : list (Z * Z)) : Prop :=
  match l with
  | [] => True
  | (t, v) :: l' =>
      last.1 <= t /\ (v = last.2 + 1 /\ 1 < v \/ v = 1 /\ from_option (fun t0 => t0 + span <= t) True start)
      /\ windowed span (if v =? 1 then Some t else start) (t, v) l'
  end.

(** Where a history leaves off: the last reply of 1, and the last reply. *)
Fixpoint after (start : option Z) (last : Z * Z) (l : list (Z * Z)) : option Z * (Z * Z) :=
  match l with
  | [] => (start, last)
  | (t, v) :: l' => after (if v =? 1 then Some t else start) (t, v) l'
  end.

Lemma windowed_snoc span l t v : forall start last, windowed span start last (l ++ [(t, v)]) <->
  windowed span start last l
  /\ let '(st, la) := after start last l in
     la.1 <= t /\ (v = la.2 + 1 /\ 1 < v \/ v = 1 /\ from_option (fun t0 => t0 + span <= t) True st).
Proof.
  induction l as [|[t0 v0] l IH]; intros start last; simpl; [tauto|]. rewrite IH. tauto.
Qed.

Lemma after_snoc l t v : forall start last,
  after start last (l ++ [(t, v)]) = (if v =? 1 then Some t else (after start last l).1, (t, v)).
Proof. induction l as [|[t0 v0] l IH]; intros start last; simpl; [done|apply IH]. Qed.

Section bound.
Context (limit from span : Z).
Local Notation counted := (fun a : Z * Z => from <= a.1 < from + span /\ a.2 <= limit).

Lemma counted_late l start last : from + span <= last.1 -> windowed span start last l ->
  filter counted l = [].
Proof.
  revert start last. induction l as [|[t v] l IH]; intros start last Hl; [done|].
  intros (Ht & _ & Hw). rewrite filter_cons_False by (simpl; lia). eapply IH; [|done]. simpl. lia.
Qed.

(** In a generation that began inside the span, nothing follows the next start. *)
Lemma counted_last l start last t0 : start = Some t0 -> from <= t0 -> from <= last.1 ->
  windowed span start last l -> Z.of_nat (length (filter counted l)) <= Z.max 0 (limit - last.2).
Proof.
  revert start last t0. induction l as [|[t v] l IH]; intros start last t0 -> H0 Hl; [simpl; lia|].
  intros (Ht & [[Hv Hv1]|[-> Hs]] & Hw).
  - replace (v =? 1) with false in Hw by lia. specialize (IH (Some t0) (t, v) t0 eq_refl H0 ltac:(simpl; lia) Hw).
    simpl in IH. destruct (decide (counted (t, v))) as [Hc|Hc].
    + rewrite filter_cons_True by done. simpl in *. lia.
    + rewrite filter_cons_False by done. simpl in *. lia.
  - simpl in Hs. rewrite filter_cons_False by (simpl; lia).
    rewrite (counted_late l (Some t) (t, 1)) by (simpl; first [done|lia]). simpl. lia.
Qed.

(** One generation may run into the span, and one more may begin in it. *)
Lemma counted_inside l start last : from <= last.1 -> windowed span start last l ->
  Z.of_nat (length (filter counted l)) <= Z.max 0 (limit - last.2) + Z.max 0 limit.
Proof.
  revert start last. induction l as [|[t v] l IH]; intros start last Hl; [simpl; lia|].
  intros (Ht & [[Hv Hv1]|[-> Hs]] & Hw).
  - specialize (IH _ (t, v) ltac:(simpl; lia) Hw). simpl in IH.
    destruct (decide (counted (t, v))) as [Hc|Hc].
    + rewrite filter_cons_True by done. simpl in *. lia.
    + rewrite filter_cons_False by done. simpl in *. lia.
  - pose proof (counted_last l (Some t) (t, 1) t eq_refl ltac:(lia) ltac:(simpl; lia) Hw) as IH2.
    simpl in IH2. destruct (decide (counted (t, 1))) as [Hc|Hc].
    + rewrite filter_cons_True by done. simpl in *. lia.
    + rewrite filter_cons_False by done. simpl in *. lia.
Qed.

Lemma counted_bound l start last : 0 <= last.2 -> windowed span start last l ->
  Z.of_nat (length (filter counted l)) <= 2 * Z.max 0 limit.
Proof.
  revert start last. induction l as [|[t v] l IH]; intros start last Hl; [simpl; lia|].
  intros (Ht & Hv & Hw).
  assert (Hv1 : 1 <= v) by (destruct Hv as [[_ Hv]|[-> _]]; lia).
  destruct (decide (counted (t, v))) as [Hc|Hc].
  - rewrite filter_cons_True by done. simpl in Hc.
    pose proof (counted_inside l _ (t, v) ltac:(simpl; lia) Hw) as H. simpl in *. lia.
  - rewrite filter_cons_False by done. eapply IH; [|done]. simpl. lia.
Qed.
End bound.

(** ** The commands keep the history windowed *)

Section windows.
(** Every bucket has one window. *)
Context (limit_of window_of : string -> Z).

Definition window_ok (r : Redis) (key : string) : Prop :=
  exists lo, windowed (1000 * window_of key) None (lo, 0) (replies key r) /\ lo <= redis_now r /\
    let '(start, last) := after None (lo, 0) (replies key r) in
    last.1 <= redis_now r /\
    match counters r !! key with
    | None => start = None /\ last.2 = 0
    | Some (v, d) => v = last.2 /\ 1 <= v /\ exists t0, start = Some t0 /\ t0 <= redis_now r
        /\ from_option (fun d => t0 + 1000 * window_of key <= d) True d
    end.

Definition windows_ok (r : Redis) : Prop := forall key, window_ok r key.
Definition no_earlier (r r' : Redis) : Prop := redis_now r <= redis_now r'.

Lemma no_earlier_refl r : no_earlier r r.
Proof. unfold no_earlier. lia. Qed.
Lemma no_earlier_trans r1 r2 r3 : no_earlier r1 r2 -> no_earlier r2 r3 -> no_earlier r1 r3.
Proof. unfold no_earlier. lia. Qed.

Lemma replies_answer key key' t v now cs l ps :
  replies key' {| redis_now := now; counters := cs; answers := l ++ [(key, (t, v))]; passages := ps |} =
  replies key' {| redis_now := now; counters := cs; answers := l; passages := ps |}
    ++ (if decide (key = key') then [(t, v)] else []).
Proof.
  unfold replies. simpl. rewrite filter_app, fmap_app. f_equal. case_decide as H.
  - by rewrite filter_cons_True.
  - by rewrite filter_cons_False.
Qed.

Lemma live_gone r key v d : counters r !! key = Some (v, d) -> live r key = None ->
  exists due, d = Some due /\ due <= redis_now r.
Proof.
  unfold live. intros ->. destruct d as [due|]; [|done].
  destruct (Z.ltb_spec (redis_now r) due); [done|eauto].
Qed.

Lemma live_stored r key v d : live r key = Some (v, d) -> counters r !! key = Some (v, d).
Proof. unfold live. destruct (counters r !! key) as [[v0 [due|]]|]; [destruct (_ <? _)| |]; congruence. Qed.

Lemma incr_keeps key : keeps no_earlier windows_ok (incr key).
Proof.
  intros r H. unfold incr. destruct (match live r key with Some (v, d) => _ | None => _ end) as [v d] eqn:E.
  split; [|unfold no_earlier; simpl; lia]. intros key'. simpl. destruct (H key') as (lo & Hw & Hlo & Hl). exists lo.
  rewrite replies_answer. destruct (decide (key = key')) as [<-|Hne]; simpl.
  2:{ rewrite app_nil_r, lookup_insert_ne by done. done. }
  change (replies key {| redis_now := redis_now r; counters := _; answers := answers r; passages := _ |}) with (replies key r).
  rewrite windowed_snoc, after_snoc, lookup_insert_eq. simpl.
  destruct (after None (lo, 0) (replies key r)) as [start last]. destruct Hl as [Hnow Hst].
  destruct (live r key) as [[v0 d0]|] eqn:El; injection E as <- <-.
  - rewrite (live_stored _ _ _ _ El) in Hst. destruct Hst as (-> & H1 & t0 & -> & Ht0 & Hd).
    replace (last.2 + 1 =? 1) with false by lia.
    split; [split; [done|split; [done|left; lia]]|]. split; [done|]. split; [lia|].
    split; [done|]. split; [lia|eauto].
  - split; [split; [done|split; [done|right; split; [done|]]]|].
    + destruct (counters r !! key) as [[v d]|] eqn:Ek; [|by destruct Hst as [-> _]].
      destruct (live_gone _ _ _ _ Ek El) as (due & -> & Hdue). destruct Hst as (_ & _ & t0 & -> & _ & Hd).
      simpl in *. lia.
    + split; [done|]. split; [lia|]. split; [done|]. split; [lia|]. exists (redis_now r). split; [done|]. split; [lia|done].
Qed.

Lemma expire_keeps key : keeps no_earlier windows_ok (expire key (window_of key)).
Proof.
  intros r H. unfold expire, writes. simpl. destruct (live r key) as [[v d]|] eqn:El; [|by split; [|apply no_earlier_refl]].
  split; [|unfold no_earlier; simpl; lia]. intros key'. destruct (H key') as (lo & Hw & Hlo & Hl).
  exists lo. simpl. change (replies key' {| redis_now := _; counters := _; answers := answers r; passages := _ |}) with (replies key' r).
  split; [done|]. split; [done|]. destruct (after None (lo, 0) (replies key' r)) as [start last].
  destruct Hl as [Hnow Hst]. split; [done|]. destruct (decide (key = key')) as [<-|Hne].
  - rewrite lookup_insert_eq. rewrite (live_stored _ _ _ _ El) in Hst.
    destruct Hst as (-> & H1 & t0 & -> & Ht0 & _). split; [done|]. split; [done|]. exists t0. simpl. split; [done|]. lia.
  - by rewrite lookup_insert_ne.
Qed.

(** Requests to endpoints behind any buckets; time passes. *)
Inductive caller : act Redis unit -> Prop :=
  | a_caller key : caller (guarded key (limit_of key) (window_of key)).

Inductive time_passes (r : Redis) : Redis -> Prop :=
  | later t : redis_now r <= t ->
      time_passes r {| redis_now := t; counters := counters r; answers := answers r; passages := passages r |}.

Lemma time_keeps r r' : windows_ok r -> time_passes r r' -> step_ok no_earlier windows_ok r r'.
Proof.
  intros H [t Ht]. split; [|done]. intros k. destruct (H k) as (lo & Hw & Hlo & Hl). exists lo. split; [done|].
  split; [simpl; lia|]. change (replies k _) with (replies k r).
  destruct (after None (lo, 0) (replies k r)) as [start last]. destruct Hl as [Hnow Hst].
  split; [simpl; lia|]. simpl. destruct (counters r !! k) as [[v d]|]; [|done].
  destruct Hst as (-> & H1 & t0 & -> & Ht0 & Hd). split; [done|]. split; [done|]. exists t0. split; [done|].
  split; [lia|done].
Qed.

(** ** A request goes on only on a reply within the limit *)

Section tickets.
Context (key0 : string) (from : Z).
Let span : Z := 1000 * window_of key0.

(** The replies within the limit that no request has gone on with. *)
Definition unspent (r : Redis) : Z :=
  Z.of_nat (length (within_limit key0 (limit_of key0) from span r)) - Z.of_nat (length (got_through key0 from span r)).

Abbreviation holds := (pays no_earlier windows_ok unspent).

(** A reply inside the span that lets the request on. *)
Definition ticket (key : string) (t v : Z) : Z :=
  if decide (key = key0 /\ from <= t < from + span /\ v <= limit_of key0) then 1 else 0.

Lemma unspent_incr key r :
  (incr key r).1 = Ok (match live r key with Some (v, _) => v + 1 | None => 1 end)
  /\ unspent (incr key r).2 = unspent r + ticket key (redis_now r) (match live r key with Some (v, _) => v + 1 | None => 1 end).
Proof.
  unfold incr. set (v := match live r key with Some (v, _) => v + 1 | None => 1 end).
  assert (E : exists d, match live r key with Some (v, d) => (v + 1, d) | None => (1, None) end = (v, d))
    by (unfold v; destruct (live r key) as [[]|]; eauto). destruct E as [d ->]. split; [done|]. cbn [snd].
  unfold unspent, within_limit. rewrite replies_answer. unfold got_through, ticket. cbn [passages].
  change (replies key0 {| redis_now := redis_now r; counters := _; answers := answers r; passages := _ |}) with (replies key0 r).
  rewrite filter_app, length_app. destruct (decide (key = key0)) as [->|Hne].
  - destruct (decide (from <= redis_now r < from + span /\ v <= limit_of key0)) as [Hc|Hc].
    + rewrite filter_cons_True, decide_True by done. simpl. lia.
    + rewrite filter_cons_False, decide_False by (simpl; tauto). simpl. lia.
  - rewrite decide_False by tauto. simpl. lia.
Qed.

Lemma unspent_passage key began r :
  unspent (note_passage key began r).2
  = unspent r - (if decide (key = key0 /\ from <= began /\ redis_now r < from + span) then 1 else 0).
Proof.
  unfold unspent, note_passage, writes. cbn [snd]. unfold got_through at 1. cbn [passages].
  change (within_limit key0 (limit_of key0) from span {| redis_now := _; counters := _; answers := _; passages := _ |})
    with (within_limit key0 (limit_of key0) from span r).
  rewrite filter_app, fmap_app, filter_app, length_app. unfold got_through.
  destruct (decide (key = key0)) as [->|Hne].
  - rewrite (filter_cons_True (fun a : string * (Z * Z) => a.1 = key0)) by done. simpl.
    destruct (decide (from <= began /\ redis_now r < from + span)) as [Hc|Hc].
    + rewrite filter_cons_True, decide_True by done. simpl. lia.
    + rewrite filter_cons_False, decide_False by (simpl; tauto). simpl. lia.
  - rewrite (filter_cons_False (fun a : string * (Z * Z) => a.1 = key0)) by done. rewrite decide_False by tauto. simpl. lia.
Qed.

Lemma unspent_expire key seconds r : unspent (expire key seconds r).2 = unspent r.
Proof. unfold expire, writes. simpl. by destruct (live r key) as [[]|]. Qed.

Lemma incr_now key r : redis_now (incr key r).2 = redis_now r.
Proof. unfold incr. by destruct (live r key) as [[]|]. Qed.

(** Whoever is let on holds the ticket of a reply it got after it came. *)
Lemma enforce_holds key began s0 : began <= redis_now s0 ->
  holds s0 0 (enforce_window key (limit_of key) (window_of key)) (fun _ s n =>
    0 <= n /\ exists t, began <= t <= redis_now s /\ (key = key0 -> from <= t < from + span -> n = 1)).
Proof.
  intros Hb. pose proof no_earlier_refl as Hr. pose proof no_earlier_trans as Htr.
  unfold enforce_window, window_verdict. set (Q := fun (s : Redis) n t v =>
    0 <= n /\ began <= t <= redis_now s /\ n = ticket key t v).
  eapply pays_bind with (P := fun o s n => o = None -> exists t v, Q s n t v /\ v <= limit_of key); [done|done| |].
  2:{ intros [x|] s n _ H; [done|]. destruct (H eq_refl) as (t & v & (Hn & Ht & ->) & Hv). split; [done|].
      exists t. split; [done|]. intros -> Hin. unfold ticket. by rewrite decide_True. }
  eapply pays_bind with (P := fun v s n => exists t, Q s n t v); [done|done| |].
  { apply pays_tx. intros s Hs Hok. unfold no_earlier in Hs. split; [by apply incr_keeps|].
    destruct (unspent_incr key s) as [E1 E2]. set (v := match live s key with Some _ => _ | None => _ end) in *.
    assert (0 <= ticket key (redis_now s) v) by (unfold ticket; case_decide; lia). split; [lia|].
    exists (ticket key (redis_now s) v). split; [lia|]. intros a Ha. rewrite E1 in Ha. injection Ha as <-.
    exists (redis_now s). split; [done|]. split; [|done]. rewrite incr_now. lia. }
  intros v s1 n1 _ (t & Hn1 & Ht1 & Hv1).
  eapply pays_bind with (P := fun _ s n => Q s n t v); [done|done| |].
  { destruct (v =? 1); [|done]. apply pays_tx. intros s Hs Hok. unfold no_earlier in Hs.
    split; [by apply expire_keeps|]. rewrite unspent_expire. split; [lia|]. exists n1. split; [lia|]. intros a _.
    split; [done|]. split; [|done]. unfold expire, writes. simpl. destruct (live s key) as [[]|]; simpl; lia. }
  intros _ s2 n2 _ HQ. destruct (Z.ltb_spec (limit_of key) v) as [Hlt|Hle]; [|intros _; by exists t, v].
  eapply pays_bind with (P := fun _ _ _ => True); [done|done| |by intros x s n _ _ [=]].
  apply pays_tx. intros s Hs Hok. split; [by apply keeps_reads|]. destruct HQ as [Hn _]. simpl. split; [lia|]. exists n2. split; [lia|done].
Qed.

Lemma guarded_holds key s0 : holds s0 0 (guarded key (limit_of key) (window_of key)) (fun _ _ _ => True).
Proof.
  pose proof no_earlier_refl as Hr. pose proof no_earlier_trans as Htr. unfold guarded.
  eapply pays_bind with (P := fun began s n => n = 0 /\ began <= redis_now s); [done|done| |].
  { apply pays_tx. intros s Hs Hok. split; [by apply keeps_reads|]. simpl. split; [lia|]. exists 0. split; [lia|].
    intros a [= <-]. split; [done|lia]. }
  intros began s1 n1 _ [-> Hb]. eapply pays_bind; [done|done|by apply enforce_holds|].
  intros _ s2 n2 _ (Hn & t & Ht & Hticket). apply pays_tx. intros s Hs Hok. unfold no_earlier in Hs.
  rewrite unspent_passage. split; [|split; [|exists 0; split; [|done]]].
  - split; [|unfold no_earlier; simpl; lia]. intros k. destruct (Hok k) as (lo & Hw). by exists lo.
  - case_decide as Hc; [|lia]. destruct Hc as (-> & Hc1 & Hc2). rewrite Hticket by (done || lia). lia.
  - case_decide as Hc; [|lia]. destruct Hc as (-> & Hc1 & Hc2). rewrite Hticket by (done || lia). lia.
Qed.
End tickets.
End windows.

Definition no_answers (now : Z) : Redis := {| redis_now := now; counters := ∅; answers := []; passages := [] |}.

Lemma no_answers_ok window_of now : windows_ok window_of (no_answers now).
Proof. intros key. exists now. repeat split; done. Qed.

(** C38: whatever the requests, to endpoints behind any number of buckets, however their
    commands are interleaved, fail, or lose their answers, and whenever they die
    half-way: in any span as long as the bucket's window, at most twice the limit of
    requests come and are let on to their endpoint. *)
Theorem rate_bounded (limit_of window_of : string -> Z) now p key from :
  rtc (pool_step (caller limit_of window_of) time_passes) {| shared := no_answers now; running := ∅ |} p ->
  Z.of_nat (length (got_through key from (1000 * window_of key) (shared p))) <= 2 * Z.max 0 (limit_of key).
Proof.
  intros Hr. destruct (pool_tallied no_earlier (windows_ok window_of) (unspent limit_of window_of key from))
    with (handler := caller limit_of window_of) (outside := time_passes) (s := no_answers now) (p := p) as [Hok Hc]; try done.
  - apply no_earlier_refl.
  - apply no_earlier_trans.
  - intros h s0 [k] _. apply guarded_holds.
  - intros r r' H Ht. split; [by apply time_keeps|]. by destruct Ht.
  - apply no_answers_ok.
  - destruct (Hok key) as (lo & Hw & _). unfold unspent in Hc.
    pose proof (counted_bound (limit_of key) from _ _ None (lo, 0) ltac:(done) Hw) as Hb.
    unfold within_limit in Hc. simpl in Hb. lia.
Qed.

(** ** One caller alone *)

(** The reply a caller gets decides; a first caller also sets the window running. *)
Lemma enforce_alone key limit window r :
  let v := match live r key with Some (v, _) => v + 1 | None => 1 end in
  (run_act (enforce_window key limit window) r).1
    = (if limit <? v then Raise (HTTPException 429) else Ok tt).
Proof.
  unfold enforce_window, window_verdict. rewrite run_act_bind, run_act_bind, run_act_tx. unfold incr.
  destruct (live r key) as [[v d]|]; cbn [fst snd]; rewrite run_act_bind.
  all: destruct (_ =? 1); [rewrite run_act_tx; unfold expire, writes|].
  all: cbn -[Z.ltb live]; destruct (limit <? _); cbn -[Z.ltb live]; reflexivity.
Qed.

(** ** The client's address *)

Lemma split_chars_join sep a b :
  split_chars sep (a ++ sep :: b) = split_chars sep a ++ split_chars sep b.
Proof.
  induction a as [|c a IH]; simpl; [by rewrite Ascii.eqb_refl|].
  rewrite IH. destruct (Ascii.eqb c sep); [done|].
  destruct (split_chars sep a) as [|w ws] eqn:E; [|done].
  destruct a as [|c' a]; simpl in E; [done|]. destruct (Ascii.eqb c' sep); [done|]. by destruct (split_chars sep a).
Qed.

Lemma forwarded_hops_join a b :
  forwarded_hops (a ++ "," ++ b)%string = forwarded_hops a ++ forwarded_hops b.
Proof.
  unfold forwarded_hops, py_split. rewrite !chars_append. change (chars ",") with [","%char].
  simpl. by rewrite split_chars_join, fmap_app, map_app, filter_app.
Qed.

(** The address a request is counted under is the hop the proxies in front of
    the server wrote: whatever entries a client puts before theirs change nothing. *)
Theorem spoofed_hops_ignored hops_back spoofed written peer :
  1 <= hops_back <= Z.of_nat (length (forwarded_hops written)) ->
  resolve_client_ip hops_back (spoofed ++ "," ++ written)%string peer
    = resolve_client_ip hops_back written peer
  /\ resolve_client_ip hops_back written peer ∈ forwarded_hops written.
Proof.
  intros H. unfold resolve_client_ip. rewrite forwarded_hops_join, length_app.
  rewrite !(proj2 (Z.leb_le _ _)) by lia. simpl. split.
  - rewrite lookup_app_r by lia. do 2 f_equal. lia.
  - destruct (lookup_lt_is_Some_2 (forwarded_hops written) (length (forwarded_hops written) - Z.to_nat hops_back)) as [x Hx]; [lia|].
    rewrite Hx. simpl. by eapply list_elem_of_lookup_2.
Qed.

(** ** A counter without a deadline *)

(** Nothing but a first caller sets the deadline, so a counter left without one
    refuses for good, however much time goes by. *)
Lemma stuck_window key limit window v t r :
  counters r !! key = Some (v, None) -> limit <= v ->
  (run_act (enforce_window key limit window)
     {| redis_now := t; counters := counters r; answers := answers r; passages := passages r |}).1 = Raise (HTTPException 429).
Proof.
  intros Hk Hv. rewrite enforce_alone. unfold live. simpl. rewrite Hk. by rewrite (proj2 (Z.ltb_lt _ _)) by lia.
Qed.

(** And such a counter is left when the first caller never learns it was first:
    the reply to INCR is lost, or the process ends before EXPIRE. *)
Example lost_reply_leaves_no_deadline :
  exists p, rtc (pool_step (caller (fun _ => SUPPORT_MESSAGE_RATE_LIMIT) (fun _ => SUPPORT_MESSAGE_WINDOW_SECONDS))
                  time_passes) {| shared := no_answers 0; running := ∅ |} p
    /\ running p = ∅ /\ counters (shared p) !! "rate_limit:support_message:alice" = Some (1, None).
Proof.
  eexists. split; [|split].
  - eapply rtc_l; [apply (pool_start _ _ _ 0%nat); [apply (a_caller _ _ "rate_limit:support_message:alice")|done]|].
    eapply rtc_l; [eapply (pool_done _ _ _ 0%nat); reflexivity|].
    eapply rtc_l; [eapply (pool_unanswered _ _ _ 0%nat) with (e := OtherException "ConnectionError"); reflexivity|].
    eapply rtc_once. apply (pool_gone _ _ _ 0%nat).
  - reflexivity.
  - reflexivity.
Qed.

(** Three requests to an endpoint that takes one a minute: the first goes on. *)
Definition ask (r : Redis) : Redis := (run_act (guarded "bucket" 1 60) r).2.

Lemma rate_bounded_witness :
  got_through "bucket" 0 60000 (ask (ask (ask (no_answers 5)))) = [(5, 5)]
  /\ Z.of_nat (length (got_through "bucket" 0 60000 (ask (ask (ask (no_answers 5)))))) <= 2 * Z.max 0 1.
Proof.
  split; [vm_compute; reflexivity|].
  refine (rate_bounded (fun _ => 1) (fun _ => 60) 5 {| shared := ask (ask (ask (no_answers 5))); running := ∅ |} "bucket" 0 _).
  etransitivity; [exact (pool_runs _ _ _ 0%nat {| shared := no_answers 5; running := ∅ |} (a_caller _ _ "bucket") eq_refl)|].
  etransitivity; [exact (pool_runs _ _ _ 0%nat {| shared := ask (no_answers 5); running := ∅ |} (a_caller _ _ "bucket") eq_refl)|].
  exact (pool_runs _ _ _ 0%nat {| shared := ask (ask (no_answers 5)); running := ∅ |} (a_caller _ _ "bucket") eq_refl).
Defined.

Lemma spoofed_hops_ignored_witness :
  resolve_client_ip 1 ("6.6.6.6, 7.7.7.7" ++ "," ++ "203.0.113.9")%string (Some "10.0.0.1") = "203.0.113.9".
Proof.
  destruct (spoofed_hops_ignored 1 "6.6.6.6, 7.7.7.7" "203.0.113.9" (Some "10.0.0.1")) as [H _];
    [vm_compute; split; discriminate|]. exact H.
Defined.
