(* ===== verification/Support.v ===== *)
(** * The support desk
      ([src/app/services/support_service.py], [support_entitlement.py],
       [support_notifier.py], [src/app/repos/support_repo.py],
       [src/app/routers/support/router.py], [src/app/routers/admin/support/router.py],
       [src/app/cronjobs/expire_support_diagnostics.py], [src/app/utils/etags.py])

    [Desk] is what the desk's handlers share: the three tables with their sequences,
    the billing tables the policy in force is read from, the rate-limit counters, the
    registered transports and what has been handed to them.

    A handler is an [act]: its transaction begins, which fixes [now()] for all its
    statements; the reads before the row lock are units of their own; everything
    after the lock, up to the commit, is one unit, since the lock keeps every other
    writer of the ticket out.  A filing takes the requester's advisory lock instead.
    The ORM writes a changed ticket when it flushes, with [updated_at] set to
    [now()]; an unchanged one is not written. *)

From Stdlib Require Import Ascii String.
From S2P Require Import Prelude Json Time Types Effects Repos Atomic RateLimit.
From stdpp Require Import list.
Local Open Scope string_scope.
Local Open Scope Z_scope.

(** ** Rows *)

Inductive SupportTicketStatus := OPEN | ANSWERED | CLOSED.
Definition ticket_status_value (s : SupportTicketStatus) : string :=
  match s with OPEN => "open" | ANSWERED => "answered" | CLOSED => "closed" end.

Inductive SupportAuthor := USER | SUPPORT.
Definition author_value (a : SupportAuthor) : string :=
  match a with USER => "user" | SUPPORT => "support" end.

Inductive SupportEventType := EV_OPENED | EV_CLOSED | EV_REOPENED | EV_RECATEGORIZED.
Definition event_type_value (e : SupportEventType) : string :=
  match e with
  | EV_OPENED => "opened" | EV_CLOSED => "closed" | EV_REOPENED => "reopened"
  | EV_RECATEGORIZED => "recategorized"
  end.

(** The columns are text; nothing in the schema limits a status to the known ones. *)
Record SupportTicket := {
  st_id : Z;
  st_pubkey : string;
  st_subject : string;
  st_category : string;
  st_status : string;
  st_notify_email : option string;
  st_diagnostics : option (list (string * string));
  st_last_message_at : Z;
  st_last_message_author : string;
  st_closed_at : option Z;
  st_created_at : Z;
  st_updated_at : Z;
}.

Record SupportMessage := {
  sm_id : Z;
  sm_ticket_id : Z;
  sm_author : string;
  sm_body : string;
  sm_actor_pubkey : option string;
  sm_created_at : Z;
}.

Record SupportEvent := {
  se_id : Z;
  se_ticket_id : Z;
  se_type : string;
  se_actor : string;
  se_actor_pubkey : option string;
  se_at : Z;
}.

#[export] Instance ticket_eq_dec : EqDecision SupportTicket.
Proof. solve_decision. Defined.

(** ** Notifications *)

Inductive SupportNotificationKind := TICKET_OPENED | USER_REPLIED | SUPPORT_REPLIED.
Inductive Audience := team | user.

#[export] Instance audience_eq_dec : EqDecision Audience.
Proof. solve_decision. Defined.

Record SupportNotification := {
  sn_kind : SupportNotificationKind;
  sn_audience : Audience;
  sn_ticket_id : Z;
  sn_category : string;
  sn_recipient_pubkey : option string;
  sn_recipient_email : option string;
}.

(** ** The shared state *)

Record Desk := {
  desk_now : Z;
  world : World;
  whitelisted_pubkeys : gset string;
  tickets : gmap Z SupportTicket;
  messages : gmap Z SupportMessage;
  events : gmap Z SupportEvent;
  ticket_seq : Z;
  message_seq : Z;
  support_event_seq : Z;
  windows : Redis;
  sinks : list nat;
  raised : list SupportNotification;
}.

Definition with_world (d : Desk) (w : World) : Desk :=
  {| desk_now := desk_now d; world := w; whitelisted_pubkeys := whitelisted_pubkeys d;
     tickets := tickets d; messages := messages d; events := events d; ticket_seq := ticket_seq d;
     message_seq := message_seq d; support_event_seq := support_event_seq d; windows := windows d;
     sinks := sinks d; raised := raised d |}.
Definition with_tickets (d : Desk) (t : gmap Z SupportTicket) (seq : Z) : Desk :=
  {| desk_now := desk_now d; world := world d; whitelisted_pubkeys := whitelisted_pubkeys d;
     tickets := t; messages := messages d; events := events d; ticket_seq := seq;
     message_seq := message_seq d; support_event_seq := support_event_seq d; windows := windows d;
     sinks := sinks d; raised := raised d |}.
Definition with_messages (d : Desk) (m : gmap Z SupportMessage) (seq : Z) : Desk :=
  {| desk_now := desk_now d; world := world d; whitelisted_pubkeys := whitelisted_pubkeys d;
     tickets := tickets d; messages := m; events := events d; ticket_seq := ticket_seq d;
     message_seq := seq; support_event_seq := support_event_seq d; windows := windows d;
     sinks := sinks d; raised := raised d |}.
Definition with_support_events (d : Desk) (e : gmap Z SupportEvent) (seq : Z) : Desk :=
  {| desk_now := desk_now d; world := world d; whitelisted_pubkeys := whitelisted_pubkeys d;
     tickets := tickets d; messages := messages d; events := e; ticket_seq := ticket_seq d;
     message_seq := message_seq d; support_event_seq := seq; windows := windows d;
     sinks := sinks d; raised := raised d |}.
Definition with_windows (d : Desk) (r : Redis) : Desk :=
  {| desk_now := desk_now d; world := world d; whitelisted_pubkeys := whitelisted_pubkeys d;
     tickets := tickets d; messages := messages d; events := events d; ticket_seq := ticket_seq d;
     message_seq := message_seq d; support_event_seq := support_event_seq d; windows := r;
     sinks := sinks d; raised := raised d |}.
Definition with_sinks (d : Desk) (s : list nat) : Desk :=
  {| desk_now := desk_now d; world := world d; whitelisted_pubkeys := whitelisted_pubkeys d;
     tickets := tickets d; messages := messages d; events := events d; ticket_seq := ticket_seq d;
     message_seq := message_seq d; support_event_seq := support_event_seq d; windows := windows d;
     sinks := s; raised := raised d |}.
Definition with_raised (d : Desk) (r : list SupportNotification) : Desk :=
  {| desk_now := desk_now d; world := world d; whitelisted_pubkeys := whitelisted_pubkeys d;
     tickets := tickets d; messages := messages d; events := events d; ticket_seq := ticket_seq d;
     message_seq := message_seq d; support_event_seq := support_event_seq d; windows := windows d;
     sinks := sinks d; raised := r |}.

(** ** One transaction under way *)

Record Session := { desk : Desk; began : Z; listeners : list SupportNotification }.

Definition with_desk (s : Session) (d : Desk) : Session :=
  {| desk := d; began := began s; listeners := listeners s |}.

(** *** The notifier ([support_notifier.py]) *)

Definition register_sink (sink : nat) : TX Desk unit := writes (fun d => with_sinks d (sinks d ++ [sink])).
Definition clear_sinks : TX Desk unit := writes (fun d => with_sinks d []).

(** Handing a notification to the fan-out; nothing without a transport. *)
Definition notify (n : SupportNotification) (d : Desk) : Desk :=
  match sinks d with [] => d | _ => with_raised d (raised d ++ [n]) end.

Definition notify_after_commit (n : SupportNotification) : TX Session unit := writes (fun s =>
  match sinks (desk s) with
  | [] => s
  | _ => {| desk := desk s; began := began s; listeners := listeners s ++ [n] |}
  end).

(** Every transport is tried; one that raises is logged and the next is tried. *)
Fixpoint fan_out (sink_fails : nat -> bool) (l : list nat) (n : SupportNotification)
  : list (nat * SupportNotification) * list nat :=
  match l with
  | [] => ([], [])
  | sink :: l' =>
      let '(told, logged) := fan_out sink_fails l' n in
      if sink_fails sink then (told, sink :: logged) else ((sink, n) :: told, logged)
  end.

(** *** Inserts ([support_repo.py]); [now()] is the start of the transaction *)

Definition insert_support_ticket_on_db (pubkey subject category : string) (notify_email : option string)
    (diagnostics : option (list (string * string))) : TX Session SupportTicket := fun s =>
  let d := desk s in
  let t := {| st_id := ticket_seq d; st_pubkey := pubkey; st_subject := subject; st_category := category;
              st_status := ticket_status_value OPEN; st_notify_email := notify_email;
              st_diagnostics := diagnostics; st_last_message_at := began s;
              st_last_message_author := author_value USER; st_closed_at := None;
              st_created_at := began s; st_updated_at := began s |} in
  (Ok t, with_desk s (with_tickets d (<[st_id t := t]> (tickets d)) (ticket_seq d + 1))).

(** The foreign key on [support_ticket.id]. *)
Definition insert_support_message_on_db (ticket_id : Z) (author body : string) (actor_pubkey : option string)
  : TX Session SupportMessage := fun s =>
  let d := desk s in
  match tickets d !! ticket_id with
  | None => (Raise (DbError IntegrityError), s)
  | Some _ =>
      let m := {| sm_id := message_seq d; sm_ticket_id := ticket_id; sm_author := author; sm_body := body;
                  sm_actor_pubkey := actor_pubkey; sm_created_at := began s |} in
      (Ok m, with_desk s (with_messages d (<[sm_id m := m]> (messages d)) (message_seq d + 1)))
  end.

Definition insert_support_event_on_db (ticket_id : Z) (event_type actor : string) (actor_pubkey : option string)
  : TX Session SupportEvent := fun s =>
  let d := desk s in
  match tickets d !! ticket_id with
  | None => (Raise (DbError IntegrityError), s)
  | Some _ =>
      let e := {| se_id := support_event_seq d; se_ticket_id := ticket_id; se_type := event_type;
                  se_actor := actor; se_actor_pubkey := actor_pubkey; se_at := began s |} in
      (Ok e, with_desk s (with_support_events d (<[se_id e := e]> (events d)) (support_event_seq d + 1)))
  end.

(** What the flush writes of a ticket object. *)
Definition with_updated_at (t : SupportTicket) (at_ : Z) : SupportTicket :=
  {| st_id := st_id t; st_pubkey := st_pubkey t; st_subject := st_subject t; st_category := st_category t;
     st_status := st_status t; st_notify_email := st_notify_email t; st_diagnostics := st_diagnostics t;
     st_last_message_at := st_last_message_at t; st_last_message_author := st_last_message_author t;
     st_closed_at := st_closed_at t; st_created_at := st_created_at t; st_updated_at := at_ |}.

Definition flush_ticket (t : SupportTicket) : TX Session unit := writes (fun s =>
  let d := desk s in
  if decide (tickets d !! st_id t = Some t) then s
  else with_desk s (with_tickets d (<[st_id t := with_updated_at t (began s)]> (tickets d)) (ticket_seq d))).

(** *** Selects *)

Definition lock_support_ticket_on_db (ticket_id : Z) : TX Session (option SupportTicket) :=
  reads (fun s => tickets (desk s) !! ticket_id).

Definition count_unclosed_support_tickets_on_db (pubkey : string) : TX Session Z := reads (fun s =>
  Z.of_nat (length (filter (fun t => st_pubkey t = pubkey /\ st_status t <> ticket_status_value CLOSED)
                     (map_to_list (tickets (desk s))).*2))).

Definition select_support_ticket_on_db (ticket_id : Z) (d : Desk) : option SupportTicket :=
  tickets d !! ticket_id.

Definition select_support_messages_on_db (ticket_id : Z) (d : Desk) : list SupportMessage :=
  stable_sort (fun a b => sm_id a <=? sm_id b)
    (filter (fun m => sm_ticket_id m = ticket_id) (map_to_list (messages d)).*2).

Definition select_support_events_on_db (ticket_id : Z) (d : Desk) : list SupportEvent :=
  stable_sort (fun a b => se_id a <=? se_id b)
    (filter (fun e => se_ticket_id e = ticket_id) (map_to_list (events d)).*2).

(** ORDER BY last_message_at DESC, id DESC. *)
Definition newest_activity (a b : SupportTicket) : bool :=
  if st_last_message_at a =? st_last_message_at b then st_id b <=? st_id a
  else st_last_message_at b <? st_last_message_at a.

Definition admin_support_filters (status category pubkey : option string) (t : SupportTicket) : bool :=
  from_option (fun v => String.eqb (st_status t) v) true status
  && from_option (fun v => String.eqb (st_category t) v) true category
  && from_option (fun v => String.eqb (st_pubkey t) v) true pubkey.

Definition ticket_rows (scope : SupportTicket -> bool) (d : Desk) : list SupportTicket :=
  filter (fun t => scope t) (map_to_list (tickets d)).*2.

Definition build_user_support_tickets_stmt (pubkey : string) (d : Desk) : list SupportTicket :=
  stable_sort newest_activity (ticket_rows (fun t => String.eqb (st_pubkey t) pubkey) d).

Definition build_admin_support_tickets_stmt (status category pubkey : option string) (d : Desk)
  : list SupportTicket :=
  stable_sort newest_activity (ticket_rows (admin_support_filters status category pubkey) d).

(** SELECT max(updated_at), count of the rows in scope. *)
Definition digest_stmt (scope : SupportTicket -> bool) (d : Desk) : option Z * Z :=
  let rows := ticket_rows scope d in
  (foldr (fun t acc => Some (from_option (Z.max (st_updated_at t)) (st_updated_at t) acc)) None rows,
   Z.of_nat (length rows)).

Definition select_user_support_digest_on_db (pubkey : string) : Desk -> option Z * Z :=
  digest_stmt (fun t => String.eqb (st_pubkey t) pubkey).

Definition select_admin_support_digest_on_db (status category pubkey : option string) : Desk -> option Z * Z :=
  digest_stmt (admin_support_filters status category pubkey).

(** ** Writing a ticket ([support_service.py]) *)

Definition with_status (t : SupportTicket) (status : string) (closed_at : option Z) : SupportTicket :=
  {| st_id := st_id t; st_pubkey := st_pubkey t; st_subject := st_subject t; st_category := st_category t;
     st_status := status; st_notify_email := st_notify_email t; st_diagnostics := st_diagnostics t;
     st_last_message_at := st_last_message_at t; st_last_message_author := st_last_message_author t;
     st_closed_at := closed_at; st_created_at := st_created_at t; st_updated_at := st_updated_at t |}.

Definition with_last_message (t : SupportTicket) (at_ : Z) (author : string) : SupportTicket :=
  {| st_id := st_id t; st_pubkey := st_pubkey t; st_subject := st_subject t; st_category := st_category t;
     st_status := st_status t; st_notify_email := st_notify_email t; st_diagnostics := st_diagnostics t;
     st_last_message_at := at_; st_last_message_author := author; st_closed_at := st_closed_at t;
     st_created_at := st_created_at t; st_updated_at := st_updated_at t |}.

Definition with_category (t : SupportTicket) (category : string) : SupportTicket :=
  {| st_id := st_id t; st_pubkey := st_pubkey t; st_subject := st_subject t; st_category := category;
     st_status := st_status t; st_notify_email := st_notify_email t; st_diagnostics := st_diagnostics t;
     st_last_message_at := st_last_message_at t; st_last_message_author := st_last_message_author t;
     st_closed_at := st_closed_at t; st_created_at := st_created_at t; st_updated_at := st_updated_at t |}.

Definition without_diagnostics (t : SupportTicket) (at_ : Z) : SupportTicket :=
  {| st_id := st_id t; st_pubkey := st_pubkey t; st_subject := st_subject t; st_category := st_category t;
     st_status := st_status t; st_notify_email := st_notify_email t; st_diagnostics := None;
     st_last_message_at := st_last_message_at t; st_last_message_author := st_last_message_author t;
     st_closed_at := st_closed_at t; st_created_at := st_created_at t; st_updated_at := at_ |}.

(** [utc_now()]: the server's clock, not the transaction's. *)
Definition server_now : TX Session Z := reads (fun s => desk_now (desk s)).

(** The ticket object is threaded: each helper returns it as it leaves it. *)
Definition locked_ticket (ticket_id : Z) : TX Session SupportTicket :=
  ticket ← lock_support_ticket_on_db ticket_id;
  match ticket with
  | None => Atomic.raise (HTTPException 404)
  | Some t => mret t
  end.

Definition locked_own_ticket (ticket_id : Z) (pubkey : string) : TX Session SupportTicket :=
  ticket ← locked_ticket ticket_id;
  if negb (String.eqb (st_pubkey ticket) pubkey) then Atomic.raise (HTTPException 404) else mret ticket.

Definition set_ticket_status (ticket : SupportTicket) (status : string) (actor : string)
    (actor_pubkey : option string) : TX Session SupportTicket :=
  let was := st_status ticket in
  if String.eqb was status then mret ticket
  else if String.eqb status (ticket_status_value CLOSED) then
    now ← server_now;
    _ ← insert_support_event_on_db (st_id ticket) (event_type_value EV_CLOSED) actor actor_pubkey;
    mret (with_status ticket status (Some now))
  else if String.eqb was (ticket_status_value CLOSED) then
    _ ← insert_support_event_on_db (st_id ticket) (event_type_value EV_REOPENED) actor actor_pubkey;
    mret (with_status ticket status None)
  else mret (with_status ticket status (st_closed_at ticket)).

Definition append_message (ticket : SupportTicket) (author body : string) (actor_pubkey : option string)
  : TX Session (SupportMessage * SupportTicket) :=
  message ← insert_support_message_on_db (st_id ticket) author body actor_pubkey;
  mret (message, with_last_message ticket (sm_created_at message) author).

Definition notify_about (kind : SupportNotificationKind) (audience : Audience) (ticket : SupportTicket)
  : TX Session unit :=
  notify_after_commit
    {| sn_kind := kind; sn_audience := audience; sn_ticket_id := st_id ticket; sn_category := st_category ticket;
       sn_recipient_pubkey := if decide (audience = user) then Some (st_pubkey ticket) else None;
       sn_recipient_email := if decide (audience = user) then st_notify_email ticket else None |}.

(** ** What callers are shown *)

Record SupportTicketItem := {
  ti_id : Z; ti_subject : string; ti_category : string; ti_status : string; ti_created_at : Z;
  ti_last_message_at : Z; ti_last_message_author : string; ti_closed_at : option Z;
}.
Definition ticket_item (t : SupportTicket) : SupportTicketItem :=
  {| ti_id := st_id t; ti_subject := st_subject t; ti_category := st_category t; ti_status := st_status t;
     ti_created_at := st_created_at t; ti_last_message_at := st_last_message_at t;
     ti_last_message_author := st_last_message_author t; ti_closed_at := st_closed_at t |}.

Record SupportMessageItem := { mi_id : Z; mi_author : string; mi_body : string; mi_created_at : Z }.
Definition message_item (m : SupportMessage) : SupportMessageItem :=
  {| mi_id := sm_id m; mi_author := sm_author m; mi_body := sm_body m; mi_created_at := sm_created_at m |}.

Record SupportEventItem := { ei_type : string; ei_at : Z; ei_by : string }.
Definition event_item (e : SupportEvent) : SupportEventItem :=
  {| ei_type := se_type e; ei_at := se_at e; ei_by := se_actor e |}.

Record SupportRequester := { rq_pubkey : string; rq_notify_email : option string }.

(** The admin's rows carry who wrote them. *)
Record AdminSupportTicketItem := {
  ai_ticket : SupportTicketItem; ai_pubkey : string; ai_notify_email : option string;
}.
Definition admin_ticket_item (t : SupportTicket) : AdminSupportTicketItem :=
  {| ai_ticket := ticket_item t; ai_pubkey := st_pubkey t; ai_notify_email := st_notify_email t |}.

Record AdminSupportMessageItem := { ami_message : SupportMessageItem; ami_actor_pubkey : option string }.
Definition admin_message_item (m : SupportMessage) : AdminSupportMessageItem :=
  {| ami_message := message_item m; ami_actor_pubkey := sm_actor_pubkey m |}.

Record AdminSupportEventItem := { aei_event : SupportEventItem; aei_actor_pubkey : option string }.
Definition admin_event_item (e : SupportEvent) : AdminSupportEventItem :=
  {| aei_event := event_item e; aei_actor_pubkey := se_actor_pubkey e |}.

Record SupportThread := {
  sth_ticket : SupportTicketItem; sth_messages : list SupportMessageItem; sth_events : list SupportEventItem;
  sth_diagnostics : option (list (string * string)); sth_requester : SupportRequester;
}.

Record AdminSupportThread := {
  ath_ticket : AdminSupportTicketItem; ath_messages : list AdminSupportMessageItem;
  ath_events : list AdminSupportEventItem; ath_diagnostics : option (list (string * string));
  ath_requester : SupportRequester;
}.

Definition requester_of (t : SupportTicket) : SupportRequester :=
  {| rq_pubkey := st_pubkey t; rq_notify_email := st_notify_email t |}.

(** A conditional GET answers 304, or the body with its tag. *)
Inductive Polled (A : Type) := NotModified (etag : string) | Tagged (etag : string) (body : A).
Arguments NotModified {A}.
Arguments Tagged {A}.

(** ** Handlers *)

(** The transaction's clock stands still from its first statement on. *)
Definition begin : act Desk Z := Tx (reads desk_now) Ret.

(** The unit up to the commit, and the listeners fired after it. *)
Definition in_transaction {A} (t0 : Z) (m : TX Session A) : act Desk A :=
  '(a, heard) ← session (fun d =>
     match m {| desk := d; began := t0; listeners := [] |} with
     | (Ok a, s) => (Ok (a, listeners s), desk s)
     | (Raise e, s) => (Raise e, desk s)
     end);
  _ ← Tx (writes (fun d => foldl (fun d n => notify n d) d heard)) Ret;
  mret a.

Class DeskEnv := {
  support_max_open_tickets : Z;
  (* [hashlib.sha1(...).hexdigest()]. *)
  sha1_hex : string -> string;
  (* fastapi_pagination: the page of a list of rows. *)
  Page : Type -> Type;
  paginate : forall {A}, Z * Z -> list A -> Page A;
}.

Section service.
Context {E : Env} {D : DeskEnv}.

(** A statement of the billing session, on the tables the desk shares with it. *)
Definition in_world {A} (m : M A) : TX Desk A := fun d =>
  let '(r, w) := m (world d) in (r, with_world d w).

Definition is_entitled_to_support (pubkey : string) : act Desk bool :=
  listed ← Tx (reads (fun d => bool_decide (pubkey ∈ whitelisted_pubkeys d))) Ret;
  if listed : bool then mret true
  else
    policy ← Tx (in_world (Repos.get_scheduling_for_pubkey_on_db pubkey)) Ret;
    mret (from_option sc_support_included false policy).

Definition require_entitled_to_support (pubkey : string) : act Desk unit :=
  entitled ← is_entitled_to_support pubkey;
  if negb entitled then throw (HTTPException 403) else mret tt.

(** Entitlement, then the caller's advisory lock, the count and the inserts. *)
Definition create_ticket (pubkey subject body category : string) (notify_email : option string)
    (diagnostics : option (list (string * string))) : act Desk SupportTicketItem :=
  t0 ← begin;
  _ ← require_entitled_to_support pubkey;
  in_transaction t0 (
    unclosed ← count_unclosed_support_tickets_on_db pubkey;
    if support_max_open_tickets <=? unclosed then Atomic.raise (HTTPException 409)
    else
      ticket ← insert_support_ticket_on_db pubkey subject category notify_email diagnostics;
      '(_, ticket) ← append_message ticket (author_value USER) body (Some pubkey);
      _ ← insert_support_event_on_db (st_id ticket) (event_type_value EV_OPENED) (author_value USER) (Some pubkey);
      _ ← notify_about TICKET_OPENED team ticket;
      _ ← flush_ticket ticket;
      mret (ticket_item ticket)).

(** Three statements, each with its own view of the tables. *)
Definition get_thread (ticket_id : Z) (pubkey : string) : act Desk SupportThread :=
  ticket ← Tx (reads (select_support_ticket_on_db ticket_id)) Ret;
  match ticket with
  | None => throw (HTTPException 404)
  | Some ticket =>
      if negb (String.eqb (st_pubkey ticket) pubkey) then throw (HTTPException 404)
      else
        ms ← Tx (reads (select_support_messages_on_db ticket_id)) Ret;
        es ← Tx (reads (select_support_events_on_db ticket_id)) Ret;
        mret {| sth_ticket := ticket_item ticket; sth_messages := message_item <$> ms;
                sth_events := event_item <$> es; sth_diagnostics := st_diagnostics ticket;
                sth_requester := requester_of ticket |}
  end.

Definition add_user_message (ticket_id : Z) (pubkey body : string) : act Desk SupportMessageItem :=
  t0 ← begin;
  _ ← require_entitled_to_support pubkey;
  in_transaction t0 (
    ticket ← locked_own_ticket ticket_id pubkey;
    '(message, ticket) ← append_message ticket (author_value USER) body (Some pubkey);
    ticket ← set_ticket_status ticket (ticket_status_value OPEN) (author_value USER) (Some pubkey);
    _ ← notify_about USER_REPLIED team ticket;
    _ ← flush_ticket ticket;
    mret (message_item message)).

Definition resolve_ticket (ticket_id : Z) (pubkey : string) : act Desk SupportTicketItem :=
  t0 ← begin;
  in_transaction t0 (
    ticket ← locked_own_ticket ticket_id pubkey;
    ticket ← set_ticket_status ticket (ticket_status_value CLOSED) (author_value USER) (Some pubkey);
    _ ← flush_ticket ticket;
    mret (ticket_item ticket)).

Definition get_admin_thread (ticket_id : Z) : act Desk AdminSupportThread :=
  ticket ← Tx (reads (select_support_ticket_on_db ticket_id)) Ret;
  match ticket with
  | None => throw (HTTPException 404)
  | Some ticket =>
      ms ← Tx (reads (select_support_messages_on_db ticket_id)) Ret;
      es ← Tx (reads (select_support_events_on_db ticket_id)) Ret;
      mret {| ath_ticket := admin_ticket_item ticket; ath_messages := admin_message_item <$> ms;
              ath_events := admin_event_item <$> es; ath_diagnostics := st_diagnostics ticket;
              ath_requester := requester_of ticket |}
  end.

Definition add_support_message (ticket_id : Z) (body actor_pubkey : string) : act Desk AdminSupportMessageItem :=
  t0 ← begin;
  in_transaction t0 (
    ticket ← locked_ticket ticket_id;
    '(message, ticket) ← append_message ticket (author_value SUPPORT) body (Some actor_pubkey);
    ticket ← set_ticket_status ticket (ticket_status_value ANSWERED) (author_value SUPPORT) (Some actor_pubkey);
    _ ← notify_about SUPPORT_REPLIED user ticket;
    _ ← flush_ticket ticket;
    mret (admin_message_item message)).

Definition close_ticket_as_support (ticket_id : Z) (message : option string) (actor_pubkey : string)
  : act Desk AdminSupportTicketItem :=
  t0 ← begin;
  in_transaction t0 (
    ticket ← locked_ticket ticket_id;
    ticket ← match message with
             | None => mret ticket
             | Some note =>
                 '(_, ticket) ← append_message ticket (author_value SUPPORT) note (Some actor_pubkey);
                 _ ← notify_about SUPPORT_REPLIED user ticket;
                 mret ticket
             end;
    ticket ← set_ticket_status ticket (ticket_status_value CLOSED) (author_value SUPPORT) (Some actor_pubkey);
    _ ← flush_ticket ticket;
    mret (admin_ticket_item ticket)).

Definition reopen_ticket_as_support (ticket_id : Z) (actor_pubkey : string) : act Desk AdminSupportTicketItem :=
  t0 ← begin;
  in_transaction t0 (
    ticket ← locked_ticket ticket_id;
    ticket ← set_ticket_status ticket (ticket_status_value OPEN) (author_value SUPPORT) (Some actor_pubkey);
    _ ← flush_ticket ticket;
    mret (admin_ticket_item ticket)).

Definition set_ticket_category (ticket_id : Z) (category actor_pubkey : string) : act Desk AdminSupportTicketItem :=
  t0 ← begin;
  in_transaction t0 (
    ticket ← locked_ticket ticket_id;
    ticket ← (if String.eqb (st_category ticket) category then mret ticket
              else
                _ ← insert_support_event_on_db (st_id ticket) (event_type_value EV_RECATEGORIZED)
                      (author_value SUPPORT) (Some actor_pubkey);
                mret (with_category ticket category));
    _ ← flush_ticket ticket;
    mret (admin_ticket_item ticket)).

(** ** Polling ([etags.py] and the two list endpoints) *)

(** [str] of a naive datetime: microseconds only when there are some. *)
Definition pad6 (z : Z) : list ascii := (pad3 (z / 1000) ++ pad3 (z mod 1000))%list.
Definition py_str_datetime (t : Z) : string :=
  let '(y, m, d) := ord2ymd (t / us_per_day + 1) in
  let us := t mod us_per_day in
  of_chars (iso_date y m d ++ [" "%char] ++ pad2 (us / 3600000000) ++ [":"%char] ++ pad2 (us / 60000000 mod 60)
    ++ [":"%char] ++ pad2 (us / 1000000 mod 60)
    ++ (if us mod 1000000 =? 0 then [] else "."%char :: pad6 (us mod 1000000)))%list.

(** [str(p)], nothing for None, joined with colons. *)
Definition etag_text (parts : list (option string)) : string :=
  String.concat ":" (default "" <$> parts).

Definition etag_digest (parts : list (option string)) : string :=
  String double_mark (sha1_hex (etag_text parts) ++ String double_mark EmptyString).

Definition py_bool (b : bool) : string := if b then "True" else "False".

Definition user_etag (pubkey : string) (digest : option Z * Z) (included : bool) (params : Z * Z) : string :=
  etag_digest [Some pubkey; py_str_datetime <$> digest.1; Some (pretty digest.2); Some (py_bool included);
               Some (pretty params.1); Some (pretty params.2)].

Definition admin_etag (digest : option Z * Z) (status category pubkey : option string) (params : Z * Z) : string :=
  etag_digest [py_str_datetime <$> digest.1; Some (pretty digest.2); status; category; pubkey;
               Some (pretty params.1); Some (pretty params.2)].

Record SupportState := { ss_support_included : bool; ss_tickets : Page SupportTicketItem }.

Definition get_support_state (pubkey : string) (params : Z * Z) (included : option bool) : act Desk SupportState :=
  included ← match included with Some b => mret b | None => is_entitled_to_support pubkey end;
  rows ← Tx (reads (build_user_support_tickets_stmt pubkey)) Ret;
  mret {| ss_support_included := included; ss_tickets := paginate params (ticket_item <$> rows) |}.

Definition get_support_state_endpoint (pubkey : string) (params : Z * Z) (if_none_match : option string)
  : act Desk (Polled SupportState) :=
  digest ← Tx (reads (select_user_support_digest_on_db pubkey)) Ret;
  included ← is_entitled_to_support pubkey;
  let etag := user_etag pubkey digest included params in
  if decide (if_none_match = Some etag) then mret (NotModified etag)
  else
    result ← get_support_state pubkey params (Some included);
    mret (Tagged etag result).

Definition get_admin_support_tickets (params : Z * Z) (status category pubkey : option string)
  : act Desk (Page AdminSupportTicketItem) :=
  rows ← Tx (reads (build_admin_support_tickets_stmt status category pubkey)) Ret;
  mret (paginate params (admin_ticket_item <$> rows)).

Definition list_support_tickets_endpoint (params : Z * Z) (status category pubkey : option string)
    (if_none_match : option string) : act Desk (Polled (Page AdminSupportTicketItem)) :=
  digest ← Tx (reads (select_admin_support_digest_on_db status category pubkey)) Ret;
  let etag := admin_etag digest status category pubkey params in
  if decide (if_none_match = Some etag) then mret (NotModified etag)
  else
    page ← get_admin_support_tickets params status category pubkey;
    mret (Tagged etag page).

(** The rate limit's commands run on the desk's own counters. *)
Fixpoint on_windows {A} (p : act Redis A) : act Desk A :=
  match p with
  | Ret r => Ret r
  | Tx f k => Tx (fun d => let '(r, w) := f (windows d) in (r, with_windows d w)) (fun r => on_windows (k r))
  end.

Definition create_support_message_endpoint (ticket_id : Z) (pubkey body : string) : act Desk SupportMessageItem :=
  _ ← on_windows (validate_support_message_allowed pubkey);
  add_user_message ticket_id pubkey body.

(** The other endpoints hand the caller and the body on. *)
Definition create_support_ticket_endpoint (caller subject body category : string) (notify_email : option string)
    (diagnostics : option (list (string * string))) : act Desk SupportTicketItem :=
  create_ticket caller subject body category notify_email diagnostics.
Definition get_support_thread_endpoint (caller : string) (ticket_id : Z) : act Desk SupportThread :=
  get_thread ticket_id caller.
Definition resolve_support_ticket_endpoint (caller : string) (ticket_id : Z) : act Desk SupportTicketItem :=
  resolve_ticket ticket_id caller.

Definition admin_thread_endpoint (ticket_id : Z) : act Desk AdminSupportThread := get_admin_thread ticket_id.
Definition admin_message_endpoint (caller : string) (ticket_id : Z) (body : string) : act Desk AdminSupportMessageItem :=
  add_support_message ticket_id body caller.
Definition close_support_ticket_endpoint (caller : string) (ticket_id : Z) (message : option string)
  : act Desk AdminSupportTicketItem := close_ticket_as_support ticket_id message caller.
Definition reopen_support_ticket_endpoint (caller : string) (ticket_id : Z) : act Desk AdminSupportTicketItem :=
  reopen_ticket_as_support ticket_id caller.
Definition update_support_ticket_endpoint (caller : string) (ticket_id : Z) (category : string)
  : act Desk AdminSupportTicketItem := set_ticket_category ticket_id category caller.

(** ** Expiry of diagnostics ([expire_support_diagnostics.py]) *)

Definition RETENTION : Z := 30 * us_per_day.

Definition diagnostics_expired (cutoff : Z) (t : SupportTicket) : bool :=
  (st_created_at t <? cutoff) && bool_decide (is_Some (st_diagnostics t)).

(** The UPDATE; the cutoff was computed when the statement was built. *)
Definition clear_expired_support_diagnostics_on_db (cutoff : Z) : TX Session Z := fun s =>
  let d := desk s in
  (Ok (Z.of_nat (length (ticket_rows (diagnostics_expired cutoff) d))),
   with_desk s (with_tickets d
     ((fun t => if diagnostics_expired cutoff t then without_diagnostics t (began s) else t) <$> tickets d)
     (ticket_seq d))).

(** One pass of the loop; an exception is logged and the loop goes on. *)
Definition expire_support_diagnostics_pass : act Desk Z :=
  act_try (
    built ← Tx (reads desk_now) Ret;
    t0 ← begin;
    in_transaction t0 (clear_expired_support_diagnostics_on_db (built - RETENTION)))
  (fun _ => mret 0).
End service.
