(* ===== verification/SupportSpec.v ===== *)
(** * What the support desk promises: threads

    The specification knows no ids of messages or events, no flushes and no columns
    derived from others: a [Thread] is its owner, what was said in it, what happened
    to it, and whose turn it is.  [desk_step] is what can happen to the threads.
    [threads] reads the threads off the three tables, and [desk_refines] says that
    whatever the handlers do, interleaved, failing or cut off, is a run of the
    specification.  The invariant [desk_ok] is what the tables keep so that the
    columns stored with a ticket say what its thread says. *)

From Stdlib Require Import Ascii String.
From S2P Require Import Prelude Json Time Types Effects Repos Atomic RateLimit Tables Support.
From stdpp Require Import list.
Local Open Scope Z_scope.

(** ** Threads *)

Record Post := { po_author : SupportAuthor; po_body : string; po_actor : option string; po_at : Z }.
Record LogEntry := { le_type : SupportEventType; le_by : SupportAuthor; le_actor : option string; le_at : Z }.

Record Thread := {
  th_owner : string;
  th_subject : string;
  th_category : string;
  th_email : option string;
  th_state : SupportTicketStatus;
  th_posts : list Post;
  th_log : list LogEntry;
  th_snapshot : option (list (string * string));
  th_filed_at : Z;
}.

#[export] Instance ticket_status_eq_dec : EqDecision SupportTicketStatus.
Proof. solve_decision. Defined.

Definition say (author : SupportAuthor) (body : string) (actor : option string) (at_ : Z) (t : Thread) : Thread :=
  {| th_owner := th_owner t; th_subject := th_subject t; th_category := th_category t; th_email := th_email t;
     th_state := th_state t;
     th_posts := th_posts t ++ [{| po_author := author; po_body := body; po_actor := actor; po_at := at_ |}];
     th_log := th_log t; th_snapshot := th_snapshot t; th_filed_at := th_filed_at t |}.

Definition note (e : SupportEventType) (by_ : SupportAuthor) (actor : option string) (at_ : Z) (t : Thread) : Thread :=
  {| th_owner := th_owner t; th_subject := th_subject t; th_category := th_category t; th_email := th_email t;
     th_state := th_state t; th_posts := th_posts t;
     th_log := th_log t ++ [{| le_type := e; le_by := by_; le_actor := actor; le_at := at_ |}];
     th_snapshot := th_snapshot t; th_filed_at := th_filed_at t |}.

Definition in_state (st : SupportTicketStatus) (t : Thread) : Thread :=
  {| th_owner := th_owner t; th_subject := th_subject t; th_category := th_category t; th_email := th_email t;
     th_state := st; th_posts := th_posts t; th_log := th_log t; th_snapshot := th_snapshot t;
     th_filed_at := th_filed_at t |}.

Definition in_category (c : string) (t : Thread) : Thread :=
  {| th_owner := th_owner t; th_subject := th_subject t; th_category := c; th_email := th_email t;
     th_state := th_state t; th_posts := th_posts t; th_log := th_log t; th_snapshot := th_snapshot t;
     th_filed_at := th_filed_at t |}.

Definition forget (cutoff : Z) (t : Thread) : Thread :=
  if th_filed_at t <? cutoff then
    {| th_owner := th_owner t; th_subject := th_subject t; th_category := th_category t; th_email := th_email t;
       th_state := th_state t; th_posts := th_posts t; th_log := th_log t; th_snapshot := None;
       th_filed_at := th_filed_at t |}
  else t.

(** A move between states; only closing and leaving closed are events. *)
Definition move (st : SupportTicketStatus) (by_ : SupportAuthor) (actor : option string) (at_ : Z) (t : Thread)
  : Thread :=
  if decide (th_state t = st) then t
  else in_state st
    (if decide (st = CLOSED) then note EV_CLOSED by_ actor at_ t
     else if decide (th_state t = CLOSED) then note EV_REOPENED by_ actor at_ t
     else t).

Definition filed (owner subject category body : string) (email : option string)
    (snapshot : option (list (string * string))) (at_ : Z) : Thread :=
  {| th_owner := owner; th_subject := subject; th_category := category; th_email := email; th_state := OPEN;
     th_posts := [{| po_author := USER; po_body := body; po_actor := Some owner; po_at := at_ |}];
     th_log := [{| le_type := EV_OPENED; le_by := USER; le_actor := Some owner; le_at := at_ |}];
     th_snapshot := snapshot; th_filed_at := at_ |}.

Definition unclosed_of (owner : string) (a : gmap Z Thread) : Z :=
  Z.of_nat (length (filter (fun t => th_owner t = owner /\ th_state t <> CLOSED) (map_to_list a).*2)).

Section spec.
Context (cap : Z).

Inductive desk_step (a : gmap Z Thread) : gmap Z Thread -> Prop :=
  | step_file i owner subject category body email snapshot at_ :
      a !! i = None -> unclosed_of owner a < cap ->
      desk_step a (<[i := filed owner subject category body email snapshot at_]> a)
  | step_reply i t body at_ :
      a !! i = Some t ->
      desk_step a (<[i := move OPEN USER (Some (th_owner t)) at_ (say USER body (Some (th_owner t)) at_ t)]> a)
  | step_resolve i t at_ :
      a !! i = Some t -> desk_step a (<[i := move CLOSED USER (Some (th_owner t)) at_ t]> a)
  | step_answer i t body actor at_ :
      a !! i = Some t ->
      desk_step a (<[i := move ANSWERED SUPPORT (Some actor) at_ (say SUPPORT body (Some actor) at_ t)]> a)
  | step_close i t closing actor at_ :
      a !! i = Some t ->
      desk_step a (<[i := move CLOSED SUPPORT (Some actor) at_
        (from_option (fun body => say SUPPORT body (Some actor) at_ t) t closing)]> a)
  | step_reopen i t actor at_ :
      a !! i = Some t -> desk_step a (<[i := move OPEN SUPPORT (Some actor) at_ t]> a)
  | step_recategorize i t category actor at_ :
      a !! i = Some t -> th_category t <> category ->
      desk_step a (<[i := in_category category (note EV_RECATEGORIZED SUPPORT (Some actor) at_ t)]> a)
  | step_forget cutoff : desk_step a (forget cutoff <$> a).
End spec.

(** ** The threads in the tables *)

Definition parse_status (s : string) : SupportTicketStatus :=
  if String.eqb s (ticket_status_value CLOSED) then CLOSED
  else if String.eqb s (ticket_status_value ANSWERED) then ANSWERED else OPEN.
Definition parse_author (s : string) : SupportAuthor :=
  if String.eqb s (author_value SUPPORT) then SUPPORT else USER.
Definition parse_event_type (s : string) : SupportEventType :=
  if String.eqb s (event_type_value EV_OPENED) then EV_OPENED
  else if String.eqb s (event_type_value EV_CLOSED) then EV_CLOSED
  else if String.eqb s (event_type_value EV_REOPENED) then EV_REOPENED else EV_RECATEGORIZED.

Lemma parse_status_value s : parse_status (ticket_status_value s) = s.
Proof. by destruct s. Qed.
Lemma parse_author_value a : parse_author (author_value a) = a.
Proof. by destruct a. Qed.
Lemma parse_event_type_value e : parse_event_type (event_type_value e) = e.
Proof. by destruct e. Qed.

Definition post_of (m : SupportMessage) : Post :=
  {| po_author := parse_author (sm_author m); po_body := sm_body m; po_actor := sm_actor_pubkey m;
     po_at := sm_created_at m |}.
Definition entry_of (e : SupportEvent) : LogEntry :=
  {| le_type := parse_event_type (se_type e); le_by := parse_author (se_actor e); le_actor := se_actor_pubkey e;
     le_at := se_at e |}.

Definition thread_of (d : Desk) (t : SupportTicket) : Thread :=
  {| th_owner := st_pubkey t; th_subject := st_subject t; th_category := st_category t;
     th_email := st_notify_email t; th_state := parse_status (st_status t);
     th_posts := post_of <$> select_support_messages_on_db (st_id t) d;
     th_log := entry_of <$> select_support_events_on_db (st_id t) d;
     th_snapshot := st_diagnostics t; th_filed_at := st_created_at t |}.

Definition threads (d : Desk) : gmap Z Thread := thread_of d <$> tickets d.

(** ** The invariant *)

(** What a ticket's own columns say of its thread. *)
Definition row_ok (d : Desk) (t : SupportTicket) : Prop :=
  (exists s, st_status t = ticket_status_value s)
  /\ (is_Some (st_closed_at t) <-> st_status t = ticket_status_value CLOSED)
  /\ exists m, last (select_support_messages_on_db (st_id t) d) = Some m
       /\ st_last_message_at t = sm_created_at m /\ st_last_message_author t = sm_author m.

Definition tables_ok (d : Desk) : Prop :=
  (forall i t, tickets d !! i = Some t -> st_id t = i /\ i < ticket_seq d)
  /\ (forall i m, messages d !! i = Some m ->
        sm_id m = i /\ i < message_seq d /\ is_Some (tickets d !! sm_ticket_id m)
        /\ exists a, sm_author m = author_value a)
  /\ forall i e, events d !! i = Some e ->
        se_id e = i /\ i < support_event_seq d /\ is_Some (tickets d !! se_ticket_id e)
        /\ (exists k, se_type e = event_type_value k) /\ exists a, se_actor e = author_value a.

Definition desk_ok (d : Desk) : Prop :=
  tables_ok d /\ forall i t, tickets d !! i = Some t -> row_ok d t.

Lemma messages_keyed d : tables_ok d -> keyed sm_id (messages d).
Proof. intros (_ & H & _) i m Hm. by apply H in Hm as [? _]. Qed.
Lemma events_keyed d : tables_ok d -> keyed se_id (events d).
Proof. intros (_ & _ & H) i e He. by apply H in He as [? _]. Qed.

(** A message is read after every earlier one of its ticket. *)
Lemma select_messages_insert d m j :
  tables_ok d -> sm_id m = message_seq d ->
  select_support_messages_on_db j (with_messages d (<[sm_id m := m]> (messages d)) (message_seq d + 1))
  = select_support_messages_on_db j d ++ (if decide (sm_ticket_id m = j) then [m] else []).
Proof.
  intros Hd Hid. refine (select_insert sm_id (fun m => sm_ticket_id m = j) (messages d) m _ _); [by apply messages_keyed|].
  intros i w Hw. destruct Hd as (_ & Hm & _). apply Hm in Hw as (_ & ? & _). lia.
Qed.

Lemma select_events_insert d e j :
  tables_ok d -> se_id e = support_event_seq d ->
  select_support_events_on_db j (with_support_events d (<[se_id e := e]> (events d)) (support_event_seq d + 1))
  = select_support_events_on_db j d ++ (if decide (se_ticket_id e = j) then [e] else []).
Proof.
  intros Hd Hid. refine (select_insert se_id (fun e => se_ticket_id e = j) (events d) e _ _); [by apply events_keyed|].
  intros i w Hw. destruct Hd as (_ & _ & Hm). apply Hm in Hw as (_ & ? & _). lia.
Qed.

(** A ticket that is not there yet has neither. *)
Lemma select_messages_fresh d i : tables_ok d -> tickets d !! i = None -> select_support_messages_on_db i d = [].
Proof.
  intros Hd Hi. destruct (select_support_messages_on_db i d) as [|m l] eqn:E; [done|].
  assert (Hin : m ∈ select_support_messages_on_db i d) by (rewrite E; left).
  apply (select_elem sm_id (fun m => sm_ticket_id m = i)) in Hin as [<- Hm]; [|by apply messages_keyed].
  destruct Hd as (_ & Hd & _). apply Hd in Hm as (_ & _ & [x Hx] & _). congruence.
Qed.

Lemma select_events_fresh d i : tables_ok d -> tickets d !! i = None -> select_support_events_on_db i d = [].
Proof.
  intros Hd Hi. destruct (select_support_events_on_db i d) as [|m l] eqn:E; [done|].
  assert (Hin : m ∈ select_support_events_on_db i d) by (rewrite E; left).
  apply (select_elem se_id (fun m => se_ticket_id m = i)) in Hin as [<- Hm]; [|by apply events_keyed].
  destruct Hd as (_ & _ & Hd). apply Hd in Hm as (_ & _ & [x Hx] & _). congruence.
Qed.

(** ** A transaction half-way

    The ticket object [t] in memory, for row [i], stands for the thread [th]; the
    other threads are as in [a0].  Until its first message is in, [said] is false. *)

Definition last_said (d : Desk) (t : SupportTicket) : Prop :=
  exists m, last (select_support_messages_on_db (st_id t) d) = Some m
    /\ st_last_message_at t = sm_created_at m /\ st_last_message_author t = sm_author m.

Definition status_ok (t : SupportTicket) : Prop :=
  (exists s, st_status t = ticket_status_value s)
  /\ (is_Some (st_closed_at t) <-> st_status t = ticket_status_value CLOSED).

Record half_way (a0 : gmap Z Thread) (i : Z) (said : bool) (t : SupportTicket) (th : Thread) (s : Session) : Prop := {
  hw_tables : tables_ok (desk s);
  hw_rows : forall j u, j <> i -> tickets (desk s) !! j = Some u -> row_ok (desk s) u;
  hw_status : status_ok t;
  hw_said : said = true -> last_said (desk s) t;
  hw_id : st_id t = i;
  hw_here : is_Some (tickets (desk s) !! i);
  hw_thread : thread_of (desk s) t = th;
  hw_others : delete i (threads (desk s)) = delete i a0;
}.

Lemma delete_threads_eq (i : Z) d d' :
  tickets d' = tickets d ->
  (forall j, j <> i -> select_support_messages_on_db j d' = select_support_messages_on_db j d) ->
  (forall j, j <> i -> select_support_events_on_db j d' = select_support_events_on_db j d) ->
  tables_ok d -> delete i (threads d') = delete i (threads d).
Proof.
  intros Ht Hm He (Hk & _). apply map_eq. intros j. destruct (decide (j = i)) as [->|Hj].
  { by rewrite !lookup_delete_eq. }
  rewrite !lookup_delete_ne by done. unfold threads. rewrite !lookup_fmap, Ht.
  destruct (tickets d !! j) as [u|] eqn:Eu; [|done]. simpl. f_equal. apply Hk in Eu as [<- _].
  unfold thread_of. by rewrite Hm, He by done.
Qed.

Section half_way.
Context (a0 : gmap Z Thread) (i : Z).

Lemma half_way_lock d t0 t :
  desk_ok d -> tickets d !! i = Some t ->
  half_way (threads d) i true t (thread_of d t) {| desk := d; began := t0; listeners := [] |}.
Proof.
  intros [Hd Hr] Ht. destruct (Hr _ _ Ht) as (Hs & Hc & Hl). split; try done.
  - intros j u _ Hu. by eapply Hr.
  - by destruct Hd as (Hk & _); apply Hk in Ht as [? _].
Qed.

(** Listeners are not part of the tables. *)
Lemma half_way_listeners said t th s l :
  half_way a0 i said t th s ->
  half_way a0 i said t th {| desk := desk s; began := began s; listeners := l |}.
Proof. intros []. by split. Qed.

Lemma half_way_message said t th s author body actor :
  half_way a0 i said t th s ->
  exists m s', append_message t (author_value author) body actor s =
      (Ok (m, with_last_message t (began s) (author_value author)), s')
    /\ began s' = began s
    /\ half_way a0 i true (with_last_message t (began s) (author_value author)) (say author body actor (began s) th) s'.
Proof.
  intros [Htab Hrows Hst Hsaid Hid [r Hr] Hth Hoth]. subst i.
  unfold append_message, insert_support_message_on_db, mbind, TX_mbind. rewrite Hr.
  set (m := {| sm_id := message_seq (desk s); sm_ticket_id := st_id t; sm_author := author_value author;
               sm_body := body; sm_actor_pubkey := actor; sm_created_at := began s |}).
  eexists _, _. split; [reflexivity|]. split; [done|].
  pose proof (select_messages_insert (desk s) m) as Hsel. specialize (Hsel) with (1 := Htab) (2 := eq_refl).
  set (d' := with_messages (desk s) (<[sm_id m := m]> (messages (desk s))) (message_seq (desk s) + 1)) in *.
  assert (Hne : forall j, j <> st_id t -> select_support_messages_on_db j d' = select_support_messages_on_db j (desk s)).
  { intros j Hj. rewrite Hsel, decide_False by done. apply app_nil_r. }
  assert (Heq : select_support_messages_on_db (st_id t) d' = select_support_messages_on_db (st_id t) (desk s) ++ [m])
    by (by rewrite Hsel, decide_True).
  split; simpl; try done.
  - destruct Htab as (H1 & H2 & H3). split; [done|]. split; [|done].
    intros j x Hx. subst d'; simpl in Hx. apply lookup_insert_Some in Hx as [[<- <-]|[_ Hx]]; simpl.
    + split; [done|]. split; [lia|]. split; [by eexists|by eexists].
    + apply H2 in Hx as (? & ? & ? & ?). split; [done|]. split; [lia|done].
  - intros j u Hj Hu. destruct (Hrows j u Hj Hu) as (? & ? & Hl). split; [done|]. split; [done|].
    assert (st_id u = j) as Hu' by (destruct Htab as (H1 & _); by apply H1 in Hu as [? _]).
    by rewrite Hne by congruence.
  - intros _. exists m. unfold last_said. simpl. by rewrite Heq, last_snoc.
  - unfold thread_of, say. rewrite <- Hth. simpl. rewrite Heq, fmap_app. unfold post_of at 2. simpl.
    by rewrite parse_author_value.
  - rewrite <- Hoth. by apply delete_threads_eq.
Qed.

Lemma half_way_event said t th s k author actor :
  half_way a0 i said t th s ->
  exists e s', insert_support_event_on_db (st_id t) (event_type_value k) (author_value author) actor s = (Ok e, s')
    /\ began s' = began s /\ desk_now (desk s') = desk_now (desk s)
    /\ half_way a0 i said t (note k author actor (began s) th) s'.
Proof.
  intros [Htab Hrows Hst Hsaid Hid [r Hr] Hth Hoth]. subst i.
  unfold insert_support_event_on_db. rewrite Hr.
  set (e := {| se_id := support_event_seq (desk s); se_ticket_id := st_id t; se_type := event_type_value k;
               se_actor := author_value author; se_actor_pubkey := actor; se_at := began s |}).
  eexists _, _. split; [reflexivity|]. split; [done|]. split; [done|].
  pose proof (select_events_insert (desk s) e) as Hsel. specialize (Hsel) with (1 := Htab) (2 := eq_refl).
  set (d' := with_support_events (desk s) (<[se_id e := e]> (events (desk s))) (support_event_seq (desk s) + 1)) in *.
  assert (Heq : select_support_events_on_db (st_id t) d' = select_support_events_on_db (st_id t) (desk s) ++ [e])
    by (by rewrite Hsel, decide_True).
  split; simpl; try done.
  - destruct Htab as (H1 & H2 & H3). split; [done|]. split; [done|].
    intros j x Hx. subst d'; simpl in Hx. apply lookup_insert_Some in Hx as [[<- <-]|[_ Hx]]; simpl.
    + split; [done|]. split; [lia|]. split; [by eexists|split; by eexists].
    + apply H3 in Hx as (? & ? & ? & ?). split; [done|]. split; [lia|done].
  - unfold thread_of, note. rewrite <- Hth. simpl. rewrite Heq, fmap_app. unfold entry_of at 2. simpl.
    by rewrite parse_event_type_value, parse_author_value.
  - rewrite <- Hoth. apply delete_threads_eq; try done. intros j Hj.
    rewrite Hsel, decide_False by done. apply app_nil_r.
Qed.

(** Changing the object: a field the message columns do not depend on. *)
Lemma half_way_object said t t' th th' s :
  half_way a0 i said t th s -> status_ok t' -> st_id t' = st_id t ->
  st_last_message_at t' = st_last_message_at t -> st_last_message_author t' = st_last_message_author t ->
  thread_of (desk s) t' = th' -> half_way a0 i said t' th' s.
Proof.
  intros [Htab Hrows Hst Hsaid Hid Hr Hth Hoth] Hst' Hi Ha Hb Hth'. split; try done.
  - intros H. destruct (Hsaid H) as (m & ? & ? & ?). exists m. rewrite Hi, Ha, Hb. done.
  - by rewrite Hi.
Qed.

Lemma ticket_status_inj a b : ticket_status_value a = ticket_status_value b -> a = b.
Proof. by destruct a, b. Qed.

Lemma eqb_status a b : String.eqb (ticket_status_value a) (ticket_status_value b) = bool_decide (a = b).
Proof. by destruct a, b. Qed.

Lemma half_way_status said t th s st author actor :
  half_way a0 i said t th s ->
  exists t' s', set_ticket_status t (ticket_status_value st) (author_value author) actor s = (Ok t', s')
    /\ began s' = began s /\ half_way a0 i said t' (move st author actor (began s) th) s'.
Proof.
  intros H. destruct (hw_status _ _ _ _ _ _ H) as [[was Hwas] Hcl].
  assert (Hstate : th_state th = was)
    by (rewrite <- (hw_thread _ _ _ _ _ _ H); simpl; by rewrite Hwas, parse_status_value).
  unfold set_ticket_status, move. rewrite Hwas, Hstate, !eqb_status.
  destruct (decide (was = st)) as [->|Hne]; [rewrite bool_decide_true by done; by exists t, s|].
  rewrite bool_decide_false by done. destruct (decide (st = CLOSED)) as [->|Hopen].
  - rewrite bool_decide_true by done. cbv beta iota delta [mbind TX_mbind server_now reads].
    destruct (half_way_event _ t th s EV_CLOSED author actor H) as (e & s' & -> & Hb & _ & H').
    eexists _, _. split; [reflexivity|]. split; [done|]. eapply half_way_object; [exact H'|..]; try done.
    + split; [by exists CLOSED|]. split; [done|by eexists].
    + unfold thread_of. rewrite <- (hw_thread _ _ _ _ _ _ H'). done.
  - rewrite (bool_decide_false (st = CLOSED)) by done. destruct (decide (was = CLOSED)) as [->|Hwo].
    + rewrite bool_decide_true by done. unfold mbind, TX_mbind.
      destruct (half_way_event _ t th s EV_REOPENED author actor H) as (e & s' & -> & Hb & _ & H').
      eexists _, _. split; [reflexivity|]. split; [done|]. eapply half_way_object; [exact H'|..]; try done.
      * split; [by exists st|]. simpl. split; [by intros []|]. by destruct st.
      * unfold thread_of, in_state. rewrite <- (hw_thread _ _ _ _ _ _ H'). simpl. by rewrite parse_status_value.
    + rewrite bool_decide_false by done. eexists _, _. split; [reflexivity|]. split; [done|].
      eapply half_way_object; [exact H|..]; try done.
      * split; [by exists st|]. cbn [st_closed_at st_status with_status]. rewrite Hcl, Hwas. split; intros ?%ticket_status_inj; congruence.
      * unfold thread_of, in_state. rewrite <- (hw_thread _ _ _ _ _ _ H). simpl. by rewrite parse_status_value.
Qed.

Lemma half_way_notify said t th s kind audience u :
  half_way a0 i said t th s ->
  exists s', notify_about kind audience u s = (Ok tt, s') /\ began s' = began s /\ half_way a0 i said t th s'.
Proof.
  intros H. unfold notify_about, notify_after_commit, writes.
  destruct (sinks (desk s)); eexists; (split; [reflexivity|]); (split; [done|]); [done|].
  by apply half_way_listeners.
Qed.

(** Writing the object back leaves the tables in order, and the thread in place. *)
Lemma half_way_flush t th s :
  half_way a0 i true t th s ->
  exists s', flush_ticket t s = (Ok tt, s') /\ desk_ok (desk s') /\ threads (desk s') = <[i := th]> a0.
Proof.
  intros [Htab Hrows Hst Hsaid Hid [r Hr] Hth Hoth]. specialize (Hsaid eq_refl).
  unfold flush_ticket, writes. eexists. split; [reflexivity|].
  set (d' := desk _).
  assert (Hd' : exists at_, tickets d' = <[i := with_updated_at t at_]> (tickets (desk s))
    /\ ticket_seq d' = ticket_seq (desk s) /\ messages d' = messages (desk s) /\ events d' = events (desk s)
    /\ message_seq d' = message_seq (desk s) /\ support_event_seq d' = support_event_seq (desk s)).
  { subst d'. case_decide as Hc; [|rewrite Hid; by eexists].
    exists (st_updated_at t). split; [|done]. rewrite insert_id; [done|]. rewrite <- Hid, Hc. by destruct t. }
  destruct Hd' as (at_ & Et & Es & Em & Ee & Ems & Ees). clearbody d'.
  assert (Hsm : forall j, select_support_messages_on_db j d' = select_support_messages_on_db j (desk s))
    by (intros j; unfold select_support_messages_on_db; by rewrite Em).
  assert (Hse : forall j, select_support_events_on_db j d' = select_support_events_on_db j (desk s))
    by (intros j; unfold select_support_events_on_db; by rewrite Ee).
  assert (Hth' : forall u, thread_of d' u = thread_of (desk s) u)
    by (intros u; unfold thread_of; by rewrite Hsm, Hse).
  destruct Htab as (H1 & H2 & H3). split; [split; [split; [|split]|]|].
  - rewrite Et, Es. intros j u [[<- <-]|[_ Hu]]%lookup_insert_Some; [|by apply H1].
    split; [done|]. by apply H1 in Hr as [_ ?].
  - rewrite Em, Ems, Et. intros j m Hm. apply H2 in Hm as (? & ? & ? & ?). rewrite lookup_insert_is_Some'. tauto.
  - rewrite Ee, Ees, Et. intros j e He. apply H3 in He as (? & ? & ? & ?). rewrite lookup_insert_is_Some'. tauto.
  - rewrite Et. intros j u [[<- <-]|[Hj Hu]]%lookup_insert_Some.
    + destruct Hst as [? ?]. split; [done|]. split; [done|]. rewrite Hsm. exact Hsaid.
    + destruct (Hrows j u) as (? & ? & ?); [done..|]. split; [done|]. split; [done|]. by rewrite Hsm.
  - apply map_eq. intros j. unfold threads. rewrite lookup_fmap, Et. destruct (decide (i = j)) as [<-|Hj].
    + rewrite !lookup_insert_eq. simpl. f_equal. rewrite Hth'. by rewrite <- Hth.
    + rewrite !lookup_insert_ne by done. apply (f_equal (fun m => m !! j)) in Hoth.
      rewrite !lookup_delete_ne in Hoth by done. rewrite <- Hoth. unfold threads. rewrite lookup_fmap.
      by destruct (tickets (desk s) !! j); simpl; rewrite ?Hth'.
Qed.
End half_way.

(** A new ticket, before its first message. *)
Lemma half_way_insert d t0 pubkey subject category email diagnostics :
  desk_ok d ->
  exists t s, insert_support_ticket_on_db pubkey subject category email diagnostics
      {| desk := d; began := t0; listeners := [] |} = (Ok t, s) /\ began s = t0 /\ st_id t = ticket_seq d
    /\ threads d !! ticket_seq d = None
    /\ half_way (threads d) (ticket_seq d) false t
         {| th_owner := pubkey; th_subject := subject; th_category := category; th_email := email;
            th_state := OPEN; th_posts := []; th_log := []; th_snapshot := diagnostics; th_filed_at := t0 |} s.
Proof.
  intros [Htab Hrows]. unfold insert_support_ticket_on_db. eexists _, _. split; [reflexivity|].
  split; [done|]. split; [done|]. pose proof Htab as (H1 & H2 & H3).
  assert (Hnone : tickets d !! ticket_seq d = None).
  { destruct (tickets d !! ticket_seq d) eqn:E; [|done]. apply H1 in E as [_ ?]. lia. }
  split; [unfold threads; by rewrite lookup_fmap, Hnone|]. simpl.
  split; simpl; try done.
  - split; [|split].
    + intros j u Hu. simpl in Hu. apply lookup_insert_Some in Hu as [[<- <-]|[_ Hu]]; simpl; [lia|].
      apply H1 in Hu as [? ?]. simpl. lia.
    + intros j m Hm. apply H2 in Hm as (? & ? & ? & ?). simpl. rewrite lookup_insert_is_Some'. tauto.
    + intros j e He. apply H3 in He as (? & ? & ? & ?). simpl. rewrite lookup_insert_is_Some'. tauto.
  - intros j u Hj Hu. rewrite lookup_insert_ne in Hu by done. by apply (Hrows j).
  - split; [by exists OPEN|]. simpl. split; [by intros []|done].
  - rewrite lookup_insert_eq. by eexists.
  - unfold thread_of. simpl.
    change (select_support_messages_on_db (ticket_seq d) _) with (select_support_messages_on_db (ticket_seq d) d).
    change (select_support_events_on_db (ticket_seq d) _) with (select_support_events_on_db (ticket_seq d) d).
    by rewrite select_messages_fresh, select_events_fresh.
  - unfold threads. simpl. rewrite fmap_insert, delete_insert_eq. f_equal.
Qed.
