(* ===== verification/SupportRefinement.v ===== *)
(** * The support desk refines its specification

    Every unit of every handler is a run of [desk_step] on the threads and keeps
    [desk_ok]; by [pool_safe] so is any interleaving of handlers, sweeps and changes
    from outside.  What follows for a thread is then read off the specification:
    nothing said or logged is ever lost or reordered, and the log of a thread is a
    single opening followed by closings and reopenings in turn. *)

From Stdlib Require Import Ascii String.
From S2P Require Import Prelude Json Time Types Effects Repos Atomic RateLimit Tables Support SupportSpec.
From stdpp Require Import list.
Local Open Scope Z_scope.

Section refinement.
Context {E : Env} {D : DeskEnv}.

Definition refines (d d' : Desk) : Prop :=
  rtc (desk_step support_max_open_tickets) (threads d) (threads d').

Lemma refines_refl d : refines d d.
Proof. apply rtc_refl. Qed.
Lemma refines_trans d1 d2 d3 : refines d1 d2 -> refines d2 d3 -> refines d1 d3.
Proof. unfold refines. intros. by etrans. Qed.

(** A body of a transaction that is one step of the specification, or raises. *)
Definition one_step {A} (m : TX Session A) : Prop := forall d t0, desk_ok d ->
  match m {| desk := d; began := t0; listeners := [] |} with
  | (Ok _, s) => desk_ok (desk s) /\ refines d (desk s)
  | (Raise _, _) => True
  end.

Lemma notified_frame l d : desk_ok d ->
  desk_ok (foldl (fun d n => notify n d) d l) /\ threads (foldl (fun d n => notify n d) d l) = threads d.
Proof.
  revert d. induction l as [|n l IH]; intros d H; [done|]. simpl.
  assert (Hn : desk_ok (notify n d) /\ threads (notify n d) = threads d)
    by (unfold notify; destruct (sinks d); by split).
  destruct Hn as [H1 <-]. by apply IH.
Qed.

Lemma within_transaction {A} t0 (m : TX Session A) : one_step m -> within refines desk_ok (in_transaction t0 m).
Proof.
  intros Hm. unfold in_transaction. apply within_bind.
  - split; [|done]. intros d Hd. specialize (Hm d t0 Hd). unfold committed.
    destruct (m _) as [[a|e] s]; [exact Hm|]. split; [done|apply refines_refl].
  - intros [a heard]. apply within_bind; [|done]. apply within_tx. intros d Hd.
    destruct (notified_frame heard d Hd) as [H1 H2]. split; [done|]. unfold refines. simpl. rewrite H2. apply rtc_refl.
Qed.

(** ** The bodies *)

Lemma threads_lookup d i t : tickets d !! i = Some t -> threads d !! i = Some (thread_of d t).
Proof. intros H. unfold threads. by rewrite lookup_fmap, H. Qed.

(** The ticket is locked; the rest of the body takes it from [th] to [f th]. *)
Lemma one_step_locked {A} i (body : SupportTicket -> TX Session A) :
  (forall d t0 t, desk_ok d -> tickets d !! i = Some t ->
     match body t {| desk := d; began := t0; listeners := [] |} with
     | (Ok _, s) => desk_ok (desk s) /\ refines d (desk s)
     | (Raise _, _) => True
     end) ->
  one_step (locked_ticket i ≫= body).
Proof.
  intros H d t0 Hd. unfold locked_ticket, lock_support_ticket_on_db, reads, mbind, TX_mbind. simpl.
  destruct (tickets d !! i) as [t|] eqn:Et; [|done]. by apply H.
Qed.

Lemma one_step_locked_own {A} i pubkey (body : SupportTicket -> TX Session A) :
  (forall d t0 t, desk_ok d -> tickets d !! i = Some t -> st_pubkey t = pubkey ->
     match body t {| desk := d; began := t0; listeners := [] |} with
     | (Ok _, s) => desk_ok (desk s) /\ refines d (desk s)
     | (Raise _, _) => True
     end) ->
  one_step (locked_own_ticket i pubkey ≫= body).
Proof.
  intros H d t0 Hd. unfold locked_own_ticket, locked_ticket, lock_support_ticket_on_db, reads, mbind, TX_mbind. simpl.
  destruct (tickets d !! i) as [t|] eqn:Et; [|done]. simpl.
  destruct (String.eqb_spec (st_pubkey t) pubkey); [by apply H|done].
Qed.

(** Steps of a body, each with what it does to the thread in hand. *)
Ltac half H tac :=
  let Hb := fresh "Hb" in let E' := fresh "E" in
  first [destruct tac as (? & ? & E' & Hb & H') | destruct tac as (? & E' & Hb & H')];
  clear H; rename H' into H; rewrite (tx_bind_ok _ _ _ _ _ E').

Ltac finish H :=
  let E' := fresh "E" in
  repeat match goal with Hb : began _ = _ |- _ => rewrite Hb in H end; cbn [began] in H;
  destruct (half_way_flush _ _ _ _ _ H) as (? & E' & ? & Hthreads);
  rewrite (tx_bind_ok _ _ _ _ _ E'); split; [done|]; unfold refines; simpl; rewrite Hthreads; apply rtc_once.

Lemma reply_body i pubkey body :
  one_step (
    ticket ← locked_own_ticket i pubkey;
    '(message, ticket) ← append_message ticket (author_value USER) body (Some pubkey);
    ticket ← set_ticket_status ticket (ticket_status_value OPEN) (author_value USER) (Some pubkey);
    _ ← notify_about USER_REPLIED team ticket;
    _ ← flush_ticket ticket;
    mret (message_item message)).
Proof.
  apply one_step_locked_own. intros d t0 t Hd Ht Hown.
  pose proof (half_way_lock i d t0 t Hd Ht) as H.
  half H (half_way_message _ _ _ _ _ _ USER body (Some pubkey) H).
  half H (half_way_status _ _ _ _ _ _ OPEN USER (Some pubkey) H).
  half H (half_way_notify _ _ _ _ _ _ USER_REPLIED team x1 H).
  finish H. rewrite <- Hown. apply (step_reply _ _ i (thread_of d t) body t0). by apply threads_lookup.
Qed.

Lemma resolve_body i pubkey :
  one_step (
    ticket ← locked_own_ticket i pubkey;
    ticket ← set_ticket_status ticket (ticket_status_value CLOSED) (author_value USER) (Some pubkey);
    _ ← flush_ticket ticket;
    mret (ticket_item ticket)).
Proof.
  apply one_step_locked_own. intros d t0 t Hd Ht Hown.
  pose proof (half_way_lock i d t0 t Hd Ht) as H.
  half H (half_way_status _ _ _ _ _ _ CLOSED USER (Some pubkey) H).
  finish H. rewrite <- Hown. apply (step_resolve _ _ i (thread_of d t) t0). by apply threads_lookup.
Qed.

Lemma answer_body i body actor :
  one_step (
    ticket ← locked_ticket i;
    '(message, ticket) ← append_message ticket (author_value SUPPORT) body (Some actor);
    ticket ← set_ticket_status ticket (ticket_status_value ANSWERED) (author_value SUPPORT) (Some actor);
    _ ← notify_about SUPPORT_REPLIED user ticket;
    _ ← flush_ticket ticket;
    mret (admin_message_item message)).
Proof.
  apply one_step_locked. intros d t0 t Hd Ht.
  pose proof (half_way_lock i d t0 t Hd Ht) as H.
  half H (half_way_message _ _ _ _ _ _ SUPPORT body (Some actor) H).
  half H (half_way_status _ _ _ _ _ _ ANSWERED SUPPORT (Some actor) H).
  half H (half_way_notify _ _ _ _ _ _ SUPPORT_REPLIED user x1 H).
  finish H. apply (step_answer _ _ i (thread_of d t) body actor t0). by apply threads_lookup.
Qed.

Lemma close_body i closing actor :
  one_step (
    ticket ← locked_ticket i;
    ticket ← match closing with
             | None => mret ticket
             | Some note =>
                 '(_, ticket) ← append_message ticket (author_value SUPPORT) note (Some actor);
                 _ ← notify_about SUPPORT_REPLIED user ticket;
                 mret ticket
             end;
    ticket ← set_ticket_status ticket (ticket_status_value CLOSED) (author_value SUPPORT) (Some actor);
    _ ← flush_ticket ticket;
    mret (admin_ticket_item ticket)).
Proof.
  apply one_step_locked. intros d t0 t Hd Ht.
  pose proof (half_way_lock i d t0 t Hd Ht) as H.
  assert (Hstep : forall s', threads s' = <[i := move CLOSED SUPPORT (Some actor) t0
    (from_option (fun body => say SUPPORT body (Some actor) t0 (thread_of d t)) (thread_of d t) closing)]> (threads d) ->
    refines d s').
  { intros s' Hs'. unfold refines. rewrite Hs'. apply rtc_once, step_close. by apply threads_lookup. }
  destruct closing as [body|].
  - destruct (half_way_message _ _ _ _ _ _ SUPPORT body (Some actor) H) as (m & s1 & E1 & Hb1 & H1).
    destruct (half_way_notify _ _ _ _ _ _ SUPPORT_REPLIED user
      (with_last_message t t0 (author_value SUPPORT)) H1) as (s2 & E2 & Hb2 & H2).
    erewrite tx_bind_ok by (rewrite (tx_bind_ok _ _ _ _ _ E1); erewrite tx_bind_ok by exact E2; reflexivity).
    half H2 (half_way_status _ _ _ _ _ _ CLOSED SUPPORT (Some actor) H2).
    rewrite Hb2, Hb1 in H2. destruct (half_way_flush _ _ _ _ _ H2) as (s4 & E4 & Hok & Hth).
    rewrite (tx_bind_ok _ _ _ _ _ E4). split; [done|]. by apply Hstep.
  - erewrite tx_bind_ok by reflexivity.
    half H (half_way_status _ _ _ _ _ _ CLOSED SUPPORT (Some actor) H).
    destruct (half_way_flush _ _ _ _ _ H) as (s4 & E4 & Hok & Hth).
    rewrite (tx_bind_ok _ _ _ _ _ E4). split; [done|]. by apply Hstep.
Qed.

Lemma reopen_body i actor :
  one_step (
    ticket ← locked_ticket i;
    ticket ← set_ticket_status ticket (ticket_status_value OPEN) (author_value SUPPORT) (Some actor);
    _ ← flush_ticket ticket;
    mret (admin_ticket_item ticket)).
Proof.
  apply one_step_locked. intros d t0 t Hd Ht.
  pose proof (half_way_lock i d t0 t Hd Ht) as H.
  half H (half_way_status _ _ _ _ _ _ OPEN SUPPORT (Some actor) H).
  finish H. apply (step_reopen _ _ i (thread_of d t) actor t0). by apply threads_lookup.
Qed.

Lemma category_body i category actor :
  one_step (
    ticket ← locked_ticket i;
    ticket ← (if String.eqb (st_category ticket) category then mret ticket
              else
                _ ← insert_support_event_on_db (st_id ticket) (event_type_value EV_RECATEGORIZED)
                      (author_value SUPPORT) (Some actor);
                mret (with_category ticket category));
    _ ← flush_ticket ticket;
    mret (admin_ticket_item ticket)).
Proof.
  apply one_step_locked. intros d t0 t Hd Ht.
  pose proof (half_way_lock i d t0 t Hd Ht) as H.
  destruct (String.eqb_spec (st_category t) category) as [Heq|Hne].
  - erewrite tx_bind_ok by reflexivity. destruct (half_way_flush _ _ _ _ _ H) as (s4 & E4 & Hok & Hth).
    rewrite (tx_bind_ok _ _ _ _ _ E4). split; [done|]. unfold refines. simpl.
    rewrite Hth, insert_id by by apply threads_lookup. apply rtc_refl.
  - destruct (half_way_event _ _ _ _ _ _ EV_RECATEGORIZED SUPPORT (Some actor) H) as (e & s1 & E1 & Hb & _ & H1).
    erewrite tx_bind_ok by (rewrite (tx_bind_ok _ _ _ _ _ E1); reflexivity).
    apply (half_way_object _ _ _ _ (with_category t category) _
      (in_category category (note EV_RECATEGORIZED SUPPORT (Some actor) t0 (thread_of d t)))) in H1; try done.
    + finish H1. apply step_recategorize; [by apply threads_lookup|done].
    + by destruct (hw_status _ _ _ _ _ _ H1).
    + pose proof (hw_thread _ _ _ _ _ _ H1) as Hth. cbn [began] in Hth. by rewrite <- Hth.
Qed.

(** ** Filing *)

Lemma parse_status_closed s : parse_status s = CLOSED <-> s = ticket_status_value CLOSED.
Proof.
  unfold parse_status. destruct (String.eqb_spec s (ticket_status_value CLOSED)); [done|].
  destruct (String.eqb s (ticket_status_value ANSWERED)); naive_solver.
Qed.

Lemma unclosed_threads pubkey d t0 :
  count_unclosed_support_tickets_on_db pubkey {| desk := d; began := t0; listeners := [] |}
  = (Ok (unclosed_of pubkey (threads d)), {| desk := d; began := t0; listeners := [] |}).
Proof.
  unfold count_unclosed_support_tickets_on_db, reads, unclosed_of, threads. cbn [desk]. do 3 f_equal.
  rewrite map_to_list_fmap. generalize (map_to_list (tickets d)). intros l.
  induction l as [|[i t] l IH]; [done|]. rewrite !fmap_cons, !filter_cons. cbn [snd prod_map].
  assert (Hiff : (st_pubkey t = pubkey /\ st_status t <> ticket_status_value CLOSED)
    <-> (th_owner (thread_of d t) = pubkey /\ th_state (thread_of d t) <> CLOSED))
    by (cbn [th_owner th_state thread_of]; by rewrite parse_status_closed).
  destruct (decide (st_pubkey t = pubkey /\ _)) as [H|H];
    [rewrite decide_True by by apply Hiff|rewrite decide_False by (by rewrite <- Hiff)];
    cbn [length]; by rewrite IH.
Qed.

Lemma file_body pubkey subject body category email diagnostics :
  one_step (
    unclosed ← count_unclosed_support_tickets_on_db pubkey;
    if support_max_open_tickets <=? unclosed then Atomic.raise (HTTPException 409)
    else
      ticket ← insert_support_ticket_on_db pubkey subject category email diagnostics;
      '(_, ticket) ← append_message ticket (author_value USER) body (Some pubkey);
      _ ← insert_support_event_on_db (st_id ticket) (event_type_value EV_OPENED) (author_value USER) (Some pubkey);
      _ ← notify_about TICKET_OPENED team ticket;
      _ ← flush_ticket ticket;
      mret (ticket_item ticket)).
Proof.
  intros d t0 Hd. rewrite (tx_bind_ok _ _ _ _ _ (unclosed_threads pubkey d t0)).
  destruct (Z.leb_spec support_max_open_tickets (unclosed_of pubkey (threads d))) as [|Hcap]; [done|].
  destruct (half_way_insert d t0 pubkey subject category email diagnostics Hd)
    as (t & s & E0 & <- & Hid & Hnone & H). rewrite (tx_bind_ok _ _ _ _ _ E0).
  half H (half_way_message _ _ _ _ _ _ USER body (Some pubkey) H).
  destruct (half_way_event _ _ _ _ _ _ EV_OPENED USER (Some pubkey) H) as (e & s1 & E2 & Hb2 & _ & H1).
  rewrite (tx_bind_ok _ _ _ _ _ E2).
  half H1 (half_way_notify _ _ _ _ _ _ TICKET_OPENED team (with_last_message t (began s) (author_value USER)) H1).
  finish H1. by apply (step_file _ _ (ticket_seq d) pubkey subject category body email diagnostics (began s)).
Qed.

Lemma sweep_body cutoff : one_step (clear_expired_support_diagnostics_on_db cutoff).
Proof.
  intros d t0 [(H1 & H2 & H3) Hr]. simpl. set (g := fun t => if diagnostics_expired cutoff t then _ else t).
  assert (Hg : forall t, st_id (g t) = st_id t /\ st_status (g t) = st_status t /\ st_closed_at (g t) = st_closed_at t
    /\ st_last_message_at (g t) = st_last_message_at t /\ st_last_message_author (g t) = st_last_message_author t)
    by (intros t; unfold g; by destruct (diagnostics_expired cutoff t)).
  split; [split; [split; [|split]|]|].
  - intros i t Ht. simpl in Ht. rewrite lookup_fmap in Ht. destruct (tickets d !! i) as [u|] eqn:Eu; [|done].
    injection Ht as <-. destruct (Hg u) as (-> & _). by apply H1.
  - intros i m Hm. simpl. rewrite lookup_fmap, fmap_is_Some. by apply H2.
  - intros i m Hm. simpl. rewrite lookup_fmap, fmap_is_Some. by apply H3.
  - intros i t Ht. simpl in Ht. rewrite lookup_fmap in Ht. destruct (tickets d !! i) as [u|] eqn:Eu; [|done].
    injection Ht as <-. unfold row_ok. destruct (Hg u) as (-> & -> & -> & -> & ->). by apply (Hr i).
  - enough (Eq : threads (with_tickets d (g <$> tickets d) (ticket_seq d)) = forget cutoff <$> threads d).
    { unfold refines. simpl. rewrite Eq. apply rtc_once, step_forget. }
    unfold threads. simpl. rewrite <- !map_fmap_compose. apply map_fmap_ext. intros i t Ht. simpl.
    unfold forget, g, diagnostics_expired. simpl. destruct (st_created_at t <? cutoff); [|done].
    destruct t as [? ? ? ? ? ? [?|]]; done.
Qed.

(** ** Any interleaving *)

(** What a request does besides its answer. *)
Definition ignore {A} (p : act Desk A) : act Desk unit := _ ← p; mret tt.

Inductive desk_handler : act Desk unit -> Prop :=
  | h_create pubkey subject body category email diagnostics :
      desk_handler (ignore (create_support_ticket_endpoint pubkey subject body category email diagnostics))
  | h_reply i pubkey body : desk_handler (ignore (create_support_message_endpoint i pubkey body))
  | h_resolve i pubkey : desk_handler (ignore (resolve_support_ticket_endpoint pubkey i))
  | h_thread i pubkey : desk_handler (ignore (get_support_thread_endpoint pubkey i))
  | h_state pubkey params etag : desk_handler (ignore (get_support_state_endpoint pubkey params etag))
  | h_answer i body actor : desk_handler (ignore (admin_message_endpoint actor i body))
  | h_close i closing actor : desk_handler (ignore (close_support_ticket_endpoint actor i closing))
  | h_reopen i actor : desk_handler (ignore (reopen_support_ticket_endpoint actor i))
  | h_category i category actor : desk_handler (ignore (update_support_ticket_endpoint actor i category))
  | h_admin_thread i : desk_handler (ignore (admin_thread_endpoint i))
  | h_queue params status category pubkey etag :
      desk_handler (ignore (list_support_tickets_endpoint params status category pubkey etag))
  | h_sweep : desk_handler (ignore expire_support_diagnostics_pass).

(** Time, policies, the whitelist, counters and transports change at will; ids may
    be skipped.  Nothing else writes the three tables. *)
Inductive desk_outside (d : Desk) : Desk -> Prop :=
  | outside_desk d' :
      tickets d' = tickets d -> messages d' = messages d -> events d' = events d ->
      ticket_seq d <= ticket_seq d' -> message_seq d <= message_seq d' ->
      support_event_seq d <= support_event_seq d' -> desk_outside d d'.

Lemma outside_ok d d' : desk_ok d -> desk_outside d d' -> step_ok refines desk_ok d d'.
Proof.
  intros [(H1 & H2 & H3) Hr] [d'' Et Em Ee S1 S2 S3].
  assert (Hsm : forall j, select_support_messages_on_db j d'' = select_support_messages_on_db j d)
    by (intros j; unfold select_support_messages_on_db; by rewrite Em).
  assert (Hse : forall j, select_support_events_on_db j d'' = select_support_events_on_db j d)
    by (intros j; unfold select_support_events_on_db; by rewrite Ee).
  split; [split; [split; [|split]|]|].
  - rewrite Et. intros i t Ht. apply H1 in Ht as [? ?]. split; [done|lia].
  - rewrite Em, Et. intros i m Hm. apply H2 in Hm as (? & ? & ?). split; [done|]. split; [lia|done].
  - rewrite Ee, Et. intros i e He. apply H3 in He as (? & ? & ?). split; [done|]. split; [lia|done].
  - rewrite Et. intros i t Ht. unfold row_ok. rewrite Hsm. by apply (Hr i).
  - unfold refines. replace (threads d'') with (threads d); [apply rtc_refl|].
    unfold threads. rewrite Et. apply map_fmap_ext. intros i t _. unfold thread_of. by rewrite Hsm, Hse.
Qed.

(** Units that touch no table. *)
Lemma keeps_tables {A} (f : TX Desk A) :
  (forall d, desk_outside d (f d).2) -> keeps refines desk_ok f.
Proof. intros Hf d Hd. apply outside_ok; [done|apply Hf]. Qed.

Lemma outside_refl d : desk_outside d d.
Proof. by split. Qed.

Lemma within_reads {A} (f : Desk -> A) : within refines desk_ok (Tx (reads f) Ret).
Proof. apply within_tx, keeps_tables. intros d. apply outside_refl. Qed.

Lemma within_windows {A} (p : act Redis A) : within refines desk_ok (on_windows p).
Proof.
  induction p as [r|B f k IH]; [done|]. split; [|intros r; apply IH].
  apply keeps_tables. intros d. by destruct (f (windows d)).
Qed.

Lemma within_entitled pubkey : within refines desk_ok (is_entitled_to_support pubkey).
Proof.
  unfold is_entitled_to_support. apply within_bind; [apply within_reads|]. intros [|]; [done|].
  apply within_bind; [|done]. apply within_tx, keeps_tables. intros d. unfold in_world.
  by destruct (Repos.get_scheduling_for_pubkey_on_db pubkey (world d)).
Qed.

Lemma within_require pubkey : within refines desk_ok (require_entitled_to_support pubkey).
Proof. apply within_bind; [apply within_entitled|]. by intros []. Qed.

Ltac within_tac :=
  first
    [ apply within_reads | apply within_entitled | apply within_require | apply within_windows
    | apply within_transaction; first
        [ apply reply_body | apply resolve_body | apply answer_body | apply close_body | apply reopen_body
        | apply category_body | apply file_body | apply sweep_body ]
    | done ].

Lemma handler_within h : desk_handler h -> within refines desk_ok h.
Proof.
  intros Hh. destruct Hh; unfold ignore; (apply within_bind; [|done]).
  - do 2 (apply within_bind; [within_tac|intros ?]). within_tac.
  - do 3 (apply within_bind; [within_tac|intros ?]). within_tac.
  - apply within_bind; [within_tac|intros ?]. within_tac.
  - apply within_bind; [within_tac|intros [t|]; [|done]]. destruct (negb _); [done|].
    do 2 (apply within_bind; [within_tac|intros ?]). done.
  - do 2 (apply within_bind; [within_tac|intros ?]). cbv zeta. case_decide; [done|]. apply within_bind; [|done].
    apply within_bind; [done|intros ?]. by apply within_bind; [within_tac|].
  - apply within_bind; [within_tac|intros ?]. within_tac.
  - apply within_bind; [within_tac|intros ?]. within_tac.
  - apply within_bind; [within_tac|intros ?]. within_tac.
  - apply within_bind; [within_tac|intros ?]. within_tac.
  - apply within_bind; [within_tac|intros [t|]; [|done]].
    do 2 (apply within_bind; [within_tac|intros ?]). done.
  - apply within_bind; [within_tac|intros ?]. cbv zeta. case_decide; [done|]. apply within_bind; [|done].
    by apply within_bind; [within_tac|].
  - apply within_try; [|done]. do 2 (apply within_bind; [within_tac|intros ?]). within_tac.
Qed.

(** C35: The desk refines its specification.  From tables in order, whatever requests
    and sweeps run, interleaved at their locks, failing before or after their commit,
    or cut off half-way, the tables stay in order and the threads they hold go through
    a run of the specification: filings within the cap, replies that hand the ticket
    back, answers, closings, reopenings, recategorizations and expiries. *)
Theorem desk_refines d p :
  desk_ok d -> rtc (pool_step desk_handler desk_outside) {| shared := d; running := ∅ |} p ->
  desk_ok (shared p) /\ rtc (desk_step support_max_open_tickets) (threads d) (threads (shared p)).
Proof.
  intros Hd Hr.
  destruct (pool_safe refines desk_ok refines_refl refines_trans desk_handler desk_outside) with
    (p := {| shared := d; running := ∅ |} : Pool Desk) (p' := p) as [[Hok _] Href]; try done.
  - intros h s0 Hh _. by apply within_safe, handler_within.
  - apply outside_ok.
Qed.
End refinement.

(** ** What the specification keeps *)

(** Where a log leaves its thread. *)
Inductive Phase := Unopened | Live | Shut | Broken.

Definition next_phase (p : Phase) (e : LogEntry) : Phase :=
  match le_type e, p with
  | EV_OPENED, Unopened => Live
  | EV_CLOSED, Live => Shut
  | EV_REOPENED, Shut => Live
  | EV_RECATEGORIZED, Live => Live
  | EV_RECATEGORIZED, Shut => Shut
  | _, _ => Broken
  end.

Definition replay (l : list LogEntry) : Phase := foldl next_phase Unopened l.

Definition thread_ok (t : Thread) : Prop := replay (th_log t) = if decide (th_state t = CLOSED) then Shut else Live.

Lemma replay_note k by_ actor at_ t :
  replay (th_log (note k by_ actor at_ t))
  = next_phase (replay (th_log t)) {| le_type := k; le_by := by_; le_actor := actor; le_at := at_ |}.
Proof. unfold replay, note. cbn [th_log]. by rewrite foldl_app. Qed.

Lemma move_ok st by_ actor at_ t : thread_ok t -> thread_ok (move st by_ actor at_ t).
Proof.
  unfold thread_ok, move. intros H. destruct (decide (th_state t = st)) as [|Hne]; [done|].
  cbn [in_state th_log th_state]. destruct (decide (st = CLOSED)) as [->|Hst].
  - by rewrite replay_note, H, decide_False by done.
  - destruct (decide (th_state t = CLOSED)) as [Hc|Hc]; [|done]. by rewrite replay_note, H.
Qed.

(** What is kept of a thread from one moment to any later one. *)
Definition continues (t t' : Thread) : Prop :=
  th_owner t' = th_owner t /\ th_subject t' = th_subject t /\ th_email t' = th_email t
  /\ th_filed_at t' = th_filed_at t /\ th_posts t `prefix_of` th_posts t' /\ th_log t `prefix_of` th_log t'.

Lemma continues_refl t : continues t t.
Proof. by unfold continues. Qed.
Lemma continues_trans t1 t2 t3 : continues t1 t2 -> continues t2 t3 -> continues t1 t3.
Proof.
  intros (? & ? & ? & ? & ? & ?) (? & ? & ? & ? & ? & ?). unfold continues.
  do 4 (split; [congruence|]). split; by etrans.
Qed.

Lemma continues_say a body actor at_ t : continues t (say a body actor at_ t).
Proof. repeat split; try done. by apply prefix_app_r. Qed.
Lemma continues_note k by_ actor at_ t : continues t (note k by_ actor at_ t).
Proof. repeat split; try done. by apply prefix_app_r. Qed.
Lemma continues_move st by_ actor at_ t : continues t (move st by_ actor at_ t).
Proof. unfold move. repeat case_decide; repeat split; try done; by apply prefix_app_r. Qed.

Lemma desk_step_kept cap a a' i t :
  desk_step cap a a' -> a !! i = Some t ->
  exists t', a' !! i = Some t' /\ continues t t'.
Proof.
  intros Hs Hi. destruct Hs as [j|j u|j u|j u|j u|j u|j u|cutoff].
  8:{ rewrite lookup_fmap, Hi. eexists. split; [done|]. unfold forget. by destruct (_ <? _). }
  all: destruct (decide (j = i)) as [<-|Hne]; [|rewrite lookup_insert_ne by done; exists t; by split].
  { congruence. }
  all: simplify_eq; rewrite lookup_insert_eq; eexists; (split; [done|]).
  - eapply continues_trans; [apply continues_say|apply continues_move].
  - apply continues_move.
  - eapply continues_trans; [apply continues_say|apply continues_move].
  - eapply continues_trans; [|apply continues_move]. destruct closing; [apply continues_say|apply continues_refl].
  - apply continues_move.
  - apply continues_note.
Qed.

Lemma desk_step_ok cap a a' :
  desk_step cap a a' -> (forall j u, a !! j = Some u -> thread_ok u) -> forall j u, a' !! j = Some u -> thread_ok u.
Proof.
  intros Hs Hok i t. destruct Hs as [j|j u|j u|j u|j u|j u|j u|cutoff].
  8:{ rewrite lookup_fmap. destruct (a !! i) as [u|] eqn:Eu; [|done]. simpl. intros [= <-].
      apply Hok in Eu. unfold forget. by destruct (_ <? _). }
  all: intros [[<- <-]|[_ Ht]]%lookup_insert_Some; [|by eapply Hok].
  1: done.
  all: match goal with Hu : _ !! _ = Some _ |- _ => apply Hok in Hu end.
  all: try (apply move_ok; try done; by destruct closing).
  unfold thread_ok in *. cbn [in_category th_log th_state]. rewrite replay_note.
  match goal with Hu : replay _ = _ |- _ => rewrite Hu end. cbn [note th_state]. by case_decide.
Qed.

Section history.
Context {E : Env} {D : DeskEnv}.

Lemma threads_continue d p i t :
  (forall j u, threads d !! j = Some u -> thread_ok u) ->
  rtc (desk_step support_max_open_tickets) (threads d) p -> threads d !! i = Some t ->
  (forall j u, p !! j = Some u -> thread_ok u) /\ exists t', p !! i = Some t' /\ continues t t'.
Proof.
  intros Hok Hr. revert t. induction Hr as [a|a1 a2 a3 H12 _ IH]; intros t Hi.
  - split; [done|]. exists t. split; [done|apply continues_refl].
  - destruct (desk_step_kept _ _ _ _ _ H12 Hi) as (t' & Hi' & Hc).
    destruct (IH (desk_step_ok _ _ _ H12 Hok) t' Hi') as (Hok3 & t3 & Hi3 & Hc3).
    split; [done|]. exists t3. split; [done|]. by eapply continues_trans.
Qed.

(** A thread only grows.  Between any two moments of any interleaving, a ticket
    keeps its number, owner, subject, address and filing time; what was said in it and
    what happened to it stay, in their order, before anything newer; and its log reads
    as one opening followed by closings and reopenings in turn, which leave it closed
    exactly when its status says so and a closing time is stored. *)
Theorem threads_only_grow d p i t :
  desk_ok d -> (forall j u, threads d !! j = Some u -> thread_ok u) ->
  rtc (pool_step desk_handler desk_outside) {| shared := d; running := ∅ |} p ->
  tickets d !! i = Some t ->
  exists t', tickets (shared p) !! i = Some t'
    /\ continues (thread_of d t) (thread_of (shared p) t')
    /\ replay (th_log (thread_of (shared p) t'))
       = (if decide (st_status t' = ticket_status_value CLOSED) then Shut else Live)
    /\ (is_Some (st_closed_at t') <-> st_status t' = ticket_status_value CLOSED).
Proof.
  intros Hd Hth Hr Hi.
  destruct (pool_safe refines desk_ok refines_refl refines_trans desk_handler desk_outside) with
    (p := {| shared := d; running := ∅ |} : Pool Desk) (p' := p) as [[Hok _] Href]; try done.
  { intros h s0 Hh _. by apply within_safe, handler_within. } { apply outside_ok. }
  destruct (threads_continue d _ i _ Hth Href (threads_lookup _ _ _ Hi)) as (Hlog & t' & Ht' & Hc).
  unfold threads in Ht'. rewrite lookup_fmap in Ht'.
  destruct (tickets (shared p) !! i) as [u|] eqn:Eu; [|done]. injection Ht' as <-.
  exists u. split; [done|]. split; [done|]. split.
  - rewrite (Hlog i); [|by apply threads_lookup]. cbn [th_state thread_of].
    pose proof (parse_status_closed (st_status u)). repeat case_decide; tauto.
  - destruct Hok as [_ Hrows]. by destruct (Hrows _ _ Eu) as (_ & ? & _).
Qed.
End history.
