(* ===== verification/SupportPoll.v ===== *)
(** * Polling the support desk

    Both lists are polled with a tag made of [max(updated_at)], the count, and what
    else decides the answer.  [poll_never_stale]: as long as writers do not overlap, a
    poll answered 304 would have been answered with what the client already has.
    [overlapping_writer_is_missed] is a run in which they do overlap and it would not:
    [updated_at] is the time a transaction began, so one that commits late can leave
    the maximum where it was. *)

From Stdlib Require Import Ascii String.
From S2P Require Import Prelude Json Time Types Effects Repos Atomic RateLimit Tables Support SupportSpec SupportRefinement.
From stdpp Require Import list.
Local Open Scope Z_scope.

(** ** A handler alone *)

Lemma run_within {S A} (R : S -> S -> Prop) (I : S -> Prop) (p : act S A) s :
  (forall s, R s s) -> (forall s1 s2 s3, R s1 s2 -> R s2 s3 -> R s1 s3) ->
  within R I p -> I s -> step_ok R I s (run_act p s).2.
Proof.
  intros Hrefl Htr. revert s. induction p as [r|B f k IH]; intros s Hp HI; [by split|].
  destruct Hp as [Hf Hk]. destruct (Hf s HI) as [HI1 HR1]. simpl.
  destruct (IH (f s).1 (f s).2 (Hk _) HI1) as [HI2 HR2]. split; [done|]. by eapply Htr.
Qed.

(** ** Rows a transaction changes carry its time *)

Definition stamped_rows (at_ : Z) (m m' : gmap Z SupportTicket) : Prop :=
  forall i t', m' !! i = Some t' -> m !! i = Some t' \/ st_updated_at t' = at_.

Definition stamps (s s' : Session) : Prop :=
  began s' = began s /\ desk_now (desk s') = desk_now (desk s)
  /\ stamped_rows (began s) (tickets (desk s)) (tickets (desk s')).

Definition stamping {A} (m : TX Session A) : Prop := forall s, stamps s (m s).2.

Lemma stamps_refl s : stamps s s.
Proof. split; [done|]. split; [done|]. by left. Qed.

Lemma stamps_same s s' :
  began s' = began s -> desk_now (desk s') = desk_now (desk s) -> tickets (desk s') = tickets (desk s) -> stamps s s'.
Proof. intros ? ? Ht. split; [done|]. split; [done|]. rewrite Ht. by left. Qed.

Lemma stamps_trans s1 s2 s3 : stamps s1 s2 -> stamps s2 s3 -> stamps s1 s3.
Proof.
  intros (B1 & N1 & H1) (B2 & N2 & H2). split; [congruence|]. split; [congruence|].
  intros i t' [Ht|Ht]%H2; [by apply H1|]. right. congruence.
Qed.

Lemma stamping_bind {A B} (m : TX Session A) (f : A -> TX Session B) :
  stamping m -> (forall a, stamping (f a)) -> stamping (m ≫= f).
Proof.
  intros Hm Hf s. unfold mbind, TX_mbind. specialize (Hm s). destruct (m s) as [[a|e] s1]; [|done].
  eapply stamps_trans; [exact Hm|apply Hf].
Qed.

Lemma stamping_ret {A} (a : A) : stamping (mret a : TX Session A).
Proof. intros s. apply stamps_refl. Qed.
Lemma stamping_raise {A} e : stamping (Atomic.raise e : TX Session A).
Proof. intros s. apply stamps_refl. Qed.
Lemma stamping_reads {A} (f : Session -> A) : stamping (reads f).
Proof. intros s. apply stamps_refl. Qed.

Lemma stamping_message i author body actor : stamping (insert_support_message_on_db i author body actor).
Proof. intros s. unfold insert_support_message_on_db. destruct (tickets _ !! i); by apply stamps_same. Qed.
Lemma stamping_event i k author actor : stamping (insert_support_event_on_db i k author actor).
Proof. intros s. unfold insert_support_event_on_db. destruct (tickets _ !! i); by apply stamps_same. Qed.
Lemma stamping_notify kind audience t : stamping (notify_about kind audience t).
Proof.
  intros s. unfold notify_about, notify_after_commit, writes. simpl. destruct (sinks _); by apply stamps_same.
Qed.

Lemma stamping_ticket pubkey subject category email diagnostics :
  stamping (insert_support_ticket_on_db pubkey subject category email diagnostics).
Proof.
  intros s. split; [done|]. split; [done|]. intros i t' Ht. simpl in Ht.
  apply lookup_insert_Some in Ht as [[_ <-]|[_ Ht]]; [by right|by left].
Qed.

Lemma stamping_flush t : stamping (flush_ticket t).
Proof.
  intros s. unfold flush_ticket, writes. simpl. case_decide; [apply stamps_refl|].
  split; [done|]. split; [done|]. intros i t' Ht. simpl in Ht.
  apply lookup_insert_Some in Ht as [[_ <-]|[_ Ht]]; [by right|by left].
Qed.

Lemma stamping_sweep cutoff : stamping (clear_expired_support_diagnostics_on_db cutoff).
Proof.
  intros s. split; [done|]. split; [done|]. intros i t' Ht. simpl in Ht. rewrite lookup_fmap in Ht.
  destruct (tickets (desk s) !! i) as [t|] eqn:Et; [|done]. injection Ht as <-.
  destruct (diagnostics_expired cutoff t); [by right|by left].
Qed.

Create HintDb stamping discriminated.
#[export] Hint Resolve stamping_ret stamping_raise stamping_reads stamping_message stamping_event stamping_notify
  stamping_ticket stamping_flush stamping_sweep : stamping.

Lemma stamping_append t author body actor : stamping (append_message t author body actor).
Proof. apply stamping_bind; [apply stamping_message|]. intros m. apply stamping_ret. Qed.

Lemma stamping_status t status actor pubkey : stamping (set_ticket_status t status actor pubkey).
Proof.
  unfold set_ticket_status. destruct (String.eqb _ _); [apply stamping_ret|].
  destruct (String.eqb _ _); [|destruct (String.eqb _ _); [|apply stamping_ret]].
  - apply stamping_bind; [apply stamping_reads|]. intros now. apply stamping_bind; [apply stamping_event|].
    intros _. apply stamping_ret.
  - apply stamping_bind; [apply stamping_event|]. intros _. apply stamping_ret.
Qed.

Lemma stamping_locked i : stamping (locked_ticket i).
Proof. apply stamping_bind; [apply stamping_reads|]. intros [t|]; [apply stamping_ret|apply stamping_raise]. Qed.
Lemma stamping_own i pubkey : stamping (locked_own_ticket i pubkey).
Proof.
  apply stamping_bind; [apply stamping_locked|]. intros t.
  destruct (negb _); [apply stamping_raise|apply stamping_ret].
Qed.
Lemma stamping_count pubkey : stamping (count_unclosed_support_tickets_on_db pubkey).
Proof. apply stamping_reads. Qed.
#[export] Hint Resolve stamping_count stamping_append stamping_status stamping_locked stamping_own : stamping.

Ltac stamping_tac :=
  repeat first
    [ solve [auto with stamping]
    | apply stamping_bind; [|intros ?]
    | match goal with |- stamping (match ?x with _ => _ end) => destruct x end ].

(** The same of a handler that began at [t0]. *)
Definition desk_stamps (t0 : Z) (d d' : Desk) : Prop :=
  desk_now d' = desk_now d /\ stamped_rows t0 (tickets d) (tickets d').

Lemma desk_stamps_refl t0 d : desk_stamps t0 d d.
Proof. split; [done|by left]. Qed.
Lemma desk_stamps_same t0 d d' : desk_now d' = desk_now d -> tickets d' = tickets d -> desk_stamps t0 d d'.
Proof. intros ? Ht. split; [done|]. rewrite Ht. by left. Qed.
Lemma desk_stamps_trans t0 d1 d2 d3 : desk_stamps t0 d1 d2 -> desk_stamps t0 d2 d3 -> desk_stamps t0 d1 d3.
Proof. intros [N1 H1] [N2 H2]. split; [congruence|]. intros i t' [Ht|Ht]%H2; [by apply H1|by right]. Qed.

Definition anything (d : Desk) : Prop := True.

Lemma notified_stamps t0 l d : desk_stamps t0 d (foldl (fun d n => notify n d) d l).
Proof.
  revert d. induction l as [|n l IH]; intros d; [apply desk_stamps_refl|]. simpl.
  eapply desk_stamps_trans; [|apply IH]. unfold notify. destruct (sinks d); by apply desk_stamps_same.
Qed.

Lemma stamps_transaction {A} t0 (m : TX Session A) :
  stamping m -> within (desk_stamps t0) anything (in_transaction t0 m).
Proof.
  intros Hm. unfold in_transaction. apply within_bind.
  - split; [|done]. intros d _. specialize (Hm {| desk := d; began := t0; listeners := [] |}). unfold committed.
    destruct (m _) as [[a|e] s]; simpl in *; (split; [done|]).
    + destruct Hm as (_ & ? & ?). by split.
    + apply desk_stamps_refl.
  - intros [a heard]. apply within_bind; [|done]. apply within_tx. intros d _. split; [done|]. apply notified_stamps.
Qed.

Lemma stamps_reads {A} t0 (f : Desk -> A) : within (desk_stamps t0) anything (Tx (reads f) Ret).
Proof. apply within_tx. intros d _. split; [done|apply desk_stamps_refl]. Qed.

Lemma stamps_windows {A} t0 (p : act Redis A) : within (desk_stamps t0) anything (on_windows p).
Proof.
  induction p as [r|B f k IH]; [done|]. split; [|intros r; apply IH]. intros d _. split; [done|].
  destruct (f (windows d)). by apply desk_stamps_same.
Qed.

Section entitled.
Context {E : Env} {D : DeskEnv}.

Lemma stamps_entitled t0 pubkey : within (desk_stamps t0) anything (is_entitled_to_support pubkey).
Proof.
  unfold is_entitled_to_support. apply within_bind; [apply stamps_reads|]. intros [|]; [done|].
  apply within_bind; [|done]. apply within_tx. intros d _. split; [done|]. unfold in_world.
  destruct (Repos.get_scheduling_for_pubkey_on_db pubkey (world d)). by apply desk_stamps_same.
Qed.

Lemma stamps_require t0 pubkey : within (desk_stamps t0) anything (require_entitled_to_support pubkey).
Proof. apply within_bind; [apply stamps_entitled|]. by intros []. Qed.

(** A handler that begins, run alone: what it changes carries the moment it began. *)
Lemma begun_stamps {A} (p : Z -> act Desk A) d :
  within (desk_stamps (desk_now d)) anything (p (desk_now d)) ->
  desk_stamps (desk_now d) d (run_act (t0 ← begin; p t0) d).2.
Proof.
  intros Hp. rewrite run_act_bind. unfold begin. rewrite run_act_tx. unfold reads.
  by eapply (run_within (desk_stamps (desk_now d)) anything);
    [apply desk_stamps_refl|apply desk_stamps_trans|exact Hp|].
Qed.

Lemma ignore_state {A} (p : act Desk A) d : (run_act (ignore p) d).2 = (run_act p d).2.
Proof. unfold ignore. rewrite run_act_bind. by destruct (run_act p d) as [[a|e] d']. Qed.

Lemma reading_stamps {A} t0 (p : act Desk A) d :
  within (desk_stamps t0) anything p -> desk_stamps t0 d (run_act p d).2.
Proof. intros Hp. by eapply run_within; [apply desk_stamps_refl|apply desk_stamps_trans|exact Hp|]. Qed.

Lemma handler_stamps h d : desk_handler h -> desk_stamps (desk_now d) d (run_act h d).2.
Proof.
  intros Hh. destruct Hh; rewrite ignore_state.
  - apply begun_stamps. apply within_bind; [apply stamps_require|intros _]. apply stamps_transaction. stamping_tac.
  - unfold create_support_message_endpoint. rewrite run_act_bind.
    pose proof (reading_stamps (desk_now d) _ d (stamps_windows (desk_now d) (validate_support_message_allowed pubkey)))
      as Hw. destruct (run_act _ d) as [[[]|e] d1]; [|done]. destruct Hw as [Hn Hr]. simpl in Hn, Hr.
    eapply desk_stamps_trans; [by split|]. rewrite <- Hn.
    apply begun_stamps. apply within_bind; [apply stamps_require|intros _]. apply stamps_transaction. stamping_tac.
  - apply begun_stamps, stamps_transaction. stamping_tac.
  - apply reading_stamps. apply within_bind; [apply stamps_reads|intros [t|]; [|done]]. destruct (negb _); [done|].
    do 2 (apply within_bind; [apply stamps_reads|intros ?]). done.
  - apply reading_stamps. apply within_bind; [apply stamps_reads|intros ?].
    apply within_bind; [apply stamps_entitled|intros ?]. cbv zeta. case_decide; [done|]. apply within_bind; [|done].
    apply within_bind; [done|intros ?]. by apply within_bind; [apply stamps_reads|].
  - apply begun_stamps, stamps_transaction. stamping_tac.
  - apply begun_stamps, stamps_transaction. stamping_tac.
  - apply begun_stamps, stamps_transaction. stamping_tac.
  - apply begun_stamps, stamps_transaction. stamping_tac.
  - apply reading_stamps. apply within_bind; [apply stamps_reads|intros [t|]; [|done]].
    do 2 (apply within_bind; [apply stamps_reads|intros ?]). done.
  - apply reading_stamps. apply within_bind; [apply stamps_reads|intros ?]. cbv zeta. case_decide; [done|].
    apply within_bind; [|done]. by apply within_bind; [apply stamps_reads|].
  - unfold expire_support_diagnostics_pass. rewrite run_act_try, run_act_bind, run_act_tx. unfold reads at 1.
    pose proof (begun_stamps (fun t0 => in_transaction t0
      (clear_expired_support_diagnostics_on_db (desk_now d - RETENTION))) d) as Hb.
    destruct (run_act _ d) as [[a|e] d1]; apply Hb, stamps_transaction; stamping_tac.
Qed.

(** ** Writers that do not overlap *)

(** One request or sweep from its beginning to its end, later than everything before. *)
Inductive serial (d : Desk) : Desk -> Prop :=
  | serial_write d1 h :
      desk_outside d d1 -> desk_now d < desk_now d1 <= datetime_max -> desk_handler h -> serial d (run_act h d1).2.

(** Every stored time is past, and is a time Python can print. *)
Definition settled (d : Desk) : Prop :=
  valid_datetime (desk_now d) /\
  forall i t, tickets d !! i = Some t -> valid_datetime (st_updated_at t) /\ st_updated_at t <= desk_now d.

(** From one moment to a later one: a row is as it was, or newer than the moment. *)
Definition newer (d d' : Desk) : Prop :=
  desk_now d <= desk_now d'
  /\ (forall i t', tickets d' !! i = Some t' -> tickets d !! i = Some t' \/ desk_now d < st_updated_at t')
  /\ forall i t, tickets d !! i = Some t -> exists t', tickets d' !! i = Some t' /\ st_pubkey t' = st_pubkey t.

Lemma newer_refl d : newer d d.
Proof. split; [lia|]. split; [by left|eauto]. Qed.

Lemma newer_trans d1 d2 d3 : newer d1 d2 -> newer d2 d3 -> newer d1 d3.
Proof.
  intros (N1 & R1 & O1) (N2 & R2 & O2). split; [lia|]. split.
  - intros i t [Ht|Ht]%R2; [by apply R1|]. right. lia.
  - intros i t (t1 & Ht1 & E1)%O1. destruct (O2 _ _ Ht1) as (t2 & Ht2 & E2). exists t2. split; [done|congruence].
Qed.

Lemma owner_kept d d' i t : refines d d' -> tickets d !! i = Some t ->
  exists t', tickets d' !! i = Some t' /\ st_pubkey t' = st_pubkey t.
Proof.
  intros Hr Ht. enough (exists u, threads d' !! i = Some u /\ th_owner u = st_pubkey t) as (u & Hu & Ho).
  { unfold threads in Hu. rewrite lookup_fmap in Hu. destruct (tickets d' !! i) as [t'|]; [|done].
    injection Hu as <-. by exists t'. }
  apply threads_lookup in Ht. unfold refines in Hr. change (st_pubkey t) with (th_owner (thread_of d t)).
  revert Ht. generalize (thread_of d t). induction Hr as [a|a1 a2 a3 H12 _ IH]; intros u Hu; [eauto|].
  destruct (desk_step_kept _ _ _ _ _ H12 Hu) as (u' & Hu' & Hc & _). rewrite <- Hc. by apply IH.
Qed.

Lemma serial_newer d d' :
  desk_ok d -> settled d -> serial d d' -> desk_ok d' /\ settled d' /\ newer d d'.
Proof.
  intros Hd [Hnow Hset] [d1 h Ho Hlt Hh].
  destruct (outside_ok _ _ Hd Ho) as [Hd1 Href1].
  destruct (run_within refines desk_ok h d1 refines_refl refines_trans (handler_within h Hh) Hd1) as [Hd' Href].
  destruct (handler_stamps h d1 Hh) as [Hn Hrows]. destruct Ho as [d1 Et _ _ _ _ _]. rewrite Et in Hrows.
  unfold valid_datetime in *. split; [done|]. split; [split; unfold valid_datetime|split; [|split]].
  - lia.
  - intros i t' [Ht|Ht]%Hrows; [destruct (Hset _ _ Ht)|]; lia.
  - lia.
  - intros i t' [Ht|Ht]%Hrows; [by left|right; lia].
  - intros i t Ht. eapply owner_kept; [|exact Ht]. by eapply refines_trans.
Qed.

Lemma serials_newer d d' :
  rtc serial d d' -> desk_ok d -> settled d -> desk_ok d' /\ settled d' /\ newer d d'.
Proof.
  induction 1 as [d|d1 d2 d3 H12 _ IH]; intros Hd Hs; [split; [done|]; split; [done|apply newer_refl]|].
  destruct (serial_newer _ _ Hd Hs H12) as (Hd2 & Hs2 & N12). destruct (IH Hd2 Hs2) as (Hd3 & Hs3 & N23).
  split; [done|]. split; [done|]. by eapply newer_trans.
Qed.
End entitled.

(** ** What the digest tells *)

Lemma tickets_keyed d : desk_ok d -> keyed st_id (tickets d).
Proof. intros [[H _] _] i t Ht. by apply H in Ht as [? _]. Qed.

Lemma ticket_rows_elem scope d t :
  desk_ok d -> t ∈ ticket_rows scope d <-> scope t = true /\ tickets d !! st_id t = Some t.
Proof.
  intros Hd. unfold ticket_rows. rewrite list_elem_of_filter.
  change ((map_to_list (tickets d)).*2) with (rows (tickets d)). rewrite (rows_elem st_id) by by apply tickets_keyed.
  by rewrite Is_true_true.
Qed.

Lemma ticket_rows_NoDup scope d : desk_ok d -> NoDup (ticket_rows scope d).
Proof. intros Hd. apply NoDup_filter. by apply (rows_NoDup st_id), tickets_keyed. Qed.

Lemma digest_max_spec (l : list SupportTicket) m :
  foldr (fun t acc => Some (from_option (Z.max (st_updated_at t)) (st_updated_at t) acc)) None l = m ->
  match m with
  | None => l = []
  | Some m => (forall t, t ∈ l -> st_updated_at t <= m) /\ exists t, t ∈ l /\ st_updated_at t = m
  end.
Proof.
  revert m. induction l as [|t l IH]; intros m <-; [done|]. simpl. specialize (IH _ eq_refl).
  destruct (foldr _ None l) as [m|]; simpl.
  - destruct IH as (Hle & t1 & Hin & Hm). split.
    + intros u [->|Hu]%elem_of_cons; [lia|]. apply Hle in Hu. lia.
    + destruct (Z.max_spec (st_updated_at t) m) as [[_ ->]|[_ ->]]; [exists t1|exists t]; set_solver.
  - subst l. split; [|by exists t; set_solver]. intros u ->%list_elem_of_singleton. lia.
Qed.

Section digest.
Context (scope : SupportTicket -> bool) (d d' : Desk).
Context (Hd : desk_ok d) (Hd' : desk_ok d') (Hset : settled d) (Hnew : newer d d').
Context (Hdig : digest_stmt scope d = digest_stmt scope d').

(** No row in scope now is newer than the moment of the first digest. *)
Lemma digest_old t : t ∈ ticket_rows scope d' -> st_updated_at t <= desk_now d.
Proof using Hd Hd' Hset Hnew Hdig.
  intros Ht. unfold digest_stmt in Hdig. injection Hdig as Hmax _.
  pose proof (digest_max_spec (ticket_rows scope d') _ eq_refl) as H'. rewrite <- Hmax in H'.
  pose proof (digest_max_spec (ticket_rows scope d) _ eq_refl) as H.
  destruct (foldr _ None (ticket_rows scope d)) as [m|]; [|rewrite H' in Ht; set_solver].
  destruct H as (_ & t1 & Hin1 & <-). apply (ticket_rows_elem scope d) in Hin1 as [_ Hin1]; [|done].
  destruct Hset as [_ Hs]. destruct (Hs _ _ Hin1). destruct H' as [Hle _]. specialize (Hle _ Ht). lia.
Qed.

Lemma digest_unchanged t : t ∈ ticket_rows scope d' -> t ∈ ticket_rows scope d.
Proof using Hd Hd' Hset Hnew Hdig.
  intros Ht. pose proof (digest_old t Ht) as Hold. apply (ticket_rows_elem scope d') in Ht as [Hsc Ht]; [|done].
  destruct Hnew as (_ & Hr & _). apply Hr in Ht as [Ht|Ht]; [|lia]. by apply ticket_rows_elem.
Qed.

Lemma digest_same_rows : ticket_rows scope d' ≡ₚ ticket_rows scope d.
Proof using Hd Hd' Hset Hnew Hdig.
  apply submseteq_length_Permutation.
  - apply NoDup_submseteq; [by apply ticket_rows_NoDup|apply digest_unchanged].
  - unfold digest_stmt in Hdig. injection Hdig as _ Hlen. lia.
Qed.
End digest.

(** ** The listing is determined by its rows *)

Lemma newest_activity_total a b : newest_activity a b = true \/ newest_activity b a = true.
Proof. unfold newest_activity. destruct (Z.eqb_spec (st_last_message_at a) (st_last_message_at b));
  destruct (Z.eqb_spec (st_last_message_at b) (st_last_message_at a)); lia. Qed.

Lemma newest_activity_trans a b c :
  newest_activity a b = true -> newest_activity b c = true -> newest_activity a c = true.
Proof.
  unfold newest_activity. repeat match goal with |- context [?x =? ?y] => destruct (Z.eqb_spec x y) end; lia.
Qed.

Lemma listing_same d scope l :
  desk_ok d -> ticket_rows scope d ≡ₚ l -> stable_sort newest_activity (ticket_rows scope d) = stable_sort newest_activity l.
Proof.
  intros Hd Hp. apply stable_sort_unique;
    [apply newest_activity_total|apply newest_activity_trans| |done].
  intros a b Ha Hb Hab Hba. rewrite ticket_rows_elem in Ha, Hb by done. destruct Ha as [_ Ha], Hb as [_ Hb].
  assert (st_id a = st_id b) as Hid.
  { unfold newest_activity in *. repeat match goal with H : context [?x =? ?y] |- _ => destruct (Z.eqb_spec x y) end; lia. }
  rewrite Hid in Ha. congruence.
Qed.

(** ** The tag spells its parts unambiguously *)

Lemma digit_chr_inj a b : 0 <= a <= 9 -> 0 <= b <= 9 -> digit_chr a = digit_chr b -> a = b.
Proof. intros Ha Hb H. by rewrite <- (digit_val_chr a Ha), <- (digit_val_chr b Hb), H. Qed.

Lemma pad2_inj a b : 0 <= a < 100 -> 0 <= b < 100 -> pad2 a = pad2 b -> a = b.
Proof.
  intros Ha Hb [= H1 H2]. apply digit_chr_inj in H1; [|div_lia..]. apply digit_chr_inj in H2; [|div_lia..]. div_lia.
Qed.

Lemma pad3_inj a b : 0 <= a < 1000 -> 0 <= b < 1000 -> pad3 a = pad3 b -> a = b.
Proof.
  intros Ha Hb H. unfold pad3 in H. injection H as H1 H2 H3. apply digit_chr_inj in H1; [|div_lia..].
  assert (H : a mod 100 = b mod 100) by (apply pad2_inj; [div_lia..|]; unfold pad2; congruence). div_lia.
Qed.

Lemma pad4_inj a b : 0 <= a < 10000 -> 0 <= b < 10000 -> pad4 a = pad4 b -> a = b.
Proof.
  intros Ha Hb H. unfold pad4 in H. apply (app_inj_1 [_] [_]) in H as [H1 H2]; [|done]. injection H1 as H1.
  apply digit_chr_inj in H1; [|div_lia..]. apply pad3_inj in H2; [|div_lia..]. div_lia.
Qed.

Lemma pad6_inj a b : 0 <= a < 1000000 -> 0 <= b < 1000000 -> pad6 a = pad6 b -> a = b.
Proof.
  intros Ha Hb H. unfold pad6 in H. apply app_inj_1 in H as [H1 H2]; [|done].
  apply pad3_inj in H1; [|div_lia..]. apply pad3_inj in H2; [|div_lia..]. div_lia.
Qed.

Lemma iso_date_inj y m d y' m' d' :
  valid_ymd y m d = true -> valid_ymd y' m' d' = true -> iso_date y m d = iso_date y' m' d' ->
  y = y' /\ m = m' /\ d = d'.
Proof.
  intros H1%valid_ymd_bounds H2%valid_ymd_bounds H. unfold iso_date in H.
  apply app_inj_1 in H as [Hy H]; [|done]. apply app_inj_1 in H as [_ H]; [|done].
  apply app_inj_1 in H as [Hm H]; [|done]. apply app_inj_1 in H as [_ H]; [|done]. apply pad2_inj in H; [|lia..].
  apply pad4_inj in Hy; [|lia..]. apply pad2_inj in Hm; [|lia..]. done.
Qed.

Lemma py_str_datetime_inj t t' : valid_datetime t -> valid_datetime t' ->
  py_str_datetime t = py_str_datetime t' -> t = t'.
Proof.
  unfold valid_datetime, py_str_datetime. rewrite datetime_max_eq. intros Ht Ht' H.
  destruct (ord2ymd (t / us_per_day + 1)) as [[y m] d] eqn:E.
  destruct (ord2ymd (t' / us_per_day + 1)) as [[y' m'] d'] eqn:E'.
  rewrite us_per_day_eq in *. apply (f_equal chars) in H. rewrite !chars_of_chars in H.
  apply ord2ymd_spec in E as [V E]; [|div_lia]. apply ord2ymd_spec in E' as [V' E']; [|div_lia].
  apply app_inj_1 in H as [Hd H]; [|done].
  destruct (iso_date_inj _ _ _ _ _ _ V V' Hd) as (-> & -> & ->). clear Hd V V'.
  set (u := t mod 86400000000) in *. set (u' := t' mod 86400000000) in *.
  assert (Hu : 0 <= u < 86400000000) by (subst u; div_lia).
  assert (Hu' : 0 <= u' < 86400000000) by (subst u'; div_lia).
  apply app_inj_1 in H as [_ H]; [|done]. apply app_inj_1 in H as [Hh H]; [|done].
  apply app_inj_1 in H as [_ H]; [|done]. apply app_inj_1 in H as [Hm H]; [|done].
  apply app_inj_1 in H as [_ H]; [|done]. apply app_inj_1 in H as [Hs H]; [|done].
  apply pad2_inj in Hh; [|div_lia..]. apply pad2_inj in Hm; [|div_lia..]. apply pad2_inj in Hs; [|div_lia..].
  assert (Hf : u mod 1000000 = u' mod 1000000).
  { destruct (Z.eqb_spec (u mod 1000000) 0), (Z.eqb_spec (u' mod 1000000) 0); try done; [lia|].
    apply (app_inj_1 [_] [_]) in H as [_ H]; [|done]. apply pad6_inj; [div_lia..|done]. }
  assert (u = u') by div_lia. subst u u'. div_lia.
Qed.

Definition no_colon (s : string) : Prop := free_of ":"%char (chars s).

Lemma free_of_rev sep l : free_of sep l -> free_of sep (reverse l).
Proof.
  induction l as [|c l IH]; [done|]. intros [Hc Hl]%free_of_cons. rewrite reverse_cons. apply free_of_app.
  split; [by apply IH|]. by apply free_of_cons.
Qed.

(** The last colon is found whatever comes before it. *)
Lemma colon_split (a a' c c' : string) : no_colon c -> no_colon c' ->
  (a ++ ":" ++ c)%string = (a' ++ ":" ++ c')%string -> a = a' /\ c = c'.
Proof.
  intros Hc Hc' H. apply (f_equal (fun s => partition_chars ":"%char (reverse (chars s)))) in H.
  rewrite !chars_append, !reverse_app in H. change (reverse (chars ":")) with [":"%char] in H.
  rewrite <- !(assoc_L (++)) in H. simpl in H.
  rewrite !partition_chars_app in H by by apply free_of_rev. injection H as H1 H2.
  apply (inj reverse) in H1, H2.
  by rewrite <- (of_chars_chars a), <- (of_chars_chars a'), <- (of_chars_chars c), <- (of_chars_chars c'), H1, H2.
Qed.

Lemma pretty_no_colon z : 0 <= z -> no_colon (pretty z).
Proof.
  intros Hz. destruct (pretty_Z_digits (Z.to_nat z + 1) z) as (Hd & _); [lia| |].
  { split; [done|]. rewrite Nat2Z.inj_add, Z2Nat.id by done. change (Z.of_nat 1) with 1.
    pose proof (Z.pow_gt_lin_r 10 (z + 1)). lia. }
  unfold no_colon, free_of. rewrite forallb_forall in *. intros c Hc%Hd.
  destruct (Ascii.eqb_spec c ":"); [by subst|done].
Qed.

Section tag.
Context {E : Env} {D : DeskEnv}.

(** SHA-1 gives the two texts of a comparison different digests. *)
Definition no_collision (a b : list (option string)) : Prop :=
  sha1_hex (etag_text a) = sha1_hex (etag_text b) -> etag_text a = etag_text b.

Definition user_parts (pubkey : string) (digest : option Z * Z) (included : bool) (params : Z * Z) :=
  [Some pubkey; py_str_datetime <$> digest.1; Some (pretty digest.2); Some (py_bool included);
   Some (pretty params.1); Some (pretty params.2)].

Definition admin_parts (digest : option Z * Z) (status category pubkey : option string) (params : Z * Z) :=
  [py_str_datetime <$> digest.1; Some (pretty digest.2); status; category; pubkey;
   Some (pretty params.1); Some (pretty params.2)].

Lemma etag_digest_inj a b : no_collision a b -> etag_digest a = etag_digest b -> etag_text a = etag_text b.
Proof. intros Hn H. apply Hn. unfold etag_digest in H. injection H as H. by apply append_inj_r in H. Qed.

Definition digest_ok (g : option Z * Z) : Prop := from_option valid_datetime True g.1 /\ 0 <= g.2.

Lemma latest_inj (a b : option Z) : from_option valid_datetime True a -> from_option valid_datetime True b ->
  default ""%string (py_str_datetime <$> a) = default ""%string (py_str_datetime <$> b) -> a = b.
Proof.
  assert (Hne : forall t, py_str_datetime t <> ""%string).
  { intros t. unfold py_str_datetime. by destruct (ord2ymd _) as [[y m] d]. }
  destruct a as [a|], b as [b|]; simpl; intros Ha Hb H; [|by apply Hne in H|by symmetry in H; apply Hne in H|done].
  f_equal. by apply py_str_datetime_inj.
Qed.

Lemma user_text_inj pubkey g g' b b' params : digest_ok g -> digest_ok g' ->
  etag_text (user_parts pubkey g b params) = etag_text (user_parts pubkey g' b' params) -> g = g' /\ b = b'.
Proof.
  destruct g as [l n], g' as [l' n'], params as [p z]. intros [Hl Hn] [Hl' Hn'] H. simpl in *.
  unfold etag_text, user_parts in H. cbn [fmap list_fmap default from_option String.concat fst snd id] in H.
  apply append_inj_l, append_inj_l in H. rewrite <- !append_assoc in H.
  do 4 apply append_inj_r in H. rewrite !(append_assoc _ ":" (py_bool _)) in H.
  apply colon_split in H as [H Hb]; [|by destruct b, b'..].
  rewrite !append_assoc in H. apply colon_split in H as [H Hc]; [|by apply pretty_no_colon..].
  apply (inj pretty) in Hc as ->. apply latest_inj in H as ->; [|done..]. split; [done|]. by destruct b, b'.
Qed.

Lemma admin_text_inj g g' status category pubkey params : digest_ok g -> digest_ok g' ->
  etag_text (admin_parts g status category pubkey params) = etag_text (admin_parts g' status category pubkey params) ->
  g = g'.
Proof.
  destruct g as [l n], g' as [l' n'], params as [p z]. intros [Hl Hn] [Hl' Hn'] H. simpl in *.
  unfold etag_text, admin_parts in H. cbn [fmap list_fmap default from_option String.concat fst snd id] in H.
  rewrite <- !append_assoc in H. do 10 apply append_inj_r in H. rewrite !append_assoc in H.
  apply colon_split in H as [H Hc]; [|by apply pretty_no_colon..].
  apply (inj pretty) in Hc as ->. by apply latest_inj in H as ->.
Qed.
End tag.

(** ** Polls *)

Section polls.
Context {E : Env} {D : DeskEnv}.

Lemma digest_stmt_ok scope d : desk_ok d -> settled d -> digest_ok (digest_stmt scope d).
Proof.
  intros Hd [_ Hs]. unfold digest_ok, digest_stmt. cbn [fst snd]. split; [|lia].
  pose proof (digest_max_spec (ticket_rows scope d) _ eq_refl) as H.
  destruct (foldr _ None _) as [m|]; [|done]. destruct H as (_ & t & Hin & <-).
  apply (ticket_rows_elem scope d) in Hin as [_ Hin]; [|done]. by destruct (Hs _ _ Hin).
Qed.

Definition owned (pubkey : string) (t : SupportTicket) : bool := String.eqb (st_pubkey t) pubkey.

(** A user's list only gets longer. *)
Lemma owned_grows pubkey d d' : desk_ok d -> desk_ok d' -> newer d d' ->
  (length (ticket_rows (owned pubkey) d) <= length (ticket_rows (owned pubkey) d'))%nat.
Proof.
  intros Hd Hd' (_ & _ & Ho). rewrite <- (length_fmap st_id), <- (length_fmap st_id (ticket_rows _ d')).
  apply submseteq_length, NoDup_submseteq.
  - apply NoDup_fmap_2_strong; [|by apply ticket_rows_NoDup]. intros a b Ha Hb Hid.
    rewrite ticket_rows_elem in Ha, Hb by done. destruct Ha as [_ Ha], Hb as [_ Hb]. rewrite Hid in Ha. congruence.
  - intros i (t & -> & Ht)%list_elem_of_fmap. rewrite ticket_rows_elem in Ht by done. destruct Ht as [Hsc Ht].
    destruct (Ho _ _ Ht) as (t' & Ht' & Eo). apply list_elem_of_fmap.
    assert (st_id t' = st_id t) as Hid by by apply (tickets_keyed d' Hd').
    exists t'. split; [done|]. apply ticket_rows_elem; [done|]. rewrite Hid. split; [|done].
    unfold owned in *. by rewrite Eo.
Qed.

(** The rows between the two digests of a user are those of the second. *)
Lemma owned_between pubkey d1 d2 d3 :
  desk_ok d1 -> desk_ok d2 -> desk_ok d3 -> settled d1 -> newer d1 d2 -> newer d2 d3 ->
  digest_stmt (owned pubkey) d1 = digest_stmt (owned pubkey) d3 ->
  ticket_rows (owned pubkey) d3 ≡ₚ ticket_rows (owned pubkey) d2.
Proof.
  intros H1 H2 H3 S1 N12 N23 Hdig. pose proof (newer_trans _ _ _ N12 N23) as N13.
  apply submseteq_length_Permutation.
  - apply NoDup_submseteq; [by apply ticket_rows_NoDup|]. intros t Ht.
    pose proof (digest_old _ d1 d3 H1 H3 S1 N13 Hdig t Ht) as Hold. rewrite ticket_rows_elem in Ht |- * by done.
    destruct Ht as [Hsc Ht]. split; [done|]. destruct N12 as (Hle & _ & _), N23 as (_ & Hr & _).
    apply Hr in Ht as [Ht|Ht]; [done|lia].
  - pose proof (owned_grows pubkey d1 d2 H1 H2 N12). pose proof (owned_grows pubkey d2 d3 H2 H3 N23).
    unfold digest_stmt in Hdig. injection Hdig as _ Hlen. lia.
Qed.

Lemma entitled_frame pubkey d : exists w, (run_act (is_entitled_to_support pubkey) d).2 = with_world d w.
Proof.
  unfold is_entitled_to_support. rewrite run_act_bind, run_act_tx. unfold reads at 1.
  destruct (bool_decide _); [exists (world d); by destruct d|]. rewrite run_act_bind, run_act_tx. unfold in_world.
  destruct (Repos.get_scheduling_for_pubkey_on_db pubkey (world d)) as [[r|e] w]; by exists w.
Qed.

(** C36: A 304 never hides a change, for a user.  A client holds a tag and the list that
    came with it, the tag computed at one moment and the list read at a later one.  If
    no writers overlapped since and SHA-1 does not confuse the two texts compared, then
    when a poll with that tag is answered 304, a poll without it would have been
    answered with the same tag and exactly the list and entitlement the client holds. *)
Theorem poll_never_stale pubkey params included d1 d2 d3 d3' tag' (tag := user_etag pubkey
    (select_user_support_digest_on_db pubkey d1) included params) :
  desk_ok d1 -> settled d1 -> rtc serial d1 d2 -> rtc serial d2 d3 ->
  (forall b, no_collision (user_parts pubkey (select_user_support_digest_on_db pubkey d1) included params)
               (user_parts pubkey (select_user_support_digest_on_db pubkey d3) b params)) ->
  run_act (get_support_state_endpoint pubkey params (Some tag)) d3 = (Ok (NotModified tag'), d3') ->
  (run_act (get_support_state_endpoint pubkey params None) d3).1
  = Ok (Tagged tag {| ss_support_included := included;
                      ss_tickets := paginate params (ticket_item <$> build_user_support_tickets_stmt pubkey d2) |}).
Proof.
  intros H1 S1 R12 R23 Hcol. destruct (serials_newer _ _ R12 H1 S1) as (H2 & S2 & N12).
  destruct (serials_newer _ _ R23 H2 S2) as (H3 & S3 & N23).
  unfold get_support_state_endpoint. rewrite !run_act_bind, !run_act_tx. unfold reads at 1 2. rewrite !run_act_bind.
  destruct (entitled_frame pubkey d3) as [w Hw].
  destruct (run_act (is_entitled_to_support pubkey) d3) as [[b|e] d4]; [|done]. simpl in Hw. subst d4. cbv zeta.
  destruct (decide _) as [Htag|]; [intros _|by rewrite run_act_bind; destruct (run_act _ _) as [[]]].
  apply (inj Some) in Htag. pose proof (etag_digest_inj _ _ (Hcol b) Htag) as Htext.
  apply user_text_inj in Htext as [Hdig <-]; [|by apply digest_stmt_ok..].
  rewrite decide_False by done. simpl.
  do 2 f_equal; [by rewrite Htag|]. do 3 f_equal. unfold build_user_support_tickets_stmt.
  apply (listing_same (with_world d3 w) (owned pubkey)); [exact H3|].
  exact (owned_between pubkey d1 d2 d3 H1 H2 H3 S1 N12 N23 Hdig).
Qed.

(** The same of the responders' queue, for a tag and a page read at one moment,
    whatever filters the poll has. *)
Theorem queue_poll_never_stale params status category pubkey d1 d3 d3' tag' (tag := admin_etag
    (select_admin_support_digest_on_db status category pubkey d1) status category pubkey params) :
  desk_ok d1 -> settled d1 -> rtc serial d1 d3 ->
  no_collision (admin_parts (select_admin_support_digest_on_db status category pubkey d1) status category pubkey params)
    (admin_parts (select_admin_support_digest_on_db status category pubkey d3) status category pubkey params) ->
  run_act (list_support_tickets_endpoint params status category pubkey (Some tag)) d3 = (Ok (NotModified tag'), d3') ->
  (run_act (list_support_tickets_endpoint params status category pubkey None) d3).1
  = Ok (Tagged tag (paginate params
          (admin_ticket_item <$> build_admin_support_tickets_stmt status category pubkey d1))).
Proof.
  intros H1 S1 R13 Hcol. destruct (serials_newer _ _ R13 H1 S1) as (H3 & S3 & N13).
  unfold list_support_tickets_endpoint. rewrite !run_act_bind, !run_act_tx. unfold reads at 1 2. cbv zeta.
  destruct (decide _) as [Htag|]; [intros _|by rewrite run_act_bind; destruct (run_act _ _) as [[]]].
  apply (inj Some) in Htag. pose proof (etag_digest_inj _ _ Hcol Htag) as Htext.
  apply admin_text_inj in Htext; [|by apply digest_stmt_ok..].
  rewrite decide_False by done. simpl.
  do 2 f_equal; [by rewrite Htag|]. do 2 f_equal. unfold build_admin_support_tickets_stmt.
  apply listing_same; [done|]. by apply digest_same_rows.
Qed.
End polls.
