(* ===== verification/SupportProps.v ===== *)
(** * Who sees what at the support desk, and what it costs

    [users_see_only_their_own]: the answers a user gets are the same on any two desks
    that agree on the user's own tickets, whatever else is in the tables and whichever
    member of the team wrote the answers.  [entitlement_gates_writing] ties the desk to
    the policy billing assigns, and [sweep_exact] is the expiry of diagnostics. *)

From Stdlib Require Import Ascii String.
From S2P Require Import Prelude Json Time Types Effects Repos Atomic RateLimit Tables Support SupportSpec SupportRefinement SupportPoll.
From stdpp Require Import list.
Local Open Scope Z_scope.

(** ** Two desks that look alike to one user *)

Record same_for (pubkey : string) (d d' : Desk) : Prop := {
  sf_now : desk_now d' = desk_now d;
  sf_world : world d' = world d;
  sf_listed : whitelisted_pubkeys d' = whitelisted_pubkeys d;
  sf_windows : windows d' = windows d;
  sf_ticket_seq : ticket_seq d' = ticket_seq d;
  sf_message_seq : message_seq d' = message_seq d;
  sf_tickets : forall i t, st_pubkey t = pubkey -> tickets d' !! i = Some t <-> tickets d !! i = Some t;
  sf_messages : forall i t, st_pubkey t = pubkey -> tickets d !! i = Some t ->
    message_item <$> select_support_messages_on_db i d' = message_item <$> select_support_messages_on_db i d;
  sf_events : forall i t, st_pubkey t = pubkey -> tickets d !! i = Some t ->
    event_item <$> select_support_events_on_db i d' = event_item <$> select_support_events_on_db i d;
}.

(** *** Two transactions side by side, on ticket [i] of both *)

Record side_by_side (i : Z) (s s' : Session) : Prop := {
  sb_began : began s' = began s;
  sb_now : desk_now (desk s') = desk_now (desk s);
  sb_message_seq : message_seq (desk s') = message_seq (desk s);
  sb_here : is_Some (tickets (desk s) !! i);
  sb_here' : is_Some (tickets (desk s') !! i);
}.

(** The same outcome, of which [P] holds, and side by side again. *)
Definition alike {A} (i : Z) (P : A -> Prop) (m : TX Session A) (s s' : Session) : Prop :=
  match m s, m s' with
  | (Ok a, s1), (Ok a', s1') => a' = a /\ P a /\ side_by_side i s1 s1'
  | (Raise e, _), (Raise e', _) => e' = e
  | _, _ => False
  end.

Lemma alike_bind {A B} i (P : A -> Prop) (Q : B -> Prop) (m : TX Session A) (f : A -> TX Session B) s s' :
  alike i P m s s' -> (forall a s1 s1', P a -> side_by_side i s1 s1' -> alike i Q (f a) s1 s1') ->
  alike i Q (m ≫= f) s s'.
Proof.
  unfold alike, mbind, TX_mbind. intros Hm Hf. destruct (m s) as [[a|e] s1], (m s') as [[a'|e'] s1']; try done.
  destruct Hm as (-> & HP & Hs). by apply Hf.
Qed.

Lemma alike_answer {A} i (P : A -> Prop) (m : TX Session A) s s' : alike i P m s s' -> (m s).1 = (m s').1.
Proof.
  unfold alike. destruct (m s) as [[a|e] s1], (m s') as [[a'|e'] s1']; simpl; try done.
  - by intros [-> _].
  - by intros ->.
Qed.

Lemma alike_ret {A} i (P : A -> Prop) (a : A) s s' : P a -> side_by_side i s s' -> alike i P (mret a) s s'.
Proof. by split. Qed.

Definition of_ticket (i : Z) (t : SupportTicket) : Prop := st_id t = i.
Definition any {A} (_ : A) : Prop := True.

Lemma alike_message i author body actor s s' :
  side_by_side i s s' -> alike i any (insert_support_message_on_db i author body actor) s s'.
Proof.
  intros [Hb Hn Hm [r Hr] [r' Hr']]. unfold alike, insert_support_message_on_db. rewrite Hr, Hr'.
  split; [by rewrite Hb, Hm|]. split; [done|]. split; simpl; try done. by rewrite Hm.
Qed.

(** The number of an event is not part of any answer. *)
Lemma alike_event {A} i (Q : A -> Prop) k author actor (m : TX Session A) s s' :
  side_by_side i s s' -> (forall s1 s1', side_by_side i s1 s1' -> alike i Q m s1 s1') ->
  alike i Q (_ ← insert_support_event_on_db i k author actor; m) s s'.
Proof.
  intros [Hb Hn Hm [r Hr] [r' Hr']] H. unfold alike, mbind, TX_mbind, insert_support_event_on_db. rewrite Hr, Hr'.
  apply H. split; simpl; done.
Qed.

Lemma alike_append i t author body actor s s' :
  of_ticket i t -> side_by_side i s s' -> alike i (fun r => of_ticket i r.2) (append_message t author body actor) s s'.
Proof.
  intros <- Hs. eapply alike_bind; [by apply alike_message|]. intros m s1 s1' _ H1. by apply alike_ret.
Qed.

Lemma alike_status i t status actor pubkey s s' :
  of_ticket i t -> side_by_side i s s' -> alike i (of_ticket i) (set_ticket_status t status actor pubkey) s s'.
Proof.
  intros <- Hs. unfold set_ticket_status. destruct (String.eqb _ _); [by apply alike_ret|].
  destruct (String.eqb _ _); [|destruct (String.eqb _ _); [|by apply alike_ret]].
  - apply (alike_bind _ any); [split; [by rewrite (sb_now _ _ _ Hs)|done]|]. intros now s1 s1' _ H1.
    apply alike_event; [done|]. intros s2 s2' H2. by apply alike_ret.
  - apply alike_event; [done|]. intros s2 s2' H2. by apply alike_ret.
Qed.

Lemma alike_notify i kind audience t s s' : side_by_side i s s' -> alike i any (notify_about kind audience t) s s'.
Proof.
  intros Hs. unfold alike, notify_about, notify_after_commit, writes.
  destruct (sinks (desk s)), (sinks (desk s')); (split; [done|]); (split; [done|]); destruct Hs; by split.
Qed.

Lemma alike_flush i t s s' : of_ticket i t -> side_by_side i s s' -> alike i any (flush_ticket t) s s'.
Proof.
  intros <- Hs. unfold alike, flush_ticket, writes. split; [done|]. split; [done|].
  destruct Hs as [? ? ? Hh Hh']. split; repeat case_decide; simpl; try done; rewrite lookup_insert_eq; by eexists.
Qed.

(** *** The user's endpoints on them *)

Section own.
Context {E : Env} {D : DeskEnv} (pubkey : string) (d d' : Desk).
Context (Hd : desk_ok d) (Hd' : desk_ok d') (Hsame : same_for pubkey d d').

Lemma own_lookup i :
  (exists t, tickets d !! i = Some t /\ tickets d' !! i = Some t /\ st_pubkey t = pubkey)
  \/ ((forall t, tickets d !! i = Some t -> st_pubkey t <> pubkey)
      /\ forall t, tickets d' !! i = Some t -> st_pubkey t <> pubkey).
Proof using Hsame.
  destruct (tickets d !! i) as [t|] eqn:Et; [destruct (decide (st_pubkey t = pubkey)) as [Ho|Ho]|].
  - left. exists t. split; [done|]. split; [|done]. by apply (sf_tickets _ _ _ Hsame).
  - right. split; [by intros u [= <-]|]. intros u Hu Hp. apply (sf_tickets _ _ _ Hsame) in Hu; [|done]. congruence.
  - right. split; [done|]. intros u Hu Hp. apply (sf_tickets _ _ _ Hsame) in Hu; [|done]. congruence.
Qed.

(** A body that answers alike on both desks is answered alike. *)
Lemma answers_alike {A} t0 (m : TX Session A) (s := fun d => {| desk := d; began := t0; listeners := [] |}) :
  (m (s d)).1 = (m (s d')).1 ->
  (run_act (in_transaction t0 m) d').1 = (run_act (in_transaction t0 m) d).1.
Proof using.
  intros H. unfold in_transaction. rewrite !run_act_bind, !run_act_session. unfold committed. fold (s d) (s d').
  destruct (m (s d)) as [[a|e] s1], (m (s d')) as [[a'|e'] s1']; simpl in H; by simplify_eq.
Qed.

Lemma own_body {A} i t0 (body : SupportTicket -> TX Session A) (s := fun d => {| desk := d; began := t0; listeners := [] |}) :
  (forall t, of_ticket i t -> side_by_side i (s d) (s d') -> alike i any (body t) (s d) (s d')) ->
  ((locked_own_ticket i pubkey ≫= body) (s d)).1 = ((locked_own_ticket i pubkey ≫= body) (s d')).1.
Proof using Hsame Hd.
  intros H. unfold locked_own_ticket, locked_ticket, lock_support_ticket_on_db, reads, mbind, TX_mbind. simpl.
  destruct (own_lookup i) as [(t & Ht & Ht' & Ho)|[Hn Hn']].
  - rewrite Ht, Ht'. simpl. rewrite Ho, String.eqb_refl. simpl.
    assert (Hid : st_id t = i) by (destruct Hd as [[Hk _] _]; by apply Hk in Ht as [? _]).
    assert (Hsb : side_by_side i (s d) (s d')) by (destruct Hsame; split; simpl; try done; by eexists).
    apply (alike_answer i any). by apply H.
  - assert (Hcase : forall x, (forall t, tickets x !! i = Some t -> st_pubkey t <> pubkey) ->
      match tickets x !! i with Some t => negb (String.eqb (st_pubkey t) pubkey) | None => true end = true).
    { intros x Hx. destruct (tickets x !! i) as [t|]; [|done]. by rewrite (proj2 (String.eqb_neq _ _)) by by apply Hx. }
    apply Hcase in Hn, Hn'. by destruct (tickets d !! i), (tickets d' !! i); simpl in *; rewrite ?Hn, ?Hn'.
Qed.

Lemma own_rows : ticket_rows (owned pubkey) d' ≡ₚ ticket_rows (owned pubkey) d.
Proof using Hsame Hd Hd'.
  apply NoDup_Permutation; [by apply ticket_rows_NoDup..|]. intros t. rewrite !ticket_rows_elem by done.
  unfold owned. destruct (String.eqb_spec (st_pubkey t) pubkey) as [Ho|]; [|by split; intros []].
  by rewrite (sf_tickets _ _ _ Hsame) by done.
Qed.

Lemma own_count t0 : let s d := {| desk := d; began := t0; listeners := [] |} in
  (count_unclosed_support_tickets_on_db pubkey (s d')).1 = (count_unclosed_support_tickets_on_db pubkey (s d)).1.
Proof using Hsame Hd Hd'.
  unfold count_unclosed_support_tickets_on_db, reads. cbn [fst desk]. do 2 f_equal. apply Permutation_length.
  assert (Hel : forall x, desk_ok x -> forall t, t ∈ (map_to_list (tickets x)).*2 <-> tickets x !! st_id t = Some t)
    by (intros x Hx t; by apply (rows_elem st_id), tickets_keyed).
  apply NoDup_Permutation; [by apply NoDup_filter, (rows_NoDup st_id), tickets_keyed..|].
  intros t. rewrite !list_elem_of_filter, !Hel by done. split; intros [[Ho Hc] Ht]; (split; [done|]).
  - by apply (sf_tickets _ _ _ Hsame).
  - by apply (sf_tickets _ _ _ Hsame).
Qed.
End own.

Section private.
Context {E : Env} {D : DeskEnv}.

Lemma same_world pubkey d d' w : same_for pubkey d d' -> same_for pubkey (with_world d w) (with_world d' w).
Proof. intros []. by split. Qed.
Lemma same_windows pubkey d d' r : same_for pubkey d d' -> same_for pubkey (with_windows d r) (with_windows d' r).
Proof. intros []. by split. Qed.

Lemma entitled_alike pubkey d d' : same_for pubkey d d' ->
  exists r w, run_act (is_entitled_to_support pubkey) d = (r, with_world d w)
    /\ run_act (is_entitled_to_support pubkey) d' = (r, with_world d' w).
Proof.
  intros H. unfold is_entitled_to_support. rewrite !run_act_bind, !run_act_tx. unfold reads.
  rewrite (sf_listed _ _ _ H). destruct (bool_decide _).
  - exists (Ok true), (world d). split; [by destruct d|]. rewrite <- (sf_world _ _ _ H). by destruct d'.
  - rewrite !run_act_bind, !run_act_tx. unfold in_world. rewrite (sf_world _ _ _ H).
    destruct (Repos.get_scheduling_for_pubkey_on_db pubkey (world d)) as [[p|e] w]; by eexists _, w.
Qed.

Lemma require_alike pubkey d d' : same_for pubkey d d' ->
  exists r w, run_act (require_entitled_to_support pubkey) d = (r, with_world d w)
    /\ run_act (require_entitled_to_support pubkey) d' = (r, with_world d' w).
Proof.
  intros H. destruct (entitled_alike pubkey d d' H) as (r & w & H1 & H2). unfold require_entitled_to_support.
  rewrite !run_act_bind, H1, H2. destruct r as [[]|e]; by eexists _, w.
Qed.

Lemma on_windows_alike {A} (p : act Redis A) d d' : windows d' = windows d ->
  exists r w, run_act (on_windows p) d = (r, with_windows d w) /\ run_act (on_windows p) d' = (r, with_windows d' w).
Proof.
  revert d d'. induction p as [r|B f k IH]; intros d d' Hw.
  - exists r, (windows d). split; [by destruct d|]. rewrite <- Hw. by destruct d'.
  - simpl. rewrite Hw. destruct (f (windows d)) as [x w]. simpl.
    destruct (IH x (with_windows d w) (with_windows d' w) eq_refl) as (r & w' & -> & ->). by exists r, w'.
Qed.

Lemma reply_alike pubkey i body d d' :
  desk_ok d -> desk_ok d' -> same_for pubkey d d' ->
  (run_act (add_user_message i pubkey body) d').1 = (run_act (add_user_message i pubkey body) d).1.
Proof.
  intros Hd Hd' H. unfold add_user_message, begin. rewrite !run_act_bind, !run_act_tx. unfold reads.
  rewrite (sf_now _ _ _ H), !run_act_bind. destruct (require_alike pubkey d d' H) as (r & w & -> & ->).
  destruct r as [[]|e]; [|done]. apply answers_alike. apply own_body; [done|by apply same_world|].
  intros t Ht Hs. eapply alike_bind; [by apply alike_append|]. intros [m t1] s1 s1' Ht1 H1. simpl in Ht1.
  eapply alike_bind; [by apply alike_status|]. intros t2 s2 s2' Ht2 H2.
  eapply alike_bind; [by apply alike_notify|]. intros [] s3 s3' _ H3.
  eapply alike_bind; [by apply alike_flush|]. intros [] s4 s4' _ H4. by apply alike_ret.
Qed.

Lemma resolve_alike pubkey i d d' :
  desk_ok d -> desk_ok d' -> same_for pubkey d d' ->
  (run_act (resolve_ticket i pubkey) d').1 = (run_act (resolve_ticket i pubkey) d).1.
Proof.
  intros Hd Hd' H. unfold resolve_ticket, begin. rewrite !run_act_bind, !run_act_tx. unfold reads.
  rewrite (sf_now _ _ _ H). apply answers_alike. apply own_body; [done..|].
  intros t Ht Hs. eapply alike_bind; [by apply alike_status|]. intros t2 s2 s2' Ht2 H2.
  eapply alike_bind; [by apply alike_flush|]. intros [] s4 s4' _ H4. by apply alike_ret.
Qed.

Lemma create_alike pubkey subject body category email diagnostics d d' :
  desk_ok d -> desk_ok d' -> same_for pubkey d d' ->
  (run_act (create_ticket pubkey subject body category email diagnostics) d').1
  = (run_act (create_ticket pubkey subject body category email diagnostics) d).1.
Proof.
  intros Hd Hd' H. unfold create_ticket, begin. rewrite !run_act_bind, !run_act_tx. unfold reads.
  rewrite (sf_now _ _ _ H), !run_act_bind. destruct (require_alike pubkey d d' H) as (r & w & -> & ->).
  destruct r as [[]|e]; [|done]. apply answers_alike.
  pose proof (own_count pubkey (with_world d w) (with_world d' w) Hd Hd' (same_world _ _ _ w H) (desk_now d)) as Hc.
  cbv beta zeta in Hc. rewrite !unclosed_threads in Hc. cbn [fst] in Hc.
  rewrite !(tx_bind_ok _ _ _ _ _ (unclosed_threads pubkey _ _)).
  replace (unclosed_of pubkey (threads (with_world d' w))) with (unclosed_of pubkey (threads (with_world d w)))
    by congruence. clear Hc.
  destruct (support_max_open_tickets <=? _); [done|].
  set (i := ticket_seq d).
  set (s := fun x => {| desk := with_world x w; began := desk_now d; listeners := [] |}).
  change ({| desk := with_world d w; began := desk_now d; listeners := [] |}) with (s d).
  change ({| desk := with_world d' w; began := desk_now d; listeners := [] |}) with (s d').
  apply (alike_answer i any). apply (alike_bind _ (of_ticket i)).
  { unfold alike, insert_support_ticket_on_db. simpl. rewrite (sf_ticket_seq _ _ _ H).
    split; [done|]. split; [done|]. destruct H. split; simpl; try done; rewrite ?sf_ticket_seq0, lookup_insert_eq; by eexists. }
  intros t s0 s0' Ht H0. eapply alike_bind; [by apply alike_append|]. intros [m t1] s1 s1' Ht1 H1. simpl in Ht1.
  rewrite Ht1. apply alike_event; [done|]. intros s2 s2' H2.
  eapply alike_bind; [by apply alike_notify|]. intros [] s3 s3' _ H3.
  eapply alike_bind; [by apply alike_flush|]. intros [] s4 s4' _ H4. by apply alike_ret.
Qed.

Lemma thread_alike pubkey i d d' : same_for pubkey d d' ->
  (run_act (get_thread i pubkey) d').1 = (run_act (get_thread i pubkey) d).1.
Proof.
  intros H. unfold get_thread. rewrite !run_act_bind, !run_act_tx. unfold reads, select_support_ticket_on_db.
  destruct (own_lookup pubkey d d' H i) as [(t & Ht & Ht' & Ho)|[Hn Hn']].
  - rewrite Ht, Ht', Ho, String.eqb_refl. simpl.
    by rewrite (sf_messages _ _ _ H i t Ho Ht), (sf_events _ _ _ H i t Ho Ht).
  - destruct (tickets d !! i) as [t|], (tickets d' !! i) as [t'|]; simpl;
      rewrite ?(proj2 (String.eqb_neq (st_pubkey t) pubkey)), ?(proj2 (String.eqb_neq (st_pubkey t') pubkey)) by auto; done.
Qed.

Lemma latest_perm (l l' : list SupportTicket)
    (f := fun t acc => Some (from_option (Z.max (st_updated_at t)) (st_updated_at t) acc)) :
  l ≡ₚ l' -> foldr f None l = foldr f None l'.
Proof.
  induction 1 as [|t l l' _ IH|t u l|l1 l2 l3 _ -> _ ->]; [done|by simpl; rewrite IH| |done].
  simpl. unfold f at 1 2 4 5. destruct (foldr f None l); simpl; f_equal; lia.
Qed.

Lemma state_alike pubkey params etag d d' :
  desk_ok d -> desk_ok d' -> same_for pubkey d d' ->
  (run_act (get_support_state_endpoint pubkey params etag) d').1 = (run_act (get_support_state_endpoint pubkey params etag) d).1.
Proof.
  intros Hd Hd' H. pose proof (own_rows pubkey d d' Hd Hd' H) as Hrows.
  unfold get_support_state_endpoint. rewrite !run_act_bind, !run_act_tx. unfold reads at 1 2. rewrite !run_act_bind.
  destruct (entitled_alike pubkey d d' H) as (r & w & -> & ->). destruct r as [b|e]; [|done]. cbv zeta.
  replace (select_user_support_digest_on_db pubkey d') with (select_user_support_digest_on_db pubkey d).
  - case_decide; [done|]. simpl. do 4 f_equal. unfold build_user_support_tickets_stmt. f_equal.
    apply (listing_same (with_world d' w) (owned pubkey)); [exact Hd'|exact Hrows].
  - unfold select_user_support_digest_on_db, digest_stmt. fold (owned pubkey).
    f_equal; [|f_equal; symmetry; by apply Permutation_length].
    symmetry. by apply latest_perm.
Qed.

(** C37: What a user learns at the desk is their own.  On any two desks with the same
    clock, policies, counters and numbering that hold the same tickets of the user with
    the same words and events in them, every endpoint of the user gives the same answer:
    other people's tickets make no difference, not even whether they exist, and neither
    does which member of the team answered. *)
Theorem users_see_only_their_own pubkey d d' :
  desk_ok d -> desk_ok d' -> same_for pubkey d d' ->
  (forall i, (run_act (get_thread i pubkey) d').1 = (run_act (get_thread i pubkey) d).1)
  /\ (forall params etag, (run_act (get_support_state_endpoint pubkey params etag) d').1
                        = (run_act (get_support_state_endpoint pubkey params etag) d).1)
  /\ (forall i body, (run_act (create_support_message_endpoint i pubkey body) d').1
                   = (run_act (create_support_message_endpoint i pubkey body) d).1)
  /\ (forall i, (run_act (resolve_ticket i pubkey) d').1 = (run_act (resolve_ticket i pubkey) d).1)
  /\ forall subject body category email diagnostics,
       (run_act (create_ticket pubkey subject body category email diagnostics) d').1
       = (run_act (create_ticket pubkey subject body category email diagnostics) d).1.
Proof.
  intros Hd Hd' H. split; [intros; by apply thread_alike|]. split; [intros; by apply state_alike|].
  split; [|split; [intros; by apply resolve_alike|intros; by apply create_alike]].
  intros i body. unfold create_support_message_endpoint. rewrite !run_act_bind.
  destruct (on_windows_alike (validate_support_message_allowed pubkey) d d' (sf_windows _ _ _ H)) as (r & w & -> & ->).
  destruct r as [[]|e]; [|done]. apply reply_alike; [exact Hd|exact Hd'|by apply same_windows].
Qed.
End private.

(** ** Expiry *)

Section expiry.
Context {E : Env} {D : DeskEnv}.

Lemma expired_cleared cutoff t at_ : diagnostics_expired cutoff (without_diagnostics t at_) = false.
Proof. unfold diagnostics_expired. simpl. by rewrite andb_false_r. Qed.

(** One pass, alone. *)
Lemma sweep_run d (cutoff := desk_now d - RETENTION) :
  run_act expire_support_diagnostics_pass d
  = (Ok (Z.of_nat (length (ticket_rows (diagnostics_expired cutoff) d))),
     with_tickets d ((fun t => if diagnostics_expired cutoff t then without_diagnostics t (desk_now d) else t) <$> tickets d)
       (ticket_seq d)).
Proof. reflexivity. Qed.

(** A pass of the expiry takes the diagnostics off every ticket filed more than
    thirty days ago and off no other, and counts the tickets it cleared; messages,
    events and every other column but the time of the update stay.  A second pass at
    the same moment finds nothing to clear and writes nothing. *)
Theorem sweep_exact d (cutoff := desk_now d - RETENTION) n d' :
  run_act expire_support_diagnostics_pass d = (Ok n, d') ->
  n = Z.of_nat (length (ticket_rows (diagnostics_expired cutoff) d))
  /\ messages d' = messages d /\ events d' = events d
  /\ (forall i t, tickets d !! i = Some t ->
        tickets d' !! i = Some (if diagnostics_expired cutoff t then without_diagnostics t (desk_now d) else t))
  /\ (forall i t', tickets d' !! i = Some t' -> is_Some (tickets d !! i)
        /\ (st_created_at t' < cutoff -> st_diagnostics t' = None))
  /\ run_act expire_support_diagnostics_pass d' = (Ok 0, d').
Proof.
  rewrite sweep_run. fold cutoff. set (f := fun t => if diagnostics_expired cutoff t then _ else t). intros [= <- <-].
  assert (Hf : forall t, diagnostics_expired cutoff (f t) = false).
  { intros t. unfold f. destruct (diagnostics_expired cutoff t) eqn:Et; [apply expired_cleared|done]. }
  split; [done|]. split; [done|]. split; [done|]. split; [|split].
  - intros i t Ht. simpl. by rewrite lookup_fmap, Ht.
  - intros i t'. simpl. rewrite lookup_fmap. destruct (tickets d !! i) as [t|]; [|done]. intros [= <-].
    split; [by eexists|]. intros Hc. specialize (Hf t). unfold diagnostics_expired in Hf.
    rewrite (proj2 (Z.ltb_lt _ _) Hc) in Hf. simpl in Hf. apply bool_decide_eq_false in Hf.
    by apply eq_None_not_Some.
  - rewrite sweep_run. simpl. fold cutoff. do 2 f_equal.
    + unfold ticket_rows. simpl. rewrite map_to_list_fmap. induction (map_to_list (tickets d)) as [|[i t] l IH]; [done|].
      cbn [fmap list_fmap prod_map fst snd]. rewrite filter_cons_False; [done|]. rewrite Hf. by intros [].
    + enough (Hff : f <$> (f <$> tickets d) = f <$> tickets d) by exact Hff.
      rewrite <- map_fmap_compose. apply map_fmap_ext. intros i t _. simpl. unfold f at 1. by rewrite Hf.
Qed.
End expiry.
