(* ===== verification/SupportScenario.v ===== *)
(** * The support desk on concrete tables

    Runs that show the theorems at work, and three that show where the desk falls
    short of what its comments say: a poll that misses a late commit, a reopening
    that leaves no trace, and a list key that goes back in time. *)

From Stdlib Require Import Ascii String.
From S2P Require Import Prelude Json Time Types Effects Scenario Repos Atomic RateLimit Tables Support SupportSpec SupportRefinement SupportPoll SupportProps.
From stdpp Require Import list.
Local Open Scope string_scope.
Local Open Scope Z_scope.

(** ** Handlers that run to their end in a pool *)

Lemma pool_rest {S} handler outside (i : nat) (h : act S unit) (s : S) R :
  R !! i = Some h ->
  rtc (pool_step handler outside) {| shared := s; running := R |}
    {| shared := (run_act h s).2; running := delete i R |}.
Proof.
  revert s R. induction h as [r|B f k IH]; intros s R Hi; [apply rtc_once, (pool_gone _ _ {| shared := s; running := R |})|].
  eapply rtc_l; [by eapply (pool_done _ _ {| shared := s; running := R |} i)|]. simpl.
  rewrite <- (delete_insert_eq R i (k (f s).1)). apply IH. apply lookup_insert_eq.
Qed.

Lemma pool_alone {S} (handler : act S unit -> Prop) outside (i : nat) (h : act S unit) (s : S) R :
  handler h -> R !! i = None ->
  rtc (pool_step handler outside) {| shared := s; running := R |} {| shared := (run_act h s).2; running := R |}.
Proof.
  intros Hh Hi. eapply rtc_l; [by eapply (pool_start _ _ {| shared := s; running := R |} i)|]. simpl.
  pose proof (pool_rest handler outside i h s (<[i := h]> R) (lookup_insert_eq _ _ _)) as H.
  by rewrite delete_insert_id in H.
Qed.

(** ** A desk *)

#[export] Instance desk_env : Env := Scenario.unreachable true.
#[export] Instance desk_settings : DeskEnv := {|
  support_max_open_tickets := 5;
  sha1_hex := fun s => s;
  Page := list;
  paginate := fun A params l => take (Z.to_nat params.2) (drop (Z.to_nat ((params.1 - 1) * params.2)) l) |}.

(** Alice is on the team's list, so she may file. *)
Definition desk0 : Desk := {|
  desk_now := Scenario.demo_now; world := Scenario.demo; whitelisted_pubkeys := {["alice"]}; tickets := ∅; messages := ∅; events := ∅;
  ticket_seq := 1; message_seq := 1; support_event_seq := 1; windows := no_answers 0; sinks := [7%nat]; raised := [] |}.

Definition at_time (d : Desk) (t : Z) : Desk :=
  {| desk_now := t; world := world d; whitelisted_pubkeys := whitelisted_pubkeys d; tickets := tickets d;
     messages := messages d; events := events d; ticket_seq := ticket_seq d; message_seq := message_seq d;
     support_event_seq := support_event_seq d; windows := windows d; sinks := sinks d; raised := raised d |}.

Lemma at_time_outside d t : desk_outside d (at_time d t).
Proof. by split. Qed.

Definition file (subject : string) : act Desk unit :=
  ignore (create_ticket "alice" subject "help" "billing" None (Some [("browser", "x")])).

(** Two tickets, one microsecond apart. *)
Definition t0 : Z := Scenario.demo_now.
Definition desk1 : Desk := (run_act (file "one") (at_time desk0 (t0 + 1))).2.
Definition desk2 : Desk := (run_act (file "two") (at_time desk1 (t0 + 2))).2.

Lemma desk0_ok : desk_ok desk0.
Proof. split; [split; [|split]|]; intros i x H; by (simpl in H; rewrite lookup_empty in H). Qed.

Lemma desk0_settled : settled desk0.
Proof. split; [vm_compute; split; discriminate|]. intros i t H. by (simpl in H; rewrite lookup_empty in H). Qed.

Lemma desk2_serial : rtc serial desk0 desk2.
Proof.
  apply (rtc_l _ _ desk1); [|apply rtc_once].
  - refine (serial_write desk0 (at_time desk0 (t0 + 1)) (file "one") (at_time_outside _ _) _ (h_create _ _ _ _ _ _)).
    vm_compute. split; [reflexivity|discriminate].
  - refine (serial_write desk1 (at_time desk1 (t0 + 2)) (file "two") (at_time_outside _ _) _ (h_create _ _ _ _ _ _)).
    vm_compute. split; [reflexivity|discriminate].
Qed.

Lemma desk2_ok : desk_ok desk2.
Proof. by destruct (serials_newer _ _ desk2_serial desk0_ok desk0_settled). Qed.
Lemma desk2_settled : settled desk2.
Proof. by destruct (serials_newer _ _ desk2_serial desk0_ok desk0_settled) as (_ & ? & _). Qed.

Definition statuses (d : Desk) : list (Z * string) :=
  (fun t => (st_id t, st_status t)) <$> build_user_support_tickets_stmt "alice" d.

(** ** A late commit *)

Definition answer (i : Z) : act Desk unit := ignore (add_support_message i "try again" "team").

(** The answer to ticket [i] begins, at [t0 + 3]; the answer to ticket [j] begins
    later and commits first; then the answer to ticket [i] commits. *)
Definition begun (i : Z) : act Desk unit :=
  act_bind (in_transaction (t0 + 3) (
    ticket ← locked_ticket i;
    '(message, ticket) ← append_message ticket (author_value SUPPORT) "try again" (Some "team");
    ticket ← set_ticket_status ticket (ticket_status_value ANSWERED) (author_value SUPPORT) (Some "team");
    _ ← notify_about SUPPORT_REPLIED user ticket;
    _ ← flush_ticket ticket;
    mret (admin_message_item message))) (fun _ => Ret (Ok tt)).
Definition first_commit (j : Z) : Desk := (run_act (answer j) (at_time (at_time desk2 (t0 + 3)) (t0 + 4))).2.
Definition late_commit (i j : Z) : Desk := (run_act (begun i) (at_time (first_commit j) (t0 + 5))).2.

Lemma overlap i j :
  rtc (pool_step desk_handler desk_outside) {| shared := desk2; running := ∅ |}
    {| shared := first_commit j; running := {[0%nat := begun i]} |}
  /\ rtc (pool_step desk_handler desk_outside) {| shared := first_commit j; running := {[0%nat := begun i]} |}
       {| shared := late_commit i j; running := ∅ |}.
Proof.
  split.
  - eapply rtc_l; [apply (pool_outside _ _ {| shared := desk2; running := ∅ |}), (at_time_outside desk2 (t0 + 3))|].
    eapply rtc_l; [apply (pool_start _ _ {| shared := at_time desk2 (t0 + 3); running := ∅ |} 0%nat (answer i)); [constructor|done]|].
    eapply rtc_l; [eapply (pool_done _ _ _ 0%nat); reflexivity|].
    eapply rtc_l; [apply pool_outside, (at_time_outside _ (t0 + 4))|].
    cbn [shared running]. rewrite insert_insert_eq.
    exact (pool_alone desk_handler desk_outside 1%nat (answer j) (at_time (at_time desk2 (t0 + 3)) (t0 + 4))
      {[0%nat := begun i]} (h_answer _ _ _) eq_refl).
  - eapply rtc_l; [apply pool_outside, (at_time_outside _ (t0 + 5))|].
    cbn [shared running].
    pose proof (pool_rest desk_handler desk_outside 0%nat (begun i) (at_time (first_commit j) (t0 + 5)) {[0%nat := begun i]}
      (lookup_singleton_eq _ _)) as H. by rewrite delete_singleton_eq in H.
Qed.

(** Alice polls after the first commit.  Her next poll, with that tag, is answered 304
    although ticket 1 has been answered since. *)
Example overlapping_writer_is_missed :
  exists p1 p2 etag body,
    rtc (pool_step desk_handler desk_outside) {| shared := desk2; running := ∅ |} p1
    /\ rtc (pool_step desk_handler desk_outside) p1 p2
    /\ (run_act (get_support_state_endpoint "alice" (1, 50) None) (shared p1)).1 = Ok (Tagged etag body)
    /\ (run_act (get_support_state_endpoint "alice" (1, 50) (Some etag)) (shared p2)).1 = Ok (NotModified etag)
    /\ statuses (shared p1) = [(2, "answered"); (1, "open")]
    /\ statuses (shared p2) = [(2, "answered"); (1, "answered")].
Proof.
  destruct (overlap 1 2) as [H1 H2]. eexists _, _, _, _. split; [exact H1|]. split; [exact H2|].
  cbn [shared]. split_and!; vm_compute; reflexivity.
Qed.

(** Two answers to one ticket: the later message carries the earlier time, and the
    stored time of the ticket's last message, the order of both lists, goes back. *)
Example last_message_goes_back :
  exists p1 p2,
    rtc (pool_step desk_handler desk_outside) {| shared := desk2; running := ∅ |} p1
    /\ rtc (pool_step desk_handler desk_outside) p1 p2
    /\ st_last_message_at <$> tickets (shared p1) !! 1 = Some (t0 + 4)
    /\ st_last_message_at <$> tickets (shared p2) !! 1 = Some (t0 + 3)
    /\ sm_created_at <$> select_support_messages_on_db 1 (shared p2) = [t0 + 1; t0 + 4; t0 + 3].
Proof.
  destruct (overlap 1 1) as [H1 H2]. eexists _, _. split; [exact H1|]. split; [exact H2|].
  cbn [shared]. split_and!; vm_compute; reflexivity.
Qed.

(** An answered ticket that support reopens changes status with no message and no event. *)
Example reopening_leaves_no_trace :
  let d := (run_act (answer 1) (at_time desk2 (t0 + 3))).2 in
  let d' := (run_act (ignore (reopen_ticket_as_support 1 "team")) (at_time d (t0 + 4))).2 in
  st_status <$> tickets d !! 1 = Some "answered" /\ st_status <$> tickets d' !! 1 = Some "open"
  /\ map_to_list (messages d') = map_to_list (messages d) /\ map_to_list (events d') = map_to_list (events d).
Proof. vm_compute. split_and!; reflexivity. Qed.

(** ** The theorems on this desk *)

Lemma pool_of (h : act Desk unit) d : desk_handler h ->
  rtc (pool_step desk_handler desk_outside) {| shared := d; running := ∅ |} {| shared := (run_act h d).2; running := ∅ |}.
Proof. intros Hh. by apply (pool_alone _ _ 0%nat). Qed.

Lemma desk_refines_witness :
  rtc (desk_step 5) (threads desk2) (threads (run_act (answer 1) desk2).2)
  /\ th_state <$> threads (run_act (answer 1) desk2).2 !! 1 = Some ANSWERED.
Proof.
  split; [|vm_compute; reflexivity].
  exact (proj2 (desk_refines desk2 {| shared := (run_act (answer 1) desk2).2; running := ∅ |} desk2_ok
    (pool_of (answer 1) desk2 (h_answer _ _ _)))).
Defined.

Lemma desk0_threads j u : threads desk0 !! j = Some u -> thread_ok u.
Proof. unfold threads. simpl. rewrite fmap_empty, lookup_empty. done. Qed.

Lemma desk2_threads j u : threads desk2 !! j = Some u -> thread_ok u.
Proof.
  assert (Hr : refines desk0 desk2).
  { assert (Hs : forall d d', serial d d' -> desk_ok d -> refines d d' /\ desk_ok d').
    { intros d d' [d1 h Ho _ Hh] Hd. destruct (outside_ok _ _ Hd Ho) as [Hd1 Href1].
      destruct (run_within refines desk_ok h d1 refines_refl refines_trans (handler_within h Hh) Hd1).
      split; [by eapply refines_trans|done]. }
    enough (H : refines desk0 desk2 /\ desk_ok desk2) by apply H.
    pose proof desk2_serial as Hser. revert Hser. generalize desk2. intros d2 Hser. pose proof desk0_ok as H0. revert H0.
    induction Hser as [d|d1 d3 d4 H _ IH]; intros H0; [split; [apply refines_refl|done]|].
    destruct (Hs _ _ H H0) as [Hr1 H1]. destruct (IH H1) as [Hr2 H2]. split; [by eapply refines_trans|done]. }
  unfold refines in Hr. pose proof desk0_threads as Hok. revert Hr Hok. generalize (threads desk0), (threads desk2).
  induction 1 as [a|a1 a2 a3 H _ IH]; intros Hok; [apply Hok|]. apply IH. by eapply desk_step_ok.
Qed.

Lemma threads_only_grow_witness :
  exists t', tickets (run_act (ignore (resolve_ticket 1 "alice")) desk2).2 !! 1 = Some t' /\ st_status t' = "closed".
Proof.
  destruct (tickets desk2 !! 1) as [t|] eqn:Et; [|vm_compute in Et; discriminate].
  destruct (threads_only_grow desk2 {| shared := (run_act (ignore (resolve_ticket 1 "alice")) desk2).2; running := ∅ |} 1 t
    desk2_ok desk2_threads (pool_of _ desk2 (h_resolve _ _)) Et) as (t' & Ht' & _).
  exists t'. split; [exact Ht'|]. cbn [shared] in Ht'. vm_compute in Ht'. by injection Ht' as <-.
Defined.

Definition poll_tag : string := user_etag "alice" (select_user_support_digest_on_db "alice" desk2) true (1, 50).

Lemma poll_never_stale_witness :
  exists body, (run_act (get_support_state_endpoint "alice" (1, 50) None) desk2).1 = Ok (Tagged poll_tag body).
Proof.
  eexists. apply (poll_never_stale "alice" (1, 50) true desk2 desk2 desk2
    (run_act (get_support_state_endpoint "alice" (1, 50) (Some poll_tag)) desk2).2 poll_tag desk2_ok desk2_settled).
  - apply rtc_refl.
  - apply rtc_refl.
  - intros b H. exact H.
  - vm_compute. reflexivity.
Defined.

Definition queue_tag : string :=
  admin_etag (select_admin_support_digest_on_db (Some "open") None None desk2) (Some "open") None None (1, 50).

Lemma queue_poll_never_stale_witness :
  exists page, (run_act (list_support_tickets_endpoint (1, 50) (Some "open") None None None) desk2).1 = Ok (Tagged queue_tag page).
Proof.
  eexists. apply (queue_poll_never_stale (1, 50) (Some "open") None None desk2 desk2
    (run_act (list_support_tickets_endpoint (1, 50) (Some "open") None None (Some queue_tag)) desk2).2 queue_tag
    desk2_ok desk2_settled).
  - apply rtc_refl.
  - intros H. exact H.
  - vm_compute. reflexivity.
Defined.

(** Dan's desk with and without Alice's tickets. *)
Definition without_alice (d : Desk) : Desk :=
  with_tickets (with_support_events (with_messages d ∅ (message_seq d)) ∅ (support_event_seq d)) ∅ (ticket_seq d).

Lemma without_alice_ok d : desk_ok (without_alice d).
Proof. split; [split; [|split]|]; intros i x H; by (simpl in H; rewrite lookup_empty in H). Qed.

Lemma without_alice_same d pubkey : map_Forall (fun _ t => st_pubkey t <> pubkey) (tickets d) ->
  same_for pubkey (without_alice d) d.
Proof.
  intros Hn. split; try reflexivity; intros i t Ht; cbn [tickets without_alice with_tickets]; rewrite lookup_empty; [|done..].
  split; [intros H; by apply Hn in H|done].
Qed.

Lemma desk2_not_dan : map_Forall (fun _ t => st_pubkey t <> "dan") (tickets desk2).
Proof. refine (bool_decide_eq_true_1 _ _). vm_compute. reflexivity. Qed.

Lemma users_see_only_their_own_witness :
  (run_act (get_thread 1 "dan") desk2).1 = (run_act (get_thread 1 "dan") (without_alice desk2)).1.
Proof.
  exact (proj1 (users_see_only_their_own "dan" (without_alice desk2) desk2 (without_alice_ok desk2) desk2_ok
    (without_alice_same desk2 "dan" desk2_not_dan)) 1).
Defined.

Lemma sweep_exact_witness :
  (run_act expire_support_diagnostics_pass (at_time desk2 (t0 + 31 * us_per_day))).1 = Ok 2.
Proof.
  pose (d := at_time desk2 (t0 + 31 * us_per_day)).
  destruct (sweep_exact d 2 (run_act expire_support_diagnostics_pass d).2) as [Hn _]; [vm_compute; reflexivity|].
  vm_compute. reflexivity.
Defined.
