(* ===== verification/NostrTags.v ===== *)
(** * Nostr events as decoded JSON

    What [src/app/utils/nostr.py], [services/designation_service.py],
    [services/report_graph_service.py] and [services/tagging_parse.py] read out of
    an event.  An event is whatever [json.loads] returned, so a tag may be
    anything; a function that indexes a value which has no such index raises, as
    Python does.

    [p_tag_pubkeys_exact] and [designated_exact] say which keys are read,
    [diff_reconciles] that the reconcile plan of the report graph does what it is
    for. *)

From Stdlib Require Import Ascii String QArith.
From S2P Require Import Prelude Json Binary64.
From stdpp Require Import list.
Local Open Scope string_scope.

(** ** Python on decoded values *)

Definition ValueError : exn := OtherException "ValueError".
Definition IndexError : exn := OtherException "IndexError".

(** [v[i]] for a literal [i]: a dict of JSON has no integer keys. *)
Definition py_index (v : json) (i : nat) : res exn json :=
  match v with
  | JList l => match l !! i with Some x => Ok x | None => Raise IndexError end
  | JStr s => match chars s !! i with Some c => Ok (JStr (of_chars [c])) | None => Raise IndexError end
  | JObj _ => Raise KeyError
  | _ => Raise TypeError
  end.

(** [len(v)]. *)
Definition py_len (v : json) : res exn nat :=
  match v with
  | JList l => Ok (length l)
  | JStr s => Ok (String.length s)
  | JObj d => Ok (length d)
  | _ => Raise TypeError
  end.

(** [for x in v]. *)
Definition py_iter (v : json) : res exn (list json) :=
  match v with
  | JList l => Ok l
  | JStr s => Ok ((fun c => JStr (of_chars [c])) <$> chars s)
  | JObj d => Ok (JStr <$> d.*1)
  | _ => Raise TypeError
  end.

(** [v.get(k)] and [v.get(k, fallback)]. *)
Definition py_get (k : string) (v : json) : res exn json :=
  match v with JObj d => Ok (dget k d) | _ => Raise AttributeError end.
Definition py_get_or (k : string) (fallback : json) (v : json) : res exn json :=
  match v with JObj d => Ok (default fallback (dict_get k d)) | _ => Raise AttributeError end.
(** [v[k]]. *)
Definition py_item (k : string) (v : json) : res exn json :=
  match v with
  | JObj d => match dict_get k d with Some x => Ok x | None => Raise KeyError end
  | _ => Raise TypeError
  end.

(** [a or b]. *)
Definition py_or (a b : json) : json := if py_truthy a then a else b.

(** A loop whose body may raise. *)
Fixpoint foldm {A B} (f : A -> B -> res exn A) (a : A) (l : list B) : res exn A :=
  match l with [] => Ok a | x :: l' => a' ← f a x; foldm f a' l' end.

(** [str.lower] on Latin-1. *)
Definition lower_chr (c : ascii) : ascii :=
  let n := chr_code c in
  if ((65 <=? n) && (n <=? 90) || (192 <=? n) && (n <=? 222) && negb (n =? 215))%Z
  then ascii_of_N (Z.to_N (n + 32)) else c.
Definition py_lower (s : string) : string := of_chars (lower_chr <$> chars s).

(** [str.upper]; the two letters whose capitals are not Latin-1 are left. *)
Definition upper_chr (c : ascii) : list ascii :=
  let n := chr_code c in
  if (n =? 223)%Z then ["S"%char; "S"%char]
  else if ((97 <=? n) && (n <=? 122) || (224 <=? n) && (n <=? 254) && negb (n =? 247))%Z then [chr_of (n - 32)]
  else [c].
Definition py_upper (s : string) : string := of_chars (mjoin (upper_chr <$> chars s)).

(** ** Public keys *)

Definition is_hex_digit (c : ascii) : bool :=
  is_digit c || ((97 <=? chr_code c) && (chr_code c <=? 102))%Z.

Definition newline : ascii := ascii_of_N 10.

(** What a regular expression's [$] accepts: the end, or a final newline. *)
Definition at_end (l : list ascii) : bool :=
  match l with [] => true | [c] => Ascii.eqb c newline | _ => false end.

(** [_HEX64.match(s)] and [_HEX_PUBKEY.match(s)]. *)
Definition hex64_match (s : string) : bool :=
  let l := chars s in
  (64 <=? length l)%nat && forallb is_hex_digit (take 64 l) && at_end (drop 64 l).

(** [_DESIGNATION_TAG_NAME.match(s)]: digits, then nothing or a colon and anything
    but a newline. *)
Definition designation_tag_name (s : string) : bool :=
  let l := chars s in
  match l with
  | c :: _ =>
      is_digit c
      && match drop_while is_digit l with
         | ":"%char :: r => at_end (drop_while (fun c => negb (Ascii.eqb c newline)) r)
         | r => at_end r
         end
  | [] => false
  end.

(** ** Tags ([utils/nostr.py]) *)

Definition iter_tag_values (tags : list json) (name : string) : list json :=
  omap (fun tag => match tag with
                   | JList (t0 :: t1 :: _) => if json_is_str t0 name then Some t1 else None
                   | _ => None
                   end) tags.

Definition tag_values (tags : json) (name : string) : res exn (list json) :=
  l ← py_iter tags; mret (iter_tag_values l name).

Definition first_tag_value (tags : json) (name : string) : res exn (option json) :=
  l ← tag_values tags name; mret (head l).

(** [tag and tag[0] == name and len(tag) > 1], then [tag[1]]. *)
Definition named_value (name : string) (tag : json) : res exn (option json) :=
  if negb (py_truthy tag) then mret None
  else
    t0 ← py_index tag 0;
    if negb (json_is_str t0 name) then mret None
    else
      n ← py_len tag;
      if (n <=? 1)%nat then mret None else (Some <$> py_index tag 1).

(** One round of [p_tag_pubkeys]: [seen] is the dict's keys, in order. *)
Definition see_p_tag (seen : list string) (tag : json) : res exn (list string) :=
  v ← named_value "p" tag;
  match v with
  | Some (JStr s) =>
      let pubkey := py_lower s in
      if hex64_match pubkey && negb (bool_decide (pubkey ∈ seen))
      then mret (seen ++ [pubkey])%list else mret seen
  | _ => mret seen
  end.

Definition p_tag_pubkeys (tags : json) : res exn (list string) :=
  l ← py_iter tags; foldm see_p_tag [] l.

(** [utils/client_tag.py]: the tag on every event the server signs. *)
Definition CLIENT_TAG : list string := ["client"; "Brainstorm"].

(** ** Designations ([services/designation_service.py]) *)

Definition DESIGNATION_KIND : Z := 10040.

(** One round; [seen] and [out] hold the same keys. *)
Definition see_designation (observer : string) (out : list string) (tag : json) : res exn (list string) :=
  n ← py_len tag;
  if (n <? 2)%nat then mret out
  else
    t0 ← py_index tag 0;
    t1 ← py_index tag 1;
    match t0, t1 with
    | JStr name, JStr key =>
        if negb (designation_tag_name name) then mret out
        else
          let pubkey := py_lower key in
          if negb (hex64_match pubkey) || String.eqb pubkey observer || bool_decide (pubkey ∈ out)
          then mret out else mret (out ++ [pubkey])%list
    | _, _ => mret out
    end.

Definition parse_designated_pubkeys (tags : list json) (observer : string) : res exn (list string) :=
  foldm (see_designation observer) [] tags.

(** ** Reports ([services/report_graph_service.py]) *)

(** [any(tag and tag[0] == "e" for tag in tags)]: stops at the first. *)
Fixpoint any_e_tag (tags : list json) : res exn bool :=
  match tags with
  | [] => mret false
  | tag :: tags' =>
      if negb (py_truthy tag) then any_e_tag tags'
      else t0 ← py_index tag 0; if json_is_str t0 "e" then mret true else any_e_tag tags'
  end.

Definition extract_report_targets (event : json) : res exn (list string) :=
  tags ← py_get_or "tags" (JList []) event;
  l ← py_iter tags;
  e ← any_e_tag l;
  if (e : bool) then mret [] else p_tag_pubkeys tags.

(** A dict of sets. *)
Abbreviation reporters := (gmap string (gset string)).

(** [out[k].add(x)] on a [defaultdict(set)]. *)
Definition dict_add (k x : string) (m : reporters) : reporters :=
  <[k := {[x]} ∪ default ∅ (m !! k)]> m.

Definition see_deletion_tag (report_ids : gset string) (author : string) (out : reporters) (t : json)
  : res exn reporters :=
  v ← named_value "e" t;
  match v with
  | Some (JStr id) => mret (if bool_decide (id ∈ report_ids) then dict_add id author out else out)
  | Some x => if hashable x then mret out else Raise TypeError
  | None => mret out
  end.

Definition deletions_by_report_id (deletion_events : list json) (report_ids : gset string)
  : res exn reporters :=
  foldm (fun out d =>
    author ← py_get "pubkey" d;
    match author with
    | JStr author =>
        tags ← py_get_or "tags" (JList []) d;
        l ← py_iter tags;
        foldm (see_deletion_tag report_ids author) out l
    | _ => mret out
    end) ∅ deletion_events.

(** The events whose [pubkey] passes a test. *)
Fixpoint by_pubkey (keep : json -> bool) (events : list json) : res exn (list json) :=
  match events with
  | [] => mret []
  | ev :: evs =>
      pk ← py_get "pubkey" ev;
      rest ← by_pubkey keep evs;
      mret (if keep pk then ev :: rest else rest)
  end.

Definition is_str (v : json) : bool := match v with JStr _ => true | _ => false end.

(** Reports with a text [pubkey], as [(reporter, id, event)]. *)
Fixpoint report_ids_of (reports : list json) : res exn (gset string) :=
  match reports with
  | [] => mret ∅
  | ev :: evs =>
      id ← py_get "id" ev;
      rest ← report_ids_of evs;
      mret (match id with JStr id => {[id]} ∪ rest | _ => rest end)
  end.

Definition add_report (deleters : reporters) (desired : reporters) (ev : json) : res exn reporters :=
  reporter ← py_item "pubkey" ev;
  eid ← py_get "id" ev;
  match reporter with
  | JStr reporter =>
      if match eid with
         | JStr eid => bool_decide (reporter ∈ default ∅ (deleters !! eid))
         | _ => false
         end
      then mret desired
      else
        targets ← extract_report_targets ev;
        mret (foldl (fun d target => dict_add target reporter d) desired targets)
  | _ => mret desired
  end.

Definition build_desired_reported_by (report_events deletion_events : list json) : res exn reporters :=
  reports ← by_pubkey is_str report_events;
  deleters ← (match deletion_events with
              | [] => mret ∅
              | _ => ids ← report_ids_of reports; deletions_by_report_id deletion_events ids
              end);
  foldm (add_report deleters) ∅ reports.

Record ReportedByDiff := { rb_to_add : reporters; rb_to_remove : reporters }.

(** The sets of [want] without those of [have], empty ones left out. *)
Definition minus_sets (want have : reporters) : reporters :=
  omap (fun s => if decide (s = ∅) then None else Some s)
       (map_imap (fun k s => Some (s ∖ default ∅ (have !! k))) want).

Definition diff_reported_by (desired current : reporters) : ReportedByDiff :=
  {| rb_to_add := minus_sets desired current; rb_to_remove := minus_sets current desired |}.

Definition count_members (m : reporters) : nat := map_fold (fun _ s n => size s + n)%nat 0%nat m.
Definition add_count (d : ReportedByDiff) : nat := count_members (rb_to_add d).
Definition remove_count (d : ReportedByDiff) : nat := count_members (rb_to_remove d).

(** *** One author *)

(** Reports of this author only, given what the relay still holds. *)
Definition surviving_report_targets (report_events : list json) (author : string) : res exn (gset string) :=
  own ← by_pubkey (fun pk => json_is_str pk author) report_events;
  by_target ← build_desired_reported_by own [];
  mret (dom (filter (fun kv => author ∈ kv.2) by_target)).

Record AuthorReportDiff := { to_add : gset string; to_remove : gset string }.

Definition diff_author_targets (desired current : gset string) : AuthorReportDiff :=
  {| to_add := desired ∖ current; to_remove := current ∖ desired |}.

(** ** Lemmas *)

Lemma res_bind_Ok {A B} (r : res exn A) (f : A -> res exn B) b :
  r ≫= f = Ok b -> exists a, r = Ok a /\ f a = Ok b.
Proof. destruct r as [a|e]; [by exists a|done]. Qed.

(** An invariant of a loop that may raise. *)
Lemma foldm_ind {A B} (f : A -> B -> res exn A) (P : list B -> A -> Prop) l :
  (forall done_ a x a', P done_ a -> f a x = Ok a' -> x ∈ l -> P (done_ ++ [x])%list a') ->
  forall a0 a, P [] a0 -> foldm f a0 l = Ok a -> P l a.
Proof.
  intros Hf a0 a H0. enough (forall l1 l2 a1, l = (l1 ++ l2)%list -> P l1 a1 -> foldm f a1 l2 = Ok a -> P l a)
    as H by by apply (H [] l a0).
  intros l1 l2. revert l1. induction l2 as [|x l2 IH]; intros l1 a1 El H1; simpl.
  - intros [= <-]. by rewrite El, app_nil_r.
  - intros (a2 & E & Hrest)%res_bind_Ok. apply (IH (l1 ++ [x])%list a2); [by rewrite <- app_assoc| |done].
    apply (Hf l1 a1 x a2); [done|done|]. rewrite El. set_solver.
Qed.

(** A loop whose body never raises ends. *)
Lemma foldm_total {A B} (f : A -> B -> res exn A) (Q : B -> Prop) l a0 :
  (forall a x, Q x -> exists a', f a x = Ok a') -> (forall x, x ∈ l -> Q x) -> exists a, foldm f a0 l = Ok a.
Proof.
  intros Hf. revert a0. induction l as [|x l IH]; intros a0 Hl; simpl; [eauto|].
  destruct (Hf a0 x) as [a' E]; [set_solver|]. rewrite E. apply IH. set_solver.
Qed.

Lemma hex_not_upper c : is_hex_digit c = true -> lower_chr c = c.
Proof. destruct c as [[] [] [] [] [] [] [] []]; vm_compute; done. Qed.

(** A key in lower case is its own lower case. *)
Lemma lower_hex s : forallb is_hex_digit (chars s) = true -> py_lower s = s.
Proof.
  intros Hd. unfold py_lower. rewrite forallb_forall in Hd.
  rewrite (list_fmap_ext lower_chr id (chars s)), list_fmap_id; [apply of_chars_chars|].
  intros i c Hi. apply hex_not_upper, Hd, list_elem_of_In, list_elem_of_lookup. by exists i.
Qed.

(** A [p] tag that names [k]. *)
Definition names_pubkey (tag : json) (k : string) : Prop :=
  exists s, named_value "p" tag = Ok (Some (JStr s)) /\ k = py_lower s /\ hex64_match k = true.

Lemma see_p_tag_spec seen tag seen' : see_p_tag seen tag = Ok seen' -> NoDup seen ->
  NoDup seen' /\ forall k, k ∈ seen' <-> k ∈ seen \/ names_pubkey tag k.
Proof.
  unfold see_p_tag, names_pubkey. intros (v & Ev & E)%res_bind_Ok Hnd. rewrite Ev.
  assert (Hskip : seen' = seen -> (forall s, v = Some (JStr s) -> hex64_match (py_lower s) = true -> py_lower s ∈ seen) ->
    NoDup seen' /\ forall k, k ∈ seen' <-> k ∈ seen \/ exists s, (Ok v : res exn _) = Ok (Some (JStr s)) /\ k = py_lower s /\ hex64_match k = true).
  { intros -> Hin. split; [done|]. intros k. split; [by left|].
    intros [Hk|(s & [= ->] & -> & Hhex)]; [done|]. by apply Hin. }
  destruct v as [[| | | |s| |]|]; try (injection E as <-; by apply Hskip).
  destruct (hex64_match (py_lower s)) eqn:Hhex; simpl in E.
  2:{ injection E as <-. apply Hskip; [done|]. intros s' [= <-]. by rewrite Hhex. }
  case_bool_decide as Hin; simpl in E; injection E as <-.
  { apply Hskip; [done|]. by intros s' [= <-]. }
  split; [apply NoDup_app; split_and!; [done|set_solver|apply NoDup_singleton]|].
  intros k. rewrite elem_of_app, list_elem_of_singleton. split.
  - intros [Hk| ->]; [by left|right]. by exists s.
  - intros [Hk|(s' & [= <-] & -> & _)]; [by left|by right].
Qed.

(** The keys read: each once, exactly those a [p] tag names. *)
Lemma p_tag_pubkeys_exact tags l : p_tag_pubkeys tags = Ok l ->
  exists raw, py_iter tags = Ok raw /\ NoDup l
    /\ forall k, k ∈ l <-> exists tag, tag ∈ raw /\ names_pubkey tag k.
Proof.
  unfold p_tag_pubkeys. intros (raw & Eraw & E)%res_bind_Ok. exists raw. split; [done|].
  refine (foldm_ind _ (fun done_ seen => NoDup seen /\ forall k, k ∈ seen <-> exists tag, tag ∈ done_ /\ names_pubkey tag k) raw _ [] l _ E).
  - intros d seen tag seen' [Hnd Hs] Hstep _. destruct (see_p_tag_spec _ _ _ Hstep Hnd) as [Hnd' Hs'].
    split; [done|]. intros k. rewrite Hs', Hs. setoid_rewrite elem_of_app. setoid_rewrite list_elem_of_singleton.
    naive_solver.
  - split; [apply NoDup_nil_2|]. intros k. split; [set_solver|]. intros (? & ? & _). set_solver.
Qed.

(** An event whose tags are lists is always readable. *)
Definition tag_shaped (tag : json) : Prop := exists l, tag = JList l.

Lemma named_value_total name tag : tag_shaped tag -> exists v, named_value name tag = Ok v.
Proof.
  intros [l ->]. unfold named_value. destruct l as [|t0 l]; [by eexists|]. simpl.
  destruct (json_is_str t0 name); simpl; [|by eexists]. destruct l as [|t1 l]; by eexists.
Qed.

Lemma p_tag_pubkeys_total raw : (forall tag, tag ∈ raw -> tag_shaped tag) ->
  exists l, p_tag_pubkeys (JList raw) = Ok l.
Proof.
  intros H. unfold p_tag_pubkeys. simpl. apply (foldm_total _ tag_shaped); [|done].
  intros seen tag Htag. unfold see_p_tag. destruct (named_value_total "p" tag Htag) as [v ->]. simpl.
  destruct v as [[| | | |s| |]|]; try by eexists.
  destruct (_ && _); by eexists.
Qed.

(** *** Designations *)

Definition designates (observer : string) (tag : json) (k : string) : Prop :=
  exists name key, py_index tag 0 = Ok (JStr name) /\ py_index tag 1 = Ok (JStr key)
    /\ designation_tag_name name = true /\ k = py_lower key /\ hex64_match k = true /\ k <> observer.

Lemma see_designation_spec observer out tag out' :
  see_designation observer out tag = Ok out' -> NoDup out -> tag_shaped tag ->
  NoDup out' /\ forall k, k ∈ out' <-> k ∈ out \/ designates observer tag k.
Proof.
  intros E Hnd [l ->].
  assert (Hkeep : out' = out -> (forall k, designates observer (JList l) k -> k ∈ out) ->
    NoDup out' /\ forall k, k ∈ out' <-> k ∈ out \/ designates observer (JList l) k).
  { intros -> Hin. split; [done|]. intros k. split; [by left|]. intros [?|?]; auto. }
  unfold see_designation in E. destruct l as [|t0 [|t1 l]].
  1,2: injection E as <-; apply Hkeep; [done|]; by intros k (? & ? & ? & ? & _).
  cbn in E. destruct t0 as [| | | |name| |]; try (injection E as <-; apply Hkeep; [done|]; by intros k (? & ? & ? & _)).
  destruct t1 as [| | | |key| |]; try (injection E as <-; apply Hkeep; [done|]; by intros k (? & ? & _ & ? & _)).
  destruct (designation_tag_name name) eqn:Hname; simpl in E.
  2:{ injection E as <-. apply Hkeep; [done|]. intros k (n & y & [= <-] & _ & Hn & _). congruence. }
  assert (Hd : forall k, designates observer (JList (JStr name :: JStr key :: l)) k <->
            k = py_lower key /\ hex64_match k = true /\ k <> observer).
  { intros k. split; [|intros (-> & ? & ?); by exists name, key].
    by intros (n & y & [= <-] & [= <-] & _ & ?). }
  destruct (hex64_match (py_lower key)) eqn:Hhex; simpl in E.
  2:{ injection E as <-. apply Hkeep; [done|]. intros k (-> & Hh & _)%Hd. congruence. }
  destruct (String.eqb_spec (py_lower key) observer) as [Heq|Hne]; simpl in E.
  { injection E as <-. apply Hkeep; [done|]. intros k (-> & _ & Hn)%Hd. congruence. }
  case_bool_decide as Hin; injection E as <-.
  { apply Hkeep; [done|]. by intros k (-> & _)%Hd. }
  split; [apply NoDup_app; split_and!; [done|set_solver|apply NoDup_singleton]|].
  intros k. rewrite elem_of_app, list_elem_of_singleton, Hd. naive_solver.
Qed.

(** The providers read: each once, never the author. *)
Lemma designated_exact tags observer l :
  (forall tag, tag ∈ tags -> tag_shaped tag) -> parse_designated_pubkeys tags observer = Ok l ->
  NoDup l /\ forall k, k ∈ l <-> exists tag, tag ∈ tags /\ designates observer tag k.
Proof.
  intros Hsh E.
  refine (foldm_ind _ (fun done_ out => NoDup out /\ forall k, k ∈ out <-> exists tag, tag ∈ done_ /\ designates observer tag k) tags _ [] l _ E).
  - intros d out tag out' [Hnd Hs] Hstep Hin.
    destruct (see_designation_spec _ _ _ _ Hstep Hnd (Hsh _ Hin)) as [Hnd' Hs'].
    split; [done|]. intros k. rewrite Hs', Hs. setoid_rewrite elem_of_app. setoid_rewrite list_elem_of_singleton.
    naive_solver.
  - split; [apply NoDup_nil_2|]. intros k. split; [set_solver|]. intros (? & ? & _). set_solver.
Qed.

Lemma parse_designated_total tags observer : (forall tag, tag ∈ tags -> tag_shaped tag) ->
  exists l, parse_designated_pubkeys tags observer = Ok l.
Proof.
  intros H. apply (foldm_total _ tag_shaped); [|done]. intros out tag [l ->].
  unfold see_designation. destruct l as [|t0 [|t1 l]]; [by eexists..|]. cbn.
  destruct t0 as [| | | |name| |]; try by eexists. destruct t1 as [| | | |key| |]; try by eexists.
  destruct (negb _); [by eexists|]. destruct (_ || _); by eexists.
Qed.

(** *** Reports *)

Lemma elem_dict_add k x m t r :
  r ∈ default ∅ (dict_add k x m !! t) <-> (t = k /\ r = x) \/ r ∈ default ∅ (m !! t).
Proof.
  unfold dict_add. destruct (decide (t = k)) as [->|Hne].
  - rewrite lookup_insert_eq. simpl. set_solver.
  - rewrite lookup_insert_ne by done. set_solver.
Qed.

Lemma elem_add_targets targets reporter m t r :
  r ∈ default ∅ (foldl (fun d target => dict_add target reporter d) m targets !! t) <->
  (t ∈ targets /\ r = reporter) \/ r ∈ default ∅ (m !! t).
Proof.
  revert m. induction targets as [|x l IH]; intros m; simpl; [set_solver|].
  rewrite IH, elem_dict_add. set_solver.
Qed.

(** [ev], an event of [author], reports [t] as a user. *)
Definition reports_user (author : string) (ev : json) (t : string) : Prop :=
  py_get "pubkey" ev = Ok (JStr author) /\ exists l, extract_report_targets ev = Ok l /\ t ∈ l.

Lemma py_item_get k v x y : py_item k v = Ok x -> py_get k v = Ok y -> x = y.
Proof. destruct v; simpl; try done. unfold dget. destruct (dict_get k d); simpl; congruence. Qed.

Lemma by_pubkey_elem keep l l' ev : by_pubkey keep l = Ok l' ->
  (ev ∈ l' <-> ev ∈ l /\ exists pk, py_get "pubkey" ev = Ok pk /\ keep pk = true).
Proof.
  revert l'. induction l as [|x l IH]; intros l'; cbn [by_pubkey].
  - intros [= <-]. set_solver.
  - intros (pk & Epk & (rest & Er & [= <-])%res_bind_Ok)%res_bind_Ok. specialize (IH _ Er).
    destruct (keep pk) eqn:Ek; rewrite ?elem_of_cons, IH; split; [|intros [[->|?] Hx]; auto|firstorder|].
    + intros [->|[? ?]]; eauto.
    + intros [[->|?] (pk' & Hpk' & Hk)]; [congruence|eauto].
Qed.

Lemma add_report_spec desired ev desired' : add_report ∅ desired ev = Ok desired' ->
  forall t r, r ∈ default ∅ (desired' !! t) <-> r ∈ default ∅ (desired !! t) \/ reports_user r ev t.
Proof.
  unfold add_report. intros (rep & Erep & (eid & Eeid & E)%res_bind_Ok)%res_bind_Ok t r.
  assert (Hpk : forall a, py_get "pubkey" ev = Ok (JStr a) <-> rep = JStr a).
  { intros a. split; [intros Hg; by apply (py_item_get _ _ _ _ Erep Hg)|]. intros ->.
    destruct ev; simpl in *; try done. unfold dget. destruct (dict_get "pubkey" d); simpl; congruence. }
  destruct rep as [| | | |reporter| |];
    try (injection E as <-; split; [by left|]; intros [?|[Hp _]]; [done|]; apply Hpk in Hp; done).
  assert (E' : exists targets, extract_report_targets ev = Ok targets /\
            foldl (fun d target => dict_add target reporter d) desired targets = desired').
  { destruct eid as [| | | |eid| |]; rewrite ?lookup_empty in E; cbn [default from_option] in E;
      rewrite ?bool_decide_false in E by set_solver; apply res_bind_Ok in E as (tg & Et & [= <-]); eauto. }
  destruct E' as (targets & Et & <-). rewrite elem_add_targets. unfold reports_user. rewrite Hpk, Et.
  split.
  - intros [[Ht ->]|?]; [right; split; [done|by exists targets]|by left].
  - intros [?|[[= ->] (l & [= <-] & Hl)]]; [by right|by left].
Qed.

(** What an author still reports is exactly what the relay's events of that author
    say. *)
Lemma surviving_targets_exact events author S : surviving_report_targets events author = Ok S ->
  forall t, t ∈ S <-> exists ev, ev ∈ events /\ reports_user author ev t.
Proof.
  unfold surviving_report_targets, build_desired_reported_by.
  intros (own & Eown & (bt & (reps & Ereps & (dels & [= <-] & E)%res_bind_Ok)%res_bind_Ok & [= <-])%res_bind_Ok)%res_bind_Ok t.
  assert (Hbt : forall x r, r ∈ default ∅ (bt !! x) <-> exists ev, ev ∈ reps /\ reports_user r ev x).
  { refine (foldm_ind _ (fun d m => forall x r, r ∈ default ∅ (m !! x) <-> exists ev, ev ∈ d /\ reports_user r ev x) reps _ ∅ bt _ E).
    - intros d m ev m' Hm Hstep _ x r. rewrite (add_report_spec _ _ _ Hstep), Hm.
      setoid_rewrite elem_of_app. setoid_rewrite list_elem_of_singleton. naive_solver.
    - intros x r. rewrite lookup_empty. split; [set_solver|]. intros (? & ? & _). set_solver. }
  rewrite elem_of_dom. transitivity (author ∈ default ∅ (bt !! t)).
  { unfold is_Some. setoid_rewrite map_lookup_filter_Some. destruct (bt !! t) as [s|]; simpl; [|set_solver].
    naive_solver. }
  rewrite Hbt. split; intros (ev & Hev & Hr); exists ev; (split; [|done]).
  - apply (by_pubkey_elem _ _ _ _ Ereps) in Hev as [Hev _]. by apply (by_pubkey_elem _ _ _ _ Eown) in Hev as [? _].
  - apply (by_pubkey_elem _ _ _ _ Ereps). split; [|by exists (JStr author); split; [apply Hr|]].
    apply (by_pubkey_elem _ _ _ _ Eown). split; [done|]. exists (JStr author). split; [apply Hr|].
    simpl. apply String.eqb_refl.
Qed.

Lemma lookup_minus_sets want have k :
  default ∅ (minus_sets want have !! k) = default ∅ (want !! k) ∖ default ∅ (have !! k).
Proof.
  unfold minus_sets. rewrite lookup_omap, map_lookup_imap. destruct (want !! k) as [s|]; simpl; [|set_solver].
  case_decide as Hs; simpl; [by rewrite Hs|done].
Qed.

(** The reconcile plan does what it is for: the members to add, added, and those to
    remove, removed, leave exactly the desired ones. *)
Lemma diff_reconciles desired current t :
  let d := diff_reported_by desired current in
  (default ∅ (current !! t) ∪ default ∅ (rb_to_add d !! t)) ∖ default ∅ (rb_to_remove d !! t) = default ∅ (desired !! t).
Proof.
  unfold diff_reported_by. cbn [rb_to_add rb_to_remove]. rewrite !lookup_minus_sets.
  generalize (default ∅ (desired !! t)) (default ∅ (current !! t)). intros D C. apply set_eq. intros x.
  rewrite elem_of_difference, elem_of_union, !elem_of_difference.
  destruct (decide (x ∈ D)), (decide (x ∈ C)); naive_solver.
Qed.
