(* ===== verification/Tagging.v ===== *)
(** * Tag elements and taggings

    [src/app/services/tagging_parse.py] reads the two shapes of kind 39999, and
    [src/app/repos/tagging_repo.py] keeps them in two tables ([NostrTagElement] and
    [NostrUserTagging] of [db_models/__init__.py]), latest wins on the event's own
    clock.  [TagStore] is the two tables by their keys; a statement is a [TX] on
    it.  A polarity is Python's float with its infinities and NaN, because
    Postgres and Python order NaN differently. *)

From Stdlib Require Import Ascii String QArith.
From S2P Require Import Prelude Json Binary64 Atomic NostrTags.
From stdpp Require Import list.
Local Open Scope string_scope.
Local Open Scope Z_scope.

(** ** [float(s)] *)

Inductive pyfloat := Fin (q : Q) | PInf | NInf | NaN.

(** Python's comparisons: NaN is below and above nothing. *)
Definition py_fge (x : pyfloat) (c : Q) : bool :=
  match x with Fin q => fle c q | PInf => true | NInf | NaN => false end.
Definition py_fle (x : pyfloat) (c : Q) : bool :=
  match x with Fin q => fle q c | NInf => true | PInf | NaN => false end.
(** Postgres: NaN is above everything. *)
Definition pg_fge (x : pyfloat) (c : Q) : bool :=
  match x with NaN => true | _ => py_fge x c end.

Definition in_run (c : ascii) : bool := is_digit c || Ascii.eqb c "_".
Fixpoint take_while {A} (p : A -> bool) (l : list A) : list A :=
  match l with [] => [] | x :: l' => if p x then x :: take_while p l' else [] end.

(** A run of digits, possibly empty. *)
Definition opt_digits (l : list ascii) : option (list ascii) :=
  match l with [] => Some [] | _ => drop_underscores false l end.

(** [m * 10 ^ e], rounded; past the largest float it is infinite.  Below the
    smallest it is 0 here; nothing compares with such a value. *)
Definition decimal_value (ds : list ascii) (e : Z) : option pyfloat :=
  m ← digits_val 0 ds;
  mret (if m =? 0 then Fin 0
        else if 400 <? e then PInf
        else if e + Z.of_nat (length ds) <? -400 then Fin 0
        else
          let q := rn (if 0 <=? e then inject_Z (m * 10 ^ e) else Qmake m (Z.to_pos (10 ^ (- e)))) in
          if fle (inject_Z (2 ^ 1024)) q then PInf else Fin q).

Definition exponent_part (l : list ascii) : option Z :=
  match l with
  | [] => Some 0
  | c :: r =>
      if Ascii.eqb c "e" || Ascii.eqb c "E" then
        let '(neg, r) := match r with
                         | "-"%char :: r' => (true, r')
                         | "+"%char :: r' => (false, r')
                         | _ => (false, r)
                         end in
        ds ← drop_underscores false r;
        z ← parse_digits ds;
        mret (if neg then - z else z)
      else None
  end.

Definition decimal (l : list ascii) : option pyfloat :=
  whole ← opt_digits (take_while in_run l);
  let r := drop_while in_run l in
  '(frac, rest) ← (match r with
                   | "."%char :: r' => d ← opt_digits (take_while in_run r'); mret (d, drop_while in_run r')
                   | _ => Some ([], r)
                   end);
  match (whole ++ frac)%list with
  | [] => None
  | ds => e ← exponent_part rest; decimal_value ds (e - Z.of_nat (length frac))
  end.

Definition unsigned_float (l : list ascii) : option pyfloat :=
  let word := py_lower (of_chars l) in
  if String.eqb word "inf" || String.eqb word "infinity" then Some PInf
  else if String.eqb word "nan" then Some NaN
  else decimal l.

Definition fneg (x : pyfloat) : pyfloat :=
  match x with Fin q => Fin (Qopp q) | PInf => NInf | NInf => PInf | NaN => NaN end.

Definition py_float (s : string) : option pyfloat :=
  match strip_chars (chars s) with
  | "-"%char :: l => fneg <$> unsigned_float l
  | "+"%char :: l => unsigned_float l
  | l => unsigned_float l
  end.

(** [v == z], for a number. *)
Definition json_is_int (v : json) (z : Z) : bool :=
  match v with
  | JInt x => x =? z
  | JBool b => (if b then 1 else 0) =? z
  | JFloat r => match py_float r with Some (Fin q) => Qeq_bool q (inject_Z z) | _ => false end
  | _ => false
  end.

(** [int(v)] for a decoded value. *)
Definition py_int_of (v : json) : res exn Z :=
  match v with
  | JInt z => Ok z
  | JBool b => Ok (if b then 1 else 0)
  | JStr s => match py_int s with Some z => Ok z | None => Raise ValueError end
  | JFloat r =>
      match py_float r with
      | Some (Fin q) => Ok (Z.quot (Qnum q) (Zpos (Qden q)))
      | Some NaN | None => Raise ValueError
      | Some _ => Raise OverflowError
      end
  | _ => Raise TypeError
  end.

(** ** Parsing *)

Definition LEGACY_Z_TAG_PUBKEY : string :=
  "82b75e474dda005e912bcbb910391c60c2b89cc7faf5d3c30b7c59a324973833".
Definition TAG_Z_TAG : string := "39998:" ++ LEGACY_Z_TAG_PUBKEY ++ ":tag".
Definition NOSTR_USER_TAG_Z_TAG : string := "39998:" ++ LEGACY_Z_TAG_PUBKEY ++ ":nostr-user-tag".
Definition TAGGING_KIND : Z := 39999.
Definition APPLY_THRESHOLD : Q := 1 # 2.
Definition DISPUTE_THRESHOLD : Q := - 1 # 2.

Record TagElement := {
  el_event_id : string;
  author_pubkey : string;
  slug : string;
  el_name : string;
  el_description : string;
  el_created : Z;
}.

Record UserTagging := {
  tg_event_id : string;
  asserter_pubkey : string;
  d_tag : string;
  target_pubkey : string;
  tag_event_id : string;
  polarity : pyfloat;
  tg_created : Z;
}.

(** [_is_hex64]: upper case passes, and the value is kept as it is. *)
Definition is_hex64 (v : json) : option string :=
  match v with
  | JStr s => if (String.length s =? 64)%nat && forallb is_hex_digit (chars (py_lower s)) then Some s else None
  | _ => None
  end.

(** [_first_tag_value]: the first that is nonempty text. *)
Definition first_text (vs : list json) : option string :=
  head (omap (fun v => match v with JStr s => if String.eqb s "" then None else Some s | _ => None end) vs).

Definition first_tag_text (event : json) (key : string) : res exn (option string) :=
  tags ← py_get "tags" event;
  vs ← tag_values (py_or tags (JList [])) key;
  mret (first_text vs).

Definition z_tag_of (event : json) : res exn (option string) := first_tag_text event "z".

Definition read_polarity (event : json) : res exn pyfloat :=
  raw ← first_tag_text event "polarity";
  mret (default (Fin 1) (raw ≫= py_float)).

Definition is_applied (p : pyfloat) : bool := py_fge p APPLY_THRESHOLD.
Definition is_disputed (p : pyfloat) : bool := py_fle p DISPUTE_THRESHOLD.
Definition is_neutral (p : pyfloat) : bool := negb (is_applied p) && negb (is_disputed p).

(** [json.loads] on text. *)
Class TagEnv := { json_loads : string -> res exn json }.

Section tagging.
Context `{TagEnv}.

(** [except (TypeError, ValueError): return None]. *)
Definition load_payload (raw : json) : res exn (option json) :=
  match raw with
  | JStr s =>
      match json_loads s with
      | Ok v => Ok (Some v)
      | Raise e => if bool_decide (e = TypeError \/ e = ValueError) then Ok None else Raise e
      end
  | _ => Ok None
  end.

Definition stripped_nonempty (v : json) : option string :=
  match v with JStr s => if String.eqb (py_strip s) "" then None else Some s | _ => None end.

(** The element of a payload, and the instant, once the event's ids are read. *)
Definition element_of_payload (event payload : json) (event_id author : string) : res exn (option TagElement) :=
  match payload with
  | JObj d =>
      match dget "tag" d with
      | JObj tag =>
          match stripped_nonempty (dget "slug" tag) with
          | None => mret None
          | Some slug =>
              at_ ← py_get "created_at" event;
              created ← py_int_of (py_or at_ (JInt 0));
              mret (Some {| el_event_id := event_id; author_pubkey := author; slug := slug;
                            el_name := default slug (stripped_nonempty (dget "name" tag));
                            el_description := match dget "description" tag with JStr s => s | _ => "" end;
                            el_created := created |})
          end
      | _ => mret None
      end
  | _ => mret None
  end.

Definition parse_tag_element (event : json) : res exn (option TagElement) :=
  z ← z_tag_of event;
  if negb (bool_decide (z = Some TAG_Z_TAG)) then mret None
  else
    event_id ← py_get "id" event;
    author ← py_get "pubkey" event;
    match is_hex64 event_id, is_hex64 author with
    | Some event_id, Some author =>
        json_tag ← first_tag_text event "json";
        content ← py_get "content" event;
        payload ← load_payload (match json_tag with Some s => JStr s | None => py_or content (JStr "") end);
        match payload with
        | None => mret None
        | Some payload => element_of_payload event payload event_id author
        end
    | _, _ => mret None
    end.

Definition parse_user_tagging (event : json) : res exn (option UserTagging) :=
  z ← z_tag_of event;
  if negb (bool_decide (z = Some NOSTR_USER_TAG_Z_TAG)) then mret None
  else
    event_id ← py_get "id" event;
    asserter ← py_get "pubkey" event;
    match is_hex64 event_id, is_hex64 asserter with
    | Some event_id, Some asserter =>
        p ← first_tag_text event "p";
        e ← first_tag_text event "e";
        match p ≫= (fun s => is_hex64 (JStr s)), e ≫= (fun s => is_hex64 (JStr s)) with
        | Some target, Some tag_event_id =>
            d ← first_tag_text event "d";
            pol ← read_polarity event;
            at_ ← py_get "created_at" event;
            created ← py_int_of (py_or at_ (JInt 0));
            mret (Some {| tg_event_id := event_id; asserter_pubkey := asserter;
                          d_tag := default (target ++ ":" ++ tag_event_id) d;
                          target_pubkey := target; tag_event_id := tag_event_id;
                          polarity := pol; tg_created := created |})
        | _, _ => mret None
        end
    | _, _ => mret None
    end.
End tagging.

(** ** The two tables *)

(** Elements by their coordinate (author, slug), taggings by (asserter, d-tag):
    the unique constraint and the primary key the upserts name. *)
Record TagStore := {
  nostr_tag_element : gmap (string * string) TagElement;
  nostr_user_tagging : gmap (string * string) UserTagging;
}.

Definition coordinate (e : TagElement) : string * string := (author_pubkey e, slug e).
Definition stance_key (t : UserTagging) : string * string := (asserter_pubkey t, d_tag t).

(** What a parameter of the column's type may be: no NUL in text, 32 bits. *)
Definition pg_text (s : string) : bool := forallb (fun c => negb (chr_code c =? 0)) (chars s).
Definition pg_int (z : Z) : bool := (- 2 ^ 31 <=? z) && (z <? 2 ^ 31).
Definition element_fits (e : TagElement) : bool :=
  pg_text (slug e) && pg_text (el_name e) && pg_text (el_description e) && pg_int (el_created e).
Definition tagging_fits (t : UserTagging) : bool := pg_text (d_tag t) && pg_int (tg_created t).

(** The primary key [event_id] is held by a row at another coordinate. *)
Definition event_id_taken (st : TagStore) (e : TagElement) : bool :=
  existsb (fun kv => negb (bool_decide (kv.1 = coordinate e)) && String.eqb (el_event_id kv.2) (el_event_id e))
    (map_to_list (nostr_tag_element st)).

(** [UPDATE nostr_user_tagging SET tag_event_id = new WHERE tag_event_id = old]. *)
Definition repoint (old new : string) (t : UserTagging) : UserTagging :=
  if String.eqb (tag_event_id t) old then
    {| tg_event_id := tg_event_id t; asserter_pubkey := asserter_pubkey t; d_tag := d_tag t;
       target_pubkey := target_pubkey t; tag_event_id := new; polarity := polarity t; tg_created := tg_created t |}
  else t.

Definition upsert_tag_element_on_db (element : TagElement) : TX TagStore unit := fun st =>
  let prior := nostr_tag_element st !! coordinate element in
  if negb (element_fits element) then (Raise (DbError DataError), st)
  else match prior with
  | Some p =>
      if el_created p <? el_created element then
        if event_id_taken st element then (Raise (DbError IntegrityError), st)
        else
          (Ok tt, {| nostr_tag_element := <[coordinate element := element]> (nostr_tag_element st);
                     nostr_user_tagging :=
                       if String.eqb (el_event_id p) (el_event_id element) then nostr_user_tagging st
                       else repoint (el_event_id p) (el_event_id element) <$> nostr_user_tagging st |})
      else (Ok tt, st)
  | None =>
      if event_id_taken st element then (Raise (DbError IntegrityError), st)
      else (Ok tt, {| nostr_tag_element := <[coordinate element := element]> (nostr_tag_element st);
                      nostr_user_tagging := nostr_user_tagging st |})
  end.

Definition upsert_user_tagging_on_db (tagging : UserTagging) : TX TagStore unit := fun st =>
  if negb (tagging_fits tagging) then (Raise (DbError DataError), st)
  else
    let put := (Ok tt, {| nostr_tag_element := nostr_tag_element st;
                          nostr_user_tagging := <[stance_key tagging := tagging]> (nostr_user_tagging st) |}) in
    match nostr_user_tagging st !! stance_key tagging with
    | Some old => if tg_created old <? tg_created tagging then put else (Ok tt, st)
    | None => put
    end.

(** [process_event_kind_39999]: one session, at most one upsert. *)
Definition process_event_kind_39999 `{TagEnv} (event : json) : act TagStore unit :=
  element ← (Ret (parse_tag_element event) : act TagStore _);
  tagging ← (Ret (parse_user_tagging event) : act TagStore _);
  match element, tagging with
  | Some e, _ => session (upsert_tag_element_on_db e)
  | None, Some t => session (upsert_user_tagging_on_db t)
  | None, None => mret tt
  end.

(** *** Reading *)

Definition tagging_rows (st : TagStore) : list UserTagging := (map_to_list (nostr_user_tagging st)).*2.
Definition element_rows (st : TagStore) : list TagElement := (map_to_list (nostr_tag_element st)).*2.

Definition count_taggings_on_db : TX TagStore Z := reads (fun st => Z.of_nat (length (tagging_rows st))).

Record DictionaryEntry := {
  de_tag_event_id : string;
  de_tag_author_pubkey : string;
  de_slug : string;
  de_name : string;
  de_description : string;
  uses : Z;
}.

(** The taggings one group of the query counts. *)
Definition counted_use (qualifying : list string) (event_id : string) (t : UserTagging) : bool :=
  String.eqb (tag_event_id t) event_id && bool_decide (asserter_pubkey t ∈ qualifying)
  && (pg_fge (polarity t) APPLY_THRESHOLD || py_fle (polarity t) DISPUTE_THRESHOLD).

Definition asserters_of (rows : list UserTagging) : gset string := list_to_set (asserter_pubkey <$> rows).

Definition uses_of (st : TagStore) (qualifying : list string) (event_id : string) : Z :=
  Z.of_nat (size (asserters_of (base.filter (fun t => counted_use qualifying event_id t = true) (tagging_rows st)))).

Definition entry_of (st : TagStore) (qualifying : list string) (e : TagElement) : DictionaryEntry :=
  {| de_tag_event_id := el_event_id e; de_tag_author_pubkey := author_pubkey e; de_slug := slug e;
     de_name := el_name e; de_description := el_description e; uses := uses_of st qualifying (el_event_id e) |}.

(** [ORDER BY uses DESC, event_id ASC]. *)
Definition entry_le (a b : DictionaryEntry) : bool :=
  (uses b <? uses a) || (uses a =? uses b) && String.leb (de_tag_event_id a) (de_tag_event_id b).

(** An element nobody counted forms no group. *)
Definition get_dictionary_on_db (qualifying : list string) (min_uses : Z) : TX TagStore (list DictionaryEntry) :=
  reads (fun st =>
    match qualifying with
    | [] => []
    | _ => stable_sort entry_le
             (base.filter (fun d => 1 <= uses d /\ min_uses <= uses d) (entry_of st qualifying <$> element_rows st))
    end).

(** The queries without ORDER BY: [row_order] is what the server made of them. *)
Class RowOrder := { row_order : forall {A}, list A -> list A }.

Section reads.
Context `{RowOrder}.

Definition get_asserter_pubkeys_on_db : TX TagStore (list string) :=
  reads (fun st => row_order (elements (asserters_of (tagging_rows st)))).

Definition get_taggings_for_tag_on_db (event_id : string) (qualifying : list string)
  : TX TagStore (list (string * pyfloat * string)) :=
  reads (fun st =>
    match qualifying with
    | [] => []
    | _ => (fun t => (target_pubkey t, polarity t, asserter_pubkey t))
             <$> row_order (base.filter (fun t => tag_event_id t = event_id /\ asserter_pubkey t ∈ qualifying)
                              (tagging_rows st))
    end).
End reads.

(** ** Reading floats, by example *)

Example float_half : py_float "  0.5 " = Some (Fin (rn (5 # 10))).
Proof. by vm_compute. Qed.
Example float_minus : match py_float "-1e0" with Some (Fin q) => Qeq_bool q (-1) | _ => false end = true.
Proof. by vm_compute. Qed.
Example float_words : (py_float "NaN", py_float "-Infinity", py_float "1__0", py_float ".", py_float "1e999")
  = (Some NaN, Some NInf, None, None, Some PInf).
Proof. by vm_compute. Qed.
