(* ===== verification/TaggingProps.v ===== *)
(** * What the tables of taggings hold

    [latest_wins]: whatever order events arrive in, and however often, each
    coordinate ends with the newest of the elements that fit its columns, the first
    delivered of them when several are equally new, and each stance the same with
    its taggings.  [edits_keep_assertions]: an assertion on the current element of a
    coordinate stays on the current one through every edit.  The last two
    examples are the cases the tables do not cover. *)

From Stdlib Require Import Ascii String QArith.
From S2P Require Import Prelude Json Binary64 Atomic NostrTags Tagging.
From stdpp Require Import list.
Local Open Scope string_scope.
Local Open Scope Z_scope.

(** ** Ingestion of a sequence *)

Inductive tag_event := Elem (e : TagElement) | Stance (t : UserTagging).

Definition upsert (ev : tag_event) : TX TagStore unit :=
  match ev with Elem e => upsert_tag_element_on_db e | Stance t => upsert_user_tagging_on_db t end.

(** Each in a session of its own; a refused one leaves nothing. *)
Definition ingest (st : TagStore) (evs : list tag_event) : TagStore :=
  foldl (fun st ev => (committed (upsert ev) st).2) st evs.

Definition empty_store : TagStore := {| nostr_tag_element := ∅; nostr_user_tagging := ∅ |}.

(** A row but for the element it points at. *)
Definition stance_of (t : UserTagging) : string * string * string * string * pyfloat * Z :=
  (tg_event_id t, asserter_pubkey t, d_tag t, target_pubkey t, polarity t, tg_created t).
Definition stance_coordinate (s : string * string * string * string * pyfloat * Z) : string * string :=
  let '(_, asserter, d, _, _, _) := s in (asserter, d).

(** What an upsert gets past the columns. *)
Definition fitting_elements (evs : list tag_event) : list TagElement :=
  omap (fun ev => match ev with Elem e => if element_fits e then Some e else None | Stance _ => None end) evs.
Definition fitting_stances (evs : list tag_event) : list (string * string * string * string * pyfloat * Z) :=
  omap (fun ev => match ev with Stance t => if tagging_fits t then Some (stance_of t) else None | Elem _ => None end) evs.

(** An id is the hash of its event. *)
Definition well_named (evs : list tag_event) : Prop :=
  forall e e', Elem e ∈ evs -> Elem e' ∈ evs -> el_event_id e = el_event_id e' -> e = e'.

(** ** Keeping the newest of each key *)

Section newest.
Context {K A : Type} `{Countable K} (key : A -> K) (clock : A -> Z).

(** [x] is the first delivered of the newest under its key. *)
Definition first_newest (l : list A) (x : A) : Prop :=
  exists before after, l = (before ++ x :: after)%list
    /\ (forall y, y ∈ before -> key y = key x -> clock y < clock x)
    /\ forall y, y ∈ after -> key y = key x -> clock y <= clock x.

Definition clocks_differ (l : list A) : Prop :=
  forall x y, x ∈ l -> y ∈ l -> key x = key y -> clock x = clock y -> x = y.

Definition put_newer (m : gmap K A) (x : A) : gmap K A :=
  match m !! key x with
  | Some old => if clock old <? clock x then <[key x := x]> m else m
  | None => <[key x := x]> m
  end.

Lemma first_newest_elem l x : first_newest l x -> x ∈ l /\ forall y, y ∈ l -> key y = key x -> clock y <= clock x.
Proof.
  intros (before & after & -> & Hb & Ha). split; [set_solver|].
  intros y [Hy|[->|Hy]%elem_of_cons]%elem_of_app Hk; [specialize (Hb y Hy Hk)| |specialize (Ha y Hy Hk)]; lia.
Qed.

Lemma first_newest_unique l x y : first_newest l x -> first_newest l y -> key x = key y -> x = y.
Proof.
  intros (b1 & a1 & -> & Hb1 & Ha1) (b2 & a2 & E & Hb2 & Ha2) Hk.
  apply app_eq_inv in E as [(c & -> & Ea)|(c & -> & Ea)]; (destruct c as [|z c]; injection Ea as -> Ea; [done|]).
  - rewrite Ea in Ha2. specialize (Ha2 x ltac:(set_solver) Hk). specialize (Hb1 z ltac:(set_solver) (eq_sym Hk)). lia.
  - rewrite Ea in Ha1. specialize (Ha1 y ltac:(set_solver) (eq_sym Hk)). specialize (Hb2 z ltac:(set_solver) Hk). lia.
Qed.

Lemma first_newest_here l x : (forall y, y ∈ l -> key y = key x -> clock y < clock x) -> first_newest (l ++ [x]) x.
Proof. intros Hl. exists l, []. split; [done|]. split; [done|]. set_solver. Qed.

Lemma first_newest_snoc l x z : first_newest l x -> (key z = key x -> clock z <= clock x) -> first_newest (l ++ [z]) x.
Proof.
  intros (b & a & -> & Hb & Ha) Hz. exists b, (a ++ [z])%list. split; [by rewrite <- app_assoc|]. split; [done|].
  intros y [Hy| ->%list_elem_of_singleton]%elem_of_app; auto.
Qed.

Lemma newest_table l :
  let m := foldl put_newer ∅ l in
  (forall k x, m !! k = Some x -> key x = k /\ first_newest l x) /\ forall x, x ∈ l -> is_Some (m !! key x).
Proof.
  induction l as [|z l [IH1 IH2]] using rev_ind; [split; simpl; [intros k x; by rewrite lookup_empty|set_solver]|].
  cbv zeta in *. rewrite foldl_app. simpl. set (m := foldl put_newer ∅ l) in *.
  assert (Hput : (exists old, m !! key z = Some old /\ clock z <= clock old /\ put_newer m z = m)
    \/ (forall old, m !! key z = Some old -> clock old < clock z) /\ put_newer m z = <[key z := z]> m).
  { unfold put_newer. destruct (m !! key z) as [old|] eqn:E; [|right; by split].
    destruct (Z.ltb_spec (clock old) (clock z)); [right|left; by exists old]. split; [|done]. intros old' [= ->]. lia. }
  destruct Hput as [(old & Eo & Hle & ->)|[Hold ->]]; split.
  - intros k x E. destruct (IH1 k x E) as [<- Hx]. split; [done|]. apply first_newest_snoc; [done|].
    intros Hk. rewrite Hk in Eo. simplify_eq. lia.
  - intros x [Hx| ->%list_elem_of_singleton]%elem_of_app; [by apply IH2|by exists old].
  - intros k x [[<- <-]|[Hne E]]%lookup_insert_Some.
    + split; [done|]. apply first_newest_here. intros y Hy Hk. destruct (IH2 y Hy) as [old Ey].
      destruct (IH1 _ _ Ey) as [Hko [_ Hmax]%first_newest_elem]. specialize (Hmax y Hy (eq_sym Hko)).
      rewrite Hk in Ey. specialize (Hold old Ey). lia.
    + destruct (IH1 k x E) as [<- Hx]. split; [done|]. by apply first_newest_snoc.
  - intros x [Hx| ->%list_elem_of_singleton]%elem_of_app; [|rewrite lookup_insert_eq; eauto].
    apply lookup_insert_is_Some'. right. by apply IH2.
Qed.

Lemma newest_row l x : foldl put_newer ∅ l !! key x = Some x <-> first_newest l x.
Proof.
  destruct (newest_table l) as [H1 H2]. split; [by intros [_ ?]%H1|]. intros Hx.
  destruct (H2 x (proj1 (first_newest_elem l x Hx))) as [y Ey]. rewrite Ey. f_equal.
  destruct (H1 _ _ Ey) as [Hk Hy]. by apply (first_newest_unique l).
Qed.

(** With distinct clocks only the set of what was delivered matters. *)
Lemma newest_any_order l l' : clocks_differ l -> (forall x, x ∈ l' <-> x ∈ l) -> foldl put_newer ∅ l' = foldl put_newer ∅ l.
Proof.
  intros Hc Hsame. apply map_eq. intros k. destruct (newest_table l) as [H1 H2], (newest_table l') as [H1' H2'].
  cbv zeta in *. destruct (foldl put_newer ∅ l' !! k) as [x|] eqn:E'.
  - destruct (H1' k x E') as [<- [Hx Hmx]%first_newest_elem]. destruct (H2 x) as [y Ey]; [by apply Hsame|].
    rewrite Ey. f_equal. destruct (H1 _ _ Ey) as [Hk [Hy Hmy]%first_newest_elem]. apply Hsame in Hx.
    apply Hc; [done..|]. specialize (Hmy x Hx (eq_sym Hk)). specialize (Hmx y ltac:(by apply Hsame) Hk). lia.
  - destruct (foldl put_newer ∅ l !! k) as [y|] eqn:E; [|done]. destruct (H1 k y E) as [<- [Hy _]%first_newest_elem].
    destruct (H2' y) as [x Ex]; [by apply Hsame|]. congruence.
Qed.
End newest.

(** ** One event *)

Definition element_newer := put_newer coordinate el_created.
Definition stance_newer := put_newer stance_coordinate snd.

(** The tables are the newest of what came. *)
Definition newest (evs : list tag_event) (st : TagStore) : Prop :=
  nostr_tag_element st = foldl element_newer ∅ (fitting_elements evs)
  /\ stance_of <$> nostr_user_tagging st = foldl stance_newer ∅ (fitting_stances evs).

Lemma stance_of_repoint old new t : stance_of (repoint old new t) = stance_of t.
Proof. unfold repoint. by destruct (String.eqb _ _). Qed.

Lemma elem_of_fitting evs e : e ∈ fitting_elements evs -> Elem e ∈ evs.
Proof.
  intros ([x|t] & Hx & E)%list_elem_of_omap; [|done]. destruct (element_fits x); [|done]. by injection E as ->.
Qed.

Lemma event_id_free evs st e :
  newest evs st -> well_named (evs ++ [Elem e]) -> event_id_taken st e = false.
Proof.
  intros [He _] Hn. unfold event_id_taken. apply not_true_iff_false. rewrite existsb_map.
  intros (k & x & E & [Hk Hid]%andb_true_iff). apply String.eqb_eq in Hid. rewrite He in E.
  destruct (newest_table coordinate el_created (fitting_elements evs)) as [H1 _].
  destruct (H1 k x E) as [<- [Hin _]%first_newest_elem]. apply elem_of_fitting in Hin.
  rewrite (Hn x e ltac:(set_solver) ltac:(set_solver) Hid), bool_decide_true in Hk; done.
Qed.

Lemma upsert_element_newest st e : event_id_taken st e = false -> element_fits e = true ->
  let st' := (committed (upsert (Elem e)) st).2 in
  nostr_tag_element st' = element_newer (nostr_tag_element st) e
  /\ stance_of <$> nostr_user_tagging st' = stance_of <$> nostr_user_tagging st.
Proof.
  intros Hfree Hfit. unfold committed. simpl. unfold upsert_tag_element_on_db, element_newer, put_newer. rewrite Hfit, Hfree. simpl.
  destruct (nostr_tag_element st !! coordinate e) as [p|]; [destruct (Z.ltb _ _)|]; try done. simpl. split; [done|].
  destruct (String.eqb _ _); [done|]. rewrite <- map_fmap_compose. apply map_fmap_ext. intros k t _. apply stance_of_repoint.
Qed.

Lemma upsert_stance_newest st t : tagging_fits t = true ->
  let st' := (committed (upsert (Stance t)) st).2 in
  nostr_tag_element st' = nostr_tag_element st
  /\ stance_of <$> nostr_user_tagging st' = stance_newer (stance_of <$> nostr_user_tagging st) (stance_of t).
Proof.
  intros Hfit. unfold committed. simpl. unfold upsert_user_tagging_on_db, stance_newer, put_newer. rewrite Hfit, lookup_fmap.
  change (stance_coordinate (stance_of t)) with (stance_key t).
  destruct (nostr_user_tagging st !! stance_key t) as [p|]; simpl; [|by rewrite fmap_insert].
  destruct (Z.ltb _ _); simpl; [by rewrite fmap_insert|done].
Qed.

Lemma upsert_newest evs ev st :
  newest evs st -> well_named (evs ++ [ev]) -> newest (evs ++ [ev]) (committed (upsert ev) st).2.
Proof.
  intros Hnew Hnames. pose proof Hnew as [He Hs]. unfold newest, fitting_elements, fitting_stances.
  rewrite !omap_app, !foldl_app. fold (fitting_elements evs) (fitting_stances evs).
  destruct ev as [e|t]; cbn [omap list_omap foldl].
  - destruct (element_fits e) eqn:Hfit; cbn [foldl].
    + destruct (upsert_element_newest st e (event_id_free evs st e Hnew Hnames) Hfit) as [-> ->]. by rewrite He, Hs.
    + unfold committed. simpl. unfold upsert_tag_element_on_db. by rewrite Hfit.
  - destruct (tagging_fits t) eqn:Hfit; cbn [foldl].
    + destruct (upsert_stance_newest st t Hfit) as [-> ->]. by rewrite He, Hs.
    + unfold committed. simpl. unfold upsert_user_tagging_on_db. by rewrite Hfit.
Qed.

Lemma ingest_newest evs : well_named evs -> newest evs (ingest empty_store evs).
Proof.
  induction evs as [|ev evs IH] using rev_ind; intros Hnames; [split; simpl; [done|by rewrite fmap_empty]|].
  unfold ingest. rewrite foldl_app. simpl. apply upsert_newest; [|done].
  apply IH. intros e e' H1 H2. apply Hnames; set_solver.
Qed.

(** C23: what the two tables hold after any sequence of events, delivered from empty
    tables, in any order and with any repetitions, each stored in a session that does not
    fail.  The ids are taken to be hashes: two different elements have different ids.  The
    row of a coordinate is the newest of the elements that came for it and that the
    columns can hold (text without NUL, 32-bit clock; the others are refused and leave
    nothing), the one delivered first when several are equally new; the row of an
    (asserter, d-tag) is the same of the taggings, up to the element the row points at.
    So when no two of one row have the same clock the rows do not depend on delivery: any
    other sequence with the same events leaves the same ones. *)
Theorem latest_wins (evs : list tag_event) :
  well_named evs ->
  let elements evs := nostr_tag_element (ingest empty_store evs) in
  let stances evs := stance_of <$> nostr_user_tagging (ingest empty_store evs) in
  (forall e, elements evs !! coordinate e = Some e <-> first_newest coordinate el_created (fitting_elements evs) e)
  /\ (forall s, stances evs !! stance_coordinate s = Some s <-> first_newest stance_coordinate snd (fitting_stances evs) s)
  /\ (clocks_differ coordinate el_created (fitting_elements evs) ->
      clocks_differ stance_coordinate snd (fitting_stances evs) ->
      forall evs', (forall ev, ev ∈ evs' <-> ev ∈ evs) -> elements evs' = elements evs /\ stances evs' = stances evs).
Proof.
  intros Hn. cbv zeta. destruct (ingest_newest evs Hn) as [He Hs]. rewrite He, Hs. split_and!.
  - intros e. apply newest_row.
  - intros s. apply newest_row.
  - intros Hce Hcs evs' Hsame. destruct (ingest_newest evs') as [-> ->].
    { intros e e'. rewrite !Hsame. apply Hn. }
    split; (apply newest_any_order; [done|]); intros x; unfold fitting_elements, fitting_stances;
      rewrite !list_elem_of_omap; by setoid_rewrite Hsame.
Qed.

(** ** Edits *)

(** The primary key of the elements. *)
Definition ids_distinct (st : TagStore) : Prop :=
  forall k k' x x', nostr_tag_element st !! k = Some x -> nostr_tag_element st !! k' = Some x' ->
    el_event_id x = el_event_id x' -> k = k'.

Lemma event_id_not_taken st e k x :
  event_id_taken st e = false -> nostr_tag_element st !! k = Some x -> k <> coordinate e ->
  el_event_id x <> el_event_id e.
Proof.
  intros Hf E Hk Hid. apply not_true_iff_false in Hf. apply Hf. apply existsb_map. exists k, x.
  split; [done|]. simpl. rewrite bool_decide_false by done. simpl. by apply String.eqb_eq.
Qed.

Lemma ids_distinct_insert st e : ids_distinct st -> event_id_taken st e = false ->
  forall tg, ids_distinct {| nostr_tag_element := <[coordinate e := e]> (nostr_tag_element st); nostr_user_tagging := tg |}.
Proof.
  intros Hd Hfree tg k k' x x' E E' Hid. simpl in E, E'.
  apply lookup_insert_Some in E as [[<- <-]|[Hk Ek]]; apply lookup_insert_Some in E' as [[<- <-]|[Hk' Ek']].
  - done.
  - by destruct (event_id_not_taken st e k' x' Hfree Ek' (not_eq_sym Hk')).
  - by destruct (event_id_not_taken st e k x Hfree Ek (not_eq_sym Hk)).
  - by eapply Hd.
Qed.

(** The tagging at [k] says [s] of the element at coordinate [c]. *)
Definition attached (st : TagStore) (k c : string * string) s : Prop :=
  exists r p, nostr_user_tagging st !! k = Some r /\ stance_of r = s
    /\ nostr_tag_element st !! c = Some p /\ tag_event_id r = el_event_id p.

Lemma upsert_attached ev st k c s :
  ids_distinct st -> attached st k c s -> (forall t, ev = Stance t -> stance_key t <> k) ->
  ids_distinct (committed (upsert ev) st).2 /\ attached (committed (upsert ev) st).2 k c s.
Proof.
  intros Hd (r & p & Er & Hs & Ep & Htag) Hother. unfold committed. destruct ev as [e|t]; simpl.
  - unfold upsert_tag_element_on_db. destruct (element_fits e); simpl; [|split; [done|by exists r, p]].
    destruct (nostr_tag_element st !! coordinate e) as [q|] eqn:Eq.
    2:{ destruct (event_id_taken st e) eqn:Ht; simpl; [split; [done|by exists r, p]|].
        split; [by apply ids_distinct_insert|]. exists r, p. split_and!; try done. simpl.
        rewrite lookup_insert_ne; [done|]. congruence. }
    destruct (Z.ltb_spec (el_created q) (el_created e)); simpl; [|split; [done|by exists r, p]].
    destruct (event_id_taken st e) eqn:Ht; simpl; [split; [done|by exists r, p]|].
    split; [by apply ids_distinct_insert|]. destruct (decide (c = coordinate e)) as [->|Hne].
    + rewrite Eq in Ep. injection Ep as ->. destruct (String.eqb_spec (el_event_id p) (el_event_id e)) as [Hid|Hid].
      * exists r, e. simpl. rewrite lookup_insert_eq. split_and!; congruence.
      * exists (repoint (el_event_id p) (el_event_id e) r), e. simpl.
        rewrite lookup_insert_eq, lookup_fmap, Er, stance_of_repoint. split_and!; try done.
        unfold repoint. by rewrite Htag, String.eqb_refl.
    + assert (Hpq : el_event_id p <> el_event_id q) by (intros Hid; by apply Hne, (Hd c (coordinate e) p q)).
      exists r, p. simpl. rewrite lookup_insert_ne by done. split_and!; try done.
      destruct (String.eqb _ _); [done|]. rewrite lookup_fmap, Er. simpl. f_equal. unfold repoint.
      destruct (String.eqb_spec (tag_event_id r) (el_event_id q)); [congruence|done].
  - unfold upsert_user_tagging_on_db. specialize (Hother t eq_refl).
    destruct (tagging_fits t); simpl; [|split; [done|by exists r, p]].
    destruct (nostr_user_tagging st !! stance_key t) as [old|]; [destruct (Z.ltb _ _)|]; simpl;
      (split; [done|]); exists r, p; split_and!; try done; simpl; by rewrite lookup_insert_ne.
Qed.

(** An edit of a tag orphans no assertion: a tagging that points at the current
    element of a coordinate keeps its stance and points at the current element of
    that coordinate after any further events, other than a newer tagging in its own
    place. *)
Theorem edits_keep_assertions (evs : list tag_event) (st : TagStore) (k c : string * string) s :
  ids_distinct st -> attached st k c s -> (forall t, Stance t ∈ evs -> stance_key t <> k) ->
  attached (ingest st evs) k c s.
Proof.
  unfold ingest. revert st. induction evs as [|ev evs IH]; intros st Hd Ha Hother; simpl; [done|].
  destruct (upsert_attached ev st k c s Hd Ha) as [Hd' Ha'].
  { intros t ->. apply Hother. set_solver. }
  apply IH; [done|done|]. intros t Ht. apply Hother. set_solver.
Qed.

(** ** A small history *)

Definition podcaster (event_id name : string) (at_ : Z) : TagElement :=
  {| el_event_id := event_id; author_pubkey := "alice"; slug := "podcaster"; el_name := name;
     el_description := ""; el_created := at_ |}.
Definition bob_tags_carol (event_id tag : string) (pol : pyfloat) (at_ : Z) : UserTagging :=
  {| tg_event_id := event_id; asserter_pubkey := "bob"; d_tag := "carol-podcaster"; target_pubkey := "carol";
     tag_event_id := tag; polarity := pol; tg_created := at_ |}.

Definition history : list tag_event :=
  [Elem (podcaster "e2" "Podcaster" 20); Stance (bob_tags_carol "t2" "e2" (Fin (-1)) 12);
   Elem (podcaster "e1" "Pod" 10); Stance (bob_tags_carol "t1" "e1" (Fin 1) 11);
   Elem (podcaster "e2" "Podcaster" 20)].

(** The elements of one edit, both of one second. *)
Definition same_second : list tag_event := [Elem (podcaster "e1" "Pod" 10); Elem (podcaster "e2" "Podcaster" 10)].

Ltac each_of H := repeat (apply elem_of_cons in H as [H|H]; [try discriminate H|]); [..|by apply not_elem_of_nil in H].

Lemma latest_wins_witness :
  let elements evs := nostr_tag_element (ingest empty_store evs) in
  let stances evs := stance_of <$> nostr_user_tagging (ingest empty_store evs) in
  elements history !! ("alice", "podcaster") = Some (podcaster "e2" "Podcaster" 20)
  /\ stances history !! ("bob", "carol-podcaster") = Some (stance_of (bob_tags_carol "t2" "e2" (Fin (-1)) 12))
  /\ elements (reverse history) = elements history
  /\ elements same_second !! ("alice", "podcaster") = Some (podcaster "e1" "Pod" 10).
Proof.
  assert (Hn : well_named history) by (intros e e' He He'; each_of He; each_of He'; by simplify_eq).
  assert (Hn' : well_named same_second) by (intros e e' He He'; each_of He; each_of He'; by simplify_eq).
  destruct (latest_wins history Hn) as (H1 & H2 & H3). split_and!.
  - apply (proj2 (H1 (podcaster "e2" "Podcaster" 20))).
    exists [], [podcaster "e1" "Pod" 10; podcaster "e2" "Podcaster" 20]. split; [done|].
    split; intros y Hy; [by apply not_elem_of_nil in Hy|]. each_of Hy; subst; by vm_compute.
  - apply (proj2 (H2 (stance_of (bob_tags_carol "t2" "e2" (Fin (-1)) 12)))).
    exists [], [stance_of (bob_tags_carol "t1" "e1" (Fin 1) 11)]. split; [done|].
    split; intros y Hy; [by apply not_elem_of_nil in Hy|]. each_of Hy; subst; by vm_compute.
  - apply H3; [intros x y Hx Hy _ Ec..|]; [each_of Hx; each_of Hy; by simplify_eq..|].
    intros ev. apply elem_of_reverse.
  - destruct (latest_wins same_second Hn') as (H1' & _). apply (proj2 (H1' (podcaster "e1" "Pod" 10))).
    exists [], [podcaster "e2" "Podcaster" 10]. split; [done|].
    split; intros y Hy; [by apply not_elem_of_nil in Hy|]. each_of Hy; subst; by vm_compute.
Defined.

Definition applied : TagStore := ingest empty_store [Elem (podcaster "e1" "Pod" 10); Stance (bob_tags_carol "t1" "e1" (Fin 1) 11)].

Lemma edits_keep_assertions_witness :
  attached (ingest applied [Elem (podcaster "e2" "Podcaster" 20)]) ("bob", "carol-podcaster") ("alice", "podcaster")
    (stance_of (bob_tags_carol "t1" "e1" (Fin 1) 11)).
Proof.
  apply edits_keep_assertions.
  - intros k k' x x' E E' _. change (<[("alice", "podcaster") := podcaster "e1" "Pod" 10]> (∅ : gmap (string * string) TagElement) !! k = Some x) in E.
    change (<[("alice", "podcaster") := podcaster "e1" "Pod" 10]> (∅ : gmap (string * string) TagElement) !! k' = Some x') in E'.
    apply lookup_insert_Some in E as [[<- _]|[_ E]]; [|by rewrite lookup_empty in E].
    by apply lookup_insert_Some in E' as [[<- _]|[_ E']]; [|rewrite lookup_empty in E'].
  - exists (bob_tags_carol "t1" "e1" (Fin 1) 11), (podcaster "e1" "Pod" 10). by vm_compute.
  - intros t Ht. set_solver.
Defined.

(** A tagging that arrives after the edit of the element it names points at an id
    no row has: the same three events, in the order the publishers made them and
    in the other, leave two different tables. *)
Example late_tagging_orphaned :
  let edit := Elem (podcaster "e2" "Podcaster" 20) in
  let tagging := Stance (bob_tags_carol "t1" "e1" (Fin 1) 11) in
  let first := Elem (podcaster "e1" "Pod" 10) in
  let uses st := uses_of st ["bob"] "e2" in
  uses (ingest empty_store [first; tagging; edit]) = 1 /\ uses (ingest empty_store [first; edit; tagging]) = 0.
Proof. by vm_compute. Qed.

(** Postgres holds NaN to be at least 0.5: a polarity Python calls neutral counts as
    a use. *)
Example nan_counts_as_use :
  is_neutral NaN = true
  /\ uses_of (ingest empty_store [Elem (podcaster "e1" "Pod" 10); Stance (bob_tags_carol "t1" "e1" NaN 11)]) ["bob"] "e1" = 1.
Proof. by vm_compute. Qed.
