(* ===== verification/NostrGraph.v ===== *)
(** * The social graph: events into Neo4j and Redis

    [src/app/message_queue_tasks/process_strfry_event.py] turns each event the relay
    accepted into edges of Neo4j and members of Redis sets, which GrapeRank reads;
    [services/report_relay_service.py] asks the relay what an author still reports;
    [message_queue_tasks/backfill_redis_relationships.py] rebuilds the sets from
    the edges; [consume_strfry_plugin_messages] is the loop in front.

    [Net] is the nodes and edges of Neo4j, the members of the Redis sets, the done
    marker, the completed transfers and the tables of taggings.  A handler is an
    [act]: one unit per managed transaction of Neo4j and per Redis command, or per
    MULTI block.  Only text can be the [pubkey] of an event the relay accepted; the
    handlers stop on anything else. *)

From Stdlib Require Import Ascii String QArith.
From S2P Require Import Prelude Json Binary64 Atomic Tables NostrTags Tagging.
From stdpp Require Import list.
Local Open Scope string_scope.
Local Open Scope Z_scope.

(** ** State *)

Inductive Rel := FOLLOWS | MUTES | REPORTS | DESIGNATES | ZAPS_VIA.
#[export] Instance Rel_eq_dec : EqDecision Rel.
Proof. solve_decision. Defined.
Definition rel_code (r : Rel) : nat :=
  match r with FOLLOWS => 0 | MUTES => 1 | REPORTS => 2 | DESIGNATES => 3 | ZAPS_VIA => 4 end%nat.
Definition rel_of (n : nat) : option Rel :=
  match n with
  | 0 => Some FOLLOWS | 1 => Some MUTES | 2 => Some REPORTS | 3 => Some DESIGNATES | 4 => Some ZAPS_VIA
  | _ => None
  end%nat.
#[export] Instance Rel_countable : Countable Rel := inj_countable rel_code rel_of (fun r => match r with FOLLOWS | MUTES | REPORTS | DESIGNATES | ZAPS_VIA => eq_refl end).

Abbreviation edge := (Rel * string * string)%type.

Record Net := {
  nodes : gset string;
  edges : gset edge;
  redis_sets : gset (string * string);
  done_marker : bool;
  transfers_completed : gmap Z bool;
  tag_store : TagStore;
}.

Definition with_graph (f : gset string -> gset string) (g : gset edge -> gset edge) (n : Net) : Net :=
  {| nodes := f (nodes n); edges := g (edges n); redis_sets := redis_sets n; done_marker := done_marker n;
     transfers_completed := transfers_completed n; tag_store := tag_store n |}.
Definition with_sets (f : gset (string * string) -> gset (string * string)) (n : Net) : Net :=
  {| nodes := nodes n; edges := edges n; redis_sets := f (redis_sets n); done_marker := done_marker n;
     transfers_completed := transfers_completed n; tag_store := tag_store n |}.

Definition FOLLOWED_BY_KEY_PREFIX : string := "followed_by:".
Definition MUTED_BY_KEY_PREFIX : string := "muted_by:".
Definition REPORTED_BY_KEY_PREFIX : string := "reported_by:".
Definition DESIGNATES_KEY_PREFIX : string := "designates:".
Definition ZAPS_VIA_KEY_PREFIX : string := "zaps_via:".

(** ** Neo4j, one managed transaction each *)

(** The targets of one author's edges. *)
Definition targets_of (r : Rel) (author : string) (E : gset edge) : gset string :=
  set_map (fun e : edge => e.2) (filter (fun e : edge => e.1 = (r, author)) E).

Definition edges_to (r : Rel) (author : string) (targets : list string) : gset edge :=
  list_to_set ((fun t => (r, author, t)) <$> targets).

(** [MERGE (pub) ... UNWIND targets ... MERGE (pub)-[:r]->(t)]. *)
Definition merge_edges (r : Rel) (pub : string) (targets : list string) : TX Net unit :=
  writes (with_graph (fun N => {[pub]} ∪ list_to_set targets ∪ N) (fun E => edges_to r pub targets ∪ E)).

(** [MATCH (pub)-[rel:r]->(old) WHERE NOT old.pubkey IN keep ... DELETE rel RETURN removed];
    with [keep = []] it is the query for an empty list. *)
Definition remove_edges (r : Rel) (pub : string) (keep : list string) : TX Net (list string) := fun n =>
  let removed := targets_of r pub (edges n) ∖ list_to_set keep in
  (Ok (elements removed), with_graph id (fun E => E ∖ edges_to r pub (elements removed)) n).

(** [MATCH (pub)-[rel:r]->(t) WHERE t.pubkey IN targets DELETE rel]. *)
Definition delete_edges (r : Rel) (pub : string) (targets : list string) : TX Net unit :=
  writes (with_graph id (fun E => E ∖ edges_to r pub targets)).

Definition current_report_targets (author : string) : TX Net (gset string) :=
  reads (fun n => targets_of REPORTS author (edges n)).

(** The statement of kind 10040: delete what is not listed, merge what is. *)
Definition designate (pub : string) (designated : list string) : TX Net unit :=
  match designated with
  | [] => writes (fun n => with_graph id (fun E => E ∖ edges_to DESIGNATES pub (elements (targets_of DESIGNATES pub E))) n)
  | _ => writes (with_graph (fun N => {[pub]} ∪ list_to_set designated ∪ N)
           (fun E => edges_to DESIGNATES pub designated
                     ∪ (E ∖ edges_to DESIGNATES pub (elements (targets_of DESIGNATES pub E ∖ list_to_set designated)))))
  end.

(** ** Redis *)

Definition sadd (key member : string) : TX Net unit := writes (with_sets (fun S => {[(key, member)]} ∪ S)).
Definition srem (key member : string) : TX Net unit := writes (with_sets (fun S => S ∖ {[(key, member)]})).

(** A pipeline outside MULTI: its commands, one after another. *)
Fixpoint pipe_execute (commands : list (TX Net unit)) : act Net unit :=
  match commands with [] => mret tt | c :: cs => _ ← Tx c Ret; pipe_execute cs end.

Definition update_reverse_sets (key_prefix publisher : string) (added removed : list string) : act Net unit :=
  pipe_execute (((fun pk => sadd (key_prefix ++ pk) publisher) <$> added)
                ++ ((fun pk => srem (key_prefix ++ pk) publisher) <$> removed))%list.

(** [pipe.delete(key); pipe.sadd(key, *members)] inside MULTI. *)
Definition replace_set (key : string) (members : list string) : TX Net unit :=
  writes (with_sets (fun S => list_to_set ((fun m => (key, m)) <$> members) ∪ filter (fun km => km.1 <> key) S)).

(** ** The relay ([services/report_relay_service.py]) *)

Definition REPORT_FETCH_LIMIT : Z := 10000.
Definition LIMIT_SENTINELS : list Z := [500; 100000; REPORT_FETCH_LIMIT].

(** The frames received: [None] does not decode.  A connection that fails or a
    deadline that passes is the end of the list. *)
Fixpoint read_reports (sub_id : string) (events : list json) (frames : list (option json)) : option (list json) :=
  match frames with
  | [] => None
  | Some (JList (m0 :: m1 :: rest)) :: fs =>
      if negb (json_is_str m1 sub_id) then read_reports sub_id events fs
      else if json_is_str m0 "EVENT" && negb (bool_decide (length rest = 0%nat))
      then read_reports sub_id (events ++ take 1 rest)%list fs
      else if json_is_str m0 "EOSE" then Some events
      else if json_is_str m0 "CLOSED" then None
      else read_reports sub_id events fs
  | _ :: fs => read_reports sub_id events fs
  end.

(** [None] is "unknown". *)
Definition fetch_author_user_reports (author : string) (frames : list (option json)) : option (list json) :=
  match read_reports ("report-recompute-" ++ String.substring 0 8 author) [] frames with
  | Some events => if bool_decide (Z.of_nat (length events) ∈ LIMIT_SENTINELS) then None else Some events
  | None => None
  end.

(** ** The handlers *)

(** What the relay sends when an author's reports are read on an event's account,
    and how JSON decodes. *)
Class GraphEnv := {
  report_frames : json -> list (option json);
  graph_tags :: TagEnv;
}.

Definition event_author (event : json) : res exn string :=
  v ← py_item "pubkey" event;
  match v with JStr s => Ok s | _ => Raise TypeError end.

Definition event_p_tags (event : json) : res exn (list string) :=
  tags ← py_get_or "tags" (JList []) event; p_tag_pubkeys tags.

Section handlers.
Context `{GraphEnv}.

Definition process_event_kind_1984 (event : json) : act Net unit :=
  publisher ← Ret (event_author event);
  reported ← Ret (extract_report_targets event);
  match reported with
  | [] => mret tt
  | _ =>
      _ ← Tx (merge_edges REPORTS publisher reported) Ret;
      update_reverse_sets REPORTED_BY_KEY_PREFIX publisher reported []
  end.

(** Kinds 3 and 10000 differ in the relation and the prefix only. *)
Definition process_list_event (r : Rel) (key_prefix : string) (event : json) : act Net unit :=
  publisher ← Ret (event_author event);
  listed ← Ret (event_p_tags event);
  match listed with
  | [] =>
      removed ← Tx (remove_edges r publisher []) Ret;
      update_reverse_sets key_prefix publisher [] removed
  | _ =>
      _ ← Tx (merge_edges r publisher listed) Ret;
      removed ← Tx (remove_edges r publisher listed) Ret;
      update_reverse_sets key_prefix publisher listed removed
  end.

Definition process_event_kind_10000 (event : json) : act Net unit :=
  process_list_event MUTES MUTED_BY_KEY_PREFIX event.
Definition process_event_kind_3 (event : json) : act Net unit :=
  process_list_event FOLLOWS FOLLOWED_BY_KEY_PREFIX event.

Definition is_list (v : json) : bool := match v with JList _ => true | _ => false end.

(** [[t for t in event.get("tags") or [] if isinstance(t, list)]]. *)
Definition list_tags (event : json) : res exn (list json) :=
  tags ← py_get "tags" event;
  l ← py_iter (py_or tags (JList []));
  mret (base.filter (fun t => is_list t = true) l).

Definition process_event_kind_10040 (event : json) : act Net unit :=
  publisher ← Ret (event_author event);
  tags ← Ret (list_tags event);
  designated ← Ret (parse_designated_pubkeys tags publisher);
  _ ← Tx (designate publisher designated) Ret;
  Tx (replace_set (DESIGNATES_KEY_PREFIX ++ publisher) designated) Ret.

Definition process_event_kind_5 (event : json) : act Net unit :=
  author ← Ret (event_author event);
  current ← Tx (current_report_targets author) Ret;
  if decide (current = ∅) then mret tt
  else
    match fetch_author_user_reports author (report_frames event) with
    | None => mret tt
    | Some reports =>
        desired ← Ret (surviving_report_targets reports author);
        let diff := diff_author_targets desired current in
        _ ← (if decide (to_remove diff = ∅) then mret tt
             else Tx (delete_edges REPORTS author (elements (to_remove diff))) Ret);
        _ ← (if decide (to_add diff = ∅) then mret tt
             else Tx (merge_edges REPORTS author (elements (to_add diff))) Ret);
        update_reverse_sets REPORTED_BY_KEY_PREFIX author (elements desired) (elements (to_remove diff))
    end.

(** A handler on the tables, as a handler on the whole. *)
Fixpoint on_tags {A} (p : act TagStore A) : act Net A :=
  match p with
  | Ret r => Ret r
  | Tx f k => Tx (fun n => let '(r, st) := f (tag_store n) in
                           (r, {| nodes := nodes n; edges := edges n; redis_sets := redis_sets n;
                                  done_marker := done_marker n; transfers_completed := transfers_completed n;
                                  tag_store := st |}))
                 (fun r => on_tags (k r))
  end.

Definition process_strfry_event (event : json) : act Net unit :=
  kind ← Ret (py_get "kind" event);
  if json_is_int kind 3 then process_event_kind_3 event
  else if json_is_int kind 10000 then process_event_kind_10000 event
  else if json_is_int kind 1984 then process_event_kind_1984 event
  else if json_is_int kind 5 then process_event_kind_5 event
  else if json_is_int kind DESIGNATION_KIND then process_event_kind_10040 event
  else if json_is_int kind TAGGING_KIND then on_tags (process_event_kind_39999 event)
  else mret tt.

(** One message of [consume_strfry_plugin_messages]: decoded, handled, and whatever
    goes wrong logged. *)
Definition consume_strfry_message (message : string) : act Net unit :=
  act_try (event ← Ret (json_loads message); process_strfry_event event) (fun _ => mret tt).

(** ** The rebuild ([backfill_redis_relationships.py]) *)

Definition PAGE_SIZE : nat := 2000.

Definition RELATIONSHIP_TO_PREFIX : list (Rel * string) :=
  [(FOLLOWS, FOLLOWED_BY_KEY_PREFIX); (MUTES, MUTED_BY_KEY_PREFIX); (REPORTS, REPORTED_BY_KEY_PREFIX)].
Definition FORWARD_RELATIONSHIP_TO_PREFIX : list (Rel * string) :=
  [(DESIGNATES, DESIGNATES_KEY_PREFIX); (ZAPS_VIA, ZAPS_VIA_KEY_PREFIX)].

(** One page: the next sources by key, each with its targets. *)
Definition read_page (r : Rel) (cursor : string) : TX Net (list (string * list string)) :=
  reads (fun n =>
    (fun s => (s, elements (targets_of r s (edges n))))
      <$> take PAGE_SIZE (stable_sort String.leb (elements (filter (fun s => str_lt cursor s = true) (nodes n))))).

Definition page_commands (prefix : string) (forward : bool) (page : list (string * list string)) : list (string * string) :=
  mjoin ((fun '(source, targets) =>
            (fun target => if forward then (prefix ++ source, target) else (prefix ++ target, source)) <$> targets) <$> page).

(** [if page_max_cursor is None or source > page_max_cursor], over the page. *)
Definition page_max (page : list (string * list string)) : option string :=
  foldl (fun m '(source, _) => match m with
                               | Some c => Some (if str_lt c source then source else c)
                               | None => Some source
                               end) None page.

(** The pages of one relation; [None] when [fuel] runs out.  Cutting the commands
    into pipelines of PIPELINE_FLUSH_EVERY does not change their sequence. *)
Fixpoint backfill_pages (fuel : nat) (r : Rel) (prefix : string) (forward : bool) (cursor : string) (edges_written : Z)
  : act Net (option Z) :=
  match fuel with
  | O => mret None
  | S fuel =>
      page ← Tx (read_page r cursor) Ret;
      _ ← pipe_execute ((fun '(k, m) => sadd k m) <$> page_commands prefix forward page);
      let written := edges_written + Z.of_nat (length (page_commands prefix forward page)) in
      match page_max page with
      | None => mret (Some written)
      | Some c => backfill_pages fuel r prefix forward c written
      end
  end.

Definition backfill_relationship (fuel : nat) (r : Rel) (prefix : string) (forward : bool) : act Net (option Z) :=
  backfill_pages fuel r prefix forward "" 0.

Fixpoint backfill_all (fuel : nat) (rels : list (Rel * string)) (forward : bool) : act Net (option unit) :=
  match rels with
  | [] => mret (Some tt)
  | (r, prefix) :: rest =>
      w ← backfill_relationship fuel r prefix forward;
      match w with None => mret None | Some _ => backfill_all fuel rest forward end
  end.

(** The kinds of [ev_kinds] (nostr_event_transferer.py). *)
Definition graph_kinds : list Z := [3; 10000; 1984; 5].

Definition is_graph_db_populated : TX Net bool :=
  reads (fun n => forallb (fun k => default false (transfers_completed n !! k)) graph_kinds).

(** A key that starts with one of the reverse prefixes exists. *)
Definition redis_has_relationship_data : TX Net bool :=
  reads (fun n => existsb (fun '(_, p) => existsb (fun km => String.prefix p km.1) (elements (redis_sets n)))
                    RELATIONSHIP_TO_PREFIX).

Definition set_done_marker : TX Net unit := writes (fun n =>
  {| nodes := nodes n; edges := edges n; redis_sets := redis_sets n; done_marker := true;
     transfers_completed := transfers_completed n; tag_store := tag_store n |}).

Inductive Backfill := AlreadyDone | NotPopulated | PartialState | Completed | OutOfFuel.

Definition backfill_redis_relationships_if_needed (fuel : nat) : act Net Backfill :=
  marked ← Tx (reads done_marker) Ret;
  if (marked : bool) then mret AlreadyDone
  else
    populated ← session is_graph_db_populated;
    if negb populated then mret NotPopulated
    else
      has_data ← Tx redis_has_relationship_data Ret;
      if (has_data : bool) then mret PartialState
      else
        a ← backfill_all fuel RELATIONSHIP_TO_PREFIX false;
        b ← match a with None => mret None | Some _ => backfill_all fuel FORWARD_RELATIONSHIP_TO_PREFIX true end;
        match b with
        | None => mret OutOfFuel
        | Some _ => _ ← Tx set_done_marker Ret; mret Completed
        end.
End handlers.
