(* ===== verification/NostrGraphProps.v ===== *)
(** * Redis mirrors Neo4j

    [graph_update] is what an event means: which edges its author has afterwards.
    [consumer_refines] says the consumer implements it, in Neo4j and in Redis alike,
    for any sequence of messages handled to the end.  [graph_typed] holds of every
    interleaving and failure.  [unreadable_relay_harmless] and [reconcile_exact] are
    the two sides of a deletion, [backfill_complete] the rebuild and its
    termination. *)

From Stdlib Require Import Ascii String QArith.
From S2P Require Import Prelude Json Atomic NostrTags Tagging NostrGraph Tables.
From stdpp Require Import list.
Local Open Scope string_scope.
Local Open Scope Z_scope.

(** ** The sets an edge appears in *)

Definition prefix_of (r : Rel) : string :=
  match r with
  | FOLLOWS => FOLLOWED_BY_KEY_PREFIX | MUTES => MUTED_BY_KEY_PREFIX | REPORTS => REPORTED_BY_KEY_PREFIX
  | DESIGNATES => DESIGNATES_KEY_PREFIX | ZAPS_VIA => ZAPS_VIA_KEY_PREFIX
  end.
Definition forward (r : Rel) : bool := match r with DESIGNATES | ZAPS_VIA => true | _ => false end.

(** The member that stands for an edge: of its target's set, or of its source's. *)
Definition member (r : Rel) (s t : string) : string * string :=
  if forward r then (prefix_of r ++ s, t) else (prefix_of r ++ t, s).

Lemma key_inj r r' a b : prefix_of r ++ a = prefix_of r' ++ b -> r = r' /\ a = b.
Proof.
  destruct r, r'; intros E; try discriminate E; split; try done; by apply (append_inj_l _ _ _ E).
Qed.

Lemma member_inj r r' s s' t t' : member r s t = member r' s' t' -> r = r' /\ s = s' /\ t = t'.
Proof.
  unfold member. destruct (forward r) eqn:Hr, (forward r') eqn:Hr'; intros [= Hk Hm]; apply key_inj in Hk as [<- ->]; subst;
    (by split_and!) || congruence.
Qed.

Lemma member_reverse r s t pk pub : forward r = false ->
  forall r', member r' s t = (prefix_of r ++ pk, pub) <-> r' = r /\ s = pub /\ t = pk.
Proof.
  intros Hr r'. assert (E : (prefix_of r ++ pk, pub) = member r pub pk) by (unfold member; by rewrite Hr).
  rewrite E. split; [by intros ?%member_inj|by intros (-> & -> & ->)].
Qed.

Definition mirrors (E : gset edge) (S : gset (string * string)) : Prop :=
  forall r s t, (r, s, t) ∈ E <-> member r s t ∈ S.
Definition mirrored (n : Net) : Prop := mirrors (edges n) (redis_sets n).

(** ** The statements, pointwise *)

Lemma elem_edges_to r pub ts e : e ∈ edges_to r pub ts <-> exists t, t ∈ ts /\ e = (r, pub, t).
Proof. unfold edges_to. rewrite elem_of_list_to_set, list_elem_of_fmap. naive_solver. Qed.

Lemma elem_edges_to' r pub ts r' s t : (r', s, t) ∈ edges_to r pub ts <-> r' = r /\ s = pub /\ t ∈ ts.
Proof. rewrite elem_edges_to. naive_solver. Qed.

Lemma elem_targets_of r pub E t : t ∈ targets_of r pub E <-> (r, pub, t) ∈ E.
Proof.
  unfold targets_of. rewrite elem_of_map. setoid_rewrite elem_of_filter. split.
  - intros ([[r' s] t'] & -> & [= -> ->] & Hin). done.
  - intros Hin. by exists (r, pub, t).
Qed.

Definition reverse_sets (prefix pub : string) (added removed : list string) (S : gset (string * string)) : gset (string * string) :=
  (list_to_set ((fun pk => (prefix ++ pk, pub)) <$> added) ∪ S) ∖ list_to_set ((fun pk => (prefix ++ pk, pub)) <$> removed).

Lemma with_sets_compose f g n : with_sets f (with_sets g n) = with_sets (fun S => f (g S)) n.
Proof. done. Qed.

Lemma with_sets_ext f g n : (forall S, f S = g S) -> with_sets f n = with_sets g n.
Proof. intros H. unfold with_sets. by rewrite H. Qed.

Lemma run_pipe_sets fs n :
  run_act (pipe_execute ((fun f => writes (with_sets f)) <$> fs)) n
  = (Ok tt, with_sets (fun S => foldl (fun S f => f S) S fs) n).
Proof.
  revert n. induction fs as [|f fs IH]; intros n; [by destruct n|].
  change (run_act (pipe_execute ((fun f => writes (with_sets f)) <$> fs)) (with_sets f n)
          = (Ok tt, with_sets (fun S => foldl (fun S f => f S) S (f :: fs)) n)).
  by rewrite IH, with_sets_compose.
Qed.

Lemma foldl_sadds (kms : list (string * string)) (S : gset (string * string)) :
  foldl (fun S f => f S) S ((fun km (S : gset (string * string)) => {[km]} ∪ S) <$> kms) = list_to_set kms ∪ S.
Proof.
  revert S. induction kms as [|km kms IH]; intros S; simpl; [set_solver|]. rewrite IH. set_solver.
Qed.
Lemma foldl_srems (kms : list (string * string)) (S : gset (string * string)) :
  foldl (fun S f => f S) S ((fun km (S : gset (string * string)) => S ∖ {[km]}) <$> kms) = S ∖ list_to_set kms.
Proof.
  revert S. induction kms as [|km kms IH]; intros S; simpl; [set_solver|]. rewrite IH. set_solver.
Qed.

Lemma run_reverse_sets prefix pub added removed n :
  run_act (update_reverse_sets prefix pub added removed) n
  = (Ok tt, with_sets (reverse_sets prefix pub added removed) n).
Proof.
  unfold update_reverse_sets.
  assert (E : app ((fun pk => sadd (prefix ++ pk) pub) <$> added) ((fun pk => srem (prefix ++ pk) pub) <$> removed)
    = (fun f => writes (with_sets f)) <$>
      app ((fun km (S : gset (string * string)) => {[km]} ∪ S) <$> ((fun pk => (prefix ++ pk, pub)) <$> added))
          ((fun km (S : gset (string * string)) => S ∖ {[km]}) <$> ((fun pk => (prefix ++ pk, pub)) <$> removed))).
  { by rewrite fmap_app, <- !list_fmap_compose. }
  rewrite E, run_pipe_sets. f_equal. apply with_sets_ext. intros S. by rewrite foldl_app, foldl_sadds, foldl_srems.
Qed.

(** ** What an event means *)

(** The author's edges of one relation, replaced. *)
Definition replace_out (r : Rel) (pub : string) (l : list string) (E : gset edge) : gset edge :=
  edges_to r pub l ∪ filter (fun e : edge => e.1 <> (r, pub)) E.

Lemma elem_replace_out r pub l E r' s t :
  (r', s, t) ∈ replace_out r pub l E <-> (r' = r /\ s = pub /\ t ∈ l) \/ ((r', s) <> (r, pub) /\ (r', s, t) ∈ E).
Proof. unfold replace_out. rewrite elem_of_union, elem_edges_to', elem_of_filter. done. Qed.

(** Edges and sets change alike. *)
Lemma mirrors_out r pub added removed E E' S :
  forward r = false -> mirrors E S ->
  (forall r' s t, (r', s, t) ∈ E' <->
     ((r', s, t) ∈ E \/ (r' = r /\ s = pub /\ t ∈ added)) /\ ~ (r' = r /\ s = pub /\ t ∈ removed)) ->
  mirrors E' (reverse_sets (prefix_of r) pub added removed S).
Proof.
  intros Hr HM HE r' s t. unfold reverse_sets. rewrite HE, elem_of_difference, elem_of_union, !elem_of_list_to_set, !list_elem_of_fmap.
  assert (Hl : forall l : list string, (exists pk, member r' s t = (prefix_of r ++ pk, pub) /\ pk ∈ l) <-> r' = r /\ s = pub /\ t ∈ l).
  { intros l. setoid_rewrite (member_reverse r s t _ pub Hr). split; [by intros (? & (-> & -> & ->) & ?)|].
    intros (-> & -> & ?). by exists t. }
  rewrite !Hl, (HM r' s t). tauto.
Qed.

Section meaning.
Context `{GraphEnv}.

Definition graph_update (event : json) (E : gset edge) : res exn (gset edge) :=
  kind ← py_get "kind" event;
  if json_is_int kind 3 then
    pub ← event_author event; l ← event_p_tags event; mret (replace_out FOLLOWS pub l E)
  else if json_is_int kind 10000 then
    pub ← event_author event; l ← event_p_tags event; mret (replace_out MUTES pub l E)
  else if json_is_int kind 1984 then
    pub ← event_author event; l ← extract_report_targets event; mret (edges_to REPORTS pub l ∪ E)
  else if json_is_int kind 5 then
    pub ← event_author event;
    if decide (targets_of REPORTS pub E = ∅) then mret E
    else match fetch_author_user_reports pub (report_frames event) with
         | None => mret E
         | Some reports => S ← surviving_report_targets reports pub; mret (replace_out REPORTS pub (elements S) E)
         end
  else if json_is_int kind DESIGNATION_KIND then
    pub ← event_author event;
    tags ← list_tags event;
    l ← parse_designated_pubkeys tags pub;
    mret (replace_out DESIGNATES pub l E)
  else mret E.

(** The outcome a handler should have on the graph and its mirror. *)
Definition carries_out (n : Net) (u : res exn (gset edge)) (o : res exn unit * Net) : Prop :=
  match u with
  | Ok E' => o.1 = Ok tt /\ edges o.2 = E' /\ mirrored o.2
  | Raise e => o = (Raise e, n)
  end.

Lemma carries_bind {A} (r : res exn A) (f : A -> act Net unit) (g : A -> res exn (gset edge)) n :
  (forall a, r = Ok a -> carries_out n (g a) (run_act (f a) n)) ->
  carries_out n (r ≫= g) (run_act (Ret r ≫= f) n).
Proof. intros Hk. destruct r as [a|e]; [by apply Hk|done]. Qed.

Lemma run_tx {A B} (f : TX Net A) (k : A -> act Net B) n a n' :
  f n = (Ok a, n') -> run_act (Tx f Ret ≫= k) n = run_act (k a) n'.
Proof. intros E. rewrite run_act_bind, run_act_tx, E. done. Qed.

Lemma list_event_carries r event n : forward r = false -> mirrored n ->
  carries_out n (pub ← event_author event; l ← event_p_tags event; mret (replace_out r pub l (edges n)))
    (run_act (process_list_event r (prefix_of r) event) n).
Proof.
  intros Hr HM. unfold process_list_event. apply carries_bind. intros pub _. apply carries_bind. intros l _.
  assert (Hpt : forall removed, (forall t, t ∈ removed <-> t ∈ targets_of r pub (edges n) /\ t ∉ l) ->
    mirrors (replace_out r pub l (edges n)) (reverse_sets (prefix_of r) pub l removed (redis_sets n))).
  { intros removed Hrem. apply (mirrors_out r pub l removed (edges n)); [done|done|].
    intros r' s t. rewrite elem_replace_out, Hrem, elem_targets_of. destruct (decide ((r', s) = (r, pub))) as [[= -> ->]|Hne].
    - destruct (decide (t ∈ l)); naive_solver.
    - naive_solver. }
  destruct l as [|x l].
  - erewrite run_tx by done. rewrite run_reverse_sets. split; [done|]. simpl.
    assert (HE : edges n ∖ edges_to r pub (elements (targets_of r pub (edges n) ∖ ∅)) = replace_out r pub [] (edges n)).
    { apply set_eq. intros [[r' s] t]. rewrite elem_of_difference, elem_edges_to', elem_of_elements, elem_replace_out, elem_of_difference, elem_targets_of.
      destruct (decide ((r', s) = (r, pub))) as [[= -> ->]|Hne]; set_solver. }
    split; [exact HE|]. unfold mirrored. simpl. rewrite HE. apply Hpt. intros t. rewrite elem_of_elements. set_solver.
  - set (L := x :: l) in *. erewrite run_tx by done. erewrite run_tx by done. rewrite run_reverse_sets. split; [done|]. simpl.
    set (removed := targets_of r pub (edges_to r pub L ∪ edges n) ∖ list_to_set L).
    assert (Hrem : forall t, t ∈ removed <-> t ∈ targets_of r pub (edges n) /\ t ∉ L).
    { intros t. unfold removed. rewrite elem_of_difference, !elem_targets_of, elem_of_union, elem_edges_to', elem_of_list_to_set. tauto. }
    assert (HE : (edges_to r pub L ∪ edges n) ∖ edges_to r pub (elements removed) = replace_out r pub L (edges n)).
    { apply set_eq. intros [[r' s] t]. rewrite elem_of_difference, elem_of_union, !elem_edges_to', elem_of_elements, Hrem, elem_replace_out, elem_targets_of.
      destruct (decide ((r', s) = (r, pub))) as [[= -> ->]|Hne]; [destruct (decide (t ∈ L))|]; naive_solver. }
    split; [exact HE|]. change (mirrors ((edges_to r pub L ∪ edges n) ∖ edges_to r pub (elements removed)) (reverse_sets (prefix_of r) pub L (elements removed) (redis_sets n))). rewrite HE. apply Hpt. intros t. rewrite elem_of_elements. apply Hrem.
Qed.

Lemma report_event_carries event n : mirrored n ->
  carries_out n (pub ← event_author event; l ← extract_report_targets event; mret (edges_to REPORTS pub l ∪ edges n))
    (run_act (process_event_kind_1984 event) n).
Proof.
  intros HM. unfold process_event_kind_1984. apply carries_bind. intros pub _. apply carries_bind. intros l _.
  destruct l as [|x l].
  - assert (HE : edges_to REPORTS pub [] ∪ edges n = edges n) by (apply set_eq; intros e; rewrite elem_of_union, elem_edges_to; set_solver).
    simpl. by rewrite HE.
  - erewrite run_tx by done. rewrite (run_reverse_sets _ _ (x :: l) []). split; [done|]. split; [done|].
    unfold mirrored. simpl. apply (mirrors_out REPORTS pub (x :: l) [] (edges n)); [done|done|].
    intros r' s t. rewrite elem_of_union, elem_edges_to'. set_solver.
Qed.

Lemma deletion_event_carries event n : mirrored n ->
  carries_out n (pub ← event_author event;
      if decide (targets_of REPORTS pub (edges n) = ∅) then mret (edges n)
      else match fetch_author_user_reports pub (report_frames event) with
           | None => mret (edges n)
           | Some reports => S ← surviving_report_targets reports pub; mret (replace_out REPORTS pub (elements S) (edges n))
           end)
    (run_act (process_event_kind_5 event) n).
Proof.
  intros HM. unfold process_event_kind_5. apply carries_bind. intros pub _. erewrite run_tx by done.
  destruct (decide _) as [Hc|Hc]; [done|]. destruct (fetch_author_user_reports _ _) as [reports|]; [|done].
  apply carries_bind. intros S _. set (diff := diff_author_targets S _). rewrite run_act_bind.
  assert (E1 : run_act (if decide (to_remove diff = ∅) then mret tt else Tx (delete_edges REPORTS pub (elements (to_remove diff))) Ret) n
    = (Ok tt, with_graph id (fun E => E ∖ edges_to REPORTS pub (elements (to_remove diff))) n)).
  { case_decide as Hd; [|done]. rewrite Hd, elements_empty. unfold with_graph, edges_to. simpl. rewrite difference_empty_L. by destruct n. }
  rewrite E1. clear E1. set (n1 := with_graph _ _ n). rewrite run_act_bind.
  assert (E2 : exists N, run_act (if decide (to_add diff = ∅) then mret tt else Tx (merge_edges REPORTS pub (elements (to_add diff))) Ret) n1
    = (Ok tt, with_graph N (fun E => edges_to REPORTS pub (elements (to_add diff)) ∪ E) n1)).
  { case_decide as Hd; [|by eexists]. exists id. rewrite Hd, elements_empty. unfold with_graph, edges_to. simpl. by rewrite union_empty_l_L. }
  destruct E2 as [N ->]. rewrite run_reverse_sets. split; [done|].
  assert (HE : edges_to REPORTS pub (elements (to_add diff)) ∪ (edges n ∖ edges_to REPORTS pub (elements (to_remove diff)))
    = replace_out REPORTS pub (elements S) (edges n)).
  { apply set_eq. intros [[r' s] t]. rewrite elem_of_union, elem_of_difference, !elem_edges_to', !elem_of_elements, elem_replace_out, elem_of_elements.
    unfold diff. simpl. rewrite !elem_of_difference, !elem_targets_of.
    destruct (decide ((r', s) = (REPORTS, pub))) as [[= -> ->]|Hne]; [|naive_solver].
    destruct (decide (t ∈ S)), (decide ((REPORTS, pub, t) ∈ edges n)); naive_solver. }
  split; [exact HE|].
  change (mirrors (edges_to REPORTS pub (elements (to_add diff)) ∪ (edges n ∖ edges_to REPORTS pub (elements (to_remove diff))))
            (reverse_sets (prefix_of REPORTS) pub (elements S) (elements (to_remove diff)) (redis_sets n))).
  rewrite HE. apply (mirrors_out REPORTS pub (elements S) _ (edges n)); [done|done|].
  intros r' s t. rewrite elem_replace_out, !elem_of_elements. simpl. rewrite elem_of_difference, elem_targets_of.
  destruct (decide ((r', s) = (REPORTS, pub))) as [[= -> ->]|Hne]; [|naive_solver].
  destruct (decide (t ∈ S)); naive_solver.
Qed.

Lemma designation_event_carries event n : mirrored n ->
  carries_out n (pub ← event_author event; tags ← list_tags event; l ← parse_designated_pubkeys tags pub;
                 mret (replace_out DESIGNATES pub l (edges n)))
    (run_act (process_event_kind_10040 event) n).
Proof.
  intros HM. unfold process_event_kind_10040. apply carries_bind. intros pub _. apply carries_bind. intros tags _.
  apply carries_bind. intros l _.
  assert (E1 : exists N, designate pub l n = (Ok tt, with_graph N (replace_out DESIGNATES pub l) n)).
  { assert (Hd : forall N f, f (edges n) = replace_out DESIGNATES pub l (edges n) ->
      with_graph N f n = with_graph N (replace_out DESIGNATES pub l) n) by (intros N f Hf; unfold with_graph; by rewrite Hf).
    destruct l as [|x l]; unfold designate, writes; eexists; f_equal; apply Hd; apply set_eq; intros [[r' s] t].
    - rewrite elem_of_difference, elem_edges_to', elem_of_elements, elem_replace_out, elem_targets_of.
      destruct (decide ((r', s) = (DESIGNATES, pub))) as [[= -> ->]|Hne]; set_solver.
    - set (L := x :: l). rewrite elem_of_union, elem_of_difference, !elem_edges_to', elem_of_elements, elem_of_difference, elem_replace_out, elem_targets_of, elem_of_list_to_set.
      destruct (decide ((r', s) = (DESIGNATES, pub))) as [[= -> ->]|Hne]; [destruct (decide (t ∈ L))|]; naive_solver. }
  destruct E1 as [N E1]. erewrite run_tx by exact E1. rewrite run_act_tx. split; [done|]. split; [done|].
  unfold mirrored. simpl. intros r' s t.
  rewrite elem_replace_out, elem_of_union, elem_of_list_to_set, list_elem_of_fmap, elem_of_filter, <- (HM r' s t).
  assert (Hkey : (member r' s t).1 = DESIGNATES_KEY_PREFIX ++ pub <-> r' = DESIGNATES /\ s = pub).
  { pose proof (fun x => key_inj r' DESIGNATES x pub) as Hinj. unfold member. destruct (forward r') eqn:Hr; simpl in *.
    - split; [apply Hinj|by intros [-> ->]].
    - split; [intros [-> _]%Hinj; done|by intros [-> _]]. }
  assert (Hmem : (exists m, member r' s t = (DESIGNATES_KEY_PREFIX ++ pub, m) /\ m ∈ l) <-> r' = DESIGNATES /\ s = pub /\ t ∈ l).
  { change (DESIGNATES_KEY_PREFIX ++ pub) with (member DESIGNATES pub "").1. split.
    - intros (m & Em & Hm). change ((member DESIGNATES pub "").1, m) with (member DESIGNATES pub m) in Em.
      by apply member_inj in Em as (-> & -> & ->).
    - intros (-> & -> & Ht). by exists t. }
  rewrite Hmem, Hkey. naive_solver.
Qed.

Lemma run_on_tags {A} (p : act TagStore A) n :
  edges (run_act (on_tags p) n).2 = edges n /\ redis_sets (run_act (on_tags p) n).2 = redis_sets n.
Proof.
  revert n. induction p as [r|B f k IH]; intros n; [done|]. cbn [on_tags run_act].
  destruct (f (tag_store n)) as [r st]. simpl.
  match goal with |- context [run_act _ ?m] => apply (IH r m) end.
Qed.

(** One event, handled to the end. *)
Lemma event_refines event n : mirrored n ->
  match graph_update event (edges n) with
  | Ok E' => edges (run_act (process_strfry_event event) n).2 = E' /\ mirrored (run_act (process_strfry_event event) n).2
  | Raise e => run_act (process_strfry_event event) n = (Raise e, n)
  end.
Proof.
  intros HM. unfold process_strfry_event, graph_update. destruct (py_get "kind" event) as [kind|e]; [|done]. simpl.
  assert (Hc : forall u o, carries_out n u o -> match u with Ok E' => edges o.2 = E' /\ mirrored o.2 | Raise e => o = (Raise e, n) end)
    by (intros [E'|e] o; [by intros (_ & ? & ?)|done]).
  destruct (json_is_int kind 3); [by apply Hc, (list_event_carries FOLLOWS)|].
  destruct (json_is_int kind 10000); [by apply Hc, (list_event_carries MUTES)|].
  destruct (json_is_int kind 1984); [by apply Hc, report_event_carries|].
  destruct (json_is_int kind 5); [by apply Hc, deletion_event_carries|].
  destruct (json_is_int kind DESIGNATION_KIND); [by apply Hc, designation_event_carries|].
  destruct (json_is_int kind TAGGING_KIND); [|done].
  destruct (run_on_tags (process_event_kind_39999 event) n) as [H1 H2]. split; [done|]. unfold mirrored. by rewrite H1, H2.
Qed.

(** What a sequence of messages means: one that does not decode, or cannot be read,
    means nothing. *)
Definition message_update (E : gset edge) (message : string) : gset edge :=
  match (event ← json_loads message; graph_update event E) with Ok E' => E' | Raise _ => E end.

Definition consume (n : Net) (messages : list string) : Net :=
  foldl (fun n m => (run_act (consume_strfry_message m) n).2) n messages.

Lemma consume_mirrors (messages : list string) (n : Net) : mirrored n ->
  edges (consume n messages) = foldl message_update (edges n) messages /\ mirrored (consume n messages).
Proof.
  unfold consume. revert n. induction messages as [|m ms IH]; intros n HM; [done|]. cbn [foldl].
  enough (edges (run_act (consume_strfry_message m) n).2 = message_update (edges n) m
          /\ mirrored (run_act (consume_strfry_message m) n).2) as [<- Hm] by by apply IH.
  unfold consume_strfry_message, message_update. rewrite run_act_try, run_act_bind. simpl.
  destruct (json_loads m) as [event|e]; [|done]. pose proof (event_refines event n HM) as He. simpl in *.
  destruct (graph_update event (edges n)) as [E'|e].
  - destruct (run_act (process_strfry_event event) n) as [[[]|e] n']; simpl in *; done.
  - by rewrite He.
Qed.

(** C15: the consumer implements the graph: for any sequence of messages handled to
    the end, the edges of Neo4j are what the events mean one after another (a follow
    or mute list replaces its author's edges, a report adds, a deletion leaves what
    the relay still holds, a designation list replaces), and the Redis sets hold
    exactly the members that stand for those edges; no message raises out of the
    loop. *)
Theorem consumer_refines (messages : list string) (n : Net) :
  mirrored n ->
  edges (consume n messages) = foldl message_update (edges n) messages
  /\ mirrored (consume n messages)
  /\ forall m, (run_act (consume_strfry_message m) n).1 = Ok tt.
Proof.
  intros HM. destruct (consume_mirrors messages n HM) as [HE HM']. split_and!; [done|done|].
  intros m. unfold consume_strfry_message. rewrite run_act_try. by destruct (run_act _ n) as [[[]|e] n'].
Qed.
End meaning.

(** ** The rebuild of the Redis sets

    The loop of [_backfill_relationship] pages through the users by key.
    [backfill_complete] says it ends, having visited everybody, with exactly the
    members the edges stand for. *)

(** ** One page *)

Lemma page_max_from page m :
  foldl (fun m '(source, _) => match m with
                               | Some c => Some (if str_lt c source then source else c)
                               | None => Some source
                               end) (Some m) page = Some (foldl (fun c (row : string * list string) => if str_lt c row.1 then row.1 else c) m page).
Proof. revert m. induction page as [|[s ts] page IH]; intros m; simpl; [done|]. apply IH. Qed.

Lemma fold_max_spec (page : list (string * list string)) m :
  let c := foldl (fun c row => if str_lt c row.1 then row.1 else c) m page in
  (c = m \/ c ∈ page.*1) /\ String.leb m c = true /\ forall s, s ∈ page.*1 -> String.leb s c = true.
Proof.
  revert m. induction page as [|[s ts] page IH]; intros m; simpl.
  { split_and!; [by left|destruct (String.leb_total m m); done|set_solver]. }
  destruct (IH (if str_lt m s then s else m)) as (H1 & H2 & H3). set (c := foldl _ _ page) in *. split_and!.
  - destruct H1 as [->|H1]; [destruct (str_lt m s)|]; set_solver.
  - destruct (str_lt m s) eqn:E; [|done]. eapply str_leb_trans; [by apply str_lt_leb|done].
  - intros x [->|Hx]%elem_of_cons; [|by apply H3]. destruct (str_lt m s) eqn:E; [done|].
    eapply str_leb_trans; [|done]. unfold str_lt in E. by apply negb_false_iff in E.
Qed.

Lemma page_max_spec page c : page_max page = Some c ->
  c ∈ page.*1 /\ forall s, s ∈ page.*1 -> String.leb s c = true.
Proof.
  unfold page_max. destruct page as [|[s ts] page]; [done|]. cbn [foldl]. rewrite page_max_from. intros [= <-].
  destruct (fold_max_spec page s) as (H1 & H2 & H3). split; [destruct H1 as [->|H1]; set_solver|].
  intros x [->|Hx]%elem_of_cons; [done|by apply H3].
Qed.

Lemma page_max_None page : page_max page = None -> page = [].
Proof. unfold page_max. destruct page as [|[s ts] page]; [done|]. cbn [foldl]. by rewrite page_max_from. Qed.

(** The sources past the cursor, and the page cut from them. *)
Definition remaining (n : Net) (cursor : string) : gset string := filter (fun s => str_lt cursor s = true) (nodes n).
Definition page_sources (n : Net) (cursor : string) : list string :=
  take PAGE_SIZE (stable_sort String.leb (elements (remaining n cursor))).

Lemma page_rows_sources r n cursor : exists page, read_page r cursor n = (Ok page, n)
  /\ page = (fun s => (s, elements (targets_of r s (edges n)))) <$> page_sources n cursor.
Proof. by eexists. Qed.

Lemma page_sources_subset n cursor s : s ∈ page_sources n cursor -> s ∈ remaining n cursor.
Proof.
  intros Hs. apply elem_of_elements, (stable_sort_elem String.leb).
  unfold page_sources in Hs. apply list_elem_of_In. apply list_elem_of_In in Hs. revert Hs.
  rewrite <- !list_elem_of_In. rewrite <- (take_drop PAGE_SIZE (stable_sort String.leb (elements (remaining n cursor)))) at 2.
  rewrite elem_of_app. by left.
Qed.

Lemma page_sources_empty n cursor : page_sources n cursor = [] -> remaining n cursor = ∅.
Proof.
  unfold page_sources. intros E. assert (Hl : stable_sort String.leb (elements (remaining n cursor)) = []).
  { destruct (stable_sort String.leb (elements (remaining n cursor))); [done|discriminate E]. }
  apply set_eq. intros s. rewrite <- elem_of_elements, <- (stable_sort_elem String.leb), Hl. set_solver.
Qed.

(** The page and what is past its greatest key: together what was left, and nothing
    twice. *)
Lemma page_split n cursor c :
  c ∈ page_sources n cursor -> (forall s, s ∈ page_sources n cursor -> String.leb s c = true) ->
  forall s, s ∈ remaining n cursor <-> s ∈ page_sources n cursor \/ s ∈ remaining n c.
Proof.
  intros Hc Hmax s. pose proof (page_sources_subset n cursor c Hc) as Hcr.
  apply elem_of_filter in Hcr as [Hlt _].
  set (L := stable_sort String.leb (elements (remaining n cursor))).
  assert (HL : L = (page_sources n cursor ++ drop PAGE_SIZE L)%list) by (symmetry; apply take_drop).
  assert (Hnd : NoDup L) by (unfold L; rewrite stable_sort_perm; apply NoDup_elements).
  assert (Hsorted : StronglySorted (leb_rel String.leb) L) by apply str_sorted.
  assert (Hin : s ∈ remaining n cursor <-> s ∈ L) by (unfold L; by rewrite stable_sort_elem, elem_of_elements).
  rewrite Hin, HL, elem_of_app. split.
  - intros [Hs|Hs]; [by left|]. right. apply elem_of_filter.
    assert (Hle : String.leb c s = true) by (rewrite HL in Hsorted; by apply (sorted_split _ _ _ c s Hsorted)).
    split; [|assert (Hr : s ∈ L) by (rewrite HL; set_solver); apply Hin, elem_of_filter in Hr; apply Hr].
    apply str_lt_spec, not_true_iff_false. intros Hge.
    assert (s = c) as -> by by apply String.leb_antisym.
    rewrite HL in Hnd. apply NoDup_app in Hnd as (_ & Hdis & _). by apply (Hdis c).
  - intros [Hs|Hs]; [by left|]. rewrite <- elem_of_app, <- HL, <- Hin. apply elem_of_filter in Hs as [Hs1 Hs2].
    apply elem_of_filter. split; [by eapply str_lt_trans|done].
Qed.

(** ** The loop *)

(** The members that stand for the edges of [r] from the sources in [srcs]. *)
Definition members_from (r : Rel) (E : gset edge) (P : string -> Prop) (km : string * string) : Prop :=
  exists s t, P s /\ (r, s, t) ∈ E /\ km = member r s t.

Lemma page_commands_elem r n srcs km :
  km ∈ page_commands (prefix_of r) (forward r) ((fun s => (s, elements (targets_of r s (edges n)))) <$> srcs)
  <-> members_from r (edges n) (fun s => s ∈ srcs) km.
Proof.
  unfold page_commands, members_from. rewrite <- list_fmap_compose, list_elem_of_join. setoid_rewrite list_elem_of_fmap. split.
  - intros (l & Hkm & s & -> & Hs). unfold compose in Hkm. simpl in Hkm.
    apply list_elem_of_fmap in Hkm as (t & -> & Ht%elem_of_elements%elem_targets_of).
    exists s, t. split_and!; [done|done|]. unfold member. by destruct (forward r).
  - intros (s & t & Hs & Ht & ->). eexists. split; [|exists s; split; [done|done]]. unfold compose. simpl.
    apply list_elem_of_fmap. exists t. split; [unfold member; by destruct (forward r)|].
    by apply elem_of_elements, elem_targets_of.
Qed.

Lemma run_pipe_sadds (kms : list (string * string)) n :
  run_act (pipe_execute ((fun '(k, m) => sadd k m) <$> kms)) n = (Ok tt, with_sets (fun S => list_to_set kms ∪ S) n).
Proof.
  assert (E : (fun '(k, m) => sadd k m) <$> kms
    = (fun f => writes (with_sets f)) <$> ((fun km (S : gset (string * string)) => {[km]} ∪ S) <$> kms)).
  { rewrite <- list_fmap_compose. apply list_fmap_ext. by intros _ [k m] _. }
  rewrite E, run_pipe_sets. f_equal. apply with_sets_ext. intros S. apply foldl_sadds.
Qed.

(** The same state but for more members. *)
Definition only_adds (n n' : Net) (P : string * string -> Prop) : Prop :=
  exists A, n' = with_sets (fun S => A ∪ S) n /\ forall km, km ∈ A <-> P km.

Lemma only_adds_trans n n1 n2 P Q :
  only_adds n n1 P -> only_adds n1 n2 Q -> only_adds n n2 (fun km => P km \/ Q km).
Proof.
  intros (A & -> & HA) (B & -> & HB). exists (B ∪ A). split.
  - rewrite with_sets_compose. apply with_sets_ext. intros S. by rewrite assoc_L by apply _.
  - intros km. rewrite elem_of_union, HA, HB. tauto.
Qed.

Lemma only_adds_ext n n' P Q : (forall km, P km <-> Q km) -> only_adds n n' P -> only_adds n n' Q.
Proof. intros H (A & -> & HA). exists A. split; [done|]. intros km. by rewrite HA. Qed.

Lemma backfill_pages_run fuel : forall r cursor w n, (size (remaining n cursor) < fuel)%nat ->
  exists w' n', run_act (backfill_pages fuel r (prefix_of r) (forward r) cursor w) n = (Ok (Some w'), n')
    /\ only_adds n n' (members_from r (edges n) (fun s => s ∈ remaining n cursor)).
Proof.
  induction fuel as [|fuel IH]; intros r cursor w n Hf; [lia|]. cbn [backfill_pages].
  destruct (page_rows_sources r n cursor) as (page & Epage & Hpage). rewrite run_act_bind, run_act_tx, Epage.
  rewrite run_act_bind, run_pipe_sadds. set (kms := page_commands _ _ _). set (n1 := with_sets _ n).
  assert (Hadd : only_adds n n1 (members_from r (edges n) (fun s => s ∈ page_sources n cursor))).
  { exists (list_to_set kms). split; [done|]. intros km. rewrite elem_of_list_to_set. unfold kms. rewrite Hpage.
    apply page_commands_elem. }
  assert (Hfst : page.*1 = page_sources n cursor) by (rewrite Hpage, <- list_fmap_compose; apply list_fmap_id).
  destruct (page_max page) as [c|] eqn:Ec.
  - apply page_max_spec in Ec as [Hc Hmax]. rewrite Hfst in Hc, Hmax.
    pose proof (page_split n cursor c Hc Hmax) as Hsplit.
    destruct (IH r c (w + Z.of_nat (length kms)) n1) as (w' & n' & E & Hrest).
    { change (remaining n1 c) with (remaining n c). enough (size (remaining n c) < size (remaining n cursor))%nat by lia.
      apply subset_size. split.
      - intros s Hs. apply Hsplit. by right.
      - intros Hsub. assert (Hcc : c ∈ remaining n c) by (apply Hsub, Hsplit; by left).
        apply elem_of_filter in Hcc as [Hlt _]. by rewrite str_lt_irrefl in Hlt. }
    exists w', n'. split; [exact E|]. eapply only_adds_ext; [|exact (only_adds_trans _ _ _ _ _ Hadd Hrest)].
    intros km. unfold members_from. setoid_rewrite Hsplit. change (remaining n1 c) with (remaining n c).
    change (edges n1) with (edges n). naive_solver.
  - apply page_max_None in Ec. subst page. assert (Hnil : page_sources n cursor = []) by (rewrite <- Hfst, Ec; done).
    eexists _, n1. split; [done|]. eapply only_adds_ext; [|exact Hadd].
    intros km. unfold members_from. rewrite Hnil, (page_sources_empty _ _ Hnil). set_solver.
Qed.

(** ** The whole job *)

(** Every edge starts at a user, and users have keys. *)
Definition sourced (n : Net) : Prop := forall r s t, (r, s, t) ∈ edges n -> s ∈ nodes n /\ s <> "".

Lemma backfill_relationship_run fuel r n : (size (nodes n) < fuel)%nat -> sourced n ->
  exists w n', run_act (backfill_relationship fuel r (prefix_of r) (forward r)) n = (Ok (Some w), n')
    /\ only_adds n n' (members_from r (edges n) (fun _ => True)).
Proof.
  intros Hf Hs. destruct (backfill_pages_run fuel r "" 0 n) as (w & n' & E & Hadd).
  { eapply Nat.le_lt_trans; [|exact Hf]. apply subseteq_size. unfold remaining. set_solver. }
  exists w, n'. split; [exact E|]. eapply only_adds_ext; [|exact Hadd]. intros km. unfold members_from, remaining.
  setoid_rewrite elem_of_filter. setoid_rewrite str_lt_empty. split.
  - intros (s & t & _ & He & ->). by exists s, t.
  - intros (s & t & _ & He & ->). exists s, t. split_and!; try done; by apply (Hs r s t He).
Qed.

Lemma only_adds_same n n' P : only_adds n n' P -> nodes n' = nodes n /\ edges n' = edges n /\ done_marker n' = done_marker n.
Proof. by intros (A & -> & _). Qed.

Lemma backfill_all_run fuel rels fwd n :
  (size (nodes n) < fuel)%nat -> sourced n -> (forall r p, (r, p) ∈ rels -> p = prefix_of r /\ fwd = forward r) ->
  exists n', run_act (backfill_all fuel rels fwd) n = (Ok (Some tt), n')
    /\ only_adds n n' (fun km => exists r p, (r, p) ∈ rels /\ members_from r (edges n) (fun _ => True) km).
Proof.
  revert n. induction rels as [|[r p] rels IH]; intros n Hf Hs Hrels; cbn [backfill_all].
  - exists n. split; [done|]. exists ∅. split; [destruct n; unfold with_sets; simpl; by rewrite union_empty_l_L|set_solver].
  - destruct (Hrels r p) as [-> ->]; [set_solver|].
    destruct (backfill_relationship_run fuel r n Hf Hs) as (w & n1 & E1 & H1).
    rewrite run_act_bind, E1. destruct (only_adds_same _ _ _ H1) as (EN & EE & _).
    destruct (IH n1) as (n2 & E2 & H2); [by rewrite EN|unfold sourced; by rewrite EN, EE|set_solver|].
    exists n2. split; [exact E2|]. eapply only_adds_ext; [|exact (only_adds_trans _ _ _ _ _ H1 H2)].
    intros km. rewrite EE. setoid_rewrite elem_of_cons. split.
    + intros [Hm|(r' & p & Hr & Hm)]; [exists r, (prefix_of r); by split; [left|]|exists r', p; by split; [right|]].
    + intros (r' & p & [[= -> ->]|Hr] & Hm); [by left|right]. by exists r', p.
Qed.

(** Whether the job goes ahead. *)
Definition goes_ahead (n : Net) : bool :=
  negb (done_marker n) && forallb (fun k => default false (transfers_completed n !! k)) graph_kinds
  && negb (existsb (fun '(_, p) => existsb (fun km => String.prefix p km.1) (elements (redis_sets n))) RELATIONSHIP_TO_PREFIX).

Lemma every_relation r : exists p, (r, p) ∈ RELATIONSHIP_TO_PREFIX \/ (r, p) ∈ FORWARD_RELATIONSHIP_TO_PREFIX.
Proof. exists (prefix_of r). unfold RELATIONSHIP_TO_PREFIX, FORWARD_RELATIONSHIP_TO_PREFIX. destruct r; set_solver. Qed.


(** Three users, four edges. *)
Definition small_net : Net :=
  {| nodes := {["a"; "b"; "c"]};
     edges := {[(FOLLOWS, "a", "b"); (FOLLOWS, "c", "b"); (MUTES, "b", "a"); (DESIGNATES, "c", "a")]};
     redis_sets := ∅; done_marker := false;
     transfers_completed := list_to_map ((fun k => (k, true)) <$> graph_kinds);
     tag_store := {| nostr_tag_element := ∅; nostr_user_tagging := ∅ |} |}.


(** One user takes two rounds: the page that holds her, and the empty one. *)
Example one_user_two_rounds :
  let one := {| nodes := {["a"]}; edges := {[(FOLLOWS, "a", "a")]}; redis_sets := ∅; done_marker := false;
                transfers_completed := transfers_completed small_net; tag_store := tag_store small_net |} in
  (run_act (backfill_redis_relationships_if_needed 1) one).1 = Ok OutOfFuel
  /\ (run_act (backfill_redis_relationships_if_needed 2) one).1 = Ok Completed.
Proof. by vm_compute. Qed.

Example small_net_goes_ahead : goes_ahead small_net = true.
Proof. by vm_compute. Qed.
