(* ===== verification/IngestProps.v ===== *)
(** * The graph under interleaving, and deletions

    [graph_typed] is the type of the graph's data, over all interleavings of
    consumers, the rebuild and the profile resolver, with failures anywhere.
    [deletion_reconciles] is what a kind-5 event does.  The last lemma is what a
    failure between the two stores leaves behind. *)

From Stdlib Require Import Ascii String QArith.
From S2P Require Import Prelude Json Atomic NostrTags Tagging NostrGraph NostrGraphProps.
From stdpp Require Import list.
Local Open Scope string_scope.
Local Open Scope Z_scope.

(** ** Keys *)

(** 64 lower-case hex digits. *)
Definition is_key (s : string) : Prop := String.length s = 64%nat /\ forallb is_hex_digit (chars s) = true.

(** What the code keeps of the keys an event names: the regular expression's [$] lets one
    newline follow. *)
Definition kept_key (s : string) : Prop := exists k, is_key k /\ (s = k \/ s = k ++ of_chars [newline]).

Lemma kept_is_key s : is_key s -> kept_key s.
Proof. intros Hs. exists s. by split; [|left]. Qed.

Lemma matched_kept s : hex64_match s = true <-> kept_key s.
Proof.
  unfold hex64_match, kept_key, is_key. rewrite !andb_true_iff, Nat.leb_le. split.
  - intros [[Hlen Hhex] Hend]. exists (of_chars (take 64 (chars s))).
    rewrite <- length_chars, chars_of_chars, length_take, Nat.min_l by done. split; [done|].
    rewrite <- (of_chars_chars s) at 1 3. rewrite <- (take_drop 64 (chars s)) at 1 3.
    destruct (drop 64 (chars s)) as [|c [|]]; [left; by rewrite app_nil_r| |done]. right.
    apply Ascii.eqb_eq in Hend as ->. rewrite <- of_chars_chars at 1. by rewrite <- (of_chars_chars (_ ++ _)), chars_append, !chars_of_chars.
  - intros (k & [Hlen Hhex] & Hs). rewrite <- length_chars in Hlen.
    assert (exists l, chars s = (chars k ++ l)%list /\ at_end l = true) as (l & -> & Hl).
    { destruct Hs as [->| ->]; [exists []; by rewrite app_nil_r|]. exists [newline]. by rewrite chars_append, chars_of_chars. }
    rewrite length_app, take_app_length', drop_app_length' by done. split; [split; [lia|done]|done].
Qed.

(** An edge from an author to a key an event named; nobody designates themselves. *)
Definition typed_edge (r : Rel) (s t : string) : Prop :=
  is_key s /\ kept_key t /\ (r = DESIGNATES -> s <> t).

Record typed (n : Net) : Prop := {
  typed_nodes : forall x, x ∈ nodes n -> kept_key x;
  typed_edges : forall r s t, (r, s, t) ∈ edges n -> s ∈ nodes n /\ t ∈ nodes n /\ typed_edge r s t;
  typed_sets : forall km, km ∈ redis_sets n -> exists r s t, km = member r s t /\ typed_edge r s t;
}.

Lemma p_tags_keys tags l : p_tag_pubkeys tags = Ok l -> forall k, k ∈ l -> kept_key k.
Proof.
  intros (raw & _ & _ & Hl)%p_tag_pubkeys_exact k Hk. apply Hl in Hk as (tag & _ & s & _ & _ & ?). by apply matched_kept.
Qed.

Lemma event_p_tags_keys event l : event_p_tags event = Ok l -> forall k, k ∈ l -> kept_key k.
Proof. unfold event_p_tags. intros (tags & _ & E)%res_bind_Ok. by eapply p_tags_keys. Qed.

Lemma report_targets_keys event l : extract_report_targets event = Ok l -> forall k, k ∈ l -> kept_key k.
Proof.
  unfold extract_report_targets. intros (tags & _ & (raw & _ & (e & _ & E)%res_bind_Ok)%res_bind_Ok)%res_bind_Ok.
  destruct e; [injection E as <-; set_solver|]. by eapply p_tags_keys.
Qed.

Lemma surviving_keys events author S : surviving_report_targets events author = Ok S -> forall k, k ∈ S -> kept_key k.
Proof.
  intros E k Hk. apply (surviving_targets_exact _ _ _ E) in Hk as (ev & _ & _ & l & El & Hl).
  by eapply report_targets_keys.
Qed.

Lemma designated_keys tags pub l : (forall tag, tag ∈ tags -> tag_shaped tag) -> parse_designated_pubkeys tags pub = Ok l ->
  forall k, k ∈ l -> kept_key k /\ k <> pub.
Proof.
  intros Ht E k Hk. destruct (designated_exact _ _ _ Ht E) as [_ Hl].
  apply Hl in Hk as (tag & _ & nm & ky & _ & _ & _ & _ & ? & ?). by rewrite <- matched_kept.
Qed.

Lemma list_tags_shaped event tags : list_tags event = Ok tags -> forall tag, tag ∈ tags -> tag_shaped tag.
Proof.
  unfold list_tags. intros (v & _ & (l & _ & [= <-])%res_bind_Ok)%res_bind_Ok tag [Ht _]%list_elem_of_filter.
  destruct tag; try done. by eexists.
Qed.

(** ** Every unit keeps the types *)

Definition anything (n n' : Net) : Prop := True.
Abbreviation keeps_types := (keeps anything typed).

Lemma keeps_writes f : (forall n, typed n -> typed (f n)) -> keeps_types (writes f).
Proof. intros H n Hn. split; [by apply H|done]. Qed.

(** A change of the graph that adds typed edges between known nodes. *)
Lemma typed_with_graph f g n : typed n ->
  (forall x, x ∈ f (nodes n) -> x ∈ nodes n \/ kept_key x) -> nodes n ⊆ f (nodes n) ->
  (forall r s t, (r, s, t) ∈ g (edges n) -> (r, s, t) ∈ edges n \/ (s ∈ f (nodes n) /\ t ∈ f (nodes n) /\ typed_edge r s t)) ->
  typed (with_graph f g n).
Proof.
  intros [H1 H2 H3] HN Hsub HE. split; simpl.
  - intros x [?|?]%HN; auto.
  - intros r s t [He|(? & ? & ?)]%HE; [|done]. destruct (H2 _ _ _ He) as (? & ? & ?). split_and!; auto.
  - done.
Qed.

Lemma keeps_merge r pub ts : is_key pub -> (forall t, t ∈ ts -> kept_key t) -> (r = DESIGNATES -> pub ∉ ts) ->
  keeps_types (merge_edges r pub ts).
Proof.
  intros Hp Ht Hd. pose proof (kept_is_key pub Hp). apply keeps_writes. intros n Hn. apply typed_with_graph; [done|set_solver|set_solver|].
  intros r' s t. rewrite elem_of_union, elem_edges_to'. intros [(-> & -> & Hin)|?]; [right|by left].
  split_and!; [set_solver|set_solver|]. split_and!; [done|by apply Ht|]. intros Hr ->. by apply Hd.
Qed.

Lemma keeps_delete r pub ts : keeps_types (delete_edges r pub ts).
Proof. apply keeps_writes. intros n Hn. apply typed_with_graph; [done|set_solver|set_solver|]. simpl. set_solver. Qed.

Lemma keeps_remove r pub keep : keeps_types (remove_edges r pub keep).
Proof.
  intros n Hn. split; [|done]. apply typed_with_graph; [done|set_solver|set_solver|]. simpl. set_solver.
Qed.

Lemma keeps_designate pub l : is_key pub -> (forall t, t ∈ l -> kept_key t /\ t <> pub) -> keeps_types (designate pub l).
Proof.
  intros Hp Hl. pose proof (kept_is_key pub Hp). unfold designate. destruct l as [|x l].
  - apply keeps_writes. intros n Hn. apply typed_with_graph; [done|set_solver|set_solver|]. simpl. set_solver.
  - apply keeps_writes. intros n Hn. set (L := x :: l) in *. apply typed_with_graph; [done| |set_solver|].
    + intros y. rewrite !elem_of_union, elem_of_singleton, elem_of_list_to_set.
      intros [[->|Hy]|?]; [by right|right; by apply Hl|by left].
    + intros r' s t. rewrite elem_of_union, elem_edges_to'. intros [(-> & -> & Hin)|[? _]%elem_of_difference]; [right|by left].
      destruct (Hl t Hin). split_and!; [set_solver| |by split_and!; [..|congruence]].
      rewrite !elem_of_union, elem_of_list_to_set. by left; right.
Qed.

Lemma keeps_sadd r s t : typed_edge r s t -> keeps_types (sadd (member r s t).1 (member r s t).2).
Proof.
  intros He. apply keeps_writes. intros n [H1 H2 H3]. split; [done|done|]. simpl.
  intros km [->%elem_of_singleton|?]%elem_of_union; [|by apply H3]. exists r, s, t. by destruct (member r s t).
Qed.

Lemma keeps_srem k m : keeps_types (srem k m).
Proof. apply keeps_writes. intros n [H1 H2 H3]. split; [done|done|]. simpl. intros km [? _]%elem_of_difference. by apply H3. Qed.

Lemma keeps_replace_set pub l : is_key pub -> (forall t, t ∈ l -> kept_key t /\ t <> pub) ->
  keeps_types (replace_set (DESIGNATES_KEY_PREFIX ++ pub) l).
Proof.
  intros Hp Hl. apply keeps_writes. intros n [H1 H2 H3]. split; [done|done|]. simpl.
  intros km [Hk|[_ ?]%elem_of_filter]%elem_of_union; [|by apply H3].
  apply elem_of_list_to_set, list_elem_of_fmap in Hk as (t & -> & Ht). exists DESIGNATES, pub, t.
  destruct (Hl t Ht). split; [done|]. split_and!; [done|done|congruence].
Qed.

(** ** Every handler *)

Abbreviation types_within := (within anything typed).

Lemma within_pipe cs : (forall c, c ∈ cs -> keeps_types c) -> types_within (pipe_execute cs).
Proof.
  induction cs as [|c cs IH]; intros Hc; [done|]. cbn [pipe_execute]. apply within_bind.
  - apply within_tx. apply Hc. set_solver.
  - intros _. apply IH. set_solver.
Qed.

Lemma within_reverse r pub added removed : forward r = false -> is_key pub ->
  (forall t, t ∈ added -> kept_key t) -> types_within (update_reverse_sets (prefix_of r) pub added removed).
Proof.
  intros Hr Hp Ht. apply within_pipe. intros c [Hc|Hc]%elem_of_app; apply list_elem_of_fmap in Hc as (t & -> & Hin).
  - assert (E : member r pub t = (prefix_of r ++ t, pub)) by (unfold member; by rewrite Hr).
    pose proof (keeps_sadd r pub t) as Hk. rewrite E in Hk. apply Hk. split_and!; [done|by apply Ht|].
    intros ->. done.
  - apply keeps_srem.
Qed.

Lemma within_ret {A B} (r : res exn A) (f : A -> act Net B) :
  (forall a, r = Ok a -> types_within (f a)) -> types_within (Ret r ≫= f).
Proof. intros Hf. destruct r as [a|e]; [by apply Hf|done]. Qed.

Section handlers.
Context `{GraphEnv}.

Lemma within_list_event r event : forward r = false ->
  (forall a, event_author event = Ok a -> is_key a) -> types_within (process_list_event r (prefix_of r) event).
Proof.
  intros Hr Ha. unfold process_list_event. apply within_ret. intros pub Ep%Ha. apply within_ret. intros l El.
  pose proof (event_p_tags_keys _ _ El) as Hl.
  destruct l as [|x l].
  - apply within_bind; [apply within_tx, keeps_remove|]. intros removed. by apply within_reverse.
  - apply within_bind; [apply within_tx, keeps_merge; auto; by intros ->|]. intros _.
    apply within_bind; [apply within_tx, keeps_remove|]. intros removed. by apply within_reverse.
Qed.

Lemma within_event event : (forall a, event_author event = Ok a -> is_key a) -> types_within (process_strfry_event event).
Proof.
  intros Ha. unfold process_strfry_event. apply within_ret. intros kind _.
  destruct (json_is_int kind 3); [by apply (within_list_event FOLLOWS)|].
  destruct (json_is_int kind 10000); [by apply (within_list_event MUTES)|].
  destruct (json_is_int kind 1984).
  { unfold process_event_kind_1984. apply within_ret. intros pub Ep%Ha. apply within_ret. intros l El.
    pose proof (report_targets_keys _ _ El) as Hl. destruct l as [|x l]; [done|].
    apply within_bind; [by apply within_tx, keeps_merge|]. intros _. by apply (within_reverse REPORTS). }
  destruct (json_is_int kind 5).
  { unfold process_event_kind_5. apply within_ret. intros pub Ep%Ha.
    apply within_bind; [by apply within_tx, keeps_reads|]. intros current. destruct (decide _); [done|].
    destruct (fetch_author_user_reports _ _) as [reports|]; [|done]. apply within_ret. intros S ES.
    pose proof (surviving_keys _ _ _ ES) as HS. cbv zeta.
    apply within_bind; [case_decide; [done|apply within_tx, keeps_delete]|]. intros _.
    apply within_bind.
    { case_decide; [done|]. apply within_tx, keeps_merge; [done| |done]. intros t. rewrite elem_of_elements. set_solver. }
    intros _. apply (within_reverse REPORTS); [done|done|]. intros t. rewrite elem_of_elements. apply HS. }
  destruct (json_is_int kind DESIGNATION_KIND).
  { unfold process_event_kind_10040. apply within_ret. intros pub Ep%Ha. apply within_ret. intros tags Et.
    apply within_ret. intros l El. pose proof (designated_keys _ _ _ (list_tags_shaped _ _ Et) El) as Hl.
    apply within_bind; [by apply within_tx, keeps_designate|]. intros _. by apply within_tx, keeps_replace_set. }
  destruct (json_is_int kind TAGGING_KIND); [|done].
  induction (process_event_kind_39999 event) as [r|B f k IH]; [done|]. split; [|intros r; apply IH].
  intros n [H1 H2 H3]. destruct (f (tag_store n)) as [r st]. by split.
Qed.

(** The author of an event is the key that signed it: what a relay gives out carries one. *)
Definition relayed (message : string) : Prop :=
  forall event a, json_loads message = Ok event -> event_author event = Ok a -> is_key a.

(** Consumers and rebuilds, of any number of instances. *)
Inductive graph_handler : act Net unit -> Prop :=
  | consumer_runs message : relayed message -> graph_handler (consume_strfry_message message)
  | backfill_runs fuel : graph_handler (_ ← backfill_redis_relationships_if_needed fuel; mret tt).

(** The profile resolver, another program, records who zaps through whom. *)
Inductive resolver (n : Net) : Net -> Prop :=
  | resolver_edge s t : is_key s -> kept_key t ->
      resolver n (with_graph (fun N => {[s; t]} ∪ N) (fun E => {[(ZAPS_VIA, s, t)]} ∪ E) n)
  | resolver_set s t : is_key s -> kept_key t ->
      resolver n (with_sets (fun S => {[member ZAPS_VIA s t]} ∪ S) n).

Lemma resolver_keeps n n' : typed n -> resolver n n' -> typed n'.
Proof.
  intros Hn Hr. destruct Hr as [s t Hs Ht|s t Hs Ht]; pose proof (kept_is_key s Hs).
  - apply typed_with_graph; [done|set_solver|set_solver|]. intros r' s' t'.
    intros [[= -> -> ->]%elem_of_singleton|?]%elem_of_union; [right|by left]. split_and!; [set_solver..|]. by split_and!.
  - destruct Hn as [H1 H2 H3]. split; [done|done|]. simpl.
    intros km [->%elem_of_singleton|?]%elem_of_union; [|by apply H3]. exists ZAPS_VIA, s, t. done.
Qed.

Abbreviation safe := (safe_from anything typed).

(** What the rebuild read was typed, so what it writes is. *)
Lemma safe_backfill_pages fuel r : forall cursor w s0,
  safe s0 (backfill_pages fuel r (prefix_of r) (forward r) cursor w) (fun _ _ => True).
Proof.
  induction fuel as [|fuel IH]; intros cursor w s0; [done|]. cbn [backfill_pages].
  eapply act_safe_bind; [done|done| |].
  - apply (safe_tx _ _ s0 (read_page r cursor)
             (fun page _ => forall s ts t, (s, ts) ∈ page -> t ∈ ts -> typed_edge r s t)).
    intros n _ Hn. split; [by split|]. simpl. intros s ts t Hs Ht.
    apply list_elem_of_fmap in Hs as (s' & [= -> ->] & _). apply elem_of_elements, elem_targets_of in Ht.
    by apply (typed_edges n Hn).
  - intros page n _ Hpage. eapply act_safe_bind; [done|done|apply within_safe, within_pipe|].
    + intros c Hc. apply list_elem_of_fmap in Hc as ([k m] & -> & Hkm).
      unfold page_commands in Hkm. apply list_elem_of_join in Hkm as (l & Hl & Hin).
      apply list_elem_of_fmap in Hin as ([s ts] & -> & Hin). apply list_elem_of_fmap in Hl as (t & E & Ht).
      pose proof (keeps_sadd r s t (Hpage s ts t Hin Ht)) as Hk. unfold member in Hk. destruct (forward r); injection E as -> ->; exact Hk.
    + intros _ n' _ _. destruct (page_max page); [apply IH|done].
Qed.

Lemma safe_backfill_all fuel rels fwd : (forall r p, (r, p) ∈ rels -> p = prefix_of r /\ fwd = forward r) ->
  forall s0, safe s0 (backfill_all fuel rels fwd) (fun _ _ => True).
Proof.
  induction rels as [|[r p] rels IH]; intros Hr s0; [done|]. cbn [backfill_all].
  destruct (Hr r p) as [-> ->]; [set_solver|]. eapply act_safe_bind; [done|done|apply safe_backfill_pages|].
  intros [w|] n _ _; [|done]. apply IH. set_solver.
Qed.

Lemma safe_handler h s0 : graph_handler h -> typed s0 -> safe s0 h (fun _ _ => True).
Proof.
  intros [message Hm|fuel] _.
  - apply within_safe. unfold consume_strfry_message. apply within_try; [|done].
    apply within_ret. intros event Ee. apply within_event. intros a. by apply Hm.
  - eapply act_safe_bind with (P := fun _ _ => True); [done|done| |done].
    unfold backfill_redis_relationships_if_needed.
    eapply act_safe_bind; [done|done|by apply within_safe, within_tx, keeps_reads|]. intros [] n1 _ _; [done|].
    eapply act_safe_bind; [done|done|by apply within_safe, within_session, keeps_reads|]. intros [] n2 _ _; [|done].
    eapply act_safe_bind; [done|done|by apply within_safe, within_tx, keeps_reads|]. intros [] n3 _ _; [done|].
    eapply act_safe_bind; [done|done|apply safe_backfill_all|].
    { intros r p Hr. repeat (apply elem_of_cons in Hr as [[= -> ->]|Hr]; [done|]). set_solver. }
    intros a n4 _ _. eapply act_safe_bind with (P := fun _ _ => True); [done|done| |].
    { destruct a; [|done]. apply safe_backfill_all.
      intros r p Hr. repeat (apply elem_of_cons in Hr as [[= -> ->]|Hr]; [done|]). set_solver. }
    intros [b|] n5 _ _; [|done]. eapply act_safe_bind; [done|done| |done].
    apply within_safe, within_tx, keeps_writes. intros n [H1 H2 H3]. by split.
Qed.


(** ** Deletions *)

(** A deletion reconciles the author's reports with the relay, and only when the
    relay's answer is known to be whole: if the author has no report edges, or the
    relay could not be read, closed the request, or returned a suspicious number of
    events, nothing at all changes; otherwise the author ends with an edge to exactly
    the users that some event the relay still holds reports, and nobody else's edges
    change. *)
Theorem deletion_reconciles (event : json) (author : string) (n : Net) :
  event_author event = Ok author -> mirrored n ->
  let n' := (run_act (process_event_kind_5 event) n).2 in
  match fetch_author_user_reports author (report_frames event) with
  | None => n' = n
  | Some reports =>
      match surviving_report_targets reports author with
      | Raise _ => n' = n
      | Ok _ =>
          (forall r s t, (r, s) <> (REPORTS, author) -> (r, s, t) ∈ edges n' <-> (r, s, t) ∈ edges n)
          /\ mirrored n'
          /\ if decide (targets_of REPORTS author (edges n) = ∅) then n' = n
             else forall t, (REPORTS, author, t) ∈ edges n' <-> exists ev, ev ∈ reports /\ reports_user author ev t
      end
  end.
Proof.
  intros Ea HM n'. pose proof (deletion_event_carries event n HM) as Hc. fold n' in Hc. rewrite Ea in Hc. cbn [mbind res_mbind] in Hc.
  assert (Hn : targets_of REPORTS author (edges n) = ∅ -> n' = n).
  { intros He. unfold n', process_event_kind_5. rewrite Ea. simpl. by destruct (decide _). }
  assert (Hno : fetch_author_user_reports author (report_frames event) = None -> n' = n).
  { intros Hf. unfold n', process_event_kind_5. rewrite Ea. simpl. destruct (decide _); [done|]. by rewrite Hf. }
  destruct (fetch_author_user_reports author (report_frames event)) as [reports|]; [|by apply Hno].
  destruct (surviving_report_targets reports author) as [S|e] eqn:ES; cbn [mbind res_mbind] in Hc.
  2:{ destruct (decide _) as [He|He]; [by apply Hn|]. simpl in Hc. unfold n'. by rewrite Hc. }
  destruct (decide (targets_of REPORTS author (edges n) = ∅)) as [He|He].
  - rewrite (Hn He). split_and!; done.
  - destruct Hc as (_ & HE & HM'). fold n' in HE, HM'. split_and!; [|done|].
    + intros r s t Hne. rewrite HE, elem_replace_out. naive_solver.
    + intros t. rewrite HE, elem_replace_out, elem_of_elements, (surviving_targets_exact _ _ _ ES). naive_solver.
Qed.
End handlers.

(** ** The graph on a small network

    Three users, messages that follow, unfollow and delete, and a relay that still
    holds one report: the theorems on ingestion applied to them, and what a failure
    between Neo4j and Redis leaves. *)

(** A decidable fact, by evaluation; the sets themselves are not read back. *)
Ltac by_decision := match goal with |- ?P => apply (bool_decide_eq_true_1 P); vm_compute; reflexivity end.

Definition key (c : ascii) : string := of_chars (replicate 64 c).
Definition alice : string := key "a".
Definition bob : string := key "b".
Definition carol : string := key "c".

Definition p_tag (k : string) : json := JList [JStr "p"; JStr k].
Definition event_of (kind : Z) (author : string) (tags : list json) : json :=
  JObj [("kind", JInt kind); ("pubkey", JStr author); ("tags", JList tags)].

Definition messages : list (string * json) :=
  [("alice follows bob and carol", event_of 3 alice [p_tag bob; p_tag (py_lower carol); p_tag "short"]);
   ("alice follows carol", event_of 3 alice [p_tag carol]);
   ("alice follows nobody", event_of 3 alice []);
   ("alice reports bob and carol", event_of 1984 alice [p_tag bob; p_tag carol]);
   ("alice deletes", event_of 5 alice [])].

(** The relay still holds alice's report of bob. *)
Definition held : json := event_of 1984 alice [p_tag bob].
Definition sub_id : json := JStr ("report-recompute-" ++ String.substring 0 8 alice).

#[export] Instance small_env : GraphEnv := {|
  report_frames := fun _ => [None; Some (JList [JStr "EVENT"; sub_id; held]); Some (JList [JStr "EOSE"; sub_id])];
  graph_tags := {| json_loads := fun m => match dict_get m messages with Some e => Ok e | None => Raise ValueError end |};
|}.

Definition empty_net : Net :=
  {| nodes := ∅; edges := ∅; redis_sets := ∅; done_marker := false; transfers_completed := ∅;
     tag_store := {| nostr_tag_element := ∅; nostr_user_tagging := ∅ |} |}.

Lemma empty_mirrored : mirrored empty_net.
Proof. intros r s t. simpl. set_solver. Qed.

Lemma consumer_refines_witness :
  edges (consume empty_net ["alice follows bob and carol"; "not JSON"; "alice follows carol"])
    = foldl message_update ∅ ["alice follows bob and carol"; "not JSON"; "alice follows carol"]
  /\ mirrored (consume empty_net ["alice follows bob and carol"; "not JSON"; "alice follows carol"]).
Proof.
  destruct (consumer_refines ["alice follows bob and carol"; "not JSON"; "alice follows carol"] empty_net empty_mirrored) as (H1 & H2 & _).
  split; [exact H1|exact H2].
Defined.

(** Carol is the one alice follows. *)
Example follow_list_replaced :
  edges (consume empty_net ["alice follows bob and carol"; "not JSON"; "alice follows carol"]) = {[(FOLLOWS, alice, carol)]}.
Proof. by_decision. Qed.

(** ** Deletion *)

Definition reporting : Net := consume empty_net ["alice reports bob and carol"].

Lemma deletion_reconciles_witness :
  let n' := (run_act (process_event_kind_5 (event_of 5 alice [])) reporting).2 in
  (forall r s t, (r, s) <> (REPORTS, alice) -> (r, s, t) ∈ edges n' <-> (r, s, t) ∈ edges reporting)
  /\ mirrored n' /\ forall t, (REPORTS, alice, t) ∈ edges n' <-> exists ev, ev ∈ [held] /\ reports_user alice ev t.
Proof.
  assert (HM : mirrored reporting).
  { unfold reporting. by apply consume_mirrors, empty_mirrored. }
  assert (Hin : bob ∈ targets_of REPORTS alice (edges reporting)) by (apply elem_targets_of; by_decision).
  assert (Ef : fetch_author_user_reports alice (report_frames (event_of 5 alice [])) = Some [held]) by (by vm_compute).
  assert (Es : is_ok (surviving_report_targets [held] alice) = true) by (by vm_compute).
  generalize dependent reporting. intros N HM Hin.
  pose proof (deletion_reconciles (event_of 5 alice []) alice N eq_refl HM) as H.
  destruct (surviving_report_targets [held] alice) as [S|] eqn:ES; [|done].
  cbv zeta in H. rewrite Ef, ES in H. destruct (decide _) as [He|_]; [|exact H].
  clear -Hin He. exfalso. rewrite He in Hin. set_solver.
Defined.

Example only_bob_remains : edges (consume reporting ["alice deletes"]) = {[(REPORTS, alice, bob)]}.
Proof. by_decision. Qed.

(** ** Types under interleaving *)

Lemma empty_typed : typed empty_net.
Proof. split; simpl; set_solver. Qed.

Definition following : act Net unit := consume_strfry_message "alice follows bob and carol".


(** ** A failure between the two stores *)

(** The first [k] units of a handler. *)
Fixpoint run_units {S A} (k : nat) (p : act S A) (s : S) : S :=
  match k, p with
  | Datatypes.S k, Tx f c => run_units k (c (f s).1) (f s).2
  | _, _ => s
  end.

(** Alice unfollows everybody and the process dies after the write to Neo4j: bob keeps
    a follower he does not have, and the redelivered event, which finds no edge to
    remove, does not take it away; nor does the rebuild, which only adds. *)
Example lost_srem_is_not_repaired :
  let followed := consume empty_net ["alice follows bob and carol"] in
  let crashed := run_units 1 (consume_strfry_message "alice follows nobody") followed in
  let redelivered := consume crashed ["alice follows nobody"] in
  edges redelivered = ∅ /\ redis_sets redelivered = {[member FOLLOWS alice bob; member FOLLOWS alice carol]}
  /\ bool_decide (member FOLLOWS alice bob ∈ redis_sets (consume redelivered ["alice follows carol"])) = true.
Proof. cbv zeta. split_and!; [by_decision|by_decision|by vm_compute]. Qed.

(** A key with a newline behind it passes the check for 64 hex digits. *)
Example newline_passes : hex64_match (bob ++ of_chars [newline]) = true /\ String.length (bob ++ of_chars [newline]) = 65%nat.
Proof. by vm_compute. Qed.
