(* ===== verification/Transfer.v ===== *)
(** * Copying events from another relay

    [src/app/nostr_event_transferer/nostr_event_transferer.py] pages backwards through
    the events of each kind, hands every new one to the local relay, and records how
    far it got ([repos/brainstorm_nostr_transferer.py]); a periodic job catches up
    with what is recent.  Both loops fetch the next page before they are done with
    the last one, with a bound computed before the new [until].

    The source relay is an oracle, [fetch], of the kind, the round and the query's
    [until]; [sent] is what was handed to [publish_event], whose failures are only
    logged.  The loops take fuel and return [None] when it runs out. *)

From Stdlib Require Import Ascii String QArith.
From S2P Require Import Prelude NostrTags Tagging.
From stdpp Require Import list.
Local Open Scope string_scope.
Local Open Scope list_scope.
Local Open Scope Z_scope.

Record REvent := { rid : string; at_secs : Z }.
#[export] Instance REvent_eq_dec : EqDecision REvent.
Proof. solve_decision. Defined.

(** [BrainstormNostrRelayTransfer], by kind. *)
Record TransferStatus := { completed : bool; n_events : Z; oldest : Z; started_at : Q }.
Abbreviation transfers := (gmap Z TransferStatus).

Definition ev_kinds : list Z := [3; 10000; 1984; 5].
Definition tagging_ev_kinds : list Z := [TAGGING_KIND].
Definition LIMIT : nat := 300.

Class RelayEnv := {
  fetch : Z -> nat -> option Z -> res exn (list REvent);
  time_time : Z -> Q;
}.

(** [Timestamp.from_secs] takes an unsigned integer. *)
Definition from_secs (z : Z) : res exn Z := if z <? 0 then Raise OverflowError else Ok z.

(** [until] as Python tests it. *)
Definition truthy (u : option Z) : bool := match u with Some z => negb (z =? 0) | None => false end.

Definition AssertionError : exn := OtherException "AssertionError".

(** The smallest timestamp of a page. *)
Definition oldest_of (e : REvent) (l : list REvent) : Z := foldl (fun m x => Z.min m (at_secs x)) (at_secs e) l.

(** The variables of a loop; [next_fetch] is the query of the task already under
    way. *)
Record Loop := {
  until : option Z;
  total_events : Z;
  seen : list string;
  next_fetch : option (option Z);
  sent : list REvent;
}.

Inductive Round := Next (s : Loop) | Exhausted (s : Loop).

(** The events of a page that were not seen, in order, and the ids seen with them. *)
Fixpoint fresh_events (seen : list string) (events : list REvent) : list string * list REvent :=
  match events with
  | [] => (seen, [])
  | e :: es =>
      if bool_decide (rid e ∈ seen) then fresh_events seen es
      else let '(seen', new) := fresh_events (seen ++ [rid e]) es in (seen', e :: new)
  end.

Definition all_at (t : Z) (events : list REvent) : bool := forallb (fun e => at_secs e =? t) events.

(** ** The first transfer *)

Definition transfer_round (answer : option Z -> res exn (list REvent)) (s : Loop) : res exn Round :=
  flt ← (match until s with None => mret None | Some u => Some <$> from_secs u end);
  page ← answer (default flt (next_fetch s));
  let events := match until s with
                | Some u => if u =? 0 then page else base.filter (fun e => at_secs e <= u) page
                | None => page
                end in
  match events with
  | [] => if truthy (until s) then mret (Exhausted s) else Raise AssertionError
  | e :: es =>
      let oldest_ts := oldest_of e es in
      next ← (match until s with None => mret None | Some _ => Some <$> from_secs oldest_ts end);
      let '(seen', new) := fresh_events (seen s) events in
      mret (Next {| until := Some (if all_at oldest_ts events then oldest_ts - 1 else oldest_ts);
                    total_events := total_events s + Z.of_nat (length new); seen := seen';
                    next_fetch := Some next; sent := sent s ++ new |})
  end.

Section transfer.
Context `{RelayEnv}.

(** [upsert_nostr_transfer_status_on_db] *)
Definition upsert_status (kind : Z) (done : bool) (s : Loop) (started : Q) (tbl : transfers) : transfers :=
  <[kind := {| completed := done; n_events := total_events s; oldest := default 0 (until s); started_at := started |}]> tbl.

Fixpoint transfer_loop (fuel round : nat) (kind : Z) (started : Q) (s : Loop) (tbl : transfers)
  : option (res exn Loop * transfers) :=
  match fuel with
  | O => None
  | S fuel =>
      match transfer_round (fetch kind round) s with
      | Raise e => Some (Raise e, tbl)
      | Ok (Exhausted s') => Some (Ok s', upsert_status kind true s' started tbl)
      | Ok (Next s') => transfer_loop fuel (S round) kind started s' (upsert_status kind false s' started tbl)
      end
  end.

(** Where a kind is taken up: [None] when it is complete. *)
Definition resume (kind : Z) (tbl : transfers) : option (Loop * Q) :=
  let fresh u n := {| until := u; total_events := n; seen := []; next_fetch := None; sent := [] |} in
  match tbl !! kind with
  | Some st => if completed st then None else Some (fresh (Some (oldest st)) (n_events st), started_at st)
  | None => Some (fresh None 0, time_time kind)
  end.

Fixpoint transfer_kinds (fuel : nat) (kinds : list Z) (tbl : transfers) (out : list REvent)
  : option (res exn unit * transfers * list REvent) :=
  match kinds with
  | [] => Some (Ok tt, tbl, out)
  | kind :: rest =>
      match resume kind tbl with
      | None => transfer_kinds fuel rest tbl out
      | Some (s, started) =>
          match transfer_loop fuel 0 kind started s tbl with
          | None => None
          | Some (Raise e, tbl') => Some (Raise e, tbl', out)
          | Some (Ok s', tbl') => transfer_kinds fuel rest tbl' (out ++ sent s')
          end
      end
  end.

Definition nostr_event_transferer (fuel : nat) (tbl : transfers) :=
  transfer_kinds fuel (ev_kinds ++ tagging_ev_kinds) tbl [].

(** ** Catching up *)

(** [deque(maxlen=5000)] beside a set: at the capacity the first is forgotten. *)
Definition SEEN_MAX : nat := 5000.

Fixpoint fresh_bounded (seen : list string) (events : list REvent) : list string * list REvent :=
  match events with
  | [] => (seen, [])
  | e :: es =>
      if bool_decide (rid e ∈ seen) then fresh_bounded seen es
      else
        let seen1 := seen ++ [rid e] in
        let '(seen', new) := fresh_bounded (if (length seen1 =? SEEN_MAX)%nat then drop 1 seen1 else seen1) es in
        (seen', e :: new)
  end.

Definition recent_round (stop_time : Z) (answer : option Z -> res exn (list REvent)) (s : Loop) : res exn Round :=
  flt ← (match until s with None => mret None | Some u => Some <$> from_secs u end);
  page ← answer (default flt (next_fetch s));
  match base.filter (fun e => stop_time <= at_secs e) page with
  | [] => mret (Exhausted s)
  | e :: es =>
      let events := e :: es in
      let oldest_ts := match until s with
                       | Some u => if negb (u =? 0) && (u <? oldest_of e es) then u else oldest_of e es
                       | None => oldest_of e es
                       end in
      next ← from_secs oldest_ts;
      let '(seen', new) := fresh_bounded (seen s) events in
      let new_until := if all_at oldest_ts events then oldest_ts - 1 else oldest_ts in
      mret (Next {| until := Some (match until s with
                                   | Some u => if negb (u =? 0) && (new_until =? u) then u - 1 else new_until
                                   | None => new_until
                                   end);
                    total_events := total_events s + Z.of_nat (length new); seen := seen';
                    next_fetch := Some (Some next); sent := sent s ++ new |})
  end.

Fixpoint recent_loop (fuel round : nat) (kind stop_time : Z) (s : Loop) : option (res exn Loop) :=
  match fuel with
  | O => None
  | S fuel =>
      match recent_round stop_time (fetch kind round) s with
      | Raise e => Some (Raise e)
      | Ok (Exhausted s') => Some (Ok s')
      | Ok (Next s') => recent_loop fuel (S round) kind stop_time s'
      end
  end.

Definition start_recent : Loop :=
  {| until := None; total_events := 0; seen := []; next_fetch := None; sent := [] |}.

(** [int(q)]. *)
Definition py_trunc (q : Q) : Z := Z.quot (Qnum q) (Zpos (Qden q)).

(** One kind: skipped without a first transfer; on success the new start is stored. *)
Definition recent_kind (fuel : nat) (kind : Z) (tbl : transfers) : option (res exn (list REvent) * transfers) :=
  match tbl !! kind with
  | Some st =>
      if Qeq_bool (started_at st) 0 then Some (Ok [], tbl)
      else
        match recent_loop fuel 0 kind (py_trunc (started_at st) - 60 * 3) start_recent with
        | None => None
        | Some (Raise e) => Some (Raise e, tbl)
        | Some (Ok s) =>
            Some (Ok (sent s), <[kind := {| completed := true; n_events := total_events s; oldest := oldest st;
                                            started_at := time_time kind |}]> tbl)
        end
  | None => Some (Ok [], tbl)
  end.

Fixpoint recent_kinds (fuel : nat) (kinds : list Z) (tbl : transfers) (out : list REvent)
  : option (res exn unit * transfers * list REvent) :=
  match kinds with
  | [] => Some (Ok tt, tbl, out)
  | kind :: rest =>
      match recent_kind fuel kind tbl with
      | None => None
      | Some (Raise e, tbl') => Some (Raise e, tbl', out)
      | Some (Ok new, tbl') => recent_kinds fuel rest tbl' (out ++ new)
      end
  end.

Definition nostr_event_recent_transferer (fuel : nat) (tbl : transfers) := recent_kinds fuel ev_kinds tbl [].
End transfer.
