(* ===== verification/TransferProps.v ===== *)
(** * Termination and exactness of the transfers

    [transfer_terminates]: the first transfer ends whatever the relay answers, as
    long as no event is dated within two seconds of the epoch.
    [recent_transfer_exact]: catching up ends and hands over every event since the
    stop time, unless one second holds a whole page.  The examples at the end are
    the events the first transfer misses. *)

From Stdlib Require Import Ascii String QArith.
From S2P Require Import Prelude NostrTags Tagging Transfer.
From stdpp Require Import list.
Local Open Scope string_scope.
Local Open Scope list_scope.
Local Open Scope Z_scope.

(** ** The oldest of a page *)

Lemma fold_min_spec l m :
  let o := foldl (fun m x => Z.min m (at_secs x)) m l in
  (o = m \/ exists e, e ∈ l /\ at_secs e = o) /\ o <= m /\ forall e, e ∈ l -> o <= at_secs e.
Proof.
  revert m. induction l as [|x l IH]; intros m; simpl; [split_and!; [by left|lia|set_solver]|].
  destruct (IH (Z.min m (at_secs x))) as (H1 & H2 & H3). set (o := foldl _ _ l) in *. split_and!; [|lia|].
  - destruct H1 as [H1|(e & He & Ho)]; [|right; exists e; set_solver].
    destruct (Z.min_spec m (at_secs x)) as [[_ E]|[_ E]]; [by left; congruence|right]. exists x. split; [set_solver|congruence].
  - intros e [->|He]%elem_of_cons; [lia|by apply H3].
Qed.

Lemma oldest_of_elem e l : exists x, x ∈ e :: l /\ at_secs x = oldest_of e l.
Proof.
  destruct (fold_min_spec l (at_secs e)) as ([H|(x & Hx & Ho)] & _ & _); [exists e|exists x]; split; set_solver.
Qed.

Lemma oldest_of_le e l x : x ∈ e :: l -> oldest_of e l <= at_secs x.
Proof.
  destruct (fold_min_spec l (at_secs e)) as (_ & H2 & H3). intros [->|Hx]%elem_of_cons; [exact H2|by apply H3].
Qed.

Lemma all_at_spec t l : all_at t l = true <-> forall e, e ∈ l -> at_secs e = t.
Proof.
  unfold all_at. rewrite forallb_forall. setoid_rewrite <- list_elem_of_In. setoid_rewrite Z.eqb_eq. done.
Qed.

(** A page that is not all of one second reaches below its newest. *)
Lemma not_all_at e l : all_at (oldest_of e l) (e :: l) = false -> exists x, x ∈ e :: l /\ oldest_of e l < at_secs x.
Proof.
  intros H. destruct (decide (Forall (fun x => at_secs x = oldest_of e l) (e :: l))) as [HF|HF].
  - rewrite Forall_forall in HF. by rewrite (proj2 (all_at_spec _ _) HF) in H.
  - apply not_Forall_Exists in HF; [|intros x; apply _]. apply Exists_exists in HF as (x & Hx & Hne).
    exists x. split; [done|]. pose proof (oldest_of_le e l x Hx). simpl in Hne. lia.
Qed.

(** ** The first transfer ends *)

Section terminates.
Context `{RelayEnv} (B : Z).

Definition in_bounds (e : REvent) : Prop := 2 <= at_secs e <= B.
Definition bounded_answers : Prop :=
  forall kind round q page e, fetch kind round q = Ok page -> e ∈ page -> in_bounds e.

Lemma transfer_round_next answer s s' :
  (forall q page e, answer q = Ok page -> e ∈ page -> in_bounds e) ->
  transfer_round answer s = Ok (Next s') ->
  exists u', until s' = Some u' /\ 1 <= u' <= B /\ forall u, until s = Some u -> 1 <= u -> u' < u.
Proof.
  intros Hb. unfold transfer_round. intros (flt & _ & (page & Ep & E)%res_bind_Ok)%res_bind_Ok.
  set (events := match until s with Some u => if u =? 0 then page else _ | None => page end) in E.
  assert (Hev : forall x, x ∈ events -> in_bounds x /\ forall u, until s = Some u -> 1 <= u -> at_secs x <= u).
  { intros x Hx. unfold events in Hx. clear E. destruct (until s) as [v|].
    - destruct (Z.eqb_spec v 0) as [Hv|Hv].
      + split; [by eapply Hb|]. intros u' [= <-]. lia.
      + apply list_elem_of_filter in Hx as [Hle Hx]. split; [by eapply Hb|]. by intros u' [= <-].
    - split; [by eapply Hb|done]. }
  destruct events as [|e es]; [by destruct (truthy _)|].
  apply res_bind_Ok in E as (next & _ & E). destruct (fresh_events _ _) as [seen' new]. injection E as <-. cbn [until].
  destruct (oldest_of_elem e es) as (x0 & Hx0 & Ho). destruct (Hev x0 Hx0) as [[Hlo Hhi] Hu0].
  exists (if all_at (oldest_of e es) (e :: es) then oldest_of e es - 1 else oldest_of e es). split; [done|].
  destruct (all_at (oldest_of e es) (e :: es)) eqn:Ea.
  - split; [lia|]. intros u Hu Hu1. specialize (Hu0 u Hu Hu1). lia.
  - split; [lia|]. intros u Hu Hu1. destruct (not_all_at _ _ Ea) as (x & Hx & Hlt).
    destruct (Hev x Hx) as [_ Hxu]. specialize (Hxu u Hu Hu1). lia.
Qed.

Definition rows_in_bounds (tbl : transfers) : Prop :=
  forall kind st, tbl !! kind = Some st -> completed st = false -> 1 <= oldest st <= B.

Lemma rows_upsert kind done_ s started tbl : rows_in_bounds tbl ->
  (done_ = false -> exists u, until s = Some u /\ 1 <= u <= B) -> rows_in_bounds (upsert_status kind done_ s started tbl).
Proof.
  intros Htbl Hs k st Hk Hc. unfold upsert_status in Hk. apply lookup_insert_Some in Hk as [[_ <-]|[_ Hk]]; [|by eapply Htbl].
  simpl in *. destruct (Hs Hc) as (u & -> & Hu). done.
Qed.

Lemma transfer_loop_ends (Hb : bounded_answers) fuel : forall round kind started s tbl u,
  until s = Some u -> 1 <= u < Z.of_nat fuel -> rows_in_bounds tbl ->
  exists r tbl', transfer_loop fuel round kind started s tbl = Some (r, tbl') /\ rows_in_bounds tbl'.
Proof.
  induction fuel as [|fuel IH]; intros round kind started s tbl u Hu Hf Htbl; [lia|]. cbn [transfer_loop].
  destruct (transfer_round (fetch kind round) s) as [[s'|s']|e] eqn:E; [|eexists _, _; split; [done|]|eauto].
  - destruct (transfer_round_next _ _ _ (Hb kind round) E) as (u' & Hu' & Hbound & Hlt).
    specialize (Hlt u Hu ltac:(lia)). apply (IH _ _ _ _ _ u'); [done|lia|].
    apply rows_upsert; [done|]. eauto.
  - by apply rows_upsert.
Qed.

Lemma transfer_kinds_ends (Hb : bounded_answers) fuel kinds : forall tbl out,
  0 <= B -> B + 2 <= Z.of_nat fuel -> rows_in_bounds tbl -> exists r, transfer_kinds fuel kinds tbl out = Some r.
Proof.
  induction kinds as [|kind kinds IH]; intros tbl out HB Hf Htbl; cbn [transfer_kinds]; [eauto|].
  destruct (resume kind tbl) as [[s started]|] eqn:Er; [|by apply IH].
  enough (exists r tbl', transfer_loop fuel 0 kind started s tbl = Some (r, tbl') /\ rows_in_bounds tbl') as (r & tbl' & E & Htbl').
  { rewrite E. destruct r as [s'|e]; [by apply IH|eauto]. }
  unfold resume in Er. destruct (tbl !! kind) as [st|] eqn:Est.
  - destruct (completed st) eqn:Ec; [done|]. injection Er as <- <-.
    destruct (Htbl _ _ Est Ec). eapply transfer_loop_ends; [done|done|lia|done].
  - injection Er as <- <-. destruct fuel as [|fuel]; [lia|cbn [transfer_loop]].
    destruct (transfer_round _ _) as [[s'|s']|e] eqn:E; [|eexists _, _; split; [done|]|eauto].
    + destruct (transfer_round_next _ _ _ (Hb kind 0%nat) E) as (u' & Hu' & Hbound & _).
      eapply transfer_loop_ends; [done|done|lia|].
      apply rows_upsert; [done|]. eauto.
    + by apply rows_upsert.
Qed.

(** C19: the first transfer always ends, whatever the source relay answers and however
    inconsistently, provided no event is dated before the second second of 1970: each
    round moves [until] strictly down, so no kind takes more rounds than the newest
    timestamp. *)
Theorem transfer_terminates (fuel : nat) (tbl : transfers) :
  bounded_answers -> rows_in_bounds tbl -> 0 <= B -> B + 2 <= Z.of_nat fuel ->
  exists r, nostr_event_transferer fuel tbl = Some r.
Proof. intros Hb Htbl HB Hf. by apply transfer_kinds_ends. Qed.
End terminates.

(** ** Catching up is exact *)

Lemma filter_all {A} (P : A -> Prop) `{!forall x, Decision (P x)} (l : list A) :
  (forall x, x ∈ l -> P x) -> base.filter P l = l.
Proof.
  induction l as [|x l IH]; intros Hl; [done|]. rewrite filter_cons_True by (apply Hl; set_solver).
  f_equal. apply IH. set_solver.
Qed.

(** What a round marks as seen it sent, now or before. *)
Lemma fresh_bounded_spec events : forall seen0 (sent0 : list REvent),
  (forall i, i ∈ seen0 -> i ∈ rid <$> sent0) ->
  let '(seen', new) := fresh_bounded seen0 events in
  (forall i, i ∈ seen' -> i ∈ rid <$> (sent0 ++ new)) /\ (forall x, x ∈ new -> x ∈ events)
  /\ forall x, x ∈ events -> rid x ∈ rid <$> (sent0 ++ new).
Proof.
  induction events as [|e es IH]; intros seen0 sent0 Hs; cbn [fresh_bounded].
  { rewrite app_nil_r. split_and!; [done|set_solver|set_solver]. }
  case_bool_decide as He.
  - specialize (IH seen0 sent0 Hs). destruct (fresh_bounded seen0 es) as [seen' new]. destruct IH as (H1 & H2 & H3).
    split_and!; [done|set_solver|]. intros x [->|Hx]%elem_of_cons; [|by apply H3].
    rewrite fmap_app, elem_of_app. left. by apply Hs.
  - cbv zeta. set (seen1 := if (length (seen0 ++ [rid e]) =? SEEN_MAX)%nat then _ else _).
    assert (Hs1 : forall i, i ∈ seen1 -> i ∈ rid <$> (sent0 ++ [e])).
    { intros i Hi. assert (Hi' : i ∈ seen0 ++ [rid e]).
      { unfold seen1 in Hi. destruct (Nat.eqb _ _); [|done]. rewrite <- (take_drop 1 (seen0 ++ [rid e])). apply elem_of_app. by right. }
      rewrite fmap_app. apply elem_of_app in Hi' as [Hi'|Hi']; apply elem_of_app; [left; by apply Hs|by right]. }
    specialize (IH seen1 (sent0 ++ [e]) Hs1). destruct (fresh_bounded seen1 es) as [seen' new].
    rewrite <- app_assoc in IH. destruct IH as (H1 & H2 & H3). cbn [app] in H1, H3. split_and!; [done|set_solver|].
    intros x [->|Hx]%elem_of_cons; [|by apply H3]. apply list_elem_of_fmap. exists e. split; [done|set_solver].
Qed.

Section recent.
Context `{RelayEnv} (kind stop_time B : Z) (R : list REvent).

(** A relay that answers with the newest events within the query, up to LIMIT. *)
Definition within_query (q : option Z) (x : REvent) : Prop := from_option (fun u => at_secs x <= u) True q.
Definition honest : Prop :=
  forall round q, exists page, fetch kind round q = Ok page /\ NoDup page /\ (length page <= LIMIT)%nat
    /\ (forall e, e ∈ page -> e ∈ R /\ within_query q e)
    /\ forall x, x ∈ R -> within_query q x -> x ∈ page \/ (length page = LIMIT /\ forall e, e ∈ page -> at_secs x <= at_secs e).

(** No second holds a whole page. *)
Definition sparse : Prop :=
  forall t l, NoDup l -> (forall e, e ∈ l -> e ∈ R /\ at_secs e = t) -> (length l < LIMIT)%nat.

Context (Hhonest : honest) (Hsparse : sparse).
Context (Hids : forall x y, x ∈ R -> y ∈ R -> rid x = rid y -> x = y).
Context (Hstop : 2 <= stop_time) (HB : forall x, x ∈ R -> at_secs x <= B).

Definition due (x : REvent) : Prop := x ∈ R /\ stop_time <= at_secs x.

(** What is seen was sent. *)
Record tidy (s : Loop) : Prop := {
  tidy_seen : forall i, i ∈ seen s -> i ∈ rid <$> sent s;
  tidy_sent : forall x, x ∈ sent s -> due x;
}.

(** Between rounds: the next query and [until] are at most one apart, and everything
    due above the query has been sent. *)
Definition between (s : Loop) (q u : Z) : Prop :=
  next_fetch s = Some (Some q) /\ until s = Some u /\ q - 1 <= u <= q
  /\ forall x, due x -> x ∈ sent s \/ at_secs x <= q.

(** The page of a round, and what of it is due. *)
Lemma recent_page round q : exists page, fetch kind round q = Ok page /\
  let events := base.filter (fun e => stop_time <= at_secs e) page in
  (forall e, e ∈ events -> due e /\ within_query q e)
  /\ (events = [] -> forall x, due x -> within_query q x -> False)
  /\ forall x, due x -> within_query q x ->
       x ∈ events \/ (length events = LIMIT /\ NoDup events /\ forall e, e ∈ events -> at_secs x <= at_secs e).
Proof using All.
  destruct (Hhonest round q) as (page & E & Hnd & Hlen & Hin & Hall). exists page. split; [done|]. cbv zeta.
  set (events := base.filter (fun e => stop_time <= at_secs e) page).
  assert (Hcov : forall x, due x -> within_query q x ->
       x ∈ events \/ (events = page /\ length events = LIMIT /\ NoDup events /\ forall e, e ∈ events -> at_secs x <= at_secs e)).
  { intros x [Hx Hs] Hq. destruct (Hall x Hx Hq) as [Hp|[Hl Hle]]; [left; by apply list_elem_of_filter|right].
    assert (Ev : events = page) by (apply filter_all; intros e He; specialize (Hle e He); lia).
    by rewrite Ev. }
  split_and!.
  - intros e [Hs He]%list_elem_of_filter. destruct (Hin e He). done.
  - intros Hnil x Hx Hq. destruct (Hcov x Hx Hq) as [Hx'|(_ & Hl & _)]; [rewrite Hnil in Hx'; set_solver|by rewrite Hnil in Hl].
  - intros x Hx Hq. destruct (Hcov x Hx Hq) as [?|(_ & ?)]; auto.
Qed.

(** A page that leaves something due behind is not of one second. *)
Lemma left_behind (events : list REvent) (t : Z) : length events = LIMIT -> NoDup events ->
  (forall e, e ∈ events -> due e) -> (forall e, e ∈ events -> at_secs e = t) -> False.
Proof using All.
  intros Hl Hnd Hdue Hat. pose proof (Hsparse t events Hnd) as Hs. rewrite Hl in Hs.
  enough (LIMIT < LIMIT)%nat by lia. apply Hs. intros e He. split; [apply (Hdue e He)|by apply Hat].
Qed.

(** What a round does with a page that is not empty. *)
Lemma sent_after s e es seen' new : tidy s -> (forall x, x ∈ e :: es -> due x) ->
  fresh_bounded (seen s) (e :: es) = (seen', new) ->
  (forall i, i ∈ seen' -> i ∈ rid <$> (sent s ++ new)) /\ (forall x, x ∈ sent s ++ new -> due x)
  /\ forall x, x ∈ e :: es -> x ∈ sent s ++ new.
Proof using All.
  intros [Ht1 Ht2] Hdue Ef. pose proof (fresh_bounded_spec (e :: es) (seen s) (sent s) Ht1) as Hf.
  rewrite Ef in Hf. destruct Hf as (H1 & H2 & H3).
  assert (Hall : forall x, x ∈ sent s ++ new -> due x).
  { intros x [Hx|Hx]%elem_of_app; [by apply Ht2|by apply Hdue, H2]. }
  split_and!; [done|done|]. intros x Hx. specialize (H3 x Hx). apply list_elem_of_fmap in H3 as (y & Ey & Hy).
  rewrite (Hids x y); [done|apply Hdue, Hx|apply (Hall y Hy)|done].
Qed.

Lemma first_round : exists r, recent_round stop_time (fetch kind 0) start_recent = Ok r /\
  match r with
  | Next s' => tidy s' /\ exists q u, between s' q u /\ q <= B /\ stop_time - 2 <= u
  | Exhausted s' => s' = start_recent /\ forall x, due x -> False
  end.
Proof using All.
  unfold recent_round. cbn [until start_recent next_fetch mbind res_mbind mret res_mret default from_option].
  destruct (recent_page 0 None) as (page & -> & Hev & Hnil & Hcov). cbn [mbind res_mbind].
  set (events := base.filter _ page) in *. destruct events as [|e es].
  { eexists. split; [done|]. split; [done|]. intros x Hx. by apply (Hnil eq_refl x Hx). }
  destruct (oldest_of_elem e es) as (x0 & Hx0 & Ho). destruct (Hev x0 Hx0) as [[Hx0R Hx0s] _].
  unfold from_secs. destruct (Z.ltb_spec (oldest_of e es) 0); [lia|]. cbn [mbind res_mbind].
  destruct (fresh_bounded _ _) as [seen' new] eqn:Ef. eexists. split; [done|].
  assert (Htidy : tidy start_recent) by (split; simpl; set_solver).
  destruct (sent_after start_recent e es seen' new Htidy ltac:(intros x Hx; apply (Hev x Hx)) Ef) as (H1 & H2 & H3).
  split; [by split|]. exists (oldest_of e es), (if all_at (oldest_of e es) (e :: es) then oldest_of e es - 1 else oldest_of e es).
  split; [|split; [rewrite <- Ho; by apply HB|destruct (all_at _ _); lia]].
  split_and!; [done|done|destruct (all_at _ _); lia..|].
  intros x Hx. destruct (Hcov x Hx I) as [Hin|(_ & _ & Hle)]; [left; by apply H3|right].
  rewrite <- Ho. by apply Hle.
Qed.

Lemma later_round round s q u : tidy s -> between s q u -> stop_time - 2 <= u ->
  exists r, recent_round stop_time (fetch kind round) s = Ok r /\
  match r with
  | Next s' => tidy s' /\ exists q' u', between s' q' u' /\ q' + u' < q + u /\ stop_time - 2 <= u'
  | Exhausted s' => s' = s /\ forall x, due x -> x ∈ sent s
  end.
Proof using All.
  intros Htidy (Hq & Hu & Hqu & Hrest) Hlow. unfold recent_round. rewrite Hu, Hq. unfold from_secs.
  destruct (Z.ltb_spec u 0); [lia|]. cbn [fmap res_fmap mbind res_mbind default from_option id].
  destruct (recent_page round (Some q)) as (page & -> & Hev & Hnil & Hcov). cbn [mbind res_mbind within_query from_option] in *.
  set (events := base.filter _ page) in *. destruct events as [|e es].
  { eexists. split; [done|]. split; [done|]. intros x Hx. destruct (Hrest x Hx) as [?|Hle]; [done|].
    destruct (Hnil eq_refl x Hx Hle). }
  set (o := oldest_of e es). destruct (oldest_of_elem e es) as (x0 & Hx0 & Ho). fold o in Ho.
  destruct (Hev x0 Hx0) as [[Hx0R Hx0s] Hx0q]. simpl in Hx0q.
  destruct (Z.eqb_spec u 0) as [|Hu0]; [lia|]. cbn [negb andb].
  set (oldest_ts := if u <? o then u else o).
  assert (Hclamp : u < o -> o = q /\ u = q - 1 /\ forall x, x ∈ e :: es -> at_secs x = q).
  { intros Hlt. split; [lia|]. split; [lia|]. intros x Hx. destruct (Hev x Hx) as [_ Hxq]. simpl in Hxq.
    pose proof (oldest_of_le e es x Hx). fold o in H1. lia. }
  destruct (Z.ltb_spec oldest_ts 0) as [Hneg|_]; [unfold oldest_ts in Hneg; destruct (Z.ltb_spec u o); lia|].
  cbn [mbind res_mbind]. destruct (fresh_bounded _ _) as [seen' new] eqn:Ef. eexists. split; [done|].
  destruct (sent_after s e es seen' new Htidy ltac:(intros x Hx; apply (Hev x Hx)) Ef) as (H1 & H2 & H3).
  split; [by split|].
  set (nu := if all_at oldest_ts (e :: es) then oldest_ts - 1 else oldest_ts).
  exists oldest_ts, (if nu =? u then u - 1 else nu).
  assert (Hle : forall x, due x -> x ∈ sent s ++ new \/ at_secs x <= oldest_ts).
  { intros x Hx. destruct (Hrest x Hx) as [Hs|Hxq]; [left; set_solver|].
    destruct (Hcov x Hx Hxq) as [Hin|(Hl & Hnd & Hmin)]; [left; by apply H3|right]. specialize (Hmin x0 Hx0).
    unfold oldest_ts. destruct (Z.ltb_spec u o) as [Hlt|]; [|lia]. destruct (Hclamp Hlt) as (_ & _ & Hat).
    destruct (left_behind (e :: es) q Hl Hnd); [|exact Hat]. intros y Hy. apply (Hev y Hy). }
  enough (Hgoal : forall u', u' = (if nu =? u then u - 1 else nu) ->
    oldest_ts - 1 <= u' <= oldest_ts /\ oldest_ts + u' < q + u /\ stop_time - 2 <= u').
  { destruct (Hgoal _ eq_refl) as (? & ? & ?). split; [|done]. split_and!; [done|done|lia|lia|done]. }
  intros u' ->. destruct (Z.ltb_spec u o) as [Hlt|Hge].
  - (* the query was one second too far *)
    destruct (Hclamp Hlt) as (Hoq & Huq & Hat).
    assert (Eo : oldest_ts = u) by (unfold oldest_ts; destruct (Z.ltb_spec u o); lia).
    assert (Hnu : nu = u).
    { unfold nu. rewrite Eo. destruct (all_at u (e :: es)) eqn:Ea; [|done]. rewrite all_at_spec in Ea.
      specialize (Ea x0 Hx0). specialize (Hat x0 Hx0). lia. }
    rewrite Hnu, Z.eqb_refl. lia.
  - assert (Eo : oldest_ts = o) by (unfold oldest_ts; destruct (Z.ltb_spec u o); lia).
    assert (Hsame : o = q -> nu = q - 1).
    { intros Hoq. unfold nu. rewrite Eo. enough (all_at o (e :: es) = true) as -> by lia. apply all_at_spec. intros x Hx.
      destruct (Hev x Hx) as [_ Hxq]. simpl in Hxq. pose proof (oldest_of_le e es x Hx) as Hxo. fold o in Hxo. lia. }
    assert (Hrange : o - 1 <= nu <= o) by (unfold nu; rewrite Eo; destruct (all_at _ _); lia).
    clearbody nu. rewrite Eo. destruct (decide (o = q)) as [Hoq|Hoq]; [specialize (Hsame Hoq)|]; destruct (Z.eqb_spec nu u); lia.
Qed.

Lemma recent_loop_exact fuel : forall round s q u, tidy s -> between s q u -> stop_time - 2 <= u ->
  q + u - 2 * stop_time + 4 < Z.of_nat fuel ->
  exists s', recent_loop fuel round kind stop_time s = Some (Ok s') /\ tidy s' /\ forall x, due x -> x ∈ sent s'.
Proof using All.
  induction fuel as [|fuel IH]; intros round s q u Ht Hb Hlow Hf; [destruct Hb as (_ & _ & ? & _); lia|].
  cbn [recent_loop]. destruct (later_round round s q u Ht Hb Hlow) as ([s'|s'] & -> & Hr).
  - destruct Hr as (Ht' & q' & u' & Hb' & Hlt & Hlow'). apply (IH _ _ q' u'); [done|done|done|lia].
  - destruct Hr as [-> Hall]. by exists s.
Qed.
End recent.

(** C18: catching up ends and misses nothing: against a relay that answers each query
    with its newest matching events, up to 300, and in which no single second holds
    300 events of the kind, the loop ends within twice the covered span of rounds,
    without an exception, and every event dated at or after the stop time has been
    handed to the local relay, and nothing else has. *)
Theorem recent_transfer_exact `{RelayEnv} (kind stop_time B : Z) (R : list REvent) (fuel : nat) :
  honest kind R -> sparse R ->
  (forall x y, x ∈ R -> y ∈ R -> rid x = rid y -> x = y) ->
  2 <= stop_time -> (forall x, x ∈ R -> at_secs x <= B) -> 2 * (B - stop_time) + 6 <= Z.of_nat fuel -> (0 < fuel)%nat ->
  exists s', recent_loop fuel 0 kind stop_time start_recent = Some (Ok s')
    /\ forall x, x ∈ sent s' <-> x ∈ R /\ stop_time <= at_secs x.
Proof.
  intros Hh Hs Hi H2 HB Hf H0.
  enough (exists s', recent_loop fuel 0 kind stop_time start_recent = Some (Ok s') /\ tidy stop_time R s'
    /\ forall x, due stop_time R x -> x ∈ sent s') as (s' & E & Ht & Hall).
  { exists s'. split; [done|]. intros x. split; [apply (tidy_sent _ _ _ Ht)|apply Hall]. }
  destruct fuel as [|fuel]; [lia|]. cbn [recent_loop].
  destruct (first_round kind stop_time B R Hh Hs Hi H2 HB) as ([s'|s'] & -> & Hr).
  - destruct Hr as (Ht & q & u & Hb & Hq & Hlow).
    apply (recent_loop_exact kind stop_time B R Hh Hs Hi H2 HB fuel _ _ q u); [done|done|done|].
    destruct Hb as (_ & _ & ? & _). lia.
  - destruct Hr as [-> Hno]. exists start_recent. split; [done|]. split; [split; simpl; set_solver|]. intros x Hx. by destruct (Hno x).
Qed.

(** ** Concrete relays *)

(** A relay that keeps its events newest first. *)
Definition matches (q : option Z) (e : REvent) : bool := match q with Some u => at_secs e <=? u | None => true end.
Definition store_answer (R : list REvent) (q : option Z) : list REvent :=
  take LIMIT (base.filter (fun e => matches q e = true) R).

Lemma matches_spec q e : matches q e = true <-> within_query q e.
Proof. destruct q as [u|]; simpl; [apply Z.leb_le|done]. Qed.
Definition store_relay (R : list REvent) : RelayEnv :=
  {| fetch := fun _ _ q => Ok (store_answer R q); time_time := fun _ => 1000%Q |}.

Definition three : list REvent := [{| rid := "c"; at_secs := 9 |}; {| rid := "b"; at_secs := 9 |}; {| rid := "a"; at_secs := 5 |}].

Lemma store_answer_small R q e : (length R <= LIMIT)%nat ->
  e ∈ store_answer R q <-> e ∈ R /\ within_query q e.
Proof.
  intros Hl. unfold store_answer. rewrite take_ge.
  - rewrite list_elem_of_filter, matches_spec. tauto.
  - etransitivity; [apply length_filter|exact Hl].
Qed.

Lemma transfer_terminates_witness : exists r, @nostr_event_transferer (store_relay three) 12 ∅ = Some r.
Proof.
  apply (@transfer_terminates (store_relay three) 9).
  - intros kind round q page e [= <-] [He _]%store_answer_small; [|unfold LIMIT; simpl; lia].
    repeat (apply elem_of_cons in He as [->|He]; [split; simpl; lia|]). set_solver.
  - intros kind st Hk. by rewrite lookup_empty in Hk.
  - lia.
  - lia.
Defined.

Lemma recent_transfer_exact_witness :
  exists s', @recent_loop (store_relay three) 20 0 3 4 start_recent = Some (Ok s')
    /\ forall x, x ∈ sent s' <-> x ∈ three /\ 4 <= at_secs x.
Proof.
  assert (Hnd : NoDup three) by (apply (bool_decide_unpack _); by vm_compute).
  assert (Hlen : (length three <= LIMIT)%nat) by (unfold LIMIT; simpl; lia).
  apply (@recent_transfer_exact (store_relay three) 3 4 9 three 20).
  - intros round q. exists (store_answer three q). split; [done|]. split_and!.
    + unfold store_answer. assert (Hf : NoDup (base.filter (fun e => matches q e = true) three)) by by apply NoDup_filter.
      rewrite <- (take_drop LIMIT) in Hf. by apply NoDup_app in Hf as [? _].
    + unfold store_answer. rewrite length_take. lia.
    + intros e He. by apply store_answer_small.
    + intros x Hx Hq. left. by apply store_answer_small.
  - intros t l Hl Hin. eapply Nat.le_lt_trans with (length three); [|unfold LIMIT; simpl; lia].
    apply submseteq_length, NoDup_submseteq; [done|]. intros e He. by apply Hin.
  - intros x y Hx Hy. repeat (apply elem_of_cons in Hx as [->|Hx]; [|]); [..|set_solver];
      repeat (apply elem_of_cons in Hy as [->|Hy]; [done|]); set_solver.
  - lia.
  - intros x Hx. repeat (apply elem_of_cons in Hx as [->|Hx]; [simpl; lia|]). set_solver.
  - lia.
  - lia.
Defined.

(** *** What the first transfer misses *)

Definition numbered (n : nat) (t : Z) : REvent := {| rid := pretty (N.of_nat n); at_secs := t |}.

(** The kind's transfer from nothing: what was sent, and whether the row says it is
    complete. *)
Definition first_transfer (R : list REvent) (fuel : nat) : option (list REvent * bool) :=
  match @transfer_loop (store_relay R) fuel 0 3 0 {| until := None; total_events := 0; seen := []; next_fetch := None; sent := [] |} ∅ with
  | Some (Ok s, tbl) => Some (sent s, default false (completed <$> tbl !! 3))
  | _ => None
  end.

(** 299 events a second apart, two events in the second before them, one older: the
    page ends between the two.  The second query was made without a bound, so the
    next [until] steps over that second, and the other event of the pair is never
    handed over. *)
Definition split_relay : list REvent :=
  ((fun n => numbered n (2000 - Z.of_nat n)) <$> seq 0 299) ++ [numbered 299 1700; numbered 300 1700; numbered 301 1600].
Example split_second_is_lost :
  match first_transfer split_relay 10 with
  | Some (out, done_) => length split_relay = 302%nat /\ length out = 301%nat /\ done_ = true
                         /\ bool_decide (numbered 300 1700 ∈ out) = false
  | None => False
  end.
Proof. vm_compute. repeat split. Qed.

(** A page of one second: [until] drops below it, but the next page was requested
    with the second included, is filtered to nothing, and the kind counts as
    complete although older events remain. *)
Definition busy_relay : list REvent := ((fun n => numbered n 1700) <$> seq 0 300) ++ [numbered 300 1600].
Example busy_second_ends_transfer :
  match first_transfer busy_relay 10 with
  | Some (out, done_) => length out = 300%nat /\ done_ = true /\ bool_decide (numbered 300 1600 ∈ out) = false
  | None => False
  end.
Proof. vm_compute. repeat split. Qed.

(** An event of second 1 leaves [until] at 0, which Python takes for no bound: the
    loop reads the same page for ever. *)
Lemma epoch_never_ends fuel : forall round started total sn snt tbl, "x" ∈ sn ->
  @transfer_loop (store_relay [{| rid := "x"; at_secs := 1 |}]) fuel round 3 started
    {| until := Some 0; total_events := total; seen := sn; next_fetch := Some (Some 1); sent := snt |} tbl = None.
Proof.
  induction fuel as [|fuel IH]; intros round started total sn snt tbl Hs; [done|].
  cbn [transfer_loop]. unfold transfer_round, from_secs, fetch, store_relay, store_answer. simpl.
  rewrite bool_decide_true by done. apply IH. done.
Qed.

Example epoch_transfer_never_ends fuel : first_transfer [{| rid := "x"; at_secs := 1 |}] fuel = None.
Proof.
  unfold first_transfer. destruct fuel as [|fuel]; [done|].
  cbn [transfer_loop]. unfold transfer_round at 1, from_secs, fetch at 1, store_relay at 1, store_answer. simpl.
  destruct fuel as [|fuel]; [done|]. cbn [transfer_loop].
  unfold transfer_round at 1, from_secs, fetch at 1, store_relay at 1, store_answer. simpl.
  by rewrite epoch_never_ends by set_solver.
Qed.
