(* ===== verification/TrustedLists.v ===== *)
(** * Trusted Lists

    [src/app/services/trusted_list_build.py]: who belongs on a list and what the
    event looks like.  [src/app/services/trusted_list_service.py]: one run for one
    Observer, from the taggings to the relay, with the retraction of lists that have
    gone.  [get_qualifying_asserters_for_observer] (repos/user_repo.py) is the query
    that weighs the asserters.

    The relay is [Wire]: the newest event at each (signing key, d-tag), and the
    history of what was handed over.  A publish may be accepted, refused, or accepted
    with the answer lost.  What a scan of the relay returns, the failures of Postgres,
    Neo4j and the connection, the influences, the preset's rigor, Python's [**] and
    the order of rows are the class [ListEnv]. *)

From Stdlib Require Import Ascii String QArith.
From S2P Require Import Prelude Json Binary64 Atomic NostrTags Tagging.
From stdpp Require Import list.
Local Open Scope string_scope.
Local Open Scope Z_scope.

(** ** Membership *)

Definition TRUSTED_LIST_KIND : Z := 30392.
Definition TRUSTED_LIST_METRIC : string := "tag-membership".
Definition D_TAG_PREFIX : string := "tl-tag".
Definition RETRACTED_MARKER : list string := ["status"; "retracted"].
Definition DEFAULT_RIGOR : Q := 1 # 2.

Record Member := { mb_pubkey : string; applications : Z; disputes : Z; score : Z }.

(** [s[:8]]. *)
Definition first8 (s : string) : string := String.substring 0 8 s.

Definition compute_d_tag (observer tag_author_pubkey slug : string) : string :=
  D_TAG_PREFIX ++ "-" ++ first8 observer ++ "-" ++ first8 tag_author_pubkey ++ "-" ++ slug.

Record Tally := { t_applications : Z; t_disputes : Z; weighted_input : Q; weighted_sum : Q }.
Definition no_tally : Tally := {| t_applications := 0; t_disputes := 0; weighted_input := 0; weighted_sum := 0 |}.

(** [math.floor(value + 0.5)]. *)
Definition round_half_up (value : Q) : Z := let v := fadd value (1 # 2) in Qnum v / Zpos (Qden v).

(** [max(x, 0.0)]. *)
Definition fmax0 (x : Q) : Q := if flt x 0 then 0 else x.

(** One tagging: its target, its polarity and the asserter's weight. *)
Definition tally_step (t : Tally) (polarity : pyfloat) (weight : Q) : Tally :=
  if is_applied polarity then
    {| t_applications := t_applications t + 1; t_disputes := t_disputes t;
       weighted_input := fadd (weighted_input t) weight; weighted_sum := fadd (weighted_sum t) weight |}
  else if is_disputed polarity then
    {| t_applications := t_applications t; t_disputes := t_disputes t + 1;
       weighted_input := fadd (weighted_input t) weight; weighted_sum := fsub (weighted_sum t) weight |}
  else t.

Definition tally_all (taggings : list (string * pyfloat * Q)) : list (string * Tally) :=
  foldl (fun tally '(target, polarity, weight) =>
           dict_set target (tally_step (default no_tally (dict_get target tally)) polarity weight) tally) [] taggings.

(** [members.sort(key=lambda m: (-m.score, m.pubkey))]. *)
Definition member_le (a b : Member) : bool :=
  (score b <? score a) || (score a =? score b) && String.leb (mb_pubkey a) (mb_pubkey b).

(** Python's [x ** y] on floats. *)
Class PowEnv := { fpow : Q -> Q -> Q }.

Section build.
Context `{PowEnv}.

Definition compute_score (weighted_sum weighted_input rigor : Q) : Z :=
  if Qeq_bool weighted_input 0 then 0
  else
    let average := fquot weighted_sum weighted_input in
    let certainty := fsub 1 (fpow rigor weighted_input) in
    round_half_up (fmul (fmax0 (fmul average certainty)) 100).

Definition member_of_tally (cutoff : Z) (rigor : Q) (row : string * Tally) : option Member :=
  let '(pubkey, t) := row in
  if (cutoff <=? t_applications t) && (t_disputes t <? t_applications t) then
    let s := compute_score (weighted_sum t) (weighted_input t) rigor in
    if s <? 1 then None
    else Some {| mb_pubkey := pubkey; applications := t_applications t; disputes := t_disputes t; score := s |}
  else None.

Definition compute_members (taggings : list (string * pyfloat * Q)) (cutoff : Z) (rigor : Q) : list Member :=
  stable_sort member_le (omap (member_of_tally cutoff rigor) (tally_all taggings)).
End build.

(** ** The event *)

(** Six digits after the point. *)
Fixpoint pad6 (n : nat) (l : list ascii) : list ascii :=
  match n with O => l | S n => if (length l <? 6)%nat then pad6 n ("0"%char :: l) else l end.

(** [f"{rigor:.6f}".rstrip("0").rstrip(".")], for a rigor that is not negative. *)
Definition format_rigor (rigor : Q) : string :=
  let k := round_half_even (1000000 * Qnum rigor) (Zpos (Qden rigor)) in
  let text := pretty (k / 1000000) ++ "." ++ of_chars (pad6 6 (chars (pretty (k mod 1000000)))) in
  py_rstrip_chr "." (py_rstrip_chr "0" text).

Definition build_trusted_list_tags (observer tag_event_id tag_author_pubkey slug name description : string)
  (members : list Member) (cutoff min_rank : Z) (rigor : Q) (retracted : bool) : list (list string) :=
  let head := [["d"; compute_d_tag observer tag_author_pubkey slug]; ["title"; name]; ["description"; description];
               ["metric"; TRUSTED_LIST_METRIC]; ["observer"; observer];
               ["source-tag"; tag_event_id; tag_author_pubkey; slug]; ["cutoff"; pretty cutoff];
               ["min-rank"; pretty min_rank]] in
  if retracted then (head ++ [RETRACTED_MARKER])%list
  else (head ++ [["rigor"; format_rigor rigor]]
        ++ ((fun m => ["p"; mb_pubkey m; ""; pretty (score m)]) <$> members))%list.

(** What [json.dumps] is given; a retraction has no content. *)
Definition build_trusted_list_content (members : list Member) : json :=
  JObj [("members", JList ((fun m => JObj [("pubkey", JStr (mb_pubkey m)); ("endorsements", JInt (applications m));
                                           ("disputes", JInt (disputes m)); ("score", JInt (score m))]) <$> members))].

Record TLEvent := { ev_tags : list (list string); ev_content : option json }.

(** ** The relay *)

(** The first [d] tag: the coordinate of a parameterized replaceable event. *)
Definition d_of (tags : list (list string)) : string :=
  default "" (head (omap (fun t => match t with n :: v :: _ => if String.eqb n "d" then Some v else None | _ => None end) tags)).

Record Wire := {
  slots : gmap (string * string) TLEvent;
  handed : list (string * TLEvent);
}.

Inductive Answer := Accepted | Refused (e : exn) | Unanswered (e : exn).

Record ListSettings := { trusted_list_min_rank : Z; trusted_list_min_tag_uses : Z; trusted_list_cutoff : Z }.

Class ListEnv := {
  list_settings : ListSettings;
  signing_key : string -> string;
  preset_rigor : string -> res exn Q;
  influence_of : string -> string -> option Q;
  read_phase : nat -> option exn;
  connects : option exn;
  answer : nat -> Answer;
  scan : nat -> Wire -> res exn (list (list (list string)));
  list_pow :: PowEnv;
  list_rows :: RowOrder;
}.

(** Without a tag of that name, [client] is the server's own. *)
Definition stamped (tags : list (list string)) : list (list string) :=
  (base.filter (fun t => head t <> Some "client") tags ++ [CLIENT_TAG])%list.

Section run.
Context `{ListEnv}.

(** [_publish], under the key of one Observer's assistant. *)
Definition publish (key : string) (tags : list (list string)) (content : option json) (w : Wire) : res exn unit * Wire :=
  let ev := {| ev_tags := stamped tags; ev_content := content |} in
  let w' := {| slots := <[(key, d_of (ev_tags ev)) := ev]> (slots w); handed := handed w ++ [(key, ev)] |} in
  match answer (length (handed w)) with
  | Accepted => (Ok tt, w')
  | Unanswered e => (Raise e, w')
  | Refused e => (Raise e, {| slots := slots w; handed := handed w ++ [(key, ev)] |})
  end.

(** ** What is on the relay *)

(** The last [d] of an event, and whether it carries the retracted marker. *)
Definition slot_step (acc : option string * bool) (tag : list string) : option string * bool :=
  let '(d, retracted) := acc in
  match tag with
  | n :: v :: _ =>
      if String.eqb n "d" then (Some v, retracted)
      else if String.eqb n "status" && String.eqb v "retracted" then (d, true)
      else (d, retracted)
  | _ => (d, retracted)
  end.

Definition slot_of (tags : list (list string)) : option string * bool := foldl slot_step (None, false) tags.

Definition slots_of (events : list (list (list string))) : list (string * bool) :=
  foldl (fun m tags =>
           match slot_of tags with
           | (Some d, retracted) =>
               if String.prefix (D_TAG_PREFIX ++ "-") d
               then dict_set d (default true (dict_get d m) && retracted) m else m
           | (None, _) => m
           end) [] events.

Definition RETRACTION_SCAN_LIMIT : nat := 500.
Definition fetch_published_tl_slots (w : Wire) : res exn (list (string * bool)) := slots_of <$> scan RETRACTION_SCAN_LIMIT w.

Definition parse_d_tag_slug (d_tag observer : string) : option (string * string) :=
  let prefix := D_TAG_PREFIX ++ "-" ++ first8 observer ++ "-" in
  if String.prefix prefix d_tag then
    let rest := String.substring (String.length prefix) (String.length d_tag) d_tag in
    match py_partition "-" rest with
    | Some (author8, slug) => if String.eqb author8 "" || String.eqb slug "" then None else Some (author8, slug)
    | None => None
    end
  else None.

Definition plan_retractions (published_d_tags current_d_tags : list string) : list string :=
  base.filter (fun d => d ∉ current_d_tags) published_d_tags.

(** ** The run *)

(** [_resolve_rigor]: [None] of the preset is any exception. *)
Definition resolve_rigor (observer : string) : Q :=
  match preset_rigor observer with
  | Raise _ => DEFAULT_RIGOR
  | Ok r => if fle 0 r && flt r 1 then r else DEFAULT_RIGOR
  end.

(** The weight is the influence on the rank's scale: [round(influence * 100) / 100]. *)
Definition get_qualifying_asserters_for_observer (pubkeys : list string) (observer : string) (min_influence : Q)
  : list (string * Q) :=
  row_order (omap (fun pk => match influence_of observer pk with
                             | Some i => if fle min_influence i then Some (pk, fdiv (round0 (fmul i 100)) 100) else None
                             | None => None
                             end) pubkeys).

Record TagResult := {
  tr_slug : string;
  tr_d_tag : string;
  tr_tag_event_id : string;
  tr_status : string;
  taggings_considered : Z;
  member_count : Z;
}.

Inductive EmptyReason := NO_TAGGINGS | NO_QUALIFYING_ASSERTERS | NO_TAGS_MET_THRESHOLD.

Record TrustedListRunResult := {
  run_signing_pubkey : string;
  taggings_in_store : Z;
  qualifying_asserters : Z;
  dictionary_size : Z;
  published : Z;
  failed : Z;
  retracted : Z;
  empty_reason : option EmptyReason;
  run_tags : list TagResult;
}.

(** One entry: its members, and the publication of its list. *)
Definition entry_members (taggings : list (string * pyfloat * string)) (qualifying : list (string * Q)) (rigor : Q) : list Member :=
  compute_members ((fun '(target, polarity, asserter) => (target, polarity, default 0%Q (dict_get asserter qualifying))) <$> taggings)
    (trusted_list_cutoff list_settings) rigor.

Definition entry_d_tag (observer : string) (entry : DictionaryEntry) : string :=
  compute_d_tag observer (de_tag_author_pubkey entry) (de_slug entry).

Definition list_tags_of (observer : string) (entry : DictionaryEntry) (members : list Member) (rigor : Q) : list (list string) :=
  build_trusted_list_tags observer (de_tag_event_id entry) (de_tag_author_pubkey entry) (de_slug entry) (de_name entry)
    (de_description entry) members (trusted_list_cutoff list_settings) (trusted_list_min_rank list_settings) rigor false.

Record Progress := { pr_published : Z; pr_failed : Z; pr_retracted : Z; pr_tags : list TagResult }.

Definition publish_entry (observer : string) (qualifying : list (string * Q)) (rigor : Q)
  (entry : DictionaryEntry) (taggings : list (string * pyfloat * string)) (p : Progress) (w : Wire) : Progress * Wire :=
  let members := entry_members taggings qualifying rigor in
  let result status := {| tr_slug := de_slug entry; tr_d_tag := entry_d_tag observer entry; tr_tag_event_id := de_tag_event_id entry;
                          tr_status := status; taggings_considered := Z.of_nat (length taggings);
                          member_count := Z.of_nat (length members) |} in
  match publish (signing_key observer) (list_tags_of observer entry members rigor) (Some (build_trusted_list_content members)) w with
  | (Ok _, w') => ({| pr_published := pr_published p + 1; pr_failed := pr_failed p; pr_retracted := pr_retracted p;
                      pr_tags := pr_tags p ++ [result "published"] |}, w')
  | (Raise _, w') => ({| pr_published := pr_published p; pr_failed := pr_failed p + 1; pr_retracted := pr_retracted p;
                         pr_tags := pr_tags p ++ [result "failed"] |}, w')
  end.

Definition publish_entries (observer : string) (qualifying : list (string * Q)) (rigor : Q)
  (rows : list (DictionaryEntry * list (string * pyfloat * string))) (p : Progress) (w : Wire) : Progress * Wire :=
  foldl (fun '(p, w) '(entry, taggings) => publish_entry observer qualifying rigor entry taggings p w) (p, w) rows.

(** One slot of the retraction pass. *)
Definition retraction_tags (observer author8 slug : string) : list (list string) :=
  build_trusted_list_tags observer "" author8 slug slug "" [] (trusted_list_cutoff list_settings)
    (trusted_list_min_rank list_settings) DEFAULT_RIGOR true.

Definition retract_slot (observer : string) (published_slots : list (string * bool)) (stale : string)
  (p : Progress) (w : Wire) : Progress * Wire :=
  if default false (dict_get stale published_slots) then (p, w)
  else match parse_d_tag_slug stale observer with
  | None => (p, w)
  | Some (author8, slug) =>
      match publish (signing_key observer) (retraction_tags observer author8 slug) None w with
      | (Ok _, w') => ({| pr_published := pr_published p; pr_failed := pr_failed p; pr_retracted := pr_retracted p + 1;
                          pr_tags := pr_tags p ++ [{| tr_slug := slug; tr_d_tag := stale; tr_tag_event_id := "";
                                                      tr_status := "retracted"; taggings_considered := 0; member_count := 0 |}] |}, w')
      | (Raise _, w') => (p, w')
      end
  end.

Definition retract_stale (observer : string) (current : list string) (p : Progress) (w : Wire) : Progress * Wire :=
  match fetch_published_tl_slots w with
  | Raise _ => (p, w)
  | Ok published_slots =>
      foldl (fun '(p, w) stale => retract_slot observer published_slots stale p w) (p, w)
        (plan_retractions published_slots.*1 current)
  end.

Definition read_ok {A} (phase : nat) (a : A) : res exn A :=
  match read_phase phase with Some e => Raise e | None => Ok a end.

(** What the two sessions and the query between them return. *)
Definition dictionary_of (qualifying : list (string * Q)) (st : TagStore)
  : list (DictionaryEntry * list (string * pyfloat * string)) :=
  match (get_dictionary_on_db qualifying.*1 (trusted_list_min_tag_uses list_settings) st).1 with
  | Ok entries =>
      (fun entry => (entry, match (get_taggings_for_tag_on_db (de_tag_event_id entry) qualifying.*1 st).1 with
                            | Ok rows => rows | Raise _ => [] end)) <$> entries
  | Raise _ => []
  end.

Definition qualifying_of (observer : string) (st : TagStore) : list (string * Q) :=
  match (get_asserter_pubkeys_on_db st).1 with
  | Ok asserters =>
      get_qualifying_asserters_for_observer asserters observer (fdiv (trusted_list_min_rank list_settings) 100)
  | Raise _ => []
  end.

Definition run_result (observer : string) (st : TagStore) (qualifying dictionary : Z) (reason : option EmptyReason) (p : Progress)
  : TrustedListRunResult :=
  {| run_signing_pubkey := signing_key observer; taggings_in_store := Z.of_nat (length (tagging_rows st));
     qualifying_asserters := qualifying; dictionary_size := dictionary; published := pr_published p; failed := pr_failed p;
     retracted := pr_retracted p; empty_reason := reason; run_tags := pr_tags p |}.

Definition no_progress : Progress := {| pr_published := 0; pr_failed := 0; pr_retracted := 0; pr_tags := [] |}.

Definition generate_trusted_lists_for_observer (observer : string) (st : TagStore) (w : Wire)
  : res exn TrustedListRunResult * Wire :=
  match read_ok 0 (length (tagging_rows st)) with
  | Raise e => (Raise e, w)
  | Ok 0%nat => (Ok (run_result observer st 0 0 (Some NO_TAGGINGS) no_progress), w)
  | Ok (S _) =>
      match read_ok 1 (qualifying_of observer st) with
      | Raise e => (Raise e, w)
      | Ok [] => (Ok (run_result observer st 0 0 (Some NO_QUALIFYING_ASSERTERS) no_progress), w)
      | Ok qualifying =>
          match read_ok 2 (dictionary_of qualifying st) with
          | Raise e => (Raise e, w)
          | Ok dictionary =>
              match connects with
              | Some e => (Raise e, w)
              | None =>
                  let rigor := resolve_rigor observer in
                  let '(p, w1) := publish_entries observer qualifying rigor dictionary no_progress w in
                  let '(p2, w2) := retract_stale observer ((fun '(entry, _) => entry_d_tag observer entry) <$> dictionary) p w1 in
                  (Ok (run_result observer st (Z.of_nat (length qualifying)) (Z.of_nat (length dictionary))
                         (match dictionary with [] => Some NO_TAGS_MET_THRESHOLD | _ => None end) p2), w2)
              end
          end
      end
  end.
End run.

Example rigor_text : (format_rigor (rn (65 # 100)), format_rigor (rn (1 # 2)), format_rigor 0) = ("0.65", "0.5", "0").
Proof. by vm_compute. Qed.
