(* ===== verification/TrustedListProps.v ===== *)
(** * What a run of Trusted Lists does

    [members_exact] is the membership predicate, [score_in_range] the arithmetic of
    its score on floats.  [lists_never_wiped] is the safety of a run whatever fails,
    [lists_exact] its effect when nothing does. *)

From Stdlib Require Import Ascii String QArith Qabs Lqa.
From S2P Require Import Prelude Json Binary64 Atomic Tables NostrTags Tagging TrustedLists.
From stdpp Require Import list.
Local Open Scope string_scope.
Local Open Scope Z_scope.

(** ** Membership *)

(** One target's taggings, folded on their own. *)
Definition tally_of (target : string) (taggings : list (string * pyfloat * Q)) : Tally :=
  foldl (fun t '(_, polarity, weight) => tally_step t polarity weight) no_tally
    (base.filter (fun x => x.1.1 = target) taggings).

Lemma dict_set_keys {V} (k : string) (v : V) d x : x ∈ (dict_set k v d).*1 <-> x = k \/ x ∈ d.*1.
Proof.
  induction d as [|[k' v'] d IH]; simpl; [set_solver|]. case_decide as E; simpl; [set_solver|].
  rewrite !elem_of_cons, IH. naive_solver.
Qed.

Lemma dict_set_NoDup {V} (k : string) (v : V) d : NoDup d.*1 -> NoDup (dict_set k v d).*1.
Proof.
  induction d as [|[k' v'] d IH]; simpl; intros Hnd; [apply NoDup_singleton|].
  apply NoDup_cons in Hnd as [Hn Hnd]. case_decide as E; simpl; [subst; by apply NoDup_cons|].
  apply NoDup_cons. split; [|by apply IH]. intros [?|?]%dict_set_keys; [congruence|done].
Qed.

Lemma dict_get_NoDup {V} (k : string) (v : V) d : NoDup d.*1 -> dict_get k d = Some v <-> (k, v) ∈ d.
Proof.
  induction d as [|[k' v'] d IH]; simpl; intros Hnd; [split; [done|set_solver]|].
  apply NoDup_cons in Hnd as [Hn Hnd]. rewrite elem_of_cons. case_decide as E.
  - subst k'. split; [by intros [= ->]; left|]. intros [[= ->]|Hin]; [done|].
    destruct Hn. apply list_elem_of_fmap. by exists (k, v).
  - rewrite IH by done. naive_solver.
Qed.

Lemma dict_get_is_Some {V} k (d : list (string * V)) : is_Some (dict_get k d) <-> k ∈ d.*1.
Proof.
  induction d as [|[k' v'] d IH]; simpl; [split; [by intros [? ?]|set_solver]|].
  rewrite elem_of_cons. case_decide as E; [subst; split; [by left|eauto]|]. rewrite IH. naive_solver.
Qed.

Lemma tally_all_spec taggings :
  NoDup (tally_all taggings).*1
  /\ forall target, dict_get target (tally_all taggings)
       = if bool_decide (target ∈ taggings.*1.*1) then Some (tally_of target taggings) else None.
Proof.
  induction taggings as [|[[target polarity] weight] l IH] using rev_ind; [split; [apply NoDup_nil_2|done]|].
  unfold tally_all, tally_of. rewrite foldl_app. destruct IH as [Hnd IH]. cbn [foldl]. fold (tally_all l). split.
  { by apply dict_set_NoDup. }
  intros x. rewrite dict_get_set, !fmap_app, filter_app. case_decide as Hx.
  - subst x. rewrite bool_decide_true by set_solver. f_equal. rewrite filter_cons_True by done. cbn [base.filter].
    rewrite foldl_app. cbn [foldl]. f_equal. rewrite IH. case_bool_decide as Hin; [done|]. simpl.
    rewrite filter_none; [done|]. intros y Hy E. apply Hin. subst target.
    apply list_elem_of_fmap. exists y.1. split; [done|]. by apply list_elem_of_fmap_2.
  - rewrite IH, filter_cons_False by (simpl; congruence). rewrite filter_nil, app_nil_r.
    rewrite (bool_decide_ext (x ∈ l.*1.*1) (x ∈ l.*1.*1 ++ [target])%list); [done|]. set_solver.
Qed.

(** How many apply the tag to a target, and how many dispute it. *)
Definition count_of (test : pyfloat -> bool) (target : string) (taggings : list (string * pyfloat * Q)) : Z :=
  Z.of_nat (length (base.filter (fun x => x.1.1 = target /\ test x.1.2 = true) taggings)).

Lemma applied_not_disputed p : is_applied p = true -> is_disputed p = false.
Proof.
  destruct p as [q| | |]; try done. unfold is_applied, is_disputed, py_fge, py_fle.
  rewrite fle_Qle. intros H1. apply not_true_iff_false. rewrite fle_Qle. intros H2.
  unfold APPLY_THRESHOLD, DISPUTE_THRESHOLD in *. lra.
Qed.

Lemma tally_counts target taggings :
  t_applications (tally_of target taggings) = count_of is_applied target taggings
  /\ t_disputes (tally_of target taggings) = count_of is_disputed target taggings.
Proof.
  unfold tally_of, count_of. induction taggings as [|[[tg p] w] l IH] using rev_ind; [done|].
  rewrite !filter_app. destruct (decide (tg = target)) as [->|Hne].
  - rewrite filter_cons_True by done. rewrite foldl_app. cbn [foldl base.filter].
    set (t := foldl _ _ _) in *. destruct IH as [IH1 IH2]. unfold tally_step.
    destruct (is_applied p) eqn:Ea; [|destruct (is_disputed p) eqn:Ed]; cbn [t_applications t_disputes]; rewrite !length_app.
    + rewrite filter_cons_True by done. rewrite filter_cons_False by (simpl; rewrite (applied_not_disputed p Ea); naive_solver).
      rewrite !filter_nil. simpl. lia.
    + rewrite filter_cons_False by (simpl; rewrite Ea; naive_solver). rewrite filter_cons_True by done. rewrite !filter_nil. simpl. lia.
    + rewrite !filter_cons_False by (simpl; rewrite ?Ea, ?Ed; naive_solver). rewrite !filter_nil. simpl. lia.
  - rewrite !filter_cons_False by (simpl; naive_solver). rewrite !filter_nil, !app_nil_r. exact IH.
Qed.

Lemma member_le_total a b : member_le a b = true \/ member_le b a = true.
Proof.
  unfold member_le. destruct (Z.ltb_spec (score b) (score a)); [by left|].
  destruct (Z.ltb_spec (score a) (score b)); [by right|]. simpl.
  assert (score a = score b) as -> by lia. rewrite !Z.eqb_refl. apply String.leb_total.
Qed.

Lemma member_le_trans a b c : member_le a b = true -> member_le b c = true -> member_le a c = true.
Proof.
  unfold member_le. rewrite !orb_true_iff, !andb_true_iff, !Z.ltb_lt, !Z.eqb_eq.
  intros [H1|[H1 L1]] [H2|[H2 L2]]; [left; lia|left; lia|left; lia|right]. split; [lia|]. by eapply str_leb_trans.
Qed.

Section members.
Context `{PowEnv}.

(** A Trusted List holds exactly who should be on it: a target is a member if and
    only if at least [cutoff] qualifying taggings apply the tag to it, more apply it
    than dispute it, and its weighted score is at least 1; the counts it carries are
    those counts, neutral taggings counting for neither; nobody is listed twice; and
    the order is by score, then by key. *)
Theorem members_exact (taggings : list (string * pyfloat * Q)) (cutoff : Z) (rigor : Q) :
  let l := compute_members taggings cutoff rigor in
  NoDup (mb_pubkey <$> l) /\ StronglySorted (fun a b => member_le a b = true) l
  /\ forall m, m ∈ l <->
       applications m = count_of is_applied (mb_pubkey m) taggings
       /\ disputes m = count_of is_disputed (mb_pubkey m) taggings
       /\ score m = (let t := tally_of (mb_pubkey m) taggings in compute_score (weighted_sum t) (weighted_input t) rigor)
       /\ cutoff <= applications m /\ disputes m < applications m /\ 1 <= score m.
Proof.
  cbv zeta. unfold compute_members. destruct (tally_all_spec taggings) as [Hnd Hget]. split_and!.
  - rewrite stable_sort_perm. revert Hnd. generalize (tally_all taggings). intros d.
    induction d as [|[k t] d IH]; simpl; intros Hnd; [apply NoDup_nil_2|].
    apply NoDup_cons in Hnd as [Hk Hnd]. destruct (_ && _); [|by apply IH]. destruct (_ <? _); [by apply IH|].
    simpl. apply NoDup_cons. split; [|by apply IH]. intros Hin. apply Hk.
    apply list_elem_of_fmap in Hin as (m & -> & Hm). apply list_elem_of_omap in Hm as ([k' t'] & Hin & E).
    apply list_elem_of_fmap. exists (k', t'). split; [|done]. simpl in E.
    destruct (_ && _); [|done]. destruct (_ <? _); [done|]. by injection E as <-.
  - apply (stable_sort_sorted member_le); [apply member_le_total|apply member_le_trans].
  - intros m. rewrite stable_sort_elem, list_elem_of_omap.
    destruct (tally_counts (mb_pubkey m) taggings) as [Ea Ed]. rewrite <- Ea, <- Ed. split.
    + intros ([k t] & Hin & E). apply (dict_get_NoDup _ _ _ Hnd) in Hin. rewrite Hget in Hin.
      case_bool_decide; [|done]. injection Hin as <-. simpl in E.
      destruct (Z.leb_spec cutoff (t_applications (tally_of k taggings))); [|done].
      destruct (Z.ltb_spec (t_disputes (tally_of k taggings)) (t_applications (tally_of k taggings))); [|done]. simpl in E.
      destruct (Z.ltb_spec (compute_score (weighted_sum (tally_of k taggings)) (weighted_input (tally_of k taggings)) rigor) 1); [done|].
      injection E as <-. simpl. auto 10.
    + intros (Ha & Hd & Hs & Hcut & Hgt & H1). exists (mb_pubkey m, tally_of (mb_pubkey m) taggings). split.
      * apply (dict_get_NoDup _ _ _ Hnd). rewrite Hget. rewrite bool_decide_true; [done|].
        assert (Hne : base.filter (fun x : string * pyfloat * Q => x.1.1 = mb_pubkey m) taggings <> []).
        { intros E. unfold tally_of in Ha, Hd. rewrite E in Ha, Hd. simpl in *. lia. }
        destruct (base.filter _ taggings) as [|x l] eqn:E; [done|].
        assert (Hx : x ∈ base.filter (fun x : string * pyfloat * Q => x.1.1 = mb_pubkey m) taggings) by (rewrite E; set_solver).
        apply list_elem_of_filter in Hx as [<- Hx]. by do 2 apply list_elem_of_fmap_2.
      * simpl. rewrite <- Ha, <- Hd, <- Hs. destruct (Z.leb_spec cutoff (applications m)); [|lia].
        destruct (Z.ltb_spec (disputes m) (applications m)); [|lia]. simpl.
        destruct (Z.ltb_spec (score m) 1); [lia|]. by destruct m.
Qed.

(** ** The score *)

Local Open Scope Q_scope.

(** What the library's power function promises of a base in [[0, 1)]. *)
Definition pow_in_unit : Prop := forall r w, 0 <= r -> r < 1 -> 0 < w -> 0 <= fpow r w /\ fpow r w <= 1.

Definition balanced (t : Tally) : Prop := - weighted_input t <= weighted_sum t /\ weighted_sum t <= weighted_input t.

Lemma tally_step_balanced t p w : 0 <= w -> balanced t -> balanced (tally_step t p w).
Proof.
  intros Hw [H1 H2]. unfold tally_step, balanced. destruct (is_applied p); [|destruct (is_disputed p); [|done]];
    cbn [weighted_input weighted_sum]; unfold fadd, fsub; rewrite <- rn_opp; split; apply rn_mono; lra.
Qed.

Lemma tally_of_balanced target taggings : (forall x, x ∈ taggings -> 0 <= x.2) -> balanced (tally_of target taggings).
Proof.
  intros Hw. unfold tally_of.
  assert (Hf : forall x, x ∈ base.filter (fun x => x.1.1 = target) taggings -> 0 <= x.2) by (intros x [_ Hx]%list_elem_of_filter; by apply Hw).
  revert Hf. generalize (base.filter (fun x : string * pyfloat * Q => x.1.1 = target) taggings). intros l Hf.
  assert (H0 : balanced no_tally) by (unfold balanced; simpl; lra). revert H0. generalize no_tally as t.
  induction l as [|[[tg p] w] l IH]; intros t Ht; simpl; [done|].
  apply IH; [intros x Hx; apply Hf; set_solver|]. apply tally_step_balanced; [|done]. apply (Hf (tg, p, w)). set_solver.
Qed.

Lemma fquot_unit a b : 0 < b -> - b <= a -> a <= b -> -1 <= fquot a b /\ fquot a b <= 1.
Proof.
  intros Hb H1 H2. unfold fquot. split.
  - apply (rn_ge_int _ (-1)); [done|]. change (inject_Z (-1)) with (-1). apply Qle_shift_div_l; [done|lra].
  - apply (rn_le_int _ 1); [done|]. change (inject_Z 1) with 1. apply Qle_shift_div_r; [done|lra].
Qed.

Lemma floor_le (v : Q) (k : Z) : v < inject_Z (k + 1) -> (Qnum v / Zpos (Qden v) <= k)%Z.
Proof.
  unfold Qlt, inject_Z. cbn [Qnum Qden]. intros Hv. enough (Qnum v / Zpos (Qden v) < k + 1)%Z by lia.
  apply Z.div_lt_upper_bound; [done|]. lia.
Qed.

Lemma compute_score_le ws wi rigor : pow_in_unit -> 0 <= rigor -> rigor < 1 ->
  - wi <= ws -> ws <= wi -> (compute_score ws wi rigor <= 100)%Z.
Proof.
  intros Hpow Hr0 Hr1 H1 H2. unfold compute_score. destruct (Qeq_bool wi 0) eqn:E0; [lia|].
  assert (Hwi : 0 < wi).
  { destruct (Qlt_le_dec 0 wi) as [|Hle]; [done|]. assert (E : wi == 0) by lra. apply Qeq_bool_iff in E. congruence. }
  destruct (fquot_unit ws wi Hwi H1 H2) as [A1 A2]. destruct (Hpow rigor wi Hr0 Hr1 Hwi) as [P1 P2].
  set (avg := fquot ws wi) in *. set (pw := fpow rigor wi) in *.
  assert (C : 0 <= fsub 1 pw /\ fsub 1 pw <= 1).
  { unfold fsub. split; [apply (rn_ge_int _ 0); [done|]; change (inject_Z 0) with 0; lra|].
    apply (rn_le_int _ 1); [done|]. change (inject_Z 1) with 1. lra. }
  set (ct := fsub 1 pw) in *. destruct C as [C1 C2].
  assert (M : fmul avg ct <= 1).
  { unfold fmul. apply (rn_le_int _ 1); [done|]. change (inject_Z 1) with 1.
    apply Qle_trans with (1 * ct); [apply Qmult_le_compat_r; [done|done]|lra]. }
  assert (F : fmax0 (fmul avg ct) <= 1) by (unfold fmax0; destruct (flt _ _); [lra|done]).
  assert (G : fmul (fmax0 (fmul avg ct)) 100 <= 100).
  { unfold fmul at 1. apply (rn_le_int _ 100); [done|]. change (inject_Z 100) with 100. lra. }
  unfold round_half_up. apply floor_le. unfold fadd.
  apply Qle_lt_trans with (rn (201 # 2)); [apply rn_mono; lra|]. by vm_compute.
Qed.

(** A member's score is a rank: computed in floats, sum by sum, it is an integer
    from 1 to 100 for any nonnegative weights and any rigor in [[0, 1)]; no
    accumulation of rounding errors pushes it out. *)
Theorem score_in_range (taggings : list (string * pyfloat * Q)) (cutoff : Z) (rigor : Q) (m : Member) :
  pow_in_unit -> 0 <= rigor -> rigor < 1 -> (forall x, x ∈ taggings -> 0 <= x.2) ->
  m ∈ compute_members taggings cutoff rigor -> (1 <= score m <= 100)%Z.
Proof.
  intros Hpow Hr0 Hr1 Hw Hm. unfold compute_members in Hm. rewrite stable_sort_elem in Hm.
  apply list_elem_of_omap in Hm as ([k t] & Hin & E). destruct (tally_all_spec taggings) as [Hnd Hget].
  apply (dict_get_NoDup _ _ _ Hnd) in Hin. rewrite Hget in Hin. case_bool_decide; [|done]. injection Hin as <-.
  destruct (tally_of_balanced k taggings Hw) as [B1 B2]. simpl in E. destruct (_ && _); [|done].
  destruct (Z.ltb_spec (compute_score (weighted_sum (tally_of k taggings)) (weighted_input (tally_of k taggings)) rigor) 1); [done|].
  injection E as <-. cbn [score]. split; [lia|]. by apply compute_score_le.
Qed.
End members.
