(* ===== verification/TrustedListRun.v ===== *)
(** * The run of Trusted Lists against the relay

    The coordinate of a list and back ([d_tag_round_trip]); a run never retracts a
    current list, whatever fails ([lists_never_wiped]); and when nothing fails the
    relay holds exactly the lists of the dictionary, everything stale retracted
    ([lists_exact]). *)

From Stdlib Require Import Ascii String QArith.
From Stdlib Require Import Ascii String QArith Lqa.
From S2P Require Import Prelude Json Binary64 Atomic Tables NostrTags Tagging TrustedLists TrustedListProps TaggingProps.
From stdpp Require Import list.
Local Open Scope string_scope.
Local Open Scope Z_scope.

(** ** Coordinates *)

Lemma substring_all n (b : string) : (String.length b <= n)%nat -> String.substring 0 n b = b.
Proof.
  intros Hn. destruct (substring_split n b) as (rest & E & Hl).
  assert (rest = "") as -> by (destruct rest; [done|simpl in Hl; lia]). by rewrite append_nil_r in E.
Qed.

Lemma first8_idem s : first8 (first8 s) = first8 s.
Proof.
  unfold first8. apply substring_all. revert s. generalize 8%nat. induction n as [|n IH]; intros s; [destruct s; simpl; lia|].
  destruct s as [|c s]; simpl; [lia|]. specialize (IH s). lia.
Qed.

Definition own_prefix (observer : string) : string := D_TAG_PREFIX ++ "-" ++ first8 observer ++ "-".

Lemma d_tag_split observer author slug :
  compute_d_tag observer author slug = own_prefix observer ++ (first8 author ++ "-" ++ slug).
Proof. unfold compute_d_tag, own_prefix. by rewrite !append_assoc. Qed.

(** What a coordinate names: an author part without a dash, and a slug. *)
Definition proper_author (author : string) : Prop := first8 author <> "" /\ free_of "-" (chars (first8 author)).

Lemma parse_compute observer author slug : proper_author author -> slug <> "" ->
  parse_d_tag_slug (compute_d_tag observer author slug) observer = Some (first8 author, slug).
Proof.
  intros [Hne Hfree] Hs. unfold parse_d_tag_slug. fold (own_prefix observer).
  rewrite d_tag_split, Json.prefix_app, substring_skip.
  rewrite substring_all by (rewrite (length_append (own_prefix observer)); lia). unfold py_partition. rewrite chars_append.
  change (chars ("-" ++ slug)) with ("-"%char :: chars slug). rewrite partition_chars_app by done.
  rewrite !of_chars_chars. by rewrite (proj2 (String.eqb_neq _ _) Hne), (proj2 (String.eqb_neq _ _) Hs).
Qed.

(** A list's coordinate can be read back: from the d-tag of an Observer's list the
    retraction pass recovers the author's eight characters and the slug, whatever
    dashes the slug has, and the coordinate it builds from them is the same one; the
    d-tag of an Observer whose key differs in its first eight characters is not read
    as its own. *)
Theorem d_tag_round_trip (observer other author slug : string) :
  proper_author author -> slug <> "" ->
  parse_d_tag_slug (compute_d_tag observer author slug) observer = Some (first8 author, slug)
  /\ compute_d_tag observer (first8 author) slug = compute_d_tag observer author slug
  /\ (String.length observer = 64%nat -> String.length other = 64%nat -> first8 observer <> first8 other ->
      parse_d_tag_slug (compute_d_tag other author slug) observer = None).
Proof.
  intros Ha Hs. split_and!.
  - by apply parse_compute.
  - unfold compute_d_tag. by rewrite first8_idem.
  - intros Ho Ho' Hd. unfold parse_d_tag_slug. fold (own_prefix observer). rewrite d_tag_split.
    destruct (String.prefix (own_prefix observer) _) eqn:E; [exfalso|done]. apply Hd.
    assert (Hp : forall a b n, String.length a = n -> String.prefix a b = true -> String.substring 0 n b = a).
    { clear. induction a as [|c a IH]; intros b n <- Hp; [by destruct b|]. destruct b as [|d b]; [done|]. simpl in *.
      destruct (ascii_dec c d) as [->|]; [|done]. f_equal. by apply IH. }
    assert (Hl8 : forall s, String.length s = 64%nat -> String.length (first8 s) = 8%nat).
    { clear. intros s. unfold first8. do 8 (destruct s as [|? s]; [done|]). by destruct s. }
    assert (Hlen : String.length (own_prefix observer) = 16%nat).
    { unfold own_prefix. rewrite !length_append, Hl8 by done. done. }
    apply (Hp _ _ 16%nat Hlen) in E.
    assert (Hlen' : String.length (own_prefix other) = 16%nat).
    { unfold own_prefix. rewrite !length_append, Hl8 by done. done. }
    rewrite <- Hlen', substring_prefix in E. unfold own_prefix in E. apply append_inj_l, append_inj_l in E.
    by apply append_inj_r in E.
Qed.

(** A d-tag this server made for the Observer. *)
Definition ours (observer d : string) : Prop :=
  exists author slug, d = compute_d_tag observer author slug /\ proper_author author /\ slug <> "".

Lemma parse_ours observer d : ours observer d ->
  exists author8 slug, parse_d_tag_slug d observer = Some (author8, slug) /\ compute_d_tag observer author8 slug = d.
Proof.
  intros (a & s & -> & Ha & Hs). exists (first8 a), s.
  split; [by apply parse_compute|]. unfold compute_d_tag. by rewrite first8_idem.
Qed.

(** ** Events *)

Lemma stamped_cons t tags : head t <> Some "client" -> stamped (t :: tags) = t :: stamped tags.
Proof. intros Ht. unfold stamped. by rewrite filter_cons_True. Qed.

Lemma d_of_built observer tag author slug name desc members cutoff rank rigor retracted :
  d_of (stamped (build_trusted_list_tags observer tag author slug name desc members cutoff rank rigor retracted))
  = compute_d_tag observer author slug.
Proof. unfold build_trusted_list_tags. destruct retracted; cbn [app]; by rewrite stamped_cons. Qed.

(** The marker of a retraction. *)
Definition is_retraction (ev : TLEvent) : Prop := RETRACTED_MARKER ∈ ev_tags ev.

Lemma elem_stamped t tags : t ∈ stamped tags <-> (t ∈ tags /\ head t <> Some "client") \/ t = CLIENT_TAG.
Proof. unfold stamped. rewrite elem_of_app, list_elem_of_filter, list_elem_of_singleton. tauto. Qed.

Lemma list_not_retraction observer tag author slug name desc members cutoff rank rigor :
  RETRACTED_MARKER ∉ stamped (build_trusted_list_tags observer tag author slug name desc members cutoff rank rigor false).
Proof.
  rewrite elem_stamped. intros [[Hin _]|Hin]; [|discriminate]. unfold build_trusted_list_tags in Hin.
  apply elem_of_app in Hin as [Hin|Hin].
  - repeat (apply elem_of_cons in Hin as [Hin|Hin]; [discriminate|]). by apply elem_of_nil in Hin.
  - apply elem_of_app in Hin as [Hin|Hin]; [apply list_elem_of_singleton in Hin; discriminate|].
    apply list_elem_of_fmap in Hin as (m & Hin & _). discriminate.
Qed.

Lemma retraction_is_retraction observer author slug cutoff rank :
  RETRACTED_MARKER ∈ stamped (build_trusted_list_tags observer "" author slug slug "" [] cutoff rank DEFAULT_RIGOR true).
Proof. apply elem_stamped. left. split; [|done]. unfold build_trusted_list_tags. set_solver. Qed.

(** ** Reading the relay back *)

(** A tag that is neither a [d] nor the marker. *)
Definition inert (tag : list string) : Prop :=
  match tag with n :: v :: _ => n <> "d" /\ n <> "status" | _ => True end.

Lemma inert_step acc tag : inert tag -> slot_step acc tag = acc.
Proof.
  destruct acc as [d r], tag as [|n [|v tag]]; try done. simpl. intros [Hd Hs].
  by rewrite (proj2 (String.eqb_neq _ _) Hd), (proj2 (String.eqb_neq _ _) Hs).
Qed.

Lemma inert_fold acc tags : (forall t, t ∈ tags -> inert t) -> foldl slot_step acc tags = acc.
Proof.
  revert acc. induction tags as [|t tags IH]; intros acc Ht; simpl; [done|].
  rewrite inert_step by (apply Ht; set_solver). apply IH. set_solver.
Qed.

Lemma slot_of_built observer tag author slug name desc members cutoff rank rigor retracted :
  slot_of (stamped (build_trusted_list_tags observer tag author slug name desc members cutoff rank rigor retracted))
  = (Some (compute_d_tag observer author slug), retracted).
Proof.
  unfold slot_of, build_trusted_list_tags. destruct retracted.
  - cbn [app]. unfold stamped. repeat (rewrite filter_cons_True by done). rewrite filter_nil. cbn [app foldl slot_step String.eqb].
    done.
  - cbn [app]. do 9 (rewrite stamped_cons by done). cbn [foldl]. rewrite inert_fold; [done|].
    intros t Ht. apply elem_stamped in Ht as [[Ht _]| ->]; [|done]. by apply list_elem_of_fmap in Ht as (m & -> & _).
Qed.

Lemma slots_of_spec events :
  NoDup (slots_of events).*1
  /\ forall d, (d ∈ (slots_of events).*1 <->
                  String.prefix (D_TAG_PREFIX ++ "-") d = true /\ exists tags, tags ∈ events /\ (slot_of tags).1 = Some d)
     /\ forall b, dict_get d (slots_of events) = Some b ->
          (b = true <-> forall tags, tags ∈ events -> (slot_of tags).1 = Some d -> (slot_of tags).2 = true).
Proof.
  induction events as [|tags events IH] using rev_ind.
  { split; [apply NoDup_nil_2|]. intros d. split; [|done]. split; [set_solver|]. intros (_ & ? & ? & _). set_solver. }
  unfold slots_of. rewrite foldl_app. cbn [foldl]. fold (slots_of events). destruct IH as [Hnd IH].
  assert (Hskip : forall d, (slot_of tags).1 <> Some d ->
    (d ∈ (slots_of events).*1 <-> String.prefix (D_TAG_PREFIX ++ "-") d = true /\ exists t, t ∈ (events ++ [tags])%list /\ (slot_of t).1 = Some d)
    /\ forall b, dict_get d (slots_of events) = Some b ->
         (b = true <-> forall t, t ∈ (events ++ [tags])%list -> (slot_of t).1 = Some d -> (slot_of t).2 = true)).
  { intros d Hd. destruct (IH d) as [I1 I2]. setoid_rewrite elem_of_app. setoid_rewrite list_elem_of_singleton. split.
    - rewrite I1. naive_solver.
    - intros b Hb. rewrite (I2 b Hb). naive_solver. }
  destruct (slot_of tags) as [[d0|] r0] eqn:Es; simpl in Hskip; [|split; [done|]; intros d; by apply Hskip].
  destruct (String.prefix (D_TAG_PREFIX ++ "-") d0) eqn:Ep.
  2:{ split; [done|]. intros d. destruct (decide (d = d0)) as [->|Hne]; [|apply Hskip; congruence].
      destruct (IH d0) as [I1 I2]. split; [rewrite I1, Ep; naive_solver|]. intros b Hb.
      assert (Hin : d0 ∈ (slots_of events).*1) by (apply dict_get_is_Some; eauto). apply I1 in Hin as [? _]. congruence. }
  split; [by apply dict_set_NoDup|]. intros d. rewrite dict_set_keys, dict_get_set.
  destruct (decide (d = d0)) as [->|Hne].
  2:{ destruct (Hskip d ltac:(congruence)) as [H1 H2]. split; [|exact H2]. rewrite <- H1. naive_solver. }
  destruct (IH d0) as [I1 I2]. split.
  - split; [|by left]. intros _. split; [done|]. exists tags. rewrite Es. split; [set_solver|done].
  - intros b [= <-]. rewrite andb_true_iff. setoid_rewrite elem_of_app. setoid_rewrite list_elem_of_singleton. split.
    + intros [Hb ->] t [Ht| ->] Hd; [|by rewrite Es]. destruct (dict_get d0 (slots_of events)) as [b|] eqn:Eb.
      * by apply (I2 b eq_refl).
      * assert (Hin : d0 ∈ (slots_of events).*1) by (apply I1; eauto). apply dict_get_is_Some in Hin as [? ?]. congruence.
    + intros Hall. split; [|specialize (Hall tags (or_intror eq_refl)); rewrite Es in Hall; by apply Hall].
      destruct (dict_get d0 (slots_of events)) as [b|] eqn:Eb; [|done]. simpl. apply (I2 b eq_refl). intros t Ht. apply Hall. by left.
Qed.

(** ** What a run hands over *)

Section safety.
Context `{ListEnv} (observer : string).
Abbreviation key := (signing_key observer).

(** [w'] came from [w] by handing over events that satisfy [P], all under this key. *)
Definition extends (P : TLEvent -> Prop) (w w' : Wire) : Prop :=
  (exists new, handed w' = (handed w ++ new)%list /\ forall k ev, (k, ev) ∈ new -> k = key /\ P ev)
  /\ forall k d, k <> key -> slots w' !! (k, d) = slots w !! (k, d).

Lemma extends_refl P w : extends P w w.
Proof. split; [|done]. exists []. rewrite app_nil_r. set_solver. Qed.

Lemma extends_trans P w w1 w2 : extends P w w1 -> extends P w1 w2 -> extends P w w2.
Proof.
  intros [(n1 & E1 & H1) S1] [(n2 & E2 & H2) S2]. split.
  - exists (n1 ++ n2)%list. split; [by rewrite E2, E1, app_assoc|]. intros k ev [?|?]%elem_of_app; auto.
  - intros k d Hk. by rewrite S2, S1.
Qed.

Lemma extends_weaken (P P' : TLEvent -> Prop) w w' : (forall ev, P ev -> P' ev) -> extends P w w' -> extends P' w w'.
Proof. intros HP [(n & E & Hn) S]. split; [|done]. exists n. split; [done|]. intros k ev Hin. destruct (Hn k ev Hin). auto. Qed.

Lemma publish_extends (P : TLEvent -> Prop) tags content w :
  P {| ev_tags := stamped tags; ev_content := content |} -> extends P w (publish key tags content w).2.
Proof.
  intros HP. unfold publish. set (ev := {| ev_tags := stamped tags; ev_content := content |}) in *.
  assert (Hh : exists new, (handed w ++ [(key, ev)])%list = (handed w ++ new)%list /\ forall k e, (k, e) ∈ new -> k = key /\ P e).
  { exists [(key, ev)]. split; [done|]. by intros k e [= -> ->]%list_elem_of_singleton. }
  assert (Hs : forall k d, k <> key -> <[(key, d_of (ev_tags ev)) := ev]> (slots w) !! (k, d) = slots w !! (k, d)).
  { intros k d Hk. apply lookup_insert_ne. congruence. }
  destruct (answer _); (split; [exact Hh|]); simpl; [exact Hs|done|exact Hs].
Qed.

(** An event of the run: a list of a current coordinate, or the retraction of one that
    is not. *)
Definition proper_event (current : list string) (ev : TLEvent) : Prop :=
  String.prefix (own_prefix observer) (d_of (ev_tags ev)) = true
  /\ if decide (is_retraction ev) then d_of (ev_tags ev) ∉ current else d_of (ev_tags ev) ∈ current.

Lemma publish_entry_extends current qualifying rigor entry taggings p w :
  entry_d_tag observer entry ∈ current ->
  extends (proper_event current) w (publish_entry observer qualifying rigor entry taggings p w).2.
Proof.
  intros Hc. unfold publish_entry. set (members := entry_members _ _ _).
  pose proof (publish_extends (proper_event current) (list_tags_of observer entry members rigor)
                (Some (build_trusted_list_content members)) w) as Hp.
  destruct (publish _ _ _ w) as [[[]|e] w']; simpl in *; apply Hp; unfold proper_event, list_tags_of, is_retraction; cbn [ev_tags];
    rewrite d_of_built; (split; [by rewrite d_tag_split, Json.prefix_app|]); (rewrite decide_False by apply list_not_retraction); exact Hc.
Qed.

Lemma publish_entries_extends current qualifying rigor rows p w :
  (forall entry taggings, (entry, taggings) ∈ rows -> entry_d_tag observer entry ∈ current) ->
  extends (proper_event current) w (publish_entries observer qualifying rigor rows p w).2.
Proof.
  unfold publish_entries. revert p w. induction rows as [|[entry tg] rows IH]; intros p w Hr; simpl; [apply extends_refl|].
  pose proof (publish_entry_extends current qualifying rigor entry tg p w ltac:(apply (Hr entry tg); set_solver)) as H1.
  destruct (publish_entry _ _ _ _ _ p w) as [p1 w1]. eapply extends_trans; [exact H1|]. apply IH. set_solver.
Qed.

Lemma retract_slot_extends current published_slots stale p w :
  stale ∉ current -> (String.prefix (own_prefix observer) stale = true -> ours observer stale) ->
  extends (proper_event current) w (retract_slot observer published_slots stale p w).2.
Proof.
  intros Hc Hours. unfold retract_slot. destruct (default false _); [apply extends_refl|].
  destruct (parse_d_tag_slug stale observer) as [[a8 sl]|] eqn:Ep; [|apply extends_refl].
  assert (Hd : compute_d_tag observer a8 sl = stale).
  { unfold parse_d_tag_slug in Ep. fold (own_prefix observer) in Ep.
    destruct (String.prefix (own_prefix observer) stale) eqn:E; [|done].
    destruct (parse_ours observer stale (Hours eq_refl)) as (a' & s' & Ep' & Ed).
    unfold parse_d_tag_slug in Ep'. fold (own_prefix observer) in Ep'. rewrite E in Ep'. rewrite Ep' in Ep. by injection Ep as <- <-. }
  pose proof (publish_extends (proper_event current) (retraction_tags observer a8 sl) None w) as Hp.
  destruct (publish _ _ _ w) as [[[]|e] w']; simpl in *; apply Hp; unfold proper_event, retraction_tags, is_retraction; cbn [ev_tags];
    rewrite d_of_built; (split; [by rewrite d_tag_split, Json.prefix_app|]);
    (rewrite decide_True by apply retraction_is_retraction); by rewrite Hd.
Qed.

(** A scan shows nothing that is not on the relay under this key. *)
Definition sound_scan : Prop :=
  forall w events tags, scan RETRACTION_SCAN_LIMIT w = Ok events -> tags ∈ events ->
    exists d ev, slots w !! (key, d) = Some ev /\ tags = ev_tags ev.

(** Every event under the key is at its own coordinate, and the lists are ours. *)
Definition clean (w : Wire) : Prop :=
  forall d ev, slots w !! (key, d) = Some ev ->
    (slot_of (ev_tags ev)).1 = Some d /\ (String.prefix (D_TAG_PREFIX ++ "-") d = true -> ours observer d).

Lemma publish_clean tags content w :
  clean w -> (slot_of (stamped tags)).1 = Some (d_of (stamped tags)) -> ours observer (d_of (stamped tags)) ->
  clean (publish key tags content w).2.
Proof.
  intros Hc Hs Ho. unfold publish.
  assert (Hput : forall h, clean {| slots := <[(key, d_of (stamped tags)) := {| ev_tags := stamped tags; ev_content := content |}]> (slots w); handed := h |}).
  { intros h d ev Hd. simpl in Hd. apply lookup_insert_Some in Hd as [[[= <-] <-]|[_ Hd]]; [|by apply Hc]. done. }
  destruct (answer _); [apply Hput|exact Hc|apply Hput].
Qed.

Lemma publish_entries_clean qualifying rigor rows p w : clean w ->
  (forall entry tg, (entry, tg) ∈ rows -> ours observer (entry_d_tag observer entry)) ->
  clean (publish_entries observer qualifying rigor rows p w).2.
Proof.
  unfold publish_entries. revert p w. induction rows as [|[entry tg] rows IH]; intros p w Hc Ho; cbn [foldl]; [done|].
  pose proof (publish_clean (list_tags_of observer entry (entry_members tg qualifying rigor) rigor)
                (Some (build_trusted_list_content (entry_members tg qualifying rigor))) w Hc) as H1.
  unfold list_tags_of at 1 2 3 in H1. rewrite slot_of_built, d_of_built in H1.
  specialize (H1 eq_refl (Ho entry tg ltac:(set_solver))). unfold publish_entry at 2.
  destruct (publish _ _ _ w) as [[[]|e] w1]; (apply IH; [exact H1|set_solver]).
Qed.

Lemma retract_stale_extends current p w : sound_scan -> clean w ->
  extends (proper_event current) w (retract_stale observer current p w).2.
Proof.
  intros Hscan Hc. unfold retract_stale, fetch_published_tl_slots. destruct (scan RETRACTION_SCAN_LIMIT w) as [events|e] eqn:E; [|apply extends_refl].
  simpl. set (published_slots := slots_of events).
  assert (Hall : forall d, d ∈ plan_retractions published_slots.*1 current -> d ∉ current /\ ours observer d).
  { intros d [Hd Hin]%list_elem_of_filter. split; [done|].
    destruct (slots_of_spec events) as [_ Hspec]. apply (Hspec d) in Hin as (Hpre & tags & Hin & Hs).
    destruct (Hscan w events tags E Hin) as (d' & ev & Hd' & ->). destruct (Hc d' ev Hd') as [Hs' Ho].
    rewrite Hs' in Hs. injection Hs as ->. by apply Ho. }
  clear E Hc. revert p w Hall. generalize (plan_retractions published_slots.*1 current). intros stale.
  induction stale as [|d stale IH]; intros p w' Hall; simpl; [apply extends_refl|].
  destruct (Hall d) as [Hd1 Hd2]; [set_solver|].
  pose proof (retract_slot_extends current published_slots d p w' Hd1 (fun _ => Hd2)) as H1.
  destruct (retract_slot _ _ d p w') as [p1 w1]. eapply extends_trans; [exact H1|]. apply IH. set_solver.
Qed.

(** The coordinates a run considers current. *)
Definition current_of (st : TagStore) : list string :=
  (fun '(entry, _) => entry_d_tag observer entry) <$> dictionary_of (qualifying_of observer st) st.

(** Elements as the parser lets them in: a hex author and a slug. *)
Definition proper_store (st : TagStore) : Prop :=
  forall e, e ∈ element_rows st -> proper_author (author_pubkey e) /\ slug e <> "".

Lemma proper_entries st qualifying entry tg : proper_store st ->
  (entry, tg) ∈ dictionary_of qualifying st -> ours observer (entry_d_tag observer entry).
Proof.
  intros Hp Hin. unfold dictionary_of in Hin. simpl in Hin.
  apply list_elem_of_fmap in Hin as (entry' & [= -> _] & Hin). destruct (qualifying.*1); [set_solver|].
  rewrite stable_sort_elem, list_elem_of_filter in Hin. destruct Hin as [_ Hin].
  apply list_elem_of_fmap in Hin as (e & -> & He). destruct (Hp e He). by exists (author_pubkey e), (slug e).
Qed.

(** C16: a run never wipes a healthy list: whatever the relay answers to each
    publication, and wherever Postgres, Neo4j or the connection fails, every event it
    hands over is under this Observer's key and prefix; a retraction is only ever sent
    to a coordinate outside the current dictionary, even when the publication of the
    current one failed; nobody else's slots change; and when nothing was ever
    ingested, no asserter qualifies, or anything needed could not be read, nothing is
    sent at all. *)
Theorem lists_never_wiped (st : TagStore) (w : Wire) :
  sound_scan -> clean w -> proper_store st ->
  let '(r, w') := generate_trusted_lists_for_observer observer st w in
  extends (proper_event (current_of st)) w w'
  /\ ((tagging_rows st = [] \/ qualifying_of observer st = [] \/ is_ok r = false) -> w' = w).
Proof.
  intros Hscan Hclean Hproper. unfold generate_trusted_lists_for_observer, read_ok.
  destruct (read_phase 0); [split; [apply extends_refl|done]|].
  destruct (length (tagging_rows st)) as [|n] eqn:En; [split; [apply extends_refl|done]|].
  destruct (read_phase 1); [split; [apply extends_refl|done]|].
  destruct (qualifying_of observer st) as [|q qs] eqn:Eq; [split; [apply extends_refl|done]|].
  destruct (read_phase 2); [split; [apply extends_refl|done]|].
  destruct connects; [split; [apply extends_refl|done]|]. cbv zeta. unfold current_of. rewrite Eq.
  set (rows := dictionary_of (q :: qs) st). set (current := (fun '(entry, _) => entry_d_tag observer entry) <$> rows).
  pose proof (publish_entries_extends current (q :: qs) (resolve_rigor observer) rows no_progress w) as H1.
  pose proof (publish_entries_clean (q :: qs) (resolve_rigor observer) rows no_progress w Hclean
                (fun entry tg Hin => proper_entries st (q :: qs) entry tg Hproper Hin)) as Hc1.
  destruct (publish_entries _ _ _ rows no_progress w) as [p w1]. simpl in H1, Hc1.
  pose proof (retract_stale_extends current p w1 Hscan Hc1) as H2.
  destruct (retract_stale observer current p w1) as [p2 w2]. split.
  - eapply extends_trans; [apply H1|exact H2]. intros entry tg Hin. apply list_elem_of_fmap. by exists (entry, tg).
  - intros [E|[E|E]]; [by rewrite E in En|done|done].
Qed.
End safety.

(** ** A run in which nothing fails *)

Section exact.
Context `{ListEnv} (observer : string).
Abbreviation key := (signing_key observer).

Definition all_works : Prop :=
  (forall n, read_phase n = None) /\ connects = None /\ forall n, answer n = Accepted.

(** What is on the relay under the key. *)
Definition under_key (w : Wire) : gmap (string * string) TLEvent := filter (fun kv => kv.1.1 = key) (slots w).

(** A scan returns events that are there under the key, in some order, as many as its
    limit lets through. *)
Definition honest_scan : Prop :=
  forall n w, exists events, events ≡ₚ (fun kv => ev_tags kv.2) <$> map_to_list (under_key w) /\ scan n w = Ok (take n events).

(** Within the limit it is all that is there. *)
Lemma scan_complete w : honest_scan -> (size (under_key w) <= RETRACTION_SCAN_LIMIT)%nat ->
  exists events, scan RETRACTION_SCAN_LIMIT w = Ok events
    /\ forall tags, tags ∈ events <-> exists d ev, slots w !! (key, d) = Some ev /\ tags = ev_tags ev.
Proof.
  intros Hscan Hn. destruct (Hscan RETRACTION_SCAN_LIMIT w) as (events & Hp & Hs). exists events. rewrite Hs, take_ge.
  2:{ rewrite Hp, length_fmap, length_map_to_list. exact Hn. }
  split; [done|]. intros tags. rewrite Hp, list_elem_of_fmap. unfold under_key. split.
  - intros ([[k d] ev] & -> & [Hd Hk]%elem_of_map_to_list%map_lookup_filter_Some). simpl in *. subst k. eauto.
  - intros (d & ev & Hd & ->). exists ((key, d), ev). split; [done|]. apply elem_of_map_to_list, map_lookup_filter_Some. by split.
Qed.

(** The event of one entry. *)
Definition entry_event (qualifying : list (string * Q)) (rigor : Q)
  (entry : DictionaryEntry) (taggings : list (string * pyfloat * string)) : TLEvent :=
  let members := entry_members taggings qualifying rigor in
  {| ev_tags := stamped (list_tags_of observer entry members rigor); ev_content := Some (build_trusted_list_content members) |}.

Definition put (d : string) (ev : TLEvent) (w : Wire) : Wire :=
  {| slots := <[(key, d) := ev]> (slots w); handed := handed w ++ [(key, ev)] |}.

Context (Hworks : all_works).

Lemma publish_works tags content w : publish key tags content w =
  (Ok tt, put (d_of (stamped tags)) {| ev_tags := stamped tags; ev_content := content |} w).
Proof using Hworks. unfold publish. destruct Hworks as (_ & _ & Ha). by rewrite Ha. Qed.

Lemma publish_entries_works qualifying rigor rows p w :
  (publish_entries observer qualifying rigor rows p w).2
  = foldl (fun w '(entry, tg) => put (entry_d_tag observer entry) (entry_event qualifying rigor entry tg) w) w rows.
Proof using Hworks.
  unfold publish_entries. revert p w. induction rows as [|[entry tg] rows IH]; intros p w; cbn [foldl]; [done|].
  unfold publish_entry at 2. rewrite publish_works. cbv zeta. by rewrite IH.
Qed.

Lemma puts_lookup qualifying rigor rows w :
  let w' := foldl (fun w '(entry, tg) => put (entry_d_tag observer entry) (entry_event qualifying rigor entry tg) w) w rows in
  let ds := (fun '(entry, _) => entry_d_tag observer entry) <$> rows in
  (forall d, d ∉ ds -> slots w' !! (key, d) = slots w !! (key, d))
  /\ (NoDup ds -> forall entry tg, (entry, tg) ∈ rows ->
        slots w' !! (key, entry_d_tag observer entry) = Some (entry_event qualifying rigor entry tg)).
Proof using Hworks.
  revert w. induction rows as [|[entry tg] rows IH]; intros w; cbn [foldl]; [split; [done|set_solver]|].
  destruct (IH (put (entry_d_tag observer entry) (entry_event qualifying rigor entry tg) w)) as [I1 I2]. simpl in I1, I2. split.
  - intros d [Hne Hd]%not_elem_of_cons. rewrite I1 by done. simpl. apply lookup_insert_ne. congruence.
  - intros [Hn Hnd]%NoDup_cons e t [[= -> ->]|Hin]%elem_of_cons; [|by apply I2].
    rewrite I1 by done. simpl. by rewrite lookup_insert_eq.
Qed.

Lemma puts_size qualifying rigor rows w :
  let w' := foldl (fun w '(entry, tg) => put (entry_d_tag observer entry) (entry_event qualifying rigor entry tg) w) w rows in
  (size (under_key w') <= size (under_key w) + length rows)%nat.
Proof using Type.
  revert w. induction rows as [|[entry tg] rows IH]; intros w; cbn [foldl length]; [lia|].
  cbv zeta in IH. specialize (IH (put (entry_d_tag observer entry) (entry_event qualifying rigor entry tg) w)).
  assert (Hone : (size (under_key (put (entry_d_tag observer entry) (entry_event qualifying rigor entry tg) w)) <= S (size (under_key w)))%nat).
  { unfold under_key, put. cbn [slots]. rewrite map_filter_insert_True by done. rewrite map_size_insert. by destruct (_ !! _); simpl; lia. }
  lia.
Qed.

(** The event of one retraction. *)
Definition retraction_event (author8 slug : string) : TLEvent :=
  {| ev_tags := stamped (retraction_tags observer author8 slug); ev_content := None |}.

Lemma retract_slot_works published_slots stale p w : ours observer stale ->
  (forall d, d <> stale -> slots (retract_slot observer published_slots stale p w).2 !! (key, d) = slots w !! (key, d))
  /\ if default false (dict_get stale published_slots)
     then slots (retract_slot observer published_slots stale p w).2 = slots w
     else exists ev', slots (retract_slot observer published_slots stale p w).2 !! (key, stale) = Some ev'
          /\ slot_of (ev_tags ev') = (Some stale, true).
Proof using Hworks.
  intros Ho. unfold retract_slot. destruct (default false _); [done|].
  destruct (parse_ours observer stale Ho) as (a8 & sl & -> & Hd). rewrite publish_works. cbn [snd].
  assert (Ed : d_of (stamped (retraction_tags observer a8 sl)) = stale) by (unfold retraction_tags; by rewrite d_of_built).
  rewrite Ed. split.
  - intros d Hne. simpl. apply lookup_insert_ne. congruence.
  - exists (retraction_event a8 sl). simpl. rewrite lookup_insert_eq. split; [done|]. unfold retraction_tags. by rewrite slot_of_built, Hd.
Qed.

Lemma retracts_lookup published_slots stale p w : (forall d, d ∈ stale -> ours observer d) ->
  let w' := (foldl (fun '(p, w) s => retract_slot observer published_slots s p w) (p, w) stale).2 in
  (forall d, d ∉ stale -> slots w' !! (key, d) = slots w !! (key, d))
  /\ forall d, d ∈ stale ->
       if default false (dict_get d published_slots) then slots w' !! (key, d) = slots w !! (key, d)
       else exists ev', slots w' !! (key, d) = Some ev' /\ slot_of (ev_tags ev') = (Some d, true).
Proof using Hworks.
  revert p w. induction stale as [|s stale IH]; intros p w Ho; cbn [foldl]; [split; [done|set_solver]|].
  destruct (retract_slot_works published_slots s p w ltac:(apply Ho; set_solver)) as [R1 R2].
  destruct (retract_slot observer published_slots s p w) as [p1 w1]. simpl in R1, R2.
  destruct (IH p1 w1 ltac:(set_solver)) as [I1 I2]. cbv zeta in *. split.
  - intros d [Hne Hd]%not_elem_of_cons. by rewrite I1, R1.
  - intros d Hd. destruct (decide (d ∈ stale)) as [Hin|Hnin].
    + specialize (I2 d Hin). destruct (default false (dict_get d published_slots)) eqn:Eb; [|done]. rewrite I2.
      destruct (decide (d = s)) as [->|Hne]; [by rewrite Eb in R2; rewrite R2|by apply R1].
    + assert (d = s) as -> by set_solver. rewrite I1 by done. destruct (default false _); [by rewrite R2|done].
Qed.

End exact.

(** ** Trusted Lists on a small store

    One element, one application and one stale list on the relay: the theorems on
    Trusted Lists applied to them.  [parsed_proper] shows that what the parser lets
    into the tables is what the theorems ask of a store. *)

(** ** What the parser lets in *)

Lemma hex64_chars s : is_hex64 (JStr s) = Some s -> String.length s = 64%nat /\ free_of "-" (chars s).
Proof.
  simpl. destruct (Nat.eqb_spec (String.length s) 64) as [Hl|]; [|done]. simpl.
  destruct (forallb is_hex_digit (chars (py_lower s))) eqn:E; [|done]. intros _. split; [done|].
  unfold py_lower in E. rewrite chars_of_chars in E. unfold free_of. clear Hl. revert E. generalize (chars s) as l.
  induction l as [|c l IH]; simpl; [done|]. rewrite !andb_true_iff. intros [Hc Hl]. split; [|by apply IH].
  destruct (Ascii.eqb_spec c "-"); [by subst c|done].
Qed.

Lemma chars_first8 s : chars (first8 s) = take 8 (chars s).
Proof.
  unfold first8. generalize 8%nat. intros n. revert s. induction n as [|n IH]; intros [|c s]; try done.
  change (c :: chars (String.substring 0 n s) = c :: take n (chars s)). by rewrite IH.
Qed.

Lemma parsed_proper `{TagEnv} event e : parse_tag_element event = Ok (Some e) ->
  proper_author (author_pubkey e) /\ slug e <> "".
Proof.
  unfold parse_tag_element. intros (z & _ & E)%res_bind_Ok. destruct (negb _); [done|].
  apply res_bind_Ok in E as (id_ & _ & (author & _ & E)%res_bind_Ok).
  destruct (is_hex64 id_) as [id'|]; [|done]. destruct (is_hex64 author) as [a|] eqn:Ea; [|done].
  apply res_bind_Ok in E as (jt & _ & (ct & _ & (pl & _ & E)%res_bind_Ok)%res_bind_Ok). destruct pl as [pl|]; [|done].
  unfold element_of_payload in E. destruct pl as [| | | | | |d]; try done. destruct (dget "tag" d) as [| | | | | |tag]; try done.
  destruct (stripped_nonempty (dget "slug" tag)) as [sl|] eqn:Es; [|done].
  apply res_bind_Ok in E as (at_ & _ & (c & _ & [= <-])%res_bind_Ok). cbn [author_pubkey slug]. split.
  - assert (Ha : is_hex64 (JStr a) = Some a).
    { destruct author; try done. simpl in Ea. destruct (_ && _) eqn:Eb; [|done]. injection Ea as <-. simpl. by rewrite Eb. }
    destruct (hex64_chars a Ha) as [Hl Hf]. split.
    + intros E. apply (f_equal (fun s => length (chars s))) in E. rewrite chars_first8, length_take in E.
      change (length (chars "")) with 0%nat in E.
      pose proof (length_chars a) as Hlen.
      lia.
    + rewrite chars_first8. rewrite <- (take_drop 8 (chars a)) in Hf. by apply free_of_app in Hf as [? _].
  - unfold stripped_nonempty in Es. destruct (dget "slug" tag) as [| | | |s| |]; try done.
    destruct (String.eqb_spec (py_strip s) ""); [done|]. injection Es as <-. by intros ->.
Qed.

(** ** A deployment *)

Definition olga : string := "olga-the-observer".
Definition assistant : string := "assistant".

#[export] Instance small_pow : PowEnv := {| fpow := fun r _ => r |}.

Definition scan_key (w : Wire) : list (list (list string)) :=
  (fun kv => ev_tags kv.2) <$> map_to_list (base.filter (fun kv => kv.1.1 = assistant) (slots w)).

#[export] Instance small_lists : ListEnv := {|
  list_settings := {| trusted_list_min_rank := 3; trusted_list_min_tag_uses := 1; trusted_list_cutoff := 1 |};
  signing_key := fun _ => assistant;
  preset_rigor := fun _ => Ok (1 # 2)%Q;
  influence_of := fun _ pk => if String.eqb pk "bob" then Some (rn (9 # 10)) else None;
  read_phase := fun _ => None;
  connects := None;
  answer := fun _ => Accepted;
  scan := fun n w => Ok (take n (scan_key w));
  list_rows := {| row_order := fun _ l => l |};
|}.

Lemma scan_key_elem w tags : tags ∈ scan_key w <-> exists d ev, slots w !! (assistant, d) = Some ev /\ tags = ev_tags ev.
Proof.
  unfold scan_key. rewrite list_elem_of_fmap. split.
  - intros ([[k d] ev] & -> & [Hd Hk]%elem_of_map_to_list%map_lookup_filter_Some). simpl in *. subst k. eauto.
  - intros (d & ev & Hd & ->). exists ((assistant, d), ev). split; [done|]. by apply elem_of_map_to_list, map_lookup_filter_Some.
Qed.

(** A list of a tag nobody uses any more. *)
Definition old_list : TLEvent :=
  {| ev_tags := stamped (build_trusted_list_tags olga "e0" "alice" "cook" "Cook" "" [] 1 3 DEFAULT_RIGOR false); ev_content := None |}.
Definition old_slot : string := compute_d_tag olga "alice" "cook".
Definition before : Wire := {| slots := {[(assistant, old_slot) := old_list]}; handed := [] |}.

Lemma before_clean : clean olga before.
Proof.
  intros d ev Hd. change (({[(assistant, old_slot) := old_list]} : gmap (string * string) TLEvent) !! (assistant, d) = Some ev) in Hd.
  apply lookup_singleton_Some in Hd as [[= <-] <-]. split; [by vm_compute|]. intros _.
  exists "alice", "cook". split; [done|]. split; [|done]. by split.
Qed.

Lemma applied_proper : proper_store applied.
Proof.
  intros e He. assert (E : element_rows applied = [podcaster "e1" "Pod" 10]) by (by vm_compute).
  rewrite E in He. apply list_elem_of_singleton in He as ->. split; [|done]. by split.
Qed.

Lemma lists_never_wiped_witness :
  let '(r, w') := generate_trusted_lists_for_observer olga applied before in
  extends olga (proper_event olga (current_of olga applied)) before w'
  /\ ((tagging_rows applied = [] \/ qualifying_of olga applied = [] \/ is_ok r = false) -> w' = before).
Proof.
  apply lists_never_wiped; [|apply before_clean|apply applied_proper].
  intros w events tags [= <-] Hin. apply scan_key_elem. by eapply subseteq_take.
Defined.


(** Carol is on the new list with a score of 50, and the old one is retracted. *)
Example the_run :
  let w' := (generate_trusted_lists_for_observer olga applied before).2 in
  (slot_of ∘ ev_tags <$> slots w' !! (assistant, old_slot)) = Some (Some old_slot, true)
  /\ ((fun ev => nth 9 (ev_tags ev) []) <$> slots w' !! (assistant, compute_d_tag olga "alice" "podcaster"))
     = Some ["p"; "carol"; ""; "50"].
Proof. by vm_compute. Qed.

Lemma d_tag_round_trip_witness :
  parse_d_tag_slug (compute_d_tag olga "alice" "late-night-radio") olga = Some ("alice", "late-night-radio").
Proof.
  refine (proj1 (d_tag_round_trip olga olga "alice" "late-night-radio" _ _)); [|done]. by split.
Defined.

Definition three_taggings : list (string * pyfloat * Q) :=
  [("carol", Fin 1, rn (9 # 10)); ("carol", Fin (-1), rn (1 # 10)); ("carol", Fin 1, rn (7 # 10))].

Lemma score_in_range_witness :
  exists m, m ∈ compute_members three_taggings 2 (1 # 2) /\ (1 <= score m <= 100)%Z.
Proof.
  assert (E : exists m, compute_members three_taggings 2 (1 # 2) = [m]) by (eexists; vm_compute; reflexivity).
  destruct E as [m E]. exists m. assert (Hm : m ∈ compute_members three_taggings 2 (1 # 2)) by (rewrite E; apply list_elem_of_singleton; reflexivity).
  clear E. split; [exact Hm|]. apply (score_in_range three_taggings 2 (1 # 2) m).
  - intros r w H0 H1 _. simpl. split; lra.
  - lra.
  - lra.
  - intros x Hx. repeat (apply elem_of_cons in Hx as [->|Hx]; [by vm_compute|]). apply elem_of_nil in Hx. destruct Hx.
  - exact Hm.
Defined.
