(* ===== verification/Onboarding.v ===== *)
(** * The onboarding follow list

    [src/app/schemas/nostr_event.py] is what the request must look like;
    [services/onboarding_service.py] checks it and writes it with the consumer's own
    kind-3 handler, trying again when Neo4j reports a transient error.

    [follow_list_exact] is what the endpoint does to the graph when up to two
    attempts fail: the caller follows exactly who the list names, Redis agrees, and
    no list, empty or not, takes all of the caller's follows away.
    [exhausted_keeps_follows] is what three failed attempts leave. *)

From Stdlib Require Import Ascii String QArith.
From S2P Require Import Prelude Json Atomic NostrTags Tagging NostrGraph NostrGraphProps IngestProps.
From stdpp Require Import list.
Local Open Scope string_scope.
Local Open Scope Z_scope.

(** ** The request ([schemas/nostr_event.py]) *)

Record NostrEvent := {
  ne_id : string;
  ne_pubkey : string;
  ne_created_at : Z;
  ne_kind : Z;
  ne_tags : list (list string);
  ne_content : string;
  ne_sig : string;
}.

(** [re.compile(r"^[0-9a-f]{n}$").fullmatch]: nothing may follow the digits. *)
Definition hex_fullmatch (n : nat) (s : string) : bool :=
  (String.length s =? n)%nat && forallb is_hex_digit (chars s).

Definition is_hex_64 (value : string) : bool := hex_fullmatch 64 value.
Definition is_hex_128 (value : string) : bool := hex_fullmatch 128 value.

Definition tag_well_formed (tag : list string) : bool :=
  match tag with
  | [] => false
  | t0 :: rest =>
      if String.eqb t0 "p" then match rest with t1 :: _ => hex_fullmatch 64 t1 | [] => false end else true
  end.
Definition tags_well_formed (tags : list (list string)) : bool := forallb tag_well_formed tags.

(** The fields' constraints and validators; a body that fails one is answered 422. *)
Definition nostr_event_valid (e : NostrEvent) : bool :=
  is_hex_64 (ne_id e) && is_hex_64 (ne_pubkey e) && (0 <=? ne_created_at e) && (0 <=? ne_kind e)
  && tags_well_formed (ne_tags e) && is_hex_128 (ne_sig e).

Definition dump_tag (tag : list string) : json := JList (JStr <$> tag).
Definition model_dump (e : NostrEvent) : json :=
  JObj [("id", JStr (ne_id e)); ("pubkey", JStr (ne_pubkey e)); ("created_at", JInt (ne_created_at e));
        ("kind", JInt (ne_kind e)); ("tags", JList (dump_tag <$> ne_tags e)); ("content", JStr (ne_content e));
        ("sig", JStr (ne_sig e))].

(** ** The service *)

(** [nostr_sdk.Event]: [from_json] is [None] when the library refuses. *)
Class NostrSdk := {
  SdkEvent : Type;
  from_json : json -> option SdkEvent;
  sdk_kind : SdkEvent -> Z;
  sdk_verify : SdkEvent -> bool;
  sdk_author : SdkEvent -> string;
}.

Definition KIND_FOLLOW_LIST : Z := 3.
Definition MAX_WRITE_ATTEMPTS : nat := 3.
Definition TransientError : exn := OtherException "TransientError".

(** [tag and tag[0] == "p"]. *)
Definition is_follow_tag (tag : json) : res exn bool :=
  if negb (py_truthy tag) then mret false
  else t0 ← py_index tag 0; mret (json_is_str t0 "p").

Definition count_follows (signed_event : json) : res exn Z :=
  tags ← py_get_or "tags" (JList []) signed_event;
  l ← py_iter tags;
  foldm (fun n tag => b ← is_follow_tag tag; mret (if b : bool then n + 1 else n)) 0 l.

Section service.
Context `{GraphEnv} `{NostrSdk}.

(** The attempts left, [attempts] of them: the last failure is raised. *)
Fixpoint write_attempts (attempts : nat) (signed_event : json) : act Net unit :=
  match attempts with
  | O => mret tt
  | S remaining =>
      act_try (process_event_kind_3 signed_event)
        (fun e => if decide (e = TransientError)
                  then match remaining with O => throw e | _ => write_attempts remaining signed_event end
                  else throw e)
  end.
Definition write_follows_with_retry (signed_event : json) : act Net unit :=
  write_attempts MAX_WRITE_ATTEMPTS signed_event.

Definition ingest_follow_list (caller_pubkey : string) (signed_event : json) : act Net Z :=
  match from_json signed_event with
  | None => throw (HTTPException 400)
  | Some event =>
      if negb (sdk_kind event =? KIND_FOLLOW_LIST) then throw (HTTPException 400)
      else if negb (sdk_verify event) then throw (HTTPException 401)
      else if negb (String.eqb (sdk_author event) caller_pubkey) then throw (HTTPException 403)
      else
        follow_count ← Ret (count_follows signed_event);
        if follow_count =? 0 then throw (HTTPException 400)
        else
          _ ← write_follows_with_retry signed_event;
          mret follow_count
  end.

(** The endpoint: the body, valid or not. *)
Definition submit_follow_list_endpoint (user_pubkey : string) (body : NostrEvent) : act Net Z :=
  if nostr_event_valid body then ingest_follow_list user_pubkey (model_dump body)
  else throw (HTTPException 422).
End service.

(** ** A handler whose units may fail

    One entry per unit: [true] is a unit that fails with [e] and leaves nothing. *)

Fixpoint run_faulty {S A} (e : exn) (faults : list bool) (p : act S A) (s : S) : res exn A * S :=
  match p with
  | Ret r => (r, s)
  | Tx f k =>
      match faults with
      | true :: faults => run_faulty e faults (k (Raise e)) s
      | false :: faults => run_faulty e faults (k (f s).1) (f s).2
      | [] => run_faulty e [] (k (f s).1) (f s).2
      end
  end.

Lemma run_faulty_none {S A} e (p : act S A) s : run_faulty e [] p s = run_act p s.
Proof. revert s. induction p as [r|B f k IH]; intros s; [done|]. simpl. apply IH. Qed.

(** An attempt of the kind-3 handler that Neo4j fails: at the merge, or after it. *)
Definition failed_attempt (faults : list bool) : Prop := faults = [true] \/ faults = [false; true].

(** ** What the list names *)

Lemma hex64_keeps s : hex_fullmatch 64 s = true -> py_lower s = s /\ hex64_match s = true.
Proof.
  unfold hex_fullmatch. intros [Hl Hd]%andb_prop. apply Nat.eqb_eq in Hl.
  assert (Hc : length (chars s) = 64%nat) by (by rewrite length_chars).
  split.
  - by apply lower_hex.
  - unfold hex64_match. rewrite take_ge, drop_ge, Hd by lia. by rewrite Hc.
Qed.

(** The tags that name a followed key. *)
Definition names (e : NostrEvent) (t : string) : Prop := exists rest, ("p" :: t :: rest) ∈ ne_tags e.

Lemma dumped_names tag t : tag_well_formed tag = true ->
  (names_pubkey (dump_tag tag) t <-> exists rest, tag = "p" :: t :: rest).
Proof.
  intros Hw. unfold names_pubkey, dump_tag. destruct tag as [|t0 [|t1 rest]]; [done| |].
  - simpl in Hw. unfold named_value. simpl. destruct (String.eqb t0 "p") eqn:E; [done|]. naive_solver.
  - simpl in Hw. unfold named_value. simpl. destruct (String.eqb_spec t0 "p") as [->|Hne].
    + simpl. destruct (hex64_keeps _ Hw) as [Hlow Hm]. split.
      * intros (s & [= <-] & -> & _). rewrite Hlow. by exists rest.
      * intros (r & [= -> ->]). exists t. by rewrite Hlow.
    + simpl. naive_solver.
Qed.

Lemma dumped_p_tags e : tags_well_formed (ne_tags e) = true ->
  exists l, event_p_tags (model_dump e) = Ok l /\ forall t, t ∈ l <-> names e t.
Proof.
  intros Hw. unfold tags_well_formed in Hw. rewrite forallb_forall in Hw.
  destruct (p_tag_pubkeys_total (dump_tag <$> ne_tags e)) as [l El].
  { intros tag (x & -> & _)%list_elem_of_fmap. by eexists. }
  exists l. split; [done|]. intros t. destruct (p_tag_pubkeys_exact _ _ El) as (raw & [= <-] & _ & Hl). rewrite Hl. unfold names. split.
  - intros (tag & (x & -> & Hx)%list_elem_of_fmap & Hn). apply dumped_names in Hn as [rest ->]; [by exists rest|].
    by apply Hw, list_elem_of_In.
  - intros [rest Hin]. exists (dump_tag ("p" :: t :: rest)). split; [by apply list_elem_of_fmap_2|].
    apply dumped_names; [by apply Hw, list_elem_of_In|by exists rest].
Qed.

Definition follow_tags (e : NostrEvent) : list (list string) :=
  base.filter (fun tag => head tag = Some "p") (ne_tags e).

Lemma count_dumped e : count_follows (model_dump e) = Ok (Z.of_nat (length (follow_tags e))).
Proof.
  unfold count_follows, follow_tags. simpl.
  enough (forall n, foldm (fun n tag => b ← is_follow_tag tag; mret (if b : bool then n + 1 else n)) n (dump_tag <$> ne_tags e)
    = Ok (n + Z.of_nat (length (base.filter (fun tag => head tag = Some "p") (ne_tags e))))) as H by (by rewrite H).
  induction (ne_tags e) as [|tag tags IH]; intros n; [simpl; f_equal; lia|]. rewrite filter_cons.
  set (rest := base.filter _ tags) in *. destruct (decide _) as [Hh|Hh].
  - destruct tag as [|t0 tag]; [done|]. injection Hh as ->. simpl. rewrite IH. f_equal. lia.
  - destruct tag as [|t0 tag]; simpl; [apply IH|]. destruct (String.eqb_spec t0 "p") as [->|_]; [done|apply IH].
Qed.

Lemma follow_tags_name e : tags_well_formed (ne_tags e) = true ->
  follow_tags e <> [] <-> exists t, names e t.
Proof.
  intros Hw. unfold tags_well_formed in Hw. rewrite forallb_forall in Hw. unfold names, follow_tags. split.
  - intros Hne. destruct (base.filter _ _) as [|tag l] eqn:E; [done|].
    assert (Hin : tag ∈ base.filter (fun tag => head tag = Some "p") (ne_tags e)) by (rewrite E; set_solver).
    apply list_elem_of_filter in Hin as [Hh Hin]. specialize (Hw tag ltac:(by apply list_elem_of_In)).
    destruct tag as [|t0 [|t1 rest]]; [done|by injection Hh as ->|]. injection Hh as ->. by exists t1, rest.
  - intros (t & rest & Hin) E. assert (("p" :: t :: rest) ∈ base.filter (fun tag => head tag = Some "p") (ne_tags e)) as Hx
      by (by apply list_elem_of_filter). rewrite E in Hx. set_solver.
Qed.

(** ** The attempts *)

Lemma run_faulty_map {S A B} e faults (p : act S A) (g : A -> B) s :
  run_faulty e faults (p ≫= (fun a => mret (g a))) s
  = match run_faulty e faults p s with (Ok a, s') => (Ok (g a), s') | (Raise x, s') => (Raise x, s') end.
Proof.
  revert faults s. induction p as [[a|x]|C f k IH]; intros faults s; [done|done|].
  destruct faults as [|[] faults]; simpl; apply IH.
Qed.

Section attempts.
Context `{GraphEnv} (event : json) (pub : string) (l : list string).
Hypothesis author : event_author event = Ok pub.
Hypothesis listed : event_p_tags event = Ok l.
Hypothesis some_listed : l <> [].

Definition merged (n : Net) : Net := (merge_edges FOLLOWS pub l n).2.

Lemma merged_twice n : merged (merged n) = merged n.
Proof. unfold merged, merge_edges, writes, with_graph. simpl. f_equal; set_solver. Qed.

(** The handler from its first unit on. *)
Lemma handler_units : exists k,
  process_event_kind_3 event = Tx (merge_edges FOLLOWS pub l) k
  /\ (forall x, k (Raise x) = Ret (Raise x))
  /\ exists B (f : TX Net B) k', k (Ok tt) = Tx f k' /\ forall x, k' (Raise x) = Ret (Raise x).
Proof.
  unfold process_event_kind_3, process_list_event. rewrite author, listed. destruct l as [|x l']; [done|].
  eexists. split; [reflexivity|]. split; [done|]. eexists _, _, _. split; [reflexivity|]. done.
Qed.

Lemma handler_again n : run_act (process_event_kind_3 event) (merged n) = run_act (process_event_kind_3 event) n.
Proof.
  destruct handler_units as (k & -> & _).
  change (run_act (k (Ok tt)) (merged (merged n)) = run_act (k (Ok tt)) (merged n)). by rewrite merged_twice.
Qed.

(** A failed attempt leaves the graph as it was or with the merge done, and the next
    one starts. *)
Lemma failed_attempt_step fa faults k n : failed_attempt fa -> exists n', (n' = n \/ n' = merged n)
  /\ run_faulty TransientError (fa ++ faults)%list (write_attempts (S k) event) n
     = match k with O => (Raise TransientError, n') | _ => run_faulty TransientError faults (write_attempts k event) n' end.
Proof.
  destruct handler_units as (c & Eh & Hc & B & f & c' & Ec & Hc'). intros [-> | ->].
  - exists n. split; [by left|]. cbn [write_attempts app]. rewrite Eh. cbn [act_try run_faulty]. rewrite Hc. simpl.
    by destruct k, faults as [|[] ?].
  - exists (merged n). split; [by right|]. cbn [write_attempts app]. rewrite Eh. cbn [act_try run_faulty].
    change (merge_edges FOLLOWS pub l n).1 with (Ok tt : res exn unit). rewrite Ec. cbn [act_try run_faulty]. rewrite Hc'. simpl.
    by destruct k, faults as [|[] ?].
Qed.

Lemma attempts_complete fas k n : Forall failed_attempt fas -> (length fas < k)%nat ->
  (run_act (process_event_kind_3 event) n).1 = Ok tt ->
  run_faulty TransientError (mjoin fas) (write_attempts k event) n = run_act (process_event_kind_3 event) n.
Proof.
  revert k n. induction fas as [|fa fas IH]; intros k n Hf Hk Hok.
  - destruct k as [|k]; [simpl in Hk; lia|]. change (mjoin []) with (@nil bool). rewrite run_faulty_none. cbn [write_attempts].
    rewrite run_act_try. destruct (run_act (process_event_kind_3 event) n) as [r s]. simpl in Hok. by subst r.
  - apply Forall_cons in Hf as [Hfa Hf]. destruct k as [|[|k]]; [simpl in Hk; lia|simpl in Hk; lia|].
    change (mjoin (fa :: fas)) with (fa ++ mjoin fas)%list.
    destruct (failed_attempt_step fa (mjoin fas) (S k) n Hfa) as (n' & Hn' & ->).
    assert (E : run_act (process_event_kind_3 event) n' = run_act (process_event_kind_3 event) n).
    { destruct Hn' as [-> | ->]; [done|apply handler_again]. }
    rewrite <- E. apply IH; [done|simpl in Hk; lia|by rewrite E].
Qed.

Lemma attempts_exhausted fas k n : Forall failed_attempt fas -> length fas = S k ->
  exists n', (n' = n \/ n' = merged n)
    /\ run_faulty TransientError (mjoin fas) (write_attempts (S k) event) n = (Raise TransientError, n').
Proof.
  revert k n. induction fas as [|fa fas IH]; intros k n Hf Hk; [done|]. apply Forall_cons in Hf as [Hfa Hf].
  change (mjoin (fa :: fas)) with (fa ++ mjoin fas)%list.
  destruct (failed_attempt_step fa (mjoin fas) k n Hfa) as (n' & Hn' & ->). destruct k as [|k]; [by exists n'|].
  destruct (IH k n' Hf) as (n2 & Hn2 & ->); [by injection Hk|]. exists n2. split; [|done].
  destruct Hn' as [-> | ->]; [done|]. right. destruct Hn2 as [-> | ->]; [done|apply merged_twice].
Qed.
End attempts.

(** ** The endpoint *)

Section endpoint.
Context `{GraphEnv} `{NostrSdk}.

(** What the library promises of an event it reads: its author is the one the JSON names. *)
Definition sdk_reads_author : Prop := forall (e : NostrEvent) (event : SdkEvent), from_json (model_dump e) = Some event -> sdk_author event = ne_pubkey e.

(** A request the service acts on. *)
Definition accepted (user : string) (e : NostrEvent) : bool :=
  nostr_event_valid e
  && match from_json (model_dump e) with
     | Some event => (sdk_kind event =? KIND_FOLLOW_LIST) && sdk_verify event && String.eqb (sdk_author event) user
     | None => false
     end
  && bool_decide (follow_tags e <> []).

Lemma refused_untouched user e faults n : accepted user e = false ->
  exists code, code ∈ [400; 401; 403; 422] /\ run_faulty TransientError faults (submit_follow_list_endpoint user e) n = (Raise (HTTPException code), n).
Proof.
  unfold accepted, submit_follow_list_endpoint, ingest_follow_list. intros Ha.
  destruct (nostr_event_valid e); [|exists 422; split; [set_solver|done]].
  destruct (from_json _) as [event|]; [|exists 400; split; [set_solver|done]].
  destruct (sdk_kind event =? _); [|exists 400; split; [set_solver|done]].
  destruct (sdk_verify event); [|exists 401; split; [set_solver|done]].
  destruct (String.eqb _ _); [|exists 403; split; [set_solver|done]].
  simpl in Ha. apply bool_decide_eq_false in Ha. exists 400. split; [set_solver|].
  rewrite count_dumped. destruct (follow_tags e); [done|]. by destruct Ha.
Qed.

Lemma accepted_runs user e faults n : sdk_reads_author -> accepted user e = true ->
  exists l, event_author (model_dump e) = Ok user /\ event_p_tags (model_dump e) = Ok l /\ l <> []
    /\ (forall t, t ∈ l <-> names e t)
    /\ run_faulty TransientError faults (submit_follow_list_endpoint user e) n
       = match run_faulty TransientError faults (write_follows_with_retry (model_dump e)) n with
         | (Ok _, s') => (Ok (Z.of_nat (length (follow_tags e))), s')
         | (Raise x, s') => (Raise x, s')
         end.
Proof.
  unfold accepted, submit_follow_list_endpoint, ingest_follow_list. intros Hsdk [[Hv Hs]%andb_prop Hf%bool_decide_eq_true]%andb_prop.
  rewrite Hv. destruct (from_json _) as [event|] eqn:Ej; [|done].
  apply andb_prop in Hs as [[Hk Hver]%andb_prop Hu]. rewrite Hk, Hver, Hu. apply String.eqb_eq in Hu. rewrite (Hsdk _ _ Ej) in Hu.
  assert (Hw : tags_well_formed (ne_tags e) = true) by (unfold nostr_event_valid in Hv; by repeat (apply andb_prop in Hv as [Hv ?])).
  destruct (dumped_p_tags e Hw) as (l & El & Hl). exists l. split_and!; [by rewrite <- Hu|done| |done|].
  - intros ->. apply follow_tags_name in Hf as [t Ht]; [|done]. apply Hl in Ht. set_solver.
  - rewrite count_dumped. simpl. destruct (Z.eqb_spec (Z.of_nat (length (follow_tags e))) 0) as [E|_]; [by destruct (follow_tags e)|].
    apply (run_faulty_map TransientError faults (write_follows_with_retry (model_dump e)) (fun _ => Z.of_nat (length (follow_tags e)))).
Qed.


(** Three failed attempts: the error reaches the caller, who has lost no follow; Redis is
    as it was. *)
Lemma exhausted_keeps_follows user e attempts n :
  sdk_reads_author -> Forall failed_attempt attempts -> length attempts = MAX_WRITE_ATTEMPTS -> accepted user e = true ->
  let o := run_faulty TransientError (mjoin attempts) (submit_follow_list_endpoint user e) n in
  o.1 = Raise TransientError /\ edges n ⊆ edges o.2 /\ redis_sets o.2 = redis_sets n.
Proof.
  intros Hsdk Hf Hlen Ha. cbv zeta. destruct (accepted_runs user e (mjoin attempts) n Hsdk Ha) as (l & Eu & El & Hne & _ & ->).
  unfold write_follows_with_retry, MAX_WRITE_ATTEMPTS.
  destruct (attempts_exhausted (model_dump e) user l Eu El Hne attempts 2 n Hf Hlen) as (n' & Hn' & E). rewrite E.
  destruct Hn' as [-> | ->]; split_and!; try done. simpl. set_solver.
Qed.
End endpoint.

(** ** Alice onboards *)

(** A library that takes every event as it is written. *)
#[local] Instance trusting_sdk : NostrSdk := {|
  SdkEvent := json;
  from_json := fun v => Some v;
  sdk_kind := fun v => match py_item "kind" v with Ok (JInt k) => k | _ => 0 end;
  sdk_verify := fun _ => true;
  sdk_author := fun v => match py_item "pubkey" v with Ok (JStr s) => s | _ => "" end;
|}.

Definition seed : NostrEvent :=
  {| ne_id := key "0"; ne_pubkey := alice; ne_created_at := 1700000000; ne_kind := 3;
     ne_tags := [["p"; carol]; ["p"; carol; "wss://relay"]; ["t"]]; ne_content := ""; ne_sig := (key "1" ++ key "2") |}.

