(* ===== verification/DutyMenu.v ===== *)
(** * The Assistant's duties and its Duty Menu

    [src/app/services/duty_menu_build.py]: the rows [GET /setup] serves, the offer,
    the menu's tags and what counts as a menu, when a republished event is dated,
    and the relays it goes to, each once.  That a menu built here is a menu, that it
    replaces every version found and that the targets name every relay asked for once
    is in [TreasureMapProps.v]. *)

From Stdlib Require Import Ascii String QArith.
From S2P Require Import Prelude Json Url Binary64 NostrTags Tagging.
From stdpp Require Import list.
Local Open Scope string_scope.
Local Open Scope Z_scope.

(** The settings read, and [urlsplit]'s own check of a host, which raises when it
    fails. *)
Class DutyEnv := {
  nostr_upload_ta_events_relay_public_url : string;
  nostr_upload_ta_events_relay : string;
  trusted_list_relay : string;
  dictionary_relay : string;
  host_ok : string -> bool;
}.

Definition TA_METRIC_TAGS : list string := ["rank"; "followers"; "reporters"; "muters"; "hops"].

Definition TRUSTED_LIST_KIND_ROW : string := "30392".
Definition DICTIONARY_KIND_ROWS : list string := ["39998"; "39999"].
Definition DUTY_MENU_KIND : Z := 39999.
Definition DUTY_MENU_D : string := "duty-menu".
Definition NOUS_PUBKEY : string := "15f7dafc4624b1e6b00ab7f863de1a53b71967528070ec7d1837c7a40c1c7270".
Definition DUTY_MENU_HEADER : string := "39998:" ++ NOUS_PUBKEY ++ ":" ++ DUTY_MENU_D.
Definition NOUS_MENU_RELAYS : list string := ["wss://dcosl.brainstorm.world"].

(** A match from the start, the case ignored: what is left. *)
Fixpoint match_word (word l : list ascii) : option (list ascii) :=
  match word, l with
  | [], _ => Some l
  | w :: word, c :: l => if Ascii.eqb (lower_chr c) w then match_word word l else None
  | _ :: _, [] => None
  end.

Definition concept_header_z (s : string) : bool :=
  match match_word (chars "39998:") (chars s) with
  | Some l =>
      (64 <=? length l)%nat && forallb (fun c => is_hex_digit (lower_chr c)) (take 64 l)
      && match match_word (chars ":concept-header") (drop 64 l) with Some r => at_end r | None => false end
  | None => false
  end.

(** [^wss?://], the case ignored. *)
Definition relay_scheme (l : list ascii) : option (list ascii) :=
  match match_word (chars "wss://") l with Some r => Some r | None => match_word (chars "ws://") l end.

Definition or_text (a b : string) : string := if String.eqb a "" then b else a.

Section menu.
Context `{DutyEnv}.

Definition designation_rows (assistant_pubkey : string) : list (string * string * string) :=
  let relay := nostr_upload_ta_events_relay_public_url in
  (((fun tag => (("30382:" ++ tag)%string, assistant_pubkey, relay)) <$> TA_METRIC_TAGS)
   ++ [(TRUSTED_LIST_KIND_ROW, assistant_pubkey, or_text trusted_list_relay relay)]
   ++ (if String.eqb dictionary_relay "" then []
       else (fun kind => (kind, assistant_pubkey, dictionary_relay)) <$> DICTIONARY_KIND_ROWS))%list.

Definition offer_rows (assistant_pubkey : string) : list (string * string) :=
  omap (fun '(key, _, relay) => if String.eqb relay "" then None else Some (key, relay))
    (designation_rows assistant_pubkey).

Definition build_menu_tags (assistant_pubkey : string) (rows : list (string * string)) : list (list string) :=
  ([["d"; DUTY_MENU_D]; ["z"; DUTY_MENU_HEADER]; ["p"; assistant_pubkey]]
   ++ ((fun '(key, relay) => ["duty"; key; relay]) <$> rows))%list.

(** [t for t in tags or [] if isinstance(t, list) and t], each with its first element. *)
Definition named_tags (tags : json) : res exn (list (json * list json)) :=
  l ← py_iter (py_or tags (JList []));
  Ok (omap (fun t => match t with JList (t0 :: rest) => Some (t0, rest) | _ => None end) (l : list json)).

Definition tags_named (name : string) (tags : list (json * list json)) : list (list json) :=
  (base.filter (fun t => json_is_str t.1 name = true) tags).*2.

(** [event] is [None] when there is none; [author] always is a key here. *)
Definition is_duty_menu (event : option json) (author : string) : res exn bool :=
  match event with
  | Some (JObj d) =>
      if negb (json_is_int (dget "kind" d) DUTY_MENU_KIND) then mret false
      else
        tags ← named_tags (dget "tags" d);
        let who := py_lower author in
        if String.eqb who "" || negb (String.eqb (py_lower (str_or_empty (dget "pubkey" d))) who) then mret false
        else
          match tags_named "d" tags with
          | (v :: _) :: _ =>
              if negb (json_is_str v DUTY_MENU_D) then mret false
              else
                match tags_named "p" tags with
                | [v :: _] =>
                    if negb (String.eqb (py_lower (py_str v)) who) then mret false
                    else
                      let zs := omap head (tags_named "z" tags) in
                      if existsb (fun z => json_is_str z "list" || concept_header_z (py_str z)) zs then mret false
                      else mret (existsb (fun z => json_is_str z DUTY_MENU_HEADER) zs)
                | _ => mret false
                end
          | _ => mret false
          end
  | _ => mret false
  end.

(** [int(e.get("created_at") or 0)]. *)
Definition created_at_of (e : json) : res exn Z :=
  v ← py_get "created_at" e; py_int_of (py_or v (JInt 0)).

Definition menu_created_at (now : Z) (earlier : list json) : res exn Z :=
  newest ← foldm (fun m e => c ← created_at_of e; mret (match m with Some n => Some (Z.max n c) | None => Some c end)) None earlier;
  mret (Z.max now (default 0 newest + 1)).

(** The relay of one [duty] row, if it is one. *)
Definition duty_relay (tag : json) : option string :=
  match tag with
  | JList (JStr t0 :: _ :: JStr t2 :: _) =>
      if String.eqb t0 "duty" && bool_decide (is_Some (relay_scheme (strip_chars (chars t2)))) then Some (py_strip t2) else None
  | _ => None
  end.

Definition earlier_relays (earlier : list json) : res exn (list string) :=
  foldm (fun relays event =>
           tags ← py_get "tags" event;
           l ← py_iter (py_or tags (JList []));
           Ok (relays ++ omap duty_relay (l : list json))%list) [] earlier.

Definition default_port (scheme : string) : option Z :=
  if String.eqb scheme "ws" then Some 80 else if String.eqb scheme "wss" then Some 443 else None.

Definition rstrip_slash (l : list ascii) : list ascii := reverse (drop_while (Ascii.eqb "/") (reverse l)).

Definition relay_key (url : string) : string :=
  let raw := strip_chars (chars url) in
  let unread := of_chars (rstrip_slash (lower_chr <$> raw)) in
  let parts := split_parts raw in
  if negb (host_ok (of_chars (u_netloc parts))) then unread
  else match port_of (u_netloc parts) with
  | None => unread
  | Some port =>
      let hostname := hostname_of lower_chr (u_netloc parts) in
      match u_scheme parts, hostname with
      | [], _ | _, [] => unread
      | scheme, _ =>
          let scheme := of_chars scheme in
          let host := if existsb (Ascii.eqb ":") hostname then "[" ++ of_chars hostname ++ "]" else of_chars hostname in
          let host := match port with
                      | Some p => if bool_decide (default_port scheme = Some p) then host else host ++ ":" ++ pretty p
                      | None => host
                      end in
          let query := match u_query parts with [] => "" | q => "?" ++ of_chars q end in
          scheme ++ "://" ++ host ++ of_chars (rstrip_slash (u_path parts)) ++ query
      end
  end.

Record RelayTarget := { rt_url : string; rt_write_url : string }.

Definition write_url (url : string) : string :=
  if String.eqb (relay_key url) (relay_key nostr_upload_ta_events_relay_public_url) then nostr_upload_ta_events_relay else url.

Definition target_of (url : string) : RelayTarget := {| rt_url := url; rt_write_url := write_url url |}.
Definition target_keys (t : RelayTarget) : list string := [relay_key (rt_url t); relay_key (rt_write_url t)].

Definition add_target (acc : list RelayTarget * gset string) (url : string) : list RelayTarget * gset string :=
  let '(targets, seen) := acc in
  if String.eqb url "" then acc
  else
    let target := target_of url in
    if existsb (fun k => bool_decide (k ∈ seen)) (target_keys target) then acc
    else (targets ++ [target], list_to_set (target_keys target) ∪ seen)%list.

(** The groups, one after another. *)
Definition publish_targets (groups : list (list string)) : list RelayTarget :=
  (foldl add_target ([], ∅) (mjoin groups)).1.
End menu.
