(* ===== verification/SelfMap.v ===== *)
(** * The grammar of the Assistant's Treasure Map

    [src/app/services/self_map_build.py], all of it: keys and their order, the probe
    insights, the reader's Map, the duties it gives, the offer and what of it is
    live, the self-entries the Assistant's Map should list and the lines that explain
    them, and the reading and writing of a version.

    The source compares groups, rows and keys by identity in a few places.  The
    groups of one Map differ in their key, and so do the keys chosen so far, so
    identity is equality there; the rows of the offer carry their position. *)

From Stdlib Require Import Ascii String QArith.
From S2P Require Import Prelude Json Url Binary64 Tables NostrTags Tagging DutyMenu.
From stdpp Require Import list.
Local Open Scope string_scope.
Local Open Scope Z_scope.

Definition SELF_MAP_KIND : Z := 10040.
Definition PUBLISHED_SCORE_METRICS : list string := TA_METRIC_TAGS.
Definition SCORE_KIND : Z := 30382.
Definition SCORE_KINDS : list Z := [30380; 30381; 30382; 30383; 30384; 30385; 30386; 30387; 30388; 30389].
Definition LIST_KINDS : list Z := [30390; 30391; 30392; 30393; 30394; 30395; 30396; 30397; 30398; 30399].
Definition CONCEPT_KINDS : list Z := [39998; 39999].
Definition SYSTEM_WORDS : list string := ["tag"; "pin"; "dlist"; "contexts"].
Definition NAMELESS_KEYS : list string := ["39998:"; "39999:"; "39999:dlist-header"; "39999:duty-menu"].

Definition is_score_kind (kind : Z) : bool := (30380 <=? kind) && (kind <=? 30389).
Definition is_list_kind (kind : Z) : bool := (30390 <=? kind) && (kind <=? 30399).
Definition is_concept_kind (kind : Z) : bool := bool_decide (kind ∈ CONCEPT_KINDS).

(** [HEX64.fullmatch], the case ignored. *)
Definition hex64_ignorecase (s : string) : bool :=
  (String.length s =? 64)%nat && forallb (fun c => is_hex_digit (lower_chr c)) (chars s).

Definition kind_slot (s : string) : bool :=
  (String.length s =? 5)%nat && forallb is_digit (chars s)
  || String.eqb s "3038x" || String.eqb s "3039x" || String.eqb s "*".

(** [wss?://\S+], all of it. *)
Definition relay_url (s : string) : bool :=
  match relay_scheme (chars s) with
  | Some (c :: l) => forallb (fun c => negb (is_space c)) (c :: l)
  | _ => false
  end.

(** ** Keys *)

Inductive Scope :=
  | ScopeAll
  | ScopeMetric (metric : string)
  | ScopeD (d : string)
  | ScopeUnchecked (key : string)
  | ScopeOther.
#[export] Instance Scope_eq_dec : EqDecision Scope.
Proof. solve_decision. Defined.

Record Key := { norm : string; slot : string; kinds : list Z; segs : list string; rank : Z; scope : Scope }.
#[export] Instance Key_eq_dec : EqDecision Key.
Proof. solve_decision. Defined.

Record Probe := { pkind : Z; pscope : Scope }.
#[export] Instance Probe_eq_dec : EqDecision Probe.
Proof. solve_decision. Defined.

(** The part before the first colon and the part behind it. *)
Definition slot_rest (key : string) : string * string :=
  match py_partition ":" key with Some p => p | None => (key, "") end.

Fixpoint colon_join (l : list string) : string :=
  match l with [] => "" | [x] => x | x :: l' => x ++ ":" ++ colon_join l' end.

(** [while segments and segments[-1] == "": segments.pop()]. *)
Definition drop_empty_tail (l : list string) : list string :=
  reverse (drop_while (fun s => String.eqb s "") (reverse l)).

Definition is_concept_slot (slot : string) : bool := String.eqb slot "39998" || String.eqb slot "39999".

Definition normalize_key (key : string) : string :=
  let '(slot, rest) := slot_rest key in
  if is_concept_slot slot then
    if String.eqb slot "39998" && String.eqb rest "dlist-header" then "39998" else key
  else colon_join (slot :: drop_empty_tail (if String.eqb rest "" then [] else py_split ":" rest)).

Definition concept_reading (slot : string) : list Z * Z :=
  if String.eqb slot "39998" then (CONCEPT_KINDS, 2) else ([39999], 3).

Definition slot_int (slot : string) : Z := default 0 (parse_digits (chars slot)).

(** [s[n:]]. *)
Definition str_from (n : nat) (s : string) : string := of_chars (drop n (chars s)).

(** A Concept key: the bare slot, or the slot and one [d]. *)
Definition concept_key (slot norm : string) : Key :=
  if String.eqb norm slot then
    let '(kinds, rank) := concept_reading slot in
    {| norm := norm; slot := slot; kinds := kinds; segs := []; rank := rank; scope := ScopeAll |}
  else
    let d := str_from (String.length slot + 1) norm in
    {| norm := norm; slot := slot; kinds := [slot_int slot]; segs := [d]; rank := 3; scope := ScopeD d |}.

Definition slot_reading (slot : string) (segs : list string) : list Z * Z :=
  if String.eqb slot "*" then ((SCORE_KINDS ++ LIST_KINDS ++ match segs with [] => CONCEPT_KINDS | _ => [] end)%list, 0)
  else if String.eqb slot "3038x" then (SCORE_KINDS, 1)
  else if String.eqb slot "3039x" then (LIST_KINDS, 1)
  else ([slot_int slot], 3).

Definition plain_scope (slot norm : string) (kinds : list Z) (segs : list string) : Scope :=
  match segs with
  | [] => ScopeAll
  | [s] => if negb (String.eqb slot "*") && forallb is_score_kind kinds && negb (String.eqb s "")
              && negb (bool_decide (s ∈ SYSTEM_WORDS))
           then ScopeMetric s else ScopeUnchecked norm
  | _ => ScopeUnchecked norm
  end.

(** Any other key. *)
Definition plain_key (slot norm : string) (segs : list string) : Key :=
  let '(kinds, rank) := slot_reading slot segs in
  {| norm := norm; slot := slot; kinds := kinds; segs := segs; rank := rank; scope := plain_scope slot norm kinds segs |}.

Definition parse_key_text (key : string) : option Key :=
  let slot := (slot_rest key).1 in
  if negb (kind_slot slot) then None
  else
    let norm := normalize_key key in
    if bool_decide (norm ∈ NAMELESS_KEYS) then None
    else if is_concept_slot slot then Some (concept_key slot norm)
    else Some (plain_key slot norm (drop 1 (py_split ":" norm))).

Definition parse_key (key : json) : option Key :=
  match key with JStr s => parse_key_text s | _ => None end.

(** One segment against another: a value beats an empty or omitted one. *)
Definition compare_seg (va vb : string) : Z :=
  if negb (String.eqb va "") && String.eqb vb "" then -1
  else if negb (String.eqb vb "") && String.eqb va "" then 1
  else if str_lt va vb then -1 else 1.

Definition seg_at (l : list string) (i : nat) : string := default "" (l !! i).

(** [n] more positions, from [i] on. *)
Fixpoint compare_segs (n i : nat) (a b : list string) : Z :=
  match n with
  | O => 0
  | S n => if String.eqb (seg_at a i) (seg_at b i) then compare_segs n (S i) a b
           else compare_seg (seg_at a i) (seg_at b i)
  end.

Definition compare_keys (a b : Key) : Z :=
  if negb (rank a =? rank b) then rank b - rank a
  else if negb (String.eqb (slot a) (slot b)) then (if str_lt (slot a) (slot b) then -1 else 1)
  else compare_segs (length (segs a) `max` length (segs b)) 0 (segs a) (segs b).

(** [sorted(keys, key=most_specific_first)]. *)
Definition most_specific_first (l : list Key) : list Key := stable_sort (fun a b => compare_keys a b <=? 0) l.

Definition matches (key : Key) (probe : Probe) : bool :=
  bool_decide (pkind probe ∈ kinds key)
  && match scope key with
     | ScopeAll => true
     | ScopeMetric _ | ScopeD _ => bool_decide (pscope probe = scope key)
     | _ => bool_decide (pscope probe = ScopeUnchecked (norm key))
     end.

Definition covers (row key : Key) : bool :=
  forallb (fun k => bool_decide (k ∈ kinds row)) (kinds key)
  && match scope row with
     | ScopeAll => true
     | ScopeUnchecked _ => String.eqb (norm row) (norm key)
     | s => bool_decide (scope key = s)
     end.

Definition meet_of (key : Key) (kind : Z) : option Key :=
  parse_key_text (colon_join (pretty kind :: segs key)).

Definition profiles_spelling (key : Key) : bool :=
  bool_decide (slot key ∈ ["30392"; "30382"])
  && match segs key with
     | s0 :: s1 :: _ :: _ => bool_decide (s0 ∈ ["tag"; "pin"]) && String.eqb s1 ""
     | _ => false
     end.

(** The first of the most specific candidates that match. *)
Definition winner_of {T} (candidates : list T) (probe : Probe) (key_of : T -> Key) : option T :=
  foldl (fun best candidate =>
           if negb (matches (key_of candidate) probe) then best
           else match best with
                | None => Some candidate
                | Some b => if compare_keys (key_of candidate) (key_of b) <? 0 then Some candidate else best
                end) None candidates.

(** ** Probes *)

(** [out.setdefault(probe)], in the order of insertion. *)
Definition add_probe (out : list Probe) (p : Probe) : list Probe := if bool_decide (p ∈ out) then out else (out ++ [p])%list.
Definition add_probes (out : list Probe) (ps : list Probe) : list Probe := foldl add_probe out ps.

Definition metrics_for (kind : Z) (parsed : list Key) : list string :=
  foldl (fun metrics k => match scope k with
                          | ScopeMetric m => if bool_decide (kind ∈ kinds k) && negb (bool_decide (m ∈ metrics))
                                             then (metrics ++ [m])%list else metrics
                          | _ => metrics
                          end)
    (if kind =? SCORE_KIND then PUBLISHED_SCORE_METRICS else []) parsed.

Definition score_probes (parsed : list Key) (kind : Z) : list Probe :=
  (((fun m => {| pkind := kind; pscope := ScopeMetric m |}) <$> metrics_for kind parsed)
   ++ [{| pkind := kind; pscope := ScopeOther |}])%list.

Definition concept_probes (parsed : list Key) (kind : Z) : list Probe :=
  (omap (fun k => match scope k with
                  | ScopeD d => if bool_decide (kind ∈ kinds k) then Some {| pkind := kind; pscope := ScopeD d |} else None
                  | _ => None
                  end) parsed
   ++ [{| pkind := kind; pscope := ScopeOther |}])%list.

Definition key_probes (k : Key) : list Probe :=
  ((match scope k with
    | ScopeUnchecked _ => (fun kind => {| pkind := kind; pscope := ScopeUnchecked (norm k) |}) <$> kinds k
    | _ => []
    end)
   ++ omap (fun kind => if is_score_kind kind || is_list_kind kind || is_concept_kind kind then None
                        else Some {| pkind := kind; pscope := ScopeOther |}) (kinds k))%list.

Definition build_probes (keys : list Key) : list Probe :=
  add_probes [] (mjoin (score_probes keys <$> SCORE_KINDS)
                 ++ ((fun kind => {| pkind := kind; pscope := ScopeOther |}) <$> LIST_KINDS)
                 ++ mjoin (concept_probes keys <$> CONCEPT_KINDS)
                 ++ mjoin (key_probes <$> keys))%list.

(** ** The reader's Map *)

Definition tags_of (event : option json) : list json :=
  match event with
  | Some (JObj d) => match dget "tags" d with JList tags => tags | _ => [] end
  | _ => []
  end.

Record Group := { gkey : Key; providers : gset string }.
#[export] Instance Group_eq_dec : EqDecision Group.
Proof. solve_decision. Defined.

Fixpoint add_provider (key : Key) (provider : string) (groups : list Group) : list Group :=
  match groups with
  | [] => [{| gkey := key; providers := {[provider]} |}]
  | g :: gs => if String.eqb (norm (gkey g)) (norm key)
               then {| gkey := gkey g; providers := {[provider]} ∪ providers g |} :: gs
               else g :: add_provider key provider gs
  end.

Definition see_entry (groups : list Group) (tag : json) : list Group :=
  match tag with
  | JList (t0 :: JStr t1 :: _) =>
      match parse_key t0 with
      | Some key => if hex64_ignorecase t1 then add_provider key (py_lower t1) groups else groups
      | None => groups
      end
  | _ => groups
  end.

Definition map_groups (event : option json) : list Group := foldl see_entry [] (tags_of event).

Definition MAX_MAP_KEYS : nat := 64.
Definition too_big_to_check (groups : list Group) : bool := (MAX_MAP_KEYS <? length groups)%nat.

Definition in_supported_sets (probe : Probe) : bool :=
  match pscope probe with
  | ScopeUnchecked _ => true
  | s => if pkind probe =? SCORE_KIND
         then match s with ScopeMetric m => bool_decide (m ∈ PUBLISHED_SCORE_METRICS) | _ => false end
         else negb (is_concept_kind (pkind probe))
  end.

Record Duty := { dprobe : Probe; dwinner : option Group; duty : bool }.

Definition names (who : string) (g : Group) : bool := bool_decide (who ∈ providers g).

Definition duty_of (groups : list Group) (who : string) (probe : Probe) : Duty :=
  let winner := winner_of groups probe gkey in
  {| dprobe := probe; dwinner := winner;
     duty := match winner with
             | Some w => names who w && (negb (bool_decide (scope (gkey w) = ScopeAll)) || in_supported_sets probe)
             | None => false
             end |}.

Definition duties_of (groups : list Group) (assistant : string) (probes : list Probe) : list Duty :=
  duty_of groups (py_lower assistant) <$> probes.

(** [duties.get(probe)]. *)
Definition find_duty (duties : list Duty) (probe : Probe) : option Duty :=
  head (base.filter (fun d => dprobe d = probe) duties).

(** ** The offer and what is live *)

Record OfferRow := { rpos : nat; rkey : Key; relay : string }.
#[export] Instance OfferRow_eq_dec : EqDecision OfferRow.
Proof. solve_decision. Defined.

Fixpoint offer_from (i : nat) (rows : list (string * string)) : res exn (list OfferRow) :=
  match rows with
  | [] => mret []
  | (key, r) :: rest =>
      match parse_key_text key with
      | None => Raise ValueError
      | Some k => l ← offer_from (S i) rest; mret ({| rpos := i; rkey := k; relay := r |} :: l)
      end
  end.
Definition Offer (rows : list (string * string)) : res exn (list OfferRow) := offer_from 0 rows.

Definition offered_kind (offer : list OfferRow) (kind : Z) : bool := existsb (fun row => bool_decide (kind ∈ kinds (rkey row))) offer.

Definition answer (offer : list OfferRow) (probe : Probe) : option OfferRow := winner_of offer probe rkey.

Definition covering (offer : list OfferRow) (key : Key) : option OfferRow :=
  foldl (fun best row =>
           if covers (rkey row) key
              && match best with None => true | Some b => compare_keys (rkey row) (rkey b) <? 0 end
           then Some row else best) None offer.

Definition order_of (offer : list OfferRow) (key : Key) : nat :=
  match covering offer key with Some row => rpos row | None => length offer end.

Inductive Upkeep := UpLive | NotLanded | NotScheduled | UpkeepStopped.
#[export] Instance Upkeep_eq_dec : EqDecision Upkeep.
Proof. solve_decision. Defined.
Record ScoresUpkeep := { ustatus : Upkeep; last_landed_at : option Z }.

(** 1970-01-01, in microseconds from the first day of year 1. *)
Definition unix_epoch : Z := 719162 * 86400 * 1000000.

(** [timedelta.total_seconds()], a float. *)
Definition total_seconds (us : Z) : Q := fdiv us 1000000.

Definition scores_upkeep (last_published : option Z) (interval_seconds : option Z) (now : Z) : ScoresUpkeep :=
  match interval_seconds with
  | Some interval =>
      if interval <=? 0 then {| ustatus := NotScheduled; last_landed_at := None |}
      else match last_published with
      | None => {| ustatus := NotLanded; last_landed_at := None |}
      | Some published =>
          if flt (inject_Z (2 * interval)) (total_seconds (now - published)) then
            let t := total_seconds (published - unix_epoch) in
            {| ustatus := UpkeepStopped; last_landed_at := Some (Z.quot (Qnum t) (Zpos (Qden t))) |}
          else {| ustatus := UpLive; last_landed_at := None |}
      end
  | None => {| ustatus := NotScheduled; last_landed_at := None |}
  end.

Definition asks_for_scores (groups : list Group) (assistant : string) : bool :=
  existsb (fun g => names (py_lower assistant) g && bool_decide (SCORE_KIND ∈ kinds (gkey g))) groups.

Inductive Reason := Unchecked | NotPublishedHere | NothingToPublish | ByUpkeep (s : Upkeep).
#[export] Instance Reason_eq_dec : EqDecision Reason.
Proof. solve_decision. Defined.

Record Live := { live : bool; lrelay : option string; reason : option Reason; landed : option Z }.
#[export] Instance Live_eq_dec : EqDecision Live.
Proof. solve_decision. Defined.

Definition evaluate_live (probe : Probe) (offer : list OfferRow) (scores : ScoresUpkeep) : Live :=
  match answer offer probe with
  | None => {| live := false; lrelay := None; reason := None; landed := None |}
  | Some row =>
      let no r at_ := {| live := false; lrelay := Some (relay row); reason := Some r; landed := at_ |} in
      match pscope probe with
      | ScopeUnchecked _ => no Unchecked None
      | s =>
          if is_score_kind (pkind probe) then
            if negb (pkind probe =? SCORE_KIND)
               || negb (match s with ScopeMetric m => bool_decide (m ∈ PUBLISHED_SCORE_METRICS) | _ => false end)
            then no NotPublishedHere None
            else if bool_decide (ustatus scores = UpLive)
            then {| live := true; lrelay := Some (relay row); reason := None; landed := None |}
            else no (ByUpkeep (ustatus scores)) (last_landed_at scores)
          else if is_list_kind (pkind probe) then no (ByUpkeep NotScheduled) None
          else no NotPublishedHere None
      end
  end.

(** [live[probe]]; the table has every probe. *)
Definition find_live (table : list (Probe * Live)) (probe : Probe) : option Live :=
  snd <$> head (base.filter (fun e => e.1 = probe) table).

(** ** What the Assistant's Treasure Map should list *)

Abbreviation entry := (Key * string)%type.

Section should_say.
Context (duties : list Duty) (live_table : list (Probe * Live)) (offer : list OfferRow).

Definition has (chosen : list entry) (n : string) : bool := existsb (fun e => String.eqb (norm e.1) n) chosen.

(** A duty the candidate would win among the entries chosen so far. *)
Definition would_win (chosen : list entry) (candidate : Key) (d : Duty) : bool :=
  duty d && matches candidate (dprobe d)
  && bool_decide (winner_of (chosen.*1 ++ [candidate])%list (dprobe d) id = Some candidate).

Definition live_at (probe : Probe) (r : string) : bool :=
  match find_live live_table probe with
  | Some state => live state && bool_decide (lrelay state = Some r)
  | None => false
  end.

(** Every duty it would win is live at [r], and there is one. *)
Definition valid (chosen : list entry) (candidate : Key) (r : string) : bool :=
  let won := base.filter (fun d => would_win chosen candidate d = true) duties in
  forallb (fun d => live_at (dprobe d) r) won && negb (bool_decide (won = [])).

Definition try_key (candidate : option Key) (chosen : list entry) : bool * list entry :=
  match candidate with
  | None => (false, chosen)
  | Some k =>
      if has chosen (norm k) then (false, chosen)
      else match covering offer k with
      | Some row => if valid chosen k (relay row) then (true, chosen ++ [(k, relay row)])%list else (false, chosen)
      | None => (false, chosen)
      end
  end.

(** The meets of a key with the kinds offered, each spelling once. *)
Definition meets_of (k : Key) : list Key :=
  foldl (fun meets kind =>
           match (if offered_kind offer kind then meet_of k kind else None) with
           | Some meet => if forallb (fun m => negb (String.eqb (norm m) (norm meet))) meets then (meets ++ [meet])%list else meets
           | None => meets
           end) [] (kinds k).

(** The published metrics that are a duty under [k]. *)
Definition try_metric (k : Key) (chosen : list entry) (metric : string) : list entry :=
  match find_duty duties {| pkind := SCORE_KIND; pscope := ScopeMetric metric |} with
  | Some d =>
      if duty d && match dwinner d with Some w => String.eqb (norm (gkey w)) (norm k) | None => false end
      then (try_key (parse_key_text (pretty SCORE_KIND ++ ":" ++ metric)) chosen).2
      else chosen
  | None => chosen
  end.

Definition try_meet (k : Key) (chosen : list entry) (meet : Key) : list entry :=
  let '(taken, chosen1) := if String.eqb (norm meet) (norm k) then (false, chosen) else try_key (Some meet) chosen in
  if (taken : bool) then chosen1
  else if negb (bool_decide (kinds meet = [SCORE_KIND])) || negb (bool_decide (scope meet = ScopeAll)) then chosen1
  else foldl (try_metric k) chosen1 PUBLISHED_SCORE_METRICS.

Definition try_mine (chosen : list entry) (k : Key) : list entry :=
  if has chosen (norm k) then chosen
  else
    let '(taken, chosen1) := try_key (Some k) chosen in
    if (taken : bool) then chosen1
    else foldl (try_meet k) chosen1 (most_specific_first (meets_of k)).

Definition choose (mine : list Key) : list entry := foldl try_mine [] mine.
End should_say.

Definition build_should_say (groups : list Group) (assistant : string) (duties : list Duty)
  (live_table : list (Probe * Live)) (offer : list OfferRow) : list entry :=
  let mine := most_specific_first (gkey <$> base.filter (fun g => names (py_lower assistant) g = true) groups) in
  stable_sort (fun a b => (order_of offer a.1 <=? order_of offer b.1)%nat) (choose duties live_table offer mine).

(** ** The lines *)

Inductive LineStatus := LineLive | LineOffered | LineNotOffered | LineElsewhere.
#[export] Instance LineStatus_eq_dec : EqDecision LineStatus.
Proof. solve_decision. Defined.

Record DutyLine := {
  line_key : string;
  lstatus : LineStatus;
  line_relay : option string;
  line_reason : option Reason;
  line_landed : option Z;
  entries : list (string * string);
}.
#[export] Instance DutyLine_eq_dec : EqDecision DutyLine.
Proof. solve_decision. Defined.

Definition line (key : string) (st : LineStatus) (r : option string) (why : option Reason) (at_ : option Z)
  (es : list (string * string)) : DutyLine :=
  {| line_key := key; lstatus := st; line_relay := r; line_reason := why; line_landed := at_; entries := es |}.

Definition line_key_of (key row : Key) : string :=
  if covers row key then norm key
  else if covers key row then norm row
  else
    match base.filter (fun kind => kind ∈ kinds row) (kinds key) with
    | [kind] =>
        match meet_of key kind with
        | Some meet => if profiles_spelling meet && negb (profiles_spelling key) then norm key else norm meet
        | None => norm key
        end
    | _ => norm key
    end.

Definition not_live : Live := {| live := false; lrelay := None; reason := None; landed := None |}.

(** The entries that list a live part; none as soon as one probe has none. *)
Fixpoint part_entries (live_table : list (Probe * Live)) (should : list entry) (acc : list (string * string))
  (on_duty : list Probe) : list (string * string) :=
  match on_duty with
  | [] => acc
  | probe :: rest =>
      match winner_of should probe fst with
      | Some (k, r) =>
          if bool_decide (lrelay (default not_live (find_live live_table probe)) = Some r)
          then part_entries live_table should (if bool_decide ((norm k, r) ∈ acc) then acc else (acc ++ [(norm k, r)])%list) rest
          else []
      | None => []
      end
  end.

Definition part_line (key : Key) (row : OfferRow) (part : list Duty) (live_table : list (Probe * Live))
  (should : list entry) : DutyLine :=
  let k := line_key_of key (rkey row) in
  let live_of p := default not_live (find_live live_table p) in
  match dprobe <$> base.filter (fun d => duty d = true) part with
  | [] =>
      let first := live_of (default {| pkind := 0; pscope := ScopeOther |} (dprobe <$> head part)) in
      line k LineOffered (Some (relay row)) (if live first then Some NothingToPublish else reason first) None []
  | on_duty =>
      match head (base.filter (fun s => live s = false) (live_of <$> on_duty)) with
      | Some down => line k LineOffered (Some (relay row)) (reason down) (landed down) []
      | None => line k LineLive (Some (relay row)) None None (part_entries live_table should [] on_duty)
      end
  end.

(** The groups that take some of what [key] matches, and name only others. *)
Definition elsewhere_of (who : string) (every : list Duty) (g : Group) : list Group :=
  foldl (fun acc d =>
           match dwinner d with
           | Some w =>
               if bool_decide (w = g) || names who w || negb (matches (gkey g) (dprobe d)) || (0 <=? compare_keys (gkey w) (gkey g))
               then acc else if bool_decide (w ∈ acc) then acc else (acc ++ [w])%list
           | None => acc
           end) [] every.

Definition group_lines (who : string) (every : list Duty) (live_table : list (Probe * Live)) (offer : list OfferRow)
  (should : list entry) (lines : list DutyLine) (g : Group) : list DutyLine :=
  if negb (names who g) then lines
  else
    let key := gkey g in
    let won := base.filter (fun d => dwinner d = Some g) every in
    let parts := omap (fun row => match base.filter (fun d => answer offer (dprobe d) = Some row) won with
                                  | [] => None
                                  | part => Some (part_line key row part live_table should)
                                  end) offer in
    let missing := if existsb (fun d => duty d && bool_decide (answer offer (dprobe d) = None)) won
                   then [line (norm key) LineNotOffered None None None []] else [] in
    foldl (fun lines w => let l := line (norm (gkey w)) LineElsewhere None None None [] in
                          if bool_decide (l ∈ lines) then lines else (lines ++ [l])%list)
      (lines ++ parts ++ missing)%list (elsewhere_of who every g).

Definition duty_lines (groups : list Group) (assistant : string) (duties : list Duty) (live_table : list (Probe * Live))
  (offer : list OfferRow) (should : list entry) : list DutyLine :=
  foldl (group_lines (py_lower assistant) duties live_table offer should) [] groups.

Record SelfMapCheck := { check_duties : list DutyLine; check_should_say : list (string * string) }.

Definition live_of_probes (probes : list Probe) (offer : list OfferRow) (scores : ScoresUpkeep) : list (Probe * Live) :=
  (fun p => (p, evaluate_live p offer scores)) <$> probes.

Definition evaluate_self_map (groups : list Group) (rows : list (string * string)) (assistant : string)
  (scores : ScoresUpkeep) : res exn SelfMapCheck :=
  offer ← Offer rows;
  let probes := build_probes (gkey <$> groups) in
  let duties := duties_of groups assistant probes in
  let live_table := live_of_probes probes offer scores in
  let should := build_should_say groups assistant duties live_table offer in
  mret {| check_duties := duty_lines groups assistant duties live_table offer should;
          check_should_say := (fun '(key, r) => (norm key, r)) <$> should |}.

(** ** Reading and writing a version *)

Section versions.
Context `{DutyEnv}.

Definition see_relay (acc : list string * list string) (url : string) : list string * list string :=
  let '(out, seen) := acc in
  if negb (relay_url (py_strip url)) || bool_decide (relay_key url ∈ seen) then acc
  else (out ++ [py_strip url], seen ++ [relay_key url])%list.

Definition self_map_relays (outbox : list string) (should_say : list (string * string)) (hints : list string) : list string :=
  (foldl see_relay ([], []) (outbox ++ should_say.*2 ++ hints)%list).1.

(** The sort key of NIP-01's newest. *)
Definition version_rank (e : json) : res exn (Z * string) :=
  c ← created_at_of e; i ← py_get "id" e; mret (- c, str_or_empty i).

Definition rank_lt (a b : Z * string) : bool := (a.1 <? b.1) || (a.1 =? b.1) && str_lt a.2 b.2.

Definition newest (events : list json) : res exn (option json) :=
  best ← foldm (fun best e => r ← version_rank e;
                  mret (match best with
                        | Some (r0, _) => if rank_lt r r0 then Some (r, e) else best
                        | None => Some (r, e)
                        end)) None events;
  Ok (snd <$> (best : option ((Z * string) * json))).

Definition see_self_entry (who : string) (acc : list (string * string) * list (string * string)) (tag : json)
  : list (string * string) * list (string * string) :=
  let '(out, seen) := acc in
  match tag with
  | JList (t0 :: JStr t1 :: rest) =>
      if negb (String.eqb (py_lower t1) who) then acc
      else match parse_key t0 with
      | None => acc
      | Some key =>
          let r := match rest with JStr t2 :: _ => py_strip t2 | _ => "" end in
          if bool_decide ((norm key, relay_key r) ∈ seen) then acc
          else (out ++ [(norm key, r)], seen ++ [(norm key, relay_key r)])%list
      end
  | _ => acc
  end.

Definition read_self_entries (event : option json) (author : string) : list (string * string) :=
  (foldl (see_self_entry (py_lower author)) ([], []) (tags_of event)).1.

Definition entry_keys (l : list (string * string)) : list (string * string) := (fun '(k, r) => (k, relay_key r)) <$> l.

Definition same_self_entries (a b : list (string * string)) : bool :=
  forallb (fun e => bool_decide (e ∈ entry_keys b)) (entry_keys a)
  && forallb (fun e => bool_decide (e ∈ entry_keys a)) (entry_keys b).

Definition self_entry_relays (events : list (option json)) (author : string) : list string :=
  mjoin ((fun event => base.filter (fun r => relay_url r = true) (read_self_entries event author).*2) <$> events).

Definition nothing_to_change (latest : option json) (author : string) (target : list (string * string)) : bool :=
  same_self_entries (read_self_entries latest author) target.

Definition self_map_tags (author : string) (es : list (string * string)) : list (list string) :=
  (fun '(key, r) => [key; py_lower author; r]) <$> es.
End versions.
