(* ===== verification/SelfKeys.v ===== *)
(** * The keys of a Map: their spelling and their order

    [parse_normal] is what every parsed key looks like, [key_round_trip] that a key's
    normal spelling is read back as the key; the order by which a more specific key
    wins is total ([compare_opp], [compare_trans]) and tells any two keys apart
    ([compare_distinct]), so the winner of a list does not depend on its order
    ([winner_perm]). *)

From Stdlib Require Import Ascii String QArith.
From S2P Require Import Prelude Json Url Binary64 Tables NostrTags Tagging DutyMenu SelfMap.
From stdpp Require Import list.
Local Open Scope string_scope.
Local Open Scope Z_scope.

(** ** Splitting at colons *)

Definition colon_free (s : string) : Prop := free_of ":" (chars s).

Lemma chars_colon x y : chars (x ++ ":" ++ y) = (chars x ++ ":"%char :: chars y)%list.
Proof. by rewrite !chars_append. Qed.

Lemma split_join l : l <> [] -> Forall colon_free l -> py_split ":" (colon_join l) = l.
Proof.
  unfold py_split. induction l as [|x l IH]; [done|]. intros _ [Hx Hl]%Forall_cons. destruct l as [|y l].
  - simpl. rewrite split_chars_free by done. simpl. by rewrite of_chars_chars.
  - change (colon_join (x :: y :: l)) with (x ++ ":" ++ colon_join (y :: l)).
    rewrite chars_colon, split_chars_app by done. rewrite fmap_cons, of_chars_chars, IH by done. done.
Qed.

Lemma split_chars_pieces sep l : Forall (free_of sep) (split_chars sep l).
Proof.
  induction l as [|c l IH]; simpl; [by constructor|]. destruct (Ascii.eqb c sep) eqn:Hc; [by constructor|].
  destruct (split_chars sep l) as [|w ws]; [repeat constructor; by apply free_of_cons|].
  apply Forall_cons in IH as [Hw Hws]. constructor; [by apply free_of_cons|done].
Qed.

Lemma split_pieces s : Forall colon_free (py_split ":" s).
Proof.
  unfold py_split. apply Forall_fmap. eapply Forall_impl; [apply split_chars_pieces|].
  intros l Hl. unfold colon_free, compose. by rewrite chars_of_chars.
Qed.

Lemma slot_rest_join slot l : colon_free slot -> slot_rest (colon_join (slot :: l)) = (slot, colon_join l).
Proof.
  intros Hs. unfold slot_rest, py_partition. destruct l as [|y l].
  - simpl. by rewrite partition_chars_free.
  - change (colon_join (slot :: y :: l)) with (slot ++ ":" ++ colon_join (y :: l)).
    rewrite chars_colon, partition_chars_app by done. by rewrite !of_chars_chars.
Qed.

Lemma slot_rest_free key : colon_free (slot_rest key).1.
Proof.
  unfold slot_rest, py_partition, colon_free. destruct (partition_chars _ _) as [[a b]|] eqn:E.
  - apply partition_chars_Some in E as [_ Ha]. simpl. by rewrite chars_of_chars.
  - simpl. by apply partition_chars_None.
Qed.

(** ** Trailing empty segments *)

(** No empty segment at the end. *)
Definition tail_ok (l : list string) : Prop := last l <> Some "".

Lemma drop_empty_tail_ok l : tail_ok (drop_empty_tail l).
Proof.
  unfold tail_ok, drop_empty_tail. rewrite last_reverse. induction (reverse l) as [|s r IH]; simpl; [done|].
  destruct (String.eqb_spec s "") as [->|Hne]; [done|]. simpl. congruence.
Qed.

Lemma drop_empty_tail_id l : tail_ok l -> drop_empty_tail l = l.
Proof.
  unfold tail_ok, drop_empty_tail. rewrite <- (reverse_involutive l) at 1 3. rewrite last_reverse.
  destruct (reverse l) as [|s r]; simpl; [done|]. intros Hne. destruct (String.eqb_spec s "") as [->|_]; [done|]. done.
Qed.

Lemma drop_while_sub {A} (p : A -> bool) l x : x ∈ drop_while p l -> x ∈ l.
Proof. induction l as [|y l IH]; simpl; [done|]. destruct (p y); set_solver. Qed.

Lemma drop_empty_tail_free l : Forall colon_free l -> Forall colon_free (drop_empty_tail l).
Proof.
  rewrite !Forall_forall. intros Hl x Hx. unfold drop_empty_tail in Hx. apply Hl.
  rewrite elem_of_reverse in Hx. apply drop_while_sub in Hx. by rewrite elem_of_reverse in Hx.
Qed.

(** ** What a parsed key looks like *)

Record normal (k : Key) : Prop := {
  normal_norm : norm k = colon_join (slot k :: segs k);
  normal_slot : colon_free (slot k) /\ kind_slot (slot k) = true;
  normal_tail : tail_ok (segs k);
  normal_again : parse_key_text (norm k) = Some k;
}.

Lemma concept_slots s : is_concept_slot s = true -> s = "39998" \/ s = "39999".
Proof. unfold is_concept_slot. intros [->%String.eqb_eq| ->%String.eqb_eq]%orb_prop; auto. Qed.

Lemma slot_rest_split key : key = (slot_rest key).1 \/ key = (slot_rest key).1 ++ ":" ++ (slot_rest key).2.
Proof.
  unfold slot_rest, py_partition. destruct (partition_chars _ _) as [[a b]|] eqn:E; [|by left]. right. simpl.
  apply partition_chars_Some in E as [E _]. rewrite <- (of_chars_chars key), E.
  rewrite <- (of_chars_chars (of_chars a ++ _)). f_equal. rewrite chars_colon, !chars_of_chars. done.
Qed.

Lemma str_from_app a b : str_from (String.length a + 1) (a ++ ":" ++ b) = b.
Proof.
  unfold str_from. rewrite chars_colon, drop_app_ge by (rewrite length_chars; lia).
  rewrite length_chars. replace (String.length a + 1 - String.length a)%nat with 1%nat by lia.
  simpl. apply of_chars_chars.
Qed.

Lemma plain_key_fields slot l :
  norm (plain_key slot (colon_join (slot :: l)) l) = colon_join (slot :: l)
  /\ SelfMap.slot (plain_key slot (colon_join (slot :: l)) l) = slot /\ segs (plain_key slot (colon_join (slot :: l)) l) = l.
Proof. unfold plain_key. by destruct (slot_reading slot l). Qed.

Section plain.
Context (s : string) (l : list string).
Hypothesis slot_free : colon_free s.
Hypothesis slot_kind : kind_slot s = true.
Hypothesis not_concept : is_concept_slot s = false.
Hypothesis pieces : Forall colon_free l.

Lemma not_nameless : colon_join (s :: l) ∉ NAMELESS_KEYS.
Proof.
  intros Hin. assert (E : (slot_rest (colon_join (s :: l))).1 = s) by (by rewrite slot_rest_join).
  apply not_true_iff_false in not_concept. apply not_concept. rewrite <- E.
  unfold NAMELESS_KEYS in Hin. repeat (apply elem_of_cons in Hin as [->|Hin]; [by vm_compute|]). set_solver.
Qed.

Lemma parse_plain : tail_ok l -> parse_key_text (colon_join (s :: l)) = Some (plain_key s (colon_join (s :: l)) l).
Proof.
  intros Ht. unfold parse_key_text. rewrite slot_rest_join by done. cbn [fst]. rewrite slot_kind, not_concept. cbn [negb].
  assert (En : normalize_key (colon_join (s :: l)) = colon_join (s :: l)).
  { unfold normalize_key. rewrite slot_rest_join, not_concept by done. f_equal. f_equal.
    destruct l as [|y l']; [done|]. destruct (String.eqb_spec (colon_join (y :: l')) "") as [E|_].
    - destruct l' as [|z l']; [simpl in E; subst y; by destruct Ht|].
      apply (f_equal String.length) in E. change (colon_join (y :: z :: l')) with (y ++ ":" ++ colon_join (z :: l')) in E.
      rewrite !length_append in E. simpl in E. lia.
    - rewrite split_join by done. by apply drop_empty_tail_id. }
  rewrite En, bool_decide_eq_false_2 by apply not_nameless.
  rewrite split_join by (done || by constructor). done.
Qed.
End plain.

Lemma parse_normal key k : parse_key_text key = Some k -> normal k.
Proof.
  intros E. pose proof E as E0. unfold parse_key_text in E.
  pose proof (slot_rest_free key) as Hfree. pose proof (slot_rest_split key) as Hkey.
  destruct (kind_slot (slot_rest key).1) eqn:Hk; [|done]. cbn [negb] in E.
  case_bool_decide as Hnl; [done|]. destruct (is_concept_slot (slot_rest key).1) eqn:Hc; injection E as <-.
  - assert (En : normalize_key key = (slot_rest key).1 \/ normalize_key key = key /\ key <> (slot_rest key).1).
    { unfold normalize_key. destruct (slot_rest key) as [s r] eqn:Es. cbn [fst snd] in *. rewrite Hc.
      destruct (String.eqb s "39998" && String.eqb r "dlist-header") eqn:Ed.
      - apply andb_prop in Ed as [->%String.eqb_eq _]. by left.
      - destruct (String.eqb_spec key s) as [->|Hne]; [by left|]. by right. }
    destruct En as [En|[En Hne]]; rewrite En in *.
    + unfold concept_key. rewrite String.eqb_refl. destruct (concept_slots _ Hc) as [-> | ->]; constructor; by vm_compute.
    + destruct Hkey as [Hkey|Hkey]; [done|]. set (s := (slot_rest key).1) in *. set (r := (slot_rest key).2) in *.
      unfold concept_key. destruct (String.eqb_spec key s); [done|]. rewrite Hkey at 2 3. rewrite str_from_app.
      constructor; cbn [norm slot segs]; [by rewrite Hkey at 1|done| |].
      * unfold tail_ok. simpl. intros [= Hr]. apply Hnl. rewrite Hkey, Hr.
        destruct (concept_slots _ Hc) as [-> | ->]; unfold NAMELESS_KEYS; set_solver.
      * rewrite E0. unfold concept_key. destruct (String.eqb_spec key s); [done|]. f_equal. f_equal.
        all: by rewrite Hkey at 1; rewrite str_from_app.
  - set (l := drop_empty_tail (if String.eqb (slot_rest key).2 "" then [] else py_split ":" (slot_rest key).2)).
    assert (Hl : Forall colon_free l).
    { apply drop_empty_tail_free. destruct (String.eqb _ _); [by constructor|apply split_pieces]. }
    assert (En : normalize_key key = colon_join ((slot_rest key).1 :: l)).
    { unfold normalize_key. destruct (slot_rest key) as [s r] eqn:Es. cbn [fst snd] in *. by rewrite Hc. }
    rewrite En, split_join by (done || by constructor). change (drop 1 ((slot_rest key).1 :: l)) with l.
    destruct (plain_key_fields (slot_rest key).1 l) as (E1 & E2 & E3).
    constructor; rewrite ?E1, ?E2, ?E3; [done|done|apply drop_empty_tail_ok|].
    apply parse_plain; [done|done|done|done|apply drop_empty_tail_ok].
Qed.

(** A key's normal spelling is read back as the key: whatever a Map, the offer or a
    version spells, trailing empty segments and [39998:dlist-header] included, parsing
    the normal form of what was parsed gives the same key, so self-entries written
    from parsed keys are read as the keys they were written for. *)
Theorem key_round_trip (key : json) (k : Key) :
  parse_key key = Some k -> parse_key (JStr (norm k)) = Some k.
Proof. destruct key; try done. apply parse_normal. Qed.

Lemma key_round_trip_witness :
  exists k, parse_key (JStr "3038x:rank::") = Some k /\ norm k = "3038x:rank" /\ parse_key (JStr (norm k)) = Some k.
Proof.
  exists (plain_key "3038x" "3038x:rank" ["rank"]). split; [reflexivity|]. split; [reflexivity|].
  apply (key_round_trip (JStr "3038x:rank::")). reflexivity.
Defined.

(** Two parsed keys spelt the same are the same. *)
Lemma normal_inj a b : normal a -> normal b -> norm a = norm b -> a = b.
Proof. intros [_ _ _ Ha] [_ _ _ Hb] E. rewrite E, Hb in Ha. by injection Ha. Qed.

(** ** The order *)

Lemma str_lt_total a b : a <> b -> str_lt a b = negb (str_lt b a).
Proof.
  intros Hne. unfold str_lt. destruct (String.leb a b) eqn:E1, (String.leb b a) eqn:E2; try done.
  - destruct Hne. by apply String.leb_antisym.
  - by destruct (String.leb_total a b); congruence.
Qed.

(** A segment that beats another. *)
Definition seg_lt (va vb : string) : bool := negb (String.eqb va "") && (String.eqb vb "" || str_lt va vb).

Lemma compare_seg_lt va vb : va <> vb -> compare_seg va vb = if seg_lt va vb then -1 else 1.
Proof.
  unfold compare_seg, seg_lt. intros Hne.
  destruct (String.eqb_spec va "") as [->|], (String.eqb_spec vb "") as [->|]; simpl; try done.
Qed.

Lemma seg_lt_flip va vb : va <> vb -> seg_lt vb va = negb (seg_lt va vb).
Proof.
  unfold seg_lt. intros Hne.
  destruct (String.eqb_spec va "") as [->|], (String.eqb_spec vb "") as [->|]; simpl; try done.
  by rewrite str_lt_total.
Qed.

Lemma seg_lt_trans a b c : seg_lt a b = true -> seg_lt b c = true -> seg_lt a c = true.
Proof.
  unfold seg_lt. destruct (String.eqb_spec a ""), (String.eqb_spec b ""), (String.eqb_spec c ""); simpl; try done.
  apply str_lt_trans.
Qed.

Lemma compare_segs_opp n i a b : compare_segs n i b a = - compare_segs n i a b.
Proof.
  revert i. induction n as [|n IH]; intros i; simpl; [done|]. rewrite String.eqb_sym.
  destruct (String.eqb_spec (seg_at a i) (seg_at b i)) as [E|Hne]; [apply IH|].
  rewrite !compare_seg_lt, seg_lt_flip by done. by destruct (seg_lt (seg_at a i) (seg_at b i)).
Qed.

Lemma compare_segs_trans n i a b c :
  compare_segs n i a b <= 0 -> compare_segs n i b c <= 0 -> compare_segs n i a c <= 0.
Proof.
  revert i. induction n as [|n IH]; intros i; simpl; [done|].
  destruct (String.eqb_spec (seg_at a i) (seg_at b i)) as [Eab|Hab], (String.eqb_spec (seg_at b i) (seg_at c i)) as [Ebc|Hbc].
  - rewrite Eab, Ebc, String.eqb_refl. apply IH.
  - rewrite Eab. by destruct (String.eqb_spec (seg_at b i) (seg_at c i)).
  - rewrite <- Ebc. by destruct (String.eqb_spec (seg_at a i) (seg_at b i)).
  - rewrite !compare_seg_lt by done. destruct (seg_lt (seg_at a i) (seg_at b i)) eqn:E1; [|lia].
    destruct (seg_lt (seg_at b i) (seg_at c i)) eqn:E2; [|lia]. intros _ _.
    destruct (String.eqb_spec (seg_at a i) (seg_at c i)) as [Eac|Hac].
    + rewrite <- Eac, seg_lt_flip, E1 in E2 by congruence. done.
    + rewrite compare_seg_lt, (seg_lt_trans _ _ _ E1 E2) by done. lia.
Qed.

Lemma compare_segs_zero n i a b : compare_segs n i a b = 0 -> forall j, (i <= j < i + n)%nat -> seg_at a j = seg_at b j.
Proof.
  revert i. induction n as [|n IH]; intros i; simpl; [lia|].
  destruct (String.eqb_spec (seg_at a i) (seg_at b i)) as [E|Hne].
  - intros Hz j Hj. destruct (decide (j = i)) as [->|]; [done|]. apply (IH (S i)); [done|lia].
  - rewrite compare_seg_lt by done. by destruct (seg_lt _ _).
Qed.

Lemma seg_at_beyond l i : (length l <= i)%nat -> seg_at l i = "".
Proof. intros H. unfold seg_at. by rewrite lookup_ge_None_2. Qed.

(** Positions beyond both ends change nothing. *)
Lemma compare_segs_more n m i a b : (length a <= i + n)%nat -> (length b <= i + n)%nat ->
  compare_segs (n + m) i a b = compare_segs n i a b.
Proof.
  revert i. induction n as [|n IH]; intros i Ha Hb; simpl.
  - clear -Ha Hb. revert i Ha Hb. induction m as [|m IH]; intros i Ha Hb; simpl; [done|].
    rewrite !seg_at_beyond by lia. simpl. apply IH; lia.
  - destruct (String.eqb _ _); [apply IH; lia|done].
Qed.

Lemma compare_segs_at n a b : (length a `max` length b <= n)%nat ->
  compare_segs (length a `max` length b) 0 a b = compare_segs n 0 a b.
Proof.
  intros H. replace n with (length a `max` length b + (n - length a `max` length b))%nat by lia.
  symmetry. apply compare_segs_more; lia.
Qed.

Lemma compare_opp a b : Z.sgn (compare_keys b a) = - Z.sgn (compare_keys a b).
Proof.
  unfold compare_keys. rewrite Z.eqb_sym, String.eqb_sym.
  destruct (Z.eqb_spec (rank a) (rank b)) as [_|Hr]; simpl; [|lia].
  destruct (String.eqb_spec (slot a) (slot b)) as [_|Hs]; simpl.
  - rewrite Nat.max_comm, compare_segs_opp. lia.
  - rewrite (str_lt_total (slot a)) by done. by destruct (str_lt (slot b) (slot a)).
Qed.

Lemma compare_refl a : compare_keys a a = 0.
Proof. pose proof (compare_opp a a). lia. Qed.

Lemma compare_trans a b c : compare_keys a b <= 0 -> compare_keys b c <= 0 -> compare_keys a c <= 0.
Proof.
  unfold compare_keys.
  destruct (Z.eqb_spec (rank a) (rank b)) as [E1|], (Z.eqb_spec (rank b) (rank c)) as [E2|], (Z.eqb_spec (rank a) (rank c)); simpl; try lia.
  destruct (String.eqb_spec (slot a) (slot b)) as [S1|N1], (String.eqb_spec (slot b) (slot c)) as [S2|N2]; simpl.
  - rewrite S1, S2, String.eqb_refl. simpl. set (n := (length (segs a) `max` length (segs b) `max` length (segs c))%nat).
    rewrite !(compare_segs_at n) by lia. apply compare_segs_trans.
  - rewrite S1. destruct (String.eqb_spec (slot b) (slot c)); simpl; [done|lia].
  - rewrite <- S2. destruct (String.eqb_spec (slot a) (slot b)); simpl; [done|lia].
  - destruct (str_lt (slot a) (slot b)) eqn:L1; [|lia]. destruct (str_lt (slot b) (slot c)) eqn:L2; [|lia]. intros _ _.
    pose proof (str_lt_trans _ _ _ L1 L2) as L3. destruct (String.eqb_spec (slot a) (slot c)) as [E|]; simpl; [|by rewrite L3].
    by rewrite E, str_lt_irrefl in L3.
Qed.

(** [<=] with a strict step is strict. *)
Lemma compare_lt_le a b c : compare_keys a b < 0 -> compare_keys b c <= 0 -> compare_keys a c < 0.
Proof.
  intros H1 H2. pose proof (compare_opp a c). pose proof (compare_opp a b).
  destruct (decide (compare_keys c a <= 0)) as [H3|]; [|lia]. pose proof (compare_trans _ _ _ H2 H3). lia.
Qed.

Lemma seg_at_ext a b : tail_ok a -> tail_ok b -> (forall j, seg_at a j = seg_at b j) -> a = b.
Proof.
  intros Ha Hb Hs.
  assert (Hlen : forall x y, tail_ok x -> (forall j, seg_at x j = seg_at y j) -> (length x <= length y)%nat).
  { clear. intros x y Hx Hs. destruct (decide (length x <= length y)%nat) as [|Hl]; [done|]. exfalso. apply Hx.
    rewrite last_lookup. destruct (x !! pred (length x)) as [z|] eqn:E.
    - specialize (Hs (pred (length x))). rewrite (seg_at_beyond y) in Hs by lia. unfold seg_at in Hs. rewrite E in Hs. simpl in Hs. by subst.
    - apply lookup_ge_None_1 in E. lia. }
  apply list_eq_same_length with (n := length b); [done|apply Nat.le_antisymm; by apply Hlen|].
  intros i x y _ Hx Hy. specialize (Hs i). unfold seg_at in Hs. rewrite Hx, Hy in Hs. done.
Qed.

Lemma compare_distinct a b : normal a -> normal b -> compare_keys a b = 0 -> a = b.
Proof.
  intros Ha Hb H. apply normal_inj; [done|done|]. rewrite (normal_norm a Ha), (normal_norm b Hb). revert H. unfold compare_keys.
  destruct (Z.eqb_spec (rank a) (rank b)) as [_|]; simpl; [|lia].
  destruct (String.eqb_spec (slot a) (slot b)) as [<-|_]; simpl; [|by destruct (str_lt _ _)]. intros H. enough (segs a = segs b) as -> by done.
  apply seg_at_ext; [apply Ha|apply Hb|]. intros j. destruct (decide (j < length (segs a) `max` length (segs b))%nat).
  - by apply (compare_segs_zero _ _ _ _ H); lia.
  - by rewrite !seg_at_beyond by lia.
Qed.

(** ** The winner *)

Section winner.
Context {T : Type} (key_of : T -> Key).

Definition better (probe : Probe) (best : option T) (candidate : T) : option T :=
  if negb (matches (key_of candidate) probe) then best
  else match best with
       | None => Some candidate
       | Some b => if compare_keys (key_of candidate) (key_of b) <? 0 then Some candidate else best
       end.

Lemma winner_snoc l c probe : winner_of (l ++ [c])%list probe key_of = better probe (winner_of l probe key_of) c.
Proof. unfold winner_of. by rewrite foldl_app. Qed.

(** The winner is one of the candidates, matches, and none that matches is more specific. *)
Lemma winner_spec l probe :
  match winner_of l probe key_of with
  | Some w => w ∈ l /\ matches (key_of w) probe = true
              /\ forall y, y ∈ l -> matches (key_of y) probe = true -> compare_keys (key_of w) (key_of y) <= 0
  | None => forall y, y ∈ l -> matches (key_of y) probe = false
  end.
Proof.
  induction l as [|c l IH] using rev_ind; [simpl; set_solver|]. rewrite winner_snoc. unfold better.
  destruct (matches (key_of c) probe) eqn:Hm; simpl.
  - destruct (winner_of l probe key_of) as [w|].
    + destruct IH as (Hw & Hmw & Hbest). destruct (Z.ltb_spec (compare_keys (key_of c) (key_of w)) 0) as [Hlt|Hge].
      * split_and!; [set_solver|done|]. intros y [Hy|Hy]%elem_of_app Hmy.
        -- pose proof (Hbest y Hy Hmy). pose proof (compare_lt_le _ _ _ Hlt H). lia.
        -- apply list_elem_of_singleton in Hy as ->. by rewrite compare_refl.
      * split_and!; [set_solver|done|]. intros y [Hy|Hy]%elem_of_app Hmy; [by apply Hbest|].
        apply list_elem_of_singleton in Hy as ->. pose proof (compare_opp (key_of c) (key_of w)). lia.
    + split_and!; [set_solver|done|]. intros y [Hy|Hy]%elem_of_app Hmy; [by rewrite IH in Hmy|].
      apply list_elem_of_singleton in Hy as ->. by rewrite compare_refl.
  - destruct (winner_of l probe key_of) as [w|].
    + destruct IH as (Hw & Hmw & Hbest). split_and!; [set_solver|done|]. intros y [Hy|Hy]%elem_of_app Hmy; [by apply Hbest|].
      apply list_elem_of_singleton in Hy as ->. congruence.
    + intros y [Hy|Hy]%elem_of_app; [by apply IH|]. by apply list_elem_of_singleton in Hy as ->.
Qed.

Lemma winner_Some l probe w : winner_of l probe key_of = Some w -> w ∈ l /\ matches (key_of w) probe = true
  /\ forall y, y ∈ l -> matches (key_of y) probe = true -> compare_keys (key_of w) (key_of y) <= 0.
Proof. intros E. pose proof (winner_spec l probe) as H. by rewrite E in H. Qed.

Lemma winner_None l probe : winner_of l probe key_of = None <-> forall y, y ∈ l -> matches (key_of y) probe = false.
Proof.
  pose proof (winner_spec l probe) as H. destruct (winner_of l probe key_of) as [w|]; [|done].
  destruct H as (Hw & Hm & _). split; [done|]. intros Hn. by rewrite Hn in Hm.
Qed.

(** Among keys that differ, the winner is the one no other beats, wherever it stands. *)
Lemma winner_is l probe w :
  (forall x, x ∈ l -> normal (key_of x)) -> (forall x y, x ∈ l -> y ∈ l -> key_of x = key_of y -> x = y) ->
  w ∈ l -> matches (key_of w) probe = true ->
  (forall y, y ∈ l -> matches (key_of y) probe = true -> compare_keys (key_of w) (key_of y) <= 0) ->
  winner_of l probe key_of = Some w.
Proof.
  intros Hn Hinj Hw Hm Hbest. pose proof (winner_spec l probe) as H. destruct (winner_of l probe key_of) as [v|].
  - destruct H as (Hv & Hmv & Hbv). f_equal. apply Hinj; [done|done|]. apply compare_distinct; [by apply Hn|by apply Hn|].
    pose proof (Hbest v Hv Hmv). pose proof (Hbv w Hw Hm). pose proof (compare_opp (key_of v) (key_of w)). lia.
  - by rewrite H in Hm.
Qed.

Lemma winner_perm l l' probe :
  (forall x, x ∈ l -> normal (key_of x)) -> (forall x y, x ∈ l -> y ∈ l -> key_of x = key_of y -> x = y) ->
  l ≡ₚ l' -> winner_of l' probe key_of = winner_of l probe key_of.
Proof.
  intros Hn Hinj Hp. pose proof (winner_spec l probe) as H. destruct (winner_of l probe key_of) as [w|] eqn:E.
  - destruct H as (Hw & Hm & Hb). apply winner_is; try setoid_rewrite <- Hp; try done.
  - apply winner_None. intros y Hy. apply H. by rewrite Hp.
Qed.
End winner.

Lemma winner_fmap {T U} (f : T -> U) (key_of : U -> Key) (l : list T) probe :
  winner_of (f <$> l) probe key_of = f <$> winner_of l probe (fun x => key_of (f x)).
Proof.
  induction l as [|c l IH] using rev_ind; [done|]. rewrite fmap_app. change (f <$> [c]) with [f c]. rewrite !winner_snoc, IH. unfold better.
  destruct (negb _); [done|]. destruct (winner_of l probe _); simpl; [|done]. by destruct (_ <? 0).
Qed.

Lemma winner_ext {T} (key_of : T -> Key) l p q : (forall x, x ∈ l -> matches (key_of x) p = matches (key_of x) q) ->
  winner_of l p key_of = winner_of l q key_of.
Proof.
  induction l as [|c l IH] using rev_ind; [done|]. intros H. rewrite !winner_snoc, IH by set_solver. unfold better.
  by rewrite H by set_solver.
Qed.

(** ** The two shapes of a key *)

Lemma parse_shape k : normal k ->
  (is_concept_slot (slot k) = true /\ k = concept_key (slot k) (norm k))
  \/ (is_concept_slot (slot k) = false /\ k = plain_key (slot k) (norm k) (segs k)).
Proof.
  intros [Hnorm [Hfree _] _ Hagain]. unfold parse_key_text in Hagain. rewrite Hnorm, slot_rest_join in Hagain by done. cbn [fst] in Hagain.
  set (n := normalize_key _) in Hagain. destruct (negb _); [done|]. case_bool_decide; [done|].
  destruct (is_concept_slot (slot k)) eqn:Hc; apply Some_inj in Hagain; [left|right]; (split; [done|]).
  - rewrite <- Hagain at 1. f_equal. rewrite <- Hagain. unfold concept_key.
    destruct (String.eqb _ _); [by destruct (concept_reading _)|done].
  - assert (En : norm k = n) by (rewrite <- Hagain; unfold plain_key; by destruct (slot_reading _ _)).
    assert (El : segs k = drop 1 (py_split ":" n)) by (rewrite <- Hagain; unfold plain_key; by destruct (slot_reading _ _)).
    by rewrite En, El.
Qed.

Lemma scope_cases k : normal k ->
  match scope k with
  | ScopeAll => segs k = []
  | ScopeMetric m => segs k = [m] /\ forallb is_score_kind (kinds k) = true
  | ScopeD d => kinds k = [39998] \/ kinds k = [39999]
  | ScopeUnchecked u => u = norm k
  | ScopeOther => False
  end.
Proof.
  intros Hk. destruct (parse_shape k Hk) as [[Hc E]|[Hc E]]; rewrite E.
  - unfold concept_key. destruct (concept_slots _ Hc) as [-> | ->]; destruct (String.eqb _ _); simpl; auto.
  - unfold plain_key. destruct (slot_reading (slot k) (segs k)) as [ks rk]. cbn [scope segs kinds norm]. unfold plain_scope.
    destruct (segs k) as [|s [|]]; [done| |done]. destruct (_ && _) eqn:Eb; [|done]. split; [done|].
    by do 2 (apply andb_prop in Eb as [Eb _]); apply andb_prop in Eb as [_ Eb].
Qed.
