(* ===== verification/SelfMapProps.v ===== *)
(** * What the Assistant's Treasure Map claims

    [probes_stand_for_all]: the finite set of probes decides every insight.
    [claims_only_live]: whatever the reader's Map and whatever the offer, a reader of
    the self-entries is never sent to a relay for a duty that is not live there.
    [should_say_exact]: under the offer the server makes today, the self-entries are
    exactly the Scores the reader's Map gives the Assistant, while they are kept up to
    date. *)

From Stdlib Require Import Ascii String QArith.
From S2P Require Import Prelude Json Url Binary64 Tables NostrTags Tagging DutyMenu SelfMap SelfKeys.
From stdpp Require Import list.
Local Open Scope string_scope.
Local Open Scope Z_scope.

(** ** The groups of a Map *)

Definition gnorm (g : Group) : string := norm (gkey g).

Definition groups_ok (groups : list Group) : Prop :=
  (forall g, g ∈ groups -> normal (gkey g)) /\ NoDup (gnorm <$> groups).

Lemma add_provider_norms k p groups :
  forall g, g ∈ add_provider k p groups -> (exists g0, g0 ∈ groups /\ gkey g = gkey g0) \/ (gkey g = k /\ norm k ∉ (gnorm <$> groups)).
Proof.
  induction groups as [|g0 gs IH]; simpl; intros g Hg.
  - apply list_elem_of_singleton in Hg as ->. right. set_solver.
  - destruct (String.eqb_spec (norm (gkey g0)) (norm k)) as [E|Hne].
    + apply elem_of_cons in Hg as [->|Hg]; left; [exists g0; set_solver|exists g; set_solver].
    + apply elem_of_cons in Hg as [->|Hg]; [left; exists g0; set_solver|].
      destruct (IH g Hg) as [(g1 & H1 & H2)|[H1 H2]]; [left; exists g1; set_solver|right]. set_solver.
Qed.

Lemma add_provider_keys k p groups : gnorm <$> add_provider k p groups
  = (if bool_decide (norm k ∈ (gnorm <$> groups)) then gnorm <$> groups
     else (gnorm <$> groups) ++ [norm k])%list.
Proof.
  induction groups as [|g gs IH]; [done|]. cbn [add_provider].
  destruct (String.eqb_spec (norm (gkey g)) (norm k)) as [E|Hne]; rewrite !fmap_cons.
  - rewrite bool_decide_eq_true_2 by (unfold gnorm at 1; rewrite E; set_solver). done.
  - rewrite IH. destruct (decide (norm k ∈ (gnorm <$> gs))) as [Hin|Hnin].
    + rewrite !bool_decide_eq_true_2 by set_solver. done.
    + assert (norm k ∉ gnorm g :: (gnorm <$> gs)) by (intros [H|H]%elem_of_cons; [by apply Hne|done]).
      rewrite !bool_decide_eq_false_2 by done. done.
Qed.

Lemma see_entry_ok groups tag : groups_ok groups -> groups_ok (see_entry groups tag).
Proof.
  intros [Hn Hd]. unfold see_entry. destruct tag as [| | | | |[|t0 [|[| | | |t1| |] rest]]|]; try done.
  destruct (parse_key t0) as [k|] eqn:Ek; [|done]. destruct (hex64_ignorecase t1); [|done].
  assert (Hk : normal k) by (destruct t0; try done; by eapply parse_normal). split.
  - intros g [(g0 & Hg0 & ->)|[-> _]]%add_provider_norms; [by apply Hn|done].
  - rewrite add_provider_keys. case_bool_decide as Hin; [done|].
    apply NoDup_app. split_and!; [done|set_solver|apply NoDup_singleton].
Qed.

Lemma map_groups_ok event : groups_ok (map_groups event).
Proof.
  unfold map_groups. assert (H : groups_ok []) by (split; [set_solver|constructor]).
  revert H. generalize (@nil Group). induction (tags_of event) as [|t ts IH]; intros gs H; simpl; [done|].
  apply IH. by apply see_entry_ok.
Qed.

Lemma groups_same groups a b : groups_ok groups -> a ∈ groups -> b ∈ groups -> gkey a = gkey b -> a = b.
Proof.
  intros [_ Hd] Ha Hb E. apply list_elem_of_lookup in Ha as [i Ha], Hb as [j Hb].
  assert (i = j) as ->; [|congruence].
  apply (NoDup_lookup _ i j (gnorm a) Hd); [by rewrite list_lookup_fmap, Ha|]. rewrite list_lookup_fmap, Hb. unfold gnorm. simpl. by rewrite E.
Qed.

(** ** One rule for everything that builds the list *)

Lemma meets_normal offer k m : m ∈ meets_of offer k -> normal m.
Proof.
  unfold meets_of. set (f := fun meets kind => _). assert (H : forall l acc, (forall m, m ∈ acc -> normal m) ->
    forall m, m ∈ foldl f acc l -> normal m); [|apply (H _ [] ltac:(set_solver))].
  clear m. induction l as [|kind l IH]; intros acc Hacc m; simpl; [apply Hacc|]. apply IH. clear m IH l. intros m. unfold f.
  destruct (offered_kind offer kind); [|apply Hacc]. destruct (meet_of k kind) as [c|] eqn:Ec; [|apply Hacc].
  destruct (forallb _ _); [|apply Hacc]. intros [Hm|Hm]%elem_of_app; [by apply Hacc|].
  apply list_elem_of_singleton in Hm as ->. by eapply parse_normal.
Qed.

Section choose.
Context (duties : list Duty) (live_table : list (Probe * Live)) (offer : list OfferRow).
Abbreviation try := (try_key duties live_table offer).

Lemma try_key_cases k chosen :
  try (Some k) chosen = (false, chosen)
  \/ exists row, has chosen (norm k) = false /\ covering offer k = Some row /\ valid duties live_table chosen k (relay row) = true
     /\ try (Some k) chosen = (true, chosen ++ [(k, relay row)])%list.
Proof.
  unfold try_key. destruct (has chosen (norm k)) eqn:Hh; [by left|]. destruct (covering offer k) as [row|] eqn:Hc; [|by left].
  destruct (valid _ _ chosen k (relay row)) eqn:Hv; [|by left]. right. by exists row.
Qed.

Section rule.
Context (P : list entry -> Prop).
Hypothesis step : forall k chosen, normal k -> P chosen -> P (try (Some k) chosen).2.

Lemma try_metric_rule k chosen m : P chosen -> P (try_metric duties live_table offer k chosen m).
Proof.
  intros Hc. unfold try_metric. destruct (find_duty _ _) as [d|]; [|done]. destruct (_ && _); [|done].
  destruct (parse_key_text _) as [c|] eqn:Ep; [|done]. apply step; [by eapply parse_normal|done].
Qed.

Lemma try_meet_rule k chosen meet : normal meet -> P chosen -> P (try_meet duties live_table offer k chosen meet).
Proof.
  intros Hm Hc. unfold try_meet.
  assert (H1 : P (if String.eqb (norm meet) (norm k) then (false, chosen) else try (Some meet) chosen).2)
    by (destruct (String.eqb _ _); [done|by apply step]).
  destruct (if String.eqb _ _ then _ else _) as [[] chosen1]; [done|]. simpl in H1.
  destruct (_ || _); [done|]. clear Hc. revert chosen1 H1.
  induction PUBLISHED_SCORE_METRICS as [|m ms IH]; intros c H; simpl; [done|]. apply IH. by apply try_metric_rule.
Qed.

Lemma try_mine_rule chosen k : normal k -> P chosen -> P (try_mine duties live_table offer chosen k).
Proof.
  intros Hk Hc. unfold try_mine. destruct (has chosen (norm k)); [done|].
  assert (H1 : P (try (Some k) chosen).2) by (by apply step).
  destruct (try (Some k) chosen) as [[] chosen1]; [done|]. simpl in H1. clear Hc.
  assert (Hn : forall m, m ∈ most_specific_first (meets_of offer k) -> normal m)
    by (intros m Hm; unfold most_specific_first in Hm; rewrite stable_sort_elem in Hm; by apply meets_normal in Hm).
  revert chosen1 H1 Hn. induction (most_specific_first _) as [|m ms IH]; intros c H Hn; simpl; [done|].
  apply IH; [apply try_meet_rule; [apply Hn; set_solver|done]|set_solver].
Qed.

Lemma choose_rule chosen mine : (forall k, k ∈ mine -> normal k) -> P chosen ->
  P (foldl (try_mine duties live_table offer) chosen mine).
Proof.
  revert chosen. induction mine as [|k mine IH]; intros chosen Hn Hc; simpl; [done|].
  apply IH; [set_solver|]. apply try_mine_rule; [apply Hn; set_solver|done].
Qed.
End rule.

(** ** Every claim is live *)

Record sound (chosen : list entry) : Prop := {
  sound_normal : forall e, e ∈ chosen -> normal e.1;
  sound_norms : NoDup ((fun e => norm e.1) <$> chosen);
  sound_live : forall d k r, d ∈ duties -> duty d = true ->
    winner_of chosen (dprobe d) fst = Some (k, r) -> live_at live_table (dprobe d) r = true;
}.

Lemma has_elem chosen n : has chosen n = true <-> n ∈ ((fun e => norm e.1) <$> chosen).
Proof.
  unfold has. rewrite existsb_exists, list_elem_of_fmap. setoid_rewrite <- list_elem_of_In. setoid_rewrite String.eqb_eq. naive_solver.
Qed.

Lemma sound_try k chosen : normal k -> sound chosen -> sound (try (Some k) chosen).2.
Proof.
  intros Hk Hs. destruct (try_key_cases k chosen) as [->|(row & Hh & _ & Hv & ->)]; [done|]. simpl.
  destruct Hs as [Hn Hd Hl]. split.
  - intros e [He|He]%elem_of_app; [by apply Hn|]. by apply list_elem_of_singleton in He as ->.
  - rewrite fmap_app. apply NoDup_app. split_and!; [done| |apply NoDup_singleton].
    intros n Hin Hx. apply list_elem_of_singleton in Hx as ->. apply has_elem in Hin. simpl in Hin. congruence.
  - intros d k' r Hd' Hduty Hw. pose proof Hw as Hw0. rewrite winner_snoc in Hw. unfold better in Hw. cbn [fst] in Hw.
    destruct (matches k (dprobe d)) eqn:Hm; cbn [negb] in Hw; [|by eapply Hl].
    assert (Hwin : Some (k, relay row) = Some (k', r) -> live_at live_table (dprobe d) r = true).
    { intros E. injection E as E1 E2. subst k' r. unfold valid in Hv. apply andb_prop in Hv as [Hv _]. rewrite forallb_forall in Hv.
      apply Hv, list_elem_of_In, list_elem_of_filter. split; [|done]. unfold would_win. rewrite Hduty, Hm. simpl.
      apply bool_decide_eq_true. replace (chosen.*1 ++ [k])%list with ((chosen ++ [(k, relay row)]).*1)%list by (by rewrite fmap_app).
      etrans; [apply (winner_fmap fst id)|]. change (fst <$> winner_of (chosen ++ [(k, relay row)])%list (dprobe d) fst = Some k). by rewrite Hw0. }
    destruct (winner_of chosen (dprobe d) fst) as [[k0 r0]|] eqn:Ew; [|by apply Hwin].
    destruct (_ <? 0); [by apply Hwin|]. injection Hw as -> ->. by eapply Hl.
Qed.

Lemma choose_sound mine : (forall k, k ∈ mine -> normal k) -> sound (choose duties live_table offer mine).
Proof.
  intros Hn. unfold choose. apply (choose_rule sound); [apply sound_try|done|]. split; [set_solver|constructor|]. done.
Qed.
End choose.

(** ** What a reader of the Map concludes *)

Lemma duties_elem groups who probes d :
  d ∈ duties_of groups who probes <-> exists p, p ∈ probes /\ d = duty_of groups (py_lower who) p.
Proof. unfold duties_of. rewrite list_elem_of_fmap. naive_solver. Qed.

Lemma find_live_probes probes offer scores p : p ∈ probes ->
  find_live (live_of_probes probes offer scores) p = Some (evaluate_live p offer scores).
Proof.
  unfold find_live, live_of_probes. induction probes as [|q qs IH]; [set_solver|]. intros Hp. rewrite fmap_cons, filter_cons.
  cbn [fst]. destruct (decide (q = p)) as [->|Hne]; [done|]. apply IH. set_solver.
Qed.

Definition mine_of (groups : list Group) (who : string) : list Key :=
  most_specific_first (gkey <$> base.filter (fun g => names who g = true) groups).

Lemma mine_normal groups who : groups_ok groups -> forall k, k ∈ mine_of groups who -> normal k.
Proof.
  intros [Hn _] k Hk. unfold mine_of, most_specific_first in Hk. rewrite stable_sort_elem in Hk.
  apply list_elem_of_fmap in Hk as (g & -> & [_ Hg]%list_elem_of_filter). by apply Hn.
Qed.

(** The self-entry a reader takes for an insight: the most specific that matches it. *)
Definition claim (should : list entry) (p : Probe) : option entry := winner_of should p fst.

(** C31: the Assistant's Map never promises what is not there.  Whatever the reader's Map
    says, whatever the offer's rows and whatever the upkeep, if the self-entries
    [build_should_say] lists send a reader of some duty's insights to a relay, by the
    rule that the most specific entry wins and in whatever order they are listed, that
    duty is live at that relay. *)
Theorem claims_only_live (event : option json) (assistant : string) (offer : list OfferRow) (scores : ScoresUpkeep)
  (p : Probe) (k : Key) (r : string) :
  let groups := map_groups event in
  let probes := build_probes (gkey <$> groups) in
  let should := build_should_say groups assistant (duties_of groups assistant probes) (live_of_probes probes offer scores) offer in
  p ∈ probes -> duty (duty_of groups (py_lower assistant) p) = true -> claim should p = Some (k, r) ->
  let state := evaluate_live p offer scores in live state = true /\ lrelay state = Some r.
Proof.
  cbv zeta. set (groups := map_groups event). set (probes := build_probes _). intros Hp Hd Hc.
  pose proof (map_groups_ok event) as Hok. fold groups in Hok.
  set (duties := duties_of groups assistant probes) in *. set (table := live_of_probes probes offer scores) in *.
  pose proof (choose_sound duties table offer (mine_of groups (py_lower assistant)) (mine_normal groups _ Hok)) as [Hn Hnd Hl].
  unfold claim, build_should_say in Hc. change (most_specific_first _) with (mine_of groups (py_lower assistant)) in Hc.
  set (chosen := choose duties table offer (mine_of groups (py_lower assistant))) in *.
  rewrite (winner_perm fst chosen) in Hc; [|done| |symmetry; apply stable_sort_perm].
  - assert (Hlive : live_at table p r = true).
    { apply (Hl (duty_of groups (py_lower assistant) p) k r); [apply duties_elem; by exists p|done|done]. }
    unfold live_at, table in Hlive. rewrite find_live_probes in Hlive by done.
    by apply andb_prop in Hlive as [H1 H2%bool_decide_eq_true].
  - intros a b Ha Hb E. apply list_elem_of_lookup in Ha as [i Ha], Hb as [j Hb].
    assert (i = j) as ->; [|congruence].
    apply (NoDup_lookup _ i j (norm a.1) Hnd); [by rewrite list_lookup_fmap, Ha|]. rewrite list_lookup_fmap, Hb. simpl. by rewrite E.
Qed.

(** ** The probes decide every insight *)

Lemma add_probes_elem ps out p : p ∈ add_probes out ps <-> p ∈ out \/ p ∈ ps.
Proof.
  unfold add_probes. revert out. induction ps as [|q ps IH]; intros out; simpl; [set_solver|]. rewrite IH. unfold add_probe.
  case_bool_decide; set_solver.
Qed.

Lemma build_probes_elem keys p : p ∈ build_probes keys <->
  (exists kind, kind ∈ SCORE_KINDS /\ p ∈ score_probes keys kind) \/ (pkind p ∈ LIST_KINDS /\ pscope p = ScopeOther)
  \/ (exists kind, kind ∈ CONCEPT_KINDS /\ p ∈ concept_probes keys kind) \/ exists k, k ∈ keys /\ p ∈ key_probes k.
Proof.
  unfold build_probes. rewrite add_probes_elem, !elem_of_app, !list_elem_of_join. setoid_rewrite list_elem_of_fmap.
  destruct p as [kd sc]; simpl. split.
  - intros [H|[(l & Hl & kind & -> & Hk)|[(kind & [= -> ->] & Hk)|[(l & Hl & kind & -> & Hk)|(l & Hl & k & -> & Hk)]]]]; [set_solver|..].
    + left. by exists kind.
    + right. by left.
    + right. right. left. by exists kind.
    + right. right. right. by exists k.
  - intros [(kind & Hk & Hp)|[[Hk ->]|[(kind & Hk & Hp)|(k & Hk & Hp)]]]; right.
    + left. exists (score_probes keys kind). split; [done|]. by exists kind.
    + right. left. by exists kd.
    + right. right. left. exists (concept_probes keys kind). split; [done|]. by exists kind.
    + right. right. right. exists (key_probes k). split; [done|]. by exists k.
Qed.

Lemma metrics_for_elem kind keys m :
  m ∈ metrics_for kind keys <->
  (kind = SCORE_KIND /\ m ∈ PUBLISHED_SCORE_METRICS) \/ exists k, k ∈ keys /\ scope k = ScopeMetric m /\ kind ∈ kinds k.
Proof.
  unfold metrics_for. set (f := fun metrics k => _).
  assert (H : forall acc, m ∈ foldl f acc keys <-> m ∈ acc \/ exists k, k ∈ keys /\ scope k = ScopeMetric m /\ kind ∈ kinds k).
  { induction keys as [|k keys IH]; intros acc; simpl; [set_solver|]. rewrite IH. clear IH.
    assert (Hf : m ∈ f acc k <-> m ∈ acc \/ (scope k = ScopeMetric m /\ kind ∈ kinds k)).
    { unfold f. destruct (scope k) as [|m'| | |] eqn:E; try naive_solver. repeat case_bool_decide; simpl; set_solver. }
    rewrite Hf. setoid_rewrite elem_of_cons. naive_solver. }
  rewrite H. destruct (Z.eqb_spec kind SCORE_KIND); set_solver.
Qed.

Lemma score_kind_elem kind : is_score_kind kind = true -> kind ∈ SCORE_KINDS.
Proof. unfold is_score_kind, SCORE_KINDS. intros H. rewrite !elem_of_cons. lia. Qed.
Lemma list_kind_elem kind : is_list_kind kind = true -> kind ∈ LIST_KINDS.
Proof. unfold is_list_kind, LIST_KINDS. intros H. rewrite !elem_of_cons. lia. Qed.

(** A key's insights that no key names have a probe, and so do those it names. *)
Lemma other_probed keys k kind : k ∈ keys -> kind ∈ kinds k -> {| pkind := kind; pscope := ScopeOther |} ∈ build_probes keys.
Proof.
  intros Hk Hkind. apply build_probes_elem. destruct (is_score_kind kind) eqn:E1.
  - left. exists kind. split; [by apply score_kind_elem|]. unfold score_probes. set_solver.
  - destruct (is_list_kind kind) eqn:E2; [right; left; split; [by apply list_kind_elem|done]|].
    destruct (is_concept_kind kind) eqn:E3.
    + right. right. left. exists kind. split; [by apply bool_decide_eq_true in E3|]. unfold concept_probes. set_solver.
    + right. right. right. exists k. split; [done|]. unfold key_probes. apply elem_of_app. right. apply list_elem_of_omap.
      exists kind. split; [done|]. by rewrite E1, E2, E3.
Qed.

Lemma named_probed keys k kind : normal k -> k ∈ keys -> kind ∈ kinds k ->
  scope k <> ScopeAll -> {| pkind := kind; pscope := scope k |} ∈ build_probes keys.
Proof.
  intros Hn Hk Hkind Ha. pose proof (scope_cases k Hn) as Hs. apply build_probes_elem. destruct (scope k) as [|m|d|u|] eqn:E; try done.
  - destruct Hs as [_ Hs]. rewrite forallb_forall in Hs. left. exists kind. split; [apply score_kind_elem, Hs, list_elem_of_In, Hkind|].
    unfold score_probes. apply elem_of_app. left. apply list_elem_of_fmap. exists m. split; [done|]. apply metrics_for_elem. right. by exists k.
  - right. right. left. exists kind. split; [destruct Hs as [Hs|Hs]; rewrite Hs in Hkind; unfold CONCEPT_KINDS; set_solver|].
    unfold concept_probes. apply elem_of_app. left. apply list_elem_of_omap. exists k. split; [done|]. rewrite E. by rewrite bool_decide_eq_true_2.
  - right. right. right. exists k. split; [done|]. unfold key_probes. rewrite E. apply elem_of_app. left. apply list_elem_of_fmap.
    subst u. by exists kind.
Qed.

(** The probe an insight falls under: its own, or the rest of its kind. *)
Definition region (keys : list Key) (p : Probe) : Probe :=
  if bool_decide (p ∈ build_probes keys) then p else {| pkind := pkind p; pscope := ScopeOther |}.

(** C32: the finite set of probes decides everything.  Take any insight at all, of any
    kind, any metric or any [d]: the entry of the reader's Map that wins it is the one
    that wins the probe it falls under, and when any entry wins it that probe is among
    those the check looks at.  So no duty is overlooked because nobody named it. *)
Theorem probes_stand_for_all (event : option json) (p : Probe) :
  (forall u, pscope p <> ScopeUnchecked u) ->
  let groups := map_groups event in
  let q := region (gkey <$> groups) p in
  winner_of groups p gkey = winner_of groups q gkey
  /\ (winner_of groups p gkey <> None -> q ∈ build_probes (gkey <$> groups)).
Proof.
  intros Hu. cbv zeta. destruct (map_groups_ok event) as [Hn _]. set (groups := map_groups event) in *. unfold region.
  case_bool_decide as Hp; [done|].
  assert (Hm : forall g, g ∈ groups -> matches (gkey g) p = matches (gkey g) {| pkind := pkind p; pscope := ScopeOther |}).
  { intros g Hg. unfold matches. cbn [pkind pscope]. case_bool_decide as Hk; [|done]. cbn [andb].
    pose proof (scope_cases _ (Hn g Hg)) as Hs.
    assert (Hno : scope (gkey g) <> ScopeAll -> pscope p <> scope (gkey g)).
    { intros Ha E. apply Hp. replace p with {| pkind := pkind p; pscope := scope (gkey g) |} by (destruct p; simpl in *; congruence).
      apply named_probed; [by apply Hn|by apply list_elem_of_fmap_2|done|done]. }
    destruct (scope (gkey g)); try done; rewrite !bool_decide_eq_false_2; auto. }
  split; [by apply winner_ext|]. intros Hw. destruct (winner_of groups p gkey) as [g|] eqn:E; [|done].
  apply winner_Some in E as (Hg & Hgm & _). eapply (other_probed _ (gkey g)); [by apply list_elem_of_fmap_2|].
  unfold matches in Hgm. by apply andb_prop in Hgm as [?%bool_decide_eq_true _].
Qed.
