(* ===== verification/SelfMapExact.v ===== *)
(** * The Treasure Map under today's offer

    The offer the server makes ([offer_rows]) lists five Scores, the Trusted Lists and
    perhaps the Dictionary; only Scores can be live.  [should_say_exact] says which
    self-entries come out, for every Map a reader may publish. *)

From Stdlib Require Import Ascii String QArith.
From S2P Require Import Prelude Json Url Binary64 Tables NostrTags Tagging DutyMenu SelfMap SelfKeys SelfMapProps.
From stdpp Require Import list.
Local Open Scope string_scope.
Local Open Scope Z_scope.

(** ** The keys involved *)

Definition metric_key (m : string) : Key := plain_key "30382" ("30382:" ++ m) [m].
Definition metric_probe (m : string) : Probe := {| pkind := SCORE_KIND; pscope := ScopeMetric m |}.
Definition score_key : Key := plain_key "30382" "30382" [].
Definition family_key : Key := plain_key "3038x" "3038x" [].
Definition star_key : Key := plain_key "*" "*" [].
Definition list_key : Key := plain_key "30392" "30392" [].
Definition family_metric_key (m : string) : Key := plain_key "3038x" ("3038x:" ++ m) [m].

Lemma published_cases (P : string -> Prop) :
  P "rank" -> P "followers" -> P "reporters" -> P "muters" -> P "hops" -> forall m, m ∈ PUBLISHED_SCORE_METRICS -> P m.
Proof. intros H1 H2 H3 H4 H5 m Hm. repeat (apply elem_of_cons in Hm as [->|Hm]; [done|]). set_solver. Qed.

Lemma digit_code c : is_digit c = true -> 48 <= chr_code c <= 57.
Proof. unfold is_digit. lia. Qed.

Lemma chr_code_inj a b : chr_code a = chr_code b -> a = b.
Proof.
  unfold chr_code. intros E%N2Z.inj. rewrite <- (ascii_N_embedding a), <- (ascii_N_embedding b). by rewrite E.
Qed.

(** Five digits are determined by the number they spell. *)
Lemma slot_30382 s : (String.length s =? 5)%nat && forallb is_digit (chars s) = true -> slot_int s = 30382 -> s = "30382".
Proof.
  intros [Hl Hd]%andb_prop Hv. apply Nat.eqb_eq in Hl. rewrite <- length_chars in Hl. rewrite <- (of_chars_chars s).
  unfold slot_int in Hv. destruct (chars s) as [|a [|b [|c [|d [|e [|]]]]]]; try done.
  cbn [forallb] in Hd. repeat (apply andb_prop in Hd as [? Hd]).
  cbn [parse_digits digits_val] in Hv.
  repeat match goal with H : is_digit _ = true |- _ => rewrite H in Hv; apply digit_code in H end.
  unfold default, id, digit_val in Hv.
  assert (a = "3"%char) as -> by (apply chr_code_inj; change (chr_code "3") with 51; lia).
  assert (b = "0"%char) as -> by (apply chr_code_inj; change (chr_code "0") with 48; change (chr_code "3") with 51 in *; lia).
  assert (c = "3"%char) as -> by (apply chr_code_inj; change (chr_code "3") with 51 in *; change (chr_code "0") with 48 in *; lia).
  assert (d = "8"%char) as -> by (apply chr_code_inj; change (chr_code "8") with 56; change (chr_code "3") with 51 in *; change (chr_code "0") with 48 in *; lia).
  assert (e = "2"%char) as ->; [|done].
  apply chr_code_inj. change (chr_code "2") with 50. change (chr_code "8") with 56 in *. change (chr_code "3") with 51 in *. change (chr_code "0") with 48 in *. lia.
Qed.

(** The slots that cover kind 30382. *)
Lemma score_slots k : normal k -> SCORE_KIND ∈ kinds k ->
  is_concept_slot (slot k) = false /\ slot k ∈ ["30382"; "3038x"; "*"].
Proof.
  intros Hn Hk. destruct (parse_shape k Hn) as [[Hc E]|[Hc E]].
  - exfalso. rewrite E in Hk. unfold concept_key in Hk.
    destruct (concept_slots _ Hc) as [Es|Es]; rewrite Es in Hk; destruct (String.eqb _ _); vm_compute in Hk; set_solver.
  - split; [done|]. destruct (normal_slot k Hn) as [_ Hs]. unfold kind_slot in Hs.
    apply orb_prop in Hs as [[[Hs|Hs%String.eqb_eq]%orb_prop|Hs%String.eqb_eq]%orb_prop|Hs%String.eqb_eq].
    + rewrite E in Hk. unfold plain_key, slot_reading in Hk.
      destruct (String.eqb_spec (slot k) "*"); [set_solver|]. destruct (String.eqb_spec (slot k) "3038x"); [set_solver|].
      destruct (String.eqb_spec (slot k) "3039x") as [E3|]; [rewrite E3 in Hs; done|].
      cbn [kinds] in Hk. apply list_elem_of_singleton in Hk. rewrite (slot_30382 (slot k)) by done. set_solver.
    + set_solver.
    + exfalso. rewrite E, Hs in Hk. unfold plain_key in Hk. vm_compute in Hk. set_solver.
    + set_solver.
Qed.

Lemma normal_plain k : normal k -> is_concept_slot (slot k) = false -> k = plain_key (slot k) (colon_join (slot k :: segs k)) (segs k).
Proof. intros Hn Hc. destruct (parse_shape k Hn) as [[H _]|[_ E]]; [congruence|]. by rewrite <- (normal_norm k Hn). Qed.

Lemma score_all k : normal k -> SCORE_KIND ∈ kinds k -> scope k = ScopeAll -> k ∈ [score_key; family_key; star_key].
Proof.
  intros Hn Hk Hs. destruct (score_slots k Hn Hk) as [Hc Hsl]. pose proof (scope_cases k Hn) as Hseg. rewrite Hs in Hseg.
  pose proof (normal_plain k Hn Hc) as E. rewrite Hseg in E. simpl in E.
  repeat (apply elem_of_cons in Hsl as [Hsl|Hsl]; [rewrite Hsl in E; rewrite E; set_solver|]). set_solver.
Qed.

Lemma score_metric k m : normal k -> SCORE_KIND ∈ kinds k -> scope k = ScopeMetric m -> k = metric_key m \/ k = family_metric_key m.
Proof.
  intros Hn Hk Hs. destruct (score_slots k Hn Hk) as [Hc Hsl]. pose proof (scope_cases k Hn) as Hseg. rewrite Hs in Hseg. destruct Hseg as [Hseg Hall].
  pose proof (normal_plain k Hn Hc) as E. rewrite Hseg in E. simpl in E.
  repeat (apply elem_of_cons in Hsl as [Hsl|Hsl]; [rewrite Hsl in E|]); [by left|by right| |set_solver].
  rewrite E in Hs. done.
Qed.

Lemma metric_key_fields m : m ∈ PUBLISHED_SCORE_METRICS -> kinds (metric_key m) = [SCORE_KIND] /\ scope (metric_key m) = ScopeMetric m.
Proof. revert m. apply published_cases; by vm_compute. Qed.

(** ** The offer *)

Section today.
Context `{DutyEnv}.
Abbreviation ta := nostr_upload_ta_events_relay_public_url.

Definition score_rows : list OfferRow := imap (fun i m => {| rpos := i; rkey := metric_key m; relay := ta |}) TA_METRIC_TAGS.
Definition dictionary_rows : list OfferRow :=
  if String.eqb dictionary_relay "" then []
  else [{| rpos := 6; rkey := concept_key "39998" "39998"; relay := dictionary_relay |};
        {| rpos := 7; rkey := concept_key "39999" "39999"; relay := dictionary_relay |}].
Definition today : list OfferRow :=
  (score_rows ++ [{| rpos := 5; rkey := list_key; relay := or_text trusted_list_relay ta |}] ++ dictionary_rows)%list.

Hypothesis ta_set : ta <> "".

Lemma today_offer who : Offer (offer_rows who) = Ok today.
Proof.
  assert (Hta : String.eqb ta "" = false) by (by apply String.eqb_neq).
  assert (Htl : String.eqb (or_text trusted_list_relay ta) "" = false)
    by (unfold or_text; destruct (String.eqb trusted_list_relay "") eqn:E; [done|done]).
  unfold Offer, offer_rows, designation_rows, today, dictionary_rows, score_rows.
  destruct (String.eqb dictionary_relay "") eqn:Ed; simpl; rewrite !Hta, Htl, ?Ed; reflexivity.
Qed.

Lemma covering_Some offer k row : covering offer k = Some row -> row ∈ offer /\ covers (rkey row) k = true.
Proof.
  unfold covering. induction offer as [|r offer IH] using rev_ind; [done|]. rewrite foldl_app. cbn [foldl].
  destruct (covers (rkey r) k) eqn:Hc; cbn [andb].
  - destruct (match foldl _ None offer with None => true | Some _ => _ end).
    + intros [= <-]. split; [set_solver|done].
    + intros [? ?]%IH. split; [set_solver|done].
  - intros [? ?]%IH. split; [set_solver|done].
Qed.

Lemma today_covers k row : SCORE_KIND ∈ kinds k -> covering today k = Some row ->
  kinds k ⊆ [SCORE_KIND] /\ relay row = ta /\ exists m, m ∈ PUBLISHED_SCORE_METRICS /\ scope k = ScopeMetric m.
Proof.
  intros Hk [Hrow Hc]%covering_Some. unfold covers in Hc. apply andb_prop in Hc as [Hsub Hsc]. rewrite forallb_forall in Hsub.
  assert (Hin : forall kind, kind ∈ kinds k -> kind ∈ kinds (rkey row)).
  { intros kind Hkd. apply (bool_decide_eq_true_1 (kind ∈ kinds (rkey row))). apply Hsub. by apply list_elem_of_In. }
  apply elem_of_app in Hrow as [Hrow|Hrow].
  - unfold score_rows in Hrow. apply elem_of_lookup_imap in Hrow as (i & m & -> & Hm).
    cbn [rkey relay] in *. assert (Hm' : m ∈ PUBLISHED_SCORE_METRICS) by (eapply list_elem_of_lookup_2; exact Hm).
    destruct (metric_key_fields m Hm') as [E1 E2]. rewrite E1 in Hin. rewrite E2 in Hsc. split; [intros x Hx; by apply Hin|]. split; [done|].
    exists m. split; [done|]. by apply bool_decide_eq_true in Hsc.
  - exfalso. specialize (Hin _ Hk). apply elem_of_cons in Hrow as [->|Hrow]; [vm_compute in Hin; set_solver|].
    unfold dictionary_rows in Hrow. destruct (String.eqb dictionary_relay ""); [set_solver|].
    repeat (apply elem_of_cons in Hrow as [->|Hrow]; [vm_compute in Hin; set_solver|]). set_solver.
Qed.

Lemma today_metric m : m ∈ PUBLISHED_SCORE_METRICS -> exists row, covering today (metric_key m) = Some row /\ relay row = ta.
Proof.
  unfold today, dictionary_rows. revert m.
  destruct (String.eqb dictionary_relay ""); apply published_cases; eexists; (split; [reflexivity|reflexivity]).
Qed.

Lemma today_broad k : k ∈ [score_key; family_key; star_key] -> covering today k = None.
Proof.
  unfold today, dictionary_rows. intros Hk. destruct (String.eqb dictionary_relay "");
    repeat (apply elem_of_cons in Hk as [->|Hk]; [reflexivity|]); set_solver.
Qed.

Lemma today_family m : m ∈ PUBLISHED_SCORE_METRICS -> covering today (family_metric_key m) = None.
Proof. unfold today, dictionary_rows. revert m. destruct (String.eqb dictionary_relay ""); apply published_cases; reflexivity. Qed.

Lemma today_meets k : k ∈ [score_key; family_key; star_key] -> score_key ∈ meets_of today k.
Proof.
  unfold today, dictionary_rows. intros Hk. destruct (String.eqb dictionary_relay "");
    repeat (apply elem_of_cons in Hk as [->|Hk]; [apply (bool_decide_eq_true_1 (score_key ∈ _)); vm_compute; reflexivity|]); set_solver.
Qed.

Lemma today_family_meets m : m ∈ PUBLISHED_SCORE_METRICS -> meets_of today (family_metric_key m) = [metric_key m].
Proof. unfold today, dictionary_rows. revert m. destruct (String.eqb dictionary_relay ""); apply published_cases; vm_compute; reflexivity. Qed.

Lemma metric_live m scores : m ∈ PUBLISHED_SCORE_METRICS -> ustatus scores = UpLive ->
  evaluate_live (metric_probe m) today scores = {| live := true; lrelay := Some ta; reason := None; landed := None |}.
Proof.
  intros Hm Hs. destruct scores as [st at_]. simpl in Hs. subst st. revert m Hm. unfold today, dictionary_rows.
  destruct (String.eqb dictionary_relay ""); apply published_cases; reflexivity.
Qed.

Lemma only_metrics_live p offer scores : live (evaluate_live p offer scores) = true ->
  ustatus scores = UpLive /\ exists m, m ∈ PUBLISHED_SCORE_METRICS /\ p = metric_probe m.
Proof.
  unfold evaluate_live. destruct (answer offer p) as [row|]; [|done]. destruct p as [kd sc]. cbn [pscope pkind].
  destruct sc as [|m| | |]; try done; destruct (is_score_kind kd); try done;
    try (by destruct (is_list_kind kd)); destruct (Z.eqb_spec kd SCORE_KIND) as [->|]; try done.
  simpl. case_bool_decide as Hm; [|done]. simpl. case_bool_decide as Hs; [|done]. intros _. split; [done|]. by exists m.
Qed.

Lemma parse_metric m : m ∈ PUBLISHED_SCORE_METRICS -> parse_key_text ("30382:" ++ m) = Some (metric_key m).
Proof. revert m. apply published_cases; vm_compute; reflexivity. Qed.

(** ** The entries chosen *)

Section exact.
Context (groups : list Group) (assistant : string) (scores : ScoresUpkeep).
Hypothesis groups_fine : groups_ok groups.
Abbreviation who := (py_lower assistant).
Abbreviation probes := (build_probes (gkey <$> groups)).
Abbreviation duties := (duties_of groups assistant probes).
Abbreviation table := (live_of_probes probes today scores).
Abbreviation try := (try_key duties table today).

(** The Score [m] is a duty of the Assistant's. *)
Definition score_duty (m : string) : Prop :=
  m ∈ PUBLISHED_SCORE_METRICS /\ duty (duty_of groups who (metric_probe m)) = true.

Lemma metric_probed m : m ∈ PUBLISHED_SCORE_METRICS -> metric_probe m ∈ probes.
Proof.
  intros Hm. apply build_probes_elem. left. exists SCORE_KIND. split; [unfold SCORE_KINDS, SCORE_KIND; set_solver|].
  unfold score_probes. apply elem_of_app. left. apply list_elem_of_fmap. exists m. split; [done|]. apply metrics_for_elem. by left.
Qed.

Lemma live_at_today p r : p ∈ probes -> live_at table p r = true ->
  live (evaluate_live p today scores) = true /\ lrelay (evaluate_live p today scores) = Some r.
Proof.
  intros Hp. unfold live_at. rewrite find_live_probes by done. by intros [H1 H2%bool_decide_eq_true]%andb_prop.
Qed.

(** Only Scores that are duties and live are ever chosen. *)
Definition scores_only (chosen : list entry) : Prop :=
  forall e, e ∈ chosen -> ustatus scores = UpLive /\ exists m, score_duty m /\ e = (metric_key m, ta).

Lemma matches_metric k m : matches k (metric_probe m) = true -> SCORE_KIND ∈ kinds k /\ (scope k = ScopeAll \/ scope k = ScopeMetric m).
Proof.
  unfold matches. cbn [pkind pscope metric_probe]. intros [H1%bool_decide_eq_true H2]%andb_prop. split; [done|].
  destruct (scope k); auto; apply bool_decide_eq_true in H2; try done. right. congruence.
Qed.

Lemma scores_only_try k chosen : normal k -> scores_only chosen -> scores_only (try (Some k) chosen).2.
Proof.
  intros Hk Hc. destruct (try_key_cases duties table today k chosen) as [->|(row & _ & Hcov & Hv & ->)]; [done|]. simpl.
  intros e [He|He]%elem_of_app; [by apply Hc|]. apply list_elem_of_singleton in He as ->.
  unfold valid in Hv. apply andb_prop in Hv as [Hall Hsome]. destruct (base.filter _ _) as [|d l] eqn:Ef; [done|].
  assert (Hd : d ∈ base.filter (fun d => would_win chosen k d = true) duties) by (rewrite Ef; set_solver).
  apply list_elem_of_filter in Hd as [Hw Hd]. apply duties_elem in Hd as (p & Hp & ->).
  unfold would_win in Hw. apply andb_prop in Hw as [[Hduty Hm]%andb_prop _]. cbn [dprobe duty_of] in *.
  cbn [forallb] in Hall. apply andb_prop in Hall as [Hlive _].
  apply (live_at_today p) in Hlive as [Hlive _]; [|done]. destruct (only_metrics_live _ _ _ Hlive) as (Hs & m & Hm1 & ->).
  split; [done|]. apply matches_metric in Hm as [Hkind Hsc].
  destruct (today_covers k row Hkind Hcov) as (Hsub & Hrel & m' & Hm' & Hsc'). destruct Hsc as [Hsc|Hsc]; [congruence|].
  exists m. split; [done|]. f_equal; [|done]. destruct (score_metric k m Hk Hkind Hsc) as [->|Hf]; [done|]. exfalso.
  assert (Hin : 30380 ∈ kinds k) by (rewrite Hf; vm_compute; set_solver). apply Hsub in Hin. vm_compute in Hin. set_solver.
Qed.

(** ** A live Score that is a duty is chosen *)

Lemma has_app chosen l n : has chosen n = true -> has (chosen ++ l)%list n = true.
Proof. rewrite !has_elem, fmap_app. set_solver. Qed.

Lemma has_try k chosen n : has chosen n = true -> has (try (Some k) chosen).2 n = true.
Proof. intros Hh. destruct (try_key_cases duties table today k chosen) as [->|(row & _ & _ & _ & ->)]; [done|]. by apply has_app. Qed.

Section one.
Context (m : string).
Hypothesis is_duty : score_duty m.
Hypothesis kept_up : ustatus scores = UpLive.
Abbreviation done_ := (fun chosen => has chosen (norm (metric_key m)) = true).

Lemma try_metric_done chosen : scores_only chosen -> done_ (try (Some (metric_key m)) chosen).2.
Proof.
  intros Hc. destruct is_duty as [Hm Hd]. unfold try_key. destruct (has chosen (norm (metric_key m))) eqn:Hh; [done|].
  destruct (today_metric m Hm) as (row & -> & Hrel). rewrite Hrel.
  destruct (metric_key_fields m Hm) as [Ek Es].
  assert (Hmatch : matches (metric_key m) (metric_probe m) = true).
  { unfold matches. rewrite Ek, Es. cbn [pkind pscope metric_probe]. by rewrite !bool_decide_eq_true_2 by set_solver. }
  assert (Hv : valid duties table chosen (metric_key m) ta = true); [|rewrite Hv; simpl; apply has_elem; rewrite fmap_app; set_solver].
  unfold valid. apply andb_true_intro. split.
  - apply forallb_forall. intros d Hin. apply list_elem_of_In, list_elem_of_filter in Hin as [Hw Hin].
    apply duties_elem in Hin as (p & Hp & ->). cbn [dprobe duty_of]. unfold would_win in Hw.
    apply andb_prop in Hw as [[_ Hmp]%andb_prop _]. cbn [dprobe duty_of] in Hmp. unfold matches in Hmp. rewrite Ek, Es in Hmp.
    apply andb_prop in Hmp as [H1%bool_decide_eq_true H2%bool_decide_eq_true]. apply list_elem_of_singleton in H1.
    assert (p = metric_probe m) as -> by (destruct p; unfold metric_probe; simpl in *; congruence).
    unfold live_at. rewrite find_live_probes by (by apply metric_probed). rewrite metric_live by done. simpl.
    by apply bool_decide_eq_true.
  - apply negb_true_iff, bool_decide_eq_false. intros E.
    assert (Hin : duty_of groups who (metric_probe m) ∈ base.filter (fun d => would_win chosen (metric_key m) d = true) duties).
    { apply list_elem_of_filter. split; [|apply duties_elem; exists (metric_probe m); split; [by apply metric_probed|done]].
      unfold would_win. rewrite Hd. cbn [dprobe duty_of]. rewrite Hmatch. simpl. apply bool_decide_eq_true.
      rewrite winner_snoc. unfold better. change (id (metric_key m)) with (metric_key m). rewrite Hmatch. cbn [negb].
      assert (winner_of chosen.*1 (metric_probe m) id = None) as ->; [|done]. apply winner_None.
      intros k (e & -> & He)%list_elem_of_fmap. destruct (Hc e He) as (_ & m' & [Hm' _] & ->). cbn [fst id].
      apply not_true_iff_false. intros Hx. apply matches_metric in Hx as [_ Hx]. destruct (metric_key_fields m' Hm') as [_ E2]. unfold id in Hx. rewrite E2 in Hx.
      assert (m' = m) as -> by (destruct Hx; congruence). apply not_true_iff_false in Hh. apply Hh, has_elem, list_elem_of_fmap. by exists (metric_key m, ta). }
    rewrite E in Hin. set_solver.
Qed.

(** The rules, for [done_] and for [scores_only] together. *)
Definition pending (chosen : list entry) : Prop := scores_only chosen /\ done_ chosen.

Lemma pending_try k chosen : normal k -> pending chosen -> pending (try (Some k) chosen).2.
Proof. intros Hk [H1 H2]. split; [by apply scores_only_try|by apply has_try]. Qed.

Lemma meets_fold k l1 meet l2 chosen : (forall x, x ∈ (l1 ++ meet :: l2)%list -> normal x) -> scores_only chosen ->
  (forall c, scores_only c -> done_ (try_meet duties table today k c meet)) ->
  done_ (foldl (try_meet duties table today k) chosen (l1 ++ meet :: l2)%list).
Proof.
  intros Hn Hc Hmeet. rewrite foldl_app. cbn [foldl].
  assert (H1 : scores_only (foldl (try_meet duties table today k) chosen l1)).
  { clear Hmeet. revert chosen Hc. induction l1 as [|x l1 IH]; intros c Hc; simpl; [done|]. apply IH; [set_solver|].
    apply (try_meet_rule _ _ _ scores_only); [apply scores_only_try|apply Hn; set_solver|done]. }
  generalize dependent (foldl (try_meet duties table today k) chosen l1). intros c H1.
  assert (H2 : pending (try_meet duties table today k c meet)).
  { split; [|by apply Hmeet]. apply (try_meet_rule _ _ _ scores_only); [apply scores_only_try|apply Hn; set_solver|done]. }
  generalize dependent (try_meet duties table today k c meet). clear Hmeet. intros c2 H2. revert c2 H2.
  induction l2 as [|x l2 IH]; intros c2 H2; simpl; [apply H2|]. apply IH; [set_solver|].
  apply (try_meet_rule _ _ _ pending); [apply pending_try|apply Hn; set_solver|done].
Qed.

Lemma meets_done k meet chosen : meet ∈ meets_of today k -> scores_only chosen ->
  (forall c, scores_only c -> done_ (try_meet duties table today k c meet)) ->
  done_ (foldl (try_meet duties table today k) chosen (most_specific_first (meets_of today k))).
Proof.
  intros Hin Hc Hmeet. assert (Hin' : meet ∈ most_specific_first (meets_of today k)) by (unfold most_specific_first; by rewrite stable_sort_elem).
  assert (Hn : forall x, x ∈ most_specific_first (meets_of today k) -> normal x)
    by (intros x Hx; unfold most_specific_first in Hx; rewrite stable_sort_elem in Hx; by apply meets_normal in Hx).
  apply list_elem_of_split in Hin' as (l1 & l2 & E). rewrite E in *. by apply meets_fold.
Qed.

Lemma broad_refused k chosen : k ∈ [score_key; family_key; star_key] -> try (Some k) chosen = (false, chosen).
Proof. intros Hk. unfold try_key. rewrite (today_broad k Hk). by destruct (has _ _). Qed.

(** What is chosen is spelt [30382:<metric>]. *)
Lemma not_chosen k chosen : scores_only chosen -> (forall m', m' ∈ PUBLISHED_SCORE_METRICS -> norm (metric_key m') <> norm k) ->
  has chosen (norm k) = false.
Proof.
  intros Hc Hne. apply not_true_iff_false. intros (e & En & He)%has_elem%list_elem_of_fmap.
  destruct (Hc e He) as (_ & m' & [Hm' _] & ->). by apply (Hne m' Hm').
Qed.

Lemma find_duty_probe p : p ∈ probes -> find_duty duties p = Some (duty_of groups who p).
Proof.
  unfold find_duty, duties_of. induction probes as [|q qs IH]; [set_solver|]. intros Hp. rewrite fmap_cons, filter_cons.
  cbn [dprobe duty_of]. destruct (decide (q = p)) as [->|]; [done|]. apply IH. set_solver.
Qed.

Section winner.
Context (w : Group).
Hypothesis won : winner_of groups (metric_probe m) gkey = Some w.

Lemma metrics_done chosen : scores_only chosen ->
  done_ (foldl (try_metric duties table today (gkey w)) chosen PUBLISHED_SCORE_METRICS).
Proof.
  intros Hc. assert (Hm : m ∈ PUBLISHED_SCORE_METRICS) by apply is_duty. apply list_elem_of_split in Hm as (l1 & l2 & ->).
  rewrite foldl_app. cbn [foldl].
  assert (H1 : scores_only (foldl (try_metric duties table today (gkey w)) chosen l1)).
  { revert chosen Hc. induction l1 as [|x l1 IH]; intros c Hc; simpl; [done|]. apply IH.
    apply (try_metric_rule _ _ _ scores_only); [apply scores_only_try|done]. }
  generalize dependent (foldl (try_metric duties table today (gkey w)) chosen l1). intros c H1.
  assert (H2 : pending (try_metric duties table today (gkey w) c m)).
  { split; [by apply (try_metric_rule _ _ _ scores_only); [apply scores_only_try|]|]. destruct is_duty as [Hm Hd].
    unfold try_metric. change {| pkind := SCORE_KIND; pscope := ScopeMetric m |} with (metric_probe m).
    rewrite find_duty_probe by (by apply metric_probed). rewrite Hd. cbn [dwinner duty_of]. rewrite won, String.eqb_refl. cbn [andb].
    change (pretty SCORE_KIND ++ ":" ++ m) with ("30382:" ++ m). rewrite parse_metric by done. by apply try_metric_done. }
  generalize dependent (try_metric duties table today (gkey w) c m). intros c2 H2. revert c2 H2.
  induction l2 as [|x l2 IH]; intros c2 H2; simpl; [apply H2|]. apply IH.
  apply (try_metric_rule _ _ _ pending); [apply pending_try|done].
Qed.

Lemma mine_done chosen : scores_only chosen -> done_ (try_mine duties table today chosen (gkey w)).
Proof.
  intros Hc. destruct (winner_Some _ _ _ _ won) as (Hw & Hmatch & _). assert (Hn : normal (gkey w)) by (by apply groups_fine).
  assert (Hm : m ∈ PUBLISHED_SCORE_METRICS) by apply is_duty.
  apply matches_metric in Hmatch as [Hkind [Hsc|Hsc]].
  - assert (Hk := score_all _ Hn Hkind Hsc). unfold try_mine. rewrite (not_chosen (gkey w) chosen); [|done|].
    2:{ clear -Hk. intros m' Hm'. revert m' Hm'. apply published_cases;
        repeat (apply elem_of_cons in Hk as [->|Hk]; [by vm_compute|]); set_solver. }
    rewrite (broad_refused _ _ Hk). apply (meets_done (gkey w) score_key); [by apply today_meets|done|].
    intros c H1. unfold try_meet. rewrite broad_refused by set_solver.
    replace (if String.eqb _ _ then (false, c) else (false, c)) with (false, c) by (by destruct (String.eqb _ _)).
    change (negb (bool_decide (kinds score_key = [SCORE_KIND])) || negb (bool_decide (scope score_key = ScopeAll))) with false.
    by apply metrics_done.
  - destruct (score_metric _ m Hn Hkind Hsc) as [E|E]; unfold try_mine; rewrite E.
    + destruct (has chosen (norm (metric_key m))) eqn:Hh; [done|]. pose proof (try_metric_done chosen Hc) as H1.
      pose proof (scores_only_try (metric_key m) chosen ltac:(by rewrite <- E) Hc) as H2.
      destruct (try (Some (metric_key m)) chosen) as [[] c1]; [done|]. cbn [snd] in *.
      assert (Hp : pending c1) by (by split). clear H1 H2 Hh Hc chosen.
      assert (Hns : forall x, x ∈ most_specific_first (meets_of today (metric_key m)) -> normal x)
        by (intros x Hx; unfold most_specific_first in Hx; rewrite stable_sort_elem in Hx; by apply meets_normal in Hx).
      revert c1 Hp. induction (most_specific_first _) as [|x l IH]; intros c Hp; simpl; [apply Hp|]. apply IH; [set_solver|].
      apply (try_meet_rule _ _ _ pending); [apply pending_try|apply Hns; set_solver|done].
    + rewrite (not_chosen (family_metric_key m) chosen); [|done|intros m' _ [=]].
      assert (try (Some (family_metric_key m)) chosen = (false, chosen)) as ->.
      { unfold try_key. rewrite (today_family m Hm). by destruct (has _ _). }
      apply (meets_done _ (metric_key m)); [rewrite today_family_meets by done; set_solver|done|]. intros c H1. unfold try_meet.
      assert (String.eqb (norm (metric_key m)) (norm (family_metric_key m)) = false) as -> by (by apply String.eqb_neq).
      pose proof (try_metric_done c H1) as H2. destruct (try (Some (metric_key m)) c) as [[] c1]; [done|]. cbn [snd] in H2.
      destruct (metric_key_fields m Hm) as [_ Es]. rewrite Es. by rewrite orb_true_r.
Qed.

Lemma choose_done : names who w = true -> done_ (choose duties table today (mine_of groups who)).
Proof.
  intros Hnm. destruct (winner_Some _ _ _ _ won) as (Hw & _ & _).
  assert (Hin : gkey w ∈ mine_of groups who).
  { unfold mine_of, most_specific_first. rewrite stable_sort_elem. by apply list_elem_of_fmap_2, list_elem_of_filter. }
  pose proof (mine_normal groups who groups_fine) as Hn. apply list_elem_of_split in Hin as (l1 & l2 & E). rewrite E in *.
  unfold choose. rewrite foldl_app. cbn [foldl].
  assert (H1 : scores_only (foldl (try_mine duties table today) [] l1))
    by (apply (choose_rule _ _ _ scores_only); [apply scores_only_try|set_solver|intros e He; set_solver]).
  apply (choose_rule _ _ _ pending); [apply pending_try|set_solver|]. split; [|by apply mine_done].
  apply (try_mine_rule _ _ _ scores_only); [apply scores_only_try|apply Hn; set_solver|done].
Qed.
End winner.
End one.
End exact.

(** C30: the Assistant's Treasure Map lists exactly its live Scores.  For every Map a
    reader may have published, well formed or not, and every state of the upkeep, the
    check under the offer the server makes today succeeds, and the self-entries are, each once, the keys
    [30382:<metric>] at the public address of the scores relay, for just those
    published metrics whose winning entry in the reader's Map names the Assistant, while the
    Scores are kept up to date; and nothing otherwise. *)
Theorem should_say_exact (event : option json) (assistant : string) (scores : ScoresUpkeep) :
  let groups := map_groups event in
  exists check, evaluate_self_map groups (offer_rows assistant) assistant scores = Ok check
  /\ NoDup (check_should_say check)
  /\ forall k r, (k, r) ∈ check_should_say check <->
       exists m, m ∈ PUBLISHED_SCORE_METRICS /\ k = "30382:" ++ m /\ r = ta /\ ustatus scores = UpLive
         /\ exists w, winner_of groups (metric_probe m) gkey = Some w /\ py_lower assistant ∈ providers w.
Proof.
  cbv zeta. set (groups := map_groups event). pose proof (map_groups_ok event) as Hok. fold groups in Hok.
  unfold evaluate_self_map. rewrite today_offer. eexists. split; [reflexivity|]. cbn [check_should_say].
  unfold build_should_say. change (most_specific_first _) with (mine_of groups (py_lower assistant)).
  set (chosen := choose _ _ _ _). pose proof (mine_normal groups (py_lower assistant) Hok) as Hn.
  assert (Hsound : scores_only groups assistant scores chosen).
  { apply (choose_rule _ _ _ (scores_only groups assistant scores)); [by apply scores_only_try|done|intros e He; set_solver]. }
  assert (Hnd : NoDup ((fun e => norm e.1) <$> chosen)) by (eapply sound_norms, choose_sound; done). split.
  - apply (NoDup_fmap_1 fst). rewrite <- list_fmap_compose. rewrite stable_sort_perm.
    rewrite (list_fmap_ext _ (fun e => norm e.1)); [done|]. by intros i [].
  - intros k r. rewrite list_elem_of_fmap. setoid_rewrite stable_sort_elem. split.
    + intros ([k' r'] & [= -> ->] & Hin). destruct (Hsound _ Hin) as (Hs & m & [Hm Hd] & [= -> ->]).
      exists m. split_and!; try done. cbn [duty duty_of] in Hd. destruct (winner_of groups (metric_probe m) gkey) as [w|]; [|done].
      exists w. split; [done|]. apply andb_prop in Hd as [Hd _]. by apply bool_decide_eq_true in Hd.
    + intros (m & Hm & -> & -> & Hs & w & Hw & Hp).
      assert (Hnm : names (py_lower assistant) w = true) by (by apply bool_decide_eq_true).
      assert (Hd : score_duty groups assistant m).
      { split; [done|]. cbn [duty duty_of]. rewrite Hw, Hnm. cbn [andb]. apply orb_true_intro. right.
        unfold in_supported_sets, metric_probe. cbn [pscope pkind]. rewrite Z.eqb_refl. by apply bool_decide_eq_true. }
      pose proof (choose_done groups assistant scores Hok m Hd Hs w Hw Hnm) as Hdone. fold chosen in Hdone.
      apply has_elem, list_elem_of_fmap in Hdone as (e & En & He). destruct (Hsound e He) as (_ & m' & [Hm' _] & ->).
      exists (metric_key m', ta). split; [|done]. f_equal. done.
Qed.
End today.

(** ** A reader and her Assistant *)

Section alice.
Definition alice_key : string := of_chars (replicate 64 "a"%char).
Definition other_key : string := of_chars (replicate 64 "b"%char).
Definition map_tag (k p : string) : json := JList [JStr k; JStr p; JStr "wss://hint"].
(** All of the Scores to the Assistant but for [hops], and everything else to it as well. *)
Definition alice_map : option json :=
  Some (JObj [("kind", JInt 10040);
              ("tags", JList [map_tag "*" alice_key; map_tag "30382:hops:" other_key; map_tag "3038x:rank" other_key;
                              map_tag "39998:" alice_key; JStr "noise"])]).

#[local] Instance small_settings : DutyEnv := {|
  nostr_upload_ta_events_relay_public_url := "wss://scores.example/";
  nostr_upload_ta_events_relay := "ws://strfry:7777";
  trusted_list_relay := "";
  dictionary_relay := "wss://dict.example";
  host_ok := fun _ => true;
|}.
Definition kept_up_to_date : ScoresUpkeep := {| ustatus := UpLive; last_landed_at := None |}.

Lemma should_say_exact_witness :
  exists check, evaluate_self_map (map_groups alice_map) (offer_rows alice_key) alice_key kept_up_to_date = Ok check
  /\ ("30382:followers", "wss://scores.example/") ∈ check_should_say check
  /\ ("30382:hops", "wss://scores.example/") ∉ check_should_say check.
Proof.
  assert (Ht : nostr_upload_ta_events_relay_public_url <> "") by (by vm_compute).
  destruct (should_say_exact Ht alice_map alice_key kept_up_to_date) as (check & E & _ & Hiff).
  assert (Hc : option_map gkey (winner_of (map_groups alice_map) (metric_probe "followers") gkey) = Some star_key
    /\ option_map (names alice_key) (winner_of (map_groups alice_map) (metric_probe "followers") gkey) = Some true
    /\ option_map (names alice_key) (winner_of (map_groups alice_map) (metric_probe "hops") gkey) = Some false) by (by vm_compute).
  destruct Hc as (_ & Hyes & Hno). exists check. split; [exact E|]. split.
  - apply Hiff. exists "followers". split_and!; try reflexivity; [set_solver|].
    destruct (winner_of _ (metric_probe "followers") gkey) as [w|]; [|discriminate Hyes]. exists w. split; [reflexivity|].
    injection Hyes as Hyes. by apply bool_decide_eq_true in Hyes.
  - intros Hin. apply Hiff in Hin as (m & _ & Em & _ & _ & w & Hw & Hp). assert (m = "hops") as -> by (symmetry; exact (append_inj_l "30382:" "hops" m Em)).
    rewrite Hw in Hno. injection Hno as Hno. by apply bool_decide_eq_false in Hno.
Defined.

Lemma claims_only_live_witness :
  let groups := map_groups alice_map in
  let probes := build_probes (gkey <$> groups) in
  let should := build_should_say groups alice_key (duties_of groups alice_key probes) (live_of_probes probes today kept_up_to_date) today in
  claim should (metric_probe "muters") = Some (metric_key "muters", "wss://scores.example/")
  /\ live (evaluate_live (metric_probe "muters") today kept_up_to_date) = true.
Proof.
  cbv zeta.
  assert (Hp : bool_decide (metric_probe "muters" ∈ build_probes (gkey <$> map_groups alice_map)) = true) by (by vm_compute).
  assert (Hd : duty (duty_of (map_groups alice_map) (py_lower alice_key) (metric_probe "muters")) = true) by (by vm_compute).
  assert (Hc : claim (build_should_say (map_groups alice_map) alice_key
      (duties_of (map_groups alice_map) alice_key (build_probes (gkey <$> map_groups alice_map)))
      (live_of_probes (build_probes (gkey <$> map_groups alice_map)) today kept_up_to_date) today) (metric_probe "muters")
    = Some (metric_key "muters", "wss://scores.example/")) by (by vm_compute).
  split; [exact Hc|].
  exact (proj1 (claims_only_live alice_map alice_key today kept_up_to_date (metric_probe "muters") (metric_key "muters")
    "wss://scores.example/" (bool_decide_eq_true_1 _ Hp) Hd Hc)).
Defined.

(** A metric nobody names falls under the rest of its kind, which the star wins. *)
Lemma probes_stand_for_all_witness :
  let p := metric_probe "influence" in
  region (gkey <$> map_groups alice_map) p = {| pkind := 30382; pscope := ScopeOther |}
  /\ winner_of (map_groups alice_map) p gkey
     = winner_of (map_groups alice_map) (region (gkey <$> map_groups alice_map) p) gkey.
Proof.
  cbv zeta. split; [by vm_compute|].
  exact (proj1 (probes_stand_for_all alice_map (metric_probe "influence") ltac:(intros u; discriminate))).
Defined.
End alice.
