(* ===== verification/TreasureMap.v ===== *)
(** * Publishing the Assistant's own events

    [src/app/services/assistant_publish.py] reads, signs, sends and reports;
    [duty_menu_service.py] publishes the Duty Menu and [self_map_service.py] checks
    and publishes the Assistant's Treasure Map, on [GET] and [POST].

    One request is given its [Answers]: what the relays send, what the database and
    Neo4j say, the clocks, and how the send goes, each of which may fail.  [Desk] is what
    a press changes: the choices stored, the presses under way in this process, and
    what was handed to relays. *)

From Stdlib Require Import Ascii String QArith.
From S2P Require Import Prelude Json Url Binary64 Atomic Tables NostrTags Tagging DutyMenu SelfMap.
From stdpp Require Import list.
Local Open Scope string_scope.
Local Open Scope Z_scope.

(** ** One relay's answer ([fetch_latest] of [designation_service.py]) *)

(** The frames received, [None] one that does not decode; [None] of the whole is a
    connection that fails.  A list without an end is a deadline that passes. *)
Abbreviation Fetch := (option (list (option json))).

Definition ConnectionError : exn := OtherException "ConnectionError".
Definition TimeoutError : exn := OtherException "TimeoutError".
Definition RuntimeError : exn := OtherException "RuntimeError".

(** [a > b]. *)
Definition py_gt (a b : json) : res exn bool :=
  let num v := match v with
               | JInt z => Some (Fin (inject_Z z))
               | JBool x => Some (Fin (inject_Z (if x then 1 else 0)))
               | JFloat r => py_float r
               | _ => None
               end in
  match a, b with
  | JStr s, JStr t => Ok (str_lt t s)
  | _, _ =>
      match num a, num b with
      | Some (Fin x), Some (Fin y) => Ok (negb (Qle_bool x y))
      | Some x, Some y => Ok (match x, y with
                              | PInf, Fin _ | PInf, NInf | Fin _, NInf => true
                              | _, _ => false
                              end)
      | _, _ => Raise TypeError
      end
  end.

Fixpoint latest_of (sub_id : string) (latest : option json) (frames : list (option json)) : res exn (option json) :=
  match frames with
  | [] => Raise TimeoutError
  | None :: _ => Raise ValueError
  | Some (JList (m0 :: m1 :: rest)) :: fs =>
      if negb (json_is_str m1 sub_id) then latest_of sub_id latest fs
      else if json_is_str m0 "EVENT" && negb (bool_decide (length rest = 0%nat)) then
        match rest with
        | event :: _ =>
            newer ← match latest with
                    | None => mret true
                    | Some l => a ← py_get_or "created_at" (JInt 0) event; b ← py_get_or "created_at" (JInt 0) l; py_gt a b
                    end;
            latest_of sub_id (if newer : bool then Some event else latest) fs
        | [] => latest_of sub_id latest fs
        end
      else if json_is_str m0 "EOSE" then mret latest
      else if json_is_str m0 "CLOSED" then Raise RuntimeError
      else latest_of sub_id latest fs
  | _ :: fs => latest_of sub_id latest fs
  end.

Definition fetch_latest (f : Fetch) : res exn (option json) :=
  match f with None => Raise ConnectionError | Some frames => latest_of "latest" None frames end.

(** The keys an Observer's latest kind 10040 designates; none when it can't be read. *)
Definition fetch_designated_pubkeys (f : Fetch) (observer : string) : res exn (list string) :=
  match fetch_latest f with
  | Raise _ | Ok None => mret []
  | Ok (Some event) =>
      tags ← py_get "tags" event;
      l ← py_iter (py_or tags (JList []));
      parse_designated_pubkeys (base.filter (fun t => match t with JList _ => true | _ => false end = true) l) observer
  end.

(** ** Settings, the signer and one request's answers *)

Definition KIND_0_PUBLISH_RELAYS : list string :=
  ["wss://relay.damus.io"; "wss://relay.primal.net"; "wss://nos.lol"; "wss://relay.nostr.band"].
Definition PERIOD_HOURS : Z := 2.
Definition MAP : string := "Treasure Map".
Definition MENU : string := "Duty Menu".

(** [sign who kind tags created_at] is the signed event's JSON and whether it verifies,
    [None] when building or signing raises; [verified] is [Event.from_json(e).verify()],
    false when that raises. *)
Class PublishEnv := {
  publish_duty :: DutyEnv;
  periodic_graperank_pubkey : string;
  scheduler_enabled : bool;
  sign : string -> Z -> list (list string) -> Z -> option (json * bool);
  verified : json -> bool;
}.

Record Row := {
  row_pubkey : string;
  row_assistant : string;
  row_has_policy : bool;
  last_time_published_graperank : option Z;
}.

Record Policy := { enabled : bool; schedule_interval_seconds : Z }.

Inductive SendOutcome := SendTimedOut | SendRaised | SendDone (success : list string) (failed : list (string * string)).
Inductive SaveOutcome := Saved | NotSaved (e : exn) | SavedUnanswered (e : exn).

Record Answers := {
  a_row : res exn Row;
  a_reader : Fetch;
  a_follows : res exn bool;
  a_default : res exn (option Policy);
  a_own : res exn (option Policy);
  a_versions : string -> Fetch;
  a_utc_now : Z;
  a_time : Z;
  a_connected : res exn (list string);
  a_sent : SendOutcome;
  a_save : SaveOutcome;
}.

Record Desk := {
  choices : gmap string bool;
  pressing : gset string;
  handed_over : list (list string * json);
}.

Record RelayResult := { rr_url : string; rr_ok : bool; rr_message : option string }.

Section publish.
Context `{PublishEnv} (a : Answers).

Definition assistant_relay_list : list string :=
  foldl (fun relays r => if String.eqb r "" || bool_decide (r ∈ relays) then relays else (relays ++ [r])%list) []
    (nostr_upload_ta_events_relay_public_url :: trusted_list_relay :: KIND_0_PUBLISH_RELAYS).

Definition is_own (event : json) (author : string) (kind : Z) : bool :=
  match event with
  | JObj d => json_is_int (dget "kind" d) kind && String.eqb (py_lower (str_or_empty (dget "pubkey" d))) (py_lower author)
              && verified event
  | _ => false
  end.

(** What each target that answers holds, by the key of where it is read. *)
Definition held_at (own : json -> bool) (held : list (string * option json)) (t : RelayTarget) : list (string * option json) :=
  match fetch_latest (a_versions a (rt_write_url t)) with
  | Raise _ => held
  | Ok answer => dict_set (relay_key (rt_write_url t)) (match answer with Some e => if own e then Some e else None | None => None end) held
  end.

Definition read_newest (targets : list RelayTarget) (own : json -> bool) : res exn (list (string * option json)) :=
  match foldl (held_at own) [] targets with
  | [] => Raise (HTTPException 502)
  | held => Ok held
  end.

(** [signed.get("tags") == tags]. *)
Fixpoint json_texts (v : list json) (l : list string) : bool :=
  match v, l with
  | [], [] => true
  | JStr s :: v, t :: l => String.eqb s t && json_texts v l
  | _, _ => false
  end.
Fixpoint json_tags (v : list json) (tags : list (list string)) : bool :=
  match v, tags with
  | [], [] => true
  | JList x :: v, t :: tags => json_texts x t && json_tags v tags
  | _, _ => false
  end.
Definition carries_tags (event : json) (tags : list (list string)) : bool :=
  match event with JObj d => match dget "tags" d with JList v => json_tags v tags | _ => false end | _ => false end.

Definition sign_checked (who : string) (kind : Z) (tags : list (list string)) (created_at : Z) (check : json -> res exn bool)
  : res exn json :=
  match sign who kind (tags ++ [CLIENT_TAG])%list created_at with
  | Some (signed, verifies) =>
      match check signed with
      | Ok passes => if verifies && carries_tags signed (tags ++ [CLIENT_TAG])%list && passes then Ok signed else Raise (HTTPException 500)
      | Raise _ => Raise (HTTPException 500)
      end
  | None => Raise (HTTPException 500)
  end.

Definition NOT_REACHED : string := "couldn't connect".

(** The keys that took the event, and why each other did not. *)
Definition send_event (urls : list string) : list string * list (string * string) :=
  match urls with
  | [] => ([], [])
  | _ =>
      match a_sent a with
      | SendTimedOut => ([], (fun u => (relay_key u, "timeout")) <$> urls)
      | SendRaised => ([], (fun u => (relay_key u, "not sent")) <$> urls)
      | SendDone success failed => (relay_key <$> success, (fun '(u, why) => (relay_key u, why)) <$> failed)
      end
  end.

(** The last reason a dict comprehension leaves. *)
Definition reason_of (refused : list (string * string)) (key : string) : string :=
  or_text (default "" (last ((base.filter (fun e => e.1 = key) refused).*2))) "not sent".

Definition relay_report (targets : list RelayTarget) (connected accepted : list string) (refused : list (string * string))
  : list RelayResult :=
  (fun t =>
     let key := relay_key (rt_write_url t) in
     if bool_decide (key ∈ accepted) then {| rr_url := rt_url t; rr_ok := true; rr_message := None |}
     else {| rr_url := rt_url t; rr_ok := false;
             rr_message := Some (if bool_decide (key ∈ connected) then reason_of refused key else NOT_REACHED) |}) <$> targets.

Definition lift {A} (r : res exn A) : TX Desk A := fun s => (r, s).

Definition hand_over (urls : list string) (event : json) : TX Desk unit :=
  writes (fun s => {| choices := choices s; pressing := pressing s; handed_over := handed_over s ++ [(urls, event)] |}).

Definition send_to (event : json) (targets : list RelayTarget) : TX Desk (list RelayResult) :=
  success ← lift (a_connected a);
  let connected := relay_key <$> success in
  let urls := base.filter (fun u => relay_key u ∈ connected) (rt_write_url <$> targets) in
  _ ← match urls with [] => mret tt | _ => hand_over urls event end;
  let '(accepted, refused) := send_event urls in
  mret (relay_report targets connected accepted refused).

Definition reached_some (report : list RelayResult) : res exn (list RelayResult) :=
  if existsb rr_ok report then Ok report else Raise (HTTPException 502).

(** ** The Duty Menu ([duty_menu_service.py]) *)

(** [isinstance(t, list) and t[:2] == ["d", DUTY_MENU_D]]. *)
Definition is_menu_d (t : json) : bool :=
  match t with JList (t0 :: t1 :: _) => json_is_str t0 "d" && json_is_str t1 DUTY_MENU_D | _ => false end.

Definition is_own_menu (who : string) (event : json) : bool :=
  is_own event who DUTY_MENU_KIND
  && match event with JObj d => match py_or (dget "tags" d) (JList []) with JList l => existsb is_menu_d l | _ => false end | _ => false end.

Definition read_assistant_duty_menu_offer : res exn (string * list (string * string)) :=
  row ← a_row a; Ok (row_assistant row, offer_rows (row_assistant row)).

Definition publish_assistant_duty_menu : TX Desk (json * list RelayResult) :=
  row ← lift (a_row a);
  let who := row_assistant row in
  let rows := offer_rows who in
  let known := publish_targets [rows.*2; assistant_relay_list; NOUS_MENU_RELAYS] in
  held ← lift (read_newest known (is_own_menu who));
  let earlier := omap snd held in
  relays ← lift (earlier_relays earlier);
  let targets := publish_targets [rows.*2; assistant_relay_list; relays; NOUS_MENU_RELAYS] in
  created_at ← lift (menu_created_at (a_time a) earlier);
  signed ← lift (sign_checked who DUTY_MENU_KIND (build_menu_tags who rows) created_at (fun s => is_duty_menu (Some s) who));
  report ← send_to signed targets;
  report ← lift (reached_some report);
  mret (signed, report).

(** ** The Treasure Map ([self_map_service.py]) *)

(** The policy that applies: the caller's own if it exists, else the default. *)
Definition upkeep_interval (row : Row) : res exn (option Z) :=
  let house := py_strip periodic_graperank_pubkey in
  if negb (String.eqb house "") && String.eqb (row_pubkey row) house then Ok (Some (PERIOD_HOURS * 3600))
  else if negb scheduler_enabled then Ok None
  else
    default_ ← a_default a;
    match default_ with
    | None => Ok None
    | Some d =>
        own ← (if row_has_policy row then a_own a else Ok None);
        let policy := default d own in
        if negb (enabled policy) then Ok None
        else match a_follows a with
        | Raise _ => Raise (HTTPException 502)
        | Ok grapevine => Ok (if grapevine : bool then Some (schedule_interval_seconds policy) else None)
        end
    end.

(** [follows]: whether the follow count was asked for. *)
Definition read_scores_upkeep (row : Row) (follows : bool) : res exn ScoresUpkeep :=
  if negb follows then Ok {| ustatus := NotScheduled; last_landed_at := None |}
  else interval ← upkeep_interval row; Ok (scores_upkeep (last_time_published_graperank row) interval (a_utc_now a)).

Definition read_reader_map (user_pubkey : string) : res exn (option json) :=
  event ← fetch_latest (a_reader a);
  Ok (match event with
      | Some (JObj d) =>
          if json_is_int (dget "kind" d) SELF_MAP_KIND
             && String.eqb (py_lower (str_or_empty (dget "pubkey" d))) (py_lower user_pubkey)
          then event else None
      | _ => None
      end).

Definition map_relays (check : SelfMapCheck) (map_event : option json) (who : string) : list string :=
  self_map_relays assistant_relay_list (check_should_say check) (self_entry_relays [map_event] who).

Definition listed (check : SelfMapCheck) (on : bool) : list (string * string) := if on then check_should_say check else [].
Definition writer_relays (es : list (string * string)) : list string := self_map_relays assistant_relay_list es [].

(** The ids of verified events are text. *)
Definition version_id (e : option json) : option string :=
  match e with Some (JObj d) => match dget "id" d with JStr s => Some s | _ => None end | _ => None end.

Definition missing (targets : list RelayTarget) (held : list (string * option json)) (latest : json) : list RelayTarget :=
  base.filter (fun t => match dict_get (relay_key (rt_write_url t)) held with
                        | Some e => negb (bool_decide (version_id e = version_id (Some latest)))
                        | None => false
                        end = true) targets.

Definition save_choice (user_pubkey : string) (on : bool) : TX Desk unit := fun s =>
  let s' := {| choices := <[user_pubkey := on]> (choices s); pressing := pressing s; handed_over := handed_over s |} in
  match a_save a with
  | Saved => (Ok tt, s')
  | NotSaved e => (Raise e, s)
  | SavedUnanswered e => (Raise e, s')
  end.

(** The check both requests share: the reader's Map, the upkeep, the engine. *)
Definition checked (row : Row) (user_pubkey : string) (wanted : bool) : res exn (option json * SelfMapCheck) :=
  let who := row_assistant row in
  map_event ← (if wanted
               then match read_reader_map user_pubkey with Ok e => Ok e | Raise _ => Raise (HTTPException 502) end
               else Ok None);
  let groups := map_groups map_event in
  if too_big_to_check groups then Raise (HTTPException 422)
  else
    upkeep ← read_scores_upkeep row (wanted && asks_for_scores groups who);
    check ← evaluate_self_map groups (offer_rows who) who upkeep;
    Ok (map_event, check).

Record TreasureMapCheck := {
  tm_assistant : string;
  tm_on : bool;
  tm_duties : list DutyLine;
  tm_should_say : list (string * string);
  tm_relays : list string;
  tm_writer_relays : list string;
}.

(** The choice is a column of the row read, false until the first press stores one. *)
Definition read_assistant_treasure_map (user_pubkey : string) : TX Desk TreasureMapCheck :=
  row ← lift (a_row a);
  on ← reads (fun s => default false (choices s !! user_pubkey));
  let who := row_assistant row in
  mc ← lift (checked row user_pubkey true);
  let '(map_event, check) := (mc : option json * SelfMapCheck) in
  mret {| tm_assistant := who; tm_on := on; tm_duties := check_duties check; tm_should_say := check_should_say check;
          tm_relays := map_relays check map_event who;
          tm_writer_relays := rt_url <$> publish_targets [writer_relays (listed check on)] |}.

Definition one_press_at_a_time {A} (who : string) (body : TX Desk A) : TX Desk A := fun s =>
  if bool_decide (who ∈ pressing s) then (Raise (HTTPException 409), s)
  else
    let '(r, s') := body {| choices := choices s; pressing := {[who]} ∪ pressing s; handed_over := handed_over s |} in
    (r, {| choices := choices s'; pressing := pressing s' ∖ {[who]}; handed_over := handed_over s' |}).

Record PublishedMap := { pm_on : bool; pm_published : bool; pm_event : option json; pm_relays : list RelayResult }.

(** The press, from the self-entries to publish on. *)
Definition press (user_pubkey who : string) (on : bool) (target : list (string * string)) : TX Desk PublishedMap :=
  let relays := writer_relays target in
  let read := publish_targets [relays] in
  held ← lift (read_newest read (fun e => is_own e who SELF_MAP_KIND));
  let versions := omap snd held in
  latest ← lift (newest versions);
  if nothing_to_change latest who target then
    match (match latest with Some l => missing read held l | None => [] end), latest with
    | (_ :: _) as stale, Some l =>
        report ← send_to l stale;
        _ ← save_choice user_pubkey on;
        mret {| pm_on := on; pm_published := true; pm_event := Some l; pm_relays := report |}
    | _, _ =>
        _ ← save_choice user_pubkey on;
        mret {| pm_on := on; pm_published := false; pm_event := None; pm_relays := [] |}
    end
  else
    created_at ← lift (menu_created_at (a_time a) versions);
    signed ← lift (sign_checked who SELF_MAP_KIND (self_map_tags who target) created_at
                     (fun s => Ok (same_self_entries (read_self_entries (Some s) who) target)));
    let targets := publish_targets [relays; self_entry_relays (Some <$> versions) who] in
    report ← send_to signed targets;
    report ← lift (reached_some report);
    _ ← save_choice user_pubkey on;
    mret {| pm_on := on; pm_published := true; pm_event := Some signed; pm_relays := report |}.

Definition publish_assistant_treasure_map (user_pubkey : string) (on : bool) : TX Desk PublishedMap :=
  row ← lift (a_row a);
  let who := row_assistant row in
  one_press_at_a_time who (
    mc ← lift (checked row user_pubkey on);
    let '(_, check) := (mc : option json * SelfMapCheck) in
    press user_pubkey who on (listed check on)).
End publish.
