(* ===== verification/TreasureMapProps.v ===== *)
(** * What a press does

    [targets_once]: the relays an event is sent to, each once.  [menu_is_menu] and
    [entries_read_back]: what the server signs passes its own check.
    [press_says_the_check] holds of every press, whatever fails around it, and
    [press_settles] that a press repeated once the relays that answer have its version sends nothing. *)

From Stdlib Require Import Ascii String QArith.
From S2P Require Import Prelude Json Url Binary64 Atomic Tables NostrTags Tagging DutyMenu SelfMap SelfKeys SelfMapProps TreasureMap.
From stdpp Require Import list.
Local Open Scope string_scope.
Local Open Scope Z_scope.

(** ** Targets *)

Section targets.
Context `{DutyEnv}.

Record targets_ok (acc : list RelayTarget * gset string) : Prop := {
  targets_seen : forall k, k ∈ acc.2 <-> exists t, t ∈ acc.1 /\ k ∈ target_keys t;
  targets_apart : forall i j t u k, acc.1 !! i = Some t -> acc.1 !! j = Some u -> k ∈ target_keys t -> k ∈ target_keys u -> i = j;
}.

Lemma add_target_ok acc url : targets_ok acc ->
  targets_ok (add_target acc url) /\ acc.1 `prefix_of` (add_target acc url).1
  /\ (url <> "" -> exists t, t ∈ (add_target acc url).1 /\ exists k, k ∈ target_keys (target_of url) /\ k ∈ target_keys t).
Proof.
  destruct acc as [targets seen]. intros [Hs Ha]. cbn [fst snd] in *. unfold add_target.
  destruct (String.eqb_spec url "") as [->|Hne]; [by split_and!|].
  destruct (existsb _ _) eqn:Ex.
  - split_and!; [by split|done|]. intros _. apply existsb_exists in Ex as (k & Hk & Hin%bool_decide_eq_true).
    apply Hs in Hin as (t & Ht & Hkt). exists t. split; [done|]. exists k. split; [by apply list_elem_of_In|done].
  - assert (Hnew : forall k, k ∈ target_keys (target_of url) -> k ∉ seen).
    { intros k Hk Hin. apply not_true_iff_false in Ex. apply Ex, existsb_exists. exists k. split; [by apply list_elem_of_In|].
      by apply bool_decide_eq_true. }
    split_and!; [|by exists [target_of url]|].
    + split; cbn [fst snd].
      * intros k. rewrite elem_of_union, elem_of_list_to_set, Hs. setoid_rewrite elem_of_app. setoid_rewrite list_elem_of_singleton. naive_solver.
      * intros i j t u k Ht Hu Hkt Hku.
        apply lookup_app_Some in Ht as [Ht|[Hi Ht]], Hu as [Hu|[Hj Hu]].
        -- by apply (Ha i j t u k).
        -- exfalso. apply list_lookup_singleton_Some in Hu as [_ <-]. apply (Hnew k Hku), Hs. exists t. split; [by eapply list_elem_of_lookup_2|done].
        -- exfalso. apply list_lookup_singleton_Some in Ht as [_ <-]. apply (Hnew k Hkt), Hs. exists u. split; [by eapply list_elem_of_lookup_2|done].
        -- apply list_lookup_singleton_Some in Ht as [Ht _], Hu as [Hu _]. lia.
    + intros _. exists (target_of url). split; [set_solver|]. exists (relay_key url). split; unfold target_keys; simpl; set_solver.
Qed.

Lemma publish_targets_ok groups :
  targets_ok (foldl add_target ([], ∅) (mjoin groups))
  /\ forall url, url ∈ mjoin groups -> url <> "" ->
       exists t, t ∈ publish_targets groups /\ exists k, k ∈ target_keys (target_of url) /\ k ∈ target_keys t.
Proof.
  unfold publish_targets. generalize (mjoin groups). intros urls.
  assert (H0 : targets_ok ([], ∅)) by (split; [set_solver|intros i j t u k [=]]).
  enough (H1 : forall acc, targets_ok acc -> targets_ok (foldl add_target acc urls) /\ acc.1 `prefix_of` (foldl add_target acc urls).1
    /\ forall url, url ∈ urls -> url <> "" ->
       exists t, t ∈ (foldl add_target acc urls).1 /\ exists k, k ∈ target_keys (target_of url) /\ k ∈ target_keys t)
    by (destruct (H1 _ H0) as (? & _ & ?); by split).
  clear H0. induction urls as [|url urls IH]; intros acc Hacc; simpl; [split_and!; [done|done|set_solver]|].
  destruct (add_target_ok acc url Hacc) as (H1 & H2 & H3). destruct (IH _ H1) as (H4 & H5 & H6).
  split_and!; [done|by etrans|]. intros u [->|Hu]%elem_of_cons Hne; [|by apply H6].
  destruct (H3 Hne) as (t & Ht & Hk). exists t. split; [|done]. eapply elem_of_prefix; [exact Ht|done].
Qed.

(** Every address asked for is among the targets, in some spelling, and no relay is there
    twice, neither by its public nor by its internal address. *)
Lemma targets_once groups :
  (forall url, url ∈ mjoin groups -> url <> "" ->
     exists t, t ∈ publish_targets groups /\ exists k, k ∈ [relay_key url; relay_key (write_url url)] /\ k ∈ target_keys t)
  /\ forall i j t u k, publish_targets groups !! i = Some t -> publish_targets groups !! j = Some u ->
       k ∈ target_keys t -> k ∈ target_keys u -> i = j.
Proof. destruct (publish_targets_ok groups) as [[_ H1] H2]. by split. Qed.

(** ** Dates *)

Lemma created_newer now earlier c : menu_created_at now earlier = Ok c ->
  now <= c /\ forall e v, e ∈ earlier -> created_at_of e = Ok v -> v < c.
Proof.
  unfold menu_created_at. intros (m & Em & [= <-])%res_bind_Ok. split; [lia|].
  assert (Hall : forall e v, e ∈ earlier -> created_at_of e = Ok v -> exists n, m = Some n /\ v <= n); last first.
  { intros e v He Hv. destruct (Hall e v He Hv) as (n & -> & Hn). simpl. lia. }
  refine (foldm_ind _ (fun done_ m => forall e v, e ∈ done_ -> created_at_of e = Ok v -> exists n, m = Some n /\ v <= n) earlier _ None m _ Em).
  - intros d a x a' IH (c & Ec & [= <-])%res_bind_Ok _ e v [He|He]%elem_of_app Hv.
    + destruct (IH e v He Hv) as (n & -> & Hn). eexists. split; [done|]. lia.
    + apply list_elem_of_singleton in He as ->. rewrite Ec in Hv. injection Hv as ->. destruct a; eexists; (split; [done|lia]).
  - set_solver.
Qed.
End targets.

(** ** What is signed *)

(** A key in lower case. *)
Definition lower_key (who : string) : Prop := String.length who = 64%nat /\ forallb is_hex_digit (chars who) = true.

Definition dumped (tags : list (list string)) : json := JList ((fun t => JList (JStr <$> t)) <$> tags).

(** The JSON of an event signed with these contents. *)
Definition signed_as `{PublishEnv} (ev : json) (who : string) (kind : Z) (tags : list (list string)) (created_at : Z) : Prop :=
  exists d, ev = JObj d /\ dget "kind" d = JInt kind /\ dget "pubkey" d = JStr who /\ dget "created_at" d = JInt created_at
    /\ dget "tags" d = dumped tags /\ (exists i, dget "id" d = JStr i) /\ verified ev = true.

(** What [nostr_sdk] documents: an event built and signed carries what it was built with,
    and verifies. *)
Class SignerLaws `{PublishEnv} : Prop :=
  sign_ok : forall who kind tags c, exists ev, sign who kind tags c = Some (ev, true) /\ signed_as ev who kind tags c.

Lemma json_texts_dumped l : json_texts (JStr <$> l) l = true.
Proof. induction l as [|s l IH]; [done|]. simpl. by rewrite String.eqb_refl. Qed.

Lemma carries_dumped `{PublishEnv} ev who kind tags c : signed_as ev who kind tags c -> carries_tags ev tags = true.
Proof.
  intros (d & -> & _ & _ & _ & Ht & _). unfold carries_tags. rewrite Ht. unfold dumped. clear Ht.
  induction tags as [|t tags IH]; [done|]. simpl. by rewrite json_texts_dumped.
Qed.

Lemma signed_own `{PublishEnv} ev who kind tags c : signed_as ev who kind tags c -> is_own ev who kind = true.
Proof.
  intros (d & -> & Hk & Hp & _ & _ & _ & Hv). unfold is_own. rewrite Hk, Hp, Hv. unfold str_or_empty. simpl.
  rewrite Z.eqb_refl. destruct (String.eqb who "") eqn:E; simpl.
  - by apply String.eqb_eq in E as ->.
  - by rewrite String.eqb_refl.
Qed.

(** ** The menu *)

Lemma lower_key_nonempty who : lower_key who -> String.eqb who "" = false.
Proof. intros [Hl _]. by destruct who. Qed.

Lemma duty_rows_not (name : string) rows : name <> "duty" ->
  omap (fun t => match t with JList (t0 :: rest) => Some (t0, rest) | _ => None end)
    ((fun t => JList (JStr <$> t)) <$> ((fun '(key, r) => ["duty"; key; r]) <$> rows : list (list string)))
  = ((fun '(key, r) => (JStr "duty", [JStr key; JStr r])) <$> rows : list (json * list json))
  /\ tags_named name ((fun '(key, r) => (JStr "duty", [JStr key; JStr r])) <$> rows) = [].
Proof.
  intros Hne. split.
  - induction rows as [|[k r] rows IH]; [done|]. simpl. f_equal. exact IH.
  - unfold tags_named. rewrite filter_none; [done|]. intros x (p & -> & _)%list_elem_of_fmap. destruct p. cbn [fst json_is_str].
    intros E. apply String.eqb_eq in E. by subst.
Qed.

(** A menu signed with the tags built here is a menu. *)
Lemma menu_is_menu `{PublishEnv} ev who rows c : lower_key who ->
  signed_as ev who DUTY_MENU_KIND (build_menu_tags who rows ++ [CLIENT_TAG])%list c -> is_duty_menu (Some ev) who = Ok true.
Proof.
  intros Hw (d & -> & Hk & Hp & _ & Ht & _). unfold is_duty_menu. rewrite Hk. cbn [json_is_int DUTY_MENU_KIND].
  rewrite Z.eqb_refl. cbn [negb]. rewrite Ht. unfold dumped, build_menu_tags, named_tags.
  destruct (duty_rows_not "d" rows) as [Er Hd]; [done|]. destruct (duty_rows_not "p" rows) as [_ Hpp]; [done|]. destruct (duty_rows_not "z" rows) as [_ Hz]; [done|].
  set (dr := (fun '(key, r) => (JStr "duty", [JStr key; JStr r])) <$> rows) in *.
  assert (Etags : py_iter (py_or (JList ((fun t => JList (JStr <$> t)) <$>
      (([["d"; DUTY_MENU_D]; ["z"; DUTY_MENU_HEADER]; ["p"; who]] ++ ((fun '(key, r) => ["duty"; key; r]) <$> rows)) ++ [CLIENT_TAG])%list)) (JList []))
    = Ok ((fun t => JList (JStr <$> t)) <$> (([["d"; DUTY_MENU_D]; ["z"; DUTY_MENU_HEADER]; ["p"; who]] ++ ((fun '(key, r) => ["duty"; key; r]) <$> rows)) ++ [CLIENT_TAG])%list)) by done.
  rewrite Etags. cbn [mbind res_mbind]. clear Etags. rewrite !fmap_app, !omap_app, Er.
  destruct Hw as [Hlen Hhex]. rewrite (lower_hex who Hhex). rewrite Hp. unfold str_or_empty. cbn [py_truthy].
  assert (Hne : String.eqb who "" = false) by (by apply lower_key_nonempty). rewrite Hne. cbn [negb orb py_str]. rewrite (lower_hex who Hhex), String.eqb_refl. cbn [negb].
  set (front := omap _ _). change front with [(JStr "d", [JStr DUTY_MENU_D]); (JStr "z", [JStr DUTY_MENU_HEADER]); (JStr "p", [JStr who])].
  set (back := omap _ _). change back with [(JStr "client", [JStr "Brainstorm"])]. clear front back.
  assert (Hnamed : forall n, tags_named n (([(JStr "d", [JStr DUTY_MENU_D]); (JStr "z", [JStr DUTY_MENU_HEADER]); (JStr "p", [JStr who])] ++ dr) ++ [(JStr "client", [JStr "Brainstorm"])])%list
    = (tags_named n [(JStr "d", [JStr DUTY_MENU_D]); (JStr "z", [JStr DUTY_MENU_HEADER]); (JStr "p", [JStr who])] ++ tags_named n dr ++ tags_named n [(JStr "client", [JStr "Brainstorm"])])%list).
  { intros n. unfold tags_named. by rewrite !filter_app, !fmap_app, <- app_assoc. }
  rewrite !Hnamed, Hd, Hpp, Hz. clear Hnamed.
  set (front := [(JStr "d", _); _; _]). set (back := [(JStr "client", _)]).
  assert (tags_named "d" front = [[JStr DUTY_MENU_D]] /\ tags_named "p" front = [[JStr who]] /\ tags_named "z" front = [[JStr DUTY_MENU_HEADER]])
    as (-> & -> & ->) by (split_and!; reflexivity).
  assert (tags_named "d" back = [] /\ tags_named "p" back = [] /\ tags_named "z" back = []) as (-> & -> & ->) by (split_and!; reflexivity).
  cbn [app json_is_str py_str omap list_omap head existsb]. rewrite !String.eqb_refl. cbn [negb]. rewrite (lower_hex who Hhex), String.eqb_refl. cbn [negb].
  assert (concept_header_z DUTY_MENU_HEADER = false) as -> by (by vm_compute). by vm_compute.
Qed.

(** ** Self-entries read back *)

Lemma drop_while_head {A} (p : A -> bool) l c l' : drop_while p l = c :: l' -> p c = false.
Proof. induction l as [|x l IH]; simpl; [done|]. destruct (p x) eqn:E; [done|]. by intros [= <- _]. Qed.

Lemma drop_while_stop {A} (p : A -> bool) l : (forall c l', l = c :: l' -> p c = false) -> drop_while p l = l.
Proof. destruct l as [|c l]; [done|]. intros H. simpl. by rewrite (H c l). Qed.

Lemma drop_while_suffix {A} (p : A -> bool) l : exists z, l = (z ++ drop_while p l)%list.
Proof.
  induction l as [|x l [z IH]]; simpl; [by exists []|]. destruct (p x); [|by exists []]. exists (x :: z). simpl. by rewrite <- IH.
Qed.

Lemma strip_chars_twice l : strip_chars (strip_chars l) = strip_chars l.
Proof.
  unfold strip_chars. set (x := drop_while is_space l). set (w := drop_while is_space (reverse x)).
  assert (Hw : drop_while is_space w = w) by (apply drop_while_stop; apply drop_while_head).
  assert (Hy : drop_while is_space (reverse w) = reverse w).
  { apply drop_while_stop. intros c y' E. destruct (drop_while_suffix is_space (reverse x)) as [z Hz]. fold w in Hz.
    apply (f_equal reverse) in Hz. rewrite reverse_involutive, reverse_app, E in Hz. by apply (drop_while_head is_space l c (y' ++ reverse z)%list). }
  by rewrite Hy, reverse_involutive, Hw.
Qed.

Lemma relay_key_strip `{DutyEnv} r : relay_key (py_strip r) = relay_key r.
Proof. unfold relay_key, py_strip. by rewrite chars_of_chars, strip_chars_twice. Qed.

Lemma same_entries_spec `{DutyEnv} a b : same_self_entries a b = true <-> forall e, e ∈ entry_keys a <-> e ∈ entry_keys b.
Proof.
  unfold same_self_entries. rewrite andb_true_iff, !forallb_forall. setoid_rewrite <- list_elem_of_In. setoid_rewrite bool_decide_eq_true. split.
  - intros [H1 H2] e. split; auto.
  - intros Hs. split; intros e; by rewrite Hs.
Qed.

(** Keys spelt as [parse_key] spells them. *)
Definition proper_entries (es : list (string * string)) : Prop :=
  forall k r, (k, r) ∈ es -> exists key, parse_key_text k = Some key /\ norm key = k.

Section read_back.
Context `{DutyEnv} (who : string).
Hypothesis who_lower : py_lower who = who.

Lemma see_written es acc : proper_entries es -> acc.2 = entry_keys acc.1 ->
  let acc' := foldl (see_self_entry who) acc ((fun t => JList (JStr <$> t)) <$> self_map_tags who es) in
  acc'.2 = entry_keys acc'.1 /\ forall e, e ∈ acc'.2 <-> e ∈ acc.2 \/ e ∈ entry_keys es.
Proof.
  revert acc. induction es as [|[k r] es IH]; intros [out seen] Hp Hs; cbv zeta; [simpl; set_solver|].
  destruct (Hp k r) as (key & Hk & Hn); [set_solver|]. cbn [fst snd] in Hs. subst seen.
  change (foldl (see_self_entry who) (out, entry_keys out) ((fun t => JList (JStr <$> t)) <$> self_map_tags who ((k, r) :: es)))
    with (foldl (see_self_entry who) (see_self_entry who (out, entry_keys out) (JList [JStr k; JStr (py_lower who); JStr r]))
            ((fun t => JList (JStr <$> t)) <$> self_map_tags who es)).
  set (acc1 := see_self_entry who _ _).
  assert (H1 : acc1.2 = entry_keys acc1.1 /\ forall e, e ∈ acc1.2 <-> e ∈ entry_keys out \/ e = (k, relay_key r)).
  { unfold acc1, see_self_entry. rewrite !who_lower, String.eqb_refl. cbn [negb parse_key]. rewrite Hk, Hn, relay_key_strip.
    case_bool_decide as Hin; cbn [fst snd]; [split; [done|]; set_solver|].
    split; [unfold entry_keys; rewrite fmap_app; simpl; by rewrite relay_key_strip|]. set_solver. }
  destruct H1 as [H1 H2]. destruct (IH acc1) as [H3 H4]; [intros k' r' Hin; apply (Hp k' r'); set_solver|done|].
  split; [done|]. intros e. rewrite H4, H2. cbn [snd]. unfold entry_keys at 4. rewrite fmap_cons, elem_of_cons. unfold entry_keys. tauto.
Qed.

Lemma entries_read_back es ev : proper_entries es -> who <> "brainstorm" ->
  tags_of (Some ev) = ((fun t => JList (JStr <$> t)) <$> (self_map_tags who es ++ [CLIENT_TAG])%list) ->
  same_self_entries (read_self_entries (Some ev) who) es = true.
Proof.
  intros Hp Hb Ht. apply same_entries_spec. unfold read_self_entries. rewrite Ht, who_lower, fmap_app, foldl_app.
  destruct (see_written es ([], []) Hp eq_refl) as [H1 H2]. set (acc := foldl _ _ _) in *.
  assert (Ec : foldl (see_self_entry who) acc ((fun t => JList (JStr <$> t)) <$> [CLIENT_TAG]) = acc).
  { cbn [foldl fmap list_fmap CLIENT_TAG]. unfold see_self_entry. destruct acc as [o s].
    assert (String.eqb (py_lower "Brainstorm") who = false) as -> by (apply String.eqb_neq; intros E; by apply Hb). done. }
  rewrite Ec. intros e. rewrite <- H1, H2. set_solver.
Qed.
End read_back.

(** What the engine lists is spelt properly. *)
Lemma should_say_proper groups rows who scores check : groups_ok groups ->
  evaluate_self_map groups rows who scores = Ok check -> proper_entries (check_should_say check).
Proof.
  intros Hok. unfold evaluate_self_map. intros (offer & _ & [= <-])%res_bind_Ok. cbn [check_should_say].
  intros k r (e & E & He)%list_elem_of_fmap. destruct e as [key r']. injection E as -> ->. exists key.
  assert (Hn : normal key); [|split; [apply Hn|done]].
  unfold build_should_say in He. rewrite stable_sort_elem in He.
  apply (sound_normal _ _ _ (choose_sound _ _ _ _ (mine_normal groups (py_lower who) Hok)) (key, r') He).
Qed.

(** ** One press *)

Section press.
Context `{PublishEnv} (a : Answers).

Lemma lift_bind {A B} (r : res exn A) (f : A -> TX Desk B) s :
  (lift r ≫= f) s = match r with Ok x => f x s | Raise e => (Raise e, s) end.
Proof. by destruct r. Qed.

(** What a press may have done: at most one hand-over, of an event that [says] the right
    thing, and the choice saved exactly when it succeeds. *)
Record pressed (user : string) (on : bool) (says : json -> Prop) (s : Desk) (o : res exn PublishedMap * Desk) : Prop := {
  pressed_alone : pressing o.2 = pressing s;
  pressed_others : forall u, u <> user -> choices o.2 !! u = choices s !! u;
  pressed_choice : match o.1 with
                   | Ok m => choices o.2 !! user = Some on /\ pm_on m = on
                   | Raise _ => choices o.2 = choices s \/ exists e, a_save a = SavedUnanswered e
                   end;
  pressed_handed : exists new, handed_over o.2 = (handed_over s ++ new)%list /\ (length new <= 1)%nat
                     /\ forall urls ev, (urls, ev) ∈ new -> says ev;
  pressed_event : forall m ev, o.1 = Ok m -> pm_event m = Some ev -> says ev;
}.

Lemma pressed_raise user on says s e : pressed user on says s (Raise e, s).
Proof. split; try done; [by left|]. exists []. rewrite app_nil_r. split_and!; [done|simpl; lia|set_solver]. Qed.

(** The state after something was handed over. *)
Definition with_handed (s : Desk) (new : list (list string * json)) : Desk :=
  {| choices := choices s; pressing := pressing s; handed_over := handed_over s ++ new |}.

Lemma send_to_run ev targets s : exists r new, send_to a ev targets s = (r, with_handed s new)
  /\ (length new <= 1)%nat /\ forall urls ev', (urls, ev') ∈ new -> ev' = ev.
Proof.
  unfold send_to. rewrite lift_bind. destruct (a_connected a) as [success|e].
  - set (urls := base.filter _ _). destruct urls as [|u us].
    + eexists _, []. split_and!; [|simpl; lia|set_solver]. cbn [mbind TX_mbind mret TX_mret]. unfold with_handed. rewrite app_nil_r. by destruct s.
    + unfold hand_over, writes. cbn [mbind TX_mbind mret TX_mret].
      destruct (send_event a (u :: us)) as [acc ref]. eexists _, [(u :: us, ev)]. split_and!; [done|simpl; lia|set_solver].
  - eexists _, []. split_and!; [|simpl; lia|set_solver]. unfold with_handed. rewrite app_nil_r. by destruct s.
Qed.

Lemma save_run user on (m : PublishedMap) s new (says : json -> Prop) :
  pm_on m = on -> (length new <= 1)%nat -> (forall urls ev, (urls, ev) ∈ new -> says ev) -> (forall ev, pm_event m = Some ev -> says ev) ->
  pressed user on says s ((_ ← save_choice a user on; mret m) (with_handed s new)).
Proof.
  intros Hm Hl Hn He. unfold save_choice. cbn [mbind TX_mbind mret TX_mret].
  destruct (a_save a) as [|e|e] eqn:Es; split; cbn [fst snd]; try done.
  - intros u Hu. simpl. by rewrite lookup_insert_ne.
  - split; [simpl; apply lookup_insert_eq|done].
  - by exists new.
  - intros m' ev [= <-]. apply He.
  - by left.
  - by exists new.
  - intros u Hu. simpl. by rewrite lookup_insert_ne.
  - right. by exists e.
  - by exists new.
Qed.

(** Both ways a press sends something, what is sent says the target. *)
Lemma press_run user who on target s :
  pressed user on (fun ev => same_self_entries (read_self_entries (Some ev) who) target = true) s (press a user who on target s).
Proof.
  unfold press. rewrite lift_bind. destruct (read_newest a _ _) as [held|e]; [|apply pressed_raise].
  rewrite lift_bind. destruct (newest (omap snd held)) as [latest|e]; [|apply pressed_raise].
  assert (H0 : forall m, pm_on m = on -> pm_event m = None ->
    pressed user on (fun ev => same_self_entries (read_self_entries (Some ev) who) target = true) s ((_ ← save_choice a user on; mret m) s)).
  { intros m Hm He. pose proof (save_run user on m s [] (fun ev => same_self_entries (read_self_entries (Some ev) who) target = true) Hm) as Hr.
    unfold with_handed in Hr. rewrite app_nil_r in Hr. destruct s. apply Hr; [simpl; lia|set_solver|by rewrite He]. }
  destruct (nothing_to_change latest who target) eqn:En.
  - destruct latest as [l|]; [|by apply H0]. destruct (missing _ held l) as [|t ts] eqn:Em; [by apply H0|].
    destruct (send_to_run l (t :: ts) s) as (r & new & Es & Hl & Hn). unfold mbind at 1, TX_mbind at 1. rewrite Es.
    destruct r as [report|e].
    + apply save_run; [done|done|by intros urls ev ->%Hn|by intros ev [= <-]].
    + split; try done; [by left|]. exists new. split_and!; [done|done|]. by intros urls ev ->%Hn.
  - rewrite lift_bind. destruct (menu_created_at _ _) as [c|e]; [|apply pressed_raise].
    rewrite lift_bind. destruct (sign_checked _ _ _ _ _) as [signed|e] eqn:Esign; [|apply pressed_raise].
    assert (Hsays : same_self_entries (read_self_entries (Some signed) who) target = true).
    { unfold sign_checked in Esign. destruct (sign _ _ _ _) as [[sg v]|]; [|done]. destruct (_ && _) eqn:Ec; [|done]. injection Esign as <-.
      by apply andb_prop in Ec as [_ Ec]. }
    set (targets := publish_targets _). destruct (send_to_run signed targets s) as (r & new & Es & Hl & Hn).
    unfold mbind at 1, TX_mbind at 1. rewrite Es. destruct r as [report|e].
    + rewrite lift_bind. destruct (reached_some report) as [rep|e].
      * apply save_run; [done|done|by intros urls ev ->%Hn|by intros ev [= <-]].
      * split; try done; [by left|]. exists new. split_and!; [done|done|]. by intros urls ev ->%Hn.
    + split; try done; [by left|]. exists new. split_and!; [done|done|]. by intros urls ev ->%Hn.
Qed.

(** What the request's check says should be listed. *)
Definition says_the_check (user : string) (on : bool) (ev : json) : Prop :=
  exists row mc, a_row a = Ok row /\ checked a row user on = Ok mc
    /\ same_self_entries (read_self_entries (Some ev) (row_assistant row)) (listed mc.2 on) = true.

(** C33: a press, whatever the relays, the database, Neo4j and the signer do.  It ends with no
    press under way that was not before; it changes nobody else's choice; the caller's
    choice is the one asked for when it answers with success, and when it answers with
    an error it is as it was, unless the commit itself went unanswered; at most one
    event is handed to relays, and that event, like the one the answer shows, lists
    exactly the self-entries the check of this request says, none when turning off. *)
Theorem press_says_the_check (user : string) (on : bool) (s : Desk) :
  pressed user on (says_the_check user on) s (publish_assistant_treasure_map a user on s).
Proof.
  unfold publish_assistant_treasure_map. rewrite lift_bind. destruct (a_row a) as [row|e] eqn:Erow; [|apply pressed_raise].
  unfold one_press_at_a_time. case_bool_decide as Hp; [apply pressed_raise|].
  set (s0 := {| choices := choices s; pressing := _; handed_over := _ |}). rewrite lift_bind.
  assert (Hset : ({[row_assistant row]} ∪ pressing s) ∖ {[row_assistant row]} = pressing s) by set_solver.
  destruct (checked a row user on) as [[ev0 check]|e] eqn:Ec.
  - destruct (press_run user (row_assistant row) on (listed check on) s0) as [H1 H2 H3 H4 H5].
    destruct (press a user (row_assistant row) on (listed check on) s0) as [r s'].
    assert (Hs : forall ev, same_self_entries (read_self_entries (Some ev) (row_assistant row)) (listed check on) = true -> says_the_check user on ev)
      by (intros ev Hev; by exists row, (ev0, check)).
    split; cbn [fst snd choices pressing handed_over] in *; [by rewrite H1|done|done| |].
    + destruct H4 as (new & E & Hl & Hn). exists new. split_and!; [done|done|]. intros urls ev Hin. by apply Hs, (Hn urls).
    + intros m ev Hr He. apply Hs. by apply (H5 m).
  - split; cbn [fst snd choices pressing handed_over s0]; [done|done|by left| |done].
    exists []. rewrite app_nil_r. split_and!; [done|simpl; lia|set_solver].
Qed.
End press.

(** ** Pressing again *)

Section settles.
Context `{PublishEnv}.

(** A version a press takes for the Assistant's own. *)
Definition settled_version (ev : json) (who : string) : Prop :=
  is_own ev who SELF_MAP_KIND = true /\ exists c, version_rank ev = Ok c.

(** Of these relays those that answer have [ev], and one of them does. *)
Definition everywhere (a : Answers) (ev : json) (targets : list RelayTarget) : Prop :=
  (forall t e, t ∈ targets -> fetch_latest (a_versions a (rt_write_url t)) = Ok e -> e = Some ev)
  /\ exists t, t ∈ targets /\ fetch_latest (a_versions a (rt_write_url t)) = Ok (Some ev).

Lemma dict_set_elem k v (l : list (string * option json)) k' v' : (k', v') ∈ dict_set k v l -> v' = v \/ (k', v') ∈ l.
Proof. induction l as [|[k0 v0] l IH]; simpl; [set_solver|]. case_decide; set_solver. Qed.

Lemma held_everywhere a ev who targets : settled_version ev who -> everywhere a ev targets ->
  exists held, read_newest a targets (fun e => is_own e who SELF_MAP_KIND) = Ok held
    /\ held <> [] /\ forall k e, (k, e) ∈ held -> e = Some ev.
Proof.
  intros [Hown _] [Hev Hsome]. unfold read_newest. set (own := fun e => is_own e who SELF_MAP_KIND).
  assert (Hgo : forall acc, (forall k e, (k, e) ∈ acc -> e = Some ev) ->
    (acc <> [] \/ exists t, t ∈ targets /\ fetch_latest (a_versions a (rt_write_url t)) = Ok (Some ev)) ->
    foldl (held_at a own) acc targets <> [] /\ forall k e, (k, e) ∈ foldl (held_at a own) acc targets -> e = Some ev); last first.
  { destruct (Hgo [] ltac:(set_solver) (or_intror Hsome)) as [H1 H2]. destruct (foldl _ [] targets) as [|x l]; [done|]. by exists (x :: l). }
  clear Hsome. induction targets as [|t ts IH]; intros acc Hacc Hsome; simpl; [split; [set_solver|done]|].
  specialize (IH ltac:(set_solver)). destruct (fetch_latest (a_versions a (rt_write_url t))) as [e|e] eqn:Ef.
  - assert (held_at a own acc t = dict_set (relay_key (rt_write_url t)) (Some ev) acc) as ->.
    { unfold held_at. rewrite Ef, (Hev t e ltac:(set_solver) Ef). unfold own. by rewrite Hown. }
    apply IH; [intros k x [->|Hx]%dict_set_elem; [done|by apply (Hacc k)]|].
    left. destruct acc as [|[k0 e0] acc]; simpl; [done|]. by case_decide.
  - assert (held_at a own acc t = acc) as -> by (unfold held_at; by rewrite Ef). apply IH; [done|].
    destruct Hsome as [?|(t' & [->|Ht]%elem_of_cons & Ht')]; [by left|congruence|right; eauto].
Qed.

Lemma newest_all events ev c : events <> [] -> (forall e, e ∈ events -> e = ev) ->
  version_rank ev = Ok c -> newest events = Ok (Some ev).
Proof.
  intros Hne Hall Hr. unfold newest.
  enough (Hgo : forall best, (best = None \/ best = Some (c, ev)) -> (events <> [] \/ best <> None) ->
    foldm (fun best e => r ← version_rank e;
                  mret (match best with
                        | Some (r0, _) => if rank_lt r r0 then Some (r, e) else best
                        | None => Some (r, e)
                        end)) best events = Ok (Some (c, ev))) by (rewrite Hgo; [done|by left|by left]).
  clear Hne. induction events as [|e events IH]; intros best Hb Hne; [naive_solver|].
  assert (e = ev) as -> by (apply Hall; set_solver). simpl. rewrite Hr. simpl.
  apply IH; [set_solver| |]; destruct Hb as [->| ->]; try destruct (rank_lt _ _); auto.
Qed.

Lemma newest_elem events l : newest events = Ok (Some l) -> l ∈ events /\ exists c, version_rank l = Ok c.
Proof.
  unfold newest. intros (best & Eb & [= Hl])%res_bind_Ok.
  assert (Hinv : forall r e, best = Some (r, e) -> e ∈ events /\ version_rank e = Ok r).
  { refine (foldm_ind _ (fun done_ best => forall r e, best = Some (r, e) -> e ∈ done_ /\ version_rank e = Ok r) events _ None best _ Eb); [|done].
    intros d b x b' IH (r & Er & [= <-])%res_bind_Ok _ r' e' E. destruct b as [[r0 e0]|].
    - destruct (rank_lt r r0); [injection E as <- <-; set_solver|]. destruct (IH r' e' E). set_solver.
    - injection E as <- <-. set_solver. }
  destruct best as [[r e]|]; [|done]. injection Hl as ->. destruct (Hinv r l eq_refl). eauto.
Qed.

Lemma held_own a targets own held k e : read_newest a targets own = Ok held -> (k, Some e) ∈ held -> own e = true.
Proof.
  unfold read_newest. intros Er.
  assert (Hgo : forall acc, (forall k e, (k, Some e) ∈ acc -> own e = true) ->
    forall k e, (k, Some e) ∈ foldl (held_at a own) acc targets -> own e = true).
  { clear. induction targets as [|t ts IH]; intros acc Hacc; [done|]. simpl. apply IH. unfold held_at.
    destruct (fetch_latest _) as [ans|]; [|done]. intros k e Hin.
    assert (Hd : Some e = (match ans with Some e => if own e then Some e else None | None => None end) \/ (k, Some e) ∈ acc).
    { clear -Hin. induction acc as [|[k0 e0] acc IHacc]; simpl in Hin; [set_solver|]. case_decide; set_solver. }
    destruct Hd as [Hd|Hd]; [|by eapply Hacc]. destruct ans as [x|]; [|done]. destruct (own x) eqn:Ex; by simplify_eq. }
  intros Hin. apply (Hgo [] ltac:(set_solver) k). destruct (foldl _ [] targets); [done|]. by injection Er as <-.
Qed.

(** A version the press would take for its own, with a date and an id. *)
Lemma signed_settled ev who tags c : signed_as ev who SELF_MAP_KIND tags c -> settled_version ev who.
Proof.
  intros Hs. split; [by eapply signed_own|]. destruct Hs as (d & -> & _ & _ & Hc & _ & (i & Hi) & _).
  unfold version_rank, created_at_of, py_get. simpl. rewrite Hc, Hi. unfold py_or. cbn [py_truthy]. destruct (negb (c =? 0)); eexists; reflexivity.
Qed.

Lemma press_version `{!SignerLaws} a user who on target s m s' ev :
  press a user who on target s = (Ok m, s') -> pm_event m = Some ev -> settled_version ev who.
Proof.
  unfold press. rewrite lift_bind. destruct (read_newest a _ _) as [held|e] eqn:Eh; [|done].
  rewrite lift_bind. destruct (newest (omap snd held)) as [latest|e] eqn:En; [|done].
  assert (Hsave : forall m0 s0, (_ ← save_choice a user on; mret m0) s0 = (Ok m, s') -> m0 = m).
  { intros m0 s0. unfold save_choice. cbn [mbind TX_mbind mret TX_mret]. destruct (a_save a); [by intros [= <- _]|done|done]. }
  destruct (nothing_to_change latest who target).
  - destruct latest as [l|]; [|by intros <-%Hsave]. destruct (missing _ held l) as [|t ts]; [by intros <-%Hsave|].
    destruct (send_to_run a l (t :: ts) s) as (r & new & Es & _). unfold mbind at 1, TX_mbind at 1. rewrite Es.
    destruct r; [|done]. intros <-%Hsave [= <-]. apply newest_elem in En as [([k e] & Hk & He)%list_elem_of_omap Hr].
    simpl in He. subst e. split; [|done]. by eapply (held_own _ _ _ _ _ _ Eh).
  - rewrite lift_bind. destruct (menu_created_at _ _) as [c|e]; [|done].
    rewrite lift_bind. destruct (sign_checked _ _ _ _ _) as [signed|e] eqn:Esign; [|done].
    unfold sign_checked in Esign. destruct (sign_ok who SELF_MAP_KIND (self_map_tags who target ++ [CLIENT_TAG])%list c) as (ev0 & E0 & Hs).
    rewrite E0 in Esign. destruct (_ && _); [|done]. injection Esign as ->.
    set (targets := publish_targets _). destruct (send_to_run a signed targets s) as (r & new & Es & _).
    unfold mbind at 1, TX_mbind at 1. rewrite Es. destruct r; [|done].
    rewrite lift_bind. destruct (reached_some _); [|done]. intros <-%Hsave [= <-]. by eapply signed_settled.
Qed.

(** Nothing is sent when every relay answers with a version that says the target. *)
Lemma press_again a user who on target ev s : settled_version ev who -> everywhere a ev (publish_targets [writer_relays target]) ->
  same_self_entries (read_self_entries (Some ev) who) target = true ->
  press a user who on target s
  = (_ ← save_choice a user on; mret {| pm_on := on; pm_published := false; pm_event := None; pm_relays := [] |}) s.
Proof.
  intros Hv Hev Hsays. unfold press. rewrite lift_bind.
  destruct (held_everywhere a ev who _ Hv Hev) as (held & -> & Hne & Hall). rewrite lift_bind.
  assert (Hel : forall e, e ∈ omap snd held -> e = ev).
  { intros e ([k x] & Hk & Hx)%list_elem_of_omap. simpl in Hx. subst x. apply Hall in Hk. congruence. }
  destruct Hv as (_ & c & Hr). rewrite (newest_all _ ev c); [|clear Hel; destruct held as [|[k e] held]; [done|]|done|done].
  - unfold nothing_to_change. rewrite Hsays.
    assert (missing (publish_targets [writer_relays target]) held ev = []) as ->.
    { unfold missing. apply filter_none. intros t _. destruct (dict_get _ held) as [e|] eqn:Eg; [|done].
      apply dict_get_elem in Eg. rewrite (Hall _ _ Eg). by rewrite bool_decide_true. }
    done.
  - assert (e = Some ev) as -> by (apply (Hall k); set_solver). done.
Qed.
End settles.

(** What the check of a request has the Map list, keeping [on]. *)
Definition to_list `{PublishEnv} (a : Answers) (row : Row) (user : string) (on : bool) : res exn (list (string * string)) :=
  (fun mc => listed mc.2 on) <$> checked a row user on.

(** C34: a press that answered with the event it put out settles the matter.  Press again,
    in whatever state the server is by then and however the row, the clocks and the
    network have changed, so long as it is the same Assistant, none of its presses is
    under way, the check has it list the same entries, and of the relays the press reads
    those that answer have that event, at least one of them.  Then nothing is signed and
    nothing is sent: all that is left is to store the choice.  When that succeeds the
    answer says nothing was published; when it fails the failure is the answer and the
    choice is as it was, or stored when only the confirmation was lost. *)
Theorem press_settles `{SignerLaws} a b row row' user on entries s m s' ev t :
  a_row a = Ok row -> to_list a row user on = Ok entries ->
  publish_assistant_treasure_map a user on s = (Ok m, s') -> pm_event m = Some ev ->
  a_row b = Ok row' -> row_assistant row' = row_assistant row -> to_list b row' user on = Ok entries ->
  everywhere b ev (publish_targets [writer_relays entries]) -> row_assistant row ∉ pressing t ->
  publish_assistant_treasure_map b user on t
  = (match a_save b with
     | Saved => Ok {| pm_on := on; pm_published := false; pm_event := None; pm_relays := [] |}
     | NotSaved e | SavedUnanswered e => Raise e
     end,
     {| choices := match a_save b with NotSaved _ => choices t | Saved | SavedUnanswered _ => <[user := on]> (choices t) end;
        pressing := pressing t; handed_over := handed_over t |}).
Proof.
  intros Ha Ea Hp Hm Hb Hrow Eb Hev Ht. unfold publish_assistant_treasure_map in Hp |- *. rewrite lift_bind in Hp |- *.
  rewrite Ha in Hp. rewrite Hb, Hrow. unfold to_list in Ea, Eb.
  unfold one_press_at_a_time in Hp |- *. rewrite bool_decide_false by done. case_bool_decide; [done|]. rewrite lift_bind in Hp |- *.
  destruct (checked a row user on) as [[me check]|]; [|done]. destruct (checked b row' user on) as [[me' check']|]; [|done].
  injection Ea as Ea. injection Eb as Eb. cbn [snd] in Ea, Eb. rewrite Ea in Hp. rewrite Eb.
  set (s0 := Build_Desk _ _ _) in Hp. set (t0 := Build_Desk _ _ _).
  destruct (press a user _ on _ s0) as [r s1] eqn:Epress. injection Hp as -> Hs'.
  rewrite (press_again b user (row_assistant row) on entries ev t0); [|by eapply press_version|done|].
  - unfold save_choice. cbn [mbind TX_mbind mret TX_mret]. destruct (a_save b); cbn [choices pressing handed_over t0]; do 2 f_equal; set_solver.
  - pose proof (press_run a user (row_assistant row) on entries s0) as [_ _ _ _ Hpe]. rewrite Epress in Hpe. by apply (Hpe m).
Qed.

(** ** A press, run

    A signer that satisfies its laws, an Observer who gave the Assistant every duty,
    and three relays' worth of answers: the first press signs and sends, the second
    finds its version everywhere. *)

Module Scenario.

Definition assistant : string := of_chars (replicate 64 "a"%char).
Definition observer : string := of_chars (replicate 64 "c"%char).

#[export] Instance settings : DutyEnv := {|
  nostr_upload_ta_events_relay_public_url := "wss://scores.example/";
  nostr_upload_ta_events_relay := "ws://strfry:7777";
  trusted_list_relay := "";
  dictionary_relay := "";
  host_ok := fun _ => true;
|}.

(** The event as it is serialised; every event here is taken to verify. *)
Definition event_json (who : string) (kind : Z) (tags : list (list string)) (created_at : Z) : json :=
  JObj [("id", JStr "0f"); ("pubkey", JStr who); ("created_at", JInt created_at); ("kind", JInt kind); ("tags", dumped tags)].

#[export] Instance signer : PublishEnv := {|
  periodic_graperank_pubkey := observer;
  scheduler_enabled := true;
  sign := fun who kind tags c => Some (event_json who kind tags c, true);
  verified := fun _ => true;
|}.

#[export] Instance signer_laws : SignerLaws.
Proof. intros who kind tags c. exists (event_json who kind tags c). split; [done|]. eexists. split_and!; try reflexivity. by exists "0f". Qed.

(** The Observer's Map: everything to the Assistant. *)
Definition observer_map : json :=
  event_json observer SELF_MAP_KIND [["*"; assistant; "wss://hint"]] 100.
Definition frames (e : option json) : Fetch :=
  Some (match e with Some e => [Some (JList [JStr "EVENT"; JStr "latest"; e])] | None => [] end ++ [Some (JList [JStr "EOSE"; JStr "latest"])])%list.

Definition row : Row :=
  {| row_pubkey := observer; row_assistant := assistant; row_has_policy := false; last_time_published_graperank := Some 1000 |}.
(** The same user's row after a later publication of the scores. *)
Definition later_row : Row :=
  {| row_pubkey := observer; row_assistant := assistant; row_has_policy := false; last_time_published_graperank := Some 90000 |}.

(** [time] on the clock, the relays holding [held] and one of them taking what is sent. *)
Definition request (row : Row) (time : Z) (versions : string -> Fetch) (save : SaveOutcome) : Answers :=
  {| a_row := Ok row; a_reader := frames (Some observer_map); a_follows := Ok true; a_default := Ok None; a_own := Ok None;
     a_versions := versions; a_utc_now := time; a_time := time; a_connected := Ok ["wss://nos.lol"];
     a_sent := SendDone ["wss://nos.lol"] []; a_save := save |}.

Definition idle : Desk := {| choices := ∅; pressing := ∅; handed_over := [] |}.

Definition first_press : res exn PublishedMap * Desk := publish_assistant_treasure_map (request row 1500 (fun _ => frames None) Saved) observer true idle.
Definition first_event : json := match first_press.1 with Ok m => default JNull (pm_event m) | Raise _ => JNull end.

(** What the first press lists, and that its one hand-over is to the relay connected. *)
Example first_press_lists :
  read_self_entries (Some first_event) assistant
  = (fun m => ("30382:" ++ m, "wss://scores.example/")) <$> TA_METRIC_TAGS
  /\ handed_over first_press.2 = [(["wss://nos.lol"], first_event)].
Proof. by vm_compute. Qed.

Definition settled : PublishedMap := {| pm_on := true; pm_published := false; pm_event := None; pm_relays := [] |}.

(** A day later the row has moved on, one relay is down, and the answer of the save is lost. *)
Definition day_after : Answers :=
  request later_row 99000 (fun url => if String.eqb url "wss://relay.damus.io" then None else frames (Some first_event))
    (SavedUnanswered ConnectionError).

Definition all_metrics : list (string * string) := (fun m => ("30382:" ++ m, "wss://scores.example/")) <$> TA_METRIC_TAGS.

Definition a_target : RelayTarget :=
  default {| rt_url := ""; rt_write_url := "" |} (head (publish_targets [writer_relays all_metrics])).

Lemma press_settles_witness :
  publish_assistant_treasure_map day_after observer true first_press.2
  = (Raise ConnectionError, {| choices := <[observer := true]> (choices first_press.2); pressing := pressing first_press.2;
                               handed_over := handed_over first_press.2 |}).
Proof.
  refine (press_settles (request row 1500 (fun _ => frames None) Saved) day_after row later_row observer true all_metrics idle
    (match first_press.1 with Ok m => m | Raise _ => settled end) first_press.2 first_event first_press.2 _ _ _ _ _ _ _ _ _).
  - reflexivity.
  - vm_compute. reflexivity.
  - vm_compute. reflexivity.
  - vm_compute. reflexivity.
  - reflexivity.
  - reflexivity.
  - vm_compute. reflexivity.
  - split.
    + intros u e _. unfold day_after, request. cbn [a_versions]. destruct (String.eqb _ _); vm_compute; congruence.
    + exists a_target. split; [|vm_compute; reflexivity]. apply (list_elem_of_lookup_2 _ 0%nat). vm_compute. reflexivity.
  - apply (bool_decide_eq_true_1 (assistant ∉ pressing first_press.2)). vm_compute. reflexivity.
Defined.
End Scenario.
