(* ===== verification/PasskeyVault.v ===== *)
(** * The passkey vault

    [src/app/utils/webauthn.py], [src/app/services/passkey_vault_service.py],
    [src/app/repos/passkey_vault_repo.py] and the endpoints of
    [src/app/routers/passkey_vault/router.py].

    The owner, holding a Session, stores a sealed copy of a key under the hash of a
    passkey's credential id; whoever answers a fresh challenge with that passkey reads
    it back.  [Store] is the table, the spent challenges in Redis with the moment each
    is forgotten, real time in milliseconds, and [redeemed], the history of spends.  A
    handler is cut at its statements and commands; a replica's clock is an argument. *)

From Stdlib Require Import Ascii String QArith.
From S2P Require Import Prelude Json Url Base64 Binary64 Atomic NostrTags Tagging.
From stdpp Require Import list.
Local Open Scope string_scope.
Local Open Scope Z_scope.

Definition AssertionInvalid : exn := OtherException "AssertionInvalid".
Definition UnsupportedAlgorithm : exn := OtherException "UnsupportedAlgorithm".

(** ** The cryptography library, the settings and JSON *)

(** What a DER public key loads as. *)
Inductive SpkiKey :=
  | EcKey (p256 : bool) (material : string)
  | EdKey (material : string)
  | RsaKey (key_size e : Z) (material : string)
  | OtherKey (material : string).

Class VaultEnv := {
  auth_secret_key : string;
  passkey_origins : string;
  frontend_url : string;
  (* digests, as bytes *)
  sha256 : string -> string;
  hmac_sha256 : string -> string -> string;
  (* [load_der_public_key], and whether [key.verify] returns *)
  load_der : string -> res exn SpkiKey;
  key_verifies : SpkiKey -> Z -> string -> string -> bool;
  (* [json.loads], of bytes and of text *)
  json_of_bytes : string -> res exn json;
  json_of_text : string -> res exn json;
  (* [urlparse]'s own check of a netloc, which raises ValueError *)
  origin_host_ok : string -> bool;
}.

(** ** Assertions ([webauthn.py]) *)

Definition ALG_ES256 : Z := -7.
Definition ALG_EDDSA : Z := -8.
Definition ALG_RS256 : Z := -257.
Definition SUPPORTED_ALGS : list Z := [ALG_ES256; ALG_EDDSA; ALG_RS256].
Definition FLAG_USER_PRESENT : Z := 1.
Definition FLAG_USER_VERIFIED : Z := 4.
Definition AUTH_DATA_MIN_LEN : nat := 37.
Definition RSA_MIN_BITS : Z := 2048.
Definition RSA_MAX_BITS : Z := 4096.

Record VerifiedAssertion := { va_challenge : string; va_sign_count : Z }.

Definition b64url_decode (value : string) : res exn string :=
  match urlsafe_b64decode_unpadded value with Some b => Ok b | None => Raise AssertionInvalid end.

Definition is_canonical_b64url (value : string) : bool :=
  match b64url_decode value with
  | Ok decoded => String.eqb (urlsafe_b64encode_unpadded decoded) value
  | Raise _ => false
  end.

Section vault.
Context `{VaultEnv}.

Definition credential_id_hash (credential_id : string) : res exn string :=
  raw ← b64url_decode credential_id; Ok (bytes_hex (chars (sha256 raw))).

(** [except (ValueError, TypeError)]. *)
Definition value_or_type (e : exn) : bool := bool_decide (e = ValueError) || bool_decide (e = TypeError).

Definition load_public_key (spki_b64url : string) (alg : Z) : res exn SpkiKey :=
  raw ← b64url_decode spki_b64url;
  key ← match load_der raw with
        | Raise e => if value_or_type e then Raise AssertionInvalid else Raise e
        | Ok key => Ok key
        end;
  let fits := match key with
              | EcKey _ _ => alg =? ALG_ES256
              | EdKey _ => alg =? ALG_EDDSA
              | RsaKey _ _ _ => alg =? ALG_RS256
              | OtherKey _ => false
              end in
  if negb fits then Raise AssertionInvalid
  else match key with
  | EcKey false _ => Raise AssertionInvalid
  | RsaKey bits e _ =>
      if negb ((RSA_MIN_BITS <=? bits) && (bits <=? RSA_MAX_BITS)) || negb (e =? 65537) then Raise AssertionInvalid else Ok key
  | _ => Ok key
  end.

Definition verify_signature (key : SpkiKey) (alg : Z) (signature signed : string) : res exn unit :=
  if bool_decide (alg ∈ SUPPORTED_ALGS)
  then if key_verifies key alg signature signed then Ok tt else Raise AssertionInvalid
  else Raise AssertionInvalid.

(** [urlparse(origin).hostname or ""]. *)
Definition rp_id_of (origin : string) : res exn string :=
  let netloc := u_netloc (split_parts (chars origin)) in
  if origin_host_ok (of_chars netloc) then Ok (of_chars (hostname_of lower_chr netloc)) else Raise ValueError.

(** The parts of [clientDataJSON] that count: the challenge and the origin. *)
Definition read_client_data (client_data : json) (allowed : list string) : res exn (string * string) :=
  match client_data with
  | JObj d =>
      if negb (json_is_str (dget "type" d) "webauthn.get") then Raise AssertionInvalid
      else match dget "origin" d with
      | JStr origin =>
          if negb (bool_decide (origin ∈ allowed)) then Raise AssertionInvalid
          else if match dget "crossOrigin" d with JBool true => true | _ => false end then Raise AssertionInvalid
          else match dget "challenge" d with
          | JStr challenge => if String.eqb challenge "" then Raise AssertionInvalid else Ok (challenge, origin)
          | _ => Raise AssertionInvalid
          end
      | _ => Raise AssertionInvalid
      end
  | _ => Raise AssertionInvalid
  end.

(** The relying party's hash, the flags and the counter of [authenticatorData]. *)
Definition read_auth_data (auth_data rp_id : string) : res exn Z :=
  let l := chars auth_data in
  if negb (bool_decide (take 32 l = chars (sha256 (utf8 rp_id)))) then Raise AssertionInvalid
  else
    let flags := chr_code (default zero (l !! 32%nat)) in
    if (Z.land flags FLAG_USER_PRESENT =? 0) || (Z.land flags FLAG_USER_VERIFIED =? 0) then Raise AssertionInvalid
    else Ok (from_bytes (take 4 (drop 33 l))).

Definition verify_assertion (client_data_json authenticator_data signature public_key : string) (alg : Z)
    (allowed : list string) (check : string -> res exn string) : res exn VerifiedAssertion :=
  client_data_raw ← b64url_decode client_data_json;
  client_data ← match json_of_bytes client_data_raw with
                | Raise e => if bool_decide (e = ValueError) then Raise AssertionInvalid else Raise e
                | Ok v => Ok v
                end;
  co ← read_client_data client_data allowed;
  let '(challenge, origin) := (co : string * string) in
  _ ← check challenge;
  auth_data ← b64url_decode authenticator_data;
  _ ← (if (String.length auth_data <? AUTH_DATA_MIN_LEN)%nat then Raise AssertionInvalid else Ok tt);
  rp_id ← rp_id_of origin;
  sign_count ← read_auth_data auth_data rp_id;
  key ← load_public_key public_key alg;
  sig ← b64url_decode signature;
  _ ← verify_signature key alg sig (auth_data ++ sha256 client_data_raw);
  Ok {| va_challenge := challenge; va_sign_count := sign_count |}.

(** ** Challenges ([passkey_vault_service.py]) *)

Definition CHALLENGE_TTL_SECONDS : Z := 120.
Definition CLOCK_SKEW_SECONDS : Z := 5.
Definition NONCE_BYTES : nat := 16.

Definition challenge_key : string := hmac_sha256 (utf8 auth_secret_key) "passkey-vault-challenge".

(** [nonce] is what [secrets.token_bytes] draws, [now] what [time.time()] reads. *)
Definition issue_challenge (nonce : string) (now : Q) : res exn string :=
  issued ← to_bytes 8 (Z.quot (Qnum now) (Zpos (Qden now)));
  let mac := hmac_sha256 challenge_key (nonce ++ of_chars issued) in
  Ok (urlsafe_b64encode_unpadded (nonce ++ of_chars issued ++ mac)).

(** [float - int]. *)
Definition challenge_age (now : Q) (issued : list ascii) : Q := fsub now (rn (inject_Z (from_bytes issued))).

(** The nonce and when it was issued, of a challenge that is ours and unexpired. *)
Definition read_challenge (challenge : string) (now : Q) : res exn (string * list ascii) :=
  raw ← b64url_decode challenge;
  let l := chars raw in
  if negb (length l =? NONCE_BYTES + 8 + 32)%nat then Raise AssertionInvalid
  else
    let nonce := take NONCE_BYTES l in
    let issued := take 8 (drop NONCE_BYTES l) in
    let mac := drop (NONCE_BYTES + 8) l in
    if negb (String.eqb (of_chars mac) (hmac_sha256 challenge_key (of_chars (nonce ++ issued)%list))) then Raise AssertionInvalid
    else
      let age := challenge_age now issued in
      if flt age (inject_Z (- CLOCK_SKEW_SECONDS)) || flt (inject_Z CHALLENGE_TTL_SECONDS) age then Raise AssertionInvalid
      else Ok (of_chars nonce, issued).

Definition check_challenge (challenge : string) (now : Q) : res exn string := fst <$> read_challenge challenge now.

Definition allowed_origins : list string :=
  let origins := base.filter (fun o => o <> "") ((fun o => py_rstrip_chr "/" (py_strip o)) <$> py_split "," passkey_origins) in
  match origins with [] => [py_rstrip_chr "/" frontend_url] | _ => origins end.

(** [record.get("v") != 1] of a decoded value. *)
Definition equals_one (v : json) : bool :=
  match v with
  | JInt z => z =? 1
  | JBool b => b
  | JFloat r => match py_float r with Some (Fin q) => Qeq_bool q 1 | _ => false end
  | _ => false
  end.

Definition validate_blob (blob pubkey credential_id : string) : res exn unit :=
  record ← match json_of_text blob with
           | Raise e => if bool_decide (e = ValueError) then Raise (HTTPException 422) else Raise e
           | Ok v => Ok v
           end;
  match record with
  | JObj d =>
      if negb (equals_one (dget "v" d)) then Raise (HTTPException 422)
      else if negb (json_is_str (dget "pubkey" d) pubkey) || negb (json_is_str (dget "credentialId" d) credential_id)
      then Raise (HTTPException 422) else Ok tt
  | _ => Raise (HTTPException 422)
  end.

(** ** The table and the spent challenges *)

Record VaultRow := {
  vr_credential_id : string;
  vr_pubkey : string;
  vr_public_key : string;
  vr_alg : Z;
  vr_blob : string;
  vr_label : option string;
  vr_sign_count : Z;
  vr_created_at : Z;
  vr_last_used_at : option Z;
}.

(** One spend: what was spent, when its challenge was checked, and when it was spent. *)
Record Redemption := { rd_nonce : string; rd_issued : list ascii; rd_checked : Z; rd_spent : Z }.

Record Store := {
  v_now : Z;
  passkey_vault : gmap string VaultRow;
  spent : gmap string Z;
  redeemed : list Redemption;
}.

Definition with_rows (f : gmap string VaultRow -> gmap string VaultRow) (s : Store) : Store :=
  {| v_now := v_now s; passkey_vault := f (passkey_vault s); spent := spent s; redeemed := redeemed s |}.

(** *** Statements ([passkey_vault_repo.py]) *)

Definition select_passkey_vault_by_hash_on_db (hash : string) : TX Store (option VaultRow) :=
  reads (fun s => passkey_vault s !! hash).

Definition select_passkey_vaults_by_pubkey_on_db `{RowOrder} (pubkey : string) : TX Store (list (string * VaultRow)) :=
  reads (fun s => stable_sort (fun a b => vr_created_at a.2 <=? vr_created_at b.2)
                    (row_order (base.filter (fun e => vr_pubkey e.2 = pubkey) (map_to_list (passkey_vault s))))).

(** The owner's rewrite keeps the id, the owner, the creation and the last use, and
    resets the counter. *)
Definition upsert_passkey_vault_on_db (hash credential_id pubkey public_key : string) (alg : Z) (blob : string)
    (label : option string) : TX Store (option VaultRow) := fun s =>
  let row := match passkey_vault s !! hash with
             | None => Some {| vr_credential_id := credential_id; vr_pubkey := pubkey; vr_public_key := public_key; vr_alg := alg;
                               vr_blob := blob; vr_label := label; vr_sign_count := 0; vr_created_at := v_now s; vr_last_used_at := None |}
             | Some old =>
                 if String.eqb (vr_pubkey old) pubkey
                 then Some {| vr_credential_id := vr_credential_id old; vr_pubkey := vr_pubkey old; vr_public_key := public_key;
                              vr_alg := alg; vr_blob := blob; vr_label := label; vr_sign_count := 0;
                              vr_created_at := vr_created_at old; vr_last_used_at := vr_last_used_at old |}
                 else None
             end in
  (Ok row, match row with Some r => with_rows <[hash := r]> s | None => s end).

(** [now] is the database's, the start of the transaction. *)
Definition mark_passkey_vault_used_on_db (hash : string) (sign_count now : Z) : TX Store bool := fun s =>
  match passkey_vault s !! hash with
  | Some old =>
      if (if sign_count =? 0 then vr_sign_count old =? 0 else vr_sign_count old <? sign_count)
      then (Ok true, with_rows <[hash := {| vr_credential_id := vr_credential_id old; vr_pubkey := vr_pubkey old;
              vr_public_key := vr_public_key old; vr_alg := vr_alg old; vr_blob := vr_blob old; vr_label := vr_label old;
              vr_sign_count := sign_count; vr_created_at := vr_created_at old; vr_last_used_at := Some now |}]> s)
      else (Ok false, s)
  | None => (Ok false, s)
  end.

Definition delete_passkey_vault_on_db (hash pubkey : string) : TX Store unit := writes (fun s =>
  match passkey_vault s !! hash with
  | Some row => if String.eqb (vr_pubkey row) pubkey then with_rows (delete hash) s else s
  | None => s
  end).

(** *** [SET key 1 NX EX seconds] *)

Definition spend_key (nonce : string) : string := "passkey_challenge_used:" ++ bytes_hex (chars nonce).

(** Whether the key was set; [checked] only dates the entry of the history. *)
Definition set_nx (nonce : string) (issued : list ascii) (checked seconds : Z) : TX Store bool := fun s =>
  let live := match spent s !! spend_key nonce with Some due => v_now s <? due | None => false end in
  if live then (Ok false, s)
  else (Ok true, {| v_now := v_now s; passkey_vault := passkey_vault s;
                    spent := <[spend_key nonce := v_now s + 1000 * seconds]> (spent s);
                    redeemed := redeemed s ++ [{| rd_nonce := nonce; rd_issued := issued; rd_checked := checked; rd_spent := v_now s |}] |}).

Definition spend_challenge (nonce : string) (issued : list ascii) (checked : Z) : act Store unit :=
  was_set ← Tx (set_nx nonce issued checked (CHALLENGE_TTL_SECONDS + 60)) Ret;
  if was_set : bool then mret tt else throw AssertionInvalid.

(** ** The four requests *)

Definition store_checks (caller_pubkey path_hash credential_id public_key : string) (alg : Z) : res exn unit :=
  if negb (is_canonical_b64url credential_id) then Raise AssertionInvalid
  else
    h ← credential_id_hash credential_id;
    if negb (String.eqb h path_hash) then Raise AssertionInvalid
    else if negb (bool_decide (alg ∈ SUPPORTED_ALGS)) then Raise AssertionInvalid
    else _ ← load_public_key public_key alg; Ok tt.

Definition store_vault (caller_pubkey path_hash credential_id public_key : string) (alg : Z) (blob : string)
    (label : option string) : act Store (string * VaultRow) :=
  _ ← act_try (Ret (store_checks caller_pubkey path_hash credential_id public_key alg))
        (fun e => throw (if bool_decide (e = AssertionInvalid) then HTTPException 422 else e));
  _ ← Ret (validate_blob blob caller_pubkey credential_id);
  session (
    row ← upsert_passkey_vault_on_db path_hash credential_id caller_pubkey public_key alg blob label;
    match row with
    | None => raise (HTTPException 403)
    | Some row => mret (path_hash, row)
    end).

Definition list_vaults `{RowOrder} (caller_pubkey : string) : act Store (list (string * VaultRow)) :=
  session (select_passkey_vaults_by_pubkey_on_db caller_pubkey).

Definition delete_vault (caller_pubkey path_hash : string) : act Store unit :=
  session (delete_passkey_vault_on_db path_hash caller_pubkey).

(** [(verified.sign_count or row.sign_count) and verified.sign_count <= row.sign_count]. *)
Definition counter_stalled (sign_count stored : Z) : bool :=
  (negb (sign_count =? 0) || negb (stored =? 0)) && (sign_count <=? stored).

(** Real time, from which the replica's clock reads. *)
Definition instant : act Store Z := Tx (reads v_now) Ret.

(** Ours, unexpired and unspent, then spent. *)
Definition redeem_challenge (clock : Z -> Q) (challenge : string) : act Store unit :=
  t ← instant;
  ni ← Ret (read_challenge challenge (clock t));
  spend_challenge (ni : string * list ascii).1 ni.2 t.

Section open.
Context (clock : Z -> Q) (path_hash credential_id client_data_json authenticator_data signature : string).

Definition open_row (row : VaultRow) (began : Z) : act Store string :=
  t ← instant;
  verified ← Ret (verify_assertion client_data_json authenticator_data signature (vr_public_key row) (vr_alg row)
                    allowed_origins (fun c => check_challenge c (clock t)));
  if counter_stalled (va_sign_count verified) (vr_sign_count row) then throw AssertionInvalid
  else
    t ← instant;
    ni ← Ret (read_challenge (va_challenge verified) (clock t));
    _ ← spend_challenge (ni : string * list ascii).1 ni.2 t;
    marked ← Tx (mark_passkey_vault_used_on_db path_hash (va_sign_count verified) began) Ret;
    if marked : bool then mret (vr_blob row) else throw AssertionInvalid.

Definition open_vault : act Store string :=
  act_try (
    h ← Ret (credential_id_hash credential_id);
    if negb (String.eqb h path_hash) then throw AssertionInvalid
    else
      began ← instant;
      row ← Tx (select_passkey_vault_by_hash_on_db path_hash) Ret;
      match row with
      | None => throw AssertionInvalid
      | Some row => open_row row began
      end)
    (fun e => throw (if bool_decide (e = AssertionInvalid) then HTTPException 404 else e)).
End open.
End vault.
