(* ===== verification/PasskeyProps.v ===== *)
(** * What the passkey vault promises

    [vault_opens_once]: a challenge is spent once, by any replicas whose clocks agree
    and whose handlers do not stall.  [others_leave_it_alone]: nobody but its owner can
    change or remove a row, and its counter only grows.  [honest_ceremony_opens]: what
    the owner stored is what their passkey gets back.  [open_refusal_uniform]: every
    refusal looks the same. *)

From Stdlib Require Import Ascii String QArith Qabs Lqa.
From S2P Require Import Prelude Json Url Base64 Binary64 Atomic NostrTags Tagging PasskeyVault.
From stdpp Require Import list.
Local Open Scope string_scope.
Local Open Scope Z_scope.

(** ** A challenge is spent once *)

Section once.
Context `{VaultEnv} (skew : Z).

(** A replica's clock, in seconds, at a real instant in milliseconds. *)
Definition agrees (clock : Z -> Q) : Prop :=
  forall t, ((t - skew # 1000) <= clock t /\ clock t <= (t + skew # 1000))%Q.

(** When a challenge says it was issued, as the code computes with it. *)
Definition issued_at (issued : list ascii) : Q := rn (inject_Z (from_bytes issued)).

Lemma read_challenge_fresh c now nonce issued : read_challenge c now = Ok (nonce, issued) ->
  (issued_at issued - 6 <= now /\ now <= issued_at issued + 121)%Q.
Proof.
  unfold read_challenge. intros (raw & _ & E)%res_bind_Ok. destruct (negb (_ =? _)%nat); [done|].
  destruct (negb (String.eqb _ _)); [done|]. destruct (_ || _) eqn:Ew; [done|]. injection E as _ <-.
  set (iss := take 8 _) in *. apply orb_false_iff in Ew as [E1 E2]. unfold challenge_age, fsub in *. fold (issued_at iss) in *.
  split.
  - destruct (Qlt_le_dec now (issued_at iss - 6)) as [Hlt|]; [exfalso|done].
    assert (Hx : (rn (now - issued_at iss) <= inject_Z (-6))%Q) by (apply rn_le_int; [done|unfold inject_Z; lra]).
    apply not_true_iff_false in E1. apply E1, flt_Qlt. eapply Qle_lt_trans; [exact Hx|]. reflexivity.
  - destruct (Qlt_le_dec (issued_at iss + 121) now) as [Hlt|]; [exfalso|done].
    assert (Hx : (inject_Z 121 <= rn (now - issued_at iss))%Q) by (apply rn_ge_int; [done|unfold inject_Z; lra]).
    apply not_true_iff_false in E2. apply E2, flt_Qlt. eapply Qlt_le_trans; [|exact Hx]. reflexivity.
Qed.

(** An entry of the history was checked inside the window of its challenge. *)
Definition redemption_ok (s : Store) (e : Redemption) : Prop :=
  rd_checked e <= rd_spent e <= v_now s
  /\ ((issued_at (rd_issued e) - 6) * 1000 - inject_Z skew <= inject_Z (rd_checked e)
      /\ inject_Z (rd_checked e) <= (issued_at (rd_issued e) + 121) * 1000 + inject_Z skew)%Q
  /\ exists due, spent s !! spend_key (rd_nonce e) = Some due /\ rd_spent e + 180000 <= due.

(** Spends of one nonce are as far apart as Redis remembers. *)
Definition spread_out (l : list Redemption) : Prop :=
  forall i j d e, l !! i = Some d -> l !! j = Some e -> (i < j)%nat -> rd_nonce d = rd_nonce e -> rd_spent d + 180000 <= rd_spent e.

Definition once_inv (s : Store) : Prop := (forall e, e ∈ redeemed s -> redemption_ok s e) /\ spread_out (redeemed s).
Definition onward (s s' : Store) : Prop := v_now s <= v_now s'.

Lemma onward_refl s : onward s s.
Proof. unfold onward. lia. Qed.
Lemma onward_trans s1 s2 s3 : onward s1 s2 -> onward s2 s3 -> onward s1 s3.
Proof. unfold onward. lia. Qed.

Lemma rows_keep f s : once_inv s -> step_ok onward once_inv s (with_rows f s).
Proof. intros Hi. split; [done|]. unfold onward. simpl. lia. Qed.

Lemma set_nx_keeps nonce issued checked s : once_inv s -> checked <= v_now s ->
  ((issued_at issued - 6) * 1000 - inject_Z skew <= inject_Z checked
   /\ inject_Z checked <= (issued_at issued + 121) * 1000 + inject_Z skew)%Q ->
  step_ok onward once_inv s (set_nx nonce issued checked (CHALLENGE_TTL_SECONDS + 60) s).2.
Proof.
  intros [He Hs] Hc Hw. unfold set_nx. destruct (match spent s !! spend_key nonce with Some due => _ | None => _ end) eqn:El;
    [split; [done|apply onward_refl]|]. split; [|unfold onward; simpl; lia]. cbn [snd].
  assert (Hgone : forall e, e ∈ redeemed s -> spend_key (rd_nonce e) = spend_key nonce -> rd_spent e + 180000 <= v_now s).
  { intros e Hin Hk. destruct (He e Hin) as (_ & _ & due & Hdue & Hle). rewrite Hk in Hdue. rewrite Hdue in El. lia. }
  split; cbn [redeemed].
  - intros e [Hin|Hin]%elem_of_app.
    + destruct (He e Hin) as (H1 & H2 & due & Hdue & Hle). split; [done|]. split; [done|]. cbn [spent].
      destruct (decide (spend_key nonce = spend_key (rd_nonce e))) as [Hk|Hk].
      * exists (v_now s + 1000 * (CHALLENGE_TTL_SECONDS + 60)). rewrite Hk, lookup_insert_eq. split; [done|].
        specialize (Hgone e Hin (eq_sym Hk)). unfold CHALLENGE_TTL_SECONDS. lia.
      * exists due. by rewrite lookup_insert_ne.
    + apply list_elem_of_singleton in Hin as ->. cbn [rd_checked rd_spent v_now]. split; [cbn [rd_checked rd_spent v_now]; lia|]. split; [done|]. cbn [spent rd_nonce].
      eexists. rewrite lookup_insert_eq. split; [done|]. cbn [rd_spent]. unfold CHALLENGE_TTL_SECONDS. lia.
  - intros i j d e Hi Hj Hlt Hn. apply lookup_app_Some in Hj as [Hj|[Hlen Hj]].
    + apply (Hs i j d e); [|done|done|done]. apply lookup_lt_Some in Hj. by rewrite lookup_app_l in Hi by lia.
    + apply list_lookup_singleton_Some in Hj as [Hj0 <-]. rewrite lookup_app_l in Hi by lia. cbn [rd_spent rd_nonce] in *.
      apply Hgone; [by eapply list_elem_of_lookup_2|by rewrite Hn].
Qed.

Lemma mark_keeps hash n now : keeps onward once_inv (mark_passkey_vault_used_on_db hash n now).
Proof.
  intros s Hi. unfold mark_passkey_vault_used_on_db. destruct (passkey_vault s !! hash); [|by split; [|apply onward_refl]].
  destruct (if _ =? 0 then _ else _); [by apply rows_keep|by split; [|apply onward_refl]].
Qed.

Lemma instant_safe s0 : safe_from onward once_inv s0 instant (fun t s => t <= v_now s).
Proof. apply safe_tx. intros s _ Hi. split; [split; [done|apply onward_refl]|]. simpl. lia. Qed.

Hint Resolve onward_refl onward_trans : core.

Lemma open_row_safe clock hash cdj ad sig row began s0 : agrees clock ->
  safe_from onward once_inv s0 (open_row clock hash cdj ad sig row began) (fun _ _ => True).
Proof.
  intros Hclock. unfold open_row.
  eapply act_safe_bind; [apply onward_refl|apply onward_trans|apply instant_safe|]. intros t1 s1 _ _.
  destruct (verify_assertion _ _ _ _ _ _ _) as [v|e]; [|done]. rewrite act_bind_ok.
  destruct (counter_stalled _ _); [done|].
  eapply act_safe_bind; [apply onward_refl|apply onward_trans|apply instant_safe|]. intros t2 s2 _ Ht2.
  destruct (read_challenge _ _) as [[nonce issued]|e] eqn:Er; [|done]. rewrite act_bind_ok. cbn [fst snd].
  apply read_challenge_fresh in Er. destruct (Hclock t2) as [Hc1 Hc2].
  assert (Hw : ((issued_at issued - 6) * 1000 - inject_Z skew <= inject_Z t2
     /\ inject_Z t2 <= (issued_at issued + 121) * 1000 + inject_Z skew)%Q).
  { assert (Hq : forall z, ((z # 1000) * 1000 == inject_Z z)%Q) by (intros z; unfold Qeq, inject_Z; simpl; lia).
    pose proof (Hq (t2 - skew)) as Q1. pose proof (Hq (t2 + skew)) as Q2.
    unfold Z.sub in Q1. rewrite inject_Z_plus, inject_Z_opp in Q1. rewrite inject_Z_plus in Q2.
    unfold Z.sub in Hc1. split; lra. }
  eapply act_safe_bind with (P := fun _ _ => True); [apply onward_refl|apply onward_trans| |].
  - unfold spend_challenge. eapply act_safe_bind with (P := fun _ _ => True); [apply onward_refl|apply onward_trans| |by intros []].
    apply safe_tx. intros s Hs Hi. split; [|by destruct (set_nx _ _ _ _ s).1]. apply set_nx_keeps; [done| |done]. unfold onward in Hs. cbv beta in Ht2. lia.
  - intros _ s3 _ _. eapply act_safe_bind with (P := fun _ _ => True); [apply onward_refl|apply onward_trans| |by intros []].
    apply safe_tx. intros s _ Hi. split; [by apply mark_keeps|]. by destruct (mark_passkey_vault_used_on_db _ _ _ s).1.
Qed.

(** Requests of any users on any replicas; time passes. *)
Inductive vault_request : act Store unit -> Prop :=
  | an_open clock hash cred cdj ad sig : agrees clock -> vault_request (_ ← open_vault clock hash cred cdj ad sig; mret tt)
  | a_store caller hash cred key alg blob label : vault_request (_ ← store_vault caller hash cred key alg blob label; mret tt)
  | a_delete caller hash : vault_request (delete_vault caller hash).

Inductive time_goes (s : Store) : Store -> Prop :=
  | goes t : v_now s <= t ->
      time_goes s {| v_now := t; passkey_vault := passkey_vault s; spent := spent s; redeemed := redeemed s |}.

Lemma open_vault_safe clock hash cred cdj ad sig s0 : agrees clock ->
  safe_from onward once_inv s0 (open_vault clock hash cred cdj ad sig) (fun _ _ => True).
Proof.
  intros Hclock. unfold open_vault. apply act_safe_try; [apply onward_refl|apply onward_trans| |done].
  destruct (credential_id_hash cred) as [h|e]; [|done]. rewrite act_bind_ok. destruct (negb _); [done|].
  eapply act_safe_bind; [apply onward_refl|apply onward_trans|apply instant_safe|]. intros began s1 _ _.
  eapply act_safe_bind with (P := fun _ _ => True); [apply onward_refl|apply onward_trans| |].
  - apply safe_tx. intros s _ Hi. split; [|done]. by split; [|apply onward_refl].
  - intros [row|] s2 _ _; [by apply open_row_safe|done].
Qed.

Lemma upsert_keeps hash cred who key alg blob label : keeps onward once_inv (upsert_passkey_vault_on_db hash cred who key alg blob label).
Proof.
  intros s Hi. unfold upsert_passkey_vault_on_db. cbn [snd]. destruct (match passkey_vault s !! hash with Some _ => _ | None => _ end);
    [by apply rows_keep|by split; [|apply onward_refl]].
Qed.

Lemma store_within caller hash cred key alg blob label :
  within onward once_inv (store_vault caller hash cred key alg blob label).
Proof.
  unfold store_vault. apply within_bind; [by apply within_try|]. intros _.
  apply within_bind; [done|]. intros _. apply within_session; [apply onward_refl|].
  apply keeps_bind; [apply onward_trans|apply upsert_keeps|]. intros [r|]; [apply keeps_ret, onward_refl|apply keeps_raise, onward_refl].
Qed.

Lemma delete_within caller hash : within onward once_inv (delete_vault caller hash).
Proof.
  apply within_session; [apply onward_refl|]. intros s Hi. unfold delete_passkey_vault_on_db, writes. cbn [snd].
  destruct (passkey_vault s !! hash); [destruct (String.eqb _ _)|]; [by apply rows_keep|by split; [|apply onward_refl]..].
Qed.

Lemma once_reachable now rows p :
  rtc (pool_step vault_request time_goes)
    {| shared := {| v_now := now; passkey_vault := rows; spent := ∅; redeemed := [] |}; running := ∅ |} p -> once_inv (shared p).
Proof.
  intros Hr. destruct (pool_safe onward once_inv onward_refl onward_trans vault_request time_goes) with
    (p := {| shared := {| v_now := now; passkey_vault := rows; spent := ∅; redeemed := [] |}; running := ∅ |} : Pool Store) (p' := p)
    as [[Hi _] _]; try done.
  - intros h s0 [clock hash cred cdj ad sig Hc|caller hash cred key alg blob label|caller hash] _.
    + eapply act_safe_bind; [apply onward_refl|apply onward_trans|by apply open_vault_safe|done].
    + apply within_safe, within_bind; [apply store_within|done].
    + apply within_safe, delete_within.
  - intros s s' [He Hs] [t Ht]. split; [|unfold onward; simpl; lia]. split; [|done]. intros e Hin. destruct (He e Hin) as (H1 & H2 & H3).
    split; [simpl; lia|done].
  - split; [|done]. split; [cbn; set_solver|]. intros i j d e [=].
Qed.
End once.


(** ** Only the owner *)

Section others.
Context `{VaultEnv} (owner : string).

Definition used_only (r r' : VaultRow) : Prop :=
  vr_credential_id r' = vr_credential_id r /\ vr_pubkey r' = vr_pubkey r /\ vr_public_key r' = vr_public_key r
  /\ vr_alg r' = vr_alg r /\ vr_blob r' = vr_blob r /\ vr_label r' = vr_label r /\ vr_created_at r' = vr_created_at r
  /\ vr_sign_count r <= vr_sign_count r'.

(** The owner's rows are all there, and were at most opened. *)
Definition owned_kept (s s' : Store) : Prop :=
  forall h r, passkey_vault s !! h = Some r -> vr_pubkey r = owner -> exists r', passkey_vault s' !! h = Some r' /\ used_only r r'.

Lemma used_only_refl r : used_only r r.
Proof. repeat split; lia. Qed.
Lemma owned_refl s : owned_kept s s.
Proof. intros h r Hr _. exists r. split; [done|apply used_only_refl]. Qed.
Lemma owned_trans s1 s2 s3 : owned_kept s1 s2 -> owned_kept s2 s3 -> owned_kept s1 s3.
Proof.
  intros H1 H2 h r Hr Ho. destruct (H1 h r Hr Ho) as (r2 & Hr2 & U2). pose proof U2 as (_ & Hp & _).
  destruct (H2 h r2 Hr2) as (r3 & Hr3 & U3); [by rewrite Hp|]. exists r3. split; [done|]. unfold used_only in *. intuition (congruence || lia).
Qed.

Lemma same_rows s s' : passkey_vault s' = passkey_vault s -> owned_kept s s'.
Proof. intros E h r Hr _. exists r. rewrite E. split; [done|apply used_only_refl]. Qed.

(** One row replaced by one that its owner would take for theirs. *)
Lemma row_replaced s h new : (forall r, passkey_vault s !! h = Some r -> vr_pubkey r = owner -> used_only r new) ->
  owned_kept s (with_rows <[h := new]> s).
Proof.
  intros Hn h' r Hr Ho. cbn [with_rows passkey_vault]. destruct (decide (h = h')) as [<-|Hne].
  - exists new. rewrite lookup_insert_eq. split; [done|by apply Hn].
  - exists r. rewrite lookup_insert_ne by done. split; [done|apply used_only_refl].
Qed.

Abbreviation kept m := (keeps owned_kept (fun _ => True) m).

Lemma owned_mark hash n now : kept (mark_passkey_vault_used_on_db hash n now).
Proof.
  intros s _. split; [done|]. unfold mark_passkey_vault_used_on_db. destruct (passkey_vault s !! hash) as [old|] eqn:E; [|apply owned_refl].
  destruct (if n =? 0 then _ else _) eqn:Ec; [|apply owned_refl]. apply row_replaced. rewrite E. intros r [= <-] _.
  unfold used_only. cbn. split_and!; try done. destruct (Z.eqb_spec n 0); lia.
Qed.

Lemma owned_upsert hash cred who key alg blob label : who <> owner -> kept (upsert_passkey_vault_on_db hash cred who key alg blob label).
Proof.
  intros Hw s _. split; [done|]. unfold upsert_passkey_vault_on_db. cbn [snd]. destruct (passkey_vault s !! hash) as [old|] eqn:E.
  - destruct (String.eqb_spec (vr_pubkey old) who) as [Ho|]; [|apply owned_refl]. apply row_replaced. rewrite E. intros r [= <-] Hr. congruence.
  - apply row_replaced. by rewrite E.
Qed.

Lemma owned_delete hash who : who <> owner -> kept (delete_passkey_vault_on_db hash who).
Proof.
  intros Hw s _. split; [done|]. unfold delete_passkey_vault_on_db, writes. cbn [snd].
  destruct (passkey_vault s !! hash) as [old|] eqn:E; [|apply owned_refl]. destruct (String.eqb_spec (vr_pubkey old) who) as [Ho|]; [|apply owned_refl].
  intros h r Hr Hown. exists r. split; [|apply used_only_refl]. cbn [with_rows passkey_vault]. rewrite lookup_delete_ne; [done|]. intros ->. congruence.
Qed.

Lemma owned_nx nonce issued checked n : kept (set_nx nonce issued checked n).
Proof. intros s _. split; [done|]. unfold set_nx. destruct (match spent s !! _ with Some _ => _ | None => _ end); by apply same_rows. Qed.

Lemma open_kept clock hash cred cdj ad sig : within owned_kept (fun _ => True) (open_vault clock hash cred cdj ad sig).
Proof.
  assert (Hr : forall A (f : Store -> A), kept (reads f)) by (intros; apply keeps_reads, owned_refl).
  unfold open_vault. apply within_try; [|done]. apply within_bind; [done|]. intros h. destruct (negb _); [done|].
  apply within_bind; [apply within_tx, Hr|]. intros began. apply within_bind; [apply within_tx, Hr|]. intros [row|]; [|done]. unfold open_row.
  apply within_bind; [apply within_tx, Hr|]. intros t1. apply within_bind; [done|]. intros v. destruct (counter_stalled _ _); [done|].
  apply within_bind; [apply within_tx, Hr|]. intros t2. apply within_bind; [done|]. intros ni. apply within_bind.
  - apply within_bind; [apply within_tx, owned_nx|by intros []].
  - intros _. apply within_bind; [apply within_tx, owned_mark|by intros []].
Qed.

(** Anyone may open; stores and deletions are by others. *)
Inductive others_request : act Store unit -> Prop :=
  | others_open clock hash cred cdj ad sig : others_request (_ ← open_vault clock hash cred cdj ad sig; mret tt)
  | others_store caller hash cred key alg blob label : caller <> owner ->
      others_request (_ ← store_vault caller hash cred key alg blob label; mret tt)
  | others_delete caller hash : caller <> owner -> others_request (delete_vault caller hash).

Lemma others_within h : others_request h -> within owned_kept (fun _ => True) h.
Proof.
  intros [clock hash cred cdj ad sig|caller hash cred key alg blob label Hc|caller hash Hc].
  - apply within_bind; [apply open_kept|done].
  - apply within_bind; [|done]. unfold store_vault. apply within_bind; [by apply within_try|]. intros _.
    apply within_bind; [done|]. intros _. apply within_session; [apply owned_refl|].
    apply keeps_bind; [apply owned_trans|by apply owned_upsert|]. intros [r|]; [apply keeps_ret, owned_refl|apply keeps_raise, owned_refl].
  - apply within_session; [apply owned_refl|]. by apply owned_delete.
Qed.
End others.

(** C27: whatever other users store and delete, and whoever opens, over every interleaving
    with failures: each of [owner]'s rows stays, its passkey, key and blob as they were, and
    its signature counter never goes back. *)
Theorem others_leave_it_alone `{VaultEnv} (owner hash : string) (row : VaultRow) (s : Store) (p : Pool Store) :
  rtc (pool_step (others_request owner) time_goes) {| shared := s; running := ∅ |} p ->
  passkey_vault s !! hash = Some row -> vr_pubkey row = owner ->
  exists row', passkey_vault (shared p) !! hash = Some row' /\ used_only row row'.
Proof.
  intros Hr Hrow Ho. destruct (pool_safe (owned_kept owner) (fun _ => True) (owned_refl owner) (owned_trans owner) (others_request owner) time_goes)
    with (p := {| shared := s; running := ∅ |} : Pool Store) (p' := p) as [_ Hk]; try done.
  - intros h s0 Hh _. by apply within_safe, others_within.
  - intros s1 s2 _ [t Ht]. split; [done|]. by apply same_rows.
  - exact (Hk hash row Hrow Ho).
Qed.

(** ** What the owner stored, their passkey gets back *)

Lemma b64url_back s : b64url_decode (urlsafe_b64encode_unpadded s) = Ok s.
Proof. unfold b64url_decode. by rewrite decode_encode. Qed.

(** Ids in their one spelling are told apart by their bytes. *)
Lemma canonical_b64url v : is_canonical_b64url v = true <-> exists s, v = urlsafe_b64encode_unpadded s.
Proof.
  unfold is_canonical_b64url. split.
  - destruct (b64url_decode v) as [s|]; [|done]. intros <-%String.eqb_eq. by exists s.
  - intros [s ->]. rewrite b64url_back. apply String.eqb_refl.
Qed.

(** What the libraries document of their digests. *)
Class DigestLaws `{VaultEnv} : Prop := {
  sha256_length : forall m, String.length (sha256 m) = 32%nat;
  hmac_length : forall k m, String.length (hmac_sha256 k m) = 32%nat;
}.

Section honest.
Context `{DigestLaws}.

(** A challenge issued at [now0] is accepted for the next 119 seconds. *)
Lemma issued_accepted nonce now0 c now : String.length nonce = NONCE_BYTES -> (0 <= now0 /\ now0 < inject_Z (2 ^ 53))%Q ->
  issue_challenge nonce now0 = Ok c -> (now0 <= now /\ now <= now0 + 119)%Q ->
  exists issued, read_challenge c now = Ok (nonce, issued).
Proof.
  intros Hn [Hpos H53] (issued & Ei & [= <-])%res_bind_Ok [Hlo Hhi]. exists issued. apply to_bytes_back in Ei as [Hlen Hval].
  unfold read_challenge. rewrite b64url_back. cbn [mbind res_mbind].
  rewrite !chars_append, chars_of_chars, app_assoc. set (mac := hmac_sha256 challenge_key (nonce ++ of_chars issued)).
  assert (Hl : length (chars nonce) = NONCE_BYTES) by (by rewrite length_chars).
  assert (Hm : length (chars mac) = 32%nat) by (rewrite length_chars; apply hmac_length).
  rewrite <- app_assoc, !length_app, Hl, Hlen, Hm. cbn [Nat.add NONCE_BYTES Nat.eqb negb].
  assert (drop 24 (chars nonce ++ issued ++ chars mac)%list = chars mac) as ->
    by (rewrite app_assoc; apply drop_app_length'; by rewrite length_app, Hl, Hlen).
  rewrite take_app_length' by (by rewrite Hl). rewrite drop_app_length' by (by rewrite Hl). rewrite take_app_length' by done.
  rewrite !of_chars_chars. replace (of_chars (chars nonce ++ issued)%list) with (nonce ++ of_chars issued)
    by (rewrite <- (of_chars_chars (nonce ++ of_chars issued)), chars_append, chars_of_chars; done).
  fold mac. rewrite String.eqb_refl. cbn [negb]. unfold challenge_age. rewrite Hval.
  set (z := Z.quot (Qnum now0) (Zpos (Qden now0))) in *.
  assert (Hz : (inject_Z z <= now0 /\ now0 < inject_Z z + 1)%Q).
  { assert (Hnum : 0 <= Qnum now0) by (unfold Qle in Hpos; simpl in Hpos; lia). unfold z. rewrite Z.quot_div_nonneg by lia. unfold Qle, Qlt. simpl.
    pose proof (Z.div_mod (Qnum now0) (Zpos (Qden now0)) ltac:(lia)) as Hdm.
    pose proof (Z.mod_pos_bound (Qnum now0) (Zpos (Qden now0)) ltac:(lia)) as Hb. split; nia. }
  destruct Hz as [Hz1 Hz2].
  assert (Hzr : Z.abs z < 2 ^ 53).
  { assert (inject_Z z < inject_Z (2 ^ 53))%Q as Hq by (eapply Qle_lt_trans; [exact Hz1|exact H53]). rewrite <- Zlt_Qlt in Hq.
    assert (inject_Z (-1) < inject_Z z)%Q as Hq0 by (change (inject_Z (-1)) with (-1)%Q; lra). rewrite <- Zlt_Qlt in Hq0. lia. }
  assert (Hage : (0 <= fsub now (rn (inject_Z z)) /\ fsub now (rn (inject_Z z)) <= inject_Z 120)%Q).
  { unfold fsub. pose proof (rn_int z Hzr) as Hrz. split.
    - apply (rn_ge_int _ 0); [done|]. change (inject_Z 0) with 0%Q. lra.
    - apply (rn_le_int _ 120); [done|]. change (inject_Z 120) with 120%Q. lra. }
  destruct Hage as [Ha1 Ha2].
  assert (flt (fsub now (rn (inject_Z z))) (inject_Z (- CLOCK_SKEW_SECONDS)) = false) as ->.
  { apply not_true_iff_false. rewrite flt_Qlt. change (inject_Z (- CLOCK_SKEW_SECONDS)) with (-5)%Q. lra. }
  assert (flt (inject_Z CHALLENGE_TTL_SECONDS) (fsub now (rn (inject_Z z))) = false) as ->.
  { apply not_true_iff_false. rewrite flt_Qlt. change (inject_Z CHALLENGE_TTL_SECONDS) with (inject_Z 120). lra. }
  done.
Qed.

(** What the browser and the authenticator hand over: the page's data, which the
    authenticator signs with its own. *)
Record ceremony (challenge origin : string) (pk : string) (alg : Z) (raw auth sig : string) (count : Z) : Prop := {
  ceremony_data : exists d, json_of_bytes raw = Ok (JObj d) /\ dget "type" d = JStr "webauthn.get" /\ dget "origin" d = JStr origin
                    /\ dget "crossOrigin" d <> JBool true /\ dget "challenge" d = JStr challenge;
  ceremony_auth : exists rp flags rest, rp_id_of origin = Ok rp /\ auth = sha256 (utf8 rp) ++ String flags (of_chars (big_endian 4 count) ++ rest)
                    /\ Z.testbit (chr_code flags) 0 = true /\ Z.testbit (chr_code flags) 2 = true;
  ceremony_count : 0 <= count < 256 ^ 4;
  ceremony_signed : exists key, load_public_key pk alg = Ok key /\ key_verifies key alg sig (auth ++ sha256 raw) = true;
}.

Lemma land_bit f k m : Z.testbit f k = true -> m = Z.shiftl 1 k -> 0 <= k -> (Z.land f m =? 0) = false.
Proof.
  intros Hb -> Hk. apply Z.eqb_neq. intros E. apply (f_equal (fun x => Z.testbit x k)) in E.
  rewrite Z.land_spec, Hb, Z.shiftl_spec, Z.sub_diag, Z.bits_0 in E by lia. done.
Qed.

Lemma ceremony_verifies challenge origin pk alg raw auth sig count (check : string -> res exn string) n :
  ceremony challenge origin pk alg raw auth sig count -> origin ∈ allowed_origins -> challenge <> "" -> alg ∈ SUPPORTED_ALGS ->
  check challenge = Ok n ->
  verify_assertion (urlsafe_b64encode_unpadded raw) (urlsafe_b64encode_unpadded auth) (urlsafe_b64encode_unpadded sig) pk alg allowed_origins check
  = Ok {| va_challenge := challenge; va_sign_count := count |}.
Proof.
  intros [(d & Hj & Ht & Ho & Hx & Hc) (rp & flags & rest & Hrp & -> & Hf0 & Hf2) Hn (key & Hk & Hs)] Hin Hne Halg Hcheck.
  unfold verify_assertion. rewrite !b64url_back. cbn [mbind res_mbind]. rewrite Hj. cbn [mbind res_mbind].
  unfold read_client_data. rewrite Ht, Ho, Hc. cbn [json_is_str]. rewrite String.eqb_refl, bool_decide_true by done. cbn [negb].
  assert (match dget "crossOrigin" d with JBool true => true | _ => false end = false) as -> by (destruct (dget "crossOrigin" d) as [|[]| | | | |]; done).
  apply String.eqb_neq in Hne. rewrite Hne. cbn [mbind res_mbind]. rewrite Hcheck. cbn [mbind res_mbind].
  set (auth := sha256 (utf8 rp) ++ _) in *.
  assert (Hchars : chars auth = (chars (sha256 (utf8 rp)) ++ flags :: big_endian 4 count ++ chars rest)%list).
  { unfold auth. rewrite chars_append. by f_equal. }
  assert (H32 : length (chars (sha256 (utf8 rp))) = 32%nat) by (rewrite length_chars; apply sha256_length).
  assert ((String.length auth <? AUTH_DATA_MIN_LEN)%nat = false) as ->.
  { apply Nat.ltb_ge. rewrite <- length_chars, Hchars, length_app, H32. simpl length. unfold AUTH_DATA_MIN_LEN. lia. }
  cbn [mbind res_mbind]. rewrite Hrp. cbn [mbind res_mbind]. unfold read_auth_data. rewrite Hchars.
  rewrite take_app_length' by done. rewrite bool_decide_true by done. cbn [negb].
  rewrite lookup_app_r by lia. rewrite H32. change ((flags :: (big_endian 4 count ++ chars rest)%list) !! (32 - 32)%nat) with (Some flags).
  cbn [default from_option id].
  rewrite (land_bit _ 0 FLAG_USER_PRESENT Hf0), (land_bit _ 2 FLAG_USER_VERIFIED Hf2) by (reflexivity || lia). cbn [orb].
  assert (drop 33 (chars (sha256 (utf8 rp)) ++ flags :: big_endian 4 count ++ chars rest)%list = (big_endian 4 count ++ chars rest)%list) as ->.
  { replace 33%nat with (length (chars (sha256 (utf8 rp))) + 1)%nat by lia. by rewrite drop_app_add. }
  rewrite take_app_length' by (by rewrite big_endian_length). rewrite from_bytes_big_endian by lia. rewrite Z.mod_small by lia.
  cbn [mbind res_mbind]. rewrite Hk. cbn [mbind res_mbind]. unfold verify_signature. rewrite bool_decide_true by done. by rewrite Hs.
Qed.

(** What an accepted store leaves. *)
Lemma store_leaves caller hash cred pk alg blob label s e s1 :
  run_act (store_vault caller hash cred pk alg blob label) s = (Ok e, s1) ->
  credential_id_hash cred = Ok hash /\ alg ∈ SUPPORTED_ALGS /\ validate_blob blob caller cred = Ok tt
  /\ exists row, passkey_vault s1 !! hash = Some row /\ e = (hash, row) /\ vr_pubkey row = caller /\ vr_public_key row = pk /\ vr_alg row = alg
       /\ vr_blob row = blob /\ vr_sign_count row = 0.
Proof.
  unfold store_vault. rewrite run_act_bind, run_act_try. cbn [run_act].
  destruct (store_checks _ _ _ _ _) as [[]|e1] eqn:Ec; [|done]. rewrite run_act_bind. cbn [run_act].
  destruct (validate_blob _ _ _) as [[]|]; [|done]. rewrite run_act_session. unfold committed, mbind, TX_mbind, upsert_passkey_vault_on_db.
  set (row := match passkey_vault s !! hash with Some _ => _ | None => _ end). intros Hrun.
  unfold store_checks in Ec. destruct (is_canonical_b64url cred); [|done]. cbn [negb] in Ec. apply res_bind_Ok in Ec as (h & Hh & Ec).
  destruct (String.eqb_spec h hash) as [->|]; [|done]. destruct (bool_decide _) eqn:Ea; [|done]. apply bool_decide_eq_true in Ea.
  split_and!; [done|done|done|]. destruct row as [r|] eqn:Er; [|done]. injection Hrun as <- <-. exists r.
  cbn [with_rows passkey_vault]. rewrite lookup_insert_eq. split; [done|]. split; [done|].
  unfold row in Er. destruct (passkey_vault s !! hash) as [old|]; [|by injection Er as <-].
  destruct (String.eqb_spec (vr_pubkey old) caller); [|done]. by injection Er as <-.
Qed.

(** C26: what the owner stored is what their passkey gets back.  After a store was accepted,
    as long as the row stays as it was left, an honest ceremony on an allowed page, over a
    challenge issued at most 119 seconds before by the replicas' clocks and not yet spent,
    opens the vault and returns exactly the stored blob; it spends its challenge. *)
Theorem honest_ceremony_opens caller hash cred pk alg blob label s e s1 s2 nonce now0 c origin raw auth sig count (clock : Z -> Q) :
  run_act (store_vault caller hash cred pk alg blob label) s = (Ok e, s1) -> passkey_vault s2 !! hash = passkey_vault s1 !! hash ->
  String.length nonce = NONCE_BYTES -> (0 <= now0 /\ now0 < inject_Z (2 ^ 53))%Q -> issue_challenge nonce now0 = Ok c ->
  (now0 <= clock (v_now s2) /\ clock (v_now s2) <= now0 + 119)%Q -> spent s2 !! spend_key nonce = None ->
  origin ∈ allowed_origins -> ceremony c origin pk alg raw auth sig count ->
  exists s3, run_act (open_vault clock hash cred (urlsafe_b64encode_unpadded raw) (urlsafe_b64encode_unpadded auth)
                        (urlsafe_b64encode_unpadded sig)) s2 = (Ok blob, s3)
    /\ rd_nonce <$> redeemed s3 = ((rd_nonce <$> redeemed s2) ++ [nonce])%list.
Proof.
  intros Hstore Hrow Hn Hnow Hc Hfresh Hunspent Hin Hcer.
  destruct (store_leaves _ _ _ _ _ _ _ _ _ _ Hstore) as (Hh & Halg & _ & row & Hr & _ & _ & Hpk & Ha & Hb & Hcount).
  destruct (issued_accepted nonce now0 c (clock (v_now s2)) Hn Hnow Hc Hfresh) as [issued Hread].
  assert (Hcne : c <> "").
  { intros ->. unfold read_challenge in Hread. vm_compute in Hread. done. }
  assert (Hver := ceremony_verifies c origin pk alg raw auth sig count (fun x => check_challenge x (clock (v_now s2))) nonce Hcer Hin Hcne Halg).
  unfold check_challenge in Hver. rewrite Hread in Hver. specialize (Hver eq_refl). fold check_challenge in Hver.
  unfold open_vault. rewrite run_act_try, run_act_bind. cbn [run_act]. rewrite Hh, String.eqb_refl. cbn [negb].
  unfold instant. rewrite run_act_bind, run_act_tx. cbn [reads]. rewrite run_act_bind, run_act_tx. unfold select_passkey_vault_by_hash_on_db, reads.
  rewrite Hrow, Hr. unfold open_row, instant. rewrite run_act_bind, run_act_tx. unfold reads. rewrite run_act_bind. cbn [run_act].
  rewrite Hpk, Ha. unfold check_challenge. rewrite Hver. cbn [va_sign_count va_challenge].
  assert (counter_stalled count (vr_sign_count row) = false) as ->.
  { rewrite Hcount. unfold counter_stalled. destruct Hcer as [_ _ Hcnt _]. destruct (Z.eqb_spec count 0); [done|]. simpl. lia. }
  rewrite run_act_bind, run_act_tx, run_act_bind. cbn [run_act]. rewrite Hread. cbn [fst snd].
  rewrite run_act_bind. unfold spend_challenge. rewrite run_act_bind, run_act_tx. unfold set_nx. rewrite Hunspent.
  set (s3 := {| v_now := _; passkey_vault := _; spent := _; redeemed := _ |}). cbn [run_act mret act_mret].
  rewrite run_act_bind, run_act_tx. unfold mark_passkey_vault_used_on_db.
  change (passkey_vault s3) with (passkey_vault s2). rewrite Hrow, Hr, Hcount.
  assert ((if count =? 0 then 0 =? 0 else 0 <? count) = true) as ->.
  { destruct Hcer as [_ _ Hcnt _]. destruct (Z.eqb_spec count 0); [done|]. lia. }
  cbn [run_act mret act_mret]. rewrite Hb. eexists. split; [reflexivity|]. cbn [with_rows redeemed s3]. by rewrite fmap_app.
Qed.
End honest.

(** ** Refusals *)

(** What the libraries document raising: a key that does not load or JSON that does not
    parse is a ValueError; the allowed origins have hosts that parse. *)
Class RefusalLaws `{VaultEnv} : Prop := {
  load_raises : forall raw e, load_der raw = Raise e -> value_or_type e = true;
  json_raises : forall raw e, json_of_bytes raw = Raise e -> e = ValueError;
  origins_parse : forall o, o ∈ allowed_origins -> exists rp, rp_id_of o = Ok rp;
}.

Section refusals.
Context `{RefusalLaws}.

(** Fails with nothing but [AssertionInvalid]. *)
Definition only_invalid {A} (r : res exn A) : Prop := match r with Ok _ => True | Raise e => e = AssertionInvalid end.

Lemma only_invalid_bind {A B} (r : res exn A) (f : A -> res exn B) :
  only_invalid r -> (forall a, r = Ok a -> only_invalid (f a)) -> only_invalid (r ≫= f).
Proof. destruct r as [a|e]; [intros _ Hf; by apply Hf|done]. Qed.

Lemma decode_invalid v : only_invalid (b64url_decode v).
Proof. unfold b64url_decode. by destruct (urlsafe_b64decode_unpadded v). Qed.

Lemma load_invalid pk alg : only_invalid (load_public_key pk alg).
Proof.
  unfold load_public_key. apply only_invalid_bind; [apply decode_invalid|]. intros raw _. apply only_invalid_bind.
  - destruct (load_der raw) as [k|e] eqn:E; [done|]. by rewrite (load_raises raw e E).
  - intros key _. destruct (negb _); [done|]. destruct key as [[] m|m|n e m|m]; try done. by destruct (_ || _).
Qed.

Lemma read_challenge_invalid c now : only_invalid (read_challenge c now).
Proof.
  unfold read_challenge. apply only_invalid_bind; [apply decode_invalid|]. intros raw _.
  destruct (negb _); [done|]. destruct (negb _); [done|]. by destruct (_ || _).
Qed.

Lemma client_data_invalid v allowed : only_invalid (read_client_data v allowed)
  /\ forall c o, read_client_data v allowed = Ok (c, o) -> o ∈ allowed.
Proof.
  unfold read_client_data. destruct v as [| | | | | |d]; try done. destruct (negb _); [done|]. destruct (dget "origin" d) as [| | | |o| |]; try done.
  case_bool_decide as Hin; cbn [negb]; [|done]. destruct (match dget "crossOrigin" d with JBool true => true | _ => false end); [done|].
  destruct (dget "challenge" d) as [| | | |c| |]; try done. destruct (String.eqb c ""); [done|]. split; [done|]. by intros c' o' [= _ <-].
Qed.

Lemma verify_invalid cdj ad sig pk alg check : (forall c, only_invalid (check c)) ->
  only_invalid (verify_assertion cdj ad sig pk alg allowed_origins check).
Proof.
  intros Hc. unfold verify_assertion. apply only_invalid_bind; [apply decode_invalid|]. intros raw _. apply only_invalid_bind.
  { destruct (json_of_bytes raw) as [v|e] eqn:E; [done|]. rewrite (json_raises raw e E). by rewrite bool_decide_true. }
  intros v _. destruct (client_data_invalid v allowed_origins) as [Hv Ho]. apply only_invalid_bind; [done|]. intros [c o] Eco.
  apply only_invalid_bind; [apply Hc|]. intros _ _. apply only_invalid_bind; [apply decode_invalid|]. intros auth _.
  apply only_invalid_bind; [by destruct (_ <? _)%nat|]. intros _ _. apply only_invalid_bind.
  { destruct (origins_parse o (Ho c o Eco)) as [rp ->]. done. }
  intros rp _. apply only_invalid_bind; [unfold read_auth_data; destruct (negb _); [done|]; by destruct (_ || _)|]. intros n _.
  apply only_invalid_bind; [apply load_invalid|]. intros key _. apply only_invalid_bind; [apply decode_invalid|]. intros sg _.
  apply only_invalid_bind; [unfold verify_signature; destruct (bool_decide _); [by destruct (key_verifies _ _ _ _)|done]|done].
Qed.

Lemma open_row_invalid clock hash cdj ad sig row began s : only_invalid (run_act (open_row clock hash cdj ad sig row began) s).1.
Proof.
  unfold open_row, instant, reads. rewrite run_act_bind, run_act_tx, run_act_bind. cbn [run_act].
  pose proof (verify_invalid cdj ad sig (vr_public_key row) (vr_alg row) (fun c => check_challenge c (clock (v_now s)))) as Hv.
  destruct (verify_assertion _ _ _ _ _ _ _) as [v|e].
  - destruct (counter_stalled _ _); [done|]. rewrite run_act_bind, run_act_tx, run_act_bind. cbn [run_act].
    pose proof (read_challenge_invalid (va_challenge v) (clock (v_now s))) as Hr. destruct (read_challenge _ _) as [ni|e]; [|done].
    rewrite run_act_bind. unfold spend_challenge. rewrite run_act_bind, run_act_tx. unfold set_nx.
    destruct (match spent s !! _ with Some _ => _ | None => _ end); [done|]. cbn [run_act mret act_mret].
    rewrite run_act_bind, run_act_tx. unfold mark_passkey_vault_used_on_db. destruct (passkey_vault _ !! hash); [|done].
    by destruct (if _ =? 0 then _ else _).
  - apply Hv. intros c. unfold check_challenge. pose proof (read_challenge_invalid c (clock (v_now s))). by destruct (read_challenge c _).
Qed.

(** Whatever is wrong (the row, the page, the challenge, the signature, the counter), a
    refused open is answered 404 and nothing else. *)
Lemma open_refusal_uniform clock hash cred cdj ad sig s e :
  (run_act (open_vault clock hash cred cdj ad sig) s).1 = Raise e -> e = HTTPException 404.
Proof.
  unfold open_vault. rewrite run_act_try. set (body := (_ ≫= _)).
  assert (Hb : only_invalid (run_act body s).1).
  { unfold body. rewrite run_act_bind. cbn [run_act].
    assert (Hc : only_invalid (credential_id_hash cred)) by (apply only_invalid_bind; [apply decode_invalid|done]).
    destruct (credential_id_hash cred) as [h|e0]; [|exact Hc]. destruct (negb _); [done|]. unfold instant, select_passkey_vault_by_hash_on_db, reads.
    rewrite run_act_bind, run_act_tx, run_act_bind, run_act_tx.
    destruct (passkey_vault s !! hash); [apply open_row_invalid|done]. }
  destruct (run_act body s) as [[b|e0] s']; [done|]. cbn in Hb. subst e0. cbn [run_act throw]. rewrite bool_decide_true by done. by intros [= <-].
Qed.
End refusals.

(** A key of a type the library does not support is answered as an internal error, not
    as the 422 of every other unusable key. *)
Lemma unsupported_key_escapes `{VaultEnv} caller hash cred pk alg blob label raw s :
  is_canonical_b64url cred = true -> credential_id_hash cred = Ok hash -> alg ∈ SUPPORTED_ALGS ->
  b64url_decode pk = Ok raw -> load_der raw = Raise UnsupportedAlgorithm ->
  (run_act (store_vault caller hash cred pk alg blob label) s).1 = Raise UnsupportedAlgorithm.
Proof.
  intros Hc Hh Ha Hp Hl. unfold store_vault. rewrite run_act_bind, run_act_try. cbn [run_act]. unfold store_checks.
  rewrite Hc. cbn [negb]. rewrite Hh. cbn [mbind res_mbind]. rewrite String.eqb_refl, bool_decide_true by done. cbn [negb].
  unfold load_public_key. rewrite Hp. cbn [mbind res_mbind]. rewrite Hl. done.
Qed.

(** ** One vault *)

Module VaultScenario.

Definition nonce : string := "0123456789abcdef".
Definition mac : string := of_chars (replicate 32 "m"%char).
Definition digest : string := of_chars (replicate 32 "h"%char).
(** Issued at second 1000. *)
Definition challenge : string := urlsafe_b64encode_unpadded (nonce ++ of_chars (big_endian 8 1000) ++ mac).
Definition origin : string := "https://brainstorm.world".
Definition alice : string := of_chars (replicate 64 "a"%char).
Definition credential : string := urlsafe_b64encode_unpadded "passkey-1".
Definition hash : string := bytes_hex (chars digest).

#[export] Instance bench : VaultEnv := {|
  auth_secret_key := "secret"; passkey_origins := " https://brainstorm.world/ ,"; frontend_url := "";
  sha256 := fun _ => digest; hmac_sha256 := fun _ _ => mac;
  load_der := fun raw => Ok (EdKey raw);
  key_verifies := fun _ _ signature _ => String.eqb signature "signed";
  json_of_bytes := fun _ => Ok (JObj [("type", JStr "webauthn.get"); ("origin", JStr origin); ("challenge", JStr challenge)]);
  json_of_text := fun _ => Ok (JObj [("v", JInt 1); ("pubkey", JStr alice); ("credentialId", JStr credential)]);
  origin_host_ok := fun _ => true;
|}.

#[export] Instance bench_digests : DigestLaws.
Proof. split; done. Qed.

Definition exact_clock (t : Z) : Q := t # 1000.
Definition empty : Store := {| v_now := 900000; passkey_vault := ∅; spent := ∅; redeemed := [] |}.
Definition stored : Store := (run_act (store_vault alice hash credential (urlsafe_b64encode_unpadded "key") ALG_EDDSA "sealed" None) empty).2.
Definition later : Store := {| v_now := 1030000; passkey_vault := passkey_vault stored; spent := ∅; redeemed := [] |}.
Definition auth : string := digest ++ String "005"%char (of_chars (big_endian 4 7)).
Definition opening : act Store string :=
  open_vault exact_clock hash credential (urlsafe_b64encode_unpadded "page") (urlsafe_b64encode_unpadded auth) (urlsafe_b64encode_unpadded "signed").

(** The second use of an assertion is refused, and so is a counter that stood still. *)
Example opening_twice :
  (run_act opening later).1 = Ok "sealed" /\ (run_act opening (run_act opening later).2).1 = Raise (HTTPException 404).
Proof. by vm_compute. Qed.

Lemma honest_ceremony_opens_witness : exists s3, run_act opening later = (Ok "sealed", s3) /\ rd_nonce <$> redeemed s3 = [nonce].
Proof.
  destruct (run_act (store_vault alice hash credential (urlsafe_b64encode_unpadded "key") ALG_EDDSA "sealed" None) empty) as [[e|x] s1] eqn:E;
    [|exfalso; apply (f_equal fst) in E; vm_compute in E; discriminate].
  assert (Hs : passkey_vault later = passkey_vault s1) by (unfold later, stored; rewrite E; reflexivity).
  refine (honest_ceremony_opens alice hash credential (urlsafe_b64encode_unpadded "key") ALG_EDDSA "sealed" None empty e s1 later nonce 1000 challenge
    origin "page" auth "signed" 7 exact_clock E _ _ _ _ _ _ _ _).
  - by rewrite Hs.
  - reflexivity.
  - split; [done|reflexivity].
  - vm_compute. reflexivity.
  - split; vm_compute; discriminate.
  - reflexivity.
  - apply (bool_decide_eq_true_1 (origin ∈ allowed_origins)). vm_compute. reflexivity.
  - split.
    + eexists. split_and!; [reflexivity|reflexivity|reflexivity|discriminate|reflexivity].
    + exists "brainstorm.world", "005"%char, "". split_and!; vm_compute; reflexivity.
    + lia.
    + exists (EdKey "key"). split; vm_compute; reflexivity.
Defined.

Lemma others_leave_it_alone_witness :
  exists row', passkey_vault (run_act opening later).2 !! hash = Some row' /\ vr_sign_count row' = 7 /\ vr_blob row' = "sealed".
Proof.
  destruct (passkey_vault later !! hash) as [row|] eqn:E; [|vm_compute in E; discriminate].
  assert (Ho : vr_pubkey row = alice) by (vm_compute in E; injection E as <-; reflexivity).
  assert (Hb : vr_blob row = "sealed") by (vm_compute in E; injection E as <-; reflexivity).
  destruct (others_leave_it_alone alice hash row later {| shared := (run_act (_ ← opening; mret tt) later).2; running := ∅ |}) as (row' & Hr & Hu).
  - exact (pool_runs (others_request alice) time_goes (_ ← opening; mret tt) 0%nat {| shared := later; running := ∅ |} (others_open _ _ _ _ _ _ _) eq_refl).
  - exact E.
  - exact Ho.
  - exists row'. split; [|split].
    + rewrite run_act_bind in Hr. by destruct (run_act opening later) as [[x|x] s'].
    + vm_compute in Hr. injection Hr as <-. reflexivity.
    + destruct Hu as (_ & _ & _ & _ & -> & _). exact Hb.
Defined.

End VaultScenario.
