(* ===== verification/Sessions.v ===== *)
(** * Login, sessions and signed requests

    [src/app/services/auth_service.py], [src/app/services/session_service.py],
    [src/app/repos/session_version_repo.py], [src/app/utils/auth/],
    [src/app/utils/api_validators.py] and the endpoints that revoke sessions.

    A login answers a challenge kept in Redis; the token carries the user's session
    version, and a token whose version is behind is refused.  Versions are read
    through a Redis cache of a minute.  [Auth] is the challenges, the versions in the
    database, the cache, real time in milliseconds, and a history: what was issued,
    consumed, logged in with, bumped and accepted, and how long each write to the cache came after the
    read it carries.  Handlers are cut at their statements and commands. *)

From Stdlib Require Import Ascii String.
From S2P Require Import Prelude Json Url Base64 Atomic NostrTags Onboarding.
From stdpp Require Import list.
Local Open Scope string_scope.
Local Open Scope Z_scope.

(** ** Libraries and settings *)

Record JWTData := { jd_pubkey : string; jd_is_admin : bool; jd_session_version : Z }.

(** PyJWT: [jwt_encode] signs claims with an expiry (in seconds); [jwt_decode] at a moment checks the
    signature, the expiry with its leeway and the required claims.  [coerce_bool] and
    [coerce_int] are pydantic's reading of a claim. *)
Class AuthEnv := {
  auth_sdk :: NostrSdk;
  sdk_parse : string -> option SdkEvent;
  sdk_tags : SdkEvent -> list (list string);
  sdk_created_at : SdkEvent -> Z;
  jwt_encode : list (string * json) -> string;
  jwt_decode : string -> Z -> option (list (string * json));
  coerce_bool : json -> option bool;
  coerce_int : json -> option Z;
  utf8_strict : string -> option string;
  sha256_hex : string -> string;
  host_parses : string -> bool;
  admin_enabled : bool;
  whitelisted_pubkeys : list string;
  auth_access_token_expire_minutes : Z;
  public_base_url : string;
  open_ranking_require_auth : bool;
  open_ranking_nwt_max_lifetime_seconds : Z;
}.

Section auth.
Context `{AuthEnv}.

(** ** Tokens ([auth_util.py]) *)

(** [now] in seconds. *)
Definition create_jwt_token (nostr_pubkey : string) (ttl_seconds : Z) (is_admin : bool) (session_version now : Z) : string :=
  jwt_encode [("sub", JStr nostr_pubkey); ("iat", JInt now); ("exp", JInt (now + ttl_seconds)); ("token_type", JStr "USER");
              ("is_admin", JBool is_admin); ("session_version", JInt session_version)].

Definition decrypt_jwt_token (token : string) (now : Z) : option JWTData :=
  claims ← jwt_decode token now;
  let get k d := default d (dict_get k claims) in
  match dget "sub" claims with
  | JStr who =>
      if negb (json_is_str (get "token_type" (JStr "USER")) "USER") then None
      else
        admin ← coerce_bool (get "is_admin" (JBool false));
        version ← coerce_int (get "session_version" (JInt 0));
        Some {| jd_pubkey := who; jd_is_admin := admin; jd_session_version := version |}
  | _ => None
  end.

Definition is_whitelisted (pubkey : string) : bool := admin_enabled && bool_decide (pubkey ∈ whitelisted_pubkeys).

Definition generate_authentication_token (nostr_pubkey : string) (session_version now : Z) : string :=
  create_jwt_token nostr_pubkey (60 * auth_access_token_expire_minutes) (is_whitelisted nostr_pubkey) session_version now.

(** ** Signed requests ([nip98.py], [nwt.py]) *)

Definition NIP98_KIND : Z := 27235.
Definition NIP98_MAX_CLOCK_SKEW_SECONDS : Z := 60.
Definition NWT_KIND : Z := 27519.
Definition NWT_CLOCK_SKEW_SECONDS : Z := 60.

Record HttpRequest := {
  rq_method : string;
  rq_path : string;
  rq_query : string;
  rq_body : string;
  rq_authorization : option string;
  rq_access_token : option string;
}.

Definition expected_request_url (r : HttpRequest) : string :=
  let base := py_rstrip_chr "/" public_base_url in
  if String.eqb (rq_query r) "" then base ++ rq_path r else base ++ rq_path r ++ "?" ++ rq_query r.

Definition values_of (tags : list (list string)) (name : string) : list string :=
  omap (fun t => match t with t0 :: t1 :: _ => if String.eqb t0 name then Some t1 else None | _ => None end) tags.

Definition unauthorized : exn := HTTPException 401.
Definition bad_token : exn := HTTPException 403.
Definition or_raise {A} (e : exn) (o : option A) : res exn A := match o with Some a => Ok a | None => Raise e end.
Definition guard (b : bool) (e : exn) : res exn unit := if b then Ok tt else Raise e.

(** A tag's value, when it is there and not empty. *)
Definition nonempty (v : option string) : option string :=
  match v with Some s => if String.eqb s "" then None else Some s | None => None end.

(** [now] is the clock in whole seconds. *)
Definition validate_nip98_event (r : HttpRequest) (encoded_event : string) (now : Z) : res exn string :=
  raw ← or_raise unauthorized (b64decode_strict (py_strip encoded_event));
  decoded ← or_raise unauthorized (utf8_strict raw);
  event ← or_raise unauthorized (sdk_parse decoded);
  _ ← guard (sdk_kind event =? NIP98_KIND) unauthorized;
  _ ← guard (sdk_verify event) unauthorized;
  _ ← guard (Z.abs (now - sdk_created_at event) <=? NIP98_MAX_CLOCK_SKEW_SECONDS) unauthorized;
  let tags := sdk_tags event in
  method ← or_raise unauthorized (nonempty (head (values_of tags "method")));
  _ ← guard (String.eqb (py_upper method) (py_upper (rq_method r))) unauthorized;
  u ← or_raise unauthorized (nonempty (head (values_of tags "u")));
  _ ← guard (String.eqb u (expected_request_url r)) unauthorized;
  _ ← (if String.eqb (rq_body r) "" then Ok tt
       else payload ← or_raise unauthorized (nonempty (head (values_of tags "payload")));
            guard (String.eqb (py_lower payload) (sha256_hex (rq_body r))) unauthorized);
  Ok (sdk_author event).

Definition expected_audience : res exn string :=
  let netloc := u_netloc (split_parts (chars public_base_url)) in
  if host_parses (of_chars netloc) then
    Ok (match hostname_of lower_chr netloc with [] => public_base_url | h => of_chars h end)
  else Raise ValueError.

Definition b64url_decode_no_pad (value : string) : option string := urlsafe_b64decode_unpadded (py_strip value).

Definition parse_unix_int (value : option string) : option Z := value ≫= py_int.

Definition validate_nwt_token (encoded_token : string) (now : Z) : res exn string :=
  raw ← or_raise unauthorized (b64url_decode_no_pad encoded_token);
  decoded ← or_raise unauthorized (utf8_strict raw);
  event ← or_raise unauthorized (sdk_parse decoded);
  _ ← guard (sdk_kind event =? NWT_KIND) unauthorized;
  _ ← guard (sdk_verify event) unauthorized;
  let tags := sdk_tags event in
  let issued_at := default (sdk_created_at event) (parse_unix_int (head (values_of tags "iat"))) in
  _ ← guard (negb (NWT_CLOCK_SKEW_SECONDS <? issued_at - now)) bad_token;
  _ ← guard (match parse_unix_int (head (values_of tags "nbf")) with
             | Some nbf => negb (now + NWT_CLOCK_SKEW_SECONDS <? nbf)
             | None => true
             end) bad_token;
  exp ← or_raise bad_token (parse_unix_int (head (values_of tags "exp")));
  _ ← guard (negb (exp <=? now - NWT_CLOCK_SKEW_SECONDS)) bad_token;
  _ ← guard (negb (open_ranking_nwt_max_lifetime_seconds <? exp - issued_at)) bad_token;
  expected_aud ← expected_audience;
  let aud_values := values_of tags "aud" in
  _ ← guard (negb (bool_decide (aud_values = []))) bad_token;
  _ ← guard (bool_decide (expected_aud ∈ aud_values)) bad_token;
  Ok (sdk_author event).

Definition extract_nwt_from_header (r : HttpRequest) : option string :=
  match nonempty (rq_authorization r) with
  | None => None
  | Some header =>
      match partition_chars " " (strip_chars (chars header)) with
      | Some (scheme, token) =>
          if negb (String.eqb (py_lower (of_chars scheme)) "nostr") || bool_decide (token = []) then None
          else Some (py_strip (of_chars token))
      | None => None
      end
  end.

Definition optional_nwt_signer (r : HttpRequest) (now : Z) : res exn (option string) :=
  if negb open_ranking_require_auth then Ok None
  else
    token ← or_raise unauthorized (nonempty (extract_nwt_from_header r));
    Some <$> validate_nwt_token token now.

(** ** The state *)

Record CacheEntry := { ce_version : Z; ce_due : Z; ce_read_at : Z }.
Record Issue := { is_nonce : string; is_pubkey : string; is_at : Z }.
Record Consumption := { co_nonce : string; co_pubkey : string; co_at : Z }.
Record Login := { lo_nonce : string; lo_pubkey : string; lo_began : Z }.
Record Bump := { bu_pubkey : string; bu_version : Z; bu_at : Z }.
Record Acceptance := { ac_pubkey : string; ac_version : Z; ac_began : Z }.

Record History := {
  issues : list Issue;
  consumed : list Consumption;
  logins : list Login;
  bumps : list Bump;
  stalls : list Z;
  accepted : list Acceptance;
}.

Record Auth := {
  au_now : Z;
  challenges : gmap string (string * Z);
  versions : gmap string Z;
  version_cache : gmap string CacheEntry;
  history : History;
}.

Definition note_issue (i : Issue) (h : History) : History :=
  {| issues := issues h ++ [i]; consumed := consumed h; logins := logins h; bumps := bumps h; stalls := stalls h; accepted := accepted h |}.
Definition note_consumption (c : Consumption) (h : History) : History :=
  {| issues := issues h; consumed := consumed h ++ [c]; logins := logins h; bumps := bumps h; stalls := stalls h; accepted := accepted h |}.
Definition note_login (l : Login) (h : History) : History :=
  {| issues := issues h; consumed := consumed h; logins := logins h ++ [l]; bumps := bumps h; stalls := stalls h; accepted := accepted h |}.
Definition note_bump (b : Bump) (h : History) : History :=
  {| issues := issues h; consumed := consumed h; logins := logins h; bumps := bumps h ++ [b]; stalls := stalls h; accepted := accepted h |}.
Definition note_stall (d : Z) (h : History) : History :=
  {| issues := issues h; consumed := consumed h; logins := logins h; bumps := bumps h; stalls := stalls h ++ [d]; accepted := accepted h |}.
Definition note_acceptance (a : Acceptance) (h : History) : History :=
  {| issues := issues h; consumed := consumed h; logins := logins h; bumps := bumps h; stalls := stalls h; accepted := accepted h ++ [a] |}.

Definition clock_now : act Auth Z := Tx (reads au_now) Ret.

(** ** Session versions ([session_version_repo.py], [session_service.py]) *)

Definition SESSION_VERSION_CACHE_TTL_SECONDS : Z := 60.

(** GET. *)
Definition get_cached (pubkey : string) : TX Auth (option Z) := reads (fun s =>
  match version_cache s !! pubkey with
  | Some e => if au_now s <? ce_due e then Some (ce_version e) else None
  | None => None
  end).

(** SET with EX; [read_at] is when the value was true of the database. *)
Definition set_cached (pubkey : string) (version read_at : Z) : TX Auth unit := writes (fun s =>
  {| au_now := au_now s; challenges := challenges s; versions := versions s;
     version_cache := <[pubkey := {| ce_version := version; ce_due := au_now s + 1000 * SESSION_VERSION_CACHE_TTL_SECONDS;
                                     ce_read_at := read_at |}]> (version_cache s);
     history := note_stall (au_now s - read_at) (history s) |}).

(** A failure of Redis is logged and passed over. *)
Definition cache_session_version (pubkey : string) (version read_at : Z) : act Auth unit :=
  act_try (Tx (set_cached pubkey version read_at) Ret) (fun _ => mret tt).

(** The version and the moment it was read. *)
Definition get_session_version_on_db (pubkey : string) : TX Auth (Z * Z) :=
  reads (fun s => (default 0 (versions s !! pubkey), au_now s)).

Definition read_session_version_on_db (pubkey : string) : act Auth Z :=
  cached ← act_try (Tx (get_cached pubkey) Ret) (fun _ => mret None);
  match cached with
  | Some v => mret v
  | None =>
      vt ← Tx (get_session_version_on_db pubkey) Ret;
      _ ← cache_session_version pubkey (vt : Z * Z).1 vt.2;
      mret vt.1
  end.

Definition current_session_version (pubkey : string) : act Auth Z := read_session_version_on_db pubkey.

(** The UPDATE and its commit. *)
Definition bump_session_version_on_db (pubkey : string) : TX Auth (option (Z * Z)) := fun s =>
  match versions s !! pubkey with
  | None => (Ok None, s)
  | Some v =>
      (Ok (Some (v + 1, au_now s)),
       {| au_now := au_now s; challenges := challenges s; versions := <[pubkey := v + 1]> (versions s); version_cache := version_cache s;
          history := note_bump {| bu_pubkey := pubkey; bu_version := v + 1; bu_at := au_now s |} (history s) |})
  end.

Definition revoke_sessions (pubkey : string) : act Auth (option Z) :=
  bumped ← Tx (bump_session_version_on_db pubkey) Ret;
  match bumped with
  | None => mret None
  | Some (version, at_) => _ ← cache_session_version pubkey version at_; mret (Some version)
  end.

Definition revoke_own_sessions_endpoint (caller : JWTData) : act Auth unit := _ ← revoke_sessions (jd_pubkey caller); mret tt.
Definition revoke_user_sessions_endpoint (pubkey : string) : act Auth unit :=
  v ← revoke_sessions pubkey; match v with None => throw (HTTPException 404) | Some _ => mret tt end.

(** ** Requests ([api_validators.py]) *)

Definition validate_nostr_pubkey (pubkey : string) : res exn string :=
  let normalised := py_lower pubkey in if hex64_match normalised then Ok normalised else Raise (HTTPException 400).

Definition brainstorm_nsec_exists_by_pubkey_on_db (pubkey : string) : TX Auth bool :=
  reads (fun s => bool_decide (is_Some (versions s !! pubkey))).

Definition seconds (t : Z) : Z := t / 1000.

Definition starts_with (p s : string) : bool := String.prefix p (py_lower s).

(** [token or fallback]. *)
Definition bearer_token (header : string) (legacy : option string) : option string :=
  nonempty (match (if starts_with "bearer " header then nonempty (Some (of_chars (drop 7 (chars header)))) else None) with
            | Some t => Some t
            | None => legacy
            end).

Definition check_session (token : JWTData) : act Auth unit :=
  version ← read_session_version_on_db (jd_pubkey token);
  if jd_session_version token <? version then throw unauthorized else mret tt.

Definition verify_token (r : HttpRequest) : act Auth JWTData :=
  let header := default "" (rq_authorization r) in
  if starts_with "nostr " header then
    t ← clock_now;
    pubkey ← Ret (validate_nip98_event r (of_chars (drop 6 (chars header))) (seconds t));
    known ← Tx (brainstorm_nsec_exists_by_pubkey_on_db pubkey) Ret;
    if negb known then throw unauthorized
    else mret {| jd_pubkey := pubkey; jd_is_admin := is_whitelisted pubkey; jd_session_version := 0 |}
  else
    match bearer_token header (rq_access_token r) with
    | None => throw unauthorized
    | Some token =>
        t ← clock_now;
        match decrypt_jwt_token token (seconds t) with
        | None => throw unauthorized
        | Some data => _ ← check_session data; mret data
        end
    end.

Definition verify_token_optional (r : HttpRequest) : act Auth (option JWTData) :=
  let header := default "" (rq_authorization r) in
  if starts_with "bearer " header || starts_with "nostr " header || bool_decide (is_Some (nonempty (rq_access_token r)))
  then d ← verify_token r; mret (Some d)
  else mret None.

(** ** Login ([auth_service.py]) *)

Definition CHALLENGE_TTL : Z := 300.
Definition LOGIN_KIND : Z := 22242.

Definition set_challenge (nonce pubkey : string) : TX Auth unit := writes (fun s =>
  {| au_now := au_now s; challenges := <[nonce := (pubkey, au_now s + 1000 * CHALLENGE_TTL)]> (challenges s); versions := versions s;
     version_cache := version_cache s;
     history := note_issue {| is_nonce := nonce; is_pubkey := pubkey; is_at := au_now s |} (history s) |}).

(** GETDEL. *)
Definition getdel (nonce : string) : TX Auth (option string) := fun s =>
  match challenges s !! nonce with
  | Some (pubkey, due) =>
      if au_now s <? due
      then (Ok (Some pubkey),
            {| au_now := au_now s; challenges := delete nonce (challenges s); versions := versions s; version_cache := version_cache s;
               history := note_consumption {| co_nonce := nonce; co_pubkey := pubkey; co_at := au_now s |} (history s) |})
      else (Ok None, s)
  | None => (Ok None, s)
  end.

(** [nonce] is what [secrets.token_hex] draws. *)
Definition generate_nostr_auth_challenge (pubkey nonce : string) : act Auth string :=
  _ ← Tx (set_challenge nonce pubkey) Ret; mret nonce.

(** What is checked before the challenge is touched: the challenge named. *)
Definition login_challenge (pubkey : string) (raw_event : json) : res exn string :=
  event ← or_raise unauthorized (from_json raw_event);
  _ ← guard (sdk_kind event =? LOGIN_KIND) unauthorized;
  _ ← guard (String.eqb (sdk_author event) pubkey) unauthorized;
  raw_tags ← py_get "tags" raw_event;
  let tags := py_or raw_tags (JList []) in
  t ← first_tag_value tags "t";
  _ ← guard (match t with Some v => json_is_str v "brainstorm_login" | None => false end) unauthorized;
  c ← first_tag_value tags "challenge";
  challenge ← or_raise unauthorized (match c with Some v => if py_truthy v then Some (py_str v) else None | None => None end);
  _ ← guard (sdk_verify event) unauthorized;
  Ok challenge.

(** The new row becomes visible when the request commits; a second one of the same key
    violates its uniqueness. *)
Definition commit_user (pubkey : string) (insert_it : bool) : TX Auth unit := fun s =>
  if insert_it then
    match versions s !! pubkey with
    | Some _ => (Raise (DbError IntegrityError), s)
    | None => (Ok tt, {| au_now := au_now s; challenges := challenges s; versions := <[pubkey := 0]> (versions s);
                         version_cache := version_cache s; history := history s |})
    end
  else (Ok tt, s).

(** [limited] is the verdict of the per-address limit on new observers. *)
Definition verify_nostr_auth_challenge (limited : res exn unit) (pubkey : string) (raw_event : json) : act Auth string :=
  challenge ← Ret (login_challenge pubkey raw_event);
  issued_for ← Tx (getdel challenge) Ret;
  if negb (bool_decide (issued_for = Some pubkey)) then throw unauthorized
  else
    known ← Tx (brainstorm_nsec_exists_by_pubkey_on_db pubkey) Ret;
    _ ← (if known : bool then mret tt else Ret limited);
    exists_ ← Tx (brainstorm_nsec_exists_by_pubkey_on_db pubkey) Ret;
    version ← current_session_version pubkey;
    t ← clock_now;
    _ ← Tx (commit_user pubkey (negb exists_)) Ret;
    mret (generate_authentication_token pubkey version (seconds t)).
End auth.

(** ** Over every interleaving *)

Section reachable.
Context `{AuthEnv} (d : Z).

(** Every write to the cache came within [d] of the read it carries. *)
Definition prompt (h : History) : Prop := forall x, x ∈ stalls h -> x <= d.

(** A version [v] of [p] that was current at [t]: later bumps came after. *)
Definition current_at (p : string) (v t : Z) (h : History) : Prop :=
  forall b, b ∈ bumps h -> bu_pubkey b = p -> v < bu_version b -> t <= bu_at b.

(** [v] is not behind any bump that is old enough at [began]. *)
Definition caught_up (p : string) (v began : Z) (h : History) : Prop :=
  prompt h -> forall b, b ∈ bumps h -> bu_pubkey b = p -> bu_at b + d + 60000 <= began -> bu_version b <= v.

Record forth (s s' : Auth) : Prop := {
  forth_now : au_now s <= au_now s';
  forth_bumps : exists new, bumps (history s') = (bumps (history s) ++ new)%list /\ forall b, b ∈ new -> au_now s <= bu_at b;
  forth_stalls : stalls (history s) `prefix_of` stalls (history s');
  forth_consumed : consumed (history s) `prefix_of` consumed (history s');
}.

Lemma forth_refl s : forth s s.
Proof. split; [lia| |done|done]. exists []. rewrite app_nil_r. split; [done|set_solver]. Qed.
Lemma forth_trans s1 s2 s3 : forth s1 s2 -> forth s2 s3 -> forth s1 s3.
Proof.
  intros [N1 (n1 & B1 & L1) S1 C1] [N2 (n2 & B2 & L2) S2 C2]. split; [lia| |by etrans|by etrans].
  exists (n1 ++ n2)%list. rewrite B2, B1, app_assoc. split; [done|]. intros b [Hb|Hb]%elem_of_app; [by apply L1|specialize (L2 b Hb); lia].
Qed.

Lemma forth_current s s' p v t : forth s s' -> t <= au_now s -> current_at p v t (history s) -> current_at p v t (history s').
Proof.
  intros [_ (new & B & L) _ _] Ht Hc b Hb. rewrite B in Hb. apply elem_of_app in Hb as [Hb|Hb]; [by apply Hc|]. specialize (L b Hb). lia.
Qed.

Context (d_nonneg : 0 <= d).

Lemma forth_caught_up s s' p v began : forth s s' -> began <= au_now s -> caught_up p v began (history s) -> caught_up p v began (history s').
Proof using d_nonneg.
  intros [_ (new & B & L) [ss E] _] Ht Hc Hp b Hb. rewrite B in Hb. apply elem_of_app in Hb as [Hb|Hb].
  - apply Hc; [|done]. intros x Hx. apply Hp. rewrite E. set_solver.
  - specialize (L b Hb). lia.
Qed.

(** How often a nonce occurs. *)
Definition times_issued (n : string) (h : History) : nat := length (filter (fun i => is_nonce i = n) (issues h)).
Definition times_logged_in (n : string) (h : History) : nat := length (filter (fun l => lo_nonce l = n) (logins h)).
Definition times_consumed (n : string) (h : History) : nat := length (filter (fun c => co_nonce c = n) (consumed h)).

Record auth_inv (s : Auth) : Prop := {
  inv_bumps : forall b, b ∈ bumps (history s) -> bu_version b <= default 0 (versions s !! bu_pubkey b);
  inv_cache : forall p e, version_cache s !! p = Some e ->
    current_at p (ce_version e) (ce_read_at e) (history s) /\ ce_due e - 60000 - ce_read_at e ∈ stalls (history s) /\ ce_read_at e <= au_now s;
  inv_accepted : forall a, a ∈ accepted (history s) ->
    ac_began a <= au_now s /\ caught_up (ac_pubkey a) (ac_version a) (ac_began a) (history s);
  inv_counts : forall n, (times_consumed n (history s) + (if challenges s !! n then 1 else 0) <= times_issued n (history s))%nat;
  inv_challenge : forall n p due, challenges s !! n = Some (p, due) ->
    exists i, i ∈ issues (history s) /\ is_nonce i = n /\ is_pubkey i = p /\ due = is_at i + 300000 /\ is_at i <= au_now s;
  inv_consumed : forall c, c ∈ consumed (history s) ->
    exists i, i ∈ issues (history s) /\ is_nonce i = co_nonce c /\ is_pubkey i = co_pubkey c /\ is_at i <= co_at c < is_at i + 300000;
  inv_logins : forall l, l ∈ logins (history s) ->
    exists i, i ∈ issues (history s) /\ is_nonce i = lo_nonce l /\ is_pubkey i = lo_pubkey l /\ lo_began l < is_at i + 300000;
}.

Abbreviation ok := (step_ok forth auth_inv).
Abbreviation kept m := (keeps forth auth_inv m).
Abbreviation from s0 p post := (safe_from forth auth_inv s0 p post).

Lemma kept_reads {A} (f : Auth -> A) : kept (reads f).
Proof. apply keeps_reads, forth_refl. Qed.

Lemma set_cached_ok p v t s : auth_inv s -> t <= au_now s -> current_at p v t (history s) -> ok s (set_cached p v t s).2.
Proof using d_nonneg.
  intros [I1 I2 I3 I4 I5 I6 I7] Ht Hc. unfold set_cached, writes. cbn [snd]. split.
  - split; cbn [versions version_cache history challenges au_now]; [done| | |done|done|done|done].
    + intros q e He. apply lookup_insert_Some in He as [[<- <-]|[_ He]].
      * split; [done|]. cbn [ce_due ce_read_at]. split; [|done]. apply elem_of_app. right. apply list_elem_of_singleton. unfold SESSION_VERSION_CACHE_TTL_SECONDS. lia.
      * destruct (I2 q e He) as (H1 & H2 & H3). split; [done|]. split; [|done]. apply elem_of_app. by left.
    + intros a Ha. destruct (I3 a Ha) as [H1 H2]. split; [done|]. intros Hp. apply H2. intros x Hx. apply Hp. cbn. apply elem_of_app. by left.
  - split; cbn; [lia|exists []; rewrite app_nil_r; split; [done|set_solver]|by eexists|done].
Qed.

Lemma bump_kept p : kept (bump_session_version_on_db p).
Proof using d_nonneg.
  intros s [I1 I2 I3 I4 I5 I6 I7]. unfold bump_session_version_on_db. destruct (versions s !! p) as [v|] eqn:Ev; [|by split; [|apply forth_refl]].
  cbn [snd]. split.
  - split; cbn [versions version_cache history challenges au_now]; [| | |done|done|done|done].
    + intros b [Hb|Hb]%elem_of_app.
      * specialize (I1 b Hb). destruct (decide (p = bu_pubkey b)) as [E|Hne]; [rewrite <- E, Ev in I1; rewrite <- E, lookup_insert_eq; simpl in *; lia|].
        by rewrite lookup_insert_ne.
      * apply list_elem_of_singleton in Hb as ->. cbn. rewrite lookup_insert_eq. simpl. lia.
    + intros q e He. destruct (I2 q e He) as (H1 & H2 & H3). split; [|done]. intros b [Hb|Hb]%elem_of_app; [by apply H1|].
      by apply list_elem_of_singleton in Hb as ->.
    + intros a Ha. destruct (I3 a Ha) as [H1 H2]. split; [done|]. intros Hp b [Hb|Hb]%elem_of_app; [by apply H2|].
      apply list_elem_of_singleton in Hb as ->. cbn. lia.
  - split; cbn; [lia| |done|done]. eexists. split; [done|]. intros b ->%list_elem_of_singleton. cbn. lia.
Qed.

Lemma set_challenge_kept n p : kept (set_challenge n p).
Proof using d_nonneg.
  intros s [I1 I2 I3 I4 I5 I6 I7]. unfold set_challenge, writes. cbn [snd]. split.
  - split; cbn [versions version_cache history challenges au_now]; [done|done|done| | | |].
    + intros m. specialize (I4 m). unfold times_issued, times_consumed in *. cbn [note_issue issues consumed]. rewrite filter_app, length_app.
      destruct (decide (n = m)) as [<-|Hne].
      * rewrite lookup_insert_eq. rewrite (filter_cons_True _ _ []) by done. simpl. lia.
      * rewrite lookup_insert_ne by done. lia.
    + intros m q due [[<- [= <- <-]]|[_ Hm]]%lookup_insert_Some.
      * eexists. split; [apply elem_of_app; right; by apply list_elem_of_singleton|]. cbn [is_nonce is_pubkey is_at]. unfold CHALLENGE_TTL. split_and!; [done|done|lia|lia].
      * destruct (I5 m q due Hm) as (i & Hi & Hr). exists i. split; [apply elem_of_app; by left|done].
    + intros c Hc. destruct (I6 c Hc) as (i & Hi & Hr). exists i. split; [apply elem_of_app; by left|done].
    + intros l Hl. destruct (I7 l Hl) as (i & Hi & Hr). exists i. split; [apply elem_of_app; by left|done].
  - split; [simpl; lia|exists []; rewrite app_nil_r; split; [done|set_solver]|done|done].
Qed.

Lemma getdel_kept n : kept (getdel n).
Proof using d_nonneg.
  intros s Hi. unfold getdel. destruct (challenges s !! n) as [[p due]|] eqn:Ec; [|by split; [|apply forth_refl]].
  destruct (Z.ltb_spec (au_now s) due); [|by split; [|apply forth_refl]]. destruct Hi as [I1 I2 I3 I4 I5 I6 I7]. cbn [snd]. split.
  - split; cbn [versions version_cache history challenges au_now]; [done|done|done| | | |done].
    + intros m. specialize (I4 m). unfold times_issued, times_consumed in *. cbn [note_consumption issues consumed]. rewrite filter_app, length_app.
      destruct (decide (n = m)) as [<-|Hne].
      * rewrite lookup_delete_eq. rewrite (filter_cons_True _ _ []) by done. rewrite Ec in I4. simpl in *. lia.
      * rewrite lookup_delete_ne by done. rewrite (filter_cons_False _ _ []) by done. simpl in *. lia.
    + intros m q due' [_ Hm]%lookup_delete_Some. by apply I5.
    + intros c [Hc|Hc]%elem_of_app; [by apply I6|]. apply list_elem_of_singleton in Hc as ->.
      destruct (I5 n p due Ec) as (i & Hi & Hn & Hp & -> & Ht). exists i. by split_and!.
  - split; [simpl; lia|exists []; rewrite app_nil_r; split; [done|set_solver]|done|by eexists].
Qed.

Lemma commit_user_kept p b : kept (commit_user p b).
Proof using d_nonneg.
  intros s Hi. unfold commit_user. destruct b; [|by split; [|apply forth_refl]].
  destruct (versions s !! p) as [v|] eqn:Ev; [by split; [|apply forth_refl]|]. destruct Hi as [I1 I2 I3 I4 I5 I6 I7]. cbn [snd]. split.
  - split; cbn [versions version_cache history challenges au_now]; [|done..].
    intros b Hb. specialize (I1 b Hb). destruct (decide (p = bu_pubkey b)) as [E|Hne]; [rewrite <- E, Ev in I1; by rewrite <- E, lookup_insert_eq|by rewrite lookup_insert_ne].
  - split; [cbn; lia|exists []; rewrite app_nil_r; split; [done|set_solver]|done|done].
Qed.

Lemma cache_safe p v t s0 : t <= au_now s0 -> current_at p v t (history s0) -> from s0 (cache_session_version p v t) (fun _ _ => True).
Proof using d_nonneg.
  intros Ht Hc. unfold cache_session_version. apply act_safe_try; [apply forth_refl|apply forth_trans| |done].
  apply safe_tx. intros s Hs Hi. split; [|done]. apply set_cached_ok; [done|destruct Hs; lia|by eapply forth_current].
Qed.

(** A read that began when [began] had come. *)
Lemma read_safe p began s0 : began <= au_now s0 ->
  from s0 (read_session_version_on_db p) (fun v s => caught_up p v began (history s)).
Proof using d_nonneg.
  intros Hb. unfold read_session_version_on_db.
  eapply act_safe_bind with (P := fun o s => from_option (fun v => caught_up p v began (history s)) True o); [apply forth_refl|apply forth_trans| |].
  - apply act_safe_try; [apply forth_refl|apply forth_trans| |done]. apply safe_tx. intros s Hs Hi. split; [by apply kept_reads|].
    unfold get_cached, reads. cbn [fst snd]. destruct (version_cache s !! p) as [e|] eqn:Ee; [|done].
    destruct (Z.ltb_spec (au_now s) (ce_due e)) as [Hlive|]; [|done]. cbn [from_option].
    destruct (inv_cache _ Hi p e Ee) as (H1 & H2 & _). intros Hp b Hin Hbp Hold.
    destruct (Z.le_gt_cases (bu_version b) (ce_version e)) as [?|Hlt]; [done|exfalso].
    specialize (H1 b Hin Hbp Hlt). specialize (Hp _ H2). destruct Hs as [Hnow _ _ _]. lia.
  - intros [v|] s1 Hs1 Hv; [exact Hv|]. eapply act_safe_bind with
      (P := fun vt s => caught_up p vt.1 began (history s) /\ current_at p vt.1 vt.2 (history s) /\ vt.2 <= au_now s /\ began <= au_now s);
      [apply forth_refl|apply forth_trans| |].
    + apply safe_tx. intros s Hs Hi. split; [by apply kept_reads|]. unfold get_session_version_on_db, reads. cbn [fst snd].
      assert (Hle : forall b, b ∈ bumps (history s) -> bu_pubkey b = p -> bu_version b <= default 0 (versions s !! p))
        by (intros b Hin <-; by apply (inv_bumps _ Hi)).
      split_and!; [intros _ b Hin Hbp _; by apply Hle| |lia|destruct Hs1, Hs; lia]. intros b Hin Hbp Hlt. specialize (Hle b Hin Hbp). lia.
    + intros [v t] s2 _ (Hcu & Hca & Ht & Hbn). cbn [fst snd] in *.
      eapply act_safe_bind with (P := fun _ _ => True); [apply forth_refl|apply forth_trans|by apply cache_safe|].
      intros _ s3 Hs3 _. cbn. by eapply forth_caught_up.
Qed.

Lemma clock_safe s0 : from s0 clock_now (fun t s => t <= au_now s).
Proof. apply safe_tx. intros s _ Hi. split; [by apply kept_reads|]. simpl. lia. Qed.

Lemma revoke_safe p s0 : from s0 (revoke_sessions p) (fun _ _ => True).
Proof using d_nonneg.
  unfold revoke_sessions.
  eapply act_safe_bind with (P := fun o s => match o with Some (v, t) => current_at p v t (history s) /\ t <= au_now s | None => True end);
    [apply forth_refl|apply forth_trans| |].
  - apply safe_tx. intros s _ Hi. split; [by apply bump_kept|]. unfold bump_session_version_on_db. destruct (versions s !! p) as [v|] eqn:Ev; [|done].
    cbn [fst snd]. split; [|done]. intros b [Hb|Hb]%elem_of_app.
    + pose proof (inv_bumps _ Hi b Hb) as Hv. intros <- Hlt. rewrite Ev in Hv. simpl in Hv. lia.
    + apply list_elem_of_singleton in Hb as ->. cbn. lia.
  - intros [[v t]|] s1 _ Hv; [|done]. destruct Hv as [Hc Ht].
    eapply act_safe_bind with (P := fun _ _ => True); [apply forth_refl|apply forth_trans|by apply cache_safe|done].
Qed.

(** Only the requests that come with a session token go by versions. *)
Definition by_token (r : HttpRequest) : bool := negb (starts_with "nostr " (default "" (rq_authorization r))).

Lemma verify_safe r began s0 : began <= au_now s0 ->
  from s0 (verify_token r) (fun data s => by_token r = true ->
    caught_up (jd_pubkey data) (jd_session_version data) began (history s)).
Proof using d_nonneg.
  intros Hb. unfold verify_token, by_token. destruct (starts_with "nostr " _); cbn [negb].
  - eapply act_safe_bind; [apply forth_refl|apply forth_trans|apply clock_safe|]. intros t s1 _ _.
    destruct (validate_nip98_event r _ _) as [who|]; [|done]. rewrite act_bind_ok.
    eapply act_safe_bind with (P := fun _ _ => True); [apply forth_refl|apply forth_trans| |].
    + apply safe_tx. intros s _ Hi. split; [by apply kept_reads|done].
    + intros known s2 _ _. by destruct known.
  - destruct (bearer_token _ _) as [token|]; [|done].
    eapply act_safe_bind; [apply forth_refl|apply forth_trans|apply clock_safe|]. intros t s1 Hs1 _.
    destruct (decrypt_jwt_token token _) as [data|]; [|done]. unfold check_session.
    eapply act_safe_bind with (P := fun _ s => caught_up (jd_pubkey data) (jd_session_version data) began (history s));
      [apply forth_refl|apply forth_trans| |by intros ? s ? Hc _].
    eapply act_safe_bind; [apply forth_refl|apply forth_trans|apply (read_safe _ began); destruct Hs1; lia|].
    intros v s2 _ Hc. destruct (Z.ltb_spec (jd_session_version data) v); [done|]. cbn. intros Hp b Hin Hbp Hold. specialize (Hc Hp b Hin Hbp Hold). lia.
Qed.

(** A request whose acceptance is put on record. *)
Definition signed_request (r : HttpRequest) : act Auth unit :=
  began ← clock_now;
  data ← verify_token r;
  if by_token r then Tx (writes (fun s =>
    {| au_now := au_now s; challenges := challenges s; versions := versions s; version_cache := version_cache s;
       history := note_acceptance {| ac_pubkey := jd_pubkey data; ac_version := jd_session_version data; ac_began := began |} (history s) |})) Ret
  else mret tt.

Lemma signed_safe r s0 : from s0 (signed_request r) (fun _ _ => True).
Proof using d_nonneg.
  unfold signed_request. eapply act_safe_bind; [apply forth_refl|apply forth_trans|apply clock_safe|]. intros began s1 _ Hb. cbv beta in Hb.
  eapply act_safe_bind with (P := fun data s => (by_token r = true -> caught_up (jd_pubkey data) (jd_session_version data) began (history s)) /\ began <= au_now s);
    [apply forth_refl|apply forth_trans| |].
  - eapply safe_mono; [apply forth_refl|apply forth_trans|by apply (verify_safe r began)|]. intros data s Hs Hd. split; [done|destruct Hs; lia].
  - intros data s2 _ [Hd Hb2]. destruct (by_token r); [|done]. apply safe_tx. intros s Hs Hi. split; [|done]. unfold writes. cbn [snd].
    destruct Hi as [I1 I2 I3 I4 I5 I6 I7]. split.
    + split; cbn [versions version_cache history challenges au_now]; [done|done| |done|done|done|done].
      intros a [Ha|Ha]%elem_of_app; [by apply I3|]. apply list_elem_of_singleton in Ha as ->. cbn [ac_began ac_pubkey ac_version]. split; [destruct Hs; lia|].
      by apply (forth_caught_up s2 s _ _ began Hs Hb2 (Hd eq_refl)).
    + split; [simpl; lia|exists []; rewrite app_nil_r; split; [done|set_solver]|done|done].
Qed.

(** A login that is answered with a token is put on record: the challenge its event
    names, the key that is logged in, and the moment it came. *)
Definition login_request (limited : res exn unit) (pubkey : string) (raw : json) : act Auth unit :=
  began ← clock_now;
  token ← verify_nostr_auth_challenge limited pubkey raw;
  match login_challenge pubkey raw with
  | Ok nonce => Tx (writes (fun s =>
      {| au_now := au_now s; challenges := challenges s; versions := versions s; version_cache := version_cache s;
         history := note_login {| lo_nonce := nonce; lo_pubkey := pubkey; lo_began := began |} (history s) |})) Ret
  | Raise _ => mret tt
  end.

(** What comes after the challenge is taken. *)
Definition log_in (limited : res exn unit) (pubkey : string) : act Auth string :=
  known ← Tx (brainstorm_nsec_exists_by_pubkey_on_db pubkey) Ret;
  _ ← (if known : bool then mret tt else Ret limited);
  exists_ ← Tx (brainstorm_nsec_exists_by_pubkey_on_db pubkey) Ret;
  version ← current_session_version pubkey;
  t ← clock_now;
  _ ← Tx (commit_user pubkey (negb exists_)) Ret;
  mret (generate_authentication_token pubkey version (seconds t)).

Lemma log_in_safe limited pubkey s0 : from s0 (log_in limited pubkey) (fun token _ => exists v t, token = generate_authentication_token pubkey v t).
Proof using d_nonneg.
  assert (Hread : forall s, from s (Tx (brainstorm_nsec_exists_by_pubkey_on_db pubkey) Ret) (fun _ _ => True))
    by (intros s; apply safe_tx; intros s' _ Hi; split; [by apply kept_reads|done]).
  eapply act_safe_bind; [apply forth_refl|apply forth_trans|apply Hread|]. intros known s2 Hs2 _.
  eapply act_safe_bind with (P := fun _ _ => True); [apply forth_refl|apply forth_trans|by destruct known; [|destruct limited]|]. intros _ s3 Hs3 _.
  eapply act_safe_bind; [apply forth_refl|apply forth_trans|apply Hread|]. intros exists_ s4 Hs4 _.
  eapply act_safe_bind; [apply forth_refl|apply forth_trans|by apply (read_safe _ (au_now s4))|]. intros v s5 Hs5 _.
  eapply act_safe_bind; [apply forth_refl|apply forth_trans|apply clock_safe|]. intros t s6 Hs6 _.
  eapply act_safe_bind with (P := fun _ _ => True); [apply forth_refl|apply forth_trans| |].
  { apply safe_tx. intros s _ Hi. split; [by apply commit_user_kept|]. by destruct (commit_user pubkey (negb exists_) s) as [[]]. }
  intros _ s7 Hs7 _. cbn. by exists v, (seconds t).
Qed.

(** ** A login spends the challenge it took *)

Section spending.
Context (nonce : string).

(** Challenges taken that nobody has logged in with. *)
Definition unspent_challenges (s : Auth) : Z :=
  Z.of_nat (times_consumed nonce (history s)) - Z.of_nat (times_logged_in nonce (history s)).

Abbreviation holds := (pays forth auth_inv unspent_challenges).

Lemma spares_reads {A} (f : Auth -> A) : spares unspent_challenges (Tx (reads f) Ret).
Proof. apply spares_tx. intros s. simpl. lia. Qed.

Lemma spares_cache p v t : spares unspent_challenges (cache_session_version p v t).
Proof. apply spares_try; [|done]. apply spares_tx. intros s. by apply Z.eq_le_incl. Qed.

Lemma spares_version p : spares unspent_challenges (read_session_version_on_db p).
Proof.
  unfold read_session_version_on_db. apply spares_bind; [apply spares_try; [apply spares_reads|done]|]. intros [v|]; [done|].
  apply spares_bind; [apply spares_reads|]. intros vt. apply spares_bind; [apply spares_cache|done].
Qed.

Lemma spares_log_in limited pubkey : spares unspent_challenges (log_in limited pubkey).
Proof.
  apply spares_bind; [apply spares_reads|]. intros known. apply spares_bind; [by destruct known|]. intros _.
  apply spares_bind; [apply spares_reads|]. intros exists_. apply spares_bind; [apply spares_version|]. intros v.
  apply spares_bind; [apply spares_reads|]. intros t. apply spares_bind; [|done]. apply spares_tx. intros s.
  unfold commit_user. destruct (negb exists_); [|simpl; lia]. destruct (versions s !! pubkey); simpl; [lia|]. by apply Z.eq_le_incl.
Qed.

Lemma spares_revoke p : spares unspent_challenges (revoke_sessions p).
Proof.
  apply spares_bind; [|by intros [[v t]|]; [apply spares_bind; [apply spares_cache|]|]]. apply spares_tx. intros s.
  unfold bump_session_version_on_db. destruct (versions s !! p); cbn [snd]; by apply Z.eq_le_incl.
Qed.

Lemma spares_signed r : spares unspent_challenges (signed_request r).
Proof.
  apply spares_bind; [apply spares_reads|]. intros began. apply spares_bind.
  - unfold verify_token. destruct (starts_with _ _).
    + apply spares_bind; [apply spares_reads|]. intros t. destruct (validate_nip98_event _ _ _); [|done]. rewrite act_bind_ok.
      apply spares_bind; [apply spares_reads|]. by intros [].
    + destruct (bearer_token _ _); [|done]. apply spares_bind; [apply spares_reads|]. intros t.
      destruct (decrypt_jwt_token _ _); [|done]. apply spares_bind; [|done]. apply spares_bind; [apply spares_version|].
      intros v. by destruct (_ <? _).
  - intros data. destruct (by_token r); [|done]. apply spares_tx. intros s. by apply Z.eq_le_incl.
Qed.

Lemma getdel_unspent n s : unspent_challenges (getdel n s).2
  = unspent_challenges s + (match (getdel n s).1 with Ok (Some _) => if decide (n = nonce) then 1 else 0 | _ => 0 end).
Proof.
  unfold getdel. destruct (challenges s !! n) as [[q due]|]; [|simpl; lia]. destruct (_ <? _); [|simpl; lia]. cbn [fst snd].
  unfold unspent_challenges, times_consumed, times_logged_in. cbn [history consumed logins note_consumption]. rewrite filter_app, length_app.
  destruct (decide (n = nonce)) as [Hn|Hn]; [rewrite (filter_cons_True _ _ []) by done|rewrite (filter_cons_False _ _ []) by done]; simpl; lia.
Qed.

(** A token is given out only to whoever signed the login event with the key it names, and
    whose challenge, issued for that key, this very request took away and still holds. *)
Lemma login_holds limited pubkey raw began s0 : began <= au_now s0 ->
  holds s0 0 (verify_nostr_auth_challenge limited pubkey raw) (fun token s n => 0 <= n /\ exists c v t,
    c ∈ consumed (history s) /\ co_pubkey c = pubkey /\ login_challenge pubkey raw = Ok (co_nonce c) /\ began <= co_at c
    /\ (co_nonce c = nonce -> n = 1) /\ token = generate_authentication_token pubkey v t).
Proof using d_nonneg.
  intros Hb. unfold verify_nostr_auth_challenge. destruct (login_challenge pubkey raw) as [m|]; [|done]. rewrite act_bind_ok.
  eapply pays_bind with (P := fun o s n => 0 <= n /\ (o = Some pubkey -> exists c, c ∈ consumed (history s) /\ co_pubkey c = pubkey
      /\ co_nonce c = m /\ began <= co_at c /\ (m = nonce -> n = 1))); [apply forth_refl|apply forth_trans| |].
  { apply pays_tx. intros s Hs Hi. split; [by apply getdel_kept|]. pose proof (getdel_unspent m s) as E. unfold getdel in *.
    destruct (challenges s !! m) as [[q due]|]; [|split; [simpl; lia|exists 0; split; [simpl; lia|by intros a [= <-]]]].
    destruct (_ <? _); [|split; [simpl; lia|exists 0; split; [simpl; lia|by intros a [= <-]]]]. cbn [fst snd] in *. rewrite E.
    assert (Hpos : 0 <= if decide (m = nonce) then 1 else 0) by (case_decide; lia). split; [lia|]. exists (if decide (m = nonce) then 1 else 0). split; [lia|]. intros a [= <-]. split; [done|]. intros [= ->].
    eexists. split; [apply elem_of_app; right; by apply list_elem_of_singleton|]. cbn [co_pubkey co_nonce co_at]. split_and!; [done|done|destruct Hs; lia|].
    intros ->. by rewrite decide_True. }
  intros o s1 n _ [Hn Ho]. case_bool_decide as Hp; [|done]. cbn [negb]. destruct (Ho Hp) as (c' & Hc & Hcp & <- & Hct & Hone).
  change (holds s1 n (log_in limited pubkey) (fun token s n => 0 <= n /\ exists c v t,
    c ∈ consumed (history s) /\ co_pubkey c = pubkey /\ (Ok (co_nonce c') : res exn string) = Ok (co_nonce c) /\ began <= co_at c
    /\ (co_nonce c = nonce -> n = 1) /\ token = generate_authentication_token pubkey v t)).
  eapply pays_weaken; [apply safe_pays; [done| |apply spares_log_in]|].
  - eapply safe_mono; [apply forth_refl|apply forth_trans|apply log_in_safe|]. intros token s Hs HP. exact (conj Hs HP).
  - intros token s n' [[Hs (v & t & ->)] ->]. split; [done|]. exists c', v, t. split_and!; try done.
    destruct Hs as [_ _ _ [more ->]]. apply elem_of_app. by left.
Qed.

Lemma login_request_holds limited pubkey raw s0 : holds s0 0 (login_request limited pubkey raw) (fun _ _ _ => True).
Proof using d_nonneg.
  unfold login_request. eapply pays_bind with (P := fun began s n => n = 0 /\ began <= au_now s); [apply forth_refl|apply forth_trans| |].
  { apply pays_tx. intros s _ Hi. split; [by apply kept_reads|]. simpl. split; [lia|]. exists 0. split; [lia|]. intros a [= <-]. split; [done|lia]. }
  intros began s1 n _ [-> Hb]. eapply pays_bind; [apply forth_refl|apply forth_trans|by apply login_holds|].
  intros token s2 n _ (Hn & c & v & t & Hc & Hp & -> & Hbc & Hone & _). apply pays_tx. intros s Hs Hi.
  assert (E : unspent_challenges (writes (fun s => {| au_now := au_now s; challenges := challenges s; versions := versions s; version_cache := version_cache s;
         history := note_login {| lo_nonce := co_nonce c; lo_pubkey := pubkey; lo_began := began |} (history s) |}) s).2
       = unspent_challenges s - if decide (co_nonce c = nonce) then 1 else 0).
  { unfold unspent_challenges, times_consumed, times_logged_in. cbn. rewrite filter_app, length_app.
    destruct (decide (co_nonce c = nonce)) as [Hc'|Hc']; [rewrite (filter_cons_True _ _ []) by done|rewrite (filter_cons_False _ _ []) by done]; simpl; lia. }
  rewrite E. split; [|split; [|exists 0; split; [|done]]].
  - destruct Hi as [I1 I2 I3 I4 I5 I6 I7]. split.
    + split; cbn [versions version_cache history challenges au_now]; [done..|]. intros l [Hl|Hl]%elem_of_app; [by apply I7|].
      apply list_elem_of_singleton in Hl as ->. cbn [lo_nonce lo_pubkey lo_began].
      assert (Hc' : c ∈ consumed (history s)) by (destruct Hs as [_ _ _ [more ->]]; apply elem_of_app; by left).
      destruct (I6 c Hc') as (i & Hi & Hin & Hip & Hit). exists i. rewrite Hip. split_and!; [done|done|done|lia].
    + split; [simpl; lia|exists []; rewrite app_nil_r; split; [done|set_solver]|done|done].
  - case_decide as Hc'; [rewrite (Hone Hc')|]; lia.
  - case_decide as Hc'; [rewrite (Hone Hc')|]; lia.
Qed.
End spending.

(** Everything the server does with sessions, by anybody. *)
Inductive auth_request : act Auth unit -> Prop :=
  | asks_challenge pubkey nonce : auth_request (_ ← generate_nostr_auth_challenge pubkey nonce; mret tt)
  | logs_in limited pubkey raw : auth_request (login_request limited pubkey raw)
  | signs_out caller : auth_request (revoke_own_sessions_endpoint caller)
  | is_signed_out pubkey : auth_request (revoke_user_sessions_endpoint pubkey)
  | requests r : auth_request (signed_request r).

Inductive auth_time (s : Auth) : Auth -> Prop :=
  | auth_later t : au_now s <= t ->
      auth_time s {| au_now := t; challenges := challenges s; versions := versions s; version_cache := version_cache s; history := history s |}.

Definition no_history : History := {| issues := []; consumed := []; logins := []; bumps := []; stalls := []; accepted := [] |}.
Definition fresh_auth (now : Z) (users : gmap string Z) : Auth :=
  {| au_now := now; challenges := ∅; versions := users; version_cache := ∅; history := no_history |}.

Lemma requests_hold nonce h s0 : auth_request h -> pays forth auth_inv (unspent_challenges nonce) s0 0 h (fun _ _ _ => True).
Proof using d_nonneg.
  intros [pubkey n|limited pubkey raw|caller|pubkey|r].
  2: apply login_request_holds.
  all: eapply pays_weaken; [apply (safe_pays forth auth_inv _ s0 0 _ (fun _ _ => True)); [done| |]|done].
  - apply within_safe. apply within_bind; [|done]. apply within_bind; [|done]. apply within_tx, set_challenge_kept.
  - apply spares_bind; [|done]. apply spares_bind; [|done]. apply spares_tx. intros s. by apply Z.eq_le_incl.
  - eapply act_safe_bind; [apply forth_refl|apply forth_trans|apply revoke_safe|done].
  - apply spares_bind; [apply spares_revoke|done].
  - eapply act_safe_bind; [apply forth_refl|apply forth_trans|apply revoke_safe|]. by intros [v|].
  - apply spares_bind; [apply spares_revoke|by intros []].
  - apply signed_safe.
  - apply spares_signed.
Qed.

Lemma fresh_inv now users : auth_inv (fresh_auth now users).
Proof.
  split.
  - by intros b ?%elem_of_nil.
  - intros q e He. by apply (lookup_empty_Some (M := gmap string) q e) in He.
  - by intros a ?%elem_of_nil.
  - intros n. by rewrite (lookup_empty (M := gmap string) n : challenges (fresh_auth now users) !! n = None).
  - intros n q due He. by apply (lookup_empty_Some (M := gmap string) n (q, due)) in He.
  - by intros c ?%elem_of_nil.
  - by intros l ?%elem_of_nil.
Qed.

Lemma auth_reachable now users p nonce :
  rtc (pool_step auth_request auth_time) {| shared := fresh_auth now users; running := ∅ |} p ->
  auth_inv (shared p) /\ 0 <= unspent_challenges nonce (shared p).
Proof using d_nonneg.
  apply (pool_tallied forth auth_inv (unspent_challenges nonce) forth_refl forth_trans).
  - intros h s0 Hh _. by apply requests_hold.
  - intros s s' [I1 I2 I3 I4 I5 I6 I7] [t Ht]. split; [|done]. split.
    + split; cbn [versions version_cache history challenges au_now]; [done| | |done| |done|done].
      * intros q e He. destruct (I2 q e He) as (H1 & H2 & H3). split_and!; [done|done|lia].
      * intros a Ha. destruct (I3 a Ha). split; [lia|done].
      * intros n q due Hn. destruct (I5 n q due Hn) as (i & ? & ? & ? & ? & ?). exists i. split_and!; try done. lia.
    + split; [simpl; lia|exists []; rewrite app_nil_r; split; [done|set_solver]|done|done].
  - apply fresh_inv.
  - done.
Qed.
End reachable.

(** C24: signing out bites.  Over every interleaving of logins, requests and sign-outs, with
    failures of Redis and the database, provided no write to the cache comes more than [d]
    milliseconds after the read it carries: once [d] and a minute have passed since a sign-out
    of a user was committed, no request with a token of theirs from before it is accepted. *)
Theorem revocation_bites `{AuthEnv} (d now : Z) (users : gmap string Z) (p : Pool Auth) (b : Bump) (a : Acceptance) :
  0 <= d -> rtc (pool_step auth_request auth_time) {| shared := fresh_auth now users; running := ∅ |} p ->
  (forall x, x ∈ stalls (history (shared p)) -> x <= d) ->
  b ∈ bumps (history (shared p)) -> a ∈ accepted (history (shared p)) -> ac_pubkey a = bu_pubkey b ->
  bu_at b + d + 60000 <= ac_began a -> bu_version b <= ac_version a.
Proof.
  intros Hd Hr Hp Hb Ha E Hold. destruct (auth_reachable d Hd now users p "" Hr) as [Hi _].
  destruct (inv_accepted d _ Hi a Ha) as [_ Hc].
  by apply (Hc Hp b Hb).
Qed.

(** C28: a challenge logs in once, and only the key it was issued for.  Over every
    interleaving of requests, with failures: no challenge is answered with a token more
    often than it was issued, so one drawn once logs in at most once; and every login
    answered with a token came within five minutes of its challenge's being issued, to the
    key that is logged in. *)
Theorem challenge_taken_once `{AuthEnv} (now : Z) (users : gmap string Z) (p : Pool Auth) (nonce : string) :
  rtc (pool_step auth_request auth_time) {| shared := fresh_auth now users; running := ∅ |} p ->
  (times_logged_in nonce (history (shared p)) <= times_issued nonce (history (shared p)))%nat
  /\ forall l, l ∈ logins (history (shared p)) -> exists i, i ∈ issues (history (shared p)) /\ is_nonce i = lo_nonce l
       /\ is_pubkey i = lo_pubkey l /\ lo_began l < is_at i + 300000.
Proof.
  intros Hr. destruct (auth_reachable 0 ltac:(lia) now users p nonce Hr) as [Hi Hc]. split; [|apply (inv_logins 0 _ Hi)].
  pose proof (inv_counts 0 _ Hi nonce). unfold unspent_challenges in Hc. lia.
Qed.

(** ** Signed requests are short-lived *)

Lemma guard_Ok b e u : guard b e = Ok u -> b = true.
Proof. unfold guard. by destruct b. Qed.

Lemma or_raise_Ok {A} e (o : option A) a : or_raise e o = Ok a -> o = Some a.
Proof. destruct o; [by intros [= ->]|done]. Qed.

(** A token that is accepted at two moments: they are no further apart than the longest
    lifetime allowed and the two allowances for clocks. *)
Lemma nwt_window `{AuthEnv} token t1 t2 k1 k2 : validate_nwt_token token t1 = Ok k1 -> validate_nwt_token token t2 = Ok k2 ->
  k1 = k2 /\ t2 - t1 < open_ranking_nwt_max_lifetime_seconds + 2 * NWT_CLOCK_SKEW_SECONDS.
Proof.
  unfold validate_nwt_token. destruct (or_raise unauthorized (b64url_decode_no_pad token)) as [raw|]; [|done]. cbn [mbind res_mbind].
  destruct (or_raise unauthorized (utf8_strict raw)) as [text|]; [|done]. cbn [mbind res_mbind].
  destruct (or_raise unauthorized (sdk_parse text)) as [ev|]; [|done]. cbn [mbind res_mbind].
  destruct (guard (sdk_kind ev =? NWT_KIND) unauthorized) as [u|]; [|done]. cbn [mbind res_mbind].
  destruct (guard (sdk_verify ev) unauthorized) as [u2|]; [|done]. cbn [mbind res_mbind].
  set (iat := default _ _). set (expiry := parse_unix_int (head (values_of (sdk_tags ev) "exp"))).
  assert (Hone : forall t k, (_ ← guard (negb (NWT_CLOCK_SKEW_SECONDS <? iat - t)) bad_token;
      _ ← guard (match parse_unix_int (head (values_of (sdk_tags ev) "nbf")) with Some nbf => negb (t + NWT_CLOCK_SKEW_SECONDS <? nbf) | None => true end) bad_token;
      exp ← or_raise bad_token expiry;
      _ ← guard (negb (exp <=? t - NWT_CLOCK_SKEW_SECONDS)) bad_token;
      _ ← guard (negb (open_ranking_nwt_max_lifetime_seconds <? exp - iat)) bad_token;
      expected_aud ← expected_audience;
      _ ← guard (negb (bool_decide (values_of (sdk_tags ev) "aud" = []))) bad_token;
      _ ← guard (bool_decide (expected_aud ∈ values_of (sdk_tags ev) "aud")) bad_token;
      Ok (sdk_author ev)) = Ok k ->
    k = sdk_author ev /\ iat - NWT_CLOCK_SKEW_SECONDS <= t < iat + open_ranking_nwt_max_lifetime_seconds + NWT_CLOCK_SKEW_SECONDS).
  { intros t k (? & H1%guard_Ok & H2)%res_bind_Ok. apply res_bind_Ok in H2 as (? & _ & H2). apply res_bind_Ok in H2 as (ex & _ & H2).
    apply res_bind_Ok in H2 as (? & H3%guard_Ok & H2). apply res_bind_Ok in H2 as (? & H4%guard_Ok & H2). apply res_bind_Ok in H2 as (? & _ & H2).
    apply res_bind_Ok in H2 as (? & _ & H2). apply res_bind_Ok in H2 as (? & _ & H2). injection H2 as <-. split; [done|]. lia. }
  intros [-> W1]%Hone [-> W2]%Hone. split; [done|]. lia.
Qed.

(** ** One user *)

Module SessionScenario.

Definition alice : string := of_chars (replicate 64 "a"%char).

(** Every event is what it says; the token ["new"] carries version 1, ["old"] version 0. *)
#[export] Instance bench_sdk : NostrSdk := {|
  SdkEvent := json; from_json := Some; sdk_kind := fun _ => LOGIN_KIND; sdk_verify := fun _ => true; sdk_author := fun _ => alice;
|}.
#[export] Instance bench : AuthEnv := {|
  sdk_parse := fun s => Some (JStr s : @SdkEvent bench_sdk); sdk_tags := fun _ => []; sdk_created_at := fun _ => 0;
  jwt_encode := fun _ => "new";
  jwt_decode := fun token _ => Some [("sub", JStr alice); ("session_version", JInt (if String.eqb token "new" then 1 else 0))];
  coerce_bool := fun v => match v with JBool b => Some b | _ => None end;
  coerce_int := fun v => match v with JInt z => Some z | _ => None end;
  utf8_strict := Some; sha256_hex := id; host_parses := fun _ => true;
  admin_enabled := false; whitelisted_pubkeys := []; auth_access_token_expire_minutes := 60; public_base_url := "https://api.example";
  open_ranking_require_auth := true; open_ranking_nwt_max_lifetime_seconds := 3600;
|}.

Definition with_token (t : string) : HttpRequest :=
  {| rq_method := "GET"; rq_path := "/user"; rq_query := ""; rq_body := ""; rq_authorization := Some ("Bearer " ++ t); rq_access_token := None |}.

Definition start : Auth := fresh_auth 0 {[ alice := 0 ]}.
Definition signed_out : Auth := (run_act (revoke_user_sessions_endpoint alice) start).2.
Definition next_day : Auth :=
  {| au_now := 86400000; challenges := challenges signed_out; versions := versions signed_out; version_cache := version_cache signed_out; history := history signed_out |}.
Definition came_back : Auth := (run_act (signed_request (with_token "new")) next_day).2.

Example old_token_refused : (run_act (verify_token (with_token "old")) next_day).1 = Raise unauthorized.
Proof. by vm_compute. Qed.

Lemma back_reachable :
  rtc (pool_step auth_request auth_time) {| shared := start; running := ∅ |} {| shared := came_back; running := ∅ |}.
Proof.
  etransitivity; [exact (pool_runs auth_request auth_time _ 0%nat {| shared := start; running := ∅ |} (is_signed_out alice) eq_refl)|].
  eapply rtc_l; [apply (pool_outside auth_request auth_time _ next_day), auth_later; vm_compute; discriminate|].
  exact (pool_runs auth_request auth_time _ 0%nat {| shared := next_day; running := ∅ |} (requests (with_token "new")) eq_refl).
Qed.

Definition the_bump : Bump := {| bu_pubkey := alice; bu_version := 1; bu_at := 0 |}.
Definition the_acceptance : Acceptance := {| ac_pubkey := alice; ac_version := 1; ac_began := 86400000 |}.

Lemma back_history :
  bumps (history came_back) = [the_bump] /\ accepted (history came_back) = [the_acceptance] /\ stalls (history came_back) = [0; 0].
Proof. vm_compute. done. Qed.

Lemma revocation_bites_witness :
  bumps (history came_back) = [the_bump] /\ accepted (history came_back) = [the_acceptance] /\ bu_version the_bump <= ac_version the_acceptance.
Proof.
  destruct back_history as (Hb & Ha & Hs). split; [exact Hb|]. split; [exact Ha|].
  refine (revocation_bites 0 0 {[ alice := 0 ]} {| shared := came_back; running := ∅ |} the_bump the_acceptance (Z.le_refl 0) back_reachable _ _ _ eq_refl _).
  - cbn [shared]. rewrite Hs. intros x Hx. apply elem_of_cons in Hx as [->|Hx]; [lia|]. apply list_elem_of_singleton in Hx as ->. lia.
  - cbn [shared]. rewrite Hb. by apply list_elem_of_singleton.
  - cbn [shared]. rewrite Ha. by apply list_elem_of_singleton.
  - vm_compute. discriminate.
Defined.

Definition login_event : json :=
  JObj [("tags", JList [JList [JStr "t"; JStr "brainstorm_login"]; JList [JStr "challenge"; JStr "n1"]])].
Definition asked : Auth := (run_act (generate_nostr_auth_challenge alice "n1") start).2.

(** The second answer to a challenge is refused. *)
Example second_login_refused :
  (run_act (verify_nostr_auth_challenge (Ok tt) alice login_event) asked).1 = Ok "new"
  /\ (run_act (verify_nostr_auth_challenge (Ok tt) alice login_event)
       (run_act (verify_nostr_auth_challenge (Ok tt) alice login_event) asked).2).1 = Raise unauthorized.
Proof. by vm_compute. Qed.

Definition logged_in : Auth := (run_act (login_request (Ok tt) alice login_event)
  (run_act (_ ← generate_nostr_auth_challenge alice "n1"; mret tt) start).2).2.

Lemma login_reachable :
  rtc (pool_step auth_request auth_time) {| shared := start; running := ∅ |} {| shared := logged_in; running := ∅ |}.
Proof.
  etransitivity; [exact (pool_runs auth_request auth_time _ 0%nat {| shared := start; running := ∅ |} (asks_challenge alice "n1") eq_refl)|].
  exact (pool_runs auth_request auth_time _ 0%nat {| shared := (run_act (_ ← generate_nostr_auth_challenge alice "n1"; mret tt) start).2; running := ∅ |}
    (logs_in (Ok tt) alice login_event) eq_refl).
Qed.

Definition the_login : Login := {| lo_nonce := "n1"; lo_pubkey := alice; lo_began := 0 |}.

Lemma challenge_taken_once_witness :
  times_issued "n1" (history logged_in) = 1%nat /\ logins (history logged_in) = [the_login]
  /\ (times_logged_in "n1" (history logged_in) <= times_issued "n1" (history logged_in))%nat
  /\ exists i, i ∈ issues (history logged_in) /\ is_nonce i = "n1" /\ is_pubkey i = alice /\ 0 < is_at i + 300000.
Proof.
  split; [vm_compute; reflexivity|]. split; [vm_compute; reflexivity|].
  destruct (challenge_taken_once 0 {[ alice := 0 ]} {| shared := logged_in; running := ∅ |} "n1" login_reachable) as [Hle Hall].
  split; [exact Hle|]. apply (Hall the_login). vm_compute. apply list_elem_of_here.
Defined.
End SessionScenario.
