(* ===== verification/ShortUrl.v ===== *)
(** * Short links

    [src/app/utils/shorturl_entities.py], [src/app/services/shorturl_service.py],
    [src/app/repos/short_url_repo.py], [src/app/routers/shorturl/router.py] and the
    validators of [CreateShortUrlBody].

    A code stands for an entity.  The state is the table in order of creation; an insert
    with its commit is one unit, which the two unique indexes refuse when the code or
    the entity is taken.  What [nostr_sdk] encodes and decodes is the class
    [Nip19Env]. *)

From Stdlib Require Import Ascii String.
From S2P Require Import Prelude Json Url Atomic NostrTags Flash.
From stdpp Require Import list.
Local Open Scope string_scope.
Local Open Scope Z_scope.

(** ** Entities ([shorturl_entities.py]) *)

Inductive EntityKind := KProfile | KEvent | KAddress | KHashtag | KTag.
#[export] Instance EntityKind_eq_dec : EqDecision EntityKind.
Proof. solve_decision. Defined.

(** [parse_pubkey]: hex or npub to hex.  The encoders are [None] where the library raises. *)
Class Nip19Env := {
  parse_pubkey : string -> option string;
  to_npub : string -> string;
  nprofile : string -> list string -> option string;
  nevent : string -> list string -> option string;
  naddr : Z -> string -> string -> list string -> option string;
  relay_netloc_ok : string -> bool;
}.

Definition MAX_ENTITY_KEY_LENGTH : nat := 512.
Definition DCOSL_RELAY : string := "wss://dcosl.brainstorm.world".
Definition SEARCH_RELAY : string := "wss://search.brainstorm.world".
Definition DLIST_KINDS : list Z := [39998; 39999].
Definition PROBE_PUBKEY : string := of_chars (replicate 63 "0"%char) ++ "1".
Definition MAX_HASHTAG_LENGTH : nat := 64.

(** [^[0-9]{1,5}$], at whose end a newline may stand. *)
Definition kind_match (s : string) : bool :=
  let l := chars s in
  existsb (fun n => (n <=? length l)%nat && forallb is_digit (take n l) && at_end (drop n l)) [1; 2; 3; 4; 5]%nat.

(** [quote(value, safe="-_.!~*'()")]. *)
Definition encode_chr (c : ascii) : list ascii :=
  if existsb (Ascii.eqb c) ["!"%char; "*"%char; "'"%char; "("%char; ")"%char] then [c] else quote_chr c.
Definition encode_uri_component (value : string) : string := of_chars (mjoin (encode_chr <$> chars value)).

Definition hex64 (value : string) : res exn string :=
  let value := py_lower value in if hex64_match value then Ok value else Raise ValueError.

Definition bounded (key : string) : res exn string :=
  if (MAX_ENTITY_KEY_LENGTH <? String.length key)%nat then Raise ValueError else Ok key.

(** [key.split(":", 2)] in three parts. *)
Definition address_parts (key : string) : res exn (Z * string * string) :=
  match partition_chars ":" (chars key) with
  | Some (kind, rest) =>
      match partition_chars ":" rest with
      | Some (pubkey, d) =>
          match (if kind_match (of_chars kind) then py_int (of_chars kind) else None) with
          | Some k => if 65535 <? k then Raise ValueError else p ← hex64 (of_chars pubkey); Ok (k, p, of_chars d)
          | None => Raise ValueError
          end
      | None => Raise ValueError
      end
  | None => Raise ValueError
  end.

Definition tag_parts (key : string) : res exn (string * string) :=
  match partition_chars ":" (chars key) with
  | Some (author, slug) =>
      if bool_decide (slug = []) then Raise ValueError else a ← hex64 (of_chars author); Ok (a, of_chars slug)
  | None => Raise ValueError
  end.

Definition remove_hash (s : string) : string :=
  match s with String c r => if Ascii.eqb c "#" then r else s | "" => "" end.

Section links.
Context `{Nip19Env}.

Definition NostrSdkError : exn := OtherException "NostrSdkError".

Definition normalize (kind : EntityKind) (key : string) : res exn string :=
  match kind with
  | KProfile => match parse_pubkey (py_lower key) with Some h => Ok h | None => Raise ValueError end
  | KEvent => hex64 key
  | KAddress => key ← bounded key; a ← address_parts key; let '(k, p, d) := a in Ok (pretty k ++ ":" ++ p ++ ":" ++ d)
  | KHashtag =>
      let word := remove_hash (py_lower key) in
      if negb ((1 <=? String.length word) && (String.length word <=? MAX_HASHTAG_LENGTH))%nat then Raise ValueError
      else if existsb (Ascii.eqb "/") (chars word) || existsb is_space (chars word) then Raise ValueError
      else Ok word
  | KTag => key ← bounded key; t ← tag_parts key; let '(a, slug) := t in Ok (a ++ ":" ++ slug)
  end.

Definition normalize_entity_key (kind : EntityKind) (key : string) : res exn string := normalize kind (py_strip key).

Definition or_sdk {A} (o : option A) : res exn A := match o with Some a => Ok a | None => Raise NostrSdkError end.

Definition entity_path (kind : EntityKind) (key : string) (relays : list string) : res exn string :=
  match kind with
  | KProfile =>
      hex ← or_sdk (parse_pubkey key);
      match relays with
      | [] => Ok ("/p/" ++ to_npub hex)
      | _ => s ← or_sdk (nprofile hex relays); Ok ("/p/" ++ s)
      end
  | KEvent => s ← or_sdk (nevent key relays); Ok ("/e/" ++ s)
  | KAddress =>
      a ← address_parts key;
      let '(k, p, d) := (a : Z * string * string) in
      let relays := if bool_decide (relays = []) && bool_decide (k ∈ DLIST_KINDS) then [DCOSL_RELAY] else relays in
      hex ← or_sdk (parse_pubkey p);
      s ← or_sdk (naddr k hex d relays); Ok ("/e/" ++ s)
  | KHashtag => Ok ("/t/" ++ encode_uri_component key)
  | KTag =>
      t ← tag_parts key;
      hex ← or_sdk (parse_pubkey (t : string * string).1); Ok ("/tags/" ++ to_npub hex ++ "/" ++ encode_uri_component t.2)
  end.

Definition check_relay_encodable (relay : string) : bool :=
  match parse_pubkey PROBE_PUBKEY with Some hex => bool_decide (is_Some (nprofile hex [relay])) | None => false end.

Definition check_relay_search (relay : string) : bool := String.eqb (py_lower (py_rstrip_chr "/" (py_strip relay))) SEARCH_RELAY.

Definition build_entity_path (kind : EntityKind) (key : string) (relays : list string) : res exn string :=
  entity_path kind key (base.filter (fun r => check_relay_encodable r && negb (check_relay_search r) = true) relays).

(** ** The request body *)

Definition MAX_RELAYS : nat := 7.

Definition relay_well_formed (stripped : string) : bool :=
  let u := split_parts (chars stripped) in
  relay_netloc_ok (of_chars (u_netloc u)) && bool_decide (of_chars (u_scheme u) ∈ ["ws"; "wss"])
  && negb (bool_decide (u_netloc u = [])) && check_relay_encodable stripped.

(** What the body holds once validated; anything refused is a 422. *)
Definition create_short_url_body (kind : EntityKind) (key : string) (relays : list string) : res exn (string * list string) :=
  let stripped := py_strip <$> relays in
  if (MAX_RELAYS <? length relays)%nat || negb (forallb relay_well_formed stripped) then Raise (HTTPException 422)
  else match normalize_entity_key kind key with
  | Ok key => Ok (key, base.filter (fun r => check_relay_search r = false) stripped)
  | Raise _ => Raise (HTTPException 422)
  end.

(** ** The service ([shorturl_service.py]) *)

Definition SHORT_CODE_LENGTH : nat := 8.
Definition SHORT_CODE_ALPHABET : string := "0123456789ABCDEFGHJKMNPQRSTVWXYZ".
Definition MAX_GENERATION_ATTEMPTS : nat := 5.

(** [str.maketrans] of the confusables. *)
Definition fold_confusable (c : ascii) : ascii :=
  if Ascii.eqb c "I" || Ascii.eqb c "L" then "1"%char else if Ascii.eqb c "O" then "0"%char else c.

Definition normalize_short_code (raw : string) : string := of_chars (fold_confusable <$> chars (py_upper (py_strip raw))).

Record ShortUrl := { su_short_code : string; su_kind : EntityKind; su_entity_key : string; su_relays : list string }.

(** *** Statements ([short_url_repo.py]) *)

Definition select_short_url_by_code_on_db (code : string) : TX (list ShortUrl) (option ShortUrl) :=
  reads (fun links => head (base.filter (fun r => su_short_code r = code) links)).

Definition select_short_url_by_entity_on_db (kind : EntityKind) (key : string) : TX (list ShortUrl) (option ShortUrl) :=
  reads (fun links => head (base.filter (fun r => su_kind r = kind /\ su_entity_key r = key) links)).

Definition insert_short_url_on_db (code : string) (kind : EntityKind) (key : string) (relays : list string) : TX (list ShortUrl) ShortUrl := fun links =>
  if existsb (fun r => String.eqb (su_short_code r) code || bool_decide (su_kind r = kind) && String.eqb (su_entity_key r) key) links
  then (Raise (DbError IntegrityError), links)
  else
    let row := {| su_short_code := code; su_kind := kind; su_entity_key := key; su_relays := relays |} in
    (Ok row, links ++ [row])%list.

(** The row and its path; building the path may raise. *)
Definition to_created (row : ShortUrl) : res exn (ShortUrl * string) :=
  path ← build_entity_path (su_kind row) (su_entity_key row) (su_relays row); Ok (row, path).

Definition answer (row : ShortUrl) : TX (list ShortUrl) (ShortUrl * string) := fun links => (to_created row, links).

(** One attempt per drawn code; [None] when they run out.  The row is committed with the
    answer, so one whose path does not build is not kept. *)
Fixpoint mint (draws : list string) (kind : EntityKind) (key : string) (relays : list string)
  : act (list ShortUrl) (option (ShortUrl * string)) :=
  match draws with
  | [] => mret None
  | code :: draws =>
      made ← act_try (
                 rp ← session (row ← insert_short_url_on_db code kind key relays; answer row);
                 mret (Some rp))
               (fun e => if bool_decide (e = DbError IntegrityError) then mret None else throw e);
      match made with
      | Some rp => mret (Some rp)
      | None =>
          concurrent ← Tx (select_short_url_by_entity_on_db kind key) Ret;
          match concurrent with
          | Some row => rp ← Ret (to_created row); mret (Some rp)
          | None => mint draws kind key relays
          end
      end
  end.

(** [draws]: what [generate_short_code] gives, five times at most. *)
Definition create_short_url (draws : list string) (kind : EntityKind) (key : string) (relays : list string)
  : act (list ShortUrl) (ShortUrl * string) :=
  existing ← Tx (select_short_url_by_entity_on_db kind key) Ret;
  match existing with
  | Some row => Ret (to_created row)
  | None =>
      made ← mint (take MAX_GENERATION_ATTEMPTS draws) kind key relays;
      match made with
      | Some rp => mret rp
      | None => throw (HTTPException 500)
      end
  end.

Definition create_short_url_endpoint (draws : list string) (kind : EntityKind) (key : string) (relays : list string)
  : act (list ShortUrl) (ShortUrl * string) :=
  body ← Ret (create_short_url_body kind key relays);
  create_short_url draws kind (body : string * list string).1 body.2.

Definition get_short_url_entity (short_code : string) : act (list ShortUrl) (ShortUrl * string) :=
  row ← Tx (select_short_url_by_code_on_db (normalize_short_code short_code)) Ret;
  match row with
  | None => throw (HTTPException 404)
  | Some row => Ret (to_created row)
  end.

(** [^[A-Za-z0-9]{6,32}$]. *)
Definition code_pattern (s : string) : bool :=
  (6 <=? String.length s)%nat && (String.length s <=? 32)%nat && forallb (fun c => is_alpha c || is_digit c) (chars s).

Definition get_short_url_endpoint (short_code : string) : act (list ShortUrl) (ShortUrl * string) :=
  if code_pattern short_code then get_short_url_entity short_code else throw (HTTPException 422).
End links.

(** ** Codes as they are drawn and typed *)

Definition code_chr (c : ascii) : bool := bool_decide (c ∈ chars SHORT_CODE_ALPHABET).

(** A drawn code. *)
Definition drawn (code : string) : Prop := String.length code = SHORT_CODE_LENGTH /\ forallb code_chr (chars code) = true.

(** How a character of a code may be typed: in either case, and with the letters
    that look like its digit. *)
Definition typed_as (c : ascii) : list ascii :=
  c :: (if is_upper c then [lower_chr c] else [])
    ++ (if Ascii.eqb c "1" then ["I"%char; "i"%char; "L"%char; "l"%char] else [])
    ++ (if Ascii.eqb c "0" then ["O"%char; "o"%char] else []).

Lemma typed_back c t : code_chr c = true -> t ∈ typed_as c ->
  (exists u, upper_chr t = [u] /\ fold_confusable u = c) /\ is_space t = false /\ (is_alpha t || is_digit t) = true.
Proof.
  intros Hc Ht. unfold code_chr in Hc. apply bool_decide_eq_true in Hc.
  assert (Hall : forallb (fun c => forallb (fun t => match upper_chr t with [u] => Ascii.eqb (fold_confusable u) c | _ => false end
                  && negb (is_space t) && (is_alpha t || is_digit t)) (typed_as c)) (chars SHORT_CODE_ALPHABET) = true) by (by vm_compute).
  rewrite forallb_forall in Hall. specialize (Hall c). rewrite <- list_elem_of_In in Hall. specialize (Hall Hc).
  rewrite forallb_forall in Hall. specialize (Hall t). rewrite <- list_elem_of_In in Hall. specialize (Hall Ht).
  apply andb_prop in Hall as [Hall H3]. apply andb_prop in Hall as [H1 H2]. apply negb_true_iff in H2.
  split; [|done]. destruct (upper_chr t) as [|u [|]]; try done. exists u. by apply Ascii.eqb_eq in H1.
Qed.

(** However a drawn code is typed, it is read as the code. *)
Lemma typed_normalizes code typed : forallb code_chr (chars code) = true -> Forall2 (fun c t => t ∈ typed_as c) (chars code) (chars typed) ->
  normalize_short_code typed = code /\ forallb (fun c => is_alpha c || is_digit c) (chars typed) = true.
Proof.
  intros Hc Hf. unfold normalize_short_code, py_strip, py_upper.
  assert (Hgo : (fold_confusable <$> mjoin (upper_chr <$> chars typed)) = chars code
    /\ forallb (fun c => negb (is_space c)) (chars typed) = true /\ forallb (fun c => is_alpha c || is_digit c) (chars typed) = true).
  { induction Hf as [|c t cs ts Ht _ IH]; [done|]. simpl in Hc. apply andb_prop in Hc as [Hc Hcs].
    destruct (IH Hcs) as (I1 & I2 & I3). destruct (typed_back c t Hc Ht) as ((u & Hu & Hfold) & Hs & Ha).
    simpl. rewrite Hu, Hs, Ha, I2, I3. split; [|done]. cbn [app fmap list_fmap]. by rewrite Hfold, <- I1. }
  destruct Hgo as (H1 & H2 & H3). rewrite (strip_chars_id _ H2), !chars_of_chars, H1, of_chars_chars. done.
Qed.

Lemma code_typed_plainly code : forallb code_chr (chars code) = true -> normalize_short_code code = code.
Proof.
  intros Hc. apply (typed_normalizes code code Hc). clear Hc. induction (chars code) as [|c l IH]; constructor; [left|done].
Qed.

(** ** Over every interleaving *)

Section reach.
Context `{Nip19Env}.

Record links_ok (links : list ShortUrl) : Prop := {
  codes_drawn : forall r, r ∈ links -> drawn (su_short_code r);
  codes_apart : forall r r', r ∈ links -> r' ∈ links -> su_short_code r = su_short_code r' -> r = r';
  entities_apart : forall r r', r ∈ links -> r' ∈ links -> su_kind r = su_kind r' -> su_entity_key r = su_entity_key r' -> r = r';
}.

Definition only_grows (a b : list ShortUrl) : Prop := a `prefix_of` b.

Lemma grows_refl a : only_grows a a.
Proof. by unfold only_grows. Qed.
Lemma grows_trans a b c : only_grows a b -> only_grows b c -> only_grows a c.
Proof. unfold only_grows. apply transitivity. Qed.

Lemma by_entity_spec kind key links : links_ok links ->
  match head (base.filter (fun r => su_kind r = kind /\ su_entity_key r = key) links) with
  | Some r => r ∈ links /\ su_kind r = kind /\ su_entity_key r = key
  | None => forall r, r ∈ links -> ~ (su_kind r = kind /\ su_entity_key r = key)
  end.
Proof.
  intros _. destruct (base.filter _ links) as [|r l] eqn:E; simpl.
  - intros r Hr Hk. assert (Hin : r ∈ base.filter (fun r => su_kind r = kind /\ su_entity_key r = key) links) by (by apply list_elem_of_filter).
    rewrite E in Hin. set_solver.
  - assert (Hin : r ∈ base.filter (fun r => su_kind r = kind /\ su_entity_key r = key) links) by (rewrite E; set_solver).
    apply list_elem_of_filter in Hin as [? ?]. by split.
Qed.

Lemma insert_ok code kind key relays links : drawn code -> links_ok links ->
  match insert_short_url_on_db code kind key relays links with
  | (Ok row, links') => links' = (links ++ [row])%list /\ links_ok links' /\ su_kind row = kind /\ su_entity_key row = key
  | (Raise e, links') => links' = links
  end.
Proof.
  intros Hd [H1 H2 H3]. unfold insert_short_url_on_db. destruct (existsb _ links) eqn:Ex; [done|]. set (row := {| su_short_code := code |}).
  assert (Hnew : forall r, r ∈ links -> su_short_code r <> code /\ ~ (su_kind r = kind /\ su_entity_key r = key)).
  { intros r Hr. apply not_true_iff_false in Ex. split; [intros E|intros [E1 E2]]; apply Ex, existsb_exists; exists r;
      (split; [by apply list_elem_of_In|]); apply orb_true_iff; [left; by apply String.eqb_eq|right; rewrite bool_decide_true by done; by apply String.eqb_eq]. }
  split; [done|]. split; [|done]. split.
  - intros r [Hr|Hr]%elem_of_app; [by apply H1|]. by apply list_elem_of_singleton in Hr as ->.
  - intros r r' [Hr|Hr]%elem_of_app [Hr'|Hr']%elem_of_app; [by apply H2| | |].
    + apply list_elem_of_singleton in Hr' as ->. intros E. by destruct (Hnew r Hr).
    + apply list_elem_of_singleton in Hr as ->. intros E. by destruct (Hnew r' Hr').
    + by apply list_elem_of_singleton in Hr as ->, Hr' as ->.
  - intros r r' [Hr|Hr]%elem_of_app [Hr'|Hr']%elem_of_app; [by apply H3| | |].
    + apply list_elem_of_singleton in Hr' as ->. intros E1 E2. by destruct (Hnew r Hr) as [_ []].
    + apply list_elem_of_singleton in Hr as ->. intros E1 E2. by destruct (Hnew r' Hr') as [_ []].
    + by apply list_elem_of_singleton in Hr as ->, Hr' as ->.
Qed.

(** What a created answer says is in the table. *)
Definition stands (kind : EntityKind) (key : string) (rp : ShortUrl * string) (links : list ShortUrl) : Prop :=
  rp.1 ∈ links /\ su_kind rp.1 = kind /\ su_entity_key rp.1 = key /\ to_created rp.1 = Ok rp.

Lemma to_created_fst row rp : to_created row = Ok rp -> rp.1 = row.
Proof. unfold to_created. by intros (path & _ & [= <-])%res_bind_Ok. Qed.

Lemma select_safe kind key s0 : safe_from only_grows links_ok s0 (Tx (select_short_url_by_entity_on_db kind key) Ret)
  (fun o links => match o with Some r => r ∈ links /\ su_kind r = kind /\ su_entity_key r = key | None => True end).
Proof.
  apply safe_tx. intros links _ Hi. split; [split; [done|apply grows_refl]|]. unfold select_short_url_by_entity_on_db, reads. cbn [fst snd].
  pose proof (by_entity_spec kind key links Hi) as Hs. by destruct (head _).
Qed.

Lemma answer_safe row kind key s0 : row ∈ s0 -> su_kind row = kind -> su_entity_key row = key ->
  safe_from only_grows links_ok s0 (Ret (to_created row)) (stands kind key).
Proof.
  intros Hr Hk He. destruct (to_created row) as [rp|e] eqn:Et; [|done]. cbn. pose proof (to_created_fst row rp Et) as E. unfold stands. by rewrite E.
Qed.

Lemma mint_safe draws kind key relays s0 : Forall drawn draws ->
  safe_from only_grows links_ok s0 (mint draws kind key relays) (fun o links => from_option (fun rp => stands kind key rp links) True o).
Proof.
  intros Hd. revert s0. induction Hd as [|code draws Hc _ IH]; intros s0; [done|]. cbn [mint].
  eapply act_safe_bind with (P := fun o links => from_option (fun rp => stands kind key rp links) True o); [apply grows_refl|apply grows_trans| |].
  - apply act_safe_try; [apply grows_refl|apply grows_trans| |].
    + eapply act_safe_bind with (P := stands kind key); [apply grows_refl|apply grows_trans| |by intros].
      apply safe_session; [apply grows_refl|]. intros links _ Hi. unfold mbind, TX_mbind.
      pose proof (insert_ok code kind key relays links Hc Hi) as Hins. destruct (insert_short_url_on_db _ _ _ _ links) as [[row|e] links']; [|done].
      destruct Hins as (-> & Hok & Hk & He). unfold answer. destruct (to_created row) as [rp|e] eqn:Et; [|done]. split; [split; [done|by eexists]|].
      pose proof (to_created_fst row rp Et) as E. unfold stands. rewrite E. split; [set_solver|done].
    + intros e s _. by destruct (bool_decide _).
  - intros [rp|] s1 _ Hrp; [exact Hrp|].
    eapply act_safe_bind; [apply grows_refl|apply grows_trans|apply select_safe|]. intros [row|] s2 _ Hrow; [|apply IH].
    destruct Hrow as (Hr & Hk & He). eapply act_safe_bind; [apply grows_refl|apply grows_trans|by apply answer_safe|]. by intros.
Qed.

Lemma create_safe draws kind key relays s0 : Forall drawn draws ->
  safe_from only_grows links_ok s0 (create_short_url draws kind key relays) (stands kind key).
Proof.
  intros Hd. unfold create_short_url. eapply act_safe_bind; [apply grows_refl|apply grows_trans|apply select_safe|].
  intros [row|] s1 _ Hrow; [destruct Hrow as (? & ? & ?); by apply answer_safe|].
  eapply act_safe_bind; [apply grows_refl|apply grows_trans|apply mint_safe|].
  - by apply Forall_take.
  - by intros [rp|] s2 _ Hrp.
Qed.

(** Requests to create; nothing removes or changes a row. *)
Inductive link_request : act (list ShortUrl) unit -> Prop :=
  | creates draws kind key relays : Forall drawn draws -> link_request (_ ← create_short_url_endpoint draws kind key relays; mret tt).

Inductive nothing_else (s : list ShortUrl) : list ShortUrl -> Prop := .

Lemma links_reach links p : links_ok links -> rtc (pool_step link_request nothing_else) {| shared := links; running := ∅ |} p ->
  links_ok (shared p) /\ only_grows links (shared p).
Proof.
  intros Hi Hr. destruct (pool_safe only_grows links_ok grows_refl grows_trans link_request nothing_else) with
    (p := {| shared := links; running := ∅ |} : Pool (list ShortUrl)) (p' := p) as [[Hok _] Hg]; try done.
  intros h s0 [draws kind key relays Hd] _. eapply act_safe_bind with (P := fun _ _ => True); [apply grows_refl|apply grows_trans| |done].
  unfold create_short_url_endpoint. destruct (create_short_url_body kind key relays) as [[k rs]|e]; [|done]. rewrite act_bind_ok.
  eapply safe_mono; [apply grows_refl|apply grows_trans|by apply create_safe|done].
Qed.

Lemma lookup_code links r : links_ok links -> r ∈ links -> head (base.filter (fun x => su_short_code x = su_short_code r) links) = Some r.
Proof.
  intros [_ Ha _] Hr. destruct (base.filter _ links) as [|x l] eqn:E.
  - assert (Hin : r ∈ base.filter (fun x => su_short_code x = su_short_code r) links) by (by apply list_elem_of_filter). rewrite E in Hin. set_solver.
  - assert (Hin : x ∈ base.filter (fun x => su_short_code x = su_short_code r) links) by (rewrite E; set_solver).
    apply list_elem_of_filter in Hin as [Hc Hx]. simpl. f_equal. by apply Ha.
Qed.

Lemma lookup_entity links r : links_ok links -> r ∈ links ->
  head (base.filter (fun x => su_kind x = su_kind r /\ su_entity_key x = su_entity_key r) links) = Some r.
Proof.
  intros Hok Hr. pose proof (by_entity_spec (su_kind r) (su_entity_key r) links Hok) as Hs. destruct (head _) as [x|].
  - destruct Hs as (Hx & H1 & H2). f_equal. by apply (entities_apart _ Hok).
  - by destruct (Hs r Hr).
Qed.
End reach.


(** ** One link *)

Module LinkScenario.

#[export] Instance bench : Nip19Env := {|
  parse_pubkey := fun s => if String.length s =? 64 then Some s else None;
  to_npub := fun s => "npub" ++ s; nprofile := fun s _ => Some ("nprofile" ++ s); nevent := fun s _ => Some ("note" ++ s);
  naddr := fun _ s d _ => Some ("naddr" ++ s ++ d); relay_netloc_ok := fun _ => true;
|}%nat.

Definition draws : list string := ["10ABCDEF"; "10ABCDEG"].
Definition first : res exn (ShortUrl * string) * list ShortUrl := run_act (create_short_url draws KHashtag "nostr" []) [].
Definition link : ShortUrl := {| su_short_code := "10ABCDEF"; su_kind := KHashtag; su_entity_key := "nostr"; su_relays := [] |}.
(** Somebody else's, whose first draw collides. *)
Definition second : act (list ShortUrl) unit := _ ← create_short_url_endpoint draws KHashtag " #Bitcoin " []; mret tt.

Example collision_retried :
  (run_act second [link]).2 = [link; {| su_short_code := "10ABCDEG"; su_kind := KHashtag; su_entity_key := "bitcoin"; su_relays := [] |}].
Proof. by vm_compute. Qed.

Lemma draws_drawn : Forall drawn draws.
Proof. repeat constructor. Qed.


(** A newline behind the author's key of an address passes the validator: the request fails
    when the path is built, as an internal error and not as a 422. *)
Example newline_in_address :
  let key := "30023:" ++ of_chars (replicate 64 "a"%char) ++ String newline "" ++ ":d" in
  create_short_url_body KAddress key [] = Ok (key, []) /\ (run_act (create_short_url_endpoint draws KAddress key []) []).1 = Raise NostrSdkError.
Proof. by vm_compute. Qed.
End LinkScenario.
