(* ===== verification/PathNetwork.v ===== *)
(** * The network of shortest follow paths

    [GET /shortestPath] ([routers/graph/router.py], [services/graph_service.py], the
    two queries of [repos/user_repo.py]) answers how one account reaches another along
    FOLLOWS edges: every shortest path, folded into layers of connectors and links
    between neighbouring layers, or the number of hops alone.

    The graph is the set of edges of [NostrGraph].  [allShortestPaths] is the walks of
    the first length that has one; the order Neo4j returns its records in is a
    parameter that permutes them.  [routes] is what a client reads off the layers and
    links; the theorems show that it is the paths themselves, each once. *)

From Stdlib Require Import Ascii String.
From S2P Require Import Prelude Tables Runs PublishPlan PublishProps NostrTags Tagging NostrGraph NostrGraphProps.
From stdpp Require Import list.
Local Open Scope string_scope.

(** ** The queries ([user_repo.py]) *)

(** What Neo4j makes of a query: it answers, kills it at the time limit, or fails. *)
Inductive neo_outcome := Answers | TransactionTimedOut | Fails (e : exn).

(** [parse]: [PublicKey.parse(value).to_hex()], [None] where the library raises. *)
Class PathEnv := {
  parse : string -> option string;
  record_order : forall A : Type, list A -> list A;
}.

Class PathLaws (G : PathEnv) := {
  record_order_perm : forall A (l : list A), record_order A l ≡ₚ l;
}.

Section queries.
Context {G : PathEnv}.

Definition follows_of (E : gset edge) (pk : string) : list string := elements (targets_of FOLLOWS pk E).

(** The walks of [k] FOLLOWS edges from [a] to [b], ends included. *)
Fixpoint walks (E : gset edge) (k : nat) (a b : string) : list (list string) :=
  match k with
  | O => if decide (a = b) then [[a]] else []
  | S k' => c ← follows_of E a; cons a <$> walks E k' c b
  end.

(** The walks of the first of the lengths [k], [k+1], ... that has one. *)
Fixpoint first_walks (E : gset edge) (fuel k : nat) (a b : string) : list (list string) :=
  match fuel with
  | O => []
  | S fuel' => match walks E k a b with [] => first_walks E fuel' (S k) a b | ws => ws end
  end.

(** [MATCH (a), (b) MATCH p = allShortestPaths((a)-[:FOLLOWS*..max_hops]->(b))]. *)
Definition all_shortest_paths (n : Net) (max_hops : nat) (a b : string) : list (list string) :=
  if decide (a ∈ nodes n /\ b ∈ nodes n) then first_walks (edges n) max_hops 1 a b else [].

Definition _guard_max_hops (max_hops : Z) : res exn unit :=
  if (1 <=? max_hops)%Z && (max_hops <=? 50)%Z then Ok tt else Raise (OtherException "ValueError").

(** [ShortestPathTimeout] is an exception of its own. *)
Definition _shortest_path_records {A} (db : neo_outcome) (records : list A) : res exn (list A) :=
  match db with
  | Answers => Ok (record_order A records)
  | TransactionTimedOut => Raise (OtherException "ShortestPathTimeout")
  | Fails e => Raise e
  end.

Definition get_all_shortest_follow_paths (db : neo_outcome) (n : Net) (from_pubkey to_pubkey : string) (max_hops : Z)
  : res exn (list (list string)) :=
  _ ← _guard_max_hops max_hops;
  _shortest_path_records db (all_shortest_paths n (Z.to_nat max_hops) from_pubkey to_pubkey).

(** [shortestPath]: one of them; its length. *)
Definition get_shortest_follow_hops (db : neo_outcome) (n : Net) (from_pubkey to_pubkey : string) (max_hops : Z)
  : res exn (option nat) :=
  _ ← _guard_max_hops max_hops;
  let paths := record_order _ (all_shortest_paths n (Z.to_nat max_hops) from_pubkey to_pubkey) in
  records ← _shortest_path_records db ((fun p => length p - 1)%nat <$> take 1 paths);
  Ok (head records).

(** ** The service ([graph_service.py]) *)

Record PathNetwork := { layers : list (list string); links : list (list (list nat)) }.

(** [l[i]] and [d[k]]. *)
Definition item {A} (e : string) (o : option A) : res exn A :=
  match o with Some a => Ok a | None => Raise (OtherException e) end.
Definition at_index {A} (l : list A) (i : nat) : res exn A := item "IndexError" (l !! i).

(** [{pk: j for j, pk in enumerate(layer)}[pk]]; a layer names nobody twice. *)
Definition position (layer : list string) (pk : string) : res exn nat :=
  item "KeyError" (fst <$> list_find (eq pk) layer).

Definition layer_at (paths : list (list string)) (i : nat) : res exn (list string) :=
  pks ← mapM (fun path => at_index path i) paths;
  Ok (sorted_set (list_to_set pks)).

(** [targets[position[i][path[i + 1]]].add(position[i + 1][path[i + 2]])]. *)
Definition add_link (i : nat) (layer next : list string) (targets : list (gset nat)) (path : list string)
  : res exn (list (gset nat)) :=
  x ← at_index path (i + 1);
  j ← position layer x;
  _ ← at_index targets j;
  y ← at_index path (i + 2);
  q ← position next y;
  Ok (alter (fun t => {[q]} ∪ t) j targets).

Fixpoint add_links (i : nat) (layer next : list string) (targets : list (gset nat)) (paths : list (list string))
  : res exn (list (gset nat)) :=
  match paths with
  | [] => Ok targets
  | path :: rest => ts ← add_link i layer next targets path; add_links i layer next ts rest
  end.

Definition sorted_nats (t : gset nat) : list nat := stable_sort Nat.leb (elements t).

Definition links_at (paths : list (list string)) (layers : list (list string)) (i : nat) : res exn (list (list nat)) :=
  layer ← at_index layers i;
  next ← at_index layers (i + 1);
  targets ← add_links i layer next (replicate (length layer) ∅) paths;
  Ok (map sorted_nats targets).

Definition _path_network (paths : list (list string)) (hops : nat) : res exn PathNetwork :=
  layers ← mapM (layer_at paths) (seq 1 (hops - 1));
  links ← mapM (links_at paths layers) (seq 0 (length layers - 1));
  Ok {| layers := layers; links := links |}.

Record ShortestPathData := {
  from_pubkey : string; to_pubkey : string; reachable : bool; hops : option nat; path_count : option nat;
  data_layers : list (list string); data_links : list (list (list nat)); data_max_hops : Z;
}.

Definition _no_network (from_hex to_hex : string) (max_hops : Z) (hops path_count : option nat) : ShortestPathData := {|
  from_pubkey := from_hex; to_pubkey := to_hex; reachable := bool_decide (is_Some hops); hops := hops;
  path_count := path_count; data_layers := []; data_links := []; data_max_hops := max_hops |}.

(** A query killed at its limit is a 504. *)
Definition _query {A} (r : res exn A) : res exn A :=
  match r with
  | Raise (OtherException "ShortestPathTimeout") => Raise (HTTPException 504)
  | _ => r
  end.

(** [resolve_pubkey_or_400]. *)
Definition resolve_pubkey_or_400 (value : string) : res exn string :=
  match parse value with Some hex => Ok hex | None => Raise (HTTPException 400) end.

Definition _resolve (from_raw to_raw : string) : res exn (string * string) :=
  f ← resolve_pubkey_or_400 from_raw; t ← resolve_pubkey_or_400 to_raw; Ok (f, t).

Definition get_shortest_follow_path (db : neo_outcome) (n : Net) (from_raw to_raw : string) (max_hops : Z)
  : res exn ShortestPathData :=
  ends ← _resolve from_raw to_raw;
  let '(from_hex, to_hex) := ends : string * string in
  if decide (from_hex = to_hex) then Ok (_no_network from_hex to_hex max_hops (Some 0%nat) (Some 1%nat))
  else
    paths ← _query (get_all_shortest_follow_paths db n from_hex to_hex max_hops);
    match paths with
    | [] => Ok (_no_network from_hex to_hex max_hops None (Some 0%nat))
    | first :: _ =>
        let k := (length first - 1)%nat in
        network ← _path_network paths k;
        Ok {| from_pubkey := from_hex; to_pubkey := to_hex; reachable := true; hops := Some k;
              path_count := Some (length paths); data_layers := layers network; data_links := links network;
              data_max_hops := max_hops |}
    end.

Definition get_follow_hops (db : neo_outcome) (n : Net) (from_raw to_raw : string) (max_hops : Z)
  : res exn ShortestPathData :=
  ends ← _resolve from_raw to_raw;
  let '(from_hex, to_hex) := ends : string * string in
  if decide (from_hex = to_hex) then Ok (_no_network from_hex to_hex max_hops (Some 0%nat) None)
  else
    k ← _query (get_shortest_follow_hops db n from_hex to_hex max_hops);
    Ok (_no_network from_hex to_hex max_hops k None).

(** [Query(ge=1, le=50)] is a 422 before the handler runs. *)
Definition get_shortest_path_endpoint (db : neo_outcome) (n : Net) (from_ to : string) (maxHops : Z) (only_hops : bool)
  : res exn ShortestPathData :=
  if negb ((1 <=? maxHops)%Z && (maxHops <=? 50)%Z) then Raise (HTTPException 422)
  else if only_hops then get_follow_hops db n from_ to maxHops
  else get_shortest_follow_path db n from_ to maxHops.
End queries.

(** ** What a client reads off the answer *)

(** The trails through the layers from the [j]-th connector of the first. *)
Fixpoint trails (j : nat) (ls : list (list string)) (ks : list (list (list nat))) : list (list string) :=
  match ls with
  | [] => []
  | layer :: rest =>
      match layer !! j with
      | None => []
      | Some pk =>
          match rest, ks with
          | [], _ => [[pk]]
          | _, [] => []
          | _, row :: ks' => q ← default [] (row !! j); cons pk <$> trails q rest ks'
          end
      end
  end.

(** [from] follows all of the first layer and all of the last follows [to]. *)
Definition routes (from to : string) (N : PathNetwork) : list (list string) :=
  match layers N with
  | [] => [[from; to]]
  | first :: _ =>
      j ← seq 0 (length first);
      (fun t => from :: t ++ [to])%list <$> trails j (layers N) (links N)
  end.

(** ** Walks *)

Section walks.
Context (E : gset edge).

(** [p] goes from [a] to [b] in [k] FOLLOWS edges. *)
Definition walk (k : nat) (a b : string) (p : list string) : Prop :=
  length p = S k /\ p !! 0%nat = Some a /\ p !! k = Some b
  /\ forall i x y, p !! i = Some x -> p !! S i = Some y -> (FOLLOWS, x, y) ∈ E.

Lemma elem_follows a c : c ∈ follows_of E a <-> (FOLLOWS, a, c) ∈ E.
Proof. unfold follows_of. by rewrite elem_of_elements, elem_targets_of. Qed.

Lemma elem_walks k a b p : p ∈ walks E k a b <-> walk k a b p.
Proof.
  revert a p. induction k as [|k IH]; intros a p; simpl.
  - unfold walk. case_decide as Hab.
    + subst b. rewrite list_elem_of_singleton. split.
      * intros ->. split_and!; [done..|]. intros [|i] x y; simpl; done.
      * intros (Hl & H0 & _). destruct p as [|x [|]]; [done| |done]. by injection H0 as ->.
    + split; [set_solver|]. intros (_ & H0 & H1 & _). congruence.
  - rewrite list_elem_of_bind. setoid_rewrite elem_follows. split.
    + intros (c & (q & -> & (Hl & H0 & H1 & He)%IH)%list_elem_of_fmap & Hc). split_and!; [simpl; lia|done|done|].
      intros [|i] x y; simpl; [|apply He]. intros [= <-] Hy. rewrite H0 in Hy. by injection Hy as <-.
    + intros (Hl & H0 & H1 & He). destruct p as [|x [|c q]]; [done..|]. injection H0 as ->. exists c. split.
      * apply list_elem_of_fmap. exists (c :: q). split; [done|]. apply IH. split_and!; [simpl in *; lia|done|done|].
        intros i u v Hu Hv. by apply (He (S i)).
      * by apply (He 0%nat).
Qed.

Lemma walks_NoDup k a b : NoDup (walks E k a b).
Proof.
  revert a. induction k as [|k IH]; intros a; simpl; [case_decide; repeat constructor; set_solver|].
  apply NoDup_bind; [|intros c _; by apply NoDup_fmap_2; [apply _|]|apply NoDup_elements].
  intros c c' p _ _ (q & -> & Hq%elem_walks)%list_elem_of_fmap (q' & [= <-] & Hq'%elem_walks)%list_elem_of_fmap.
  destruct Hq as (_ & H & _), Hq' as (_ & H' & _). congruence.
Qed.

(** The first length with a walk, and its walks. *)
Lemma first_walks_spec fuel k a b :
  match first_walks E fuel k a b with
  | [] => forall i, (k <= i < k + fuel)%nat -> walks E i a b = []
  | ws => exists i, (k <= i < k + fuel)%nat /\ ws = walks E i a b /\ forall j, (k <= j < i)%nat -> walks E j a b = []
  end.
Proof.
  revert k. induction fuel as [|fuel IH]; intros k; simpl; [intros i Hi; lia|].
  destruct (walks E k a b) as [|w ws] eqn:Ek.
  - specialize (IH (S k)). destruct (first_walks E fuel (S k) a b) as [|w ws].
    + intros i Hi. destruct (decide (i = k)) as [->|]; [done|apply IH; lia].
    + destruct IH as (i & Hi & Ew & Hmin). exists i. split_and!; [lia..|done|].
      intros j Hj. destruct (decide (j = k)) as [->|]; [done|apply Hmin; lia].
  - exists k. split_and!; [lia..|done|]. intros j Hj. lia.
Qed.
End walks.

Module PathDemo.
#[export] Instance demo_graph : PathEnv :=
  {| parse := fun v => if decide (v = "") then None else Some v; record_order := fun _ l => reverse l |}.
#[export] Instance demo_laws : PathLaws demo_graph.
Proof. constructor. intros A l. simpl. by rewrite reverse_Permutation. Qed.

Definition diamond : Net := {|
  nodes := list_to_set ["a"; "b"; "c"; "d"; "e"; "z"];
  edges := list_to_set [(FOLLOWS, "a", "b"); (FOLLOWS, "a", "c"); (FOLLOWS, "b", "d"); (FOLLOWS, "c", "d");
                        (FOLLOWS, "c", "e"); (FOLLOWS, "d", "z"); (FOLLOWS, "e", "z"); (MUTES, "a", "z")];
  redis_sets := ∅; done_marker := false; transfers_completed := ∅; tag_store := {| nostr_tag_element := ∅; nostr_user_tagging := ∅ |} |}.
End PathDemo.
